(* ===== verification/_CoqProject ===== *)
-Q . S2P
Prelude.v
Core.v
Policy.v
Compact.v
CompactSpec.v
CompactKeep.v
CompactText.v
CompactLog.v
Redact.v
RedactSpec.v
RedactSafe.v
FlowDef.v
FlowGraph.v
FlowValid.v
FlowData.v
FlowSnapshot.v
FlowEngine.v
FlowSamples.v
FlowSpec.v
FlowRefine.v
FlowAccept.v
FlowTrace.v
FlowWitness.v
FlowOutcome.v
FlowGate.v
Paths.v
ModelData.v
Gguf.v
GgufProof.v
Protocol.v
ProtocolRequest.v
ProtocolCodec.v
ProtocolProof.v
FlowOperation.v
Artifact.v
StoreDef.v
StoreFlow.v
StoreQueue.v
StoreAudit.v
StoreAccess.v
StoreAuth.v
StoreView.v
Inventory.v
StoreStep.v
StoreEffect.v
StoreFrame.v
StoreApproval.v
StoreInv.v
StoreConsent.v
StoreFlowAuth.v
StoreLedger.v
StoreExport.v
InventorySpec.v
InventoryProof.v
InventoryRescan.v
InventoryState.v
StoreClaim.v
StoreSafety.v
StoreRecover.v
StoreCheckpoint.v
StoreWitness.v
StoreAccessWitness.v
Exec.v
FlowCommand.v
FlowExecute.v
FlowProcess.v
Scheduler.v
ExecLogic.v
ExecSpec.v
ExecParts.v
ExecSave.v
ExecVetted.v
ExecSafety.v
ExecWitness.v
Admission.v
Incoming.v
IncomingProof.v
IncomingGate.v
