(* ===== verification/Prelude.v ===== *)
(** * Pam: flows and their execution, policy, redaction, the store and log compaction

    Pam is a local daemon that runs declarative flows on behalf of registered
    callers. A flow is a TOML document ([src/crates/pam_flow/src/lib.rs]); the
    daemon validates it, starts a run of the flow engine
    ([src/crates/pam_flow/src/engine.rs]) and drives it: it asks the engine for
    the next decision, resolves approvals, evaluates policy
    ([src/crates/pam_policy/src/lib.rs]) before an effect is executed, reports
    results back and checkpoints every published snapshot in the store, which
    accepts a snapshot only if the engine's successor check explains it. Results
    refer to evidence by content digest and handle ([src/crates/pam_core]).
    Every piece of work is a request in the store ([src/crates/pam_store]): it
    is accepted once, claimed under a lease, finished, cancelled or recovered,
    and its events can be replayed. The store also keeps the callers, their
    grants and approvals, decides whether an effect or a run is authorized, and
    writes an audit ledger whose details are redacted first
    ([src/crates/pam_policy/src/redaction.rs]). Long logs are compacted deterministically
    before they are shown ([src/crates/pam_compact]).

    ** Files

    - [Prelude] (this file): the result type with its panic outcome, the
      [let?] notation, machine-width arithmetic, the byte and string operations
      of the Rust standard library the code uses, the hash interface [Sha256],
      and the generic list and encoding lemmas.
    - [Core]: [pam_core] identities, content digests and evidence handles
      ([identity.rs], [evidence.rs]).
    - [Policy]: grants and [evaluate], effect fingerprints, and the approval
      state machine ([pam_policy/src/lib.rs]).
    - [Compact]: the deterministic log compactor ([pam_compact/src/lib.rs]):
      records, omissions, retained neighbourhoods, fragments and rendering.
      [CompactSpec], [CompactKeep], [CompactText], [CompactLog]: its reference
      description and its properties.
    - [Redact]: the redaction of audit details ([redaction.rs]), one definition
      per scanner. [RedactSpec]: the marked ranges as the set of bytes they
      cover, and what rendering does to it; [RedactSafe]: bounds, escaping, the
      secrets that are always covered, and inputs it does not handle.
    - [FlowDef]: the flow schema, all validation rules with their error paths
      and messages, the depth-first cycle search, the normalized TOML and its
      digest ([pam_flow/src/lib.rs]). [FlowGraph] and [FlowValid] prove the
      search correct and the validated definitions safe.
    - [FlowData]: run data, identities and tokens, effect reports, transitions,
      semantic events, outcome reports and the deserializers' checks.
    - [FlowSnapshot]: the validators [validate_standalone_snapshot],
      [validate_snapshot], [validate_snapshot_successor] and
      [validate_snapshot_upgrade], one definition per transition kind.
    - [FlowEngine]: [FlowRun] and every operation of it, in a state and error
      monad: a computation maps a run to a run and an [Ok], [Err] or [Panic]
      outcome, so what an error leaves behind is part of the model.
    - [FlowSpec]: the abstract machine. [snap_inv] is the invariant of a
      snapshot under its definition, [flow_step] the step relation on snapshots
      with one rule per kind of transition; preservation is proved per rule.
    - [FlowRefine]: each engine operation implements [flow_step]; [EngineCall]
      enumerates the public operations and [engine_call] runs one.
    - [FlowAccept]: snapshots of the machine pass the validators, and its steps
      pass the successor check.
    - [FlowTrace]: histories of a run, calls and restarts in any order
      ([run_trace]), and the properties of whole runs.
    - [FlowOutcome], [FlowGate]: results and events survive
      storage; recording is idempotent and identities bind; what the successor
      and upgrade checks guarantee about an arbitrary writer, and two behaviours
      in which engine and validators disagree.
    - [FlowSamples], [FlowWitness]: concrete flows and runs on which the
      hypotheses of the properties hold, evaluated by computation.
    - [Paths]: paths of [std::path] on Unix. [Protocol]: the data of the wire
      contract ([pam_protocol/src/contract.rs]); [ProtocolRequest]: the checks
      and constructors of requests; [ProtocolCodec]: frames and what decoding
      checks ([codec.rs]); [ProtocolProof]: what callers build is what the daemon
      decodes, with concrete requests.
    - [ModelData]: models ([pam_model/src/model.rs], [path.rs], [memory.rs]): keys,
      licences and consent, descriptors, sources and the memory estimate.
      [Gguf]: the parser that inspects a model file ([acquisition.rs]), and the
      file format as data; [GgufProof]: the parser accepts that format.
    - [FlowOperation]: the operation bytes of a stored flow request
      ([pam_daemon/src/flow.rs]).
    - [StoreDef]: the tables of the store as rows, the constraints of the
      schema, the SQL statements and the transaction monad [Tx]
      ([pam_store/src/store.rs], [model.rs], [migrations]). with the
      stored authorization proof of a flow run. [StoreFlow]: flow checkpoints.
      [StoreQueue]: the request queue, leases, recovery, completion,
      cancellation and replay, one definition per Rust function.
    - [StoreAudit]: the audit ledger and its export; [StoreAccess]: callers and
      grants; [StoreAuth]: approvals, authorizations and the acceptance of
      authorized flow runs; [StoreView]: project reads and resets.
    - [Artifact]: normalized agent artifacts and their identifiers
      ([pam_skills/src/model.rs]). [Inventory]: the skill inventory of the store
      and its rescan ([inventory.rs]). [InventorySpec]: what an observation makes
      of an inventory; [InventoryProof], [InventoryRescan], [InventoryState]:
      the loops, the pruning and each branch of a rescan compute it, also among
      the other calls.
    - [StoreStep]: the abstract request state machine [row_step] and the steps
      of the store, within the tokens and terminal results a history may use
      ([Moves]); [StoreEffect]: what each operation does when it succeeds;
      [StoreInv]: the invariant, kept by every call, histories of calls
      ([StoreCall], [run_calls]), and which calls do not interfere. [StoreClaim], [StoreSafety], [StoreRecover],
      [StoreCheckpoint]: the properties of the queue and of the
      checkpoints; [StoreWitness]: a concrete database on which they apply.
    - [Exec]: the daemon's tasks as interaction trees over calls of the store,
      each one transaction of its model, and questions to the operating system.
      [FlowCommand], [FlowExecute], [FlowProcess]: the execution of a flow
      request ([pam_daemon/src/flow.rs]), [process_flow] with all it calls;
      [Scheduler]: the worker of a request and the scheduler's pass
      ([pam_daemon/src/lifecycle.rs]).
    - [ExecLogic]: safety of a task up to any number of steps, its rules, events
      and runs, and what a task emits; [ExecSpec], [ExecParts], [ExecSave]: what
      each part of the executor emits; [ExecVetted]: [process_flow] followed
      with its whole trace; [ExecSafety]: the properties of runs; [ExecWitness]: a flow
      authorized, claimed and executed on the store model, and two defects.
    - [Admission]: what the daemon decides about a request before it asks
      anybody and what a refusal says; that a policy resource names one effect.
      [Incoming]: [handle_incoming] from the frame to the answer, the handlers
      of status, activity, logs, approvals, cancellation, replay, waiting,
      results, briefs, grants and flow runs, and the delivery of messages to
      those who wait ([pam_daemon/src/lifecycle.rs], [flow.rs]).
      [IncomingProof]: the handlers of a granted request; [IncomingGate]: the
      gate before them, the properties, and a frame that is admitted, stored and
      executed.
    - [StoreFrame]: which tables a transaction leaves alone (the class [Frame]
      and its automation). [StoreApproval]: the exact effects of the calls on approvals;
      [StoreConsent], [StoreFlowAuth], [StoreLedger], [StoreExport]: the properties of approvals, flow authorizations, the
      ledger, its export and callers; [StoreAccessWitness]: histories on which
      they apply.

    ** How the code is modelled

    Unsigned integers are [Z] with their widths: checked and saturating
    operations are written out ([checked_add64], [checked_sub8],
    [checked_shl64]), and [typed_definition] states that the fields of a
    definition are in the range of their Rust types. Strings are byte strings;
    character-level operations decode UTF-8 where the code does. [HashMap]s are
    [gmap]s. An index out of range, a failed [expect] and [unreachable!] are the
    [Panic] outcome, which the properties rule out.

    The recursion of [visit] takes fuel [length steps + 1]; each nested call
    marks a new step as being visited, so the depth never exceeds the number of
    steps, and [FlowGraph] proves that the fuel is never exhausted. The loops of
    redaction take as fuel the bytes they have left, and each iteration moves
    forward. All other definitions are structurally recursive.

    SHA-256 is code outside the repository: it is the class [Sha256], an
    arbitrary function on strings. No property assumes it injective; those
    about identities end in "or these two distinct inputs collide"
    ([sha256_collides]). The TOML deserializer is an argument of [parse_toml].
    The MessagePack codec of checkpoints is the class [FlowCodec], with no law
    assumed: the store decodes what it encoded before it writes it. That of the
    wire is the class [WireCodec]; its properties assume that it decodes what it
    encoded ([WireLaws]) and the sizes of the fields it adds ([AttachmentSizes]). The random
    lease token is an argument of [claim], the fresh identifier of an approval
    one of the authorizing calls, and the clock an argument of every call.

    A model file is its bytes, and a seek within 64 bits succeeds, past the end
    of the file too; the [url] crate is the class [UrlLib].

    SQLite is modelled by what the code uses of it: a transaction commits all
    of its writes or none, a statement that violates a constraint fails, rows
    come back in the stated order, and an integer outside 64 bits is an error.

    A task is followed whatever it is answered: the operating system answers
    anything, and the store what it answers in some state, because other tasks
    run between any two calls ([plausible]). A loop of a task is [ITree.iter],
    with no fuel; a property of a run is proved by induction on its events.
    What one [select!] or [timeout] decides is one question, and so are the
    fingerprint of a worktree, the opening of a credential and the parsing,
    building and polling of a connector call. The processes these start (the git
    of a fingerprint, the aws of a connector) are inside the questions: the
    properties of child processes speak of command steps. A handler that is not modelled is
    the question [OsServe], which counts as its one answer.

    ** What the theorems show

    - The engine implements the abstract machine, never panics and never
      publishes a snapshot outside the invariant ([engine_refines_machine],
      [run_snapshots_invariant]).
    - Effects: an effect starts only with its approval, prerequisites and
      condition, within its budget, and a stateful attempt starts again only
      after it was reconciled as not applied ([effects_execute_safely],
      [stateful_effect_started_once], [result_recording_idempotent]).
    - Progress: the scheduler always has a decision, and the number of
      transitions of a run is bounded ([scheduler_never_stalls],
      [transitions_are_bounded], [terminal_runs_are_final]).
    - Durability: history is append-only, the store accepts what the engine
      publishes and resumes from it, and the gate protects the history from any
      other writer ([history_is_append_only], [store_accepts_published],
      [snapshots_resume], [successor_gate_sound], [upgrade_gate_sound]).
      Acceptance and resumption hold for definitions whose approval-requiring
      steps are unconditional; [FlowGate] shows that the restriction is
      needed.
    - Definitions: validation terminates without a panic, accepts exactly the
      acyclic graphs and establishes the safety rules of a definition
      ([validate_acyclic_correct], [validated_definition_safe],
      [definition_validate_no_panic]).
    - Policy: [evaluate] is the deny-overrides policy whatever the order of the
      grants; an approval is consumed at most once, for the effect it was
      requested for ([evaluate_meaning], [evaluate_order_independent],
      [fingerprint_binds_effect], [approval_consumed_at_most_once]).
    - The queue: every call keeps the store's invariant; requests of a project
      are served first in, first out, one at a time, and a claim fails only if
      the next in line cannot be served; a lost lease is fenced off for good;
      acceptance is idempotent, finished requests are final, a cancellation ends
      as cancelled unless the stored terminal checkpoint of its flow run says
      otherwise, recovery is exact, replay returns the whole
      log and the queue drains ([store_invariant], [claim_serves_fifo],
      [stale_lease_fenced], [accept_idempotent], [terminal_requests_final],
      [cancellation_never_lost], [recovery_exact], [replay_exact],
      [queue_drains]).
    - Checkpoints: what was saved is loaded, a repeated save is harmless, and
      the stored snapshots follow the successor relation
      ([checkpoint_round_trip], [checkpoint_save_idempotent],
      [checkpoint_history]).
      These and the following properties hold over histories in which all the
      store's calls interleave; those that a reset ends say so.
    - Authorization: whatever is allowed was granted and not denied, with the
      approval it needed; stored approvals refine the approval machine of the
      policy and authorize once; the proof of an accepted flow run stands; a
      revoked caller is locked out ([effects_authorized],
      [stored_approvals_refine], [approval_spent_once],
      [flow_authorizations_stand], [revoked_caller_locked_out],
      [registered_caller_authenticates]).
    - The ledger: its events are well formed and never change, a decision and
      its event are one transaction, and the paged export is complete
      ([audit_ledger_invariant], [decisions_recorded],
      [audit_export_complete]).
    - The protocol: every request a caller can build is decoded to itself, and
      the room reserved for the attachments of a flow request is enough
      ([requests_round_trip], [flow_attachments_fit]); the stored operation of a
      run is canonical ([operation_canonical]).
    - Execution: a command or a connector call happens only for a read-only step
      whose start is stored, after its authorization and, for a command, with the
      accepted worktree, and never after the executor has been told to stop; each
      child of a command step is terminated and waited for, evidence is bounded and addressed by its content, and a worker
      announces what the store holds ([flow_commands_vetted],
      [flow_connector_calls_vetted], [nothing_starts_after_halt],
      [flow_children_reaped], [flow_evidence_addressed],
      [worker_announces_stored_result]). On one concrete run, a connector message
      that the engine refuses makes the request fail again after every recovery
      (the example [refused_connector_message_repeats]), and a search path that
      cannot be joined is inherited ([unjoinable_path_is_inherited]).
    - Requests: nothing is served before the caller is authenticated and
      exactly this effect is allowed, nothing reaches a request of another
      project, and each request is answered once ([requests_are_gated],
      [requests_are_answered_once]); a policy resource names one effect
      ([policy_resource_exact]); who waits sees every event once
      ([events_delivered_once]).
    - The inventory: a rescan computes exactly the next inventory and reports
      the difference, refuses stale and conflicting observations, and the listing
      is always the last accepted observation ([rescan_exact],
      [rescan_refusals], [listing_is_last_observation]).
    - Redaction: bounded and printable output, and three shapes of secrets that
      are always marked ([redaction_bounded], [secrets_redacted]); the gaps are
      shown by [redaction_gaps].
    - Models: a file is accepted exactly if it is a well-formed GGUF file, and
      what is returned is its metadata ([inspect_gguf_exact]); an accepted
      memory estimate fits the host ([estimate_memory_fits]).
    - Compaction: the fragments give the source back, failures survive, each
      record's fate is the stated one, the rendered text is printable and
      compaction always succeeds on bounded input ([fragments_rehydrate_source],
      [dispositions_exact], [failures_survive], [rendered_text_printable],
      [compaction_total]).
    - Canonical forms and bounds of digests, handles, results, reports and
      retry waits.

    ** What is not modelled

    Of the daemon, the handlers of models, connectors, evidence, resets, usage
    statistics and the list of callers, the connection loop around
    [handle_incoming] and the model service; the connectors,
    the download and installation of models and their runtime, the skill library, the platform layer and the user
    interfaces are input and output around this core. Serialization to JSON is not modelled; the checks the
    deserializers add are. Of the store, [project_usage] is left out, whose SQL
    leaves the order of ties open, and [list_callers], a plain read. Still to be
    modelled: the evidence files of the store, its registries of models,
    connectors and skill reports, and the in-memory project queue. *)

From Stdlib Require Export ZArith Lia Ascii.
From stdpp Require Export strings gmap pretty.
From stdpp Require Export list.

#[global] Arguments String.append !s1 s2 : simpl nomatch.

(** ** Fallible computations

    Rust's [Result<A, E>], with a third outcome for a panic (an index out of
    range, a failed [expect], [unreachable!]). *)

Inductive res (E A : Type) : Type :=
| Ok (a : A)
| Err (e : E)
| Panic.

Arguments Ok {E A} _.
Arguments Err {E A} _.
Arguments Panic {E A}.

Declare Scope pam_scope.
Delimit Scope pam_scope with pam.
Open Scope pam_scope.

(** [let? x := m in k] is [let x = m?; k]: an error or a panic of [m] is the
    result of the whole computation. *)
Notation "'let?' x ':=' m 'in' k" :=
  (match m with Ok x => k | Err e => Err e | Panic => Panic end)
  (at level 10, x pattern, m at level 100, k at level 200) : pam_scope.

Definition is_ok {E A} (r : res E A) : bool :=
  match r with Ok _ => true | _ => false end.

(** [Result::map_err]. *)
Definition map_err {E F A} (f : E -> F) (r : res E A) : res F A :=
  match r with Ok a => Ok a | Err e => Err (f e) | Panic => Panic end.

(** [Option::ok_or]. *)
Definition ok_or {E A} (o : option A) (e : E) : res E A :=
  match o with Some a => Ok a | None => Err e end.

(** Indexing and [Option::expect]: a panic when the value is absent. *)
Definition or_panic {E A} (o : option A) : res E A :=
  match o with Some a => Ok a | None => Panic end.

(** A loop that may return early. *)
Fixpoint iter_res {E A} (f : A -> res E unit) (l : list A) : res E unit :=
  match l with
  | [] => Ok tt
  | x :: l => let? _ := f x in iter_res f l
  end.

(** [iter().enumerate()]. *)
Fixpoint enumerate_from {A} (n : nat) (l : list A) : list (nat * A) :=
  match l with
  | [] => []
  | x :: l => (n, x) :: enumerate_from (S n) l
  end.
Definition enumerate {A} (l : list A) : list (nat * A) := enumerate_from 0 l.

(** [iter().position(p)]. *)
Fixpoint position {A} (p : A -> bool) (l : list A) : option nat :=
  match l with
  | [] => None
  | x :: l => if p x then Some 0 else S <$> position p l
  end.

(** ** Machine integers

    Unsigned integers are [Z]; the operations that can leave their width are
    written out. [usize] values that index or measure a list are [nat]. *)

Definition u8_max : Z := 255.
Definition u64_max : Z := 18446744073709551615.

Definition wrap8 (z : Z) : Z := z `mod` 256.
Definition wrap64 (z : Z) : Z := z `mod` 18446744073709551616.

(** [u64::checked_add]. *)
Definition checked_add64 (a b : Z) : option Z :=
  if (a + b <=? u64_max)%Z then Some (a + b)%Z else None.

(** [u8::checked_sub]. *)
Definition checked_sub8 (a b : Z) : option Z :=
  if (b <=? a)%Z then Some (a - b)%Z else None.

(** [saturating_sub] on an unsigned type. *)
Definition saturating_sub (a b : Z) : Z := Z.max 0 (a - b).

(** [u64::checked_shl]: [None] only when the shift is not below the width; the
    bits shifted out of the word are lost. *)
Definition checked_shl64 (a shift : Z) : option Z :=
  if (shift <? 64)%Z then Some (wrap64 (Z.shiftl a shift)) else None.

(** [u8::try_from(usize)]. *)
Definition u8_try_from {E} (n : nat) (e : E) : res E Z :=
  if (Z.of_nat n <=? u8_max)%Z then Ok (Z.of_nat n) else Err e.

(** ** Strings

    A Rust [String] is its UTF-8 bytes; [len] counts bytes and [chars] decodes
    the code points. Every string of the program is valid UTF-8, and [chars]
    is only meaningful there. *)

Definition len (s : string) : Z := Z.of_nat (String.length s).
Definition str_is_empty (s : string) : bool :=
  match s with EmptyString => true | _ => false end.
Definition byte_val (a : ascii) : Z := Z.of_N (N_of_ascii a).
Definition bytes (s : string) : list ascii := String.list_ascii_of_string s.
Definition of_bytes (l : list ascii) : string := String.string_of_list_ascii l.

Definition in_range (lo hi : Z) (a : ascii) : bool :=
  ((lo <=? byte_val a) && (byte_val a <=? hi))%Z.
Definition is_ascii_lowercase (a : ascii) : bool := in_range 97 122 a.
Definition is_ascii_uppercase (a : ascii) : bool := in_range 65 90 a.
Definition is_ascii_digit (a : ascii) : bool := in_range 48 57 a.
Definition is_ascii_alphanumeric (a : ascii) : bool :=
  is_ascii_lowercase a || is_ascii_uppercase a || is_ascii_digit a.

(** [matches!(byte, b'x' | b'y' | ...)] with the bytes listed as a string. *)
Definition one_of (set : string) (a : ascii) : bool :=
  existsb (Ascii.eqb a) (bytes set).

Definition to_ascii_lowercase_byte (a : ascii) : ascii :=
  if is_ascii_uppercase a then ascii_of_N (N_of_ascii a + 32)%N else a.
Fixpoint to_ascii_lowercase (s : string) : string :=
  match s with
  | EmptyString => EmptyString
  | String a s => String (to_ascii_lowercase_byte a) (to_ascii_lowercase s)
  end.

(** The code points of a UTF-8 string. *)
Fixpoint chars (s : string) : list Z :=
  match s with
  | EmptyString => []
  | String a s1 =>
    let b0 := byte_val a in
    if (b0 <? 128)%Z then b0 :: chars s1
    else match s1 with
    | EmptyString => []
    | String b s2 =>
      let b1 := (byte_val b `mod` 64)%Z in
      if (b0 <? 224)%Z then ((b0 `mod` 32) * 64 + b1)%Z :: chars s2
      else match s2 with
      | EmptyString => []
      | String c s3 =>
        let b2 := (byte_val c `mod` 64)%Z in
        if (b0 <? 240)%Z then ((b0 `mod` 16) * 4096 + b1 * 64 + b2)%Z :: chars s3
        else match s3 with
        | EmptyString => []
        | String d s4 =>
          let b3 := (byte_val d `mod` 64)%Z in
          ((b0 `mod` 8) * 262144 + b1 * 4096 + b2 * 64 + b3)%Z :: chars s4
        end
      end
    end
  end.

(** [char::is_control]: the Unicode category Cc. *)
Definition is_control (c : Z) : bool :=
  ((c <=? 31) || ((127 <=? c) && (c <=? 159)))%Z.

(** [char::is_whitespace]: the Unicode property White_Space. *)
Definition is_whitespace (c : Z) : bool :=
  (((9 <=? c) && (c <=? 13)) || (c =? 32) || (c =? 133) || (c =? 160)
   || (c =? 5760) || ((8192 <=? c) && (c <=? 8202)) || (c =? 8232)
   || (c =? 8233) || (c =? 8239) || (c =? 8287) || (c =? 12288))%Z.

Fixpoint drop_while {A} (p : A -> bool) (l : list A) : list A :=
  match l with
  | [] => []
  | x :: l' => if p x then drop_while p l' else l
  end.

(** [str::trim], on the code points. *)
Definition trim_chars (l : list Z) : list Z :=
  reverse (drop_while is_whitespace (reverse (drop_while is_whitespace l))).
Definition is_trimmed (s : string) : bool :=
  bool_decide (trim_chars (chars s) = chars s).

(** [str::split(p)] for a predicate on ASCII separators: always at least one
    segment. *)
Fixpoint split_on (p : ascii -> bool) (s : string) : list string :=
  match s with
  | EmptyString => [EmptyString]
  | String a s' =>
    if p a then EmptyString :: split_on p s'
    else match split_on p s' with
         | [] => [String a EmptyString]
         | seg :: rest => String a seg :: rest
         end
  end.

(** [str::contains(needle)]. *)
Fixpoint str_contains (needle s : string) : bool :=
  String.prefix needle s
  || match s with EmptyString => false | String _ s' => str_contains needle s' end.

(** [str::strip_prefix]. *)
Fixpoint strip_prefix (p s : string) : option string :=
  match p, s with
  | EmptyString, _ => Some s
  | String a p', String b s' => if Ascii.eqb a b then strip_prefix p' s' else None
  | String _ _, EmptyString => None
  end.

(** The remainder of [str::split_once(needle)]. *)
Fixpoint after_first (needle s : string) : option string :=
  match strip_prefix needle s with
  | Some rest => Some rest
  | None => match s with EmptyString => None | String _ s' => after_first needle s' end
  end.

(** [str::split_once(c)]'s first half, or the whole string. *)
Fixpoint before_first (p : ascii -> bool) (s : string) : string :=
  match s with
  | EmptyString => EmptyString
  | String a s' => if p a then EmptyString else String a (before_first p s')
  end.

Definition str_filter (p : ascii -> bool) (s : string) : string :=
  of_bytes (List.filter p (bytes s)).

(** [str::trim_start_matches] and [str::trim_matches] for ASCII characters. *)
Definition trim_start_matches (p : ascii -> bool) (s : string) : string :=
  of_bytes (drop_while p (bytes s)).
Definition trim_matches (p : ascii -> bool) (s : string) : string :=
  of_bytes (reverse (drop_while p (reverse (drop_while p (bytes s))))).

(** [bytes().enumerate().all(p)]. *)
Definition all_bytes_indexed (p : nat -> ascii -> bool) (s : string) : bool :=
  forallb (fun '(i, b) => p i b) (enumerate (bytes s)).
Definition all_bytes (p : ascii -> bool) (s : string) : bool := forallb p (bytes s).

(** [u64::to_be_bytes]. *)
Definition be_byte (z : Z) (i : Z) : ascii :=
  ascii_of_N (Z.to_N ((Z.shiftr z (8 * i)) `mod` 256)).
Definition to_be_bytes64 (z : Z) : string :=
  of_bytes ((be_byte z) <$> [7; 6; 5; 4; 3; 2; 1; 0]%Z).

(** A double quote, and the zero byte that ends a hash domain tag. *)
Definition dq : string := String (ascii_of_nat 34) EmptyString.
Definition nul : string := String (ascii_of_nat 0) EmptyString.

(** [SHA-256] is a third-party function: a parameter of every definition that
    hashes, which nothing below assumes anything about. *)
Class Sha256 := sha256 : string -> string.

(** Two given texts that collide under the hash in use. *)
Definition sha256_collides `{Sha256} (x y : string) : Prop := x <> y /\ sha256 x = sha256 y.

(** [slice.join(sep)]. *)
Fixpoint str_join (sep : string) (l : list string) : string :=
  match l with
  | [] => EmptyString
  | [s] => s
  | s :: rest => s +:+ sep +:+ str_join sep rest
  end.

(** ** Lemmas on strings *)

Lemma append_inj_l (p s t : string) : p +:+ s = p +:+ t -> s = t.
Proof. induction p as [|a p IH]; simpl; [done|]. intros [= H]. auto. Qed.

Lemma strip_prefix_Some p s rest : strip_prefix p s = Some rest <-> s = p +:+ rest.
Proof.
  revert s; induction p as [|a p IH]; intros s; simpl.
  - split; [by intros [= ->]|by intros ->].
  - destruct s as [|b s]; [split; discriminate|].
    destruct (Ascii.eqb_spec a b) as [->|Hne].
    + rewrite IH. split; [by intros ->|by intros [= ->]].
    + split; [discriminate|by intros [= <- _]].
Qed.

Lemma substring_0_all s : String.substring 0 (String.length s) s = s.
Proof. induction s as [|a s IH]; simpl; [done|]. by rewrite IH. Qed.

Lemma substring_app_r p s :
  String.substring (String.length p) (String.length (p +:+ s) - String.length p) (p +:+ s) = s.
Proof.
  induction p as [|a p IH]; simpl; [|done].
  rewrite Nat.sub_0_r. apply substring_0_all.
Qed.

Lemma byte_val_range a : (0 <= byte_val a < 256)%Z.
Proof. unfold byte_val. pose proof (N_ascii_bounded a). lia. Qed.

Lemma append_nil_r (s : string) : s +:+ "" = s.
Proof. induction s as [|a s IH]; simpl; [done|]. by rewrite IH. Qed.

Lemma append_assoc (s t u : string) : (s +:+ t) +:+ u = s +:+ t +:+ u.
Proof. induction s as [|a s IH]; simpl; [done|]. by rewrite IH. Qed.

Lemma existsb_false_elem {A} (p : A -> bool) l :
  existsb p l = false -> forall x, x ∈ l -> p x = false.
Proof.
  intros H x Hx. apply list_elem_of_In in Hx.
  destruct (p x) eqn:E; [|done].
  assert (existsb p l = true) by (apply existsb_exists; eauto). congruence.
Qed.

Lemma existsb_all_false {A} (p : A -> bool) l :
  Forall (fun x => p x = false) l -> existsb p l = false.
Proof. induction 1 as [|x l Hx _ IH]; simpl; [done|]. by rewrite Hx. Qed.

Lemma split_on_not_nil p s : split_on p s <> [].
Proof. destruct s as [|a s]; simpl; [done|]. destruct (p a); [done|]. by destruct (split_on p s). Qed.

Lemma split_on_none p s : forallb (fun a => negb (p a)) (bytes s) = true -> split_on p s = [s].
Proof.
  unfold bytes. induction s as [|a s IH]; simpl; [done|].
  intros [Ha Hs]%andb_true_iff. apply negb_true_iff in Ha. rewrite Ha, (IH Hs). done.
Qed.

Lemma split_on_app p s c t :
  p c = true -> forallb (fun a => negb (p a)) (bytes s) = true ->
  split_on p (s +:+ String c t) = s :: split_on p t.
Proof.
  unfold bytes. intros Hc. induction s as [|a s IH]; simpl; [by rewrite Hc|].
  intros [Ha Hs]%andb_true_iff. apply negb_true_iff in Ha. rewrite Ha, (IH Hs). done.
Qed.

Lemma split_on_join p c segs :
  p c = true -> segs <> [] ->
  Forall (fun s => forallb (fun a => negb (p a)) (bytes s) = true) segs ->
  split_on p (str_join (String c EmptyString) segs) = segs.
Proof.
  intros Hc. induction segs as [|s segs IH]; [done|]. intros _ Hall.
  apply Forall_cons_1 in Hall as [Hs Hall].
  destruct segs as [|s' segs].
  - by apply split_on_none.
  - change (split_on p (s +:+ String c (str_join (String c EmptyString) (s' :: segs))) = s :: s' :: segs).
    rewrite split_on_app by done. by rewrite IH.
Qed.

Lemma join_split_on p c s :
  (forall a, p a = true -> a = c) -> str_join (String c EmptyString) (split_on p s) = s.
Proof.
  intros Hp. induction s as [|a s IH]; [done|]. simpl.
  destruct (p a) eqn:Ea.
  - apply Hp in Ea as ->. rewrite <-IH at 2.
    destruct (split_on p s) eqn:E; [by apply split_on_not_nil in E|]. done.
  - destruct (split_on p s) as [|seg [|s2 rest]] eqn:E;
      [by apply split_on_not_nil in E| |]; simpl in *; by rewrite IH.
Qed.

(** ** Lemmas on lists *)

Lemma existsb_insert_only {A} (p : A -> bool) (l : list A) i x :
  (i < length l)%nat -> (forall j y, j <> i -> l !! j = Some y -> p y = false) ->
  existsb p (<[i := x]> l) = p x.
Proof.
  intros Hi Hp. destruct (p x) eqn:Ex.
  - apply existsb_exists. exists x. split; [|done]. apply list_elem_of_In.
    apply list_elem_of_lookup. exists i. by rewrite list_lookup_insert_eq.
  - apply existsb_all_false, Forall_lookup. intros j y Hj.
    apply list_lookup_insert_Some in Hj as [(-> & <- & _)|[Hne Hj]]; [done|].
    apply (Hp j); congruence.
Qed.

Lemma existsb_false_lookup {A} (p : A -> bool) l i x :
  existsb p l = false -> l !! i = Some x -> p x = false.
Proof. intros H Hi. eapply existsb_false_elem; [exact H|]. by eapply list_elem_of_lookup_2. Qed.

Lemma existsb_true_elem {A} (p : A -> bool) l : existsb p l = true <-> exists x, x ∈ l /\ p x = true.
Proof.
  rewrite existsb_exists. split; intros (x & Hx & Hp); exists x; (split; [|done]);
    by apply list_elem_of_In.
Qed.

Lemma forallb_true_elem {A} (p : A -> bool) l : forallb p l = true <-> forall x, x ∈ l -> p x = true.
Proof.
  rewrite forallb_forall. split; intros Hp x Hx; apply Hp; by apply list_elem_of_In.
Qed.

(** A list with one element replaced: the new one and the others. *)
Lemma insert_lookup_split {A} (l : list A) i x j y :
  <[i := x]> l !! j = Some y -> (j = i /\ y = x) \/ (j <> i /\ l !! j = Some y).
Proof. intros H. apply list_lookup_insert_Some in H as [(-> & <- & _)|[? ?]]; auto. Qed.

Lemma insert_elem_split {A} (l : list A) i x y :
  y ∈ <[i := x]> l -> y = x \/ exists j, j <> i /\ l !! j = Some y.
Proof. intros [j Hj]%list_elem_of_lookup. apply insert_lookup_split in Hj as [[_ ->]|?]; eauto. Qed.

(** ** Length-prefixed encodings *)

Section prefixed.
Local Open Scope Z_scope.

Lemma be_byte_inj z1 z2 i :
  be_byte z1 i = be_byte z2 i -> Z.shiftr z1 (8 * i) `mod` 256 = Z.shiftr z2 (8 * i) `mod` 256.
Proof.
  unfold be_byte. intros H. apply (f_equal N_of_ascii) in H.
  pose proof (Z.mod_pos_bound (Z.shiftr z1 (8 * i)) 256 ltac:(lia)).
  pose proof (Z.mod_pos_bound (Z.shiftr z2 (8 * i)) 256 ltac:(lia)).
  rewrite !N_ascii_embedding in H by lia. lia.
Qed.

(** One more base-256 digit: the quotients agree one position lower. *)
Lemma digit_step z1 z2 i :
  0 <= i -> Z.shiftr z1 (8 * (i + 1)) = Z.shiftr z2 (8 * (i + 1)) ->
  be_byte z1 i = be_byte z2 i -> Z.shiftr z1 (8 * i) = Z.shiftr z2 (8 * i).
Proof.
  intros Hi Hq Hd%be_byte_inj.
  replace (8 * (i + 1)) with (8 * i + 8) in Hq by lia.
  rewrite <-!Z.shiftr_shiftr in Hq by lia.
  rewrite (Z.shiftr_div_pow2 _ 8), (Z.shiftr_div_pow2 _ 8) in Hq by lia.
  change (2 ^ 8) with 256 in Hq.
  rewrite (Z.div_mod (Z.shiftr z1 (8 * i)) 256), (Z.div_mod (Z.shiftr z2 (8 * i)) 256) by lia.
  congruence.
Qed.

Lemma to_be_bytes64_inj z1 z2 :
  0 <= z1 <= u64_max -> 0 <= z2 <= u64_max ->
  to_be_bytes64 z1 = to_be_bytes64 z2 -> z1 = z2.
Proof.
  unfold to_be_bytes64, u64_max. cbn [fmap list_fmap of_bytes String.string_of_list_ascii].
  intros H1 H2 H. injection H as E7 E6 E5 E4 E3 E2 E1 E0.
  assert (E8 : Z.shiftr z1 (8 * (7 + 1)) = Z.shiftr z2 (8 * (7 + 1))).
  { rewrite !Z.shiftr_div_pow2 by lia. rewrite !Z.div_small by lia. done. }
  apply (digit_step _ _ 7) in E8; [|lia|done]. apply (digit_step _ _ 6) in E8; [|lia|done].
  apply (digit_step _ _ 5) in E8; [|lia|done]. apply (digit_step _ _ 4) in E8; [|lia|done].
  apply (digit_step _ _ 3) in E8; [|lia|done]. apply (digit_step _ _ 2) in E8; [|lia|done].
  apply (digit_step _ _ 1) in E8; [|lia|done]. apply (digit_step _ _ 0) in E8; [|lia|done].
  by rewrite !Z.shiftr_0_r in E8.
Qed.

Lemma to_be_bytes64_length z : String.length (to_be_bytes64 z) = 8%nat.
Proof. done. Qed.

Lemma append_inj_length (s1 s2 t1 t2 : string) :
  String.length s1 = String.length s2 -> s1 +:+ t1 = s2 +:+ t2 -> s1 = s2 /\ t1 = t2.
Proof.
  revert s2. induction s1 as [|a s1 IH]; intros [|b s2]; simpl; try discriminate; [done|].
  intros [= Hl] [= -> H]. destruct (IH s2 Hl H) as [-> ->]. done.
Qed.

Definition fits64 (s : string) : Prop := len s <= u64_max.

Lemma prefixed_inj s1 s2 t1 t2 :
  fits64 s1 -> fits64 s2 ->
  (to_be_bytes64 (len s1) +:+ s1) +:+ t1 = (to_be_bytes64 (len s2) +:+ s2) +:+ t2 ->
  s1 = s2 /\ t1 = t2.
Proof.
  unfold fits64. intros F1 F2. rewrite !append_assoc. intros H.
  apply append_inj_length in H as [Hl H]; [|by rewrite !to_be_bytes64_length].
  apply to_be_bytes64_inj in Hl; [|unfold len in *; lia..].
  apply append_inj_length in H; [done|]. unfold len in Hl. lia.
Qed.

End prefixed.

(** ** The order of strings *)

Lemma leb_trans s t u : String.leb s t = true -> String.leb t u = true -> String.leb s u = true.
Proof.
  intros H1 H2. apply Is_true_true. change (String.le s u).
  transitivity t; by apply Is_true_true.
Qed.

Lemma leb_false s t : String.leb s t = false -> String.leb t s = true.
Proof. intros E. destruct (String.leb_total s t) as [H|H]; [congruence|done]. Qed.

(** ** Sequences of fallible computations *)

Lemma let_Ok {E A B} (m : res E A) (k : A -> res E B) b :
  (let? x := m in k x) = Ok b -> exists a, m = Ok a /\ k a = Ok b.
Proof. destruct m; [eauto|done..]. Qed.

(** The first computation of a successful sequence succeeded. *)
Ltac let_ok H :=
  let a := fresh "u" in let Ha := fresh "H" in
  apply let_Ok in H as (a & Ha & H); try destruct a.
