(* ===== verification/Core.v ===== *)
(** * Core identities ([pam_core])

    The shared identifier types and the two validated newtypes of evidence:
    [ContentDigest] (a canonical [sha256:<hex>] text) and [EvidenceHandle] (a
    canonical [evidence://] URI), with the proofs that their parsers accept
    exactly the canonical texts and that the constructors produce them. *)

From S2P Require Import Prelude.

Local Open Scope Z_scope.

(** ** Identifiers

    The identifier newtypes wrap a [String] and compare by content. *)

Definition CallerId := string.
Definition ApprovalId := string.
Definition GrantId := string.
Definition IdempotencyKey := string.
Definition ProjectId := string.
Definition RequestId := string.

Definition DAEMON_SCOPE_PROJECT_ID : string := "daemon".
Definition daemon_scope : ProjectId := DAEMON_SCOPE_PROJECT_ID.
Definition is_daemon_scope (p : ProjectId) : bool :=
  String.eqb p DAEMON_SCOPE_PROJECT_ID.

Definition MAX_CALLER_CREDENTIAL_LENGTH : Z := 256.
Definition credential_is_valid (secret : string) : bool :=
  negb (str_is_empty secret) && (len secret <=? MAX_CALLER_CREDENTIAL_LENGTH).

(** ** Content digests *)

Definition SHA256_PREFIX : string := "sha256:".
Definition SHA256_HEX_LENGTH : Z := 64.

Record ContentDigest := { digest_str : string }.
#[global] Instance content_digest_eq_dec : EqDecision ContentDigest.
Proof. solve_decision. Defined.
Inductive InvalidContentDigest : Type := InvalidDigest.

(** [format!("{byte:02x}")]. *)
Definition hex_digit (n : N) : ascii :=
  if (n <? 10)%N then ascii_of_N (48 + n) else ascii_of_N (87 + n).
Definition hex_byte (a : ascii) : string :=
  String (hex_digit (N_of_ascii a / 16)) (String (hex_digit (N_of_ascii a mod 16)) EmptyString).
Fixpoint hex_string (s : string) : string :=
  match s with
  | EmptyString => EmptyString
  | String a s => hex_byte a +:+ hex_string s
  end.

Definition from_sha256 (digest : string) : ContentDigest :=
  {| digest_str := SHA256_PREFIX +:+ hex_string digest |}.

Definition is_lower_hex (a : ascii) : bool := is_ascii_digit a || in_range 97 102 a.

Definition digest_parse (value : string) : res InvalidContentDigest ContentDigest :=
  match strip_prefix SHA256_PREFIX value with
  | None => Err InvalidDigest
  | Some hex =>
    if negb (len hex =? SHA256_HEX_LENGTH) || negb (all_bytes is_lower_hex hex)
    then Err InvalidDigest
    else Ok {| digest_str := value |}
  end.

(** [&self.0[SHA256_PREFIX.len()..]]. *)
Definition sha256_hex (d : ContentDigest) : string :=
  String.substring 7 (String.length (digest_str d) - 7) (digest_str d).

(** ** Evidence handles *)

Definition EVIDENCE_PREFIX : string := "evidence://".
Definition MAX_EVIDENCE_HANDLE_LENGTH : Z := 512.

Record EvidenceHandle := { handle_str : string }.
Inductive InvalidEvidenceHandle : Type := InvalidHandle.

Definition segment_byte (a : ascii) : bool :=
  is_ascii_lowercase a || is_ascii_digit a || one_of "-_.~" a.
Definition segment_rejected (segment : string) : bool :=
  str_is_empty segment || String.eqb segment "." || String.eqb segment ".."
  || negb (all_bytes segment_byte segment).

Definition is_slash (a : ascii) : bool := Ascii.eqb a "/"%char.

Definition handle_parse (value : string) : res InvalidEvidenceHandle EvidenceHandle :=
  match strip_prefix EVIDENCE_PREFIX value with
  | None => Err InvalidHandle
  | Some path =>
    if (len value >? MAX_EVIDENCE_HANDLE_LENGTH)
       || (Z.of_nat (length (split_on is_slash path)) <? 2)
       || existsb segment_rejected (split_on is_slash path)
    then Err InvalidHandle
    else Ok {| handle_str := value |}
  end.

(** [value.hyphenated()] is the [uuid] crate's rendering, an argument here. *)
Definition from_uuid (hyphenated : string) : EvidenceHandle :=
  {| handle_str := EVIDENCE_PREFIX +:+ "pam/" +:+ hyphenated |}.

(** A byte range in exact evidence. *)
Record EvidenceReference := {
  er_handle : EvidenceHandle;
  er_offset : Z;
  er_length : Z
}.

(** ** Lemmas *)

(** A property of a hexadecimal digit is checked on the sixteen of them. *)
Lemma for_digits (P : N -> bool) n :
  forallb (fun i => P (N.of_nat i)) (seq 0 16) = true -> (n < 16)%N -> P n = true.
Proof.
  rewrite forallb_true_elem. intros Hall Hn. rewrite <-(N2Nat.id n).
  apply Hall, elem_of_seq. lia.
Qed.

Lemma hex_digit_lower n : (n < 16)%N -> is_lower_hex (hex_digit n) = true.
Proof. by apply (for_digits (fun n => is_lower_hex (hex_digit n))). Qed.

Definition hex_value (a : ascii) : N :=
  if (N_of_ascii a <? 58)%N then (N_of_ascii a - 48)%N else (N_of_ascii a - 87)%N.

Lemma hex_value_digit n : (n < 16)%N -> hex_value (hex_digit n) = n.
Proof.
  intros Hn. apply N.eqb_eq. by apply (for_digits (fun n => hex_value (hex_digit n) =? n)%N).
Qed.

Lemma N_of_ascii_div16 a : (N_of_ascii a / 16 < 16)%N.
Proof. pose proof (N_ascii_bounded a). apply N.Div0.div_lt_upper_bound; lia. Qed.

Lemma hex_byte_inj a b : hex_byte a = hex_byte b -> a = b.
Proof.
  intros [= H1 H2]. apply (f_equal hex_value) in H1, H2.
  rewrite !hex_value_digit in H1 by apply N_of_ascii_div16.
  rewrite !hex_value_digit in H2 by (apply N.mod_lt; lia).
  rewrite <-(ascii_N_embedding a), <-(ascii_N_embedding b). f_equal.
  rewrite (N.div_mod (N_of_ascii a) 16), (N.div_mod (N_of_ascii b) 16) by lia. congruence.
Qed.

Lemma hex_string_inj s t : hex_string s = hex_string t -> s = t.
Proof.
  revert t; induction s as [|a s IH]; intros [|b t]; simpl; try discriminate; [done|].
  intros H. injection H as H1 H2 H3.
  rewrite (IH t H3). f_equal. apply hex_byte_inj. unfold hex_byte. congruence.
Qed.

Lemma hex_string_length s : String.length (hex_string s) = (2 * String.length s)%nat.
Proof. induction s as [|a s IH]; simpl; [done|]. rewrite IH. lia. Qed.

Lemma hex_string_lower s : all_bytes is_lower_hex (hex_string s) = true.
Proof.
  unfold all_bytes, bytes. induction s as [|a s IH]; [done|].
  cbn [hex_string hex_byte String.append String.list_ascii_of_string forallb].
  rewrite !hex_digit_lower; [by rewrite IH| |apply N_of_ascii_div16].
  apply N.mod_lt. lia.
Qed.

Lemma digest_str_inj d e : digest_str d = digest_str e -> d = e.
Proof. destruct d, e; simpl. by intros ->. Qed.

Lemma handle_parse_segments segs :
  segs <> [] -> Forall (fun s => segment_rejected s = false) segs ->
  split_on is_slash (str_join "/" segs) = segs.
Proof.
  intros Hne Hall. apply split_on_join; [done|done|].
  eapply Forall_impl; [exact Hall|]. clear. intros s Hs.
  unfold segment_rejected in Hs. rewrite !orb_false_iff, negb_false_iff in Hs.
  destruct Hs as [_ Hs]. unfold all_bytes in Hs.
  rewrite forallb_forall in Hs. apply forallb_forall. intros a Ha.
  specialize (Hs a Ha). unfold is_slash.
  destruct (Ascii.eqb_spec a "/"%char) as [->|]; [discriminate Hs|done].
Qed.

(** ** Properties *)

(** Rendering 32 hash bytes as a content digest and parsing the text
    returns the same digest; its hexadecimal part is the 64-character rendering
    of the bytes, and two different hashes never share a digest. *)
Theorem digest_round_trip (h1 h2 : string) :
  String.length h1 = 32%nat ->
  digest_parse (digest_str (from_sha256 h1)) = Ok (from_sha256 h1)
  /\ sha256_hex (from_sha256 h1) = hex_string h1
  /\ len (sha256_hex (from_sha256 h1)) = SHA256_HEX_LENGTH
  /\ (from_sha256 h1 = from_sha256 h2 -> h1 = h2).
Proof.
  intros Hlen.
  assert (Hhex : sha256_hex (from_sha256 h1) = hex_string h1).
  { unfold sha256_hex, from_sha256. cbn [digest_str].
    rewrite (substring_app_r SHA256_PREFIX). done. }
  assert (Hl : len (hex_string h1) = 64).
  { unfold len. rewrite hex_string_length, Hlen. done. }
  rewrite Hhex. split_and!; [| done | exact Hl |].
  - unfold digest_parse. rewrite (proj2 (strip_prefix_Some _ _ (hex_string h1))) by done.
    rewrite hex_string_lower, Hl. done.
  - intros [= H]. by apply hex_string_inj.
Qed.

(** A content digest parses exactly when the text is [sha256:] followed by
    64 lowercase hexadecimal bytes, and then it is kept verbatim. *)
Theorem digest_parse_canonical (value : string) (d : ContentDigest) :
  digest_parse value = Ok d <->
  d = {| digest_str := value |} /\
  exists hex, value = "sha256:" +:+ hex /\ len hex = 64 /\ all_bytes is_lower_hex hex = true.
Proof.
  unfold digest_parse. destruct (strip_prefix SHA256_PREFIX value) as [hex|] eqn:E.
  - apply strip_prefix_Some in E. split.
    + destruct (_ || _) eqn:Ec; [discriminate|]. intros [= <-].
      rewrite orb_false_iff, !negb_false_iff in Ec. destruct Ec as [El Eb].
      split; [done|]. exists hex. unfold SHA256_HEX_LENGTH in El.
      split_and!; [done|lia|done].
    + intros (-> & h & Hv & Hl & Hb).
      rewrite Hv in E. apply append_inj_l in E as <-. by rewrite Hl, Hb.
  - split; [discriminate|]. intros (_ & hex & -> & _).
    by rewrite (proj2 (strip_prefix_Some _ _ hex)) in E.
Qed.

(** An evidence handle parses exactly when the text is [evidence://]
    followed by at least two nonempty slash-separated segments of lowercase
    letters, digits and [-_.~], none of them a traversal marker, within 512
    bytes; the accepted text is kept verbatim. *)
Theorem evidence_handle_canonical (value : string) (h : EvidenceHandle) :
  handle_parse value = Ok h <->
  h = {| handle_str := value |} /\ len value <= 512 /\
  exists segs, value = "evidence://" +:+ str_join "/" segs /\
    (2 <= length segs)%nat /\
    Forall (fun s => s <> "" /\ s <> "." /\ s <> ".." /\ all_bytes segment_byte s = true) segs.
Proof.
  assert (Hseg : forall s, segment_rejected s = false <->
    s <> "" /\ s <> "." /\ s <> ".." /\ all_bytes segment_byte s = true).
  { intros s. unfold segment_rejected. rewrite !orb_false_iff, negb_false_iff.
    rewrite !String.eqb_neq. destruct s; simpl; intuition congruence. }
  unfold handle_parse. destruct (strip_prefix EVIDENCE_PREFIX value) as [path|] eqn:E.
  - apply strip_prefix_Some in E. split.
    + destruct (_ || _) eqn:Ec; [discriminate|]. intros [= <-].
      rewrite !orb_false_iff in Ec. destruct Ec as [[E1 E2] E3].
      unfold MAX_EVIDENCE_HANDLE_LENGTH in E1. split_and!; [done|lia|].
      exists (split_on is_slash path). split_and!.
      * rewrite (join_split_on is_slash "/"%char); [done|].
        intros a. unfold is_slash. by destruct (Ascii.eqb_spec a "/"%char) as [->|].
      * lia.
      * apply Forall_forall. intros s Hs. apply Hseg.
        by apply (existsb_false_elem _ _ E3).
    + intros (-> & Hlen & segs & Hv & Hn & Hall).
      rewrite Hv in E. apply append_inj_l in E. subst path.
      assert (Hall' : Forall (fun s => segment_rejected s = false) segs).
      { eapply Forall_impl; [exact Hall|]. intros s. apply Hseg. }
      rewrite handle_parse_segments by (try done; intros ->; simpl in Hn; lia).
      rewrite (existsb_all_false _ _ Hall').
      replace (len value >? MAX_EVIDENCE_HANDLE_LENGTH) with false
        by (unfold MAX_EVIDENCE_HANDLE_LENGTH; lia).
      replace (Z.of_nat (length segs) <? 2) with false by lia. done.
  - split; [discriminate|]. intros (_ & _ & segs & -> & _).
    by rewrite (proj2 (strip_prefix_Some _ _ (str_join "/" segs))) in E.
Qed.

Lemma digest_round_trip_witness :
  let h := "0123456789abcdef0123456789ABCDEF" in
  digest_parse (digest_str (from_sha256 h)) = Ok (from_sha256 h).
Proof.
  exact (proj1 (digest_round_trip "0123456789abcdef0123456789ABCDEF" "" eq_refl)).
Defined.
