(* ===== verification/Policy.v ===== *)
(** * Policy decisions and approvals ([pam_policy])

    Bounded names, grants and their evaluation with deny-overrides semantics,
    the effect fingerprint that binds an approval to one effect, and the
    approval state machine. The proofs give the exact meaning of a decision,
    its independence of the order of the grants, the injectivity of the
    fingerprint's encoding and the one-time use of an approval. *)

From S2P Require Import Prelude Core.

Local Open Scope Z_scope.

(** ** Bounded names *)

Definition MAX_CAPABILITY_NAME_BYTES : Z := 128.
Definition MAX_RESOURCE_NAME_BYTES : Z := 1024.

Inductive InvalidName : Type := InvalidCapabilityName | InvalidResourceName.

(** The body of the [bounded_name!] macro's [parse]. *)
Definition bounded_name_parse (error : InvalidName) (maximum : Z) (value : string)
  : res InvalidName string :=
  if str_is_empty value || (len value >? maximum) || existsb is_control (chars value)
  then Err error
  else Ok value.

Definition CapabilityName := string.
Definition ResourceName := string.
Definition capability_parse : string -> res InvalidName CapabilityName :=
  bounded_name_parse InvalidCapabilityName MAX_CAPABILITY_NAME_BYTES.
Definition resource_parse : string -> res InvalidName ResourceName :=
  bounded_name_parse InvalidResourceName MAX_RESOURCE_NAME_BYTES.

(** ** Grants *)

Inductive Effect : Type := Allow | Deny.
Inductive ResourceScope : Type := Any | Exact (r : ResourceName).
Inductive ApprovalRequirement : Type := ApprovalNone | ApprovalOnce.

Definition scope_matches (s : ResourceScope) (resource : ResourceName) : bool :=
  match s with
  | Any => true
  | Exact expected => String.eqb expected resource
  end.

Record Grant := {
  g_id : GrantId;
  g_caller : CallerId;
  g_project : ProjectId;
  g_capability : CapabilityName;
  g_resource : ResourceScope;
  g_effect : Effect;
  g_approval : ApprovalRequirement;
  g_expires_at_ms : option Z;
  g_revoked_at_ms : option Z
}.

(** [Option::is_none_or]. *)
Definition is_none_or {A} (o : option A) (p : A -> bool) : bool :=
  match o with None => true | Some a => p a end.

Definition is_active_at (g : Grant) (now_ms : Z) : bool :=
  is_none_or (g_expires_at_ms g) (fun expiry => now_ms <? expiry)
  && is_none_or (g_revoked_at_ms g) (fun revocation => now_ms <? revocation).

Definition grant_matches (g : Grant) (caller : CallerId) (project : ProjectId)
    (capability : CapabilityName) (resource : ResourceName) (now_ms : Z) : bool :=
  is_active_at g now_ms
  && String.eqb (g_caller g) caller
  && String.eqb (g_project g) project
  && String.eqb (g_capability g) capability
  && scope_matches (g_resource g) resource.

Inductive Decision : Type := Allowed | Denied | ApprovalRequired.

Definition BASELINE_CAPABILITIES : list string :=
  ["daemon.status"; "project.current"; "daemon.stop"; "daemon.activity"; "daemon.logs";
   "daemon.stats"; "caller.list"; "model.status"; "connector.list"; "grant.revoke"].

Definition is_baseline (capability : CapabilityName) : bool :=
  existsb (String.eqb capability) BASELINE_CAPABILITIES.

(** The three flags of the loop of [evaluate]. *)
Record EvalFlags := {
  found_allow : bool;
  found_unconditional_allow : bool;
  found_match : bool
}.

(** The loop over the matching grants: [None] is the early [return Denied]. *)
Fixpoint evaluate_loop (grants : list Grant) (f : EvalFlags) : option EvalFlags :=
  match grants with
  | [] => Some f
  | g :: rest =>
    match g_effect g with
    | Deny => None
    | Allow =>
      evaluate_loop rest
        {| found_allow := true;
           found_unconditional_allow :=
             found_unconditional_allow f
             || match g_approval g with ApprovalNone => true | ApprovalOnce => false end;
           found_match := true |}
    end
  end.

Definition evaluate (grants : list Grant) (caller : CallerId) (project : ProjectId)
    (capability : CapabilityName) (resource : ResourceName) (now_ms : Z) : Decision :=
  let matching :=
    List.filter (fun g => grant_matches g caller project capability resource now_ms) grants in
  match evaluate_loop matching
          {| found_allow := false; found_unconditional_allow := false; found_match := false |} with
  | None => Denied
  | Some f =>
    if found_unconditional_allow f then Allowed
    else if found_allow f then ApprovalRequired
    else if negb (found_match f) && is_baseline capability then Allowed
    else Denied
  end.

(** ** Effect fingerprints *)

Definition length_prefixed (value : string) : string :=
  to_be_bytes64 (len value) +:+ value.

(** The bytes fed to the hasher by [EffectFingerprint::compute]. *)
Definition fingerprint_input (caller : CallerId) (project : ProjectId)
    (capability : CapabilityName) (resource : ResourceName) : string :=
  ("pam-effect-fingerprint-v1" +:+ nul)
  +:+ length_prefixed caller +:+ length_prefixed project
  +:+ length_prefixed capability +:+ length_prefixed resource.

Definition EffectFingerprint := string.
Definition fingerprint_compute `{Sha256} (caller : CallerId) (project : ProjectId)
    (capability : CapabilityName) (resource : ResourceName) : EffectFingerprint :=
  sha256 (fingerprint_input caller project capability resource).

(** ** Approvals *)

Inductive ApprovalState : Type :=
| StRequested | StApproved | StDenied | StConsumed | StExpired.
Inductive ApprovalTransitionError : Type := InvalidTransition | FingerprintMismatch.

#[export] Instance ApprovalState_eq_dec : EqDecision ApprovalState.
Proof. solve_decision. Defined.

Record Approval := {
  a_id : ApprovalId;
  a_caller : CallerId;
  a_project : ProjectId;
  a_capability : CapabilityName;
  a_resource : ResourceName;
  a_fingerprint : EffectFingerprint;
  a_expires_at_ms : Z;
  a_state : ApprovalState
}.

Definition with_state (a : Approval) (s : ApprovalState) : Approval :=
  {| a_id := a_id a; a_caller := a_caller a; a_project := a_project a;
     a_capability := a_capability a; a_resource := a_resource a;
     a_fingerprint := a_fingerprint a; a_expires_at_ms := a_expires_at_ms a; a_state := s |}.

Definition requested `{Sha256} (id : ApprovalId) (caller : CallerId) (project : ProjectId)
    (capability : CapabilityName) (resource : ResourceName) (expires_at_ms : Z) : Approval :=
  {| a_id := id; a_caller := caller; a_project := project; a_capability := capability;
     a_resource := resource;
     a_fingerprint := fingerprint_compute caller project capability resource;
     a_expires_at_ms := expires_at_ms; a_state := StRequested |}.

(** [&mut self] methods return the new approval beside their result. *)
Definition expire_if_due (a : Approval) (now_ms : Z) : Approval * bool :=
  if (match a_state a with StRequested | StApproved => true | _ => false end)
     && (a_expires_at_ms a <=? now_ms)
  then (with_state a StExpired, true)
  else (a, false).

Definition approve (a : Approval) (now_ms : Z)
  : Approval * res ApprovalTransitionError ApprovalState :=
  let (a, expired) := expire_if_due a now_ms in
  if expired then (a, Ok StExpired)
  else if bool_decide (a_state a = StRequested)
       then (with_state a StApproved, Ok StApproved)
       else (a, Err InvalidTransition).

Definition deny (a : Approval) (now_ms : Z)
  : Approval * res ApprovalTransitionError ApprovalState :=
  let (a, expired) := expire_if_due a now_ms in
  if expired then (a, Ok StExpired)
  else if bool_decide (a_state a = StRequested)
       then (with_state a StDenied, Ok StDenied)
       else (a, Err InvalidTransition).

Definition consume (a : Approval) (fingerprint : EffectFingerprint) (now_ms : Z)
  : Approval * res ApprovalTransitionError ApprovalState :=
  let (a, expired) := expire_if_due a now_ms in
  if expired then (a, Ok StExpired)
  else if negb (bool_decide (a_state a = StApproved)) then (a, Err InvalidTransition)
  else if negb (String.eqb (a_fingerprint a) fingerprint) then (a, Err FingerprintMismatch)
  else (with_state a StConsumed, Ok StConsumed).

(** The calls a holder of an approval can make, as a step relation. *)
Inductive ApprovalCall : Type :=
| CallApprove (now_ms : Z)
| CallDeny (now_ms : Z)
| CallConsume (fingerprint : EffectFingerprint) (now_ms : Z).

Definition apply_call (a : Approval) (c : ApprovalCall)
  : Approval * res ApprovalTransitionError ApprovalState :=
  match c with
  | CallApprove now => approve a now
  | CallDeny now => deny a now
  | CallConsume fp now => consume a fp now
  end.

(** A trace of calls with the result of each. *)
Inductive approval_trace (a0 : Approval)
  : list (ApprovalCall * res ApprovalTransitionError ApprovalState) -> Approval -> Prop :=
| trace_nil : approval_trace a0 [] a0
| trace_snoc calls a c a' r :
    approval_trace a0 calls a -> apply_call a c = (a', r) ->
    approval_trace a0 (calls ++ [(c, r)]) a'.

(** ** Evaluation: lemmas *)

Lemma evaluate_loop_spec l f :
  evaluate_loop l f =
  if existsb (fun g => match g_effect g with Deny => true | Allow => false end) l then None
  else Some {| found_allow := found_allow f || negb (bool_decide (l = []));
               found_unconditional_allow := found_unconditional_allow f ||
                 existsb (fun g => match g_approval g with ApprovalNone => true | _ => false end) l;
               found_match := found_match f || negb (bool_decide (l = [])) |}.
Proof.
  revert f. induction l as [|g l IH]; intros f; simpl.
  - rewrite !orb_false_r. by destruct f.
  - destruct (g_effect g); simpl; [|done]. rewrite IH. simpl.
    destruct (existsb _ l); [done|]. by rewrite !orb_true_r, orb_assoc.
Qed.

(** The declarative reading of [evaluate]. *)
Definition decision_spec (matching : list Grant) (baseline : bool) (d : Decision) : Prop :=
  let denied := exists g, g ∈ matching /\ g_effect g = Deny in
  match d with
  | Denied => denied \/ (matching = [] /\ baseline = false)
  | Allowed =>
    ~ denied /\ ((exists g, g ∈ matching /\ g_approval g = ApprovalNone)
                 \/ (matching = [] /\ baseline = true))
  | ApprovalRequired =>
    ~ denied /\ matching <> [] /\ forall g, g ∈ matching -> g_approval g = ApprovalOnce
  end.

Definition matching_grants (grants : list Grant) (caller : CallerId) (project : ProjectId)
    (capability : CapabilityName) (resource : ResourceName) (now_ms : Z) : list Grant :=
  List.filter (fun g => grant_matches g caller project capability resource now_ms) grants.

Lemma existsb_elem {A} (p : A -> bool) l : existsb p l = true <-> exists x, x ∈ l /\ p x = true.
Proof.
  rewrite existsb_exists. split; intros (x & Hx & Hp); exists x; split; try done;
    by apply list_elem_of_In.
Qed.

Lemma evaluate_satisfies grants caller project capability resource now :
  decision_spec (matching_grants grants caller project capability resource now)
    (is_baseline capability) (evaluate grants caller project capability resource now).
Proof.
  unfold evaluate. rewrite evaluate_loop_spec.
  fold (matching_grants grants caller project capability resource now).
  set (m := matching_grants grants caller project capability resource now).
  destruct (existsb (fun g => match g_effect g with Deny => true | Allow => false end) m) eqn:Ed.
  - apply existsb_elem in Ed as (g & Hg & Heff). simpl. left. exists g. by destruct (g_effect g).
  - assert (Hnd : ~ exists g, g ∈ m /\ g_effect g = Deny).
    { intros (g & Hg & Heff). pose proof (existsb_false_elem _ _ Ed g Hg) as H.
      simpl in H. by rewrite Heff in H. }
    simpl. destruct (existsb (fun g => match g_approval g with ApprovalNone => true | _ => false end) m) eqn:Ea.
    + apply existsb_elem in Ea as (g & Hg & Happ). split; [done|]. left.
      exists g. by destruct (g_approval g).
    + destruct (bool_decide (m = [])) eqn:Em; simpl.
      * apply bool_decide_eq_true in Em. destruct (is_baseline capability); simpl; auto.
      * apply bool_decide_eq_false in Em. split_and!; [done|done|].
        intros g Hg. pose proof (existsb_false_elem _ _ Ea g Hg) as H. simpl in H.
        by destruct (g_approval g).
Qed.

Lemma decision_spec_unique matching b d1 d2 :
  decision_spec matching b d1 -> decision_spec matching b d2 -> d1 = d2.
Proof.
  assert (Hnil : forall g : Grant, g ∈ ([] : list Grant) -> False)
    by (intros g Hg; by apply not_elem_of_nil in Hg).
  destruct d1, d2; simpl; try done; intros H1 H2; exfalso.
  - destruct H1 as [Hn [(g & Hg & _)|[-> Hb]]], H2 as [Hd|[Hm Hb']];
      [auto|by rewrite Hm in Hg; eauto|auto|congruence].
  - destruct H1 as [_ [(g & Hg & Hu)|[-> _]]], H2 as (_ & Hne & Ho); [|done].
    rewrite (Ho g Hg) in Hu. discriminate.
  - destruct H2 as [Hn [(g & Hg & _)|[-> Hb]]], H1 as [Hd|[Hm Hb']];
      [auto|by rewrite Hm in Hg; eauto|auto|congruence].
  - destruct H2 as (Hn & Hne & _), H1 as [Hd|[Hm _]]; auto.
  - destruct H2 as [_ [(g & Hg & Hu)|[-> _]]], H1 as (_ & Hne & Ho); [|done].
    rewrite (Ho g Hg) in Hu. discriminate.
  - destruct H1 as (Hn & Hne & _), H2 as [Hd|[Hm _]]; auto.
Qed.

(** ** Fingerprints: lemmas *)

Lemma length_prefixed_inj s1 s2 t1 t2 :
  fits64 s1 -> fits64 s2 ->
  length_prefixed s1 +:+ t1 = length_prefixed s2 +:+ t2 -> s1 = s2 /\ t1 = t2.
Proof. apply prefixed_inj. Qed.

Lemma fingerprint_input_inj c1 p1 k1 r1 c2 p2 k2 r2 :
  fits64 c1 -> fits64 p1 -> fits64 k1 -> fits64 r1 ->
  fits64 c2 -> fits64 p2 -> fits64 k2 -> fits64 r2 ->
  fingerprint_input c1 p1 k1 r1 = fingerprint_input c2 p2 k2 r2 ->
  c1 = c2 /\ p1 = p2 /\ k1 = k2 /\ r1 = r2.
Proof.
  unfold fingerprint_input. intros ? ? ? ? ? ? ? ? H. apply append_inj_l in H.
  apply length_prefixed_inj in H as [-> H]; [|done..].
  apply length_prefixed_inj in H as [-> H]; [|done..].
  apply length_prefixed_inj in H as [-> H]; [|done..].
  rewrite <-(append_nil_r (length_prefixed r1)), <-(append_nil_r (length_prefixed r2)) in H.
  apply length_prefixed_inj in H as [-> _]; done.
Qed.

(** ** Approvals: lemmas *)

Lemma apply_call_keeps a c a' r :
  apply_call a c = (a', r) ->
  a_fingerprint a' = a_fingerprint a /\ a_expires_at_ms a' = a_expires_at_ms a
  /\ a_id a' = a_id a.
Proof.
  destruct c as [now|now|fp now]; simpl; unfold approve, deny, consume, expire_if_due;
    destruct (_ && _); try (intros [= <- <-]; done);
    repeat case_match; intros [= <- <-]; done.
Qed.

(** Where an approval can go in one call, and what the call then returned. *)
Lemma apply_call_states a c a' r :
  apply_call a c = (a', r) ->
  (a' = a /\ (exists e, r = Err e))
  \/ (r = Ok (a_state a') /\
      match a_state a, a_state a' with
      | StRequested, StApproved => exists now, c = CallApprove now
      | StRequested, (StDenied | StExpired) => True
      | StApproved, StExpired => True
      | StApproved, StConsumed =>
          exists now, c = CallConsume (a_fingerprint a) now /\ now < a_expires_at_ms a
      | _, _ => False
      end).
Proof.
  destruct c as [now|now|fp now]; simpl; unfold approve, deny, consume, expire_if_due;
    destruct (a_state a) eqn:Es; simpl;
    try (destruct (a_expires_at_ms a <=? now) eqn:El; simpl);
    rewrite ?Es; repeat (case_bool_decide; try done); simpl;
    try (intros [= <- <-]; simpl; eauto; done).
  destruct (String.eqb_spec (a_fingerprint a) fp) as [<-|Hne]; simpl; intros [= <- <-]; [|left; eauto].
  right. split; [done|]. exists now. split; [done|lia].
Qed.

Definition is_consumption (cr : ApprovalCall * res ApprovalTransitionError ApprovalState) : bool :=
  match cr with (_, Ok StConsumed) => true | _ => false end.

Lemma approval_trace_invariant a0 calls a :
  a_state a0 = StRequested -> approval_trace a0 calls a ->
  a_fingerprint a = a_fingerprint a0 /\ a_expires_at_ms a = a_expires_at_ms a0 /\
  length (List.filter is_consumption calls) =
    (if bool_decide (a_state a = StConsumed) then 1 else 0)%nat /\
  (forall c, (c, Ok StConsumed) ∈ calls ->
     exists now, c = CallConsume (a_fingerprint a0) now /\ now < a_expires_at_ms a0) /\
  (a_state a ∈ [StApproved; StConsumed] -> exists now, (CallApprove now, Ok StApproved) ∈ calls).
Proof.
  intros H0. induction 1 as [|calls a c a' r _ (If & Ie & Ic & Im & Ia) Hcall].
  - rewrite H0. split_and!; try done.
    + intros c Hc. by apply not_elem_of_nil in Hc.
    + intros Hin. by repeat (apply elem_of_cons in Hin as [Hin|Hin]; [discriminate|]); inversion Hin.
  - pose proof (apply_call_keeps _ _ _ _ Hcall) as (Kf & Ke & _).
    pose proof (apply_call_states _ _ _ _ Hcall) as Hs.
    rewrite List.filter_app, length_app, Ic. split_and!; [congruence|congruence| | |].
    + destruct Hs as [[-> [e ->]]|[-> Hs]]; simpl; [lia|].
      destruct (a_state a), (a_state a'); try done.
    + intros c' Hc'. apply elem_of_app in Hc' as [Hc'|Hc']; [by apply Im|].
      apply list_elem_of_singleton in Hc' as [= -> <-].
      destruct Hs as [[_ [e He]]|[He Hs]]; [discriminate|].
      injection He as He. rewrite <-He in Hs. destruct (a_state a); try done.
      by rewrite <-If, <-Ie.
    + intros Hin. destruct Hs as [[-> _]|[-> Hs]].
      { destruct (Ia Hin) as [now Hn]. exists now. apply elem_of_app. by left. }
      destruct (a_state a) eqn:Ea, (a_state a') eqn:Ea'; try done;
        try (destruct Ia as [now Hn]; [set_solver|]; exists now; apply elem_of_app; by left);
        try (exfalso; set_solver).
      destruct Hs as [now ->]. exists now. apply elem_of_app. right.
      by apply list_elem_of_singleton.
Qed.

Lemma filter_bool_Permutation {A} (p : A -> bool) l1 l2 :
  Permutation l1 l2 -> Permutation (List.filter p l1) (List.filter p l2).
Proof.
  induction 1 as [|x l1 l2 _ IH|x y l|l1 l2 l3 _ IH1 _ IH2]; simpl.
  - done.
  - by destruct (p x); rewrite IH.
  - destruct (p x), (p y); try done. apply perm_swap.
  - by rewrite IH1.
Qed.

#[export] Instance decision_spec_proper :
  Proper (Permutation ==> eq ==> eq ==> iff) decision_spec.
Proof.
  intros m1 m2 Hm b ? <- d ? <-. unfold decision_spec.
  assert (Hin : forall g, g ∈ m1 <-> g ∈ m2) by (intros g; by rewrite Hm).
  assert (Hnil : m1 = [] <-> m2 = []).
  { split; intros ->; [by apply Permutation_nil in Hm|].
    symmetry in Hm. by apply Permutation_nil in Hm. }
  destruct d; setoid_rewrite Hin; by rewrite ?Hnil.
Qed.

(** ** Properties *)

(** C37: [evaluate] returns exactly the decision of the deny-overrides policy:
    denied when some active matching grant denies, or when nothing matches and
    the capability is not a baseline one; allowed when nothing denies and some
    matching grant allows without approval, or nothing matches a baseline
    capability; approval required when all matching grants allow and all of
    them require an approval. Which grants match is the
    test of the code on both sides. *)
Theorem evaluate_meaning grants caller project capability resource now d :
  evaluate grants caller project capability resource now = d <->
  decision_spec (matching_grants grants caller project capability resource now)
    (is_baseline capability) d.
Proof.
  split; [intros <-; apply evaluate_satisfies|].
  intros H. eapply decision_spec_unique; [apply evaluate_satisfies|done].
Qed.

(** The decision does not depend on the order in which the store returns
    the grants. *)
Theorem evaluate_order_independent g1 g2 caller project capability resource now :
  Permutation g1 g2 ->
  evaluate g1 caller project capability resource now
  = evaluate g2 caller project capability resource now.
Proof.
  intros HP.
  assert (Hm : Permutation (matching_grants g1 caller project capability resource now)
                (matching_grants g2 caller project capability resource now))
    by (by apply filter_bool_Permutation).
  eapply decision_spec_unique; [apply evaluate_satisfies|].
  pose proof (evaluate_satisfies g2 caller project capability resource now) as H.
  by rewrite Hm.
Qed.

(** two effects have the same fingerprint only when they are the same
    effect (caller, project, capability and resource), or when their two
    distinct encodings collide under SHA-256: no concatenation of the fields is
    ambiguous. *)
Theorem fingerprint_binds_effect `{Sha256} c1 p1 k1 r1 c2 p2 k2 r2 :
  fits64 c1 -> fits64 p1 -> fits64 k1 -> fits64 r1 ->
  fits64 c2 -> fits64 p2 -> fits64 k2 -> fits64 r2 ->
  fingerprint_compute c1 p1 k1 r1 = fingerprint_compute c2 p2 k2 r2 ->
  (c1 = c2 /\ p1 = p2 /\ k1 = k2 /\ r1 = r2)
  \/ sha256_collides (fingerprint_input c1 p1 k1 r1) (fingerprint_input c2 p2 k2 r2).
Proof.
  intros ? ? ? ? ? ? ? ? Heq.
  destruct (decide (fingerprint_input c1 p1 k1 r1 = fingerprint_input c2 p2 k2 r2)) as [E|E].
  - left. by apply fingerprint_input_inj.
  - right. by split.
Qed.

(** Over any sequence of calls on a freshly requested approval, at most one
    call consumes it; a consumption presented the approval's own fingerprint
    before its expiry, and an approval was granted earlier in the sequence. *)
Theorem approval_consumed_at_most_once a0 calls a :
  a_state a0 = StRequested -> approval_trace a0 calls a ->
  (length (List.filter is_consumption calls) <= 1)%nat /\
  (forall c, (c, Ok StConsumed) ∈ calls ->
     (exists now, c = CallConsume (a_fingerprint a0) now /\ now < a_expires_at_ms a0) /\
     a_state a = StConsumed /\
     (exists now, (CallApprove now, Ok StApproved) ∈ calls)).
Proof.
  intros H0 Ht. destruct (approval_trace_invariant a0 calls a H0 Ht) as (_ & _ & Hc & Hm & Ha).
  assert (Hst : forall c, (c, Ok StConsumed) ∈ calls -> a_state a = StConsumed).
  { intros c Hin. destruct (bool_decide (a_state a = StConsumed)) eqn:E; [by apply bool_decide_eq_true in E|].
    assert (In (c, Ok StConsumed) (List.filter is_consumption calls)) as HI
      by (apply filter_In; split; [by apply list_elem_of_In|done]).
    destruct (List.filter is_consumption calls); [done|discriminate]. }
  split; [rewrite Hc; case_bool_decide; lia|].
  intros c Hin. split_and!; [by apply Hm|by eapply Hst|]. apply Ha. rewrite (Hst c Hin). set_solver.
Qed.

(** ** The properties at concrete inputs *)

Definition sample_grant (e : Effect) (a : ApprovalRequirement) : Grant :=
  {| g_id := "g"; g_caller := "alice"; g_project := "p"; g_capability := "jira.comment";
     g_resource := Any; g_effect := e; g_approval := a; g_expires_at_ms := Some 100;
     g_revoked_at_ms := None |}.

Lemma evaluate_order_independent_witness :
  evaluate [sample_grant Allow ApprovalNone; sample_grant Deny ApprovalNone]
    "alice" "p" "jira.comment" "PAM-1" 5
  = evaluate [sample_grant Deny ApprovalNone; sample_grant Allow ApprovalNone]
      "alice" "p" "jira.comment" "PAM-1" 5.
Proof. apply evaluate_order_independent. apply perm_swap. Defined.

Lemma fingerprint_binds_effect_witness :
  ("ab" = "ab" /\ "c" = "c" /\ "k" = "k" /\ "r" = "r")
  \/ @sha256_collides (fun s => s) (fingerprint_input "ab" "c" "k" "r") (fingerprint_input "ab" "c" "k" "r").
Proof.
  apply (@fingerprint_binds_effect (fun s => s) "ab" "c" "k" "r" "ab" "c" "k" "r");
    try (unfold fits64, len, u64_max; simpl; lia). reflexivity.
Defined.

Definition sample_approval : Approval :=
  @requested (fun s => s) "a1" "alice" "p" "jira.comment" "PAM-1" 100.

Lemma approval_consumed_at_most_once_witness :
  let fp := a_fingerprint sample_approval in
  let calls := [(CallApprove 1, Ok StApproved); (CallConsume fp 2, Ok StConsumed);
                (CallConsume fp 3, Err InvalidTransition)] in
  (length (List.filter is_consumption calls) <= 1)%nat /\ (CallConsume fp 2, Ok StConsumed) ∈ calls.
Proof.
  intros fp calls.
  assert (Ht : approval_trace sample_approval calls (with_state (with_state sample_approval StApproved)
            StConsumed)).
  { apply (trace_snoc _ [(CallApprove 1, Ok StApproved); (CallConsume fp 2, Ok StConsumed)]
      (with_state (with_state sample_approval StApproved) StConsumed)); [|reflexivity].
    apply (trace_snoc _ [(CallApprove 1, Ok StApproved)] (with_state sample_approval StApproved));
      [|reflexivity].
    apply (trace_snoc _ [] sample_approval); [constructor|reflexivity]. }
  split; [exact (proj1 (approval_consumed_at_most_once sample_approval calls _ eq_refl Ht))|].
  right. left.
Defined.
