(* ===== verification/Compact.v ===== *)
(** * Log compaction

    The structural compactor of [src/crates/pam_compact/src/lib.rs]: terminal
    output is split into records, redundant records are dropped, and the rest is
    kept around boundaries, stages and failures. Byte slices are lists of bytes
    and [usize] values are natural numbers; the target is a 64-bit one, where
    [usize_to_u64] and [u64_to_usize] lose nothing. *)

From S2P Require Import Prelude Core.

Local Open Scope Z_scope.

(** ** Limits *)

Definition ALGORITHM_VERSION : string := "pam-log-compact-v1".
Definition DEFAULT_POLICY_VERSION : string := "pam-log-policy-v1".
Definition MAX_SOURCE_BYTES : Z := 64 * 1024 * 1024.
Definition MAX_SOURCE_RECORDS : Z := 100000.
Definition MAX_POLICY_VERSION_BYTES : Z := 64.
Definition MAX_BOUNDARY_RECORDS : Z := MAX_SOURCE_RECORDS.
Definition MAX_FAILURE_CONTEXT_RECORDS : Z := 64.
Definition MAX_BOILERPLATE_RULES : Z := 128.
Definition MAX_BOILERPLATE_ID_BYTES : Z := 64.
Definition MAX_BOILERPLATE_TEXT_BYTES : Z := 4 * 1024.
Definition MAX_STAGE_BOUNDARIES : Z := 256.
Definition MAX_STAGE_LABEL_BYTES : Z := 128.

(** ** Data *)

Record SourceEvidence := { se_handle : EvidenceHandle; se_digest : ContentDigest }.
Record StageBoundary := { sb_label : string; sb_byte_offset : Z }.
Record LogMetadata := { lm_exit_status : option Z; lm_stage_boundaries : list StageBoundary }.
Record BoilerplateRule := { br_id : string; br_exact_line : string }.
Record CompactionPolicy := {
  cp_version : string;
  cp_boundary_records : nat;
  cp_failure_context_records : nat;
  cp_boilerplate_rules : list BoilerplateRule
}.
Definition CompactionPolicy_default : CompactionPolicy :=
  {| cp_version := DEFAULT_POLICY_VERSION; cp_boundary_records := 20;
     cp_failure_context_records := 3; cp_boilerplate_rules := [] |}.

Inductive FailureKeyword := KwError | KwFatal | KwPanic | KwFailed.
Definition keyword_as_str (k : FailureKeyword) : string :=
  match k with
  | KwError => "error" | KwFatal => "fatal" | KwPanic => "panic" | KwFailed => "failed"
  end.
Definition FAILURE_KEYWORDS : list FailureKeyword := [KwError; KwFatal; KwPanic; KwFailed].

Inductive RetentionReason :=
| FirstBoundary
| LastBoundary
| AtStage (label : string) (byte_offset : Z)
| FailureNeighborhood (keyword : FailureKeyword).

Inductive OmissionReason :=
| OutsideRetentionWindow
| Repeated
| SupersededProgress
| Boilerplate (rule_id : string).

Inductive FragmentKind :=
| Retained (reasons : list RetentionReason)
| Omitted (reason : OmissionReason) (record_count : Z).

Record CompactedFragment := {
  cf_source : EvidenceReference;
  cf_kind : FragmentKind;
  cf_rendered : string
}.

Record CompactedLog := {
  cl_algorithm_version : string;
  cl_policy_version : string;
  cl_policy_digest : ContentDigest;
  cl_source : SourceEvidence;
  cl_exit_status : option Z;
  cl_source_byte_count : Z;
  cl_retained_byte_count : Z;
  cl_source_record_count : Z;
  cl_retained_record_count : Z;
  cl_rendered_text : string;
  cl_fragments : list CompactedFragment
}.

Inductive PolicyValidationError :=
| PolicyVersion
| BoundaryRecords
| FailureContextRecords
| TooManyBoilerplateRules
| BoilerplateRuleId (index : nat)
| BoilerplateRuleText (index : nat)
| DuplicateBoilerplateRuleId (index : nat)
| DuplicateBoilerplateRuleText (index : nat).

Inductive MetadataValidationError :=
| TooManyStageBoundaries
| StageLabel (index : nat)
| StageWithoutSource (index : nat)
| StageOffsetOutOfBounds (index : nat) (byte_offset source_length : Z).

Inductive CompactError :=
| SourceTooLarge (actual_bytes maximum_bytes : Z)
| TooManyRecords (maximum_records : Z)
| DigestMismatch (expected actual : ContentDigest)
| InvalidPolicy (error : PolicyValidationError)
| InvalidMetadata (error : MetadataValidationError).

Inductive FrameKind := Line | Progress.
Record LogRecord := {
  rd_start : nat; rd_end : nat; rd_display : string; rd_frame_kind : FrameKind
}.
Inductive Disposition :=
| DispRetained (reasons : list RetentionReason)
| DispOmitted (reason : OmissionReason).

#[global] Instance frame_kind_eq_dec : EqDecision FrameKind.
Proof. solve_decision. Defined.
#[global] Instance failure_keyword_eq_dec : EqDecision FailureKeyword.
Proof. solve_decision. Defined.
#[global] Instance retention_reason_eq_dec : EqDecision RetentionReason.
Proof. solve_decision. Defined.
#[global] Instance omission_reason_eq_dec : EqDecision OmissionReason.
Proof. solve_decision. Defined.
#[global] Instance disposition_eq_dec : EqDecision Disposition.
Proof. solve_decision. Defined.
#[global] Instance stage_boundary_eq_dec : EqDecision StageBoundary.
Proof. solve_decision. Defined.

Notation cres := (res CompactError).

(** ** Standard-library operations *)

(** [&bytes[start..end]]: a panic when the range is not within the slice. *)
Definition slice {E A} (l : list A) (start stop : nat) : res E (list A) :=
  if ((start <=? stop) && (stop <=? length l))%nat then Ok (take (stop - start) (drop start l))
  else Panic.

(** [sort_by] with a total order: the stable sort, by insertion. *)
Fixpoint insert_sorted {A} (le : A -> A -> bool) (x : A) (l : list A) : list A :=
  match l with
  | [] => [x]
  | y :: rest => if le x y then x :: l else y :: insert_sorted le x rest
  end.
Definition sort_by {A} (le : A -> A -> bool) (l : list A) : list A :=
  foldr (insert_sorted le) [] l.

(** [Vec::dedup]: runs of equal elements become one. *)
Fixpoint dedup {A} `{EqDecision A} (l : list A) : list A :=
  match l with
  | [] => []
  | x :: rest =>
    match dedup rest with
    | (y :: _) as kept => if bool_decide (x = y) then kept else x :: kept
    | [] => [x]
    end
  end.

(** [partition_point] on a slice partitioned by the predicate: the length of
    the part on which it holds. *)
Fixpoint partition_point {A} (p : A -> bool) (l : list A) : nat :=
  match l with
  | [] => 0
  | x :: rest => if p x then S (partition_point p rest) else 0
  end.

(** The characters of [String::from_utf8_lossy(l)]: every maximal ill-formed
    part becomes one replacement character. *)
Definition REPLACEMENT_CHARACTER : Z := 65533.
Definition is_continuation (a : ascii) : bool := in_range 128 191 a.
Definition second_of_three (a b : ascii) : bool :=
  if byte_val a =? 224 then in_range 160 191 b
  else if byte_val a =? 237 then in_range 128 159 b
  else is_continuation b.
Definition second_of_four (a b : ascii) : bool :=
  if byte_val a =? 240 then in_range 144 191 b
  else if byte_val a =? 244 then in_range 128 143 b
  else is_continuation b.
Definition low6 (a : ascii) : Z := byte_val a `mod` 64.

Fixpoint from_utf8_lossy (l : list ascii) : list Z :=
  match l with
  | [] => []
  | a :: l1 =>
    let b0 := byte_val a in
    if b0 <? 128 then b0 :: from_utf8_lossy l1
    else if in_range 194 223 a then
      match l1 with
      | b :: l2 =>
        if is_continuation b then ((b0 `mod` 32) * 64 + low6 b) :: from_utf8_lossy l2
        else REPLACEMENT_CHARACTER :: from_utf8_lossy l1
      | [] => [REPLACEMENT_CHARACTER]
      end
    else if in_range 224 239 a then
      match l1 with
      | b :: l2 =>
        if second_of_three a b then
          match l2 with
          | c :: l3 =>
            if is_continuation c
            then ((b0 `mod` 16) * 4096 + low6 b * 64 + low6 c) :: from_utf8_lossy l3
            else REPLACEMENT_CHARACTER :: from_utf8_lossy l2
          | [] => [REPLACEMENT_CHARACTER]
          end
        else REPLACEMENT_CHARACTER :: from_utf8_lossy l1
      | [] => [REPLACEMENT_CHARACTER]
      end
    else if in_range 240 244 a then
      match l1 with
      | b :: l2 =>
        if second_of_four a b then
          match l2 with
          | c :: l3 =>
            if is_continuation c then
              match l3 with
              | e :: l4 =>
                if is_continuation e
                then ((b0 `mod` 8) * 262144 + low6 b * 4096 + low6 c * 64 + low6 e)
                       :: from_utf8_lossy l4
                else REPLACEMENT_CHARACTER :: from_utf8_lossy l3
              | [] => [REPLACEMENT_CHARACTER]
              end
            else REPLACEMENT_CHARACTER :: from_utf8_lossy l2
          | [] => [REPLACEMENT_CHARACTER]
          end
        else REPLACEMENT_CHARACTER :: from_utf8_lossy l1
      | [] => [REPLACEMENT_CHARACTER]
      end
    else REPLACEMENT_CHARACTER :: from_utf8_lossy l1
  end.

(** [String::push]: the UTF-8 encoding of a character. *)
Definition byte_of (z : Z) : ascii := ascii_of_N (Z.to_N z).
Definition push_char (c : Z) : string :=
  if c <? 128 then of_bytes [byte_of c]
  else if c <? 2048 then of_bytes [byte_of (192 + c / 64); byte_of (128 + c `mod` 64)]
  else if c <? 65536 then
    of_bytes [byte_of (224 + c / 4096); byte_of (128 + (c / 64) `mod` 64);
              byte_of (128 + c `mod` 64)]
  else
    of_bytes [byte_of (240 + c / 262144); byte_of (128 + (c / 4096) `mod` 64);
              byte_of (128 + (c / 64) `mod` 64); byte_of (128 + c `mod` 64)].

(** [{code:x}] of a code point: at most six digits. *)
Fixpoint lower_hex (fuel : nat) (n : N) : string :=
  match fuel with
  | O => EmptyString
  | S fuel =>
    (if (n <? 16)%N then EmptyString else lower_hex fuel (n / 16))
    +:+ String (hex_digit (n mod 16)) EmptyString
  end.

(** ** Validation *)

Definition validate_source_size (source_bytes : nat) : cres unit :=
  if Z.of_nat source_bytes >? MAX_SOURCE_BYTES
  then Err (SourceTooLarge (Z.of_nat source_bytes) MAX_SOURCE_BYTES) else Ok tt.

Definition identifier_byte (a : ascii) : bool :=
  is_ascii_lowercase a || is_ascii_digit a || one_of "-_." a.
Definition valid_identifier (value : string) (maximum_bytes : Z) : bool :=
  negb (str_is_empty value) && (len value <=? maximum_bytes) && all_bytes identifier_byte value.

(** One iteration of the loop over the boilerplate rules; [previous] are the
    rules before this one. *)
Definition validate_rule (index : nat) (previous : list BoilerplateRule) (rule : BoilerplateRule)
  : cres unit :=
  if negb (valid_identifier (br_id rule) MAX_BOILERPLATE_ID_BYTES)
  then Err (InvalidPolicy (BoilerplateRuleId index))
  else if (len (br_exact_line rule) >? MAX_BOILERPLATE_TEXT_BYTES)
          || existsb is_control (chars (br_exact_line rule))
  then Err (InvalidPolicy (BoilerplateRuleText index))
  else if existsb (fun p => String.eqb (br_id p) (br_id rule)) previous
  then Err (InvalidPolicy (DuplicateBoilerplateRuleId index))
  else if existsb (fun p => String.eqb (br_exact_line p) (br_exact_line rule)) previous
  then Err (InvalidPolicy (DuplicateBoilerplateRuleText index))
  else Ok tt.

Definition validate_policy (policy : CompactionPolicy) : cres unit :=
  if negb (valid_identifier (cp_version policy) MAX_POLICY_VERSION_BYTES)
  then Err (InvalidPolicy PolicyVersion)
  else if Z.of_nat (cp_boundary_records policy) >? MAX_BOUNDARY_RECORDS
  then Err (InvalidPolicy BoundaryRecords)
  else if Z.of_nat (cp_failure_context_records policy) >? MAX_FAILURE_CONTEXT_RECORDS
  then Err (InvalidPolicy FailureContextRecords)
  else if Z.of_nat (length (cp_boilerplate_rules policy)) >? MAX_BOILERPLATE_RULES
  then Err (InvalidPolicy TooManyBoilerplateRules)
  else iter_res (fun '(index, rule) =>
                   validate_rule index (take index (cp_boilerplate_rules policy)) rule)
         (enumerate (cp_boilerplate_rules policy)).

Definition validate_stage (source_bytes : nat) (index : nat) (stage : StageBoundary) : cres unit :=
  let source_length := Z.of_nat source_bytes in
  if str_is_empty (sb_label stage) || (len (sb_label stage) >? MAX_STAGE_LABEL_BYTES)
     || existsb is_control (chars (sb_label stage))
  then Err (InvalidMetadata (StageLabel index))
  else if (source_bytes =? 0)%nat then Err (InvalidMetadata (StageWithoutSource index))
  else if sb_byte_offset stage >? source_length
  then Err (InvalidMetadata (StageOffsetOutOfBounds index (sb_byte_offset stage) source_length))
  else Ok tt.

Definition validate_metadata (metadata : LogMetadata) (source_bytes : nat) : cres unit :=
  if Z.of_nat (length (lm_stage_boundaries metadata)) >? MAX_STAGE_BOUNDARIES
  then Err (InvalidMetadata TooManyStageBoundaries)
  else iter_res (fun '(index, stage) => validate_stage source_bytes index stage)
         (enumerate (lm_stage_boundaries metadata)).

(** ** Digests *)

Section digests.
Context `{Sha256}.

Definition digest_bytes (exact_bytes : list ascii) : ContentDigest :=
  from_sha256 (sha256 (of_bytes exact_bytes)).

Definition verify_digest (source : SourceEvidence) (exact_bytes : list ascii) : cres unit :=
  let actual := digest_bytes exact_bytes in
  if negb (bool_decide (se_digest source = actual))
  then Err (DigestMismatch (se_digest source) actual) else Ok tt.

Definition hash_length_prefixed (value : string) : string := to_be_bytes64 (len value) +:+ value.

Definition rule_le (left right : BoilerplateRule) : bool :=
  match String.compare (br_id left) (br_id right) with
  | Lt => true
  | Gt => false
  | Eq => String.leb (br_exact_line left) (br_exact_line right)
  end.

(** The bytes the hasher of [digest_policy] is fed. *)
Definition policy_input (policy : CompactionPolicy) : string :=
  let rules := sort_by rule_le (cp_boilerplate_rules policy) in
  hash_length_prefixed (cp_version policy)
  +:+ to_be_bytes64 (Z.of_nat (cp_boundary_records policy))
  +:+ to_be_bytes64 (Z.of_nat (cp_failure_context_records policy))
  +:+ to_be_bytes64 (Z.of_nat (length rules))
  +:+ foldr (fun rule tail => hash_length_prefixed (br_id rule)
               +:+ hash_length_prefixed (br_exact_line rule) +:+ tail) EmptyString rules.

Definition digest_policy (policy : CompactionPolicy) : ContentDigest :=
  from_sha256 (sha256 (policy_input policy)).

End digests.

(** ** Records *)

(** The scans take the bytes from the cursor on and return what is left. *)
Fixpoint consume_csi (rest : list ascii) : list ascii :=
  match rest with
  | [] => []
  | byte :: rest => if in_range 64 126 byte then rest else consume_csi rest
  end.

Fixpoint consume_osc (rest : list ascii) : list ascii :=
  match rest with
  | [] => []
  | byte :: rest' =>
    if byte_val byte =? 7 then rest'
    else match rest' with
         | next :: rest'' =>
           if (byte_val byte =? 27) && (byte_val next =? 92) then rest'' else consume_osc rest'
         | [] => []
         end
  end.

(** The bytes after the escape byte. *)
Definition consume_escape (rest : list ascii) : list ascii :=
  match rest with
  | [] => []
  | next :: rest =>
    if byte_val next =? 91 then consume_csi rest
    else if byte_val next =? 93 then consume_osc rest
    else rest
  end.

(** Every iteration drops at least one byte, so the number of bytes is enough
    [fuel]. *)
Fixpoint strip_loop (fuel : nat) (rest : list ascii) : list ascii :=
  match fuel, rest with
  | S fuel, byte :: rest =>
    if byte_val byte =? 27 then strip_loop fuel (consume_escape rest)
    else byte :: strip_loop fuel rest
  | _, _ => []
  end.
Definition strip_terminal_sequences (l : list ascii) : list ascii := strip_loop (length l) l.

Definition display_char (character : Z) : string :=
  if is_control character then
    if character =? 9 then "\t"
    else if character <=? 255 then "\x" +:+ hex_byte (byte_of character)
    else "\u{" +:+ lower_hex 6 (Z.to_N character) +:+ "}"
  else push_char character.

Definition normalize_display (l : list ascii) : string :=
  foldr (fun character display => display_char character +:+ display) EmptyString
    (from_utf8_lossy (strip_terminal_sequences l)).

Definition record (l : list ascii) (start content_end stop : nat) (frame_kind : FrameKind)
  : cres LogRecord :=
  let? content := slice l start content_end in
  Ok {| rd_start := start; rd_end := stop; rd_display := normalize_display content;
        rd_frame_kind := frame_kind |}.

Definition push_record (records : list LogRecord) (l : list ascii)
    (start content_end stop : nat) (frame_kind : FrameKind) : cres (list LogRecord) :=
  if Z.of_nat (length records) =? MAX_SOURCE_RECORDS
  then Err (TooManyRecords MAX_SOURCE_RECORDS)
  else let? r := record l start content_end stop frame_kind in Ok (records ++ [r]).

(** The loop of [parse_records]; [rest] are the bytes from [cursor] on. *)
Fixpoint parse_loop (l rest : list ascii) (start cursor : nat) (records : list LogRecord)
  : cres (list LogRecord) :=
  match rest with
  | [] =>
    if (start <? length l)%nat then push_record records l start (length l) (length l) Line
    else Ok records
  | byte :: rest1 =>
    if byte_val byte =? 13 then
      match rest1 with
      | next :: rest2 =>
        if byte_val next =? 10 then
          let? records := push_record records l start cursor (cursor + 2) Line in
          parse_loop l rest2 (cursor + 2) (cursor + 2) records
        else
          let? records := push_record records l start cursor (cursor + 1) Progress in
          parse_loop l rest1 (cursor + 1) (cursor + 1) records
      | [] =>
        let? records := push_record records l start cursor (cursor + 1) Progress in
        parse_loop l rest1 (cursor + 1) (cursor + 1) records
      end
    else if byte_val byte =? 10 then
      let? records := push_record records l start cursor (cursor + 1) Line in
      parse_loop l rest1 (cursor + 1) (cursor + 1) records
    else parse_loop l rest1 start (cursor + 1) records
  end.
Definition parse_records (l : list ascii) : cres (list LogRecord) := parse_loop l l 0 0 [].

(** ** Omissions *)

(** The inner loop of [progress_omissions]: how far [end] advances, where
    [previous] is the record before [end] and [rest] are the records from it. *)
Fixpoint progress_extent (previous : LogRecord) (rest : list LogRecord) : nat :=
  match rest with
  | [] => 0
  | next :: rest =>
    if bool_decide (rd_frame_kind previous = Progress) then S (progress_extent next rest) else 0
  end.

(** [for omission in &mut omissions[start..stop] { *omission = Some(reason) }]. *)
Definition fill_omissions (omissions : list (option OmissionReason)) (start stop : nat)
    (reason : OmissionReason) : list (option OmissionReason) :=
  take start omissions ++ replicate (stop - start) (Some reason) ++ drop stop omissions.

(** The outer loop: every iteration advances [start], so the number of records
    is enough [fuel]. *)
Fixpoint progress_loop (fuel : nat) (records : list LogRecord) (start : nat)
    (omissions : list (option OmissionReason)) : list (option OmissionReason) :=
  match fuel with
  | O => omissions
  | S fuel =>
    match records !! start with
    | None => omissions
    | Some r =>
      if negb (bool_decide (rd_frame_kind r = Progress))
      then progress_loop fuel records (S start) omissions
      else
        let stop := (S start + progress_extent r (drop (S start) records))%nat in
        progress_loop fuel records stop
          (fill_omissions omissions start (stop - 1) SupersededProgress)
    end
  end.
Definition progress_omissions (records : list LogRecord) : list (option OmissionReason) :=
  progress_loop (length records) records 0 (replicate (length records) None).

Definition boilerplate_map (policy : CompactionPolicy) : gmap string string :=
  foldl (fun rules rule => <[br_exact_line rule := br_id rule]> rules) ∅
    (cp_boilerplate_rules policy).

Definition apply_boilerplate_omissions (records : list LogRecord) (policy : CompactionPolicy)
    (omissions : list (option OmissionReason)) : list (option OmissionReason) :=
  let rules := boilerplate_map policy in
  zip_with (fun r omission =>
    match omission with
    | Some _ => omission
    | None => match rules !! rd_display r with
              | Some rule_id => Some (Boilerplate rule_id)
              | None => None
              end
    end) records omissions.

Fixpoint repeat_loop (previous_display : option string)
    (records : list LogRecord) (omissions : list (option OmissionReason))
  : list (option OmissionReason) :=
  match records, omissions with
  | r :: records, Some reason :: omissions => Some reason :: repeat_loop None records omissions
  | r :: records, None :: omissions =>
    if bool_decide (previous_display = Some (rd_display r))
    then Some Repeated :: repeat_loop previous_display records omissions
    else None :: repeat_loop (Some (rd_display r)) records omissions
  | _, _ => []
  end.
Definition apply_repeat_omissions (records : list LogRecord)
    (omissions : list (option OmissionReason)) : list (option OmissionReason) :=
  repeat_loop None records omissions.

(** ** Retention *)

Definition add_reason (reasons : list RetentionReason) (reason : RetentionReason)
  : list RetentionReason :=
  if bool_decide (reason ∈ reasons) then reasons else reasons ++ [reason].

(** [add_reason(&mut reasons[index], reason)]. *)
Definition add_reason_at (reasons : list (list RetentionReason)) (index : nat)
    (reason : RetentionReason) : cres (list (list RetentionReason)) :=
  let? current := or_panic (reasons !! index) in
  Ok (<[index := add_reason current reason]> reasons).

(** A loop that threads the retention reasons. *)
Fixpoint for_each {A S} (body : A -> S -> cres S) (l : list A) (state : S) : cres S :=
  match l with
  | [] => Ok state
  | x :: l => let? state := body x state in for_each body l state
  end.

Definition retain_boundaries (active_indices : list nat) (boundary_records : nat)
    (reasons : list (list RetentionReason)) : cres (list (list RetentionReason)) :=
  let? reasons := for_each (fun index reasons => add_reason_at reasons index FirstBoundary)
                    (take boundary_records active_indices) reasons in
  for_each (fun index reasons => add_reason_at reasons index LastBoundary)
    (take boundary_records (reverse active_indices)) reasons.

Definition record_at_or_after (records : list LogRecord) (byte_offset : Z) : option nat :=
  let index := partition_point (fun r => Z.of_nat (rd_end r) <=? byte_offset) records in
  if (index <? length records)%nat then Some index
  else if negb (length records =? 0)%nat then Some (length records - 1)%nat else None.

Definition nearest_active (active_indices : list nat) (raw_index : nat) : option nat :=
  match List.find (fun index => raw_index <=? index)%nat active_indices with
  | Some index => Some index
  | None => last active_indices
  end.

Definition stage_le (left right : StageBoundary) : bool :=
  if sb_byte_offset left <? sb_byte_offset right then true
  else if sb_byte_offset right <? sb_byte_offset left then false
  else String.leb (sb_label left) (sb_label right).

Definition retain_stages (records : list LogRecord) (active_indices : list nat)
    (stages : list StageBoundary) (reasons : list (list RetentionReason))
  : cres (list (list RetentionReason)) :=
  for_each (fun stage reasons =>
    match record_at_or_after records (sb_byte_offset stage) with
    | None => Ok reasons
    | Some raw_index =>
      match nearest_active active_indices raw_index with
      | None => Ok reasons
      | Some index => add_reason_at reasons index (AtStage (sb_label stage) (sb_byte_offset stage))
      end
    end) (dedup (sort_by stage_le stages)) reasons.

Fixpoint contains_ascii_case_insensitive (value needle : string) : bool :=
  String.prefix (to_ascii_lowercase needle) (to_ascii_lowercase value)
  || match value with
     | EmptyString => false
     | String _ value => contains_ascii_case_insensitive value needle
     end.

Definition retain_failure_neighborhoods (records : list LogRecord) (active_indices : list nat)
    (context_records : nat) (reasons : list (list RetentionReason))
  : cres (list (list RetentionReason)) :=
  for_each (fun '(active_position, record_index) reasons =>
    let? r := or_panic (records !! record_index) in
    for_each (fun keyword reasons =>
      if negb (contains_ascii_case_insensitive (rd_display r) (keyword_as_str keyword))
      then Ok reasons
      else
        let first := (active_position - context_records)%nat in
        let last := Nat.min (active_position + context_records) (length active_indices - 1) in
        let? neighbors := slice active_indices first (S last) in
        for_each (fun neighbor reasons =>
          add_reason_at reasons neighbor (FailureNeighborhood keyword)) neighbors reasons)
      FAILURE_KEYWORDS reasons)
    (enumerate active_indices) reasons.

(** ** Fragments *)

Definition reference (source : SourceEvidence) (r : LogRecord) : EvidenceReference :=
  {| er_handle := se_handle source; er_offset := Z.of_nat (rd_start r);
     er_length := Z.of_nat (rd_end r - rd_start r) |}.

Definition eol : string := of_bytes [byte_of 10].

Definition render_omission (reason : OmissionReason) (record_count : nat) : string :=
  (match reason with
   | OutsideRetentionWindow =>
     "[... " +:+ pretty record_count +:+ " records outside retention windows ...]"
   | Repeated => "[... " +:+ pretty record_count +:+ " repeated records collapsed ...]"
   | SupersededProgress =>
     "[... " +:+ pretty record_count +:+ " progress frames superseded ...]"
   | Boilerplate rule_id =>
     "[... " +:+ pretty record_count +:+ " boilerplate records removed by " +:+ rule_id +:+ " ...]"
   end) +:+ eol.

(** The inner loop of [build_fragments]: the following records omitted for the
    same reason. *)
Fixpoint omission_extent (reason : OmissionReason) (dispositions : list Disposition) : nat :=
  match dispositions with
  | DispOmitted next :: rest =>
    if bool_decide (next = reason) then S (omission_extent reason rest) else 0
  | _ => 0
  end.

(** Every iteration advances [index], so the number of records is enough
    [fuel]. *)
Fixpoint fragments_loop (fuel : nat) (source : SourceEvidence) (records : list LogRecord)
    (dispositions : list Disposition) (index : nat) : cres (list CompactedFragment) :=
  match fuel with
  | O => Ok []
  | S fuel =>
    match records !! index with
    | None => Ok []
    | Some r =>
      let? disposition := or_panic (dispositions !! index) in
      match disposition with
      | DispRetained reasons =>
        let? rest := fragments_loop fuel source records dispositions (S index) in
        Ok ({| cf_source := reference source r; cf_kind := Retained reasons;
               cf_rendered := rd_display r +:+ eol |} :: rest)
      | DispOmitted reason =>
        let extent := omission_extent reason
          (take (length records - S index) (drop (S index) dispositions)) in
        let next := (S index + extent)%nat in
        let? final := or_panic (records !! (next - 1)%nat) in
        let? rest := fragments_loop fuel source records dispositions next in
        Ok ({| cf_source :=
                 {| er_handle := se_handle source; er_offset := Z.of_nat (rd_start r);
                    er_length := Z.of_nat (rd_end final - rd_start r) |};
               cf_kind := Omitted reason (Z.of_nat (S extent));
               cf_rendered := render_omission reason (S extent) |} :: rest)
      end
    end
  end.
Definition build_fragments (source : SourceEvidence) (records : list LogRecord)
    (dispositions : list Disposition) : cres (list CompactedFragment) :=
  fragments_loop (length records) source records dispositions 0.

Definition render_exit_status (exit_status : option Z) : string :=
  match exit_status with
  | Some status => "[exit status: " +:+ pretty status +:+ "]" +:+ eol
  | None => "[exit status: unknown]" +:+ eol
  end.

(** ** The compactor *)

Definition omissions_of (records : list LogRecord) (policy : CompactionPolicy)
  : list (option OmissionReason) :=
  let omissions := progress_omissions records in
  let omissions := apply_boilerplate_omissions records policy omissions in
  apply_repeat_omissions records omissions.

Definition active_of (omissions : list (option OmissionReason)) : list nat :=
  omap (fun '(index, omission) => match omission with None => Some index | Some _ => None end)
    (enumerate omissions).

Definition dispose (omission : option OmissionReason) (reasons : list RetentionReason)
  : Disposition :=
  match omission, reasons with
  | Some reason, _ => DispOmitted reason
  | None, [] => DispOmitted OutsideRetentionWindow
  | None, _ => DispRetained reasons
  end.

Definition dispositions_of (records : list LogRecord) (metadata : LogMetadata)
    (policy : CompactionPolicy) : cres (list Disposition) :=
  let omissions := omissions_of records policy in
  let active_indices := active_of omissions in
  let? reasons := retain_boundaries active_indices (cp_boundary_records policy)
                    (replicate (length records) []) in
  let? reasons := retain_stages records active_indices (lm_stage_boundaries metadata) reasons in
  let? reasons := retain_failure_neighborhoods records active_indices
                    (cp_failure_context_records policy) reasons in
  Ok (zip_with dispose omissions reasons).

Definition is_retained (f : CompactedFragment) : bool :=
  match cf_kind f with Retained _ => true | Omitted _ _ => false end.
Definition is_disp_retained (d : Disposition) : bool :=
  match d with DispRetained _ => true | DispOmitted _ => false end.
Definition concat_strings (l : list string) : string := foldr String.append EmptyString l.

Definition compact_log `{Sha256} (source : SourceEvidence) (exact_bytes : list ascii)
    (metadata : LogMetadata) (policy : CompactionPolicy) : cres CompactedLog :=
  let? _ := validate_source_size (length exact_bytes) in
  let? _ := validate_policy policy in
  let? _ := validate_metadata metadata (length exact_bytes) in
  let? _ := verify_digest source exact_bytes in
  let? records := parse_records exact_bytes in
  let? dispositions := dispositions_of records metadata policy in
  let? fragments := build_fragments source records dispositions in
  Ok {| cl_algorithm_version := ALGORITHM_VERSION;
        cl_policy_version := cp_version policy;
        cl_policy_digest := digest_policy policy;
        cl_source := source;
        cl_exit_status := lm_exit_status metadata;
        cl_source_byte_count := Z.of_nat (length exact_bytes);
        cl_retained_byte_count :=
          foldr (fun f total => er_length (cf_source f) + total) 0
            (List.filter is_retained fragments);
        cl_source_record_count := Z.of_nat (length records);
        cl_retained_record_count :=
          Z.of_nat (length (List.filter is_disp_retained dispositions));
        cl_rendered_text :=
          concat_strings (cf_rendered <$> fragments)
          +:+ (if (length records =? 0)%nat then "[no log output]" +:+ eol else EmptyString)
          +:+ render_exit_status (lm_exit_status metadata);
        cl_fragments := fragments |}.
