(* ===== verification/CompactSpec.v ===== *)
(** * Compaction: provenance

    Every byte of the source belongs to exactly one fragment of the result, in
    order, and a retained fragment shows exactly one record of the source. *)

From S2P Require Import Prelude Core Compact.

(** ** Records tile the source *)

(** Records that follow each other without a gap. *)
Fixpoint chain (from : nat) (records : list LogRecord) (to : nat) : Prop :=
  match records with
  | [] => from = to
  | r :: rest => rd_start r = from /\ from < rd_end r /\ chain (rd_end r) rest to
  end.

Definition is_break (a : ascii) : bool := (byte_val a =? 10)%Z || (byte_val a =? 13)%Z.
Definition terminator (l : list ascii) : Prop :=
  l = [] \/ (exists a, l = [a] /\ is_break a = true)
  \/ (exists a b, l = [a; b] /\ byte_val a = 13%Z /\ byte_val b = 10%Z).

(** The bytes of a record: its content, free of line breaks, and a terminator. *)
Definition record_shows (bytes : list ascii) (display : string) : Prop :=
  exists content stop, bytes = content ++ stop /\ terminator stop /\
    existsb is_break content = false /\ display = normalize_display content.

Definition range {A} (l : list A) (start stop : nat) : list A := take (stop - start) (drop start l).

Definition record_ok (l : list ascii) (r : LogRecord) : Prop :=
  rd_end r <= length l /\ record_shows (range l (rd_start r) (rd_end r)) (rd_display r).

Lemma chain_snoc from records mid r :
  chain from records mid -> rd_start r = mid -> mid < rd_end r ->
  chain from (records ++ [r]) (rd_end r).
Proof.
  revert from. induction records as [|x rest IH]; intros from; simpl; [by intros <-|].
  intros (-> & Hlt & Hc) Hs He. split_and!; auto.
Qed.

Lemma chain_le from records to : chain from records to -> from + length records <= to.
Proof.
  revert from. induction records as [|r rest IH]; intros from; simpl; [lia|].
  intros (_ & Hlt & Hc). apply IH in Hc. lia.
Qed.

Lemma range_split {A} (l : list A) start mid stop :
  start <= mid <= stop -> stop <= length l ->
  range l start stop = range l start mid ++ range l mid stop.
Proof.
  intros H1 H2. unfold range.
  replace (stop - start) with ((mid - start) + (stop - mid)) by lia.
  rewrite <-(take_drop (mid - start) (take _ (drop start l))) at 1.
  rewrite take_take, Nat.min_l by lia. f_equal.
  rewrite skipn_firstn_comm, drop_drop. f_equal; [lia|]. f_equal. lia.
Qed.

Lemma range_nth {A} (l : list A) i x : l !! i = Some x -> range l i (S i) = [x].
Proof.
  intros Hi. unfold range. replace (S i - i) with 1 by lia.
  by rewrite (drop_S _ _ _ Hi).
Qed.

(** What a call of [push_record] does when the content ends at [cursor]. *)
Lemma push_record_spec l records start cursor stop kind :
  chain 0 records start -> Forall (record_ok l) records ->
  start <= cursor <= stop -> start < stop -> stop <= length l ->
  existsb is_break (range l start cursor) = false -> terminator (range l cursor stop) ->
  match push_record records l start cursor stop kind with
  | Ok records' => chain 0 records' stop /\ Forall (record_ok l) records'
  | Err e => e = TooManyRecords MAX_SOURCE_RECORDS
             /\ Z.of_nat (length records) = MAX_SOURCE_RECORDS
  | Panic => False
  end.
Proof.
  intros Hc Hok Hle Hlt Hlen Hbreak Hterm. unfold push_record.
  destruct (Z.eqb_spec (Z.of_nat (length records)) MAX_SOURCE_RECORDS); [done|].
  unfold record, slice.
  rewrite (proj2 (Nat.leb_le start cursor)), (proj2 (Nat.leb_le cursor (length l))) by lia. simpl.
  split.
  - apply (chain_snoc 0 records start {| rd_start := start; rd_end := stop;
      rd_display := _; rd_frame_kind := kind |}); simpl; auto.
  - apply Forall_app. split; [done|]. constructor; [|constructor]. split; [done|]. simpl.
    exists (range l start cursor), (range l cursor stop). split_and!; try done.
    by apply range_split.
Qed.

(** What the scan knows at a cursor. *)
Record scan_inv (l rest : list ascii) (start cursor : nat) (records : list LogRecord) : Prop := {
  sc_rest : drop cursor l = rest;
  sc_start : start <= cursor <= length l;
  sc_chain : chain 0 records start;
  sc_records : Forall (record_ok l) records;
  sc_content : existsb is_break (range l start cursor) = false
}.

Lemma scan_cursor (l : list ascii) a rest cursor :
  drop cursor l = a :: rest ->
  l !! cursor = Some a /\ drop (S cursor) l = rest /\ S cursor <= length l.
Proof.
  intros E. assert (Hc : l !! cursor = Some a).
  { rewrite <-(Nat.add_0_r cursor), <-lookup_drop, E. done. }
  split_and!; [done| |by eapply lookup_lt_Some].
  rewrite <-Nat.add_1_r, <-drop_drop, E. done.
Qed.

(** The outcome of the scan from any cursor. *)
Definition scan_post (l : list ascii) (out : cres (list LogRecord)) : Prop :=
  match out with
  | Ok records => chain 0 records (length l) /\ Forall (record_ok l) records
  | Err e => e = TooManyRecords MAX_SOURCE_RECORDS
             /\ (MAX_SOURCE_RECORDS <= Z.of_nat (length l))%Z
  | Panic => False
  end.

(** A record is pushed at [cursor] and the scan goes on after its terminator. *)
Lemma scan_push l records start cursor stop kind (k : list LogRecord -> cres (list LogRecord)) rest :
  chain 0 records start -> Forall (record_ok l) records ->
  start <= cursor <= stop -> start < stop -> stop <= length l ->
  existsb is_break (range l start cursor) = false -> terminator (range l cursor stop) ->
  drop stop l = rest ->
  (forall records', scan_inv l rest stop stop records' -> scan_post l (k records')) ->
  scan_post l (let? records := push_record records l start cursor stop kind in k records).
Proof.
  intros Hc Hok Hle Hlt Hlen Hbreak Hterm Hrest Hk.
  pose proof (push_record_spec l records start cursor stop kind Hc Hok Hle Hlt Hlen Hbreak Hterm) as Hp.
  destruct (push_record _ _ _ _ _ _) as [records'|e|]; [|simpl|done].
  - destruct Hp as [Hc' Hok']. apply Hk. split; try done.
    unfold range. by rewrite Nat.sub_diag.
  - destruct Hp as [-> Hn]. split; [done|]. apply chain_le in Hc. lia.
Qed.

Lemma single_break l cursor a :
  l !! cursor = Some a -> is_break a = true -> terminator (range l cursor (S cursor)).
Proof. intros Hi Hb. rewrite (range_nth _ _ _ Hi). right. left. eauto. Qed.

Lemma content_grows l start cursor a :
  start <= cursor -> l !! cursor = Some a -> is_break a = false ->
  existsb is_break (range l start cursor) = false ->
  existsb is_break (range l start (S cursor)) = false.
Proof.
  intros Hle Hi Hb Hc. rewrite (range_split l start cursor (S cursor));
    [|lia|by eapply lookup_lt_Some]. rewrite (range_nth _ _ _ Hi), existsb_app, Hc. simpl.
  by rewrite Hb.
Qed.

Lemma terminator_none (l : list ascii) n : terminator (range l n n).
Proof. left. unfold range. by rewrite Nat.sub_diag. Qed.

Lemma scan_end l start cursor records :
  scan_inv l [] start cursor records -> scan_post l (parse_loop l [] start cursor records).
Proof.
  intros [Hrest Hs Hc Hok Hcont]. simpl. assert (cursor = length l) as ->.
  { apply (f_equal length) in Hrest. rewrite length_drop in Hrest. simpl in Hrest. lia. }
  destruct (Nat.ltb_spec start (length l)) as [Hlt|Hge].
  - pose proof (push_record_spec l records start (length l) (length l) Line Hc Hok
      ltac:(lia) Hlt ltac:(lia) Hcont (terminator_none l _)) as Hp.
    destruct (push_record _ _ _ _ _ _) as [records'|e|]; simpl; [done| |done].
    destruct Hp as [-> Hn]. split; [done|]. apply chain_le in Hc. lia.
  - split; [|done]. by replace (length l) with start by lia.
Qed.

Lemma parse_loop_spec l rest start cursor records :
  scan_inv l rest start cursor records -> scan_post l (parse_loop l rest start cursor records).
Proof.
  revert start cursor records.
  induction rest as [rest IH] using (induction_ltof1 _ (@length ascii)).
  intros start cursor records Hscan. destruct rest as [|a rest1]; [by apply scan_end|].
  destruct Hscan as [Hrest Hs Hc Hok Hcont].
  destruct (scan_cursor _ _ _ _ Hrest) as (Ha & Hrest1 & Hlen).
  assert (Hpush : is_break a = true -> forall kind,
    scan_post l (let? records := push_record records l start cursor (cursor + 1) kind in
                 parse_loop l rest1 (cursor + 1) (cursor + 1) records)).
  { intros Hb kind. rewrite Nat.add_1_r.
    eapply scan_push; try done; try lia; [by eapply single_break|].
    intros records' Hinv. apply IH; [unfold ltof; simpl; lia|done]. }
  simpl. destruct (Z.eqb_spec (byte_val a) 13) as [E13|N13].
  - assert (Hb : is_break a = true) by (unfold is_break; rewrite E13; done).
    destruct rest1 as [|b rest2]; [by apply Hpush|].
    destruct (Z.eqb_spec (byte_val b) 10) as [E10|]; [|by apply Hpush].
    destruct (scan_cursor _ _ _ _ Hrest1) as (Hb2 & Hrest2 & Hlen2).
    replace (cursor + 2) with (S (S cursor)) by lia.
    eapply scan_push; try done; try lia.
    + rewrite (range_split l cursor (S cursor)), !(range_nth _ _ _) by (done || lia).
      right. right. exists a, b. done.
    + intros records' Hinv. apply IH; [unfold ltof; simpl; lia|done].
  - destruct (Z.eqb_spec (byte_val a) 10) as [E10|N10].
    + apply Hpush. unfold is_break. by rewrite E10.
    + apply IH; [unfold ltof; simpl; lia|]. rewrite Nat.add_1_r. split; try done; [lia|].
      apply (content_grows _ _ _ a); [lia|done| |done]. unfold is_break.
      by rewrite (proj2 (Z.eqb_neq _ _) N10), (proj2 (Z.eqb_neq _ _) N13).
Qed.

Lemma parse_records_spec l : scan_post l (parse_records l).
Proof. apply parse_loop_spec. split; simpl; auto using Forall_nil_2 with lia. Qed.

(** ** Fragments tile the source *)

Fixpoint tiles (handle : EvidenceHandle) (from : Z) (fragments : list CompactedFragment) (to : Z)
  : Prop :=
  match fragments with
  | [] => from = to
  | f :: rest =>
    er_handle (cf_source f) = handle /\ er_offset (cf_source f) = from /\
    (0 < er_length (cf_source f))%Z /\ tiles handle (from + er_length (cf_source f)) rest to
  end.

(** The fragment of a retained record. *)
Definition retained_fragment (source : SourceEvidence) (r : LogRecord)
    (reasons : list RetentionReason) : CompactedFragment :=
  {| cf_source := reference source r; cf_kind := Retained reasons;
     cf_rendered := rd_display r +:+ eol |}.

(** The record count of an omission marker is the number of records of its range. *)
Definition fragment_ok (source : SourceEvidence) (records : list LogRecord)
    (dispositions : list Disposition) (f : CompactedFragment) : Prop :=
  (exists i r reasons, records !! i = Some r /\ dispositions !! i = Some (DispRetained reasons) /\
     f = retained_fragment source r reasons)
  \/ (exists i n reason, 0 < n /\
     (forall j, i <= j < i + n -> dispositions !! j = Some (DispOmitted reason)) /\
     cf_kind f = Omitted reason (Z.of_nat n) /\ cf_rendered f = render_omission reason n).

Lemma chain_drop from records to k final :
  chain from records to -> records !! k = Some final ->
  from < rd_end final /\ chain (rd_end final) (drop (S k) records) to.
Proof.
  revert from k. induction records as [|r rest IH]; intros from k; [done|].
  intros (Hs & Hlt & Hc). destruct k as [|k]; simpl; [by intros [= <-]|].
  intros Hk. destruct (IH _ _ Hc Hk) as [? ?]. split; [lia|done].
Qed.

Lemma omission_extent_spec reason ds :
  omission_extent reason ds <= length ds /\
  forall k, k < omission_extent reason ds -> ds !! k = Some (DispOmitted reason).
Proof.
  induction ds as [|[|next] ds [IHl IH]]; simpl; [split; [lia|intros; lia]..|].
  case_bool_decide as E; [subst next|split; [lia|intros; lia]]. split; [lia|].
  intros [|k] Hk; [done|]. apply IH. lia.
Qed.

Section fragments.
Context (source : SourceEvidence) (records : list LogRecord) (dispositions : list Disposition).
Context (Hlen : length dispositions = length records) (to : nat).

Definition fragments_post (index from : nat) (out : cres (list CompactedFragment)) : Prop :=
  exists fs, out = Ok fs /\ tiles (se_handle source) (Z.of_nat from) fs (Z.of_nat to) /\
    Forall (fragment_ok source records dispositions) fs /\
    (forall i r reasons, index <= i -> records !! i = Some r ->
       dispositions !! i = Some (DispRetained reasons) ->
       retained_fragment source r reasons ∈ fs).

Lemma fragments_retained fuel index from r reasons :
  chain from (drop index records) to -> records !! index = Some r ->
  dispositions !! index = Some (DispRetained reasons) ->
  fragments_post (S index) (rd_end r) (fragments_loop fuel source records dispositions (S index)) ->
  fragments_post index from (fragments_loop (S fuel) source records dispositions index).
Proof.
  intros Hc Hr Hd (fs & E & Ht & Hok & Hin). simpl. rewrite Hr, Hd. simpl. rewrite E. simpl.
  rewrite (drop_S _ _ _ Hr) in Hc. destruct Hc as (Hs & Hlt & _).
  eexists. split; [done|]. split_and!.
  - simpl. split_and!; [done|lia|lia|].
    replace (Z.of_nat from + Z.of_nat (rd_end r - rd_start r))%Z with (Z.of_nat (rd_end r)) by lia.
    done.
  - constructor; [|done]. left. by exists index, r, reasons.
  - intros i r' reasons' Hi Hr' Hd'. apply elem_of_cons.
    destruct (decide (i = index)) as [->|Hne]; [left|right; apply (Hin i); auto; lia].
    by simplify_eq.
Qed.

Lemma fragments_omitted fuel index from r reason :
  chain from (drop index records) to -> records !! index = Some r ->
  dispositions !! index = Some (DispOmitted reason) ->
  (forall next from', index < next -> next <= length records ->
     chain from' (drop next records) to ->
     fragments_post next from' (fragments_loop fuel source records dispositions next)) ->
  fragments_post index from (fragments_loop (S fuel) source records dispositions index).
Proof.
  intros Hc Hr Hd Hnext. simpl. rewrite Hr, Hd. simpl. pose proof (lookup_lt_Some _ _ _ Hr) as Hlt.
  set (rest := take _ _). destruct (omission_extent_spec reason rest) as [Hn Hall].
  set (n := omission_extent reason rest) in *.
  assert (Hrest : length rest = length records - S index).
  { unfold rest. rewrite length_take, length_drop. lia. }
  assert (Hsame : forall j, index <= j < index + S n -> dispositions !! j = Some (DispOmitted reason)).
  { intros j Hj. destruct (decide (j = index)) as [->|Hne]; [done|].
    specialize (Hall (j - S index) ltac:(lia)). unfold rest in Hall.
    rewrite lookup_take_lt, lookup_drop in Hall by lia. rewrite <-Hall. f_equal. lia. }
  replace (index + n - 0) with (index + n) by lia.
  destruct (lookup_lt_is_Some_2 records (index + n)) as [final Hf]; [lia|]. rewrite Hf. simpl.
  destruct (chain_drop from (drop index records) to n final Hc) as [Hend Hc'];
    [by rewrite lookup_drop|]. rewrite drop_drop, Nat.add_succ_r in Hc'.
  destruct (Hnext (S (index + n)) (rd_end final) ltac:(lia) ltac:(lia) Hc')
    as (fs & E & Ht & Hok & Hin). rewrite E. simpl.
  rewrite (drop_S _ _ _ Hr) in Hc. destruct Hc as (Hs & _ & _).
  eexists. split; [done|]. split_and!.
  - simpl. split_and!; [done|lia|lia|].
    replace (Z.of_nat from + _)%Z with (Z.of_nat (rd_end final)) by lia. done.
  - constructor; [|done]. right. exists index, (S n), reason. split_and!; [lia|done..].
  - intros i r' reasons' Hi Hr' Hd'. apply elem_of_cons. right.
    destruct (decide (i < index + S n)) as [Hin'|]; [|apply (Hin i); auto; lia].
    rewrite Hsame in Hd' by lia. done.
Qed.

Lemma fragments_loop_spec fuel index from :
  length records - index <= fuel -> index <= length records ->
  chain from (drop index records) to ->
  fragments_post index from (fragments_loop fuel source records dispositions index).
Proof.
  revert index from. induction fuel as [|fuel IH]; intros index from Hfuel Hi Hc.
  - assert (index = length records) as -> by lia. rewrite drop_ge in Hc by lia. simpl in *.
    exists []. split_and!; [done|simpl; lia|constructor|].
    intros i r reasons Hle Hr _. apply lookup_lt_Some in Hr. lia.
  - destruct (records !! index) as [r|] eqn:Hr.
    + pose proof (lookup_lt_Some _ _ _ Hr) as Hlt.
      destruct (lookup_lt_is_Some_2 dispositions index) as [[reasons|reason] Hd]; [lia| |].
      * eapply fragments_retained; try done. apply IH; [lia|lia|].
        rewrite (drop_S _ _ _ Hr) in Hc. by destruct Hc as (_ & _ & ?).
      * eapply fragments_omitted; try done. intros next from' H1 H2 Hc'. apply IH; auto; lia.
    + apply lookup_ge_None in Hr. assert (index = length records) as -> by lia.
      simpl. rewrite lookup_ge_None_2 by lia. rewrite drop_ge in Hc by lia. simpl in Hc.
      exists []. split_and!; [done|simpl; lia|constructor|].
      intros i r reasons Hle Hri _. apply lookup_lt_Some in Hri. lia.
Qed.

Lemma build_fragments_spec :
  chain 0 records to -> fragments_post 0 0 (build_fragments source records dispositions).
Proof. intros Hc. apply fragments_loop_spec; [lia|lia|by rewrite drop_0]. Qed.

End fragments.

(** ** Rehydration *)

Definition fragment_bytes (l : list ascii) (f : CompactedFragment) : list ascii :=
  range l (Z.to_nat (er_offset (cf_source f)))
    (Z.to_nat (er_offset (cf_source f)) + Z.to_nat (er_length (cf_source f))).

Lemma tiles_le handle from fs to : tiles handle from fs to -> (from <= to)%Z.
Proof.
  revert from. induction fs as [|f fs IH]; intros from; simpl; [lia|].
  intros (_ & _ & Hp & Ht). apply IH in Ht. lia.
Qed.

Lemma tiles_rehydrate handle l from fs :
  (from <= length l)%nat -> tiles handle (Z.of_nat from) fs (Z.of_nat (length l)) ->
  mjoin (fragment_bytes l <$> fs) = drop from l.
Proof.
  revert from. induction fs as [|f fs IH]; intros from Hle.
  - simpl. intros E. rewrite drop_ge; [done|lia].
  - intros (_ & Hoff & Hpos & Ht).
    assert (Hto : (Z.of_nat from + er_length (cf_source f) <= Z.of_nat (length l))%Z)
      by by eapply tiles_le.
    rewrite fmap_cons. cbn [mjoin list_join]. unfold fragment_bytes at 1. rewrite Hoff, Nat2Z.id.
    set (n := Z.to_nat (er_length (cf_source f))).
    assert (Hn : (Z.of_nat from + er_length (cf_source f) = Z.of_nat (from + n))%Z) by lia.
    rewrite Hn in Ht. etransitivity; [apply f_equal; apply (IH (from + n)); [lia|done]|].
    unfold range. replace (from + n - from) with n by lia.
    rewrite <-(take_drop n (drop from l)) at 2. by rewrite drop_drop.
Qed.
