(* ===== verification/CompactKeep.v ===== *)
(** * Compaction: what is kept

    The omission loops against a closed form per record, and the retention
    loops against the set of reasons each record has. *)

From S2P Require Import Prelude Core Compact.

(** ** Omissions, record by record *)

(** A progress frame is superseded by any later record; a line that is exactly
    a boilerplate rule is dropped under that rule. *)
Definition superseded (records : list LogRecord) (i : nat) (r : LogRecord) : bool :=
  bool_decide (rd_frame_kind r = Progress) && (S i <? length records).

Definition pre_omission (records : list LogRecord) (policy : CompactionPolicy) (i : nat)
  : option OmissionReason :=
  match records !! i with
  | None => None
  | Some r =>
    if superseded records i r then Some SupersededProgress
    else Boilerplate <$> boilerplate_map policy !! rd_display r
  end.

(** A record that survives so far repeats the one just before it when that one
    also survives so far and shows the same text. *)
Definition repeats (records : list LogRecord) (policy : CompactionPolicy) (i : nat) : bool :=
  match i with
  | O => false
  | S j => bool_decide (pre_omission records policy j = None)
           && bool_decide (rd_display <$> records !! j = rd_display <$> records !! i)
  end.

Definition omission_spec (records : list LogRecord) (policy : CompactionPolicy) (i : nat)
  : option OmissionReason :=
  match pre_omission records policy i with
  | Some reason => Some reason
  | None => if repeats records policy i then Some Repeated else None
  end.

Lemma fill_lookup omissions a b reason i :
  a <= b -> b <= length omissions ->
  fill_omissions omissions a b reason !! i =
    if (a <=? i) && (i <? b) then Some (Some reason) else omissions !! i.
Proof.
  intros Hab Hb. unfold fill_omissions.
  destruct (Nat.leb_spec a i) as [Ha|Ha]; simpl; [|rewrite lookup_app_l, lookup_take_lt; try done;
    rewrite length_take; lia].
  rewrite lookup_app_r; rewrite length_take, Nat.min_l by lia; [|lia].
  destruct (Nat.ltb_spec i b) as [Hi|Hi].
  - rewrite lookup_app_l by (rewrite length_replicate; lia). apply lookup_replicate_2. lia.
  - rewrite lookup_app_r; rewrite length_replicate; [|lia]. rewrite lookup_drop. f_equal. lia.
Qed.

Lemma fill_length omissions a b reason :
  a <= b -> b <= length omissions -> length (fill_omissions omissions a b reason) = length omissions.
Proof.
  intros Hab Hb. unfold fill_omissions. rewrite !length_app, length_take, length_replicate, length_drop.
  lia.
Qed.

(** The extent of a run of progress frames: all its records but the last are
    progress frames, and the last is not one unless the log ends there. *)
Lemma progress_extent_spec r rest :
  let k := progress_extent r rest in
  k <= length rest /\
  (forall i x, i < k -> (r :: rest) !! i = Some x -> rd_frame_kind x = Progress) /\
  (forall x, (r :: rest) !! k = Some x -> rd_frame_kind x = Progress -> k = length rest).
Proof.
  revert r. induction rest as [|next rest IH]; intros r; simpl.
  - split_and!; [lia|intros; lia|done].
  - case_bool_decide as E.
    + destruct (IH next) as (H1 & H2 & H3). split_and!; [lia| |].
      * intros [|i] x Hi Hx; [by simplify_eq/=|]. apply (H2 i x); [lia|done].
      * intros x Hx Hp. f_equal. by apply (H3 x).
    + split_and!; [lia|intros; lia|]. intros x [= <-]. done.
Qed.

Definition progress_spec (records : list LogRecord) (i : nat) : option (option OmissionReason) :=
  (fun r => if superseded records i r then Some SupersededProgress else None) <$> records !! i.

Lemma progress_loop_spec fuel records start omissions :
  length omissions = length records -> length records - start <= fuel ->
  (forall i, start <= i < length records -> omissions !! i = Some None) ->
  (forall i, i < start -> omissions !! i = progress_spec records i) ->
  forall i, progress_loop fuel records start omissions !! i = progress_spec records i.
Proof.
  revert start omissions. induction fuel as [|fuel IH]; intros start oms Hlen Hfuel Hnone Hdone i.
  { simpl. destruct (decide (i < start)); [by apply Hdone|]. unfold progress_spec.
    rewrite !lookup_ge_None_2 by lia. done. }
  simpl. destruct (records !! start) as [r|] eqn:Hr.
  2:{ apply lookup_ge_None in Hr. destruct (decide (i < start)); [by apply Hdone|].
      unfold progress_spec. rewrite !lookup_ge_None_2 by lia. done. }
  pose proof (lookup_lt_Some _ _ _ Hr) as Hlt.
  case_bool_decide as Ek; simpl.
  - destruct (progress_extent_spec r (drop (S start) records)) as (Hk & Hall & Hlast).
    set (k := progress_extent r (drop (S start) records)) in *.
    rewrite <-(drop_S _ _ _ Hr) in Hall, Hlast. rewrite length_drop in Hk, Hlast.
    replace (start + k - 0) with (start + k) by lia.
    apply IH; [by rewrite fill_length by lia|lia| |].
    + intros j Hj. rewrite fill_lookup by lia.
      destruct (Nat.leb_spec start j), (Nat.ltb_spec j (start + k)); simpl; try lia.
      apply Hnone. lia.
    + intros j Hj. rewrite fill_lookup by lia. unfold progress_spec.
      destruct (Nat.leb_spec start j); simpl; [|by apply Hdone].
      destruct (lookup_lt_is_Some_2 records j) as [x Hx]; [lia|]. rewrite Hx. simpl.
      assert (Hxd : drop start records !! (j - start) = Some x)
        by (rewrite lookup_drop, <-Hx; f_equal; lia).
      unfold superseded. destruct (Nat.ltb_spec j (start + k)).
      * rewrite bool_decide_true by (apply (Hall (j - start)); [lia|done]).
        destruct (Nat.ltb_spec (S j) (length records)); [done|lia].
      * assert (j - start = k) as Ejk by lia. rewrite Ejk in Hxd.
        rewrite (Hnone j) by lia. case_bool_decide as Ep; [|done].
        specialize (Hlast x Hxd Ep). destruct (Nat.ltb_spec (S j) (length records)); [lia|done].
  - apply IH; [done|lia|intros j Hj; apply Hnone; lia|].
    intros j Hj. destruct (decide (j = start)) as [->|]; [|apply Hdone; lia].
    rewrite (Hnone start) by lia. unfold progress_spec, superseded. rewrite Hr. simpl.
    by rewrite bool_decide_false.
Qed.

Lemma progress_omissions_spec records i :
  progress_omissions records !! i = progress_spec records i.
Proof.
  unfold progress_omissions. apply progress_loop_spec; [by rewrite length_replicate|lia| |intros; lia].
  intros j Hj. apply lookup_replicate_2. lia.
Qed.

Lemma boilerplate_omissions_spec records policy i :
  apply_boilerplate_omissions records policy (progress_omissions records) !! i
  = (fun _ => pre_omission records policy i) <$> records !! i.
Proof.
  unfold apply_boilerplate_omissions, pre_omission.
  rewrite lookup_zip_with, progress_omissions_spec. unfold progress_spec.
  destruct (records !! i) as [r|]; [simpl|done].
  destruct (superseded records i r); [done|]. by destruct (boilerplate_map policy !! rd_display r).
Qed.

(** What the repeat loop remembers when it reaches index [i]. *)
Definition remembered (previous : option string) (records : list LogRecord)
    (omissions : list (option OmissionReason)) (i : nat) : option string :=
  match i with
  | O => previous
  | S j => match omissions !! j with Some None => rd_display <$> records !! j | _ => None end
  end.

Lemma repeat_loop_spec previous records omissions i :
  length omissions = length records ->
  repeat_loop previous records omissions !! i =
    match records !! i, omissions !! i with
    | Some r, Some None =>
      Some (if bool_decide (remembered previous records omissions i = Some (rd_display r))
            then Some Repeated else None)
    | _, o => o
    end.
Proof.
  revert previous omissions i.
  induction records as [|r records IH]; intros previous [|[reason|] omissions] i Hlen;
    simpl in Hlen; try discriminate; [by destruct i| |].
  - simpl. destruct i as [|i]; [done|]. simpl. rewrite IH by lia. by destruct i.
  - simpl. case_bool_decide as E.
    + destruct i as [|i]; simpl; [by rewrite bool_decide_true|]. rewrite IH by lia.
      destruct i as [|i]; simpl; [|done]. by rewrite E.
    + destruct i as [|i]; simpl; [by rewrite bool_decide_false|]. rewrite IH by lia.
      by destruct i as [|i].
Qed.

Lemma omissions_of_lookup records policy i :
  omissions_of records policy !! i = (fun _ => omission_spec records policy i) <$> records !! i.
Proof.
  unfold omissions_of, apply_repeat_omissions.
  set (oms := apply_boilerplate_omissions _ _ _).
  assert (Homs : forall j, oms !! j = (fun _ => pre_omission records policy j) <$> records !! j)
    by apply boilerplate_omissions_spec.
  assert (Hlen : length oms = length records).
  { apply Nat.le_antisymm; apply Nat.nlt_ge; intros Hlt; apply lookup_lt_is_Some_2 in Hlt as [x Hx].
    - rewrite Homs in Hx. destruct (records !! length records) eqn:E; [|done].
      apply lookup_lt_Some in E. lia.
    - pose proof (Homs (length oms)) as Ho. rewrite Hx, lookup_ge_None_2 in Ho by lia. done. }
  rewrite repeat_loop_spec, Homs by done. unfold omission_spec, repeats.
  destruct (records !! i) as [r|] eqn:Hr; [simpl|done].
  destruct (pre_omission records policy i) eqn:Ep; [done|]. f_equal.
  destruct i as [|j]; [done|]. simpl. rewrite Homs.
  destruct (lookup_lt_is_Some_2 records j) as [x Hx]; [apply lookup_lt_Some in Hr; lia|].
  rewrite Hx. simpl. destruct (pre_omission records policy j); simpl;
    repeat case_bool_decide; simplify_eq/=; done.
Qed.

(** ** Retention reasons as a relation *)

Definition has_reason (reasons : list (list RetentionReason)) (i : nat) (reason : RetentionReason)
  : Prop := exists l, reasons !! i = Some l /\ reason ∈ l.

(** A computation that adds exactly the reasons [P] and nothing else. *)
Definition adds (P : nat -> RetentionReason -> Prop) (reasons : list (list RetentionReason))
    (out : cres (list (list RetentionReason))) : Prop :=
  exists reasons', out = Ok reasons' /\ length reasons' = length reasons /\
    forall i reason, has_reason reasons' i reason <-> has_reason reasons i reason \/ P i reason.

Lemma adds_nothing P reasons : (forall i reason, ~ P i reason) -> adds P reasons (Ok reasons).
Proof. intros HP. exists reasons. split_and!; [done..|]. intros i reason. naive_solver. Qed.

Lemma adds_iff P Q reasons out :
  (forall i reason, P i reason <-> Q i reason) -> adds P reasons out -> adds Q reasons out.
Proof.
  intros HPQ (rs & -> & Hl & H). exists rs. split_and!; [done..|]. intros i reason.
  by rewrite H, HPQ.
Qed.

Lemma adds_bind P Q reasons out (k : list (list RetentionReason) -> cres _) :
  adds P reasons out ->
  (forall reasons', length reasons' = length reasons -> adds Q reasons' (k reasons')) ->
  adds (fun i reason => P i reason \/ Q i reason) reasons (let? reasons := out in k reasons).
Proof.
  intros (rs & -> & Hl & H) Hk. destruct (Hk rs Hl) as (rs' & E & Hl' & H').
  exists rs'. split_and!; [done|congruence|]. intros i reason. rewrite H', H. tauto.
Qed.

Lemma add_reason_elem l reason r : r ∈ add_reason l reason <-> r ∈ l \/ r = reason.
Proof. unfold add_reason. case_bool_decide; set_solver. Qed.

Lemma adds_one reasons index reason :
  index < length reasons ->
  adds (fun i r => i = index /\ r = reason) reasons (add_reason_at reasons index reason).
Proof.
  intros Hi. unfold add_reason_at. destruct (lookup_lt_is_Some_2 _ _ Hi) as [l Hl]. rewrite Hl. simpl.
  eexists. split; [done|]. split; [by rewrite length_insert|]. intros i r. unfold has_reason.
  destruct (decide (i = index)) as [->|Hne].
  - rewrite list_lookup_insert_eq, Hl by done. split.
    + intros (? & [= <-] & Hr). apply add_reason_elem in Hr as [|]; eauto.
    + intros [(? & [= <-] & Hr)|[_ Hr]]; eexists; (split; [done|]); apply add_reason_elem; auto.
  - rewrite list_lookup_insert_ne by done. naive_solver.
Qed.

Lemma adds_each {A} (P : A -> nat -> RetentionReason -> Prop) (body : A -> _ -> cres _) l reasons :
  (forall x reasons', x ∈ l -> length reasons' = length reasons ->
     adds (P x) reasons' (body x reasons')) ->
  adds (fun i reason => exists x, x ∈ l /\ P x i reason) reasons (for_each body l reasons).
Proof.
  revert reasons. induction l as [|x l IH]; intros reasons Hbody; simpl.
  - apply adds_nothing. intros i reason (x & Hx & _). by apply not_elem_of_nil in Hx.
  - eapply adds_iff; [|eapply adds_bind; [apply Hbody; [left|done]|]].
    2:{ intros reasons' Hl. apply IH. intros y rs Hy Hrs. apply Hbody; [by right|congruence]. }
    intros i reason. split; [intros [?|(y & ? & ?)]; eauto using list_elem_of_here, list_elem_of_further|].
    intros (y & Hy & HP). apply elem_of_cons in Hy as [->|Hy]; eauto.
Qed.

(** ** The reasons a record has *)

Definition stage_target (records : list LogRecord) (active : list nat) (byte_offset : Z)
  : option nat :=
  match record_at_or_after records byte_offset with
  | Some raw_index => nearest_active active raw_index
  | None => None
  end.

Definition shows_failure (records : list LogRecord) (i : nat) (keyword : FailureKeyword) : Prop :=
  exists r, records !! i = Some r /\
    contains_ascii_case_insensitive (rd_display r) (keyword_as_str keyword) = true.

(** Why the record at index [i] is wanted, by its position among the active
    records. *)
Definition wanted (records : list LogRecord) (active : list nat) (metadata : LogMetadata)
    (policy : CompactionPolicy) (i : nat) (reason : RetentionReason) : Prop :=
  match reason with
  | FirstBoundary => exists p, active !! p = Some i /\ p < cp_boundary_records policy
  | LastBoundary => exists p, active !! p = Some i /\ length active - p <= cp_boundary_records policy
  | AtStage label byte_offset =>
    {| sb_label := label; sb_byte_offset := byte_offset |} ∈ lm_stage_boundaries metadata /\
    stage_target records active byte_offset = Some i
  | FailureNeighborhood keyword =>
    exists p q j, active !! p = Some i /\ active !! q = Some j /\ shows_failure records j keyword /\
      p <= q + cp_failure_context_records policy /\ q <= p + cp_failure_context_records policy
  end.

Lemma insert_sorted_elem {A} (le : A -> A -> bool) x y l :
  y ∈ insert_sorted le x l <-> y = x \/ y ∈ l.
Proof. induction l as [|z l IH]; simpl; [set_solver|]. destruct (le x z); set_solver. Qed.

Lemma sort_by_elem {A} (le : A -> A -> bool) y l : y ∈ sort_by le l <-> y ∈ l.
Proof.
  induction l as [|x l IH]; simpl; [done|]. unfold sort_by in *. simpl.
  rewrite insert_sorted_elem, IH. set_solver.
Qed.

Lemma dedup_elem {A} `{EqDecision A} y (l : list A) : y ∈ dedup l <-> y ∈ l.
Proof.
  induction l as [|x l IH]; simpl; [done|]. rewrite (elem_of_cons l), <-IH.
  destruct (dedup l) as [|z kept]; [by rewrite elem_of_cons|].
  case_bool_decide as Ex; rewrite !elem_of_cons; [subst x; tauto|done].
Qed.

Section retention.
Context (records : list LogRecord) (active : list nat).
Context (Hactive : forall i, i ∈ active -> i < length records).

Lemma elem_of_take_iff (l : list nat) n i : i ∈ take n l <-> exists p, l !! p = Some i /\ p < n.
Proof.
  rewrite list_elem_of_lookup. split; intros [p Hp].
  - apply lookup_take_Some in Hp. eauto.
  - destruct Hp as [Hp Hn]. exists p. by rewrite lookup_take_lt.
Qed.

Lemma elem_of_take_reverse (l : list nat) n i :
  i ∈ take n (reverse l) <-> exists p, l !! p = Some i /\ length l - p <= n.
Proof.
  rewrite elem_of_take_iff. split; intros (p & Hp & Hn); pose proof (lookup_lt_Some _ _ _ Hp) as Hlt.
  - rewrite length_reverse in Hlt. rewrite reverse_lookup in Hp by done.
    exists (length l - S p). split; [done|lia].
  - exists (length l - S p). rewrite reverse_lookup by lia. split; [|lia].
    rewrite <-Hp. f_equal. lia.
Qed.

Lemma retain_boundaries_spec n reasons :
  length reasons = length records ->
  adds (fun i reason => (reason = FirstBoundary /\ exists p, active !! p = Some i /\ p < n)
          \/ (reason = LastBoundary /\ exists p, active !! p = Some i /\ length active - p <= n))
    reasons (retain_boundaries active n reasons).
Proof.
  intros Hlen. unfold retain_boundaries.
  eapply adds_iff; [|eapply adds_bind; [eapply adds_each|intros rs Hrs; eapply adds_each]].
  2:{ intros x rs Hx Hl. apply adds_one. rewrite Hl, Hlen. apply Hactive.
      apply elem_of_take_iff in Hx as (p & Hp & _). by eapply list_elem_of_lookup_2. }
  2:{ intros x rs' Hx Hl. apply adds_one. rewrite Hl, Hrs, Hlen. apply Hactive.
      apply elem_of_take_reverse in Hx as (p & Hp & _). by eapply list_elem_of_lookup_2. }
  intros i reason. simpl. split.
  - intros [(x & Hx & -> & ->)|(x & Hx & -> & ->)];
      [left; by rewrite <-elem_of_take_iff|right; by rewrite <-elem_of_take_reverse].
  - intros [[-> Hx]|[-> Hx]]; [left|right]; exists i.
    + by rewrite elem_of_take_iff.
    + by rewrite elem_of_take_reverse.
Qed.

Lemma nearest_active_elem raw_index index :
  nearest_active active raw_index = Some index -> index ∈ active.
Proof.
  unfold nearest_active. destruct (List.find _ active) as [x|] eqn:E.
  - intros [= <-]. apply List.find_some in E as [Hin _]. by apply list_elem_of_In.
  - apply last_Some_elem_of.
Qed.

Lemma retain_stages_spec stages reasons :
  length reasons = length records ->
  adds (fun i reason => exists stage, stage ∈ stages /\
          stage_target records active (sb_byte_offset stage) = Some i /\
          reason = AtStage (sb_label stage) (sb_byte_offset stage))
    reasons (retain_stages records active stages reasons).
Proof.
  intros Hlen. unfold retain_stages.
  eapply adds_iff; [|eapply (adds_each (fun stage i reason =>
    stage_target records active (sb_byte_offset stage) = Some i /\
    reason = AtStage (sb_label stage) (sb_byte_offset stage)))].
  - intros i reason. simpl. setoid_rewrite dedup_elem. by setoid_rewrite sort_by_elem.
  - intros stage rs _ Hl. unfold stage_target.
    destruct (record_at_or_after _ _) as [raw|]; [|by apply adds_nothing; intros ? ? [? _]].
    destruct (nearest_active active raw) as [index|] eqn:En;
      [|by apply adds_nothing; intros ? ? [? _]].
    eapply adds_iff; [|apply adds_one; rewrite Hl, Hlen; by eapply Hactive, nearest_active_elem].
    intros i reason. simpl. naive_solver.
Qed.

(** The neighbours of position [p]: the active records within the context. *)
Lemma neighbors_spec p context (Hp : p < length active) :
  let first := p - context in
  let final := Nat.min (p + context) (length active - 1) in
  exists l, slice (E := CompactError) active first (S final) = Ok l /\
    forall i, i ∈ l <-> exists q, active !! q = Some i /\ q <= p + context /\ p <= q + context.
Proof.
  intros first final. unfold slice.
  rewrite (proj2 (Nat.leb_le _ _)), (proj2 (Nat.leb_le _ _)) by lia. eexists. split; [done|].
  intros i. rewrite elem_of_take_iff. split.
  - intros (k & Hk & Hlt). rewrite lookup_drop in Hk. exists (first + k). split; [done|]. lia.
  - intros (q & Hq & H1 & H2). exists (q - first). pose proof (lookup_lt_Some _ _ _ Hq).
    rewrite lookup_drop. split; [rewrite <-Hq; f_equal; lia|lia].
Qed.

Lemma elem_of_enumerate_lookup {A} (l : list A) i x : (i, x) ∈ enumerate l <-> l !! i = Some x.
Proof.
  unfold enumerate. assert (H : forall n, (i, x) ∈ enumerate_from n l <-> n <= i /\ l !! (i - n) = Some x).
  { induction l as [|y l IH]; intros n; simpl.
    - split; [by intros ?%not_elem_of_nil|intros [_ ?]; done].
    - rewrite elem_of_cons, IH. split.
      + intros [[= -> ->]|[Hle Hi]]; [by rewrite Nat.sub_diag|].
        split; [lia|]. by replace (i - n) with (S (i - S n)) by lia.
      + intros [Hle Hi]. destruct (decide (i = n)) as [->|Hne].
        * rewrite Nat.sub_diag in Hi. injection Hi as ->. by left.
        * right. split; [lia|]. by replace (i - n) with (S (i - S n)) in Hi by lia. }
  rewrite H, Nat.sub_0_r. split; [by intros [_ ?]|split; [lia|done]].
Qed.

Lemma keyword_elem k : k ∈ FAILURE_KEYWORDS.
Proof. destruct k; unfold FAILURE_KEYWORDS; set_solver. Qed.

Lemma retain_failures_spec context reasons :
  length reasons = length records ->
  adds (fun i reason => exists keyword p q j, reason = FailureNeighborhood keyword /\
          active !! p = Some i /\ active !! q = Some j /\ shows_failure records j keyword /\
          p <= q + context /\ q <= p + context)
    reasons (retain_failure_neighborhoods records active context reasons).
Proof.
  intros Hlen. unfold retain_failure_neighborhoods.
  eapply adds_iff; [|eapply (adds_each (fun '(q, j) i reason => exists keyword p,
    reason = FailureNeighborhood keyword /\ active !! p = Some i /\ shows_failure records j keyword /\
    p <= q + context /\ q <= p + context))].
  { intros i reason. simpl. split.
    - intros ([q j] & Hq & k & p & ?). apply elem_of_enumerate_lookup in Hq. exists k, p, q, j. naive_solver.
    - intros (k & p & q & j & ? & ? & Hq & ?). exists (q, j). rewrite elem_of_enumerate_lookup.
      split; [done|]. exists k, p. naive_solver. }
  intros [q j] rs Hq Hl. apply elem_of_enumerate_lookup in Hq.
  destruct (lookup_lt_is_Some_2 records j) as [r Hr]; [by eapply Hactive, list_elem_of_lookup_2|].
  rewrite Hr. cbn [or_panic]. eapply adds_iff; [|eapply (adds_each (fun keyword i reason => exists p,
    reason = FailureNeighborhood keyword /\ active !! p = Some i /\ shows_failure records j keyword /\
    p <= q + context /\ q <= p + context))].
  { intros i reason. simpl. split; [intros (k & _ & ?); naive_solver|].
    intros (k & p & ?). exists k. split; [apply keyword_elem|]. naive_solver. }
  intros k rs' _ Hl'.
  destruct (contains_ascii_case_insensitive (rd_display r) (keyword_as_str k)) eqn:Ec; simpl.
  - destruct (neighbors_spec q context) as (l & El & Hin); [by eapply lookup_lt_Some|].
    simpl in El. rewrite El. simpl. eapply adds_iff; [|eapply adds_each].
    2:{ intros x rs2 Hx Hl2. apply adds_one. rewrite Hl2, Hl', Hl, Hlen. apply Hactive.
        apply Hin in Hx as (p & Hp & _). by eapply list_elem_of_lookup_2. }
    intros i reason. simpl. split.
    + intros (x & Hx & -> & ->). apply Hin in Hx as (p & Hp & ? & ?). exists p.
      split_and!; auto. by exists r.
    + intros (p & -> & Hp & _ & ? & ?). exists i. rewrite Hin. split; [|done]. eauto.
  - apply adds_nothing. intros i reason (p & _ & _ & (r' & Hr' & Hc) & _). congruence.
Qed.

Lemma all_reasons_spec metadata policy :
  exists reasons,
    (let? reasons := retain_boundaries active (cp_boundary_records policy)
                       (replicate (length records) []) in
     let? reasons := retain_stages records active (lm_stage_boundaries metadata) reasons in
     retain_failure_neighborhoods records active (cp_failure_context_records policy) reasons)
    = Ok reasons /\ length reasons = length records /\
    forall i reason, has_reason reasons i reason <-> wanted records active metadata policy i reason.
Proof.
  assert (Hlen : length (replicate (length records) (@nil RetentionReason)) = length records)
    by apply length_replicate.
  pose proof (adds_bind _ _ _ _ _ (retain_boundaries_spec (cp_boundary_records policy) _ Hlen)
    (fun rs Hrs => adds_bind _ _ _ _ _
       (retain_stages_spec (lm_stage_boundaries metadata) rs (eq_trans Hrs Hlen))
       (fun rs' Hrs' => retain_failures_spec (cp_failure_context_records policy) rs'
          (eq_trans Hrs' (eq_trans Hrs Hlen))))) as (reasons & E & Hl & H).
  exists reasons. split_and!; [done|by rewrite Hl|]. intros i reason. rewrite H.
  assert (Hnone : ~ has_reason (replicate (length records) []) i reason).
  { intros (l & Hi & Hin). apply lookup_replicate in Hi as [-> _]. by apply not_elem_of_nil in Hin. }
  destruct reason as [| |label off|keyword]; simpl; split; intros Hw;
    try (destruct Hw as [Hw|[[[? Hw]|[? Hw]]|[(stg & ? & ? & ?)|(kw & p & q & j & ? & ?)]]]);
    simplify_eq/=; try done; try naive_solver.
  destruct stg; naive_solver.
Qed.

End retention.

(** ** Dispositions *)

Lemma active_of_elem omissions i : i ∈ active_of omissions <-> omissions !! i = Some None.
Proof.
  unfold active_of. rewrite list_elem_of_omap. split.
  - intros ([j [reason|]] & Hj & E); [done|]. injection E as ->. by apply elem_of_enumerate_lookup in Hj.
  - intros Hi. exists (i, None). by rewrite elem_of_enumerate_lookup.
Qed.

Lemma omissions_of_length records policy : length (omissions_of records policy) = length records.
Proof.
  apply Nat.le_antisymm; apply Nat.nlt_ge; intros Hlt;
    apply lookup_lt_is_Some_2 in Hlt as [x Hx].
  - rewrite omissions_of_lookup, lookup_ge_None_2 in Hx by lia. done.
  - pose proof (omissions_of_lookup records policy (length (omissions_of records policy))) as Ho.
    rewrite Hx, lookup_ge_None_2 in Ho by lia. done.
Qed.

Lemma active_bounded records policy i :
  i ∈ active_of (omissions_of records policy) -> i < length records.
Proof. intros Hi%active_of_elem%lookup_lt_Some. by rewrite omissions_of_length in Hi. Qed.

(** What happens to the record at index [i]. *)
Definition disposition_spec (records : list LogRecord) (metadata : LogMetadata)
    (policy : CompactionPolicy) (i : nat) (d : Disposition) : Prop :=
  let want := wanted records (active_of (omissions_of records policy)) metadata policy i in
  match omission_spec records policy i with
  | Some reason => d = DispOmitted reason
  | None => (exists reasons, d = DispRetained reasons /\ reasons <> [] /\
               forall reason, reason ∈ reasons <-> want reason)
            \/ (d = DispOmitted OutsideRetentionWindow /\ forall reason, ~ want reason)
  end.

Lemma dispositions_of_spec records metadata policy :
  exists ds, dispositions_of records metadata policy = Ok ds /\ length ds = length records /\
    forall i d, ds !! i = Some d -> disposition_spec records metadata policy i d.
Proof.
  unfold dispositions_of. set (active := active_of _).
  destruct (all_reasons_spec records active (active_bounded records policy) metadata policy)
    as (reasons & E & Hlen & Hwant).
  destruct (retain_boundaries _ _ _) as [rs| |]; [|done..].
  destruct (retain_stages _ _ _ _) as [rs'| |]; [|done..]. rewrite E.
  eexists. split; [done|]. split.
  { rewrite length_zip_with, omissions_of_length, Hlen. lia. }
  intros i d Hd. apply lookup_zip_with_Some in Hd as (omission & rs2 & -> & Ho & Hr).
  unfold disposition_spec. fold active. rewrite omissions_of_lookup in Ho.
  destruct (records !! i) as [r|]; [|done]. injection Ho as <-.
  destruct (omission_spec records policy i) as [reason|]; [done|].
  assert (Hiff : forall reason, reason ∈ rs2 <-> wanted records active metadata policy i reason).
  { intros reason. rewrite <-Hwant. unfold has_reason. rewrite Hr.
    split; [by eauto|by intros (? & [= <-] & ?)]. }
  destruct rs2 as [|x rs2]; [right|left; by exists (x :: rs2)].
  split; [done|]. intros reason Hw. apply Hiff in Hw. by apply not_elem_of_nil in Hw.
Qed.
