(* ===== verification/CompactText.v ===== *)
(** * Compaction: rendered text and policy identity

    Nothing of a log reaches the rendered text as a terminal control: escape
    sequences are dropped, control characters are spelled out, and the only
    control character left is the line feed the renderer adds. The policy digest
    identifies a policy up to the order of its rules. *)

From S2P Require Import Prelude Core Compact CompactSpec CompactKeep.

Local Open Scope Z_scope.
Local Ltac Zify.zify_post_hook ::= Z.div_mod_to_equations.

(** ** UTF-8 *)

Definition scalar (c : Z) : Prop := 0 <= c < 1114112.

Lemma byte_val_of z : 0 <= z < 256 -> byte_val (byte_of z) = z.
Proof. intros Hz. unfold byte_val, byte_of. rewrite N_ascii_embedding by lia. lia. Qed.

(** [s] spells the characters [cs] whatever follows it. *)
Definition spells (s : string) (cs : list Z) : Prop := forall t, chars (s +:+ t) = cs ++ chars t.

Lemma spells_nil : spells EmptyString [].
Proof. done. Qed.

Lemma spells_app s1 s2 c1 c2 : spells s1 c1 -> spells s2 c2 -> spells (s1 +:+ s2) (c1 ++ c2).
Proof. intros H1 H2 t. by rewrite append_assoc, H1, H2, app_assoc. Qed.

Ltac eval_byte := rewrite ?byte_val_of by lia.
Ltac test_byte :=
  match goal with |- context [ (?a <? ?b)%Z ] => destruct (Z.ltb_spec a b); [try lia|try lia] end.

Lemma push_char_spells c : scalar c -> spells (push_char c) [c].
Proof.
  intros [H0 Hc] t. unfold push_char.
  destruct (Z.ltb_spec c 128); [|destruct (Z.ltb_spec c 2048); [|destruct (Z.ltb_spec c 65536)]];
    simpl; eval_byte; repeat test_byte; f_equal; lia.
Qed.

(** A string of ASCII bytes spells itself. *)
Definition ascii_only (s : string) : Prop := forall a, a ∈ bytes s -> byte_val a < 128.

Lemma ascii_spells s : ascii_only s -> spells s (byte_val <$> bytes s).
Proof.
  intros Hs t. induction s as [|a s IH]; [done|]. simpl.
  destruct (Z.ltb_spec (byte_val a) 128) as [_|Hge].
  - f_equal. apply IH. intros b Hb. apply Hs. by right.
  - pose proof (Hs a (list_elem_of_here _ _)). lia.
Qed.

Lemma low6_range a : 0 <= low6 a < 64.
Proof. unfold low6. pose proof (byte_val_range a). lia. Qed.

Lemma two_bytes_scalar a b : scalar (byte_val a `mod` 32 * 64 + low6 b).
Proof. unfold scalar. pose proof (low6_range b). lia. Qed.

Lemma three_bytes_scalar a b c : scalar (byte_val a `mod` 16 * 4096 + low6 b * 64 + low6 c).
Proof. unfold scalar. pose proof (low6_range b). pose proof (low6_range c). lia. Qed.

Lemma four_bytes_scalar a b c e :
  in_range 240 244 a = true -> second_of_four a b = true ->
  scalar (byte_val a `mod` 8 * 262144 + low6 b * 4096 + low6 c * 64 + low6 e).
Proof.
  unfold second_of_four, is_continuation, in_range. intros Ha Hb.
  pose proof (low6_range b). pose proof (low6_range c). pose proof (low6_range e).
  unfold scalar. destruct (Z.eqb_spec (byte_val a) 240), (Z.eqb_spec (byte_val a) 244);
    unfold low6 in *; lia.
Qed.

Lemma from_utf8_lossy_scalar l : Forall scalar (from_utf8_lossy l).
Proof.
  assert (Hr : scalar REPLACEMENT_CHARACTER) by (unfold scalar, REPLACEMENT_CHARACTER; lia).
  induction l as [l IH] using (induction_ltof1 _ (@length ascii)). unfold ltof in IH.
  destruct l as [|a l1]; [constructor|]. cbn [from_utf8_lossy].
  destruct (Z.ltb_spec (byte_val a) 128).
  { constructor; [pose proof (byte_val_range a); unfold scalar; lia|apply IH; simpl; lia]. }
  destruct (in_range 194 223 a); [|destruct (in_range 224 239 a); [|destruct (in_range 240 244 a) eqn:E4]];
    repeat match goal with
    | |- Forall scalar (match ?x with [] => _ | _ => _ end) => destruct x
    | |- Forall scalar (if ?b then _ else _) => destruct b eqn:?
    end; repeat (constructor; [by auto using two_bytes_scalar, three_bytes_scalar, four_bytes_scalar|]);
    first [constructor|apply IH; simpl; lia].
Qed.

(** ** Printable text *)

(** Characters a terminal shows; [lines] also allows line feeds. *)
Definition printable (s : string) : Prop :=
  exists cs, spells s cs /\ Forall (fun c => is_control c = false) cs.
Definition lines (s : string) : Prop :=
  exists cs, spells s cs /\ Forall (fun c => is_control c = true -> c = 10) cs.

Lemma printable_lines s : printable s -> lines s.
Proof.
  intros (cs & Hs & Hcs). exists cs. split; [done|]. eapply Forall_impl; [done|]. simpl. congruence.
Qed.

Lemma printable_app s1 s2 : printable s1 -> printable s2 -> printable (s1 +:+ s2).
Proof.
  intros (c1 & H1 & F1) (c2 & H2 & F2). exists (c1 ++ c2). split; [by apply spells_app|].
  by apply Forall_app.
Qed.

Lemma lines_app s1 s2 : lines s1 -> lines s2 -> lines (s1 +:+ s2).
Proof.
  intros (c1 & H1 & F1) (c2 & H2 & F2). exists (c1 ++ c2). split; [by apply spells_app|].
  by apply Forall_app.
Qed.

Lemma printable_ascii s : forallb (in_range 32 126) (bytes s) = true -> printable s.
Proof.
  rewrite forallb_true_elem. intros Hs. exists (byte_val <$> bytes s). split.
  - apply ascii_spells. intros a Ha. specialize (Hs a Ha). unfold in_range in Hs. lia.
  - apply Forall_fmap, Forall_forall. intros a Ha. specialize (Hs a Ha).
    unfold in_range in Hs. simpl. unfold is_control. lia.
Qed.

Lemma lines_eol : lines eol.
Proof. exists [10]. split; [done|]. by repeat constructor. Qed.

Create HintDb printable.
#[local] Hint Resolve printable_app lines_app printable_lines lines_eol : printable.
#[local] Hint Extern 1 (printable _) => (apply printable_ascii; reflexivity) : printable.

Lemma bytes_app s t : bytes (s +:+ t) = bytes s ++ bytes t.
Proof. induction s as [|a s IH]; simpl; [done|]. f_equal. exact IH. Qed.

Lemma hex_digit_printable n : (n < 16)%N -> in_range 32 126 (hex_digit n) = true.
Proof. by apply (for_digits (fun n => in_range 32 126 (hex_digit n))). Qed.

Lemma hex_byte_printable a : printable (hex_byte a).
Proof.
  apply printable_ascii. unfold hex_byte. simpl.
  rewrite !hex_digit_printable; [done|apply N.mod_lt; lia|apply N_of_ascii_div16].
Qed.

Lemma lower_hex_printable fuel n : printable (lower_hex fuel n).
Proof.
  revert n. induction fuel as [|fuel IH]; intros n; simpl; [by apply printable_ascii|].
  apply printable_app; [destruct (_ <? _)%N; [by apply printable_ascii|apply IH]|].
  apply printable_ascii. simpl. rewrite hex_digit_printable; [done|apply N.mod_lt; lia].
Qed.

Lemma pretty_N_printable (n : N) : printable (pretty n).
Proof.
  assert (Hgo : forall x s, forallb (in_range 32 126) (bytes s) = true ->
            forallb (in_range 32 126) (bytes (pretty_N_go x s)) = true).
  { intros x. induction (N.lt_wf_0 x) as [x _ IH]. intros s Hs.
    destruct (decide (x = 0)%N) as [->|]; [by rewrite pretty_N_go_0|].
    rewrite pretty_N_go_step by lia. apply IH; [apply N.div_lt; lia|]. simpl. rewrite Hs.
    unfold pretty_N_char. by repeat case_match. }
  apply printable_ascii. unfold pretty, pretty_N. case_decide; [done|]. by apply Hgo.
Qed.

Lemma pretty_nat_printable (n : nat) : printable (pretty n).
Proof. apply pretty_N_printable. Qed.

Lemma pretty_Z_printable (z : Z) : printable (pretty z).
Proof.
  destruct z as [|x|x]; [by apply printable_ascii|apply (pretty_N_printable (Npos x))|].
  apply (printable_app "-"); [by apply printable_ascii|apply (pretty_N_printable (Npos x))].
Qed.
#[local] Hint Resolve hex_byte_printable lower_hex_printable pretty_nat_printable
  pretty_Z_printable : printable.

Lemma display_char_printable c : scalar c -> printable (display_char c).
Proof.
  intros Hc. unfold display_char. destruct (is_control c) eqn:E.
  - destruct (c =? 9); [|destruct (c <=? 255)]; auto with printable.
  - exists [c]. split; [by apply push_char_spells|]. by repeat constructor.
Qed.

Lemma normalize_display_printable l : printable (normalize_display l).
Proof.
  unfold normalize_display. induction (from_utf8_lossy_scalar (strip_terminal_sequences l)); simpl;
    [by apply printable_ascii|auto using printable_app, display_char_printable].
Qed.

(** ** Escape sequences *)

Lemma consume_csi_length l : (length (consume_csi l) <= length l)%nat.
Proof. induction l as [|a l IH]; simpl; [lia|]. destruct (in_range _ _ _); lia. Qed.

Lemma consume_osc_length l : (length (consume_osc l) <= length l)%nat.
Proof.
  induction l as [l IH] using (induction_ltof1 _ (@length ascii)). unfold ltof in IH.
  destruct l as [|a [|b l]]; cbn [consume_osc]; [simpl; lia|by destruct (_ =? _); simpl; lia|].
  destruct (_ =? _); [simpl; lia|]. destruct (_ && _); [simpl; lia|].
  specialize (IH (b :: l) ltac:(simpl; lia)). simpl in *. lia.
Qed.

Lemma consume_escape_length l : (length (consume_escape l) <= length l)%nat.
Proof.
  destruct l as [|a l]; simpl; [lia|]. pose proof (consume_csi_length l).
  pose proof (consume_osc_length l). destruct (_ =? _); [lia|]. destruct (_ =? _); lia.
Qed.

(** The number of bytes is enough fuel: the scan stops because the input ends. *)
Lemma strip_loop_enough fuel l :
  (length l <= fuel)%nat -> strip_loop fuel l = strip_terminal_sequences l.
Proof.
  unfold strip_terminal_sequences. revert fuel.
  induction l as [l IH] using (induction_ltof1 _ (@length ascii)). unfold ltof in IH.
  intros fuel Hle. destruct l as [|a l]; [by destruct fuel|].
  destruct fuel as [|fuel]; [simpl in Hle; lia|]. simpl in Hle, IH |- *.
  pose proof (consume_escape_length l) as Hesc. destruct (_ =? _).
  - transitivity (strip_loop (length (consume_escape l)) (consume_escape l));
      [|symmetry]; apply IH; lia.
  - f_equal. apply IH; lia.
Qed.

Lemma strip_no_escape l a : a ∈ strip_terminal_sequences l -> byte_val a <> 27.
Proof.
  unfold strip_terminal_sequences. generalize (length l) as fuel. intros fuel. revert l.
  induction fuel as [|fuel IH]; intros [|b l]; simpl; try (by intros ?%not_elem_of_nil).
  destruct (Z.eqb_spec (byte_val b) 27) as [|Hb]; [by apply IH|].
  intros [->|Ha]%elem_of_cons; [done|by eapply IH].
Qed.

(** ** The rendered text *)

Lemma boilerplate_map_elem policy line id :
  boilerplate_map policy !! line = Some id ->
  exists rule, rule ∈ cp_boilerplate_rules policy /\ br_id rule = id /\ br_exact_line rule = line.
Proof.
  unfold boilerplate_map.
  assert (H : forall rules (m : gmap string string),
    foldl (fun rules rule => <[br_exact_line rule := br_id rule]> rules) m rules !! line = Some id ->
    m !! line = Some id
    \/ exists rule, rule ∈ rules /\ br_id rule = id /\ br_exact_line rule = line).
  { induction rules as [|rule rules IH]; intros m; simpl; [by left|]. intros Hl.
    apply IH in Hl as [Hl|(r & Hr & ?)]; [|right; exists r; split; [by right|done]].
    apply lookup_insert_Some in Hl as [[<- <-]|[_ Hl]]; [|by left].
    right. exists rule. split; [left|done]. }
  intros Hl. apply H in Hl as [Hl|?]; [|done]. by rewrite lookup_empty in Hl.
Qed.

Lemma iter_res_all {E A} (f : A -> res E unit) l x : iter_res f l = Ok tt -> x ∈ l -> f x = Ok tt.
Proof.
  induction l as [|y l IH]; simpl; [by intros _ ?%not_elem_of_nil|].
  destruct (f y) as [[]| |] eqn:Ey; try done. intros Hl [->|Hx]%elem_of_cons; auto.
Qed.

Lemma identifier_printable value maximum : valid_identifier value maximum = true -> printable value.
Proof.
  unfold valid_identifier. intros [_ Hv]%andb_true_iff. apply printable_ascii.
  unfold all_bytes in Hv. apply forallb_true_elem. intros a Ha.
  rewrite forallb_true_elem in Hv. specialize (Hv a Ha). revert Hv. clear.
  by destruct a as [[] [] [] [] [] [] [] []].
Qed.

Lemma rule_id_printable policy rule :
  validate_policy policy = Ok tt -> rule ∈ cp_boilerplate_rules policy -> printable (br_id rule).
Proof.
  unfold validate_policy. do 4 (destruct (_ : bool); [done|]). intros Hall Hin.
  apply list_elem_of_lookup in Hin as [i Hi]. apply elem_of_enumerate_lookup in Hi.
  apply (iter_res_all _ _ _ Hall) in Hi. unfold validate_rule in Hi.
  destruct (valid_identifier _ _) eqn:E; [|done]. by eapply identifier_printable.
Qed.

Definition reason_printable (reason : OmissionReason) : Prop :=
  match reason with Boilerplate rule_id => printable rule_id | _ => True end.

Lemma omission_printable records policy i reason :
  validate_policy policy = Ok tt -> omission_spec records policy i = Some reason ->
  reason_printable reason.
Proof.
  intros Hv. unfold omission_spec, pre_omission. destruct (records !! i) as [r|].
  2:{ destruct (repeats _ _ _); by intros [= <-]. }
  destruct (superseded _ _ _); [by intros [= <-]|].
  destruct (boilerplate_map policy !! rd_display r) as [id|] eqn:E; simpl.
  - intros [= <-]. apply boilerplate_map_elem in E as (rule & Hin & <- & _).
    by eapply rule_id_printable.
  - destruct (repeats _ _ _); by intros [= <-].
Qed.

Lemma render_omission_lines reason n : reason_printable reason -> lines (render_omission reason n).
Proof. destruct reason; simpl; intros; unfold render_omission; auto 8 with printable. Qed.

Lemma render_exit_status_lines status : lines (render_exit_status status).
Proof. destruct status; unfold render_exit_status; auto 8 with printable. Qed.

Lemma concat_lines l : Forall lines l -> lines (concat_strings l).
Proof.
  unfold concat_strings. induction 1; simpl; [apply printable_lines; by apply printable_ascii|].
  by apply lines_app.
Qed.
