(* ===== verification/CompactLog.v ===== *)
(** * Compaction: properties of [compact_log] *)

From stdpp Require Import sorting.
From S2P Require Import Prelude Core Compact CompactSpec CompactKeep CompactText.

(** ** Policy digests *)

(** The order of [digest_policy]: by identifier, then by line. *)
Definition rule_order (a b : BoilerplateRule) : Prop := rule_le a b = true.

Lemma compare_Lt s t : String.compare s t = Lt <-> String.leb s t = true /\ s <> t.
Proof.
  unfold String.leb. split.
  - intros E. rewrite E. split; [done|]. intros ->.
    pose proof (String.compare_antisym t t) as Ha. rewrite E in Ha. done.
  - intros [Hl Hne]. destruct (String.compare s t) eqn:E; [|done..].
    by apply String.compare_eq_iff in E.
Qed.

Lemma rule_le_spec a b :
  rule_order a b <->
  (String.leb (br_id a) (br_id b) = true /\ br_id a <> br_id b)
  \/ (br_id a = br_id b /\ String.leb (br_exact_line a) (br_exact_line b) = true).
Proof.
  unfold rule_order, rule_le. rewrite <-compare_Lt.
  destruct (String.compare (br_id a) (br_id b)) eqn:E.
  - apply String.compare_eq_iff in E. rewrite E. naive_solver.
  - split; [by left|]. intros _. done.
  - split; [done|]. intros [?|[Hid _]]; [done|]. rewrite Hid in E.
    pose proof (String.compare_antisym (br_id b) (br_id b)) as Ha. rewrite E in Ha. done.
Qed.

#[local] Instance rule_order_trans : Transitive rule_order.
Proof.
  intros a b c. rewrite !rule_le_spec.
  intros [[H1 N1]|[E1 H1]] [[H2 N2]|[E2 H2]].
  - left. split; [by eapply leb_trans|]. intros E. rewrite E in H1.
    apply N2, String.leb_antisym; done.
  - left. rewrite <-E2. done.
  - left. rewrite E1. done.
  - right. split; [congruence|by eapply leb_trans].
Qed.

#[local] Instance rule_order_antisymm : AntiSymm (=) rule_order.
Proof.
  intros [i1 l1] [i2 l2]. rewrite !rule_le_spec. simpl.
  intros [[H1 N1]|[E1 H1]] [[H2 N2]|[E2 H2]]; try congruence.
  - destruct N1. by apply String.leb_antisym.
  - subst i2. f_equal. by apply String.leb_antisym.
Qed.

Lemma rule_order_total a b : rule_order a b \/ rule_order b a.
Proof.
  rewrite !rule_le_spec. destruct (decide (br_id a = br_id b)) as [E|N].
  - destruct (String.leb_total (br_exact_line a) (br_exact_line b)); auto.
  - destruct (String.leb_total (br_id a) (br_id b)); auto.
Qed.

Lemma insert_sorted_perm {A} (le : A -> A -> bool) x l : insert_sorted le x l ≡ₚ x :: l.
Proof.
  induction l as [|y l IH]; simpl; [done|]. destruct (le x y); [done|].
  rewrite IH. apply Permutation_swap.
Qed.

Lemma sort_by_perm {A} (le : A -> A -> bool) l : sort_by le l ≡ₚ l.
Proof.
  unfold sort_by. induction l as [|x l IH]; simpl; [done|]. by rewrite insert_sorted_perm, IH.
Qed.

Lemma rules_sorted l : StronglySorted rule_order (sort_by rule_le l).
Proof.
  apply Sorted_StronglySorted; [exact _|]. unfold sort_by.
  induction l as [|x l IH]; simpl; [constructor|]. revert IH.
  generalize (foldr (insert_sorted rule_le) [] l) as s. induction s as [|y s IHs]; simpl.
  { intros _. by repeat constructor. }
  intros Hs. destruct (rule_le x y) eqn:E; [constructor; [done|by constructor]|].
  inversion Hs as [|? ? Hs' Hhd]; subst. constructor; [by apply IHs|].
  destruct (rule_order_total x y) as [H|H]; [unfold rule_order in H; congruence|].
  destruct s as [|z s]; simpl; [by constructor|]. inversion Hhd; subst.
  destruct (rule_le x z); by constructor.
Qed.

(** The digest does not depend on the order in which the rules are given. *)
Lemma sort_rules_perm l1 l2 : l1 ≡ₚ l2 -> sort_by rule_le l1 = sort_by rule_le l2.
Proof.
  intros HP. apply (StronglySorted_unique rule_order); [apply rules_sorted..|].
  by rewrite !sort_by_perm.
Qed.

Lemma hash_length_prefixed_inj s1 s2 t1 t2 :
  fits64 s1 -> fits64 s2 ->
  hash_length_prefixed s1 +:+ t1 = hash_length_prefixed s2 +:+ t2 -> s1 = s2 /\ t1 = t2.
Proof. apply prefixed_inj. Qed.

Lemma word_inj z1 z2 t1 t2 :
  (0 <= z1 <= u64_max)%Z -> (0 <= z2 <= u64_max)%Z ->
  to_be_bytes64 z1 +:+ t1 = to_be_bytes64 z2 +:+ t2 -> z1 = z2 /\ t1 = t2.
Proof.
  intros H1 H2 E. apply append_inj_length in E as [E ->]; [|by rewrite !to_be_bytes64_length].
  by apply to_be_bytes64_inj in E.
Qed.

Definition rule_fits (r : BoilerplateRule) : Prop := fits64 (br_id r) /\ fits64 (br_exact_line r).

Lemma rules_input_inj l1 l2 :
  Forall rule_fits l1 -> Forall rule_fits l2 -> length l1 = length l2 ->
  foldr (fun rule tail => hash_length_prefixed (br_id rule)
    +:+ hash_length_prefixed (br_exact_line rule) +:+ tail) EmptyString l1
  = foldr (fun rule tail => hash_length_prefixed (br_id rule)
    +:+ hash_length_prefixed (br_exact_line rule) +:+ tail) EmptyString l2 -> l1 = l2.
Proof.
  intros H1. revert l2. induction H1 as [|[i1 x1] l1 [F1 F2] _ IH]; intros [|[i2 x2] l2] H2 Hl; try done.
  inversion H2 as [|? ? [F3 F4] H2']; subst. cbn [foldr br_id br_exact_line] in *. intros E.
  apply hash_length_prefixed_inj in E as [-> E]; [|done..].
  apply hash_length_prefixed_inj in E as [-> E]; [|done..].
  f_equal. apply IH; [done|by injection Hl|done].
Qed.

(** What a validated policy is known to fit. *)
Lemma validated_policy_fits policy :
  validate_policy policy = Ok tt ->
  fits64 (cp_version policy) /\ (Z.of_nat (cp_boundary_records policy) <= u64_max)%Z /\
  (Z.of_nat (cp_failure_context_records policy) <= u64_max)%Z /\
  (Z.of_nat (length (cp_boilerplate_rules policy)) <= u64_max)%Z /\
  Forall rule_fits (cp_boilerplate_rules policy).
Proof.
  unfold validate_policy, valid_identifier, MAX_POLICY_VERSION_BYTES, MAX_BOUNDARY_RECORDS,
    MAX_SOURCE_RECORDS, MAX_FAILURE_CONTEXT_RECORDS, MAX_BOILERPLATE_RULES, fits64, u64_max.
  destruct (negb _) eqn:E1; [done|]. destruct (Z.gtb_spec (Z.of_nat (cp_boundary_records policy)) 100000); [done|].
  destruct (Z.gtb_spec (Z.of_nat (cp_failure_context_records policy)) 64); [done|].
  destruct (Z.gtb_spec (Z.of_nat (length (cp_boilerplate_rules policy))) 128); [done|]. intros Hall.
  split_and!; [|lia..|].
  - apply negb_false_iff, andb_true_iff in E1 as [E1 _]. apply andb_true_iff in E1 as [_ E1]. lia.
  - apply Forall_forall. intros rule Hin.
    apply list_elem_of_lookup in Hin as [i Hi]. apply elem_of_enumerate_lookup in Hi.
    apply (iter_res_all _ _ _ Hall) in Hi. unfold validate_rule, valid_identifier in Hi.
    destruct (negb _) eqn:E2 in Hi; [done|].
    destruct ((len (br_exact_line rule) >? _)%Z || _) eqn:E3 in Hi; [done|].
    apply negb_false_iff, andb_true_iff in E2 as [E2 _]. apply andb_true_iff in E2 as [_ E2].
    apply orb_false_iff in E3 as [E3 _].
    unfold MAX_BOILERPLATE_ID_BYTES, MAX_BOILERPLATE_TEXT_BYTES in *.
    split; unfold fits64, u64_max; lia.
Qed.

Lemma policy_input_inj p1 p2 :
  validate_policy p1 = Ok tt -> validate_policy p2 = Ok tt -> policy_input p1 = policy_input p2 ->
  cp_version p1 = cp_version p2 /\ cp_boundary_records p1 = cp_boundary_records p2 /\
  cp_failure_context_records p1 = cp_failure_context_records p2 /\
  cp_boilerplate_rules p1 ≡ₚ cp_boilerplate_rules p2.
Proof.
  intros (F1 & F2 & F3 & F4 & F5)%validated_policy_fits (G1 & G2 & G3 & G4 & G5)%validated_policy_fits.
  unfold policy_input. cbv zeta. intros E. apply hash_length_prefixed_inj in E as [Ev E]; [|done..].
  apply word_inj in E as [Eb E]; [|lia..]. apply word_inj in E as [Ec E]; [|lia..].
  rewrite !(Permutation_length (sort_by_perm _ _)) in E. apply word_inj in E as [El E]; [|lia..].
  apply rules_input_inj in E; [|by rewrite sort_by_perm..|by rewrite !sort_by_perm; lia].
  split_and!; [done|lia..|]. by rewrite <-(sort_by_perm rule_le (cp_boilerplate_rules p1)), E, sort_by_perm.
Qed.

(** ** Validation and digests *)

Lemma iter_res_no_panic {E A} (f : A -> res E unit) l :
  (forall x, f x <> Panic) -> iter_res f l <> Panic.
Proof.
  intros Hf. induction l as [|x l IH]; simpl; [done|]. specialize (Hf x). by destruct (f x) as [[]| |].
Qed.

Lemma validate_policy_no_panic policy : validate_policy policy <> Panic.
Proof.
  unfold validate_policy. do 4 (destruct (_ : bool); [done|]). apply iter_res_no_panic.
  intros [i rule]. unfold validate_rule. by repeat (destruct (_ : bool); [done|]).
Qed.

Lemma validate_metadata_no_panic metadata n : validate_metadata metadata n <> Panic.
Proof.
  unfold validate_metadata. destruct (_ >? _)%Z; [done|]. apply iter_res_no_panic.
  intros [i stage]. unfold validate_stage. by repeat (destruct (_ : bool); [done|]).
Qed.

Lemma from_sha256_inj h1 h2 : from_sha256 h1 = from_sha256 h2 -> h1 = h2.
Proof. intros E%(f_equal digest_str). injection E as E. by apply hex_string_inj. Qed.

(** ** The parts of a compacted log *)

Lemma compact_log_parts `{Sha256} source l metadata policy log :
  compact_log source l metadata policy = Ok log ->
  validate_policy policy = Ok tt /\
  exists records dispositions, parse_records l = Ok records /\
    dispositions_of records metadata policy = Ok dispositions /\
    build_fragments source records dispositions = Ok (cl_fragments log) /\
    cl_rendered_text log = concat_strings (cf_rendered <$> cl_fragments log)
      +:+ (if (length records =? 0)%nat then "[no log output]" +:+ eol else EmptyString)
      +:+ render_exit_status (lm_exit_status metadata).
Proof.
  unfold compact_log.
  destruct (validate_source_size _) as [[]| |]; try done.
  destruct (validate_policy policy) as [[]| |]; try done.
  destruct (validate_metadata _ _) as [[]| |]; try done.
  destruct (verify_digest _ _) as [[]| |]; try done.
  destruct (parse_records l) as [records| |]; try done.
  destruct (dispositions_of _ _ _) as [ds| |] eqn:Ed; try done.
  destruct (build_fragments _ _ _) as [fs| |] eqn:Ef; try done.
  intros [= <-]. split; [done|]. by exists records, ds.
Qed.

Lemma chain_elem from records to r :
  chain from records to -> r ∈ records -> rd_start r < rd_end r.
Proof.
  revert from. induction records as [|x rest IH]; intros from; simpl; [by intros _ ?%not_elem_of_nil|].
  intros (Hs & Hlt & Hc) [->|Hin]%elem_of_cons; [lia|by eapply IH].
Qed.

(** Fragments and dispositions of a successful compaction. *)
Lemma compacted `{Sha256} source l metadata policy log :
  compact_log source l metadata policy = Ok log ->
  exists records dispositions, parse_records l = Ok records /\
    dispositions_of records metadata policy = Ok dispositions /\
    chain 0 records (length l) /\ Forall (record_ok l) records /\
    tiles (se_handle source) 0 (cl_fragments log) (Z.of_nat (length l)) /\
    Forall (fragment_ok source records dispositions) (cl_fragments log) /\
    (forall i r reasons, records !! i = Some r -> dispositions !! i = Some (DispRetained reasons) ->
       retained_fragment source r reasons ∈ cl_fragments log).
Proof.
  intros (_ & records & ds & Hp & Hd & Hf & _)%compact_log_parts.
  pose proof (parse_records_spec l) as Hscan. rewrite Hp in Hscan. destruct Hscan as [Hc Hok].
  destruct (dispositions_of_spec records metadata policy) as (ds' & Hd' & Hlen & _).
  rewrite Hd in Hd'. injection Hd' as <-.
  destruct (build_fragments_spec source records ds Hlen (length l) Hc) as (fs & Hf' & Ht & Hall & Hin).
  rewrite Hf in Hf'. injection Hf' as <-. exists records, ds. split_and!; try done.
  intros i r reasons. apply Hin. lia.
Qed.

Lemma retained_bytes source l r reasons :
  rd_start r < rd_end r ->
  fragment_bytes l (retained_fragment source r reasons) = range l (rd_start r) (rd_end r).
Proof.
  intros Hlt. unfold fragment_bytes. simpl. rewrite !Nat2Z.id. f_equal. lia.
Qed.

(** ** Properties *)

(** C38: compaction loses no provenance. The fragments of a compacted log are
    nonempty consecutive ranges of the source evidence, from its first byte to
    its last, so reading them in order gives back the exact source; and a
    retained fragment is exactly one record of the source, shown as its
    normalized content. *)
Theorem fragments_rehydrate_source `{Sha256} source l metadata policy log :
  compact_log source l metadata policy = Ok log ->
  tiles (se_handle source) 0 (cl_fragments log) (Z.of_nat (length l)) /\
  mjoin (fragment_bytes l <$> cl_fragments log) = l /\
  (forall f reasons, f ∈ cl_fragments log -> cf_kind f = Retained reasons ->
     exists display, record_shows (fragment_bytes l f) display /\ cf_rendered f = display +:+ eol).
Proof.
  intros (records & ds & _ & _ & Hc & Hok & Ht & Hall & _)%compacted. split_and!; [done| |].
  - apply (tiles_rehydrate (se_handle source) l 0); [lia|done].
  - intros f reasons Hin Hk. rewrite Forall_forall in Hall. rewrite Forall_forall in Hok.
    destruct (Hall f Hin) as [(i & r & rs & Hr & _ & ->)|(? & ? & ? & _ & _ & Hk' & _)];
      [|congruence]. apply list_elem_of_lookup_2 in Hr. exists (rd_display r).
    rewrite retained_bytes by (by eapply chain_elem). split; [apply Hok, Hr|done].
Qed.

(** C39: the compactor keeps exactly what its policy says. For every list of
    records the dispositions are computed without a panic, one per record: a
    progress frame followed by another record is dropped as superseded, a line
    that is a boilerplate rule is dropped under that rule, a record repeating
    the surviving one before it is dropped as repeated, and any other record is
    retained exactly when it is within the first or last boundary records, a
    stage target or within the context of a failure, with exactly these
    reasons. *)
Theorem dispositions_exact records metadata policy :
  exists ds, dispositions_of records metadata policy = Ok ds /\ length ds = length records /\
    forall i d, ds !! i = Some d -> disposition_spec records metadata policy i d.
Proof. apply dispositions_of_spec. Qed.

(** Failures survive compaction. A record of the log that shows one of the
    failure keywords is in the result as a retained fragment, unless it was
    dropped as a superseded progress frame, as boilerplate or as a repetition
    of the record before it. *)
Theorem failures_survive `{Sha256} source l metadata policy log records i r keyword :
  compact_log source l metadata policy = Ok log -> parse_records l = Ok records ->
  records !! i = Some r ->
  contains_ascii_case_insensitive (rd_display r) (keyword_as_str keyword) = true ->
  is_Some (omission_spec records policy i) \/
  exists reasons, retained_fragment source r reasons ∈ cl_fragments log /\
    FailureNeighborhood keyword ∈ reasons.
Proof.
  intros (records' & ds & Hp & Hd & _ & _ & _ & _ & Hin)%compacted Hp' Hr Hk.
  assert (records' = records) as -> by congruence.
  destruct (dispositions_of_spec records metadata policy) as (ds' & Hd' & Hlen & Hspec).
  rewrite Hd in Hd'. injection Hd' as <-. destruct (omission_spec records policy i) eqn:Eo; [by left|].
  right. destruct (lookup_lt_is_Some_2 ds i) as [d Hdi]; [rewrite Hlen; by eapply lookup_lt_Some|].
  assert (Ha : i ∈ active_of (omissions_of records policy)).
  { apply active_of_elem. by rewrite omissions_of_lookup, Hr; simpl; rewrite Eo. }
  apply list_elem_of_lookup in Ha as [p Hpos].
  assert (Hw : wanted records (active_of (omissions_of records policy)) metadata policy i
                 (FailureNeighborhood keyword)).
  { exists p, p, i. split_and!; [done|done|by exists r|lia|lia]. }
  specialize (Hspec i d Hdi). unfold disposition_spec in Hspec. rewrite Eo in Hspec.
  destruct Hspec as [(reasons & -> & _ & Hiff)|[_ Hno]]; [|by destruct (Hno _ Hw)].
  exists reasons. split; [by eapply Hin|by apply Hiff].
Qed.

(** the rendered text is safe to print. Whatever bytes the log contains,
    the only control character of the rendered text is the line feed. *)
Theorem rendered_text_printable `{Sha256} source l metadata policy log c :
  compact_log source l metadata policy = Ok log -> c ∈ chars (cl_rendered_text log) ->
  is_control c = true -> c = 10%Z.
Proof.
  intros Hlog. pose proof (compacted _ _ _ _ _ Hlog)
    as (records & ds & Hp & Hd & _ & Hok & _ & Hall & _).
  apply compact_log_parts in Hlog as (Hv & records' & ds' & Hp' & _ & _ & ->).
  assert (records' = records) as -> by congruence.
  destruct (dispositions_of_spec records metadata policy) as (ds2 & Hd2 & _ & Hspec).
  rewrite Hd in Hd2. injection Hd2 as <-. rewrite Forall_forall in Hall. rewrite Forall_forall in Hok.
  assert (Hlines : lines (concat_strings (cf_rendered <$> cl_fragments log)
    +:+ (if (length records =? 0)%nat then "[no log output]" +:+ eol else EmptyString)
    +:+ render_exit_status (lm_exit_status metadata))).
  { apply lines_app; [apply concat_lines, Forall_fmap, Forall_forall|apply lines_app;
      [destruct (_ =? _)%nat; [apply lines_app; [|apply lines_eol]|]; by apply printable_lines, printable_ascii
      |apply render_exit_status_lines]].
    intros f Hin. destruct (Hall f Hin) as [(i & r & rs & Hr & _ & ->)|(i & n & reason & Hn & Hds & _ & E)].
    - apply list_elem_of_lookup_2 in Hr. destruct (Hok r Hr) as [_ (content & ? & _ & _ & _ & E)].
      simpl. rewrite E. apply lines_app; [apply printable_lines, normalize_display_printable|apply lines_eol].
    - simpl. rewrite E. apply render_omission_lines. specialize (Hds i ltac:(lia)).
      specialize (Hspec i _ Hds). unfold disposition_spec in Hspec.
      destruct (omission_spec records policy i) as [reason'|] eqn:Eo.
      + injection Hspec as ->. by eapply omission_printable.
      + destruct Hspec as [(? & ? & _)|[[= ->] _]]; done. }
  destruct Hlines as (cs & Hs & Hcs). specialize (Hs EmptyString). rewrite append_nil_r in Hs.
  rewrite Hs. simpl. rewrite app_nil_r. rewrite Forall_forall in Hcs. apply Hcs.
Qed.

(** The policy digest identifies the policy. Two validated policies that
    differ only in the order of their boilerplate rules have the same digest,
    and two validated policies with the same digest agree on the version, the
    counts and the rules up to order, unless their two distinct encodings
    collide under SHA-256. *)
Theorem policy_digest_identifies `{Sha256} p1 p2 :
  validate_policy p1 = Ok tt -> validate_policy p2 = Ok tt ->
  let same := cp_version p1 = cp_version p2 /\ cp_boundary_records p1 = cp_boundary_records p2 /\
    cp_failure_context_records p1 = cp_failure_context_records p2 /\
    cp_boilerplate_rules p1 ≡ₚ cp_boilerplate_rules p2 in
  (same -> digest_policy p1 = digest_policy p2) /\
  (digest_policy p1 = digest_policy p2 ->
   same \/ sha256_collides (policy_input p1) (policy_input p2)).
Proof.
  intros V1 V2 same. unfold digest_policy. split.
  - intros (Ev & Eb & Ec & Er). do 2 f_equal. unfold policy_input.
    by rewrite Ev, Eb, Ec, (sort_rules_perm _ _ Er).
  - intros E%from_sha256_inj. destruct (decide (policy_input p1 = policy_input p2)) as [Ei|Hne].
    + left. by apply policy_input_inj.
    + right. by split.
Qed.

(** Compaction is total. It never panics, and it succeeds whenever the
    source is within its size, the policy and the metadata validate, the digest
    matches and the source has fewer bytes than the record limit; otherwise the
    only further error is that limit. *)
Theorem compaction_total `{Sha256} source l metadata policy :
  compact_log source l metadata policy <> Panic /\
  (validate_source_size (length l) = Ok tt -> validate_policy policy = Ok tt ->
   validate_metadata metadata (length l) = Ok tt -> se_digest source = digest_bytes l ->
   (exists log, compact_log source l metadata policy = Ok log) \/
   (compact_log source l metadata policy = Err (TooManyRecords MAX_SOURCE_RECORDS) /\
    (MAX_SOURCE_RECORDS <= Z.of_nat (length l))%Z)).
Proof.
  pose proof (parse_records_spec l) as Hscan.
  assert (Hrest : forall records, parse_records l = Ok records -> exists ds fs,
    dispositions_of records metadata policy = Ok ds /\ build_fragments source records ds = Ok fs).
  { intros records Hp. rewrite Hp in Hscan. destruct Hscan as [Hc _].
    destruct (dispositions_of_spec records metadata policy) as (ds & Hd & Hlen & _).
    destruct (build_fragments_spec source records ds Hlen (length l) Hc) as (fs & Hf & _). eauto. }
  split.
  - unfold compact_log. destruct (validate_source_size _) as [[]| |] eqn:E1; try done.
    { destruct (validate_policy _) as [[]| |] eqn:E2; try done.
      { destruct (validate_metadata _ _) as [[]| |] eqn:E3; try done.
        { destruct (verify_digest _ _) as [[]| |] eqn:E4; try done.
          { destruct (parse_records l) as [records| |]; try done.
            destruct (Hrest records eq_refl) as (ds & fs & -> & ->). done. }
          unfold verify_digest in E4. by destruct (negb _). }
        by apply validate_metadata_no_panic in E3. }
      by apply validate_policy_no_panic in E2. }
    unfold validate_source_size in E1. by destruct (_ >? _)%Z.
  - intros E1 E2 E3 E4. unfold compact_log, verify_digest.
    rewrite E1, E2, E3, bool_decide_true by done. simpl.
    destruct (parse_records l) as [records|e|]; [left|right|done].
    + destruct (Hrest records eq_refl) as (ds & fs & -> & ->). eauto.
    + destruct Hscan as [-> ?]. done.
Qed.

(** ** A small log *)

(** A stand-in hash that makes the sample computable. *)
Definition constant_hash : Sha256 := fun _ => of_bytes (replicate 32 (byte_of 171)).

Definition carriage_return : string := of_bytes [byte_of 13].
Definition sample_log : list ascii :=
  bytes ("start" +:+ eol +:+ "10 percent" +:+ carriage_return +:+ "20 percent" +:+ carriage_return
    +:+ "loaded" +:+ carriage_return +:+ eol +:+ "noise" +:+ eol +:+ "step" +:+ eol +:+ "step" +:+ eol
    +:+ "other" +:+ eol +:+ of_bytes [byte_of 27] +:+ "[31mERROR: broken" +:+ of_bytes [byte_of 7; byte_of 255]
    +:+ eol +:+ "tail").
Definition sample_log_source : SourceEvidence :=
  {| se_handle := {| handle_str := "evidence://run/log" |};
     se_digest := @digest_bytes constant_hash sample_log |}.
Definition sample_log_policy : CompactionPolicy :=
  {| cp_version := "v1"; cp_boundary_records := 1; cp_failure_context_records := 0;
     cp_boilerplate_rules := [{| br_id := "noise-rule"; br_exact_line := "noise" |}] |}.
Definition sample_log_metadata : LogMetadata :=
  {| lm_exit_status := Some (-1)%Z;
     lm_stage_boundaries := [{| sb_label := "load"; sb_byte_offset := 30%Z |}] |}.
Definition sample_compacted : cres CompactedLog :=
  @compact_log constant_hash sample_log_source sample_log sample_log_metadata sample_log_policy.

Example sample_log_lines :
  match sample_compacted with Ok log => cf_rendered <$> cl_fragments log | _ => [] end =
  ["start" +:+ eol; "[... 2 progress frames superseded ...]" +:+ eol; "loaded" +:+ eol;
   "[... 1 boilerplate records removed by noise-rule ...]" +:+ eol;
   "[... 1 records outside retention windows ...]" +:+ eol;
   "[... 1 repeated records collapsed ...]" +:+ eol;
   "[... 1 records outside retention windows ...]" +:+ eol;
   "ERROR: broken\x07" +:+ push_char 65533 +:+ eol; "tail" +:+ eol].
Proof. vm_compute. reflexivity. Qed.

Definition sample_result : CompactedLog :=
  match sample_compacted with
  | Ok log => log
  | _ => {| cl_algorithm_version := ""; cl_policy_version := ""; cl_policy_digest := se_digest sample_log_source;
            cl_source := sample_log_source; cl_exit_status := None; cl_source_byte_count := 0;
            cl_retained_byte_count := 0; cl_source_record_count := 0; cl_retained_record_count := 0;
            cl_rendered_text := ""; cl_fragments := [] |}
  end.
Definition sample_records : list LogRecord :=
  match parse_records sample_log with Ok records => records | _ => [] end.

Lemma sample_compacts :
  @compact_log constant_hash sample_log_source sample_log sample_log_metadata sample_log_policy
  = Ok sample_result.
Proof. vm_compute. reflexivity. Qed.
Lemma sample_parses : parse_records sample_log = Ok sample_records.
Proof. vm_compute. reflexivity. Qed.

Lemma fragments_rehydrate_source_witness :
  mjoin (fragment_bytes sample_log <$> cl_fragments sample_result) = sample_log.
Proof.
  exact (proj1 (proj2 (@fragments_rehydrate_source constant_hash sample_log_source sample_log
    sample_log_metadata sample_log_policy sample_result sample_compacts))).
Defined.

Definition sample_failing : LogRecord :=
  default {| rd_start := 0; rd_end := 0; rd_display := ""; rd_frame_kind := Line |}
    (sample_records !! 8%nat).
Lemma sample_failing_at : sample_records !! 8%nat = Some sample_failing.
Proof. vm_compute. reflexivity. Qed.
Lemma sample_failing_shows :
  contains_ascii_case_insensitive (rd_display sample_failing) (keyword_as_str KwError) = true.
Proof. vm_compute. reflexivity. Qed.
Lemma sample_failing_kept : omission_spec sample_records sample_log_policy 8 = None.
Proof. vm_compute. reflexivity. Qed.

Lemma failures_survive_witness :
  exists reasons, retained_fragment sample_log_source sample_failing reasons
      ∈ cl_fragments sample_result /\ FailureNeighborhood KwError ∈ reasons.
Proof.
  destruct (@failures_survive constant_hash sample_log_source sample_log sample_log_metadata
    sample_log_policy sample_result sample_records 8 sample_failing KwError sample_compacts
    sample_parses sample_failing_at sample_failing_shows) as [Ho|H]; [|exact H].
  rewrite sample_failing_kept in Ho. destruct Ho as [x Hx]. discriminate Hx.
Defined.

Lemma rendered_text_printable_witness :
  Forall (fun c => is_control c = true -> c = 10%Z) (chars (cl_rendered_text sample_result)).
Proof.
  apply Forall_forall. intros c Hc.
  exact (@rendered_text_printable constant_hash sample_log_source sample_log sample_log_metadata
    sample_log_policy sample_result c sample_compacts Hc).
Defined.

Lemma sample_policy_valid : validate_policy sample_log_policy = Ok tt.
Proof. vm_compute. reflexivity. Qed.

Lemma policy_digest_identifies_witness :
  @digest_policy constant_hash sample_log_policy = @digest_policy constant_hash sample_log_policy.
Proof.
  refine (proj1 (@policy_digest_identifies constant_hash sample_log_policy sample_log_policy
    sample_policy_valid sample_policy_valid) _). repeat split; reflexivity.
Defined.

Lemma sample_sized : validate_source_size (length sample_log) = Ok tt.
Proof. vm_compute. reflexivity. Qed.
Lemma sample_metadata_valid : validate_metadata sample_log_metadata (length sample_log) = Ok tt.
Proof. vm_compute. reflexivity. Qed.

Lemma sample_below_limit : (Z.of_nat (length sample_log) <? MAX_SOURCE_RECORDS)%Z = true.
Proof. vm_compute. reflexivity. Qed.

Lemma compaction_total_witness : exists log, sample_compacted = Ok log.
Proof.
  destruct (proj2 (@compaction_total constant_hash sample_log_source sample_log sample_log_metadata
    sample_log_policy) sample_sized sample_policy_valid sample_metadata_valid eq_refl)
    as [H|[_ H]]; [exact H|].
  pose proof sample_below_limit as Hb. apply Z.ltb_lt in Hb. lia.
Defined.
