(* ===== verification/Redact.v ===== *)
(** * Redaction of audit detail ([pam_policy/src/redaction.rs])

    [redact_audit_detail] inspects a bounded prefix of the detail, marks the
    ranges that look like secrets, replaces each merged range by a marker,
    spells out control characters and bounds the output. A [&[u8]] or [&str] is
    a [list ascii] of its bytes and positions are [nat]; a loop over positions
    carries the number of iterations it can still make. *)

From S2P Require Import Prelude Core Compact.

Local Open Scope nat_scope.

Definition MAX_AUDIT_DETAIL_INPUT_BYTES : Z := 1024 * 1024.
Definition MAX_AUDIT_DETAIL_OUTPUT_BYTES : Z := 16 * 1024.
Definition REDACTION_MARKER : string := "[REDACTED]".
Definition TRUNCATION_MARKER : string := "[TRUNCATED]".

(** ** Bytes *)

Definition byte_is (set : string) (a : ascii) : bool := existsb (Ascii.eqb a) (bytes set).
(** [b' ' | b'\t'], [b'\r' | b'\n'] and the like. *)
Definition byte_code (codes : list Z) (a : ascii) : bool := existsb (Z.eqb (byte_val a)) codes.

Definition is_ascii_whitespace (a : ascii) : bool := byte_code [9; 10; 12; 13; 32]%Z a.
Definition is_ascii_control (a : ascii) : bool := (byte_val a <? 32)%Z || (byte_val a =? 127)%Z.
Definition is_ascii_alphabetic (a : ascii) : bool := is_ascii_lowercase a || is_ascii_uppercase a.
Definition backslash : ascii := ascii_of_nat 92.
Definition dquote : ascii := ascii_of_nat 34.
Definition squote : ascii := ascii_of_nat 39.
Definition is_quote (a : ascii) : bool := Ascii.eqb a dquote || Ascii.eqb a squote.

Definition is_key_byte (a : ascii) : bool := is_ascii_alphanumeric a || byte_is "_-." a.
Definition is_encoded_key_byte (a : ascii) : bool := is_key_byte a || byte_is "%" a.
Definition is_jwt_byte (a : ascii) : bool := is_ascii_alphanumeric a || byte_is "-_." a.

(** [bytes.get(i).is_some_and(p)], and [p(bytes[i])] where [i] is in range. *)
Definition at_ (l : list ascii) (i : nat) (p : ascii -> bool) : bool :=
  match l !! i with Some a => p a | None => false end.
(** [&bytes[start..end]] for [start <= end <= bytes.len()]. *)
Definition sub (l : list ascii) (start stop : nat) : list ascii := take (stop - start) (drop start l).

(** ** Loops over positions *)

(** [while cursor < stop && p(cursor) { cursor += 1 }]. *)
Fixpoint skip_loop (p : nat -> bool) (n cursor : nat) : nat :=
  match n with
  | O => cursor
  | S n => if p cursor then skip_loop p n (S cursor) else cursor
  end.
Definition skip_while (p : nat -> bool) (cursor stop : nat) : nat := skip_loop p (stop - cursor) cursor.

(** [(start..stop).find(p)]. *)
Definition find_in (p : nat -> bool) (start stop : nat) : option nat :=
  List.find p (seq start (stop - start)).
(** [(start..stop).find(p).unwrap_or(stop)]. *)
Definition find_end (p : nat -> bool) (start stop : nat) : nat := default stop (find_in p start stop).

(** A [while] loop that collects ranges: [body] gives the ranges one iteration
    adds and the next cursor, or [None] when the loop ends. *)
Fixpoint scan_loop {A} (body : nat -> list A * option nat) (fuel cursor : nat) : list A :=
  match fuel with
  | O => []
  | S fuel =>
    let '(found, next) := body cursor in
    found ++ match next with Some cursor => scan_loop body fuel cursor | None => [] end
  end.

Definition skip_ascii_space (l : list ascii) (cursor stop : nat) : nat :=
  skip_while (fun i => at_ l i (byte_code [32; 9]%Z)) cursor stop.

(** Both ends, as [drop_while] on the bytes. *)
Definition trim_ascii_space (l : list ascii) : list ascii :=
  let space := byte_code [32; 9]%Z in
  reverse (drop_while space (reverse (drop_while space l))).

Fixpoint json_space_loop (l : list ascii) (stop fuel cursor : nat) : nat :=
  match fuel with
  | O => cursor
  | S fuel =>
    if negb (cursor <? stop) then cursor
    else if at_ l cursor (byte_code [32; 9; 13; 10]%Z) then json_space_loop l stop fuel (cursor + 1)
    else if at_ l cursor (Ascii.eqb backslash) && at_ l (cursor + 1) (byte_is "trn")
    then json_space_loop l stop fuel (cursor + 2)
    else cursor
  end.
Definition skip_json_whitespace (l : list ascii) (cursor stop : nat) : nat :=
  json_space_loop l stop (stop - cursor) cursor.

Definition eq_ignore_ascii_case (l m : list ascii) : bool :=
  bool_decide (to_ascii_lowercase_byte <$> l = to_ascii_lowercase_byte <$> m).
Definition ascii_case_eq_at (l : list ascii) (start : nat) (needle : string) : bool :=
  let stop := start + length (bytes needle) in
  (stop <=? length l) && eq_ignore_ascii_case (sub l start stop) (bytes needle).

(** The guard subtracts with saturation, the search range does not: a text
    shorter than the needle underflows there when [start] is [0]. *)
Definition find_exact (l : list ascii) (start : nat) (needle : string) : res Empty_set (option nat) :=
  let n := length (bytes needle) in
  if (n =? 0) || (length l - n <? start) then Ok None
  else if length l <? n then Panic
  else Ok (find_in (fun i => bool_decide (sub l i (i + n) = bytes needle)) start (length l - n + 1)).

Definition find_ascii_case_insensitive_in (l : list ascii) (start stop : nat) (needle : string)
  : option nat :=
  let stop := Nat.min stop (length l) in
  let n := length (bytes needle) in
  if (n =? 0) || (stop <? n) || (stop - n <? start) then None
  else find_in (fun i => ascii_case_eq_at l i needle) start (stop - n + 1).
Definition find_ascii_case_insensitive (l : list ascii) (start : nat) (needle : string)
  : option nat := find_ascii_case_insensitive_in l start (length l) needle.

(** ** Values *)

Fixpoint quote_loop (l : list ascii) (quote : ascii) (fuel cursor : nat) : option nat :=
  match fuel, l !! cursor with
  | S fuel, Some a =>
    if Ascii.eqb a backslash then quote_loop l quote fuel (Nat.min (cursor + 2) (length l))
    else if Ascii.eqb a quote then Some cursor
    else quote_loop l quote fuel (cursor + 1)
  | _, _ => None
  end.
Definition closing_quote (l : list ascii) (start : nat) (quote : ascii) : option nat :=
  quote_loop l quote (length l) (start + 1).

(** [closing_quote(bytes, start, bytes[start]).map_or(otherwise, |end| end + 1)]. *)
Definition quoted_end (l : list ascii) (start otherwise : nat) : nat :=
  match l !! start ≫= closing_quote l start with Some stop => stop + 1 | None => otherwise end.

Fixpoint nested_loop (l : list ascii) (fuel depth cursor : nat) : nat :=
  match fuel, l !! cursor with
  | S fuel, Some a =>
    if is_quote a then nested_loop l fuel depth (quoted_end l cursor (length l))
    else if byte_is "{[" a then nested_loop l fuel (depth + 1) (cursor + 1)
    else if byte_is "}]" a then
      if (depth - 1 =? 0) then cursor + 1 else nested_loop l fuel (depth - 1) (cursor + 1)
    else nested_loop l fuel depth (cursor + 1)
  | _, _ => length l
  end.

Definition json_value_end (l : list ascii) (start : nat) : nat :=
  match l !! start with
  | None => start
  | Some first =>
    if is_quote first then quoted_end l start (length l)
    else if negb (byte_is "{[" first)
    then find_end (fun i => at_ l i (fun a => byte_is ",}]" a || byte_code [13; 10]%Z a)) start (length l)
    else nested_loop l (length l) 0 start
  end.

Definition scan_query_value_end (l : list ascii) (start : nat) : nat :=
  if at_ l start is_quote then quoted_end l start (length l)
  else find_end (fun i => at_ l i (fun a => byte_is "&;#" a || is_quote a
                                           || is_ascii_whitespace a || is_ascii_control a))
         start (length l).

Definition is_escaped_control_start (l : list ascii) (index : nat) : bool :=
  at_ l index (Ascii.eqb backslash) && at_ l (index + 1) (byte_is "nrtu").

Definition scan_environment_value_end (l : list ascii) (start line_end : nat) : nat :=
  if at_ l start is_quote then
    match l !! start ≫= closing_quote l start with
    | Some stop => Nat.min (stop + 1) line_end
    | None => line_end
    end
  else find_end (fun i => at_ l i (fun a => is_ascii_whitespace a || byte_is ";" a)
                          || is_escaped_control_start l i) start line_end.

Definition scan_credential_end (l : list ascii) (start : nat) : nat :=
  find_end (fun i => at_ l i (fun a => is_ascii_whitespace a || is_ascii_control a
                                       || byte_is ",;" a || is_quote a)) start (length l).
Definition is_line_break (a : ascii) : bool := byte_code [13; 10]%Z a.
Definition scan_line_end (l : list ascii) (start : nat) : nat :=
  find_end (fun i => at_ l i is_line_break) start (length l).

(** ** Keys *)

Definition hex_value (a : ascii) : option Z :=
  if in_range 48 57 a then Some (byte_val a - 48)%Z
  else if in_range 97 102 a then Some (byte_val a - 97 + 10)%Z
  else if in_range 65 70 a then Some (byte_val a - 65 + 10)%Z
  else None.
Definition decode_hex_pair (high low : ascii) : option ascii :=
  h ← hex_value high; l ← hex_value low; Some (byte_of (h * 16 + l)).

(** The text one decoded byte adds to the key, or [None] when it is not a key byte. *)
Definition push_normalized_byte (a : ascii) : option (list ascii) :=
  if is_ascii_alphanumeric a then Some [to_ascii_lowercase_byte a]
  else if byte_is "_-." a then Some []
  else None.

Definition decode_ascii_unicode_escape (d1 d2 d3 d4 : ascii) : option ascii :=
  if byte_is "0" d1 && byte_is "0" d2 then decode_hex_pair d3 d4 else None.

Fixpoint normalize_loop (rest : list ascii) : option (list ascii) :=
  match rest with
  | [] => Some []
  | a :: rest1 =>
    if is_ascii_alphanumeric a then more ← normalize_loop rest1; Some (to_ascii_lowercase_byte a :: more)
    else if byte_is "_-." a then normalize_loop rest1
    else if byte_is "%" a then
      match rest1 with
      | high :: low :: rest3 =>
        decoded ← decode_hex_pair high low; pushed ← push_normalized_byte decoded;
        more ← normalize_loop rest3; Some (pushed ++ more)
      | _ => None
      end
    else if Ascii.eqb a backslash then
      match rest1 with
      | u :: d1 :: d2 :: d3 :: d4 :: rest6 =>
        if byte_is "u" u then
          decoded ← decode_ascii_unicode_escape d1 d2 d3 d4; pushed ← push_normalized_byte decoded;
          more ← normalize_loop rest6; Some (pushed ++ more)
        else None
      | _ => None
      end
    else None
  end.

Definition normalized_key (l : list ascii) : option string :=
  if (length l =? 0) || (256 <? length l) then None
  else normalized ← normalize_loop l;
       if (length normalized =? 0) then None else Some (of_bytes normalized).

Definition ends_with (suffix s : string) : bool :=
  let n := length (bytes suffix) in
  (n <=? length (bytes s)) && bool_decide (drop (length (bytes s) - n) (bytes s) = bytes suffix).

Definition is_sensitive_key (key : string) (include_query_abbreviations : bool) : bool :=
  existsb (String.eqb key)
    ["authorization"; "proxyauthorization"; "password"; "passwd"; "pwd"; "secret"; "token";
     "accesstoken"; "refreshtoken"; "idtoken"; "apikey"; "clientsecret"; "credential";
     "credentials"; "cookie"; "setcookie"; "privatekey"; "signingkey"]
  || existsb (fun suffix => ends_with suffix key)
       ["token"; "secret"; "password"; "passwd"; "apikey"; "credential"; "privatekey"]
  || (include_query_abbreviations
      && existsb (String.eqb key) ["key"; "sig"; "signature"; "auth"]).

(** ** Ranges *)

(** [str::is_char_boundary]. *)
Definition is_char_boundary (l : list ascii) (i : nat) : bool :=
  match l !! i with
  | Some a => (i =? 0) || negb (is_continuation a)
  | None => i =? length l
  end.

Fixpoint floor_boundary (l : list ascii) (start : nat) : nat :=
  match start with
  | O => O
  | S before => if is_char_boundary l start then start else floor_boundary l before
  end.
Definition ceil_boundary (l : list ascii) (stop : nat) : nat :=
  skip_while (fun i => negb (is_char_boundary l i)) stop (length l).

(** [RedactionRanges::add]: the ranges pushed. *)
Definition add (l : list ascii) (start stop : nat) : list (nat * nat) :=
  let start := floor_boundary l (Nat.min start (length l)) in
  let stop := ceil_boundary l (Nat.min stop (length l)) in
  if start <? stop then [(start, stop)] else [].

(** One step of the merge; [merged] holds the last range first. *)
Definition merge_range (merged : list (nat * nat)) (range : nat * nat) : list (nat * nat) :=
  match merged with
  | previous :: rest =>
    if range.1 <=? previous.2 then (previous.1, Nat.max previous.2 range.2) :: rest
    else range :: merged
  | [] => [range]
  end.

Definition range_le (left right : nat * nat) : bool := left.1 <=? right.1.

(** [&source[start..end]] of a [str]: a panic off a character boundary. *)
Definition str_slice (l : list ascii) (start stop : nat) : res Empty_set (list ascii) :=
  if (start <=? stop) && is_char_boundary l start && is_char_boundary l stop
  then Ok (sub l start stop) else Panic.

Fixpoint render_loop (l : list ascii) (merged : list (nat * nat)) (cursor : nat)
  : res Empty_set (list ascii) :=
  match merged with
  | [] => str_slice l cursor (length l)
  | (start, stop) :: rest =>
    let? kept := str_slice l cursor start in
    let? more := render_loop l rest stop in
    Ok (kept ++ bytes REDACTION_MARKER ++ more)
  end.

(** Ranges with equal starts are merged, so the order [sort_unstable_by_key]
    leaves them in does not matter. *)
Definition render (ranges : list (nat * nat)) (l : list ascii) : res Empty_set (list ascii) :=
  render_loop l (reverse (foldl merge_range [] (sort_by range_le ranges))) 0.

(** ** Markers *)

Definition has_word_boundary_before (l : list ascii) (index : nat) : bool :=
  (index =? 0) || negb (at_ l (index - 1) is_key_byte).

(** The lines between [\r], [\n] and [\r\n]. *)
Fixpoint line_loop (l : list ascii) (fuel start cursor : nat) : list (nat * nat) :=
  match fuel, l !! cursor with
  | S fuel, Some a =>
    if is_line_break a then
      let next := if byte_code [13]%Z a && at_ l (cursor + 1) (byte_code [10]%Z)
                  then cursor + 1 else cursor in
      (start, cursor) :: line_loop l fuel (next + 1) (next + 1)
    else line_loop l fuel start (cursor + 1)
  | _, _ => [(start, length l)]
  end.
Definition line_ranges (l : list ascii) : list (nat * nat) := line_loop l (length l) 0 0.

Definition is_folded_header_line (l : list ascii) (line : nat * nat) : bool :=
  (line.1 <? line.2) && at_ l line.1 (byte_code [32; 9]%Z).

(** [value.split(|byte| *byte == b';')]. *)
Fixpoint split_bytes (separator : ascii) (l : list ascii) : list (list ascii) :=
  match l with
  | [] => [[]]
  | a :: l =>
    if Ascii.eqb a separator then [] :: split_bytes separator l
    else match split_bytes separator l with
         | segment :: rest => (a :: segment) :: rest
         | [] => [[a]]
         end
  end.

Fixpoint cookie_loop (segments : list (list ascii)) (saw_cookie_pair : bool) : bool :=
  match segments with
  | [] => negb saw_cookie_pair
  | segment :: rest =>
    let segment := trim_ascii_space segment in
    if (length segment =? 0) then true
    else match position (fun a => byte_is "=" a) segment with
         | Some equals =>
           if (length (trim_ascii_space (drop (equals + 1) segment)) =? 0) then true
           else cookie_loop rest true
         | None => if negb saw_cookie_pair then true else cookie_loop rest saw_cookie_pair
         end
  end.

Definition sensitive_header_value_is_ambiguous (key : string) (value : list ascii) : bool :=
  if (length value =? 0) then true
  else if existsb (String.eqb key) ["authorization"; "proxyauthorization"] then
    match position is_ascii_whitespace value with
    | None => true
    | Some separator => (length (trim_ascii_space (drop separator value)) =? 0)
    end
  else cookie_loop (split_bytes (ascii_of_nat 59) value) false.

(** The range a header line is redacted to, if its field is sensitive. *)
Definition sensitive_header (l : list ascii) (line : nat * nat) (next : option (nat * nat))
  : option (nat * nat) :=
  let key_start := skip_ascii_space l line.1 line.2 in
  let key_end := skip_while (fun i => at_ l i is_key_byte) key_start line.2 in
  let cursor := skip_ascii_space l key_end line.2 in
  if negb (cursor <? line.2) || negb (at_ l cursor (byte_is ":")) then None
  else
    key ← normalized_key (sub l key_start key_end);
    if negb (existsb (String.eqb key) ["authorization"; "proxyauthorization"; "cookie"; "setcookie"])
    then None
    else
      let value_start := skip_ascii_space l (cursor + 1) line.2 in
      let has_continuation :=
        match next with Some continuation => is_folded_header_line l continuation | None => false end in
      let has_ambiguous_value :=
        sensitive_header_value_is_ambiguous key (trim_ascii_space (sub l value_start line.2)) in
      let value_end := if has_continuation || (has_ambiguous_value && (line.2 <? length l))
                       then length l else line.2 in
      Some (key_start, value_end).

Fixpoint header_loop (l : list ascii) (lines : list (nat * nat)) : list (nat * nat) :=
  match lines with
  | [] => []
  | line :: rest =>
    match sensitive_header l line (head rest) with
    | None => header_loop l rest
    | Some (key_start, value_end) =>
      add l key_start value_end ++ (if (value_end =? length l) then [] else header_loop l rest)
    end
  end.
Definition mark_sensitive_headers (l : list ascii) : list (nat * nat) := header_loop l (line_ranges l).

(** The scheme at a position: its length, or [0]. *)
Definition scheme_length (l : list ascii) (cursor : nat) : nat :=
  let scheme s := ascii_case_eq_at l cursor s && has_word_boundary_before l cursor
                  && at_ l (cursor + length (bytes s)) is_ascii_whitespace in
  if scheme "bearer" then 6 else if scheme "basic" then 5 else 0.

Definition scheme_step (l : list ascii) (cursor : nat) : list (nat * nat) * option nat :=
  if negb (cursor <? length l) then ([], None)
  else
    let n := scheme_length l cursor in
    if (n =? 0) then ([], Some (cursor + 1))
    else
      let token_start := skip_ascii_space l (cursor + n) (length l) in
      let token_end := scan_credential_end l token_start in
      ((if 4 <=? token_end - token_start then add l token_start token_end else []),
       Some (Nat.max token_end (cursor + 1))).
Definition mark_authentication_schemes (l : list ascii) : list (nat * nat) :=
  scan_loop (scheme_step l) (length l + 1) 0.

(** The inner scan: it stops at a delimiter or at the end of the text. *)
Definition userinfo_stop (a : ascii) : bool :=
  byte_is "@/?#" a || Ascii.eqb a backslash || is_quote a || is_ascii_whitespace a || is_ascii_control a.

Fixpoint userinfo_loop (l : list ascii) (fuel cursor : nat) : res Empty_set (list (nat * nat)) :=
  match fuel with
  | O => Ok []
  | S fuel =>
    let? found := find_exact l cursor "://" in
    match found with
    | None => Ok []
    | Some separator =>
      let userinfo_start := separator + 3 in
      let stop := skip_while (fun i => negb (at_ l i userinfo_stop)) userinfo_start (length l) in
      let? more := userinfo_loop l fuel (Nat.max (stop + 1) (separator + 3)) in
      Ok ((if at_ l stop (byte_is "@") then add l userinfo_start stop else []) ++ more)
    end
  end.
Definition mark_url_userinfo (l : list ascii) : res Empty_set (list (nat * nat)) :=
  userinfo_loop l (length l + 1) 0.

Definition query_step (l : list ascii) (cursor : nat) : list (nat * nat) * option nat :=
  if negb (cursor <? length l) then ([], None)
  else if negb (at_ l cursor (byte_is "?&;")) then ([], Some (cursor + 1))
  else
    let key_start := cursor + 1 in
    let key_end := skip_while (fun i => at_ l i is_encoded_key_byte) key_start (length l) in
    match normalized_key (sub l key_start key_end) with
    | None => ([], Some (cursor + 1))
    | Some key =>
      let equals := skip_ascii_space l key_end (length l) in
      if negb (at_ l equals (byte_is "=")) || negb (is_sensitive_key key true)
      then ([], Some (cursor + 1))
      else
        let value_start := skip_ascii_space l (equals + 1) (length l) in
        let value_end := scan_query_value_end l value_start in
        (add l value_start value_end, Some (Nat.max value_end (cursor + 1)))
    end.
Definition mark_query_secrets (l : list ascii) : list (nat * nat) :=
  scan_loop (query_step l) (length l + 1) 0.

Definition json_step (l : list ascii) (cursor : nat) : list (nat * nat) * option nat :=
  if negb (cursor <? length l) then ([], None)
  else if negb (at_ l cursor (Ascii.eqb dquote)) then ([], Some (cursor + 1))
  else
    match closing_quote l cursor dquote with
    | None => ([], None)
    | Some key_end_quote =>
      match normalized_key (sub l (cursor + 1) key_end_quote) with
      | None => ([], Some (key_end_quote + 1))
      | Some key =>
        let colon := skip_json_whitespace l (key_end_quote + 1) (length l) in
        if negb (at_ l colon (byte_is ":")) || negb (is_sensitive_key key false)
        then ([], Some (key_end_quote + 1))
        else
          let value_start := skip_json_whitespace l (colon + 1) (length l) in
          let value_end := json_value_end l value_start in
          (add l value_start value_end, Some (Nat.max value_end (key_end_quote + 1)))
      end
    end.
Definition mark_json_secrets (l : list ascii) : list (nat * nat) :=
  scan_loop (json_step l) (length l + 1) 0.

Definition is_environment_key_start (l : list ascii) (index line_start : nat) : bool :=
  at_ l index (fun a => is_ascii_alphabetic a || byte_is "_" a)
  && ((index =? line_start) || negb (at_ l (index - 1) is_key_byte)).

Definition environment_step (l : list ascii) (line : nat * nat) (cursor : nat)
  : list (nat * nat) * option nat :=
  if negb (cursor <? line.2) then ([], None)
  else if negb (is_environment_key_start l cursor line.1) then ([], Some (cursor + 1))
  else
    let key_end := skip_while (fun i => at_ l i is_key_byte) cursor line.2 in
    let equals := skip_ascii_space l key_end line.2 in
    match normalized_key (sub l cursor key_end) with
    | None => ([], Some key_end)
    | Some key =>
      if negb (equals <? line.2) || negb (at_ l equals (byte_is "=")) || negb (is_sensitive_key key false)
      then ([], Some key_end)
      else
        let value_start := skip_ascii_space l (equals + 1) line.2 in
        let value_end := scan_environment_value_end l value_start line.2 in
        (add l value_start value_end, Some (Nat.max value_end (key_end + 1)))
    end.
Definition mark_environment_secrets (l : list ascii) : list (nat * nat) :=
  concat (map (fun line => scan_loop (environment_step l line) (length l + 1) line.1) (line_ranges l)).

Definition private_key_end (l : list ascii) (header_end : nat) : nat :=
  default (length l)
    (candidate ← find_ascii_case_insensitive l header_end "-----END ";
     let candidate_end := scan_line_end l candidate in
     _ ← find_ascii_case_insensitive_in l candidate candidate_end "PRIVATE KEY-----";
     Some candidate_end).

Definition private_key_step (l : list ascii) (cursor : nat) : list (nat * nat) * option nat :=
  match find_ascii_case_insensitive l cursor "-----BEGIN " with
  | None => ([], None)
  | Some start =>
    let header_end := scan_line_end l start in
    match find_ascii_case_insensitive_in l start header_end "PRIVATE KEY-----" with
    | None => ([], Some (Nat.max header_end (start + 1)))
    | Some _ =>
      let stop := private_key_end l header_end in
      (add l start stop, Some (Nat.max stop (start + 1)))
    end
  end.
Definition mark_private_keys (l : list ascii) : list (nat * nat) :=
  scan_loop (private_key_step l) (length l + 1) 0.

(** The lengths of the segments between dots, when there are exactly three. *)
Definition jwt_segment_lengths (l : list ascii) : option (nat * nat * nat) :=
  match split_bytes (ascii_of_nat 46) l with
  | [a; b; c] => Some (length a, length b, length c)
  | _ => None
  end.
Definition is_jwt (l : list ascii) : bool :=
  match jwt_segment_lengths l with
  | Some (a, b, c) => (8 <=? a) && (8 <=? b) && (8 <=? c)
  | None => false
  end.

Definition jwt_step (l : list ascii) (cursor : nat) : list (nat * nat) * option nat :=
  if negb (cursor <? length l) then ([], None)
  else if negb (at_ l cursor is_jwt_byte) || at_ l cursor (byte_is ".") then ([], Some (cursor + 1))
  else
    let stop := skip_while (fun i => at_ l i is_jwt_byte) cursor (length l) in
    ((if is_jwt (sub l cursor stop) then add l cursor stop else []), Some stop).
Definition mark_jwts (l : list ascii) : list (nat * nat) := scan_loop (jwt_step l) (length l + 1) 0.

(** ** The pipeline *)

Definition tail_delimiter (a : ascii) : bool :=
  is_ascii_whitespace a || is_ascii_control a || byte_is ",;{}[]()" a.
Definition partial_tail_start (l : list ascii) : nat :=
  match List.find (fun i => at_ l i tail_delimiter) (reverse (seq 0 (length l))) with
  | Some index => index + 1
  | None => 0
  end.

Definition is_unicode_format_control (c : Z) : bool :=
  ((c =? 1564) || ((8203 <=? c) && (c <=? 8207)) || ((8234 <=? c) && (c <=? 8238))
   || ((8288 <=? c) && (c <=? 8303)) || (c =? 65279))%Z.

(** [{:X}] of a code point: at most six digits. *)
Definition upper_hex_digit (n : N) : ascii :=
  if (n <? 10)%N then ascii_of_N (48 + n) else ascii_of_N (55 + n).
Fixpoint upper_hex (fuel : nat) (n : N) : string :=
  match fuel with
  | O => EmptyString
  | S fuel =>
    (if (n <? 16)%N then EmptyString else upper_hex fuel (n / 16))
    +:+ String (upper_hex_digit (n mod 16)) EmptyString
  end.

Definition escaped (name : string) : string := String backslash name.
Definition sanitize_char (c : Z) : string :=
  if (c =? 10)%Z then escaped "n"
  else if (c =? 13)%Z then escaped "r"
  else if (c =? 9)%Z then escaped "t"
  else if is_control c || is_unicode_format_control c
  then escaped ("u{" +:+ upper_hex 6 (Z.to_N c) +:+ "}")
  else push_char c.
Definition sanitize_terminal_text (value : string) : string :=
  foldr (fun c out => sanitize_char c +:+ out) EmptyString (chars value).

Definition bound_output (value : string) (input_was_truncated : bool) : res Empty_set string :=
  if negb (input_was_truncated || (len value >? MAX_AUDIT_DETAIL_OUTPUT_BYTES)%Z) then Ok value
  else
    let maximum_prefix := (MAX_AUDIT_DETAIL_OUTPUT_BYTES - len TRUNCATION_MARKER)%Z in
    let stop := floor_boundary (bytes value) (Z.to_nat (Z.min (len value) maximum_prefix)) in
    let? prefix := str_slice (bytes value) 0 stop in
    Ok (of_bytes prefix +:+ TRUNCATION_MARKER).

(** The text inspected: the lossy decoding of the first bytes. *)
Definition inspected_source (input : string) : list ascii :=
  let inspected_length := Z.to_nat (Z.min (len input) MAX_AUDIT_DETAIL_INPUT_BYTES) in
  concat (map (fun c => bytes (push_char c)) (from_utf8_lossy (take inspected_length (bytes input)))).

Definition redaction_ranges (source : list ascii) (input_was_truncated : bool)
  : res Empty_set (list (nat * nat)) :=
  let? userinfo := mark_url_userinfo source in
  Ok (mark_sensitive_headers source ++ mark_authentication_schemes source ++ userinfo
      ++ mark_query_secrets source ++ mark_json_secrets source ++ mark_environment_secrets source
      ++ mark_private_keys source ++ mark_jwts source
      ++ (if input_was_truncated then add source (partial_tail_start source) (length source) else [])).

Definition redact_audit_detail (input : string) : res Empty_set string :=
  let input_was_truncated := (MAX_AUDIT_DETAIL_INPUT_BYTES <? len input)%Z in
  let source := inspected_source input in
  let? ranges := redaction_ranges source input_was_truncated in
  let? redacted := render ranges source in
  bound_output (sanitize_terminal_text (of_bytes redacted)) input_was_truncated.
