(* ===== verification/RedactSpec.v ===== *)
(** * Redaction: the rendered text

    The reference for [render]: a text is copied byte by byte, and every
    maximal run of covered bytes is replaced by one marker. Text is UTF-8
    throughout: ranges end on character boundaries, so nothing is cut inside a
    character, and what is written is free of control characters. *)

From Stdlib Require Import Sorted.
From S2P Require Import Prelude Core Compact CompactSpec CompactKeep CompactText Redact.

Local Open Scope nat_scope.
#[local] Arguments REDACTION_MARKER : simpl never.
#[local] Arguments TRUNCATION_MARKER : simpl never.

(** ** Coverage *)

Definition covered (ranges : list (nat * nat)) (i : nat) : bool :=
  existsb (fun r => (r.1 <=? i) && (i <? r.2)) ranges.

(** The text with every maximal run of covered bytes collapsed to one marker. *)
Fixpoint collapse (cov : nat -> bool) (l : list ascii) (i : nat) (inside : bool) : list ascii :=
  match l with
  | [] => []
  | a :: l =>
    if cov i then (if inside then [] else bytes REDACTION_MARKER) ++ collapse cov l (S i) true
    else a :: collapse cov l (S i) false
  end.
Definition collapse_secrets (cov : nat -> bool) (l : list ascii) : list ascii := collapse cov l 0 false.

Lemma covered_spec ranges i :
  covered ranges i = true <-> exists r, r ∈ ranges /\ r.1 <= i < r.2.
Proof.
  unfold covered. rewrite existsb_exists. split; intros (r & Hr & Hi); exists r.
  - rewrite andb_true_iff, Nat.leb_le, Nat.ltb_lt in Hi. by rewrite list_elem_of_In.
  - rewrite andb_true_iff, Nat.leb_le, Nat.ltb_lt. by rewrite <-list_elem_of_In.
Qed.

Lemma covered_app r1 r2 i : covered (r1 ++ r2) i = covered r1 i || covered r2 i.
Proof. apply existsb_app. Qed.

Lemma collapse_uncovered cov l1 l2 i f :
  (forall j, i <= j < i + length l1 -> cov j = false) ->
  collapse cov (l1 ++ l2) i f
  = l1 ++ collapse cov l2 (i + length l1) (f && bool_decide (l1 = [])).
Proof.
  revert i f. induction l1 as [|a l1 IH]; intros i f Hc; simpl.
  - by rewrite Nat.add_0_r, andb_true_r.
  - rewrite (Hc i) by (simpl; lia). rewrite IH by (intros j Hj; apply Hc; simpl; lia).
    rewrite Nat.add_succ_r. by destruct f.
Qed.

Lemma collapse_inside cov l1 l2 i :
  (forall j, i <= j < i + length l1 -> cov j = true) ->
  collapse cov (l1 ++ l2) i true = collapse cov l2 (i + length l1) true.
Proof.
  revert i. induction l1 as [|a l1 IH]; intros i Hc; simpl; [by rewrite Nat.add_0_r|].
  rewrite (Hc i) by (simpl; lia). simpl. rewrite IH by (intros j Hj; apply Hc; simpl; lia).
  f_equal. lia.
Qed.

Lemma collapse_covered cov l1 l2 i :
  l1 <> [] -> (forall j, i <= j < i + length l1 -> cov j = true) ->
  collapse cov (l1 ++ l2) i false = bytes REDACTION_MARKER ++ collapse cov l2 (i + length l1) true.
Proof.
  destruct l1 as [|a l1]; [done|]. intros _ Hc. change ((a :: l1) ++ l2) with (a :: (l1 ++ l2)).
  cbn [collapse]. rewrite (Hc i) by (simpl; lia).
  rewrite collapse_inside by (intros j Hj; apply Hc; simpl; lia). do 2 f_equal. simpl. lia.
Qed.

Lemma collapse_ext cov1 cov2 l i f :
  (forall j, i <= j < i + length l -> cov1 j = cov2 j) -> collapse cov1 l i f = collapse cov2 l i f.
Proof.
  revert i f. induction l as [|a l IH]; intros i f Hc; simpl; [done|].
  rewrite (Hc i) by (simpl; lia).
  destruct (cov2 i); [f_equal|f_equal]; apply IH; intros j Hj; apply Hc; simpl; lia.
Qed.

(** ** Separated ranges *)

(** Sorted, non-empty, with a gap before each range after the first. *)
Inductive separated (lo : nat) : list (nat * nat) -> Prop :=
| separated_nil : separated lo []
| separated_cons r rest :
    lo <= r.1 -> r.1 < r.2 -> separated (S r.2) rest -> separated lo (r :: rest).

Lemma separated_covered lo ranges i : separated lo ranges -> covered ranges i = true -> lo <= i.
Proof.
  intros Hs. revert i. induction Hs as [|lo r rest H1 H2 _ IH]; intros i; simpl; [done|].
  rewrite orb_true_iff, andb_true_iff, Nat.leb_le. intros [[? _]|Hc]; [lia|]. apply IH in Hc. lia.
Qed.

Lemma sub_split (l : list ascii) a b :
  a <= b -> b <= length l -> drop a l = sub l a b ++ drop b l.
Proof.
  intros Hab Hb. unfold sub. rewrite <-(take_drop (b - a) (drop a l)) at 1. f_equal.
  rewrite drop_drop. f_equal. lia.
Qed.

Lemma sub_length (l : list ascii) a b : b <= length l -> length (sub l a b) = b - a.
Proof. intros Hb. unfold sub. rewrite length_take, length_drop. lia. Qed.

Lemma sub_all (l : list ascii) a : sub l a (length l) = drop a l.
Proof. unfold sub. apply take_ge. rewrite length_drop. lia. Qed.

Definition on_boundaries (l : list ascii) (r : nat * nat) : Prop :=
  is_char_boundary l r.1 = true /\ is_char_boundary l r.2 = true /\ r.1 < r.2 /\ r.2 <= length l.

Lemma boundary_end l : is_char_boundary l (length l) = true.
Proof. unfold is_char_boundary. rewrite lookup_ge_None_2 by lia. apply Nat.eqb_refl. Qed.

Lemma boundary_start l : is_char_boundary l 0 = true.
Proof. unfold is_char_boundary. by destruct l. Qed.

Lemma str_slice_ok l a b :
  a <= b -> is_char_boundary l a = true -> is_char_boundary l b = true ->
  str_slice l a b = Ok (sub l a b).
Proof. intros Hab Ha Hb. unfold str_slice. by rewrite (proj2 (Nat.leb_le _ _) Hab), Ha, Hb. Qed.

Lemma render_loop_collapse l merged cursor (f : bool) :
  separated (if f then S cursor else cursor) merged -> Forall (on_boundaries l) merged ->
  cursor <= length l -> is_char_boundary l cursor = true ->
  render_loop l merged cursor = Ok (collapse (covered merged) (drop cursor l) cursor f).
Proof.
  intros Hs. revert cursor f Hs.
  induction merged as [|[s e] rest IH]; intros cursor f Hs Hb Hlen Hcur; cbn [render_loop].
  - rewrite str_slice_ok by (lia || done || apply boundary_end). rewrite sub_all. f_equal.
    rewrite <-(app_nil_r (drop cursor l)) at 2.
    rewrite collapse_uncovered by done. simpl. by rewrite app_nil_r.
  - inversion Hs as [|? ? H1 H2 Hrest]; subst. simpl in H1, H2, Hrest.
    inversion Hb as [|? ? [Hb1 [Hb2 [_ Hb4]]] Hbrest]; subst. simpl in Hb1, Hb2, Hb4.
    assert (Hcs : cursor <= s) by (destruct f; lia).
    rewrite str_slice_ok by done. rewrite (IH e true) by done. cbv beta iota. apply (f_equal Ok).
    rewrite (sub_split l cursor s), (sub_split l s e) by lia.
    assert (Hun : forall j, cursor <= j < s -> covered ((s, e) :: rest) j = false).
    { intros j Hj. apply not_true_iff_false. intros Hc. unfold covered in Hc. simpl in Hc.
      rewrite orb_true_iff, andb_true_iff, Nat.leb_le, Nat.ltb_lt in Hc.
      destruct Hc as [?|Hc]; [lia|]. apply (separated_covered (S e)) in Hc; [lia|done]. }
    assert (Hin : forall j, s <= j < e -> covered ((s, e) :: rest) j = true).
    { intros j Hj. apply covered_spec. exists (s, e). split; [by left|]. simpl. lia. }
    rewrite collapse_uncovered by (intros j Hj; apply Hun; rewrite sub_length in Hj by lia; lia).
    f_equal. rewrite sub_length by lia. replace (cursor + (s - cursor)) with s by lia.
    assert (f && bool_decide (sub l cursor s = []) = false) as ->.
    { destruct f; [|done]. simpl. apply bool_decide_eq_false. intros Hnil.
      apply (f_equal length) in Hnil. rewrite sub_length in Hnil by lia. simpl in Hnil. lia. }
    rewrite collapse_covered.
    + rewrite sub_length by lia. replace (s + (e - s)) with e by lia.
      apply (f_equal (app _)), collapse_ext. intros j Hj. unfold covered. simpl.
      rewrite (proj2 (Nat.ltb_ge _ _)) by lia. by rewrite andb_false_r.
    + intros Hnil. apply (f_equal length) in Hnil. rewrite sub_length in Hnil by lia. simpl in Hnil. lia.
    + intros j Hj. apply Hin. rewrite sub_length in Hj by lia. lia.
Qed.

Lemma separated_snoc lo ranges r :
  separated lo (ranges ++ [r]) <->
  separated lo ranges /\ r.1 < r.2 /\ lo <= r.1 /\ (forall q, last ranges = Some q -> q.2 < r.1).
Proof.
  revert lo. induction ranges as [|x ranges IH]; intros lo; simpl.
  - split.
    + intros Hs. inversion Hs; subst. split_and!; try done. constructor.
    + intros (_ & ? & ? & _). constructor; try done. constructor.
  - split.
    + intros Hs. inversion Hs as [|? ? H1 H2 H3]; subst. apply IH in H3 as (H3 & H4 & H5 & H6).
      split_and!; [by constructor|done|lia|]. intros q Hq.
      destruct ranges as [|y ranges]; [injection Hq as <-; lia|]. by apply H6.
    + intros (Hs & H4 & H5 & H6). inversion Hs as [|? ? H1 H2 H3]; subst.
      constructor; [done|done|]. apply IH. split_and!; [done|done| |].
      * clear IH. destruct ranges as [|y ranges]; [specialize (H6 x eq_refl); lia|].
        assert (S x.2 <= y.1) by (by inversion H3). assert (y.1 < r.1); [|lia].
        clear -H3 H6. revert y x H3 H6. induction ranges as [|z ranges IH]; intros y x H3 H6.
        -- specialize (H6 y eq_refl). inversion H3; lia.
        -- inversion H3 as [|? ? _ Hy Hz]; subst. specialize (IH z y Hz H6). inversion Hz; lia.
      * intros q Hq. apply H6. by destruct ranges.
Qed.

Lemma covered_reverse ranges i : covered (reverse ranges) i = covered ranges i.
Proof.
  apply eq_iff_eq_true. rewrite !covered_spec. by setoid_rewrite elem_of_reverse.
Qed.

Lemma merge_range_spec l acc r :
  separated 0 (reverse acc) -> Forall (on_boundaries l) acc -> on_boundaries l r ->
  (forall p, head acc = Some p -> p.1 <= r.1) ->
  separated 0 (reverse (merge_range acc r)) /\ Forall (on_boundaries l) (merge_range acc r)
  /\ (forall p, head (merge_range acc r) = Some p -> p.1 <= r.1)
  /\ forall i, covered (merge_range acc r) i = covered acc i || covered [r] i.
Proof.
  intros Hs Hb Hr Hle. destruct acc as [|p acc]; simpl.
  { split_and!; [|by constructor|by intros ? [= <-]|done].
    destruct Hr as (_ & _ & ? & _). constructor; [lia|done|constructor]. }
  specialize (Hle p eq_refl). inversion Hb as [|? ? Hp Hacc]; subst.
  destruct Hp as (Hp1 & Hp2 & Hp3 & Hp4). destruct Hr as (Hr1 & Hr2 & Hr3 & Hr4).
  rewrite reverse_cons in Hs. apply separated_snoc in Hs as (Hs & _ & _ & Hlast).
  destruct (Nat.leb_spec r.1 p.2) as [Hov|Hgap].
  - split_and!.
    + rewrite reverse_cons. apply separated_snoc. split_and!; simpl; try done; lia.
    + constructor; [|done]. split_and!; simpl; try done; try lia.
      destruct (Nat.max_spec p.2 r.2) as [[_ ->]|[_ ->]]; done.
    + by intros ? [= <-].
    + intros i. unfold covered. simpl. rewrite orb_false_r. apply eq_iff_eq_true.
      rewrite !orb_true_iff, !andb_true_iff, !Nat.leb_le, !Nat.ltb_lt. intuition lia.
  - split_and!.
    + rewrite reverse_cons. apply separated_snoc. split_and!; try done; try lia.
      * rewrite reverse_cons. apply separated_snoc. split_and!; try done; lia.
      * rewrite reverse_cons, last_snoc. by intros ? [= <-].
    + constructor; [|by constructor]. done.
    + by intros ? [= <-].
    + intros i. unfold covered. simpl. rewrite orb_false_r, orb_assoc.
      destruct (_ && (i <? r.2)); rewrite ?orb_true_r, ?orb_false_r; done.
Qed.

Lemma insert_range_sorted r ranges :
  StronglySorted (fun a b => a.1 <= b.1) ranges ->
  StronglySorted (fun a b : nat * nat => a.1 <= b.1) (insert_sorted range_le r ranges).
Proof.
  induction 1 as [|x ranges Hs IH Hall]; simpl; [by repeat constructor|].
  unfold range_le at 1. destruct (Nat.leb_spec r.1 x.1).
  - constructor; [by constructor|]. constructor; [done|]. eapply Forall_impl; [exact Hall|]. simpl. lia.
  - constructor; [done|]. apply Forall_forall. intros y Hy. apply insert_sorted_elem in Hy as [->|Hy];
      [lia|]. by eapply Forall_forall in Hall.
Qed.

Lemma sort_ranges_sorted ranges :
  StronglySorted (fun a b : nat * nat => a.1 <= b.1) (sort_by range_le ranges).
Proof. induction ranges; simpl; [constructor|by apply insert_range_sorted]. Qed.

Lemma merge_spec l ranges acc :
  StronglySorted (fun a b : nat * nat => a.1 <= b.1) ranges ->
  separated 0 (reverse acc) -> Forall (on_boundaries l) acc -> Forall (on_boundaries l) ranges ->
  (forall p r, head acc = Some p -> r ∈ ranges -> p.1 <= r.1) ->
  let out := foldl merge_range acc ranges in
  separated 0 (reverse out) /\ Forall (on_boundaries l) out
  /\ forall i, covered out i = covered acc i || covered ranges i.
Proof.
  intros Hsorted. revert acc. induction Hsorted as [|r ranges _ IH Hall]; intros acc Hs Hb Hr Hle; simpl.
  - split_and!; try done. intros i. by rewrite orb_false_r.
  - inversion Hr as [|? ? Hr1 Hr2]; subst.
    destruct (merge_range_spec l acc r Hs Hb Hr1) as (H1 & H2 & H3 & H4);
      [intros p Hp; apply (Hle p r Hp); by left|].
    destruct (IH _ H1 H2 Hr2) as (H5 & H6 & H7).
    { intros p q Hp Hq. apply H3 in Hp. eapply Forall_forall in Hall; [|exact Hq]. simpl in Hall. lia. }
    split_and!; [done|done|]. intros i. rewrite H7, H4, <-orb_assoc. f_equal.
    unfold covered at 1. simpl. by rewrite orb_false_r.
Qed.

(** [render] is the reference. *)
Lemma render_collapse l ranges :
  Forall (on_boundaries l) ranges ->
  render ranges l = Ok (collapse_secrets (covered ranges) l).
Proof.
  intros Hb. unfold render.
  destruct (merge_spec l (sort_by range_le ranges) []) as (H1 & H2 & H3);
    [apply sort_ranges_sorted|constructor|constructor| |done|].
  - apply Forall_forall. intros r Hr. apply sort_by_elem in Hr. by eapply Forall_forall in Hb.
  - rewrite (render_loop_collapse l _ 0 false);
      [|done|by apply Forall_reverse|lia|apply boundary_start].
    rewrite drop_0. apply (f_equal Ok). unfold collapse_secrets. apply collapse_ext.
    intros j _. rewrite covered_reverse, H3. simpl. apply eq_iff_eq_true.
    rewrite !covered_spec. by setoid_rewrite sort_by_elem.
Qed.

(** ** UTF-8 text *)

Definition encode (cs : list Z) : list ascii := concat (map (fun c => bytes (push_char c)) cs).

(** The bytes of characters that all satisfy [P]. *)
Definition text (P : Z -> Prop) (l : list ascii) : Prop :=
  exists cs, Forall (fun c => scalar c /\ P c) cs /\ l = encode cs.

Lemma encode_app c1 c2 : encode (c1 ++ c2) = encode c1 ++ encode c2.
Proof. unfold encode. by rewrite map_app, concat_app. Qed.

Lemma text_nil P : text P [].
Proof. by exists []. Qed.

Lemma text_app P l1 l2 : text P l1 -> text P l2 -> text P (l1 ++ l2).
Proof.
  intros (c1 & H1 & ->) (c2 & H2 & ->). exists (c1 ++ c2). by rewrite encode_app, Forall_app.
Qed.

Lemma text_weaken (P Q : Z -> Prop) l : (forall c, P c -> Q c) -> text P l -> text Q l.
Proof.
  intros HPQ (cs & Hcs & ->). exists cs. split; [|done].
  eapply Forall_impl; [exact Hcs|]. simpl. intuition.
Qed.

Lemma text_char (P : Z -> Prop) c : scalar c -> P c -> text P (bytes (push_char c)).
Proof. intros Hs Hc. exists [c]. split; [by apply Forall_singleton|]. unfold encode. simpl. by rewrite app_nil_r. Qed.

Lemma byte_of_val a : byte_of (byte_val a) = a.
Proof. unfold byte_of, byte_val. by rewrite N2Z.id, ascii_N_embedding. Qed.

Lemma text_ascii (P : Z -> Prop) (l : list ascii) :
  Forall (fun a => byte_val a < 128 /\ P (byte_val a))%Z l -> text P l.
Proof.
  induction 1 as [|a l [Ha HP] _ IH]; [apply text_nil|].
  apply (text_app P [a] l); [|done]. exists [byte_val a]. pose proof (byte_val_range a). split.
  - apply Forall_singleton. unfold scalar. split; [lia|done].
  - unfold encode, push_char. simpl. rewrite (proj2 (Z.ltb_lt _ _) Ha). simpl. by rewrite byte_of_val.
Qed.

Lemma of_bytes_app l1 l2 : of_bytes (l1 ++ l2) = of_bytes l1 +:+ of_bytes l2.
Proof. induction l1 as [|a l1 IH]; [done|]. simpl. by rewrite IH. Qed.

Lemma of_bytes_bytes s : of_bytes (bytes s) = s.
Proof. apply String.string_of_list_ascii_of_string. Qed.

Lemma bytes_of_bytes l : bytes (of_bytes l) = l.
Proof. apply String.list_ascii_of_string_of_list_ascii. Qed.

Lemma encode_spells cs : Forall scalar cs -> spells (of_bytes (encode cs)) cs.
Proof.
  induction 1 as [|c cs Hc _ IH]; [apply spells_nil|].
  change (encode (c :: cs)) with (bytes (push_char c) ++ encode cs).
  rewrite of_bytes_app, of_bytes_bytes. apply (spells_app _ _ [c] cs); [by apply push_char_spells|done].
Qed.

Lemma text_chars P l : text P l -> Forall (fun c => scalar c /\ P c) (chars (of_bytes l)).
Proof.
  intros (cs & Hcs & ->). pose proof (encode_spells cs) as Hsp.
  assert (Hs : Forall scalar cs) by (eapply Forall_impl; [exact Hcs|]; by intros c []).
  specialize (Hsp Hs EmptyString). rewrite <-(append_nil_r (of_bytes (encode cs))).
  by rewrite Hsp, app_nil_r.
Qed.

(** ** Character boundaries *)

Lemma push_char_shape c :
  scalar c -> exists a rest, bytes (push_char c) = a :: rest
    /\ Forall (fun b => is_continuation b = true) rest.
Proof.
  intros [H0 Hc]. unfold push_char.
  assert (Hcont : forall z, (0 <= z)%Z -> is_continuation (byte_of (128 + z `mod` 64)) = true).
  { intros z Hz. unfold is_continuation, in_range. pose proof (Z.mod_pos_bound z 64).
    rewrite byte_val_of by lia. lia. }
  destruct (c <? 128)%Z; [|destruct (c <? 2048)%Z; [|destruct (c <? 65536)%Z]]; simpl;
    eexists _, _; (split; [reflexivity|]); repeat constructor; apply Hcont; try lia;
    apply Z.div_pos; lia.
Qed.

Lemma boundary_le l i : is_char_boundary l i = true -> i <= length l.
Proof.
  unfold is_char_boundary. destruct (l !! i) eqn:E; [apply lookup_lt_Some in E; lia|].
  rewrite Nat.eqb_eq. lia.
Qed.

Lemma boundary_cut cs i :
  Forall scalar cs -> is_char_boundary (encode cs) i = true ->
  exists c1 c2, cs = c1 ++ c2 /\ length (encode c1) = i.
Proof.
  intros Hcs. revert i. induction Hcs as [|c cs Hc _ IH]; intros i Hb.
  - exists [], []. apply boundary_le in Hb. simpl in *. split; [done|lia].
  - destruct i as [|i]; [by exists [], (c :: cs)|].
    change (encode (c :: cs)) with (bytes (push_char c) ++ encode cs) in Hb.
    destruct (push_char_shape c Hc) as (a & rest & Heq & Hrest).
    destruct (decide (i < length rest)) as [Hlt|Hge].
    + exfalso. unfold is_char_boundary in Hb. rewrite Heq in Hb. simpl in Hb.
      rewrite lookup_app_l in Hb by done. destruct (rest !! i) as [b|] eqn:Eb.
      * apply (Forall_lookup_1 _ _ _ _ Hrest) in Eb. by rewrite Eb in Hb.
      * apply lookup_ge_None in Eb. lia.
    + destruct (IH (i - length rest)) as (c1 & c2 & -> & Hlen).
      { unfold is_char_boundary in *. rewrite Heq in Hb. simpl in Hb.
        rewrite lookup_app_r in Hb by lia. destruct (encode cs !! (i - length rest)) as [b|].
        - rewrite Hb. apply orb_true_r.
        - rewrite length_app, Nat.eqb_eq in Hb. apply Nat.eqb_eq. lia. }
      exists (c :: c1), c2. split; [done|].
      change (encode (c :: c1)) with (bytes (push_char c) ++ encode c1).
      rewrite length_app, Heq. simpl. lia.
Qed.

Lemma text_slice P l a b out : text P l -> str_slice l a b = Ok out -> text P out.
Proof.
  intros (cs & Hcs & ->) Hs. unfold str_slice in Hs.
  destruct (Nat.leb_spec a b) as [Hab|]; [|done].
  destruct (is_char_boundary (encode cs) a) eqn:Ea, (is_char_boundary (encode cs) b) eqn:Eb; try done.
  injection Hs as <-.
  assert (Hsc : Forall scalar cs) by (eapply Forall_impl; [exact Hcs|]; by intros c []).
  apply boundary_cut in Eb as (c1 & c2 & -> & <-); [|done].
  apply Forall_app in Hsc as [Hsc _]. apply Forall_app in Hcs as [Hcs _].
  assert (Ha' : is_char_boundary (encode c1) a = true).
  { unfold is_char_boundary in Ea |- *. rewrite encode_app in Ea.
    destruct (decide (a < length (encode c1))) as [Hlt|Hge].
    - rewrite lookup_app_l in Ea by done. destruct (encode c1 !! a) eqn:El; [done|].
      apply lookup_ge_None in El. lia.
    - rewrite lookup_ge_None_2 by lia. apply Nat.eqb_eq. lia. }
  apply boundary_cut in Ha' as (c3 & c4 & -> & <-); [|done].
  exists c4. apply Forall_app in Hcs as [_ Hcs]. split; [done|].
  unfold sub. rewrite !encode_app, <-!app_assoc, drop_app_length, length_app.
  replace (length (encode c3) + length (encode c4) - length (encode c3)) with (length (encode c4)) by lia.
  by rewrite take_app_length.
Qed.

Lemma floor_boundary_spec l i : is_char_boundary l (floor_boundary l i) = true /\ floor_boundary l i <= i.
Proof.
  induction i as [|i [IH1 IH2]]; [split; [apply boundary_start|done]|].
  cbn [floor_boundary]. destruct (is_char_boundary l (S i)) eqn:E; [by split|]. split; [done|lia].
Qed.

Lemma skip_loop_spec p n cursor :
  let k := skip_loop p n cursor in
  cursor <= k <= cursor + n /\ (forall j, cursor <= j < k -> p j = true)
  /\ (k < cursor + n -> p k = false).
Proof.
  revert cursor. induction n as [|n IH]; intros cursor; simpl; [split; [lia|split; intros; lia]|].
  destruct (p cursor) eqn:E; [|split; [lia|split; [intros; lia|done]]].
  destruct (IH (S cursor)) as (H1 & H2 & H3). split; [lia|]. split; [|intros; apply H3; lia].
  intros j Hj. destruct (decide (j = cursor)) as [->|]; [done|]. apply H2. lia.
Qed.

Lemma skip_while_spec p cursor stop :
  cursor <= stop ->
  let k := skip_while p cursor stop in
  cursor <= k <= stop /\ (forall j, cursor <= j < k -> p j = true) /\ (k < stop -> p k = false).
Proof.
  intros Hle. unfold skip_while. destruct (skip_loop_spec p (stop - cursor) cursor) as (H1 & H2 & H3).
  split; [lia|]. split; [done|]. intros Hk. apply H3. lia.
Qed.

Lemma ceil_boundary_spec l i :
  i <= length l ->
  is_char_boundary l (ceil_boundary l i) = true /\ i <= ceil_boundary l i <= length l.
Proof.
  intros Hi. unfold ceil_boundary.
  destruct (skip_while_spec (fun i => negb (is_char_boundary l i)) i (length l) Hi) as (H1 & _ & H3).
  split; [|done]. destruct (decide (skip_while (fun i => negb (is_char_boundary l i)) i (length l) = length l))
    as [->|Hne]; [apply boundary_end|]. apply negb_false_iff, H3. lia.
Qed.

Lemma add_spec l start stop : Forall (on_boundaries l) (add l start stop).
Proof.
  unfold add. destruct (floor_boundary_spec l (Nat.min start (length l))) as [H1 _].
  destruct (ceil_boundary_spec l (Nat.min stop (length l))) as [H2 H3]; [lia|].
  destruct (Nat.ltb_spec (floor_boundary l (Nat.min start (length l)))
                         (ceil_boundary l (Nat.min stop (length l)))); [|constructor].
  repeat constructor; simpl; try done; lia.
Qed.

(** [add] covers what it was asked to cover. *)
Lemma add_covers l start stop i :
  start <= i < stop -> i < length l -> covered (add l start stop) i = true.
Proof.
  intros Hi Hl. destruct (floor_boundary_spec l (Nat.min start (length l))) as [_ H1].
  destruct (ceil_boundary_spec l (Nat.min stop (length l))) as [_ H2]; [lia|]. unfold add.
  rewrite (proj2 (Nat.ltb_lt _ _)) by lia. apply covered_spec. eexists. split; [by left|]. simpl. lia.
Qed.
