(* ===== verification/FlowDef.v ===== *)
(** * Flow definitions ([pam_flow/src/lib.rs])

    The declarative flow document: its data, the validation that every run
    starts from (texts, identities, bounds, references, safety rules, the
    dependency graph), and the normalized TOML whose digest identifies it. *)

From S2P Require Import Prelude.

Local Open Scope Z_scope.

Definition FLOW_SCHEMA_VERSION : Z := 2.
Definition MIN_FLOW_SCHEMA_VERSION : Z := 1.
Definition MAX_FLOW_DOCUMENT_BYTES : Z := 1024 * 1024.
Definition MAX_FLOW_STEPS : Z := 128.
Definition MAX_FLOW_ID_BYTES : Z := 64.
Definition MAX_COMMAND_ARGS : Z := 64.
Definition MAX_COMMAND_ARG_BYTES : Z := 4096.
Definition MAX_COMMAND_ARGS_BYTES : Z := 32 * 1024.
Definition MAX_TIMEOUT_SECONDS : Z := 3600.
Definition MAX_RETRY_ATTEMPTS : Z := 5.
Definition MAX_INITIAL_BACKOFF_MS : Z := 60000.
Definition MAX_BACKOFF_MS : Z := 300000.
Definition MAX_OUTCOME_EVIDENCE_HANDLES : Z := 4.
Definition MAX_NAME_BYTES : Z := 128.
Definition MAX_DESCRIPTION_BYTES : Z := 2048.
Definition MAX_TEMPLATE_BYTES : Z := 4096.
Definition MAX_WORKING_DIRECTORY_BYTES : Z := 512.
Definition MAX_PROGRAM_BYTES : Z := 128.
Definition MAX_CONNECTOR_BYTES : Z := 128.
Definition MAX_CAPABILITY_BYTES : Z := 128.
Definition MAX_RESOURCE_KIND_BYTES : Z := 64.
Definition MAX_RESOURCE_ID_BYTES : Z := 1024.
Definition MAX_IDEMPOTENCY_KEY_BYTES : Z := 128.

(** ** Data *)

Inductive StepCondition : Type :=
| Always
| CondSucceeded (step : string)
| CondFailed (step : string).

Record RetryPolicy := {
  max_attempts : Z;
  initial_backoff_ms : Z;
  max_backoff_ms : Z
}.
Definition RetryPolicy_default : RetryPolicy :=
  {| max_attempts := 1; initial_backoff_ms := 0; max_backoff_ms := 0 |}.

Inductive ApprovalMode : Type := ModeNone | ModeRequired.
Inductive EffectKind : Type := ReadOnly | Stateful.
Inductive StepSemanticRole : Type := Observe | Verify | Change.

Record ConnectorResource := { cr_kind : string; cr_id : string }.

Inductive StepAction : Type :=
| Command (program : string) (args : list string) (working_directory : string)
| Connector (connector : string) (capability : string) (resource : ConnectorResource).

Record FlowStep := {
  fs_id : string;
  fs_description : string;
  fs_depends_on : list string;
  fs_condition : StepCondition;
  fs_retry : RetryPolicy;
  fs_approval : ApprovalMode;
  fs_idempotency_key : option string;
  fs_timeout_seconds : Z;
  fs_effect : EffectKind;
  fs_semantic : option StepSemanticRole;
  fs_action : StepAction
}.

Record OutcomeTemplate := {
  ot_solved : string;
  ot_changed : string;
  ot_verified : string;
  ot_unresolved : string;
  ot_blocked : string
}.

Record FlowDefinition := {
  fd_schema_version : Z;
  fd_id : string;
  fd_name : string;
  fd_description : string;
  fd_revision : Z;
  fd_steps : list FlowStep;
  fd_outcome : OutcomeTemplate
}.

#[export] Instance EffectKind_eq_dec : EqDecision EffectKind.
Proof. solve_decision. Defined.
#[export] Instance StepSemanticRole_eq_dec : EqDecision StepSemanticRole.
Proof. solve_decision. Defined.
#[export] Instance ApprovalMode_eq_dec : EqDecision ApprovalMode.
Proof. solve_decision. Defined.

Definition referenced_step (c : StepCondition) : option string :=
  match c with
  | Always => None
  | CondSucceeded step | CondFailed step => Some step
  end.

Definition semantic_role (s : FlowStep) : StepSemanticRole :=
  match fs_semantic s with
  | Some role => role
  | None => match fs_effect s with ReadOnly => Observe | Stateful => Change end
  end.

(** [depends_on.iter().chain(condition.referenced_step())]. *)
Definition references (s : FlowStep) : list string :=
  fs_depends_on s ++ match referenced_step (fs_condition s) with Some r => [r] | None => [] end.

(** ** Validation errors *)

Record FlowValidationError := { ve_path : string; ve_message : string }.
Definition validation_error {A} (path message : string) : res FlowValidationError A :=
  Err {| ve_path := path; ve_message := message |}.
Abbreviation vres := (res FlowValidationError).

(** ** Secret-like material *)

(** [slice.windows(n)]. *)
Fixpoint windows {A} (n : nat) (l : list A) : list (list A) :=
  match l with
  | [] => []
  | _ :: l' => if (n <=? length l)%nat then take n l :: windows n l' else []
  end.

Definition contains_aws_access_key (value : string) : bool :=
  existsb
    (fun window =>
       (String.eqb (of_bytes (take 4 window)) "AKIA"
        || String.eqb (of_bytes (take 4 window)) "ASIA")
       && forallb (fun b => is_ascii_uppercase b || is_ascii_digit b) (drop 4 window))
    (windows 20 (bytes value)).

(** [split_ascii_whitespace]: the nonempty runs between ASCII whitespace. *)
Definition is_ascii_whitespace (a : ascii) : bool :=
  let b := byte_val a in (b =? 32) || (b =? 9) || (b =? 10) || (b =? 12) || (b =? 13).
Definition split_ascii_whitespace (value : string) : list string :=
  List.filter (fun s => negb (str_is_empty s)) (split_on is_ascii_whitespace value).

Definition is_dot (a : ascii) : bool := Ascii.eqb a "."%char.

Definition jwt_trim (a : ascii) : bool := one_of (dq +:+ "',;()") a.
Definition jwt_part (part : string) : bool :=
  (8 <=? len part) && all_bytes (fun b => is_ascii_alphanumeric b || one_of "-_=" b) part.
Definition contains_jwt (value : string) : bool :=
  existsb
    (fun word =>
       match split_on is_dot (trim_matches jwt_trim word) with
       | [first; second; third] => jwt_part first && jwt_part second && jwt_part third
       | _ => false
       end)
    (split_ascii_whitespace value).

Definition contains_url_userinfo (value : string) : bool :=
  match after_first "://" value with
  | None => false
  | Some remainder =>
    str_contains "@" (before_first (fun a => Ascii.eqb a "/"%char) remainder)
  end.

Definition secret_prefixes : list string :=
  ["bearer "; "-----begin private key-----"; "-----begin rsa private key-----";
   "github_pat_"; "ghp_"; "gho_"; "ghu_"; "ghs_"; "ghr_"; "sk_live_"; "sk_test_"].

Definition reject_secret_like (path value : string) : vres unit :=
  let lowercase := to_ascii_lowercase value in
  let token_prefix := existsb (fun prefix => str_contains prefix lowercase) secret_prefixes in
  if token_prefix || contains_aws_access_key value || contains_jwt value
     || contains_url_userinfo value
  then validation_error path "must not contain inline secret-like material"
  else Ok tt.

Definition sensitive_names : list string :=
  ["token"; "accesstoken"; "authtoken"; "password"; "passwd"; "secret"; "clientsecret";
   "apikey"; "accesskey"; "privatekey"; "credential"].

Definition reject_sensitive_argument_name (path value : string) : vres unit :=
  let lowercase := to_ascii_lowercase value in
  let name := before_first (fun a => Ascii.eqb a "="%char) lowercase in
  let normalized :=
    str_filter (fun a => negb (one_of "-_" a))
      (trim_start_matches (fun a => Ascii.eqb a "-"%char) name) in
  if existsb (String.eqb normalized) sensitive_names
  then validation_error path "must not contain an inline secret option or assignment"
  else Ok tt.

(** ** Text, slug, identity and path validation *)

Definition validate_text (path value : string) (maximum : Z) : vres unit :=
  if str_is_empty value then validation_error path "must not be empty"
  else if len value >? maximum
  then validation_error path ("must be at most " +:+ pretty maximum +:+ " UTF-8 bytes")
  else if existsb is_control (chars value)
  then validation_error path "must not contain control characters"
  else if negb (is_trimmed value)
  then validation_error path "must not have leading or trailing whitespace"
  else reject_secret_like path value.

Definition validate_template (path value : string) : vres unit :=
  validate_text path value MAX_TEMPLATE_BYTES.

(** The loop of [validate_slug]; [total] is [value.len()]. *)
Fixpoint slug_loop (total : nat) (index : nat) (previous_separator : bool) (l : list ascii) : bool :=
  match l with
  | [] => true
  | byte :: l =>
    let separator := one_of "-_" byte in
    let valid := is_ascii_lowercase byte || is_ascii_digit byte || separator in
    if negb valid
       || ((index =? 0)%nat && negb (is_ascii_lowercase byte))
       || (separator && previous_separator)
       || (separator && (index + 1 =? total)%nat)
    then false
    else slug_loop total (S index) separator l
  end.

Definition validate_slug (path value : string) (maximum : Z) : vres unit :=
  let? _ := validate_text path value maximum in
  if slug_loop (String.length value) 0 false (bytes value)
  then Ok tt
  else validation_error path "must be a lowercase slug beginning with a letter".

Definition validate_identity (path value : string) (maximum : Z) : vres unit :=
  let? _ := validate_text path value maximum in
  if negb (all_bytes_indexed
             (fun index byte => is_ascii_alphanumeric byte
                                || ((0 <? index)%nat && one_of "-_.:/" byte)) value)
  then validation_error path
         "must contain only ASCII letters, digits, and internal `-_.:/` separators"
  else Ok tt.

Definition validate_command_name (path value : string) : vres unit :=
  let? _ := validate_text path value MAX_PROGRAM_BYTES in
  if negb (all_bytes_indexed
             (fun index byte => is_ascii_alphanumeric byte
                                || ((0 <? index)%nat && one_of "-_.+" byte)) value)
  then validation_error path
         "must be a command name, not a path, with only ASCII letters, digits, `-_.+`"
  else Ok tt.

Definition dotted_segment (segment : string) : bool :=
  negb (str_is_empty segment)
  && match head (bytes segment) with Some b => is_ascii_lowercase b | None => false end
  && match last (bytes segment) with Some b => is_ascii_alphanumeric b | None => false end
  && all_bytes (fun b => is_ascii_lowercase b || is_ascii_digit b || Ascii.eqb b "-"%char) segment.

Definition validate_dotted_name (path value label : string) : vres unit :=
  if negb (forallb dotted_segment (split_on is_dot value))
  then validation_error path ("must be a lowercase dotted " +:+ label +:+ " identity")
  else Ok tt.

Definition validate_connector_name (path value : string) : vres unit :=
  let? _ := validate_text path value MAX_CONNECTOR_BYTES in
  validate_dotted_name path value "connector".

Definition validate_capability_name (path value : string) : vres unit :=
  let? _ := validate_text path value MAX_CAPABILITY_BYTES in
  validate_dotted_name path value "capability".

Definition path_separator (a : ascii) : bool := one_of "/\" a.
Definition first_byte_is (p : ascii -> bool) (s : string) : bool :=
  match head (bytes s) with Some b => p b | None => false end.
Definition last_byte_is (p : ascii -> bool) (s : string) : bool :=
  match last (bytes s) with Some b => p b | None => false end.

Definition validate_working_directory (path value : string) : vres unit :=
  let? _ := validate_text path value MAX_WORKING_DIRECTORY_BYTES in
  if String.eqb value "." then Ok tt
  else if first_byte_is path_separator value
          || str_contains ":" value
          || last_byte_is path_separator value
          || existsb (fun part => str_is_empty part || String.eqb part "."
                                  || String.eqb part ".."
                                  || existsb is_whitespace (chars part))
               (split_on path_separator value)
  then validation_error path
         "must be a normalized relative path without root, drive, `.` or `..` segments"
  else Ok tt.

Definition validate_resource_id (path value : string) : vres unit :=
  let? _ := validate_text path value MAX_RESOURCE_ID_BYTES in
  if str_contains "//" value
     || existsb (one_of "\?#@") (bytes value)
     || existsb (fun part => str_is_empty part || String.eqb part "." || String.eqb part "..")
          (split_on (one_of ":/") value)
     || negb (all_bytes (fun b => is_ascii_alphanumeric b || one_of "-_.:/" b) value)
  then validation_error path
         "must be a canonical opaque resource identity using ASCII alphanumerics and `-_.:/`"
  else reject_secret_like path value.

(** ** Validation of the parts of a step *)

Definition retry_validate (r : RetryPolicy) (path : string) : vres unit :=
  if (max_attempts r =? 0) || (max_attempts r >? MAX_RETRY_ATTEMPTS)
  then validation_error (path +:+ ".max_attempts")
         ("must be between 1 and " +:+ pretty MAX_RETRY_ATTEMPTS)
  else if max_attempts r =? 1
  then if negb (initial_backoff_ms r =? 0) || negb (max_backoff_ms r =? 0)
       then validation_error path "backoff must be zero when max_attempts is 1"
       else Ok tt
  else if (initial_backoff_ms r =? 0) || (initial_backoff_ms r >? MAX_INITIAL_BACKOFF_MS)
  then validation_error (path +:+ ".initial_backoff_ms")
         ("must be between 1 and " +:+ pretty MAX_INITIAL_BACKOFF_MS +:+ " when retrying")
  else if (max_backoff_ms r <? initial_backoff_ms r) || (max_backoff_ms r >? MAX_BACKOFF_MS)
  then validation_error (path +:+ ".max_backoff_ms")
         ("must be at least initial_backoff_ms and at most " +:+ pretty MAX_BACKOFF_MS)
  else Ok tt.

Definition resource_validate (r : ConnectorResource) (path : string) : vres unit :=
  let? _ := validate_slug (path +:+ ".kind") (cr_kind r) MAX_RESOURCE_KIND_BYTES in
  validate_resource_id (path +:+ ".id") (cr_id r).

Definition action_validate (a : StepAction) (step_path : string) : vres unit :=
  match a with
  | Command program args working_directory =>
    let? _ := validate_command_name (step_path +:+ ".action.program") program in
    let? _ := validate_working_directory (step_path +:+ ".action.working_directory")
                working_directory in
    if Z.of_nat (length args) >? MAX_COMMAND_ARGS
    then validation_error (step_path +:+ ".action.args")
           ("must contain at most " +:+ pretty MAX_COMMAND_ARGS +:+ " arguments")
    else
      let? _ := iter_res
        (fun '(argument_index, argument) =>
           let path := step_path +:+ ".action.args[" +:+ pretty argument_index +:+ "]" in
           let? _ := validate_text path argument MAX_COMMAND_ARG_BYTES in
           let? _ := reject_secret_like path argument in
           reject_sensitive_argument_name path argument) (enumerate args) in
      let total_bytes := fold_left (fun total a => Z.min u64_max (total + len a)) args 0 in
      if total_bytes >? MAX_COMMAND_ARGS_BYTES
      then validation_error (step_path +:+ ".action.args")
             ("must total at most " +:+ pretty MAX_COMMAND_ARGS_BYTES +:+ " UTF-8 bytes")
      else Ok tt
  | Connector connector capability resource =>
    let? _ := validate_connector_name (step_path +:+ ".action.connector") connector in
    let? _ := validate_capability_name (step_path +:+ ".action.capability") capability in
    resource_validate resource (step_path +:+ ".action.resource")
  end.

(** The loop over [depends_on] with its [HashSet] of the dependencies seen. *)
Fixpoint validate_dependencies (base id : string) (step_indices : gmap string nat)
    (dependency_index : nat) (seen : gset string) (deps : list string) : vres unit :=
  match deps with
  | [] => Ok tt
  | dependency :: rest =>
    let path := base +:+ ".depends_on[" +:+ pretty dependency_index +:+ "]" in
    let? _ := validate_slug path dependency MAX_FLOW_ID_BYTES in
    match step_indices !! dependency with
    | None => validation_error path ("references unknown step `" +:+ dependency +:+ "`")
    | Some _ =>
      if String.eqb dependency id
      then validation_error path "cannot reference the step itself"
      else if bool_decide (dependency ∈ seen)
      then validation_error path ("duplicates dependency `" +:+ dependency +:+ "`")
      else validate_dependencies base id step_indices (S dependency_index)
             ({[dependency]} ∪ seen) rest
    end
  end.

Definition validate_condition (base id : string) (step_indices : gmap string nat)
    (c : StepCondition) : vres unit :=
  match referenced_step c with
  | None => Ok tt
  | Some reference =>
    let path := base +:+ ".condition.step" in
    let? _ := validate_slug path reference MAX_FLOW_ID_BYTES in
    match step_indices !! reference with
    | None => validation_error path ("references unknown step `" +:+ reference +:+ "`")
    | Some _ =>
      if String.eqb reference id
      then validation_error path "cannot reference the step itself"
      else Ok tt
    end
  end.

Definition validate_stateful (s : FlowStep) (base : string) : vres unit :=
  match fs_effect s with
  | ReadOnly => Ok tt
  | Stateful =>
    if negb (bool_decide (fs_approval s = ModeRequired))
    then validation_error (base +:+ ".approval")
           "stateful actions require approval = `required`"
    else match fs_idempotency_key s with
         | None => validation_error (base +:+ ".idempotency_key")
                     "stateful actions require an idempotency key"
         | Some _ => Ok tt
         end
  end.

Definition validate_semantic (s : FlowStep) (base : string) (schema_version : Z) : vres unit :=
  let? _ :=
    match schema_version, fs_semantic s with
    | 1, Some _ => validation_error (base +:+ ".semantic")
                     "schema version 1 derives semantics and must omit this field"
    | 2, None => validation_error (base +:+ ".semantic")
                   "schema version 2 requires an explicit semantic role"
    | (1 | 2), _ => Ok tt
    | _, _ => Panic
    end in
  match fs_effect s, semantic_role s with
  | ReadOnly, (Observe | Verify) | Stateful, Change => Ok tt
  | ReadOnly, Change => validation_error (base +:+ ".semantic")
                          "change semantics require a stateful effect"
  | Stateful, (Observe | Verify) => validation_error (base +:+ ".semantic")
                                      "stateful effects must use change semantics"
  end.

Definition step_validate (s : FlowStep) (index : nat) (schema_version : Z)
    (step_indices : gmap string nat) : vres unit :=
  let base := "steps[" +:+ pretty index +:+ "]" in
  let? _ := validate_text (base +:+ ".description") (fs_description s) MAX_DESCRIPTION_BYTES in
  if (fs_timeout_seconds s =? 0) || (fs_timeout_seconds s >? MAX_TIMEOUT_SECONDS)
  then validation_error (base +:+ ".timeout_seconds")
         ("must be between 1 and " +:+ pretty MAX_TIMEOUT_SECONDS)
  else
    let? _ := retry_validate (fs_retry s) (base +:+ ".retry") in
    let? _ := validate_dependencies base (fs_id s) step_indices 0 ∅ (fs_depends_on s) in
    let? _ := validate_condition base (fs_id s) step_indices (fs_condition s) in
    let? _ := validate_stateful s base in
    let? _ := validate_semantic s base schema_version in
    let? _ := match fs_idempotency_key s with
              | Some key => validate_identity (base +:+ ".idempotency_key") key
                              MAX_IDEMPOTENCY_KEY_BYTES
              | None => Ok tt
              end in
    action_validate (fs_action s) base.

Definition outcome_validate (o : OutcomeTemplate) : vres unit :=
  let? _ := validate_template "outcome.solved" (ot_solved o) in
  let? _ := validate_template "outcome.changed" (ot_changed o) in
  let? _ := validate_template "outcome.verified" (ot_verified o) in
  let? _ := validate_template "outcome.unresolved" (ot_unresolved o) in
  validate_template "outcome.blocked" (ot_blocked o).

(** ** The dependency graph *)

Inductive Visit : Type := Visiting | Complete.

(** A loop that threads a state and may return early. *)
Fixpoint fold_res {E A S} (f : A -> S -> res E S) (l : list A) (s : S) : res E S :=
  match l with
  | [] => Ok s
  | x :: l => let? s := f x s in fold_res f l s
  end.

Definition VisitState : Type := list (option Visit) * list nat.

Definition cycle_error (step_index : nat) (steps : list FlowStep) (stack : list nat)
  : vres VisitState :=
  let cycle_start := default 0%nat (position (fun index => (index =? step_index)%nat) stack) in
  let? cycle := or_panic (mapM (fun index => fs_id <$> steps !! index) (drop cycle_start stack)) in
  let? own := or_panic (fs_id <$> steps !! step_index) in
  validation_error ("steps[" +:+ pretty step_index +:+ "]")
    ("dependency cycle detected: " +:+ str_join " -> " (cycle ++ [own])).

(** The recursive [visit]; [fuel] bounds its depth, and running out of it is a
    panic that [validate_acyclic_total] rules out. *)
Fixpoint visit (fuel : nat) (steps : list FlowStep) (step_indices : gmap string nat)
    (step_index : nat) (vs : VisitState) : vres VisitState :=
  match fuel with
  | O => Panic
  | S fuel =>
    let (states, stack) := vs in
    let? state := or_panic (states !! step_index) in
    match state with
    | Some Complete => Ok (states, stack)
    | Some Visiting => cycle_error step_index steps stack
    | None =>
      let states := <[step_index := Some Visiting]> states in
      let stack := stack ++ [step_index] in
      let? step := or_panic (steps !! step_index) in
      let? vs := fold_res
        (fun reference vs =>
           let? target := or_panic (step_indices !! reference) in
           visit fuel steps step_indices target vs)
        (references step) (states, stack) in
      Ok (<[step_index := Some Complete]> vs.1, removelast vs.2)
    end
  end.

Definition validate_acyclic (steps : list FlowStep) (step_indices : gmap string nat) : vres unit :=
  let? _ := fold_res
    (fun step_index vs => visit (S (length steps)) steps step_indices step_index vs)
    (seq 0 (length steps)) (replicate (length steps) None, []) in
  Ok tt.

(** ** The whole definition *)

(** The first loop of [validate]: slugs and duplicate step identities. *)
Fixpoint index_steps (index : nat) (steps : list FlowStep) (step_indices : gmap string nat)
  : vres (gmap string nat) :=
  match steps with
  | [] => Ok step_indices
  | step :: rest =>
    let path := "steps[" +:+ pretty index +:+ "].id" in
    let? _ := validate_slug path (fs_id step) MAX_FLOW_ID_BYTES in
    match step_indices !! fs_id step with
    | Some first =>
      validation_error path
        ("duplicates steps[" +:+ pretty first +:+ "].id `" +:+ fs_id step +:+ "`")
    | None => index_steps (S index) rest (<[fs_id step := index]> step_indices)
    end
  end.

Definition definition_validate (d : FlowDefinition) : vres unit :=
  if negb ((MIN_FLOW_SCHEMA_VERSION <=? fd_schema_version d)
           && (fd_schema_version d <=? FLOW_SCHEMA_VERSION))
  then validation_error "schema_version"
         ("unsupported schema version " +:+ pretty (fd_schema_version d)
          +:+ "; supported versions are " +:+ pretty MIN_FLOW_SCHEMA_VERSION
          +:+ " through " +:+ pretty FLOW_SCHEMA_VERSION)
  else
    let? _ := validate_slug "id" (fd_id d) MAX_FLOW_ID_BYTES in
    let? _ := validate_text "name" (fd_name d) MAX_NAME_BYTES in
    let? _ := validate_text "description" (fd_description d) MAX_DESCRIPTION_BYTES in
    if fd_revision d =? 0 then validation_error "revision" "must be greater than zero"
    else if bool_decide (length (fd_steps d) = 0%nat)
    then validation_error "steps" "must contain at least one step"
    else if Z.of_nat (length (fd_steps d)) >? MAX_FLOW_STEPS
    then validation_error "steps"
           ("must contain at most " +:+ pretty MAX_FLOW_STEPS +:+ " steps")
    else
      let? _ := outcome_validate (fd_outcome d) in
      let? step_indices := index_steps 0 (fd_steps d) ∅ in
      let? _ := iter_res
        (fun '(index, step) => step_validate step index (fd_schema_version d) step_indices)
        (enumerate (fd_steps d)) in
      validate_acyclic (fd_steps d) step_indices.

(** ** Normalized TOML *)

(** [push_quoted]: quotes and backslashes are escaped, every other character is
    copied. Both are ASCII, so the bytes of other characters are untouched. *)
Fixpoint escape (value : string) : string :=
  match value with
  | EmptyString => EmptyString
  | String a rest =>
    if Ascii.eqb a "034"%char then "\" +:+ dq +:+ escape rest
    else if Ascii.eqb a "\"%char then "\\" +:+ escape rest
    else String a (escape rest)
  end.
Definition push_quoted (output value : string) : string :=
  output +:+ dq +:+ escape value +:+ dq.

Definition newline : string := String "010"%char EmptyString.

Definition push_array (output : string) (values : list string) : string :=
  fold_left
    (fun output '(index, value) =>
       push_quoted (if (0 <? index)%nat then output +:+ ", " else output) value)
    (enumerate values) (output +:+ "[") +:+ "]".
Definition push_key_integer (output key : string) (value : Z) : string :=
  output +:+ key +:+ " = " +:+ pretty value +:+ newline.
Definition push_key_string (output key value : string) : string :=
  push_quoted (output +:+ key +:+ " = ") value +:+ newline.
Definition push_key_array (output key : string) (values : list string) : string :=
  push_array (output +:+ key +:+ " = ") values +:+ newline.

Definition condition_inline_toml (c : StepCondition) (output : string) : string :=
  match c with
  | Always => output +:+ "{ kind = " +:+ dq +:+ "always" +:+ dq +:+ " }"
  | CondSucceeded step =>
    push_quoted (output +:+ "{ kind = " +:+ dq +:+ "succeeded" +:+ dq +:+ ", step = ") step
    +:+ " }"
  | CondFailed step =>
    push_quoted (output +:+ "{ kind = " +:+ dq +:+ "failed" +:+ dq +:+ ", step = ") step
    +:+ " }"
  end.

Definition retry_inline_toml (r : RetryPolicy) (output : string) : string :=
  output +:+ "{ max_attempts = " +:+ pretty (max_attempts r)
  +:+ ", initial_backoff_ms = " +:+ pretty (initial_backoff_ms r)
  +:+ ", max_backoff_ms = " +:+ pretty (max_backoff_ms r) +:+ " }".

Definition action_inline_toml (a : StepAction) (output : string) : string :=
  match a with
  | Command program args working_directory =>
    let output := push_quoted
      (output +:+ "{ type = " +:+ dq +:+ "command" +:+ dq +:+ ", program = ") program in
    let output := push_array (output +:+ ", args = ") args in
    push_quoted (output +:+ ", working_directory = ") working_directory +:+ " }"
  | Connector connector capability resource =>
    let output := push_quoted
      (output +:+ "{ type = " +:+ dq +:+ "connector" +:+ dq +:+ ", connector = ") connector in
    let output := push_quoted (output +:+ ", capability = ") capability in
    let output := push_quoted (output +:+ ", resource = { kind = ") (cr_kind resource) in
    push_quoted (output +:+ ", id = ") (cr_id resource) +:+ " } }"
  end.

Definition approval_as_str (m : ApprovalMode) : string :=
  match m with ModeNone => "none" | ModeRequired => "required" end.
Definition effect_as_str (k : EffectKind) : string :=
  match k with ReadOnly => "read_only" | Stateful => "stateful" end.
Definition role_as_str (r : StepSemanticRole) : string :=
  match r with Observe => "observe" | Verify => "verify" | Change => "change" end.

(** The body of the loop over the steps. *)
Definition push_step (schema_version : Z) (output : string) (step : FlowStep) : string :=
  let output := output +:+ newline +:+ "[[steps]]" +:+ newline in
  let output := push_key_string output "id" (fs_id step) in
  let output := push_key_string output "description" (fs_description step) in
  let output := push_key_array output "depends_on" (fs_depends_on step) in
  let output := condition_inline_toml (fs_condition step) (output +:+ "condition = ")
                +:+ newline in
  let output := retry_inline_toml (fs_retry step) (output +:+ "retry = ") +:+ newline in
  let output := push_key_string output "approval" (approval_as_str (fs_approval step)) in
  let output := match fs_idempotency_key step with
                | Some key => push_key_string output "idempotency_key" key
                | None => output
                end in
  let output := push_key_integer output "timeout_seconds" (fs_timeout_seconds step) in
  let output := push_key_string output "effect" (effect_as_str (fs_effect step)) in
  let output := if 2 <=? schema_version
                then push_key_string output "semantic" (role_as_str (semantic_role step))
                else output in
  action_inline_toml (fs_action step) (output +:+ "action = ") +:+ newline.

Definition to_normalized_toml (d : FlowDefinition) : vres string :=
  let? _ := definition_validate d in
  let output := push_key_integer "" "schema_version" (fd_schema_version d) in
  let output := push_key_string output "id" (fd_id d) in
  let output := push_key_string output "name" (fd_name d) in
  let output := push_key_string output "description" (fd_description d) in
  let output := push_key_integer output "revision" (fd_revision d) in
  let output := output +:+ newline +:+ "[outcome]" +:+ newline in
  let output := push_key_string output "solved" (ot_solved (fd_outcome d)) in
  let output := push_key_string output "changed" (ot_changed (fd_outcome d)) in
  let output := push_key_string output "verified" (ot_verified (fd_outcome d)) in
  let output := push_key_string output "unresolved" (ot_unresolved (fd_outcome d)) in
  let output := push_key_string output "blocked" (ot_blocked (fd_outcome d)) in
  Ok (fold_left (push_step (fd_schema_version d)) (fd_steps d) output).

Definition FlowDigest := string.
Definition normalized_digest `{Sha256} (d : FlowDefinition) : vres FlowDigest :=
  let? normalized := to_normalized_toml d in
  Ok (sha256 (("pam-flow-definition-v1" +:+ nul) +:+ normalized)).

(** ** Parsing

    [toml::from_str] is third-party: an argument. *)

Inductive FlowParseError (E : Type) : Type :=
| DocumentTooLarge (actual maximum : Z)
| Toml (error : E)
| Validation (error : FlowValidationError).
Arguments DocumentTooLarge {E} _ _.
Arguments Toml {E} _.
Arguments Validation {E} _.

Definition parse_toml {E} (from_str : string -> res E FlowDefinition) (source : string)
  : res (FlowParseError E) FlowDefinition :=
  if len source >? MAX_FLOW_DOCUMENT_BYTES
  then Err (DocumentTooLarge (len source) MAX_FLOW_DOCUMENT_BYTES)
  else
    let? definition := map_err Toml (from_str source) in
    let? _ := map_err Validation (definition_validate definition) in
    Ok definition.
