(* ===== verification/FlowGraph.v ===== *)
(** * The dependency graph of a flow ([validate_acyclic])

    The depth-first search of [validate_acyclic] is total (the chosen fuel is
    enough and no index is out of range) and accepts exactly the acyclic
    graphs. The proof follows the search: the complete steps, in completion
    order, are topologically sorted, and the stack is a path of the graph. *)

From S2P Require Import Prelude FlowDef.
From stdpp Require Import relations.

(** ** The graph *)

Section graph.
Context (steps : list FlowStep) (step_indices : gmap string nat).

Definition edge (i j : nat) : Prop :=
  exists step reference, steps !! i = Some step /\ reference ∈ references step
    /\ step_indices !! reference = Some j.

(** Every reference of every step is the identity of a step. *)
Definition resolves : Prop :=
  forall i step reference, steps !! i = Some step -> reference ∈ references step ->
    exists j, step_indices !! reference = Some j /\ j < length steps.

Definition acyclic : Prop := forall i, ~ tc edge i i.

(** ** The invariant of the search *)

Definition complete (states : list (option Visit)) (i : nat) : Prop :=
  states !! i = Some (Some Complete).
Definition visiting (states : list (option Visit)) (i : nat) : Prop :=
  states !! i = Some (Some Visiting).

Definition unvisited (states : list (option Visit)) : nat :=
  length (List.filter (fun o => match o with None => true | Some _ => false end) states).

Definition topological (ord : list nat) : Prop :=
  forall k i j, ord !! k = Some i -> edge i j -> exists k', k' < k /\ ord !! k' = Some j.

Definition is_path (stack : list nat) : Prop :=
  forall k a b, stack !! k = Some a -> stack !! S k = Some b -> edge a b.

Record search_inv (states : list (option Visit)) (stack : list nat) : Prop := {
  si_length : length states = length steps;
  si_stack : forall i, visiting states i <-> i ∈ stack;
  si_path : is_path stack;
  si_order : exists ord, (forall i, i ∈ ord <-> complete states i) /\ topological ord
}.

(** What one [visit] promises when it is called on [i] from the top of
    [stack]. *)
Definition visit_post (i : nat) (states : list (option Visit)) (stack : list nat)
    (r : vres VisitState) : Prop :=
  match r with
  | Ok (states', stack') =>
    stack' = stack /\ search_inv states' stack /\ complete states' i
    /\ (forall j, complete states j -> complete states' j)
    /\ unvisited states' <= unvisited states
  | Err _ => exists c, tc edge c c
  | Panic => False
  end.

(** ** Lemmas *)

Lemma unvisited_insert states i v o :
  states !! i = Some o ->
  unvisited (<[i := Some v]> states) + (match o with None => 1 | Some _ => 0 end)
  = unvisited states.
Proof.
  unfold unvisited. revert i. induction states as [|x states IH]; intros [|i] H; simpl in *.
  - discriminate.
  - discriminate.
  - injection H as ->. destruct o; simpl; lia.
  - specialize (IH i H). destruct x; simpl; lia.
Qed.

Lemma unvisited_le states : unvisited states <= length states.
Proof. apply List.filter_length_le. Qed.

Lemma edge_lt i j : edge i j -> i < length steps.
Proof. intros (step & r & H & _). by apply lookup_lt_Some in H. Qed.

Lemma is_path_suffix_tc stack k a b :
  is_path stack -> stack !! k = Some a -> last stack = Some b -> a = b \/ tc edge a b.
Proof.
  intros Hp Ha Hb. rewrite last_lookup in Hb.
  remember (pred (length stack) - k) as n eqn:En. revert k a Ha En.
  induction n as [|n IH]; intros k a Ha En.
  - left. pose proof (lookup_lt_Some _ _ _ Ha).
    assert (k = pred (length stack)) as -> by lia. congruence.
  - right. pose proof (lookup_lt_Some _ _ _ Ha).
    destruct (lookup_lt_is_Some_2 stack (S k)) as [c Hc]; [lia|].
    pose proof (Hp k a c Ha Hc). destruct (IH (S k) c Hc) as [<-|]; [lia| |].
    + by apply tc_once.
    + by eapply tc_l.
Qed.

Lemma is_path_snoc stack i :
  is_path stack -> (forall a, last stack = Some a -> edge a i) -> is_path (stack ++ [i]).
Proof.
  intros Hp He k a b Ha Hb.
  destruct (decide (S k < length stack)) as [Hl|Hl].
  - rewrite lookup_app_l in Ha by lia. rewrite lookup_app_l in Hb by lia. by eapply Hp.
  - pose proof (lookup_lt_Some _ _ _ Hb) as Hk. rewrite length_app in Hk. simpl in Hk.
    assert (length stack = S k) as El by lia.
    rewrite lookup_app_r in Hb by lia. rewrite El, Nat.sub_diag in Hb. injection Hb as <-.
    rewrite lookup_app_l in Ha by lia. apply He. rewrite last_lookup, El. done.
Qed.

Lemma complete_insert states i v j :
  i < length states ->
  complete (<[i := Some v]> states) j <-> (i = j /\ v = Complete) \/ (i <> j /\ complete states j).
Proof.
  intros Hi. unfold complete. destruct (decide (i = j)) as [<-|Hne].
  - rewrite list_lookup_insert_eq by done. split; [intros [= ->]; auto|intros [[_ ->]|[? _]]; done].
  - rewrite list_lookup_insert_ne by done. naive_solver.
Qed.

Lemma visiting_insert states i v j :
  i < length states ->
  visiting (<[i := Some v]> states) j <-> (i = j /\ v = Visiting) \/ (i <> j /\ visiting states j).
Proof.
  intros Hi. unfold visiting. destruct (decide (i = j)) as [<-|Hne].
  - rewrite list_lookup_insert_eq by done. split; [intros [= ->]; auto|intros [[_ ->]|[? _]]; done].
  - rewrite list_lookup_insert_ne by done. naive_solver.
Qed.

(** A loop whose body keeps [P], establishes [Q x] and never loses it. *)
Lemma fold_res_spec {E A S} (f : A -> S -> res E S) (P : S -> Prop) (Q : A -> S -> Prop)
    (Bad : Prop) l s :
  (forall x s, x ∈ l -> P s ->
     match f x s with
     | Ok s' => P s' /\ Q x s' /\ (forall y, Q y s -> Q y s')
     | Err _ => Bad
     | Panic => False
     end) ->
  P s ->
  match fold_res f l s with
  | Ok s' => P s' /\ (forall x, x ∈ l -> Q x s') /\ (forall y, Q y s -> Q y s')
  | Err _ => Bad
  | Panic => False
  end.
Proof.
  revert s. induction l as [|x l IH]; intros s Hf HP; simpl.
  - split_and!; [done| |done]. intros x Hx. by apply not_elem_of_nil in Hx.
  - pose proof (Hf x s ltac:(set_solver) HP) as Hx.
    destruct (f x s) as [s'|e|]; [|done|done]. destruct Hx as (HP' & HQ & Hm).
    specialize (IH s' (fun y t Hy => Hf y t (list_elem_of_further _ _ _ Hy)) HP').
    destruct (fold_res f l s') as [s''|e|]; [|done|done]. destruct IH as (HP'' & Hall & Hm').
    split_and!; [done| |auto]. intros y [->|Hy]%elem_of_cons; auto.
Qed.

Lemma cycle_error_spec i states stack :
  resolves -> search_inv states stack -> visiting states i ->
  (forall a, last stack = Some a -> edge a i) ->
  exists e, cycle_error i steps stack = Err e.
Proof.
  intros Hr Hinv Hi Hlast. unfold cycle_error.
  assert (Hbound : forall j, j ∈ stack -> is_Some (fs_id <$> steps !! j)).
  { intros j Hj. apply fmap_is_Some, lookup_lt_is_Some. rewrite <-(si_length _ _ Hinv).
    apply (si_stack _ _ Hinv) in Hj. by eapply lookup_lt_Some. }
  destruct (mapM_is_Some_2 (fun index => fs_id <$> steps !! index)
              (drop (default 0 (position (fun index => index =? i) stack)) stack)) as [l Hl].
  { apply Forall_forall. intros j Hj. apply Hbound.
    rewrite <-(take_drop (default 0 (position (fun index => index =? i) stack)) stack).
    apply elem_of_app. by right. }
  rewrite Hl. destruct (Hbound i) as [own Ho]; [by apply (si_stack _ _ Hinv)|].
  rewrite Ho. simpl. eauto.
Qed.

Lemma visiting_cycle i states stack :
  search_inv states stack -> visiting states i ->
  (forall a, last stack = Some a -> edge a i) -> exists c, tc edge c c.
Proof.
  intros Hinv Hi Hlast. apply (si_stack _ _ Hinv) in Hi as Hin.
  apply list_elem_of_lookup in Hin as [k Hk].
  destruct (last stack) as [b|] eqn:Eb; [|by apply last_None in Eb as ->].
  exists i. destruct (is_path_suffix_tc stack k i b (si_path _ _ Hinv) Hk Eb) as [<-|Ht].
  - apply tc_once. auto.
  - eapply tc_r; [exact Ht|auto].
Qed.

(** Entering a step: it is marked and pushed. *)
Lemma search_inv_enter i states stack :
  search_inv states stack -> states !! i = Some None ->
  (forall a, last stack = Some a -> edge a i) ->
  search_inv (<[i := Some Visiting]> states) (stack ++ [i]).
Proof.
  intros Hinv Hi Hlast. pose proof (lookup_lt_Some _ _ _ Hi) as Hlt. split.
  - rewrite length_insert. apply Hinv.
  - intros j. rewrite visiting_insert by done. rewrite elem_of_app, list_elem_of_singleton.
    rewrite (si_stack _ _ Hinv). destruct (decide (i = j)); naive_solver.
  - apply is_path_snoc; [apply Hinv|done].
  - destruct (si_order _ _ Hinv) as (ord & Hord & Ht). exists ord. split; [|done].
    intros j. rewrite complete_insert, Hord by done. split; [|naive_solver].
    intros Hj. right. split; [|done]. intros <-. unfold complete in Hj. congruence.
Qed.

(** Leaving a step: all its successors are complete, so it is appended to the
    topological order. *)
Lemma search_inv_leave i states stack :
  search_inv states (stack ++ [i]) -> i ∉ stack ->
  (forall j, edge i j -> complete states j) ->
  search_inv (<[i := Some Complete]> states) stack.
Proof.
  intros Hinv Hni Hsucc.
  assert (Hvi : visiting states i) by (apply (si_stack _ _ Hinv); set_solver).
  pose proof (lookup_lt_Some _ _ _ Hvi) as Hlt. split.
  - rewrite length_insert. apply Hinv.
  - intros j. rewrite visiting_insert, (si_stack _ _ Hinv) by done. set_solver.
  - intros k a b Ha Hb. apply (si_path _ _ Hinv k);
      by apply lookup_app_l_Some.
  - destruct (si_order _ _ Hinv) as (ord & Hord & Ht). exists (ord ++ [i]). split.
    + intros j. rewrite elem_of_app, list_elem_of_singleton, complete_insert, Hord by done.
      destruct (decide (i = j)) as [<-|]; naive_solver.
    + intros k a b Ha Hab. destruct (decide (k < length ord)) as [Hk|Hk].
      * rewrite lookup_app_l in Ha by done. destruct (Ht k a b Ha Hab) as (k' & ? & Hk').
        exists k'. split; [done|]. by apply lookup_app_l_Some.
      * pose proof (lookup_lt_Some _ _ _ Ha) as Hk2. rewrite length_app in Hk2. simpl in Hk2.
        rewrite lookup_app_r in Ha by lia.
        replace (k - length ord) with 0 in Ha by lia. injection Ha as <-.
        specialize (Hsucc b Hab). apply Hord, list_elem_of_lookup in Hsucc as [k' Hk'].
        exists k'. split; [apply lookup_lt_Some in Hk'; lia|]. by apply lookup_app_l_Some.
Qed.

Lemma removelast_snoc {A} (l : list A) x : removelast (l ++ [x]) = l.
Proof. rewrite removelast_app by done. simpl. by rewrite app_nil_r. Qed.

(** The invariant of the loop over the references of step [i]. *)
Definition visit_loop_inv (i : nat) (states0 : list (option Visit)) (stack : list nat)
    (vs : VisitState) : Prop :=
  vs.2 = stack ++ [i] /\ search_inv vs.1 (stack ++ [i])
  /\ (forall j, complete states0 j -> complete vs.1 j) /\ unvisited vs.1 <= unvisited states0.
Definition reference_complete (reference : string) (vs : VisitState) : Prop :=
  exists j, step_indices !! reference = Some j /\ complete vs.1 j.

Ltac spec_loop H :=
  match type of H with ?P -> _ =>
    let H' := fresh in assert (H' : P); [|specialize (H H'); clear H'] end.

(** One iteration of the loop over the references of step [i]: the recursive
    call keeps the loop invariant and completes the referenced step. *)
Lemma visit_reference fuel i step states0 stack reference vs :
  resolves -> steps !! i = Some step -> reference ∈ references step ->
  (forall j sts stk, search_inv sts stk -> j < length steps -> unvisited sts < fuel ->
     (forall a, last stk = Some a -> edge a j) ->
     visit_post j sts stk (visit fuel steps step_indices j (sts, stk))) ->
  unvisited states0 < fuel -> visit_loop_inv i states0 stack vs ->
  match (let? target := or_panic (step_indices !! reference) in
         visit fuel steps step_indices target vs) with
  | Ok vs' => visit_loop_inv i states0 stack vs' /\ reference_complete reference vs'
              /\ (forall y, reference_complete y vs -> reference_complete y vs')
  | Err _ => exists c, tc edge c c
  | Panic => False
  end.
Proof.
  intros Hr Hstep Href IH Hfuel. destruct vs as [sts stk]. intros (Hstk & Hv & Hmono & Hle).
  simpl in *. subst stk. destruct (Hr i step reference Hstep Href) as (j & Hj & Hjl).
  rewrite Hj. simpl.
  assert (Hpost : visit_post j sts (stack ++ [i])
                    (visit fuel steps step_indices j (sts, stack ++ [i]))).
  { apply IH; [done|done|lia|]. intros a. rewrite last_snoc. intros [= <-].
    exists step, reference. done. }
  unfold visit_post in Hpost.
  destruct (visit fuel steps step_indices j (sts, stack ++ [i])) as [[s' k']|e'|]; [|done|done].
  destruct Hpost as (-> & Hi2 & Hc & Hm & Hle2).
  split_and!; [split_and!; simpl; auto; lia|by exists j|].
  intros y (j' & ? & ?). exists j'. auto.
Qed.

(** Leaving step [i] once all its references are complete. *)
Lemma visit_leave i step states states' stack :
  steps !! i = Some step -> states !! i = Some None -> i ∉ stack ->
  visit_loop_inv i (<[i := Some Visiting]> states) stack (states', stack ++ [i]) ->
  (forall reference, reference ∈ references step ->
     reference_complete reference (states', stack ++ [i])) ->
  visit_post i states stack (Ok (<[i := Some Complete]> states', stack)).
Proof.
  intros Hstep Hst Hni (_ & Hv & Hmono & Hle) Hall. simpl in *.
  assert (Hvi : visiting states' i) by (apply (si_stack _ _ Hv); set_solver).
  pose proof (lookup_lt_Some _ _ _ Hvi) as Hlt. pose proof (lookup_lt_Some _ _ _ Hst) as Hlt0.
  pose proof (unvisited_insert states i Visiting None Hst) as Hcount.
  pose proof (unvisited_insert states' i Complete _ Hvi) as Hcount2.
  simpl in Hcount, Hcount2. split_and!; [done| | | |lia].
  - apply search_inv_leave; [done|done|]. intros j (step' & reference & Hs & Href & Hj).
    rewrite Hstep in Hs. injection Hs as <-.
    destruct (Hall reference Href) as (j' & Hj' & Hc). simpl in Hc. congruence.
  - apply complete_insert; auto.
  - intros j Hj. assert (Hji : j <> i) by (intros ->; unfold complete in Hj; congruence).
    apply complete_insert; [done|]. right. split; [done|].
    apply Hmono, complete_insert; [done|]. by right.
Qed.

Lemma visit_spec fuel i states stack :
  resolves -> search_inv states stack -> i < length steps -> unvisited states < fuel ->
  (forall a, last stack = Some a -> edge a i) ->
  visit_post i states stack (visit fuel steps step_indices i (states, stack)).
Proof.
  intros Hr. revert i states stack.
  induction fuel as [|fuel IH]; intros i states stack Hinv Hi Hfuel Hlast; [lia|]. simpl.
  destruct (lookup_lt_is_Some_2 states i) as [st Hst]; [by rewrite (si_length _ _ Hinv)|].
  rewrite Hst. simpl. destruct st as [[]|].
  - destruct (cycle_error_spec i states stack Hr Hinv Hst Hlast) as [e ->]. simpl.
    by eapply visiting_cycle.
  - simpl. split_and!; auto.
  - destruct (lookup_lt_is_Some_2 _ _ Hi) as [step Hstep]. rewrite Hstep. simpl.
    pose proof (unvisited_insert states i Visiting None Hst) as Hcount. simpl in Hcount.
    set (states0 := <[i := Some Visiting]> states) in *.
    assert (Hless : unvisited states0 < fuel) by lia.
    assert (Hni : i ∉ stack).
    { intros Hin. apply (si_stack _ _ Hinv) in Hin. unfold visiting in Hin. congruence. }
    pose proof (fold_res_spec _ (visit_loop_inv i states0 stack) reference_complete _
      (references step) (states0, stack ++ [i])
      (fun reference vs Href => visit_reference fuel i step states0 stack reference vs
         Hr Hstep Href IH Hless)) as Hfold.
    spec_loop Hfold.
    { split_and!; simpl; auto. by apply search_inv_enter. }
    destruct (fold_res _ _ _) as [[states' stack']|e|]; simpl; [|done|done].
    destruct Hfold as (Hloop & Hall & _). pose proof Hloop as (Hstk & _). simpl in Hstk. subst stack'.
    rewrite removelast_snoc. by eapply visit_leave.
Qed.

(** The search visits every step. *)
Lemma validate_acyclic_spec :
  resolves ->
  match validate_acyclic steps step_indices with
  | Ok _ => exists ord, topological ord /\ forall i, i < length steps -> i ∈ ord
  | Err _ => exists c, tc edge c c
  | Panic => False
  end.
Proof.
  intros Hr. unfold validate_acyclic.
  pose proof (fold_res_spec
    (fun step_index vs => visit (S (length steps)) steps step_indices step_index vs)
    (fun vs => vs.2 = [] /\ search_inv vs.1 [])
    (fun i vs => complete vs.1 i) (exists c, tc edge c c)
    (seq 0 (length steps)) (replicate (length steps) None, [])) as Hfold.
  spec_loop Hfold.
  { intros i [sts stk] Hi%elem_of_seq (Hstk & Hinv). cbn [fst snd] in *. subst stk.
    pose proof (unvisited_le sts) as Hu. rewrite (si_length _ _ Hinv) in Hu.
    pose proof (visit_spec (S (length steps)) i sts [] Hr Hinv ltac:(lia) ltac:(lia)
                  ltac:(intros a; discriminate)) as Hpost.
    unfold visit_post in Hpost.
    destruct (visit _ _ _ _ _) as [[s' k']|e'|]; [|done|done].
    destruct Hpost as (-> & Hi2 & Hc & Hm & _). split_and!; auto. }
  spec_loop Hfold.
  { simpl. split; [done|]. split; simpl.
    - apply length_replicate.
    - intros i. unfold visiting. split; [|by intros ?%not_elem_of_nil].
      intros [H _]%lookup_replicate. discriminate.
    - intros k a b Ha. discriminate.
    - exists []. split; [|intros k i j Hk; discriminate]. intros i. split; [by intros ?%not_elem_of_nil|].
      unfold complete. intros [H _]%lookup_replicate. discriminate. }
  destruct (fold_res _ _ _) as [[states' stack']|e|]; [|done|done].
  destruct Hfold as ((_ & Hinv) & Hall & _). simpl in *.
  destruct (si_order _ _ Hinv) as (ord & Hord & Ht). exists ord. split; [done|].
  intros i Hi. apply Hord, Hall. apply elem_of_seq. lia.
Qed.

(** A topological order of all the steps is a rank function. *)
Definition rank_in (ord : list nat) (i : nat) : nat :=
  default 0 (position (fun j => j =? i) ord).

Lemma position_first {A} (p : A -> bool) l k x :
  l !! k = Some x -> p x = true -> exists k', k' <= k /\ position p l = Some k'.
Proof.
  revert k. induction l as [|y l IH]; intros k Hk Hp; simpl; [discriminate|].
  destruct (p y) eqn:Ep; [exists 0; split; [lia|done]|].
  destruct k as [|k]; simpl in Hk; [congruence|].
  destruct (IH k Hk Hp) as (k' & ? & ->). exists (S k'). split; [lia|done].
Qed.

Lemma position_Some {A} (p : A -> bool) l k :
  position p l = Some k -> exists x, l !! k = Some x /\ p x = true.
Proof.
  revert k. induction l as [|y l IH]; intros k; simpl; [discriminate|].
  destruct (p y) eqn:Ep; [intros [= <-]; eauto|].
  destruct (position p l) as [k'|]; [|discriminate]. intros [= <-]. by apply IH.
Qed.

Lemma rank_decreases ord i j :
  topological ord -> i ∈ ord -> edge i j -> rank_in ord j < rank_in ord i.
Proof.
  intros Ht [k Hk]%list_elem_of_lookup He. unfold rank_in.
  destruct (position_first (fun x => x =? i) ord k i Hk) as (k1 & _ & E1); [apply Nat.eqb_refl|].
  rewrite E1. simpl. apply position_Some in E1 as (x & Hx & Hxi).
  apply Nat.eqb_eq in Hxi as ->. destruct (Ht k1 i j Hx He) as (k2 & Hlt & Hk2).
  destruct (position_first (fun x => x =? j) ord k2 j Hk2) as (k3 & Hle & ->); [apply Nat.eqb_refl|].
  simpl. lia.
Qed.

Lemma ranked_acyclic (rank : nat -> nat) :
  (forall i j, edge i j -> rank j < rank i) -> acyclic.
Proof.
  intros Hrank i Hi.
  assert (Hlt : forall a b, tc edge a b -> rank b < rank a).
  { induction 1 as [a b Hab|a b c Hab _ IH]; [auto|]. specialize (Hrank a b Hab). lia. }
  specialize (Hlt i i Hi). lia.
Qed.

Lemma validate_acyclic_rank :
  resolves -> validate_acyclic steps step_indices = Ok tt ->
  exists rank : nat -> nat, forall i j, edge i j -> rank j < rank i.
Proof.
  intros Hr Hok. pose proof (validate_acyclic_spec Hr) as H. rewrite Hok in H.
  destruct H as (ord & Ht & Hall). exists (rank_in ord). intros i j He.
  apply rank_decreases; [done| |done]. apply Hall. by eapply edge_lt.
Qed.

End graph.

(** ** Properties *)

(** C36: when every reference names a step, the depth-first search of
    [validate_acyclic] terminates without an out-of-range access and accepts
    exactly the acyclic dependency graphs: it returns [Ok] if and only if no
    step transitively depends on itself, and an error if and only if some step
    does. *)
Theorem validate_acyclic_correct steps step_indices :
  resolves steps step_indices ->
  (validate_acyclic steps step_indices = Ok tt <-> acyclic steps step_indices)
  /\ ((exists e, validate_acyclic steps step_indices = Err e)
      <-> exists i, tc (edge steps step_indices) i i)
  /\ validate_acyclic steps step_indices <> Panic.
Proof.
  intros Hr. pose proof (validate_acyclic_spec steps step_indices Hr) as H.
  pose proof (fun Hok => validate_acyclic_rank steps step_indices Hr Hok) as Hrank.
  destruct (validate_acyclic steps step_indices) as [[]|e|]; [| |done].
  - destruct (Hrank eq_refl) as [rank Hdec]. apply ranked_acyclic in Hdec.
    split_and!; [done| |done].
    split; [intros [e ?]; discriminate|]. intros [i Hi]. by destruct (Hdec i).
  - split_and!; [|split; eauto|done]. split; [discriminate|].
    intros Ha. destruct H as [i Hi]. by destruct (Ha i).
Qed.
