(* ===== verification/FlowValid.v ===== *)
(** * What a validated flow definition guarantees

    [definition_validate] never panics, and its success gives the facts the
    engine relies on: unique step identities, references that resolve and never
    to the step itself, bounded retries and timeouts, approval and idempotency
    keys on every stateful step, and a ranked dependency graph. *)

From S2P Require Import Prelude FlowDef FlowGraph.
From stdpp Require Import relations.

Local Open Scope Z_scope.

(** ** The texts: success does not depend on the reported path *)

Ltac split_res H :=
  repeat (match type of H with
          | context [match ?x with _ => _ end] =>
            lazymatch type of x with
            | res _ _ => let E := fresh "E" in destruct x eqn:E; try discriminate H
            | bool => let E := fresh "E" in destruct x eqn:E; try discriminate H
            end
          end).

Lemma reject_secret_like_path p q v :
  reject_secret_like p v = Ok tt -> reject_secret_like q v = Ok tt.
Proof. unfold reject_secret_like. by destruct (_ || _). Qed.

Lemma validate_text_path p q v m : validate_text p v m = Ok tt -> validate_text q v m = Ok tt.
Proof.
  unfold validate_text. destruct (str_is_empty v), (len v >? m), (existsb is_control (chars v)),
    (negb (is_trimmed v)); try discriminate. apply reject_secret_like_path.
Qed.

Lemma validate_slug_path p q v m : validate_slug p v m = Ok tt -> validate_slug q v m = Ok tt.
Proof.
  unfold validate_slug. destruct (validate_text p v m) as [[]| |] eqn:E; try discriminate.
  rewrite (validate_text_path p q v m E). by destruct (slug_loop _ _ _ _).
Qed.

(** ** No panics *)

Create HintDb nopanic.

Lemma reject_secret_like_total p v : reject_secret_like p v <> Panic.
Proof. unfold reject_secret_like. by destruct (_ || _). Qed.
#[export] Hint Resolve reject_secret_like_total : nopanic.

Lemma validate_text_total p v m : validate_text p v m <> Panic.
Proof. unfold validate_text. repeat (destruct (_ : bool); [done|]). auto with nopanic. Qed.
#[export] Hint Resolve validate_text_total : nopanic.

(** A panic of [let? x := m in k] is a panic of [m] or of [k]. *)
Lemma bind_total {E A B} (m : res E A) (k : A -> res E B) :
  m <> Panic -> (forall a, m = Ok a -> k a <> Panic) -> (let? x := m in k x) <> Panic.
Proof. destruct m; auto; discriminate. Qed.

Ltac no_panic :=
  repeat match goal with
  | |- (match ?m with Ok _ => _ | Err e => Err e | Panic => Panic end) <> Panic =>
      apply bind_total; [|intros ? ?]
  | |- (if ?b then _ else _) <> Panic => destruct b
  | |- validation_error _ _ <> Panic => done
  | |- Ok _ <> Panic => done
  | |- (match ?o with Some _ => _ | None => _ end) <> Panic => destruct o
  end; auto with nopanic.

Lemma validate_slug_total p v m : validate_slug p v m <> Panic.
Proof. unfold validate_slug. no_panic. Qed.
Lemma validate_identity_total p v m : validate_identity p v m <> Panic.
Proof. unfold validate_identity. no_panic. Qed.
Lemma validate_command_name_total p v : validate_command_name p v <> Panic.
Proof. unfold validate_command_name. no_panic. Qed.
Lemma validate_working_directory_total p v : validate_working_directory p v <> Panic.
Proof. unfold validate_working_directory. no_panic. Qed.
Lemma validate_resource_id_total p v : validate_resource_id p v <> Panic.
Proof. unfold validate_resource_id. no_panic. Qed.
Lemma validate_dotted_name_total p v l : validate_dotted_name p v l <> Panic.
Proof. unfold validate_dotted_name. no_panic. Qed.
#[export] Hint Resolve validate_slug_total validate_identity_total validate_command_name_total
  validate_working_directory_total validate_resource_id_total validate_dotted_name_total : nopanic.

Lemma iter_res_total {E A} (f : A -> res E unit) l :
  (forall x, f x <> Panic) -> iter_res f l <> Panic.
Proof. intros Hf. induction l as [|x l IH]; simpl; no_panic. Qed.

Lemma sensitive_total p v : reject_sensitive_argument_name p v <> Panic.
Proof. unfold reject_sensitive_argument_name. no_panic. Qed.
#[export] Hint Resolve sensitive_total : nopanic.

Lemma action_validate_total a p : action_validate a p <> Panic.
Proof.
  destruct a; simpl; unfold resource_validate, validate_connector_name, validate_capability_name;
    no_panic.
  apply iter_res_total. intros [i v]. no_panic.
Qed.

Lemma retry_validate_total r p : retry_validate r p <> Panic.
Proof. unfold retry_validate. no_panic. Qed.
#[export] Hint Resolve action_validate_total retry_validate_total : nopanic.

Lemma validate_dependencies_total base id m n seen deps :
  validate_dependencies base id m n seen deps <> Panic.
Proof.
  revert n seen. induction deps as [|x deps IH]; intros n seen; simpl; no_panic.
Qed.
#[export] Hint Resolve validate_dependencies_total : nopanic.

Lemma validate_condition_total base id m c : validate_condition base id m c <> Panic.
Proof. unfold validate_condition. no_panic. Qed.

Lemma validate_stateful_total s base : validate_stateful s base <> Panic.
Proof. unfold validate_stateful. destruct (fs_effect s); no_panic. Qed.

Lemma validate_semantic_total s base v : v = 1 \/ v = 2 -> validate_semantic s base v <> Panic.
Proof.
  unfold validate_semantic. intros [-> | ->]; destruct (fs_semantic s) eqn:E; simpl; try done;
    unfold semantic_role; rewrite ?E; destruct (fs_effect s); try done; by destruct s0.
Qed.
#[export] Hint Resolve validate_condition_total validate_stateful_total
  validate_semantic_total : nopanic.

Lemma step_validate_total s i v m : v = 1 \/ v = 2 -> step_validate s i v m <> Panic.
Proof. intros Hv. unfold step_validate. no_panic. Qed.

Lemma index_steps_total n steps m : index_steps n steps m <> Panic.
Proof. revert n m. induction steps as [|s steps IH]; intros n m; simpl; no_panic. Qed.

Lemma outcome_validate_total o : outcome_validate o <> Panic.
Proof. unfold outcome_validate, validate_template. no_panic. Qed.
#[export] Hint Resolve step_validate_total index_steps_total outcome_validate_total : nopanic.

(** ** The step index *)

Lemma index_steps_spec n steps m0 m :
  index_steps n steps m0 = Ok m ->
  (forall r j, m0 !! r = Some j -> (j < n)%nat) ->
  (forall s p, s ∈ steps -> validate_slug p (fs_id s) MAX_FLOW_ID_BYTES = Ok tt) /\
  (forall s, s ∈ steps -> m0 !! fs_id s = None) /\
  NoDup (fs_id <$> steps) /\
  (forall r j, m !! r = Some j <->
     m0 !! r = Some j \/ exists k s, j = (n + k)%nat /\ steps !! k = Some s /\ fs_id s = r).
Proof.
  revert n m0. induction steps as [|s steps IH]; intros n m0 H Hlt; cbn [index_steps] in H.
  - injection H as <-. split_and!; [by intros ? ? ?%not_elem_of_nil|by intros ? ?%not_elem_of_nil|
      constructor|]. intros r j. split; [auto|]. intros [?|(k & t & _ & Hk & _)]; [done|discriminate].
  - destruct (validate_slug _ (fs_id s) MAX_FLOW_ID_BYTES) as [[]| |] eqn:Es; try discriminate.
    destruct (m0 !! fs_id s) eqn:Em; [discriminate|].
    destruct (IH (S n) (<[fs_id s := n]> m0) H) as (Hslug & Hfresh & Hnd & Hm).
    { intros r j. rewrite lookup_insert. case_decide; [intros [= <-]; lia|].
      intros Hj. specialize (Hlt r j Hj). lia. }
    assert (Hne : forall t, t ∈ steps -> fs_id s <> fs_id t /\ m0 !! fs_id t = None).
    { intros t Ht. specialize (Hfresh t Ht). rewrite lookup_insert in Hfresh.
      case_decide; [discriminate|]. done. }
    split_and!.
    + intros t p [->|Ht]%elem_of_cons; [|auto]. by eapply validate_slug_path.
    + intros t [->|Ht]%elem_of_cons; [done|]. by apply Hne.
    + simpl. constructor; [|done]. intros (t & Heq & Ht)%list_elem_of_fmap.
      by destruct (Hne t Ht).
    + intros r j. rewrite Hm, lookup_insert. split.
      * intros [Hj|(k & t & -> & Hk & Ht)].
        -- case_decide as Ed; [|auto]. injection Hj as <-. right. exists 0%nat, s.
           split_and!; [lia|done|done].
        -- right. exists (S k), t. split_and!; [lia|done|done].
      * intros [Hj|([|k] & t & -> & Hk & Ht)].
        -- left. case_decide as Ed; [|done]. congruence.
        -- injection Hk as <-. left. rewrite decide_True by done. f_equal. lia.
        -- right. exists k, t. split_and!; [lia|done|done].
Qed.

Lemma validate_dependencies_spec base id m n seen deps :
  validate_dependencies base id m n seen deps = Ok tt ->
  NoDup deps /\ (forall r, r ∈ deps -> is_Some (m !! r) /\ r <> id /\ r ∉ seen).
Proof.
  revert n seen. induction deps as [|x deps IH]; intros n seen H; cbn [validate_dependencies] in H.
  - split; [constructor|by intros ? ?%not_elem_of_nil].
  - destruct (validate_slug _ x MAX_FLOW_ID_BYTES) as [[]| |]; try discriminate.
    destruct (m !! x) eqn:Em; [|discriminate].
    destruct (String.eqb_spec x id) as [|Hne]; [discriminate|].
    case_bool_decide as Hs; [discriminate|].
    apply IH in H as [Hnd Hall]. split.
    + constructor; [|done]. intros Hx. specialize (Hall x Hx). set_solver.
    + intros r [->|Hr]%elem_of_cons; [done|]. specialize (Hall r Hr). set_solver.
Qed.

(** ** Facts of one validated step

    [typed_step] is what the Rust types of the fields already say. *)

Record typed_step (s : FlowStep) : Prop := {
  ts_timeout : 0 <= fs_timeout_seconds s < 4294967296;
  ts_attempts : 0 <= max_attempts (fs_retry s) <= u8_max;
  ts_initial : 0 <= initial_backoff_ms (fs_retry s) <= u64_max;
  ts_maximum : 0 <= max_backoff_ms (fs_retry s) <= u64_max
}.
Definition typed_definition (d : FlowDefinition) : Prop := Forall typed_step (fd_steps d).

Record valid_step (m : gmap string nat) (s : FlowStep) : Prop := {
  vs_timeout : 1 <= fs_timeout_seconds s <= MAX_TIMEOUT_SECONDS;
  vs_attempts : 1 <= max_attempts (fs_retry s) <= MAX_RETRY_ATTEMPTS;
  vs_backoff : max_attempts (fs_retry s) <> 1 ->
    1 <= initial_backoff_ms (fs_retry s) <= MAX_INITIAL_BACKOFF_MS /\
    initial_backoff_ms (fs_retry s) <= max_backoff_ms (fs_retry s) <= MAX_BACKOFF_MS;
  vs_no_backoff : max_attempts (fs_retry s) = 1 ->
    initial_backoff_ms (fs_retry s) = 0 /\ max_backoff_ms (fs_retry s) = 0;
  vs_dependencies : NoDup (fs_depends_on s);
  vs_references : forall r, r ∈ references s -> is_Some (m !! r) /\ r <> fs_id s;
  vs_stateful : fs_effect s = Stateful ->
    fs_approval s = ModeRequired /\ is_Some (fs_idempotency_key s) /\ semantic_role s = Change;
  vs_read_only : fs_effect s = ReadOnly -> semantic_role s <> Change
}.

Lemma retry_validate_spec r p :
  0 <= max_attempts r -> 0 <= initial_backoff_ms r ->
  retry_validate r p = Ok tt ->
  1 <= max_attempts r <= MAX_RETRY_ATTEMPTS /\
  (max_attempts r <> 1 -> 1 <= initial_backoff_ms r <= MAX_INITIAL_BACKOFF_MS /\
     initial_backoff_ms r <= max_backoff_ms r <= MAX_BACKOFF_MS) /\
  (max_attempts r = 1 -> initial_backoff_ms r = 0 /\ max_backoff_ms r = 0).
Proof.
  unfold retry_validate, MAX_RETRY_ATTEMPTS, MAX_INITIAL_BACKOFF_MS, MAX_BACKOFF_MS.
  intros Ht1 Ht2 H. split_res H; split_and!; lia.
Qed.

Lemma step_references_resolve s i v m r :
  step_validate s i v m = Ok tt -> r ∈ references s -> is_Some (m !! r) /\ r <> fs_id s.
Proof.
  intros H. unfold step_validate in H.
  destruct (validate_text _ _ _) as [[]| |]; try discriminate.
  destruct (_ || _) eqn:Et; [discriminate|].
  destruct (retry_validate _ _) as [[]| |]; try discriminate.
  destruct (validate_dependencies _ _ _ _ _ _) as [[]| |] eqn:Ed; try discriminate.
  destruct (validate_condition _ _ _ _) as [[]| |] eqn:Ec; try discriminate. clear H.
  apply validate_dependencies_spec in Ed as [_ Hdep].
  intros [Hr|Hr]%elem_of_app; [destruct (Hdep r Hr) as (? & ? & _); done|].
  unfold validate_condition in Ec. destruct (referenced_step (fs_condition s)) as [x|];
    [|by apply not_elem_of_nil in Hr]. apply list_elem_of_singleton in Hr as ->.
  destruct (validate_slug _ _ _) as [[]| |]; try discriminate.
  destruct (m !! x) eqn:Ex; [|discriminate].
  destruct (String.eqb_spec x (fs_id s)); [discriminate|]. eauto.
Qed.

Lemma step_validate_spec s i v m :
  typed_step s -> v = 1 \/ v = 2 -> step_validate s i v m = Ok tt -> valid_step m s.
Proof.
  intros [Ht Ha Hi _] Hv H.
  pose proof (fun r => step_references_resolve s i v m r H) as Href. unfold step_validate in H.
  destruct (validate_text _ _ _) as [[]| |]; try discriminate.
  destruct (_ || _) eqn:Et; [discriminate|].
  destruct (retry_validate _ _) as [[]| |] eqn:Er; try discriminate.
  destruct (validate_dependencies _ _ _ _ _ _) as [[]| |] eqn:Ed; try discriminate.
  destruct (validate_condition _ _ _ _) as [[]| |] eqn:Ec; try discriminate.
  destruct (validate_stateful _ _) as [[]| |] eqn:Es; try discriminate.
  destruct (validate_semantic _ _ _) as [[]| |] eqn:Em; try discriminate. clear H.
  apply retry_validate_spec in Er as (Hr1 & Hr2 & Hr3); [|lia..].
  apply validate_dependencies_spec in Ed as [Hnd Hdep].
  assert (Hsem : match fs_effect s, semantic_role s with
                 | ReadOnly, Change | Stateful, (Observe | Verify) => False | _, _ => True end).
  { unfold validate_semantic in Em. destruct Hv as [-> | ->]; simpl in Em;
      destruct (fs_semantic s), (fs_effect s), (semantic_role s); done. }
  split; auto.
  - unfold MAX_TIMEOUT_SECONDS in *. lia.
  - intros He. unfold validate_stateful in Es. rewrite He in Es, Hsem.
    case_bool_decide; [|discriminate]. destruct (fs_idempotency_key s); [|discriminate].
    destruct (semantic_role s); naive_solver.
  - intros He Hc. by rewrite He, Hc in Hsem.
Qed.

(** ** Facts of a validated definition *)

(** The position of a step identity, as the engine looks it up. *)
Definition step_position (steps : list FlowStep) (id : string) : option nat :=
  position (fun candidate => String.eqb (fs_id candidate) id) steps.

Lemma step_position_Some steps id j :
  NoDup (fs_id <$> steps) ->
  step_position steps id = Some j <-> exists s, steps !! j = Some s /\ fs_id s = id.
Proof.
  intros Hnd. unfold step_position. split.
  - intros (s & Hs & He)%position_Some. apply String.eqb_eq in He. eauto.
  - intros (s & Hs & He).
    destruct (position_first (fun c => String.eqb (fs_id c) id) steps j s Hs) as (k & Hk & Hp);
      [by apply String.eqb_eq|]. rewrite Hp. f_equal.
    apply position_Some in Hp as (t & Ht & Het). apply String.eqb_eq in Het.
    apply (NoDup_lookup (fs_id <$> steps) k j id Hnd); rewrite list_lookup_fmap;
      [by rewrite Ht, <-Het|by rewrite Hs, <-He].
Qed.

Record valid_definition (d : FlowDefinition) : Prop := {
  vd_schema : fd_schema_version d = 1 \/ fd_schema_version d = 2;
  vd_steps : (1 <= length (fd_steps d))%nat /\ Z.of_nat (length (fd_steps d)) <= MAX_FLOW_STEPS;
  vd_slug : forall s p, s ∈ fd_steps d -> validate_slug p (fs_id s) MAX_FLOW_ID_BYTES = Ok tt;
  vd_nodup : NoDup (fs_id <$> fd_steps d);
  vd_step : exists m, (forall r j, m !! r = Some j <-> step_position (fd_steps d) r = Some j) /\
    (forall s, s ∈ fd_steps d -> valid_step m s) /\
    resolves (fd_steps d) m /\ validate_acyclic (fd_steps d) m = Ok tt
}.

Lemma elem_of_enumerate_from {A} n (l : list A) k x :
  l !! k = Some x -> (n + k, x)%nat ∈ enumerate_from n l.
Proof.
  revert n k. induction l as [|y l IH]; intros n [|k] H; simpl in *; try discriminate.
  - injection H as ->. rewrite Nat.add_0_r. set_solver.
  - apply elem_of_cons. right. specialize (IH (S n) k H). by rewrite Nat.add_succ_r.
Qed.

Lemma iter_res_Ok {E A} (f : A -> res E unit) l :
  iter_res f l = Ok tt <-> forall x, x ∈ l -> f x = Ok tt.
Proof.
  induction l as [|x l IH]; simpl.
  - split; [by intros _ ? ?%not_elem_of_nil|done].
  - split.
    + destruct (f x) as [[]| |] eqn:Ef; try discriminate. rewrite IH.
      intros H y [->|Hy]%elem_of_cons; auto.
    + intros H. rewrite (H x) by set_solver. apply IH. set_solver.
Qed.

Lemma index_steps_position steps m :
  index_steps 0 steps ∅ = Ok m ->
  forall r j, m !! r = Some j <-> step_position steps r = Some j.
Proof.
  intros Ei. apply index_steps_spec in Ei as (_ & _ & Hnd & Hm);
    [|intros r j Hj; by rewrite lookup_empty in Hj].
  intros r j. rewrite Hm, step_position_Some by done. rewrite lookup_empty. simpl.
  split; [intros [?|(k & s & -> & ? & ?)]; [discriminate|eauto]|].
  intros (s & ? & ?). right. eauto.
Qed.

Lemma steps_resolve steps v m :
  (forall r j, m !! r = Some j <-> step_position steps r = Some j) ->
  iter_res (fun '(index, step) => step_validate step index v m) (enumerate steps) = Ok tt ->
  resolves steps m.
Proof.
  intros Hm Es i s r Hs Hr. rewrite iter_res_Ok in Es.
  specialize (Es (i, s) (elem_of_enumerate_from 0 _ i s Hs)). simpl in Es.
  destruct (step_references_resolve _ _ _ _ _ Es Hr) as [[j Hj] _]. exists j. split; [done|].
  apply Hm, position_Some in Hj as (t & Ht & _). by eapply lookup_lt_Some.
Qed.

Lemma definition_validate_spec d :
  typed_definition d -> definition_validate d = Ok tt -> valid_definition d.
Proof.
  intros Hty H. unfold definition_validate in H.
  destruct (negb _) eqn:Ev; [discriminate|].
  destruct (validate_slug _ _ _) as [[]| |]; try discriminate.
  do 2 (destruct (validate_text _ _ _) as [[]| |]; try discriminate).
  destruct (fd_revision d =? 0); [discriminate|].
  case_bool_decide as Hne; [discriminate|].
  destruct (_ >? MAX_FLOW_STEPS) eqn:El; [discriminate|].
  destruct (outcome_validate _) as [[]| |]; try discriminate.
  destruct (index_steps 0 (fd_steps d) ∅) as [m| |] eqn:Ei; try discriminate.
  destruct (iter_res _ _) as [[]| |] eqn:Es; try discriminate.
  assert (Hv : fd_schema_version d = 1 \/ fd_schema_version d = 2).
  { unfold MIN_FLOW_SCHEMA_VERSION, FLOW_SCHEMA_VERSION in Ev. lia. }
  pose proof (index_steps_position _ _ Ei) as Hm'.
  apply index_steps_spec in Ei as (Hslug & _ & Hnd & _);
    [|intros r j Hj; by rewrite lookup_empty in Hj].
  assert (Hstep : forall s, s ∈ fd_steps d -> valid_step m s).
  { intros s [k Hk]%list_elem_of_lookup. rewrite iter_res_Ok in Es.
    specialize (Es (k, s) (elem_of_enumerate_from 0 _ k s Hk)). simpl in Es.
    eapply step_validate_spec; [|exact Hv|exact Es].
    unfold typed_definition in Hty. rewrite Forall_lookup in Hty. eauto. }
  split; auto; [lia|]. exists m. split_and!; auto.
  eapply steps_resolve; [exact Hm'|exact Es].
Qed.

(** The rank of a validated definition: every reference goes to a step of a
    smaller rank. *)
Lemma valid_definition_rank d :
  valid_definition d ->
  exists rank : nat -> nat, forall i j s r,
    fd_steps d !! i = Some s -> r ∈ references s -> step_position (fd_steps d) r = Some j ->
    (rank j < rank i)%nat.
Proof.
  intros [_ _ _ _ (m & Hm & _ & Hr & Ha)].
  destruct (validate_acyclic_rank _ _ Hr Ha) as [rank Hrank]. exists rank.
  intros i j s r Hs Href Hj. apply Hrank. exists s, r. split_and!; [done|done|by apply Hm].
Qed.

(** ** Properties *)

(** Validation of a flow definition never panics: the [unreachable!] arm,
    the map indexing of [validate_acyclic] and its recursion are all safe. *)
Theorem definition_validate_no_panic (d : FlowDefinition) :
  definition_validate d <> Panic.
Proof.
  unfold definition_validate. destruct (negb _) eqn:Ev; [done|].
  assert (Hv : fd_schema_version d = 1 \/ fd_schema_version d = 2).
  { unfold MIN_FLOW_SCHEMA_VERSION, FLOW_SCHEMA_VERSION in Ev. lia. }
  no_panic.
  - apply iter_res_total. intros [i s]. by apply step_validate_total.
  - rename select (index_steps _ _ _ = Ok _) into Ei. rename select (iter_res _ _ = Ok _) into Es.
    match type of Es with _ = Ok ?u => destruct u end. pose proof (validate_acyclic_spec _ _
      (steps_resolve _ _ _ (index_steps_position _ _ Ei) Es)) as Hspec.
    by destruct (validate_acyclic _ _).
Qed.

(** A definition that validates is safe to run: step identities are
    distinct; every step has a bounded timeout and retry budget with a backoff
    window when it retries; every stateful step requires an approval, has an
    idempotency key and is reported as a change, and no read-only step is;
    every reference names another step of the flow; and the steps can be ranked
    so that each depends only on steps of a smaller rank. *)
Theorem validated_definition_safe (d : FlowDefinition) :
  typed_definition d -> definition_validate d = Ok tt ->
  NoDup (fs_id <$> fd_steps d) /\
  (forall s, s ∈ fd_steps d ->
     1 <= fs_timeout_seconds s <= 3600 /\
     1 <= max_attempts (fs_retry s) <= 5 /\
     (1 < max_attempts (fs_retry s) ->
        1 <= initial_backoff_ms (fs_retry s) <= max_backoff_ms (fs_retry s) /\
        max_backoff_ms (fs_retry s) <= 300000) /\
     (fs_effect s = Stateful ->
        fs_approval s = ModeRequired /\ is_Some (fs_idempotency_key s)) /\
     (semantic_role s = Change <-> fs_effect s = Stateful) /\
     (forall r, r ∈ references s -> exists j t,
        fd_steps d !! j = Some t /\ fs_id t = r /\ r <> fs_id s)) /\
  exists rank : nat -> nat, forall i j s t,
    fd_steps d !! i = Some s -> fd_steps d !! j = Some t -> fs_id t ∈ references s ->
    (rank j < rank i)%nat.
Proof.
  intros Hty Hok. pose proof (definition_validate_spec d Hty Hok) as Hd.
  destruct (valid_definition_rank d Hd) as [rank Hrank].
  destruct Hd as [_ _ _ Hnd (m & Hm & Hstep & _)]. split_and!; [done| |].
  - intros s Hs. destruct (Hstep s Hs) as [V1 V2 V3 V4 V5 V6 V7 V8].
    unfold MAX_TIMEOUT_SECONDS, MAX_RETRY_ATTEMPTS, MAX_BACKOFF_MS in *.
    split_and!; [lia|lia|lia|lia| | | |].
    + intros Hb. destruct V3; lia.
    + intros He. destruct (V7 He) as (? & ? & _). done.
    + split; [|intros He; by destruct (V7 He) as (_ & _ & ?)].
      intros Hc. destruct (fs_effect s); [by destruct (V8 eq_refl)|done].
    + intros r Hr. destruct (V6 r Hr) as [[j Hj] Hne].
      apply Hm, (step_position_Some _ _ _ Hnd) in Hj as (t & Ht & <-). eauto.
  - exists rank. intros i j s t Hs Ht Href. eapply Hrank; [exact Hs|exact Href|].
    apply step_position_Some; eauto.
Qed.
