(* ===== verification/FlowData.v ===== *)
(** * Data of a flow run ([pam_flow/src/engine.rs])

    Identities, effect reports and results, step and run states, snapshots,
    transitions and decisions, with their validation; the outcome report of a
    finished run and the semantic events of a transition. *)

From S2P Require Import Prelude FlowDef.

Local Open Scope Z_scope.

Definition FLOW_SNAPSHOT_VERSION : Z := 2.
Definition MAX_RUN_ID_BYTES : Z := 128.
Definition MAX_EFFECT_SUMMARY_BYTES : Z := 4096.
Definition MAX_EVIDENCE_HANDLES : Z := 4.
Definition MAX_EVIDENCE_HANDLE_BYTES : Z := 256.
Definition MAX_FLOW_SEMANTIC_EVENTS_PER_TRANSITION : Z := 3.

(** ** Errors *)

Inductive FlowEngineError : Type :=
| InvalidValue (path message : string)
| InvalidDefinition (error : FlowValidationError)
| UnsupportedSnapshotVersion (version : Z)
| InvalidInitialSnapshot
| RunIdMismatch
| DefinitionDigestMismatch
| SnapshotShapeMismatch
| SnapshotStatusMismatch
| SnapshotIdentityMismatch
| SnapshotSequenceMismatch
| SnapshotTransitionMismatch
| EffectIdentityMismatch
| ApprovalTokenMismatch
| NoApprovalPending
| UnexpectedStepState
| StatefulReplayRequiresReconcile
| ConflictingEffectResult (step_id : string) (attempt : Z)
| TimestampOverflow
| TransitionSequenceOverflow
| SchedulerStalled.

Abbreviation eres := (res FlowEngineError).

Definition engine_invalid {A} (path message : string) : eres A :=
  Err (InvalidValue path message).

(** [impl From<FlowValidationError> for FlowEngineError], used by [?]. *)
Definition from_validation {A} (r : vres A) : eres A := map_err InvalidDefinition r.

(** ** Texts and identities *)

Definition validate_engine_text (path value : string) (maximum : Z) : eres unit :=
  if str_is_empty value then engine_invalid path "must not be empty"
  else if len value >? maximum
  then engine_invalid path ("must be at most " +:+ pretty maximum +:+ " UTF-8 bytes")
  else if negb (is_trimmed value) || existsb is_control (chars value)
  then engine_invalid path "must be trimmed and contain no control characters"
  else map_err (fun error => InvalidValue path (ve_message error)) (reject_secret_like path value).

Definition validate_engine_identity (path value : string) (maximum : Z) : eres unit :=
  let? _ := validate_engine_text path value maximum in
  if negb (all_bytes_indexed
             (fun index byte => is_ascii_alphanumeric byte
                                || ((0 <? index)%nat && one_of "-_.:/" byte)) value)
  then engine_invalid path "must use ASCII letters, digits, and internal `-_.:/` separators"
  else Ok tt.

Definition RunId := string.
Definition run_id_parse (value : string) : eres RunId :=
  let? _ := validate_engine_identity "run_id" value MAX_RUN_ID_BYTES in Ok value.

(** The engine's own evidence handle, distinct from [pam_core]'s. *)
Definition FlowEvidenceHandle := string.
Definition flow_handle_parse (value : string) : eres FlowEvidenceHandle :=
  let? _ := validate_engine_identity "evidence_handle" value MAX_EVIDENCE_HANDLE_BYTES in Ok value.

Definition IdempotencyIdentity := string.
Definition ApprovalToken := string.

Definition update_length_prefixed (value : string) : string :=
  to_be_bytes64 (len value) +:+ value.

Definition idempotency_input (run_id : RunId) (definition_digest : FlowDigest)
    (step_id : string) (declared_key : option string) : string :=
  ("pam-flow-step-idempotency-v1" +:+ nul)
  +:+ update_length_prefixed run_id
  +:+ definition_digest
  +:+ update_length_prefixed step_id
  +:+ update_length_prefixed (default step_id declared_key).

Definition idempotency_identity `{Sha256} (run_id : RunId) (definition_digest : FlowDigest)
    (step_id : string) (declared_key : option string) : IdempotencyIdentity :=
  sha256 (idempotency_input run_id definition_digest step_id declared_key).

Definition approval_token `{Sha256} (identity : IdempotencyIdentity) : ApprovalToken :=
  sha256 (("pam-flow-step-approval-v1" +:+ nul) +:+ identity).

(** ** Effect reports and results *)

Record EffectReport := { summary : string; evidence : list FlowEvidenceHandle }.

Definition report_validate (r : EffectReport) (path : string) : eres unit :=
  let? _ := validate_engine_text (path +:+ ".summary") (summary r) MAX_EFFECT_SUMMARY_BYTES in
  if Z.of_nat (length (evidence r)) >? MAX_EVIDENCE_HANDLES
  then engine_invalid (path +:+ ".evidence")
         ("must contain at most " +:+ pretty MAX_EVIDENCE_HANDLES +:+ " handles")
  else iter_res
    (fun '(index, handle) =>
       validate_engine_identity (path +:+ ".evidence[" +:+ pretty index +:+ "]") handle
         MAX_EVIDENCE_HANDLE_BYTES) (enumerate (evidence r)).

Definition report_new (summary : string) (evidence : list FlowEvidenceHandle) : eres EffectReport :=
  let report := {| summary := summary; evidence := evidence |} in
  let? _ := report_validate report "effect_report" in Ok report.

Definition report_trusted (summary : string) : EffectReport :=
  {| summary := summary; evidence := [] |}.

Inductive EffectResultKind : Type := KindSucceeded | KindFailed (retryable : bool).

Record EffectResult := { kind : EffectResultKind; report : EffectReport }.

Definition result_succeeded (summary : string) (evidence : list FlowEvidenceHandle)
  : eres EffectResult :=
  let? report := report_new summary evidence in
  Ok {| kind := KindSucceeded; report := report |}.
Definition result_failed (summary : string) (retryable : bool) (evidence : list FlowEvidenceHandle)
  : eres EffectResult :=
  let? report := report_new summary evidence in
  Ok {| kind := KindFailed retryable; report := report |}.
Definition result_validate (r : EffectResult) (path : string) : eres unit :=
  report_validate (report r) (path +:+ ".report").

Record EffectAttempt := {
  ea_step_index : nat;
  ea_step_id : string;
  ea_attempt : Z;
  ea_idempotency_identity : IdempotencyIdentity;
  ea_effect : EffectKind;
  ea_timeout_seconds : Z
}.

Inductive ApprovalDecision : Type := Approve | DenyApproval.

Inductive ReconciliationResult : Type :=
| NotApplied
| Completed (result : EffectResult)
| Unknown (report : EffectReport).

(** ** States and snapshots *)

Inductive RunStatus : Type :=
| Running | WaitingApproval | WaitingRetryStatus | AwaitingEffectEvaluation | EffectInFlight
| Cancelling | SucceededStatus | UnresolvedStatus | BlockedStatus | CancelledStatus.

Definition status_is_terminal (s : RunStatus) : bool :=
  match s with
  | SucceededStatus | UnresolvedStatus | BlockedStatus | CancelledStatus => true
  | _ => false
  end.

Inductive StepApprovalState : Type :=
| NotRequired
| NotRequested
| ApprovalPending (token : ApprovalToken)
| Granted (token : ApprovalToken)
| DeniedApproval (token : ApprovalToken).

Inductive StepState : Type :=
| Pending
| AwaitingEffect (attempt : Z)
| InFlight (attempt : Z) (started_at_ms : Z)
| WaitingRetry (next_attempt : Z) (not_before_ms : Z)
| Succeeded (attempt : Z)
| Skipped
| Failed (attempt : Z)
| Blocked
| Cancelled.

Definition is_terminal (s : StepState) : bool :=
  match s with
  | Succeeded _ | Skipped | Failed _ | Blocked | Cancelled => true
  | _ => false
  end.

Record RecordedEffectResult := { rec_attempt : Z; rec_result : EffectResult }.

Record StepSnapshot := {
  ss_id : string;
  ss_idempotency_identity : IdempotencyIdentity;
  ss_semantic_role : StepSemanticRole;
  ss_approval : StepApprovalState;
  ss_state : StepState;
  ss_results : list RecordedEffectResult;
  ss_blocked_report : option EffectReport
}.

Record FlowSnapshot := {
  sn_version : Z;
  sn_run_id : RunId;
  sn_digest : FlowDigest;
  sn_status : RunStatus;
  sn_cancel_requested : bool;
  sn_sequence : Z;
  sn_steps : list StepSnapshot
}.

(** ** Outcomes, decisions and transitions *)

Inductive RunOutcome : Type := OutSolved | OutUnresolved | OutBlocked | OutCancelled.
Inductive StepRunResultKind : Type :=
| ResSucceeded | ResSkipped | ResFailed | ResBlocked | ResCancelled | ResNotRun.

Record StepRunResult := {
  sr_step_id : string;
  sr_semantic_role : StepSemanticRole;
  sr_kind : StepRunResultKind;
  sr_result : option EffectResult;
  sr_blocked_report : option EffectReport
}.

(** [StepRunResult::report]. *)
Definition step_report (s : StepRunResult) : option EffectReport :=
  match sr_blocked_report s with
  | Some r => Some r
  | None => report <$> sr_result s
  end.

Record FlowOutcomeSection := {
  os_summary : string;
  os_satisfied : bool;
  os_step_ids : list string;
  os_evidence : list FlowEvidenceHandle;
  os_evidence_truncated : bool
}.

Record FlowOutcomeReport := {
  or_solved : FlowOutcomeSection;
  or_changed : FlowOutcomeSection;
  or_verified : FlowOutcomeSection;
  or_unresolved : FlowOutcomeSection;
  or_blocked : FlowOutcomeSection
}.

Record FlowRunResult := {
  rr_run_id : RunId;
  rr_digest : FlowDigest;
  rr_outcome : RunOutcome;
  rr_report : FlowOutcomeReport;
  rr_steps : list StepRunResult
}.

Inductive RunDecision : Type :=
| Continue
| AwaitApproval (step_id : string) (token : ApprovalToken)
| EvaluateEffect (effect : EffectAttempt) (replay : bool)
| Execute (effect : EffectAttempt) (replay : bool)
| Reconcile (effect : EffectAttempt)
| AwaitResult (effect : EffectAttempt)
| WaitRetry (effect : EffectAttempt) (not_before_ms : Z)
| Terminal (result : FlowRunResult).

Inductive FlowWaitReason : Type :=
| WaitApproval | WaitEffectResult | WaitRetryReason | WaitReconciliation.

Inductive FlowSemanticEvent : Type :=
| Waiting (step_id : string) (reason : FlowWaitReason) (not_before_ms : option Z)
| ApprovalRequiredEvent (step_id : string)
| EvidenceFound (step_id : string) (evidence : list FlowEvidenceHandle)
| FixApplied (step_id : string) (report : EffectReport)
| VerificationPassed (step_id : string) (report : EffectReport)
| UnresolvedEvent (step_id : string) (report : EffectReport)
| BlockedEvent (step_id : string) (report : EffectReport).

Inductive TransitionKind : Type :=
| StepSkipped (step_id : string)
| ApprovalRequested (step_id : string)
| ApprovalGranted (step_id : string)
| ApprovalDenied (step_id : string)
| EffectEvaluationRequired (step_id : string) (attempt : Z)
| EffectAuthorizationDenied (step_id : string) (attempt : Z) (replay : bool)
| EffectStarted (step_id : string) (attempt : Z) (replay : bool)
| EffectSucceeded (step_id : string) (attempt : Z)
| RetryScheduled (step_id : string) (next_attempt : Z) (not_before_ms : Z)
| RetryExhausted (step_id : string) (attempt : Z)
| EffectFailed (step_id : string) (attempt : Z)
| ReconciledNotApplied (step_id : string) (attempt : Z)
| ReconciliationUnknown (step_id : string) (attempt : Z)
| CancellationRequested
| RunCompleted (outcome : RunOutcome).

Record RunTransition := {
  tr_sequence : Z;
  tr_kind : TransitionKind;
  tr_semantic_events : list FlowSemanticEvent
}.

Record EngineUpdate := {
  up_snapshot : FlowSnapshot;
  up_transition : option RunTransition;
  up_decision : RunDecision
}.

(** ** Decidable equality *)

#[export] Instance EffectReport_eq_dec : EqDecision EffectReport.
Proof. solve_decision. Defined.
#[export] Instance EffectResultKind_eq_dec : EqDecision EffectResultKind.
Proof. solve_decision. Defined.
#[export] Instance EffectResult_eq_dec : EqDecision EffectResult.
Proof. solve_decision. Defined.
#[export] Instance EffectAttempt_eq_dec : EqDecision EffectAttempt.
Proof. solve_decision. Defined.
#[export] Instance RunStatus_eq_dec : EqDecision RunStatus.
Proof. solve_decision. Defined.
#[export] Instance StepApprovalState_eq_dec : EqDecision StepApprovalState.
Proof. solve_decision. Defined.
#[export] Instance StepState_eq_dec : EqDecision StepState.
Proof. solve_decision. Defined.
#[export] Instance RecordedEffectResult_eq_dec : EqDecision RecordedEffectResult.
Proof. solve_decision. Defined.
#[export] Instance StepSnapshot_eq_dec : EqDecision StepSnapshot.
Proof. solve_decision. Defined.
#[export] Instance FlowSnapshot_eq_dec : EqDecision FlowSnapshot.
Proof. solve_decision. Defined.
#[export] Instance RunOutcome_eq_dec : EqDecision RunOutcome.
Proof. solve_decision. Defined.
#[export] Instance StepRunResultKind_eq_dec : EqDecision StepRunResultKind.
Proof. solve_decision. Defined.
#[export] Instance FlowOutcomeSection_eq_dec : EqDecision FlowOutcomeSection.
Proof. solve_decision. Defined.
#[export] Instance FlowOutcomeReport_eq_dec : EqDecision FlowOutcomeReport.
Proof. solve_decision. Defined.
#[export] Instance FlowWaitReason_eq_dec : EqDecision FlowWaitReason.
Proof. solve_decision. Defined.
#[export] Instance FlowSemanticEvent_eq_dec : EqDecision FlowSemanticEvent.
Proof. solve_decision. Defined.

(** ** Field updates *)

Definition set_state (s : StepSnapshot) (v : StepState) : StepSnapshot :=
  {| ss_id := ss_id s; ss_idempotency_identity := ss_idempotency_identity s;
     ss_semantic_role := ss_semantic_role s; ss_approval := ss_approval s; ss_state := v;
     ss_results := ss_results s; ss_blocked_report := ss_blocked_report s |}.
Definition set_approval (s : StepSnapshot) (v : StepApprovalState) : StepSnapshot :=
  {| ss_id := ss_id s; ss_idempotency_identity := ss_idempotency_identity s;
     ss_semantic_role := ss_semantic_role s; ss_approval := v; ss_state := ss_state s;
     ss_results := ss_results s; ss_blocked_report := ss_blocked_report s |}.
Definition set_blocked_report (s : StepSnapshot) (v : option EffectReport) : StepSnapshot :=
  {| ss_id := ss_id s; ss_idempotency_identity := ss_idempotency_identity s;
     ss_semantic_role := ss_semantic_role s; ss_approval := ss_approval s; ss_state := ss_state s;
     ss_results := ss_results s; ss_blocked_report := v |}.
Definition push_result (s : StepSnapshot) (v : RecordedEffectResult) : StepSnapshot :=
  {| ss_id := ss_id s; ss_idempotency_identity := ss_idempotency_identity s;
     ss_semantic_role := ss_semantic_role s; ss_approval := ss_approval s; ss_state := ss_state s;
     ss_results := ss_results s ++ [v]; ss_blocked_report := ss_blocked_report s |}.
Definition set_role (s : StepSnapshot) (v : StepSemanticRole) : StepSnapshot :=
  {| ss_id := ss_id s; ss_idempotency_identity := ss_idempotency_identity s;
     ss_semantic_role := v; ss_approval := ss_approval s; ss_state := ss_state s;
     ss_results := ss_results s; ss_blocked_report := ss_blocked_report s |}.

Definition set_version (s : FlowSnapshot) (v : Z) : FlowSnapshot :=
  {| sn_version := v; sn_run_id := sn_run_id s; sn_digest := sn_digest s;
     sn_status := sn_status s; sn_cancel_requested := sn_cancel_requested s;
     sn_sequence := sn_sequence s; sn_steps := sn_steps s |}.
Definition set_status (s : FlowSnapshot) (v : RunStatus) : FlowSnapshot :=
  {| sn_version := sn_version s; sn_run_id := sn_run_id s; sn_digest := sn_digest s;
     sn_status := v; sn_cancel_requested := sn_cancel_requested s;
     sn_sequence := sn_sequence s; sn_steps := sn_steps s |}.
Definition set_cancel (s : FlowSnapshot) (v : bool) : FlowSnapshot :=
  {| sn_version := sn_version s; sn_run_id := sn_run_id s; sn_digest := sn_digest s;
     sn_status := sn_status s; sn_cancel_requested := v;
     sn_sequence := sn_sequence s; sn_steps := sn_steps s |}.
Definition set_sequence (s : FlowSnapshot) (v : Z) : FlowSnapshot :=
  {| sn_version := sn_version s; sn_run_id := sn_run_id s; sn_digest := sn_digest s;
     sn_status := sn_status s; sn_cancel_requested := sn_cancel_requested s;
     sn_sequence := v; sn_steps := sn_steps s |}.
Definition set_steps (s : FlowSnapshot) (v : list StepSnapshot) : FlowSnapshot :=
  {| sn_version := sn_version s; sn_run_id := sn_run_id s; sn_digest := sn_digest s;
     sn_status := sn_status s; sn_cancel_requested := sn_cancel_requested s;
     sn_sequence := sn_sequence s; sn_steps := v |}.

(** The loop of cancellation over the steps. *)
Definition cancel_step (s : StepSnapshot) : StepSnapshot :=
  let s := if is_terminal (ss_state s) then s else set_state s Cancelled in
  match ss_approval s with
  | ApprovalPending _ => set_approval s NotRequested
  | _ => s
  end.

(** ** State tests *)

Definition is_pending (s : StepState) : bool := match s with Pending => true | _ => false end.
Definition is_in_flight (s : StepState) : bool := match s with InFlight _ _ => true | _ => false end.
Definition is_failed (s : StepState) : bool := match s with Failed _ => true | _ => false end.
Definition is_blocked (s : StepState) : bool := match s with Blocked => true | _ => false end.
Definition is_succeeded (s : StepState) : bool := match s with Succeeded _ => true | _ => false end.
Definition is_cancelled (s : StepState) : bool := match s with Cancelled => true | _ => false end.
Definition is_skipped (s : StepState) : bool := match s with Skipped => true | _ => false end.
Definition is_waiting_retry (s : StepState) : bool :=
  match s with WaitingRetry _ _ => true | _ => false end.
Definition is_awaiting_effect (s : StepState) : bool :=
  match s with AwaitingEffect _ => true | _ => false end.
Definition approval_pending (a : StepApprovalState) : bool :=
  match a with ApprovalPending _ => true | _ => false end.
Definition is_retryable_failure (k : EffectResultKind) : bool :=
  match k with KindFailed true => true | _ => false end.
Definition is_failure (k : EffectResultKind) : bool :=
  match k with KindFailed _ => true | _ => false end.

(** ** Retry backoff *)

Definition retry_backoff_ms (initial maximum failed_attempt : Z) : Z :=
  let shift := saturating_sub failed_attempt 1 in
  Z.min (default u64_max (checked_shl64 initial shift)) maximum.

(** ** Outcome reports *)

(** The loop of [build_outcome_section] over the evidence handles. *)
Fixpoint collect_evidence (handles : list FlowEvidenceHandle)
    (evidence : list FlowEvidenceHandle) (truncated : bool) : list FlowEvidenceHandle * bool :=
  match handles with
  | [] => (evidence, truncated)
  | handle :: rest =>
    if existsb (String.eqb handle) evidence then collect_evidence rest evidence truncated
    else if Z.of_nat (length evidence) =? MAX_OUTCOME_EVIDENCE_HANDLES
    then collect_evidence rest evidence true
    else collect_evidence rest (evidence ++ [handle]) truncated
  end.

Definition section_handles (matching : list StepRunResult) : list FlowEvidenceHandle :=
  flat_map (fun step => match step_report step with Some r => evidence r | None => [] end) matching.

Definition build_outcome_section (summary : string) (satisfied : bool)
    (steps : list StepRunResult) (include : StepRunResult -> bool) : FlowOutcomeSection :=
  let matching := List.filter include steps in
  let '(evidence, truncated) := collect_evidence (section_handles matching) [] false in
  {| os_summary := summary; os_satisfied := satisfied;
     os_step_ids := sr_step_id <$> matching;
     os_evidence := evidence; os_evidence_truncated := truncated |}.

Definition has_kind (k : StepRunResultKind) (s : StepRunResult) : bool :=
  bool_decide (sr_kind s = k).
Definition succeeded_as (role : StepSemanticRole) (s : StepRunResult) : bool :=
  has_kind ResSucceeded s && bool_decide (sr_semantic_role s = role).

Definition build_outcome_report (template : OutcomeTemplate) (outcome : RunOutcome)
    (steps : list StepRunResult) : FlowOutcomeReport :=
  let solved := bool_decide (outcome = OutSolved) in
  {| or_solved := build_outcome_section (ot_solved template) solved steps
       (fun step => solved && has_kind ResSucceeded step);
     or_changed := build_outcome_section (ot_changed template)
       (existsb (succeeded_as Change) steps) steps (succeeded_as Change);
     or_verified := build_outcome_section (ot_verified template)
       (existsb (succeeded_as Verify) steps) steps (succeeded_as Verify);
     or_unresolved := build_outcome_section (ot_unresolved template)
       (bool_decide (outcome = OutUnresolved)) steps (has_kind ResFailed);
     or_blocked := build_outcome_section (ot_blocked template)
       (bool_decide (outcome = OutBlocked)) steps (has_kind ResBlocked) |}.

Definition build_legacy_outcome_report (outcome : RunOutcome) (steps : list StepRunResult)
  : FlowOutcomeReport :=
  let solved := bool_decide (outcome = OutSolved) in
  {| or_solved := build_outcome_section "Flow work completed successfully." solved steps
       (fun step => solved && has_kind ResSucceeded step);
     or_changed := build_outcome_section "State changes completed by the flow." false steps
       (fun _ => false);
     or_verified := build_outcome_section "Verification checks completed by the flow." false steps
       (fun _ => false);
     or_unresolved := build_outcome_section "Work that remains unresolved."
       (bool_decide (outcome = OutUnresolved)) steps (has_kind ResFailed);
     or_blocked := build_outcome_section "Work stopped at an explicit boundary."
       (bool_decide (outcome = OutBlocked)) steps (has_kind ResBlocked) |}.

Definition terminal_shape_valid (step : StepRunResult) : bool :=
  let no_block := negb (bool_decide (is_Some (sr_blocked_report step))) in
  match sr_kind step with
  | ResSucceeded =>
    match sr_result step with
    | Some result => bool_decide (kind result = KindSucceeded) && no_block
    | None => false
    end
  | ResFailed =>
    match sr_result step with
    | Some result => is_failure (kind result) && no_block
    | None => false
    end
  | ResBlocked => negb (bool_decide (is_Some (sr_result step))) && negb no_block
  | ResCancelled =>
    no_block && match sr_result step with Some result => is_failure (kind result) | None => true end
  | ResSkipped | ResNotRun => negb (bool_decide (is_Some (sr_result step))) && no_block
  end.

(** The loop of [validate_terminal_steps], with its set of identities. *)
Fixpoint validate_terminal_loop (index : nat) (ids : gset string) (steps : list StepRunResult)
  : eres unit :=
  match steps with
  | [] => Ok tt
  | step :: rest =>
    let? _ := from_validation
      (validate_slug ("flow_result.steps[" +:+ pretty index +:+ "].step_id") (sr_step_id step)
         MAX_FLOW_ID_BYTES) in
    if bool_decide (sr_step_id step ∈ ids)
    then engine_invalid "flow_result.steps" "must not contain duplicate step IDs"
    else if negb (terminal_shape_valid step)
    then engine_invalid ("flow_result.steps[" +:+ pretty index +:+ "]")
           "terminal kind does not match its report"
    else validate_terminal_loop (S index) ({[sr_step_id step]} ∪ ids) rest
  end.

Definition outcome_valid (outcome : RunOutcome) (steps : list StepRunResult) : bool :=
  match outcome with
  | OutSolved =>
    forallb (fun s => has_kind ResSucceeded s || has_kind ResSkipped s) steps
  | OutUnresolved =>
    existsb (has_kind ResFailed) steps
    && forallb (fun s => negb (has_kind ResBlocked s || has_kind ResCancelled s
                               || has_kind ResNotRun s)) steps
  | OutBlocked =>
    existsb (has_kind ResBlocked) steps
    && forallb (fun s => negb (has_kind ResCancelled s)) steps
  | OutCancelled =>
    forallb (fun s => negb (has_kind ResBlocked s || has_kind ResNotRun s)) steps
  end.

Definition validate_terminal_steps (outcome : RunOutcome) (steps : list StepRunResult) : eres unit :=
  if bool_decide (length steps = 0%nat) || (Z.of_nat (length steps) >? MAX_FLOW_STEPS)
  then engine_invalid "flow_result.steps"
         ("must contain between 1 and " +:+ pretty MAX_FLOW_STEPS +:+ " steps")
  else
    let? _ := validate_terminal_loop 0 ∅ steps in
    if outcome_valid outcome steps then Ok tt
    else engine_invalid "flow_result.outcome" "does not match its terminal step results".

Definition validate_outcome_report (report : FlowOutcomeReport) (outcome : RunOutcome)
    (steps : list StepRunResult) : eres unit :=
  let solved := bool_decide (outcome = OutSolved) in
  let expected :=
    {| or_solved := build_outcome_section (os_summary (or_solved report)) solved steps
         (fun step => solved && has_kind ResSucceeded step);
       or_changed := build_outcome_section (os_summary (or_changed report))
         (existsb (succeeded_as Change) steps) steps (succeeded_as Change);
       or_verified := build_outcome_section (os_summary (or_verified report))
         (existsb (succeeded_as Verify) steps) steps (succeeded_as Verify);
       or_unresolved := build_outcome_section (os_summary (or_unresolved report))
         (bool_decide (outcome = OutUnresolved)) steps (has_kind ResFailed);
       or_blocked := build_outcome_section (os_summary (or_blocked report))
         (bool_decide (outcome = OutBlocked)) steps (has_kind ResBlocked) |} in
  if bool_decide (expected = report) then Ok tt
  else engine_invalid "flow_result.report" "does not match the terminal step evidence and truth".

(** [FlowOutcomeSection::try_from(RawFlowOutcomeSection)]; the handles were
    parsed before. *)
Fixpoint section_ids_loop (index : nat) (seen : gset string) (ids : list string) : eres unit :=
  match ids with
  | [] => Ok tt
  | step_id :: rest =>
    let? _ := from_validation
      (validate_slug ("flow_outcome.step_ids[" +:+ pretty index +:+ "]") step_id
         MAX_FLOW_ID_BYTES) in
    if bool_decide (step_id ∈ seen)
    then engine_invalid "flow_outcome.step_ids" "must not contain duplicate step IDs"
    else section_ids_loop (S index) ({[step_id]} ∪ seen) rest
  end.
Definition section_try_from (raw : FlowOutcomeSection) : eres FlowOutcomeSection :=
  let? _ := validate_engine_text "flow_outcome.summary" (os_summary raw) MAX_TEMPLATE_BYTES in
  if Z.of_nat (length (os_step_ids raw)) >? MAX_FLOW_STEPS
  then engine_invalid "flow_outcome.step_ids"
         ("must contain at most " +:+ pretty MAX_FLOW_STEPS +:+ " step IDs")
  else
    let? _ := section_ids_loop 0 ∅ (os_step_ids raw) in
    if Z.of_nat (length (os_evidence raw)) >? MAX_OUTCOME_EVIDENCE_HANDLES
    then engine_invalid "flow_outcome.evidence"
           ("must contain at most " +:+ pretty MAX_OUTCOME_EVIDENCE_HANDLES +:+ " handles")
    else Ok raw.

(** [FlowRunResult::deserialize] from its raw fields; [report] is absent in
    results written before the outcome report existed. *)
Definition run_result_deserialize (run_id : RunId) (digest : FlowDigest) (outcome : RunOutcome)
    (report : option FlowOutcomeReport) (steps : list StepRunResult) : eres FlowRunResult :=
  let? _ := validate_terminal_steps outcome steps in
  let report := default (build_legacy_outcome_report outcome steps) report in
  let? _ := validate_outcome_report report outcome steps in
  Ok {| rr_run_id := run_id; rr_digest := digest; rr_outcome := outcome;
        rr_report := report; rr_steps := steps |}.

(** ** Semantic events *)

Definition event_step_id (e : FlowSemanticEvent) : string :=
  match e with
  | Waiting id _ _ | ApprovalRequiredEvent id | EvidenceFound id _ | FixApplied id _
  | VerificationPassed id _ | UnresolvedEvent id _ | BlockedEvent id _ => id
  end.

Definition event_validate (e : FlowSemanticEvent) (index : nat) : eres unit :=
  let base := "transition.semantic_events[" +:+ pretty index +:+ "]" in
  let? _ := from_validation
    (validate_slug (base +:+ ".step_id") (event_step_id e) MAX_FLOW_ID_BYTES) in
  match e with
  | Waiting _ WaitRetryReason (Some _)
  | Waiting _ (WaitApproval | WaitEffectResult | WaitReconciliation) None
  | ApprovalRequiredEvent _ => Ok tt
  | Waiting _ _ _ =>
    engine_invalid (base +:+ ".not_before_ms") "must be present only for a retry wait"
  | EvidenceFound _ evidence =>
    if bool_decide (evidence = []) || (Z.of_nat (length evidence) >? MAX_EVIDENCE_HANDLES)
    then engine_invalid (base +:+ ".evidence")
           ("must contain between 1 and " +:+ pretty MAX_EVIDENCE_HANDLES +:+ " handles")
    else Ok tt
  | FixApplied _ report | VerificationPassed _ report | UnresolvedEvent _ report
  | BlockedEvent _ report => report_validate report (base +:+ ".report")
  end.

(** [RunTransition::deserialize] from its raw fields; the size error is serde's
    own, without a field path. *)
Definition transition_deserialize (raw : RunTransition) : eres RunTransition :=
  if Z.of_nat (length (tr_semantic_events raw)) >? MAX_FLOW_SEMANTIC_EVENTS_PER_TRANSITION
  then engine_invalid "" ("flow transition contains more than "
         +:+ pretty MAX_FLOW_SEMANTIC_EVENTS_PER_TRANSITION +:+ " semantic events")
  else
    let? _ := iter_res (fun '(index, event) => event_validate event index)
                (enumerate (tr_semantic_events raw)) in
    Ok raw.

Definition waiting_event (step_id : string) (reason : FlowWaitReason) (not_before_ms : option Z)
  : FlowSemanticEvent := Waiting step_id reason not_before_ms.

Definition push_evidence_event (events : list FlowSemanticEvent) (step_id : string)
    (report : EffectReport) : list FlowSemanticEvent :=
  if bool_decide (evidence report = []) then events
  else events ++ [EvidenceFound step_id (evidence report)].

Definition transition_step_snapshot (snapshot : FlowSnapshot) (step_id : string)
  : eres StepSnapshot :=
  ok_or (List.find (fun step => String.eqb (ss_id step) step_id) (sn_steps snapshot))
    SnapshotTransitionMismatch.

Definition last_report (step : StepSnapshot) : eres EffectReport :=
  ok_or ((fun record => report (rec_result record)) <$> last (ss_results step))
    SnapshotTransitionMismatch.

Definition transition_step_report (snapshot : FlowSnapshot) (step_id : string) : eres EffectReport :=
  let? step := transition_step_snapshot snapshot step_id in last_report step.

Definition semantic_events_for_transition (snapshot : FlowSnapshot) (kind : TransitionKind)
  : eres (list FlowSemanticEvent) :=
  let? events :=
    match kind with
    | ApprovalRequested step_id =>
      Ok [waiting_event step_id WaitApproval None; ApprovalRequiredEvent step_id]
    | EffectStarted step_id _ _ => Ok [waiting_event step_id WaitEffectResult None]
    | RetryScheduled step_id _ not_before_ms =>
      let? report := transition_step_report snapshot step_id in
      Ok (push_evidence_event [] step_id report
          ++ [waiting_event step_id WaitRetryReason (Some not_before_ms)])
    | EffectSucceeded step_id _ =>
      let? step := transition_step_snapshot snapshot step_id in
      let? report := last_report step in
      let events := push_evidence_event [] step_id report in
      Ok (match ss_semantic_role step with
          | Observe => events
          | Verify => events ++ [VerificationPassed step_id report]
          | Change => events ++ [FixApplied step_id report]
          end)
    | RetryExhausted step_id _ | EffectFailed step_id _ =>
      let? report := transition_step_report snapshot step_id in
      Ok (push_evidence_event [] step_id report ++ [UnresolvedEvent step_id report])
    | ApprovalDenied step_id | EffectAuthorizationDenied step_id _ _
    | ReconciliationUnknown step_id _ =>
      let? step := transition_step_snapshot snapshot step_id in
      let? report := ok_or (ss_blocked_report step) SnapshotTransitionMismatch in
      Ok (push_evidence_event [] step_id report ++ [BlockedEvent step_id report])
    | CancellationRequested =>
      let? step := ok_or (List.find (fun step => is_in_flight (ss_state step)) (sn_steps snapshot))
                     SnapshotTransitionMismatch in
      Ok [waiting_event (ss_id step) WaitReconciliation None]
    | StepSkipped _ | ApprovalGranted _ | EffectEvaluationRequired _ _
    | ReconciledNotApplied _ _ | RunCompleted _ => Ok []
    end in
  if Z.of_nat (length events) >? MAX_FLOW_SEMANTIC_EVENTS_PER_TRANSITION
  then Err SnapshotTransitionMismatch
  else Ok events.
