(* ===== verification/FlowSnapshot.v ===== *)
(** * Snapshot validators ([pam_flow/src/engine.rs])

    The checks the store and a restarted daemon make on a durable snapshot:
    [validate_snapshot] against its definition, [validate_standalone_snapshot]
    without one, [validate_snapshot_successor] on a snapshot and the transition
    that is said to have produced it, and [validate_snapshot_upgrade] on the
    one-time rewrite of version-one snapshots. *)

From S2P Require Import Prelude FlowDef FlowData.

Local Open Scope Z_scope.

Section validators.
Context `{Sha256}.

(** ** Shapes shared by the two snapshot validators *)

Definition approval_shape_valid (step : StepSnapshot) : bool :=
  match ss_approval step with
  | NotRequested =>
    (is_pending (ss_state step) || is_cancelled (ss_state step))
    && bool_decide (ss_results step = []) && bool_decide (ss_blocked_report step = None)
  | ApprovalPending _ =>
    is_pending (ss_state step)
    && bool_decide (ss_results step = []) && bool_decide (ss_blocked_report step = None)
  | NotRequired | Granted _ => true
  | DeniedApproval _ =>
    is_blocked (ss_state step) && negb (bool_decide (ss_blocked_report step = None))
  end.

Definition token_mismatch (step : StepSnapshot) : bool :=
  let expected_token := approval_token (ss_idempotency_identity step) in
  match ss_approval step with
  | ApprovalPending token | Granted token | DeniedApproval token =>
    negb (String.eqb token expected_token)
  | _ => false
  end.

(** The loop over the recorded results of step [index]. *)
Definition validate_results (index : nat) (step : StepSnapshot) : eres unit :=
  iter_res
    (fun '(result_index, record) =>
       if negb (rec_attempt record =? Z.of_nat result_index + 1)
       then Err SnapshotShapeMismatch
       else result_validate (rec_result record)
              ("snapshot.steps[" +:+ pretty index +:+ "].results[" +:+ pretty result_index +:+ "]"))
    (enumerate (ss_results step)).

Definition validate_blocked_report (index : nat) (step : StepSnapshot) : eres unit :=
  match ss_blocked_report step with
  | Some report =>
    report_validate report ("snapshot.steps[" +:+ pretty index +:+ "].blocked_report")
  | None => Ok tt
  end.

Definition is_active (step : StepSnapshot) : bool :=
  (negb (is_pending (ss_state step)) && negb (is_terminal (ss_state step)))
  || approval_pending (ss_approval step).

(** [step.results.last()] is a retryable failure. *)
Definition previous_retryable_failure (step : StepSnapshot) : bool :=
  match last (ss_results step) with
  | Some record => is_retryable_failure (kind (rec_result record))
  | None => false
  end.

Definition last_kind_is (p : EffectResultKind -> bool) (step : StepSnapshot) : bool :=
  match last (ss_results step) with
  | Some record => p (kind (rec_result record))
  | None => false
  end.

Definition retry_history_valid (step : StepSnapshot) (prefix : nat) : bool :=
  forallb (fun record => is_retryable_failure (kind (rec_result record)))
    (take prefix (ss_results step)).

Definition no_blocked_report (step : StepSnapshot) : bool :=
  bool_decide (ss_blocked_report step = None).

Definition computed_status (snapshot : FlowSnapshot) : RunStatus :=
  let any p := existsb (fun step => p (ss_state step)) (sn_steps snapshot) in
  if sn_cancel_requested snapshot
  then if bool_decide (sn_status snapshot = BlockedStatus) then BlockedStatus
       else if bool_decide (sn_status snapshot = CancelledStatus) then CancelledStatus
       else Cancelling
  else if any is_blocked then BlockedStatus
  else if existsb (fun step => approval_pending (ss_approval step)) (sn_steps snapshot)
  then WaitingApproval
  else if any is_waiting_retry then WaitingRetryStatus
  else if any is_awaiting_effect then AwaitingEffectEvaluation
  else if any is_in_flight then EffectInFlight
  else if forallb (fun step => is_terminal (ss_state step)) (sn_steps snapshot)
  then if bool_decide (sn_status snapshot = Running) then Running
       else if any is_failed then UnresolvedStatus else SucceededStatus
  else Running.

(** The checks after both loops. *)
Definition validate_status (snapshot : FlowSnapshot) (active : nat) : eres unit :=
  if (1 <? active)%nat || negb (bool_decide (computed_status snapshot = sn_status snapshot))
  then Err SnapshotStatusMismatch
  else if bool_decide (sn_status snapshot = CancelledStatus)
          && negb (forallb (fun step => is_terminal (ss_state step)) (sn_steps snapshot))
  then Err SnapshotStatusMismatch
  else Ok tt.

(** ** Validation without a definition *)

Definition structural_prefix (step : StepSnapshot) : nat :=
  match ss_state step with
  | Succeeded _ | Failed _ => (length (ss_results step) - 1)%nat
  | Pending | Skipped => 0%nat
  | AwaitingEffect _ | InFlight _ _ | WaitingRetry _ _ | Blocked | Cancelled =>
    length (ss_results step)
  end.

Definition structural_shape_valid (step : StepSnapshot) (completed : Z) : bool :=
  match ss_state step with
  | Pending | Skipped => bool_decide (ss_results step = []) && no_blocked_report step
  | AwaitingEffect attempt | InFlight attempt _ =>
    (attempt =? wrap8 (completed + 1)) && (attempt <=? MAX_RETRY_ATTEMPTS)
    && ((attempt =? 1) || previous_retryable_failure step) && no_blocked_report step
  | WaitingRetry next_attempt _ =>
    (next_attempt =? wrap8 (completed + 1)) && (next_attempt <=? MAX_RETRY_ATTEMPTS)
    && previous_retryable_failure step && no_blocked_report step
  | Succeeded attempt =>
    (attempt =? completed) && last_kind_is (fun k => bool_decide (k = KindSucceeded)) step
    && no_blocked_report step
  | Failed attempt =>
    (attempt =? completed) && last_kind_is is_failure step && no_blocked_report step
  | Blocked => negb (no_blocked_report step)
  | Cancelled => no_blocked_report step
  end.

Definition validate_structural_step_state (step : StepSnapshot) : eres unit :=
  let? completed := u8_try_from (length (ss_results step)) SnapshotShapeMismatch in
  if structural_shape_valid step completed && retry_history_valid step (structural_prefix step)
  then Ok tt
  else Err SnapshotShapeMismatch.

(** The body of the loop, with the identities seen and the active count. *)
Definition standalone_step (acc : nat * StepSnapshot) (st : gset string * nat)
  : eres (gset string * nat) :=
  let '(index, step) := acc in
  let '(ids, active) := st in
  if negb (is_ok (validate_slug ("snapshot.steps[" +:+ pretty index +:+ "].id") (ss_id step)
                    MAX_FLOW_ID_BYTES))
     || bool_decide (ss_id step ∈ ids)
     || (Z.of_nat (length (ss_results step)) >? MAX_RETRY_ATTEMPTS)
  then Err SnapshotShapeMismatch
  else if negb (approval_shape_valid step) || token_mismatch step
  then Err SnapshotShapeMismatch
  else
    let? _ := validate_results index step in
    let? _ := validate_blocked_report index step in
    let? _ := validate_structural_step_state step in
    Ok ({[ss_id step]} ∪ ids, if is_active step then S active else active).

Definition validate_standalone_snapshot (snapshot : FlowSnapshot) : eres unit :=
  if negb (sn_version snapshot =? FLOW_SNAPSHOT_VERSION)
  then Err (UnsupportedSnapshotVersion (sn_version snapshot))
  else
    let? _ := validate_engine_identity "snapshot.run_id" (sn_run_id snapshot) MAX_RUN_ID_BYTES in
    if bool_decide (sn_steps snapshot = [])
       || (Z.of_nat (length (sn_steps snapshot)) >? MAX_FLOW_STEPS)
    then Err SnapshotShapeMismatch
    else
      let? st := fold_res standalone_step (enumerate (sn_steps snapshot)) (∅, 0%nat) in
      validate_status snapshot st.2.

(** ** Validation against the definition *)

Definition definition_prefix (step : StepSnapshot) : nat :=
  match ss_state step with
  | AwaitingEffect _ | InFlight _ _ | WaitingRetry _ _ | Blocked => length (ss_results step)
  | Succeeded _ | Failed _ | Cancelled => (length (ss_results step) - 1)%nat
  | Pending | Skipped => 0%nat
  end.

Definition step_shape_valid (step : StepSnapshot) (max_attempts : Z) (cancel_requested : bool)
    (completed : Z) : bool :=
  match ss_state step with
  | Pending | Skipped => bool_decide (ss_results step = []) && no_blocked_report step
  | AwaitingEffect attempt | InFlight attempt _ =>
    (attempt =? wrap8 (completed + 1)) && (attempt <=? max_attempts)
    && ((attempt =? 1) || previous_retryable_failure step)
  | WaitingRetry next_attempt _ =>
    (next_attempt =? wrap8 (completed + 1)) && (next_attempt <=? max_attempts)
    && previous_retryable_failure step
  | Succeeded attempt =>
    (attempt =? completed) && last_kind_is (fun k => bool_decide (k = KindSucceeded)) step
  | Failed attempt =>
    (attempt =? completed)
    && last_kind_is (fun k => match k with
                              | KindFailed false => true
                              | KindFailed true => cancel_requested || (attempt =? max_attempts)
                              | KindSucceeded => false
                              end) step
  | Blocked => negb (no_blocked_report step)
  | Cancelled => no_blocked_report step
  end.

Definition validate_step_state (step : StepSnapshot) (max_attempts : Z) (cancel_requested : bool)
  : eres unit :=
  let? completed := u8_try_from (length (ss_results step)) SnapshotShapeMismatch in
  if negb (step_shape_valid step max_attempts cancel_requested completed)
     || negb (retry_history_valid step (definition_prefix step))
  then Err SnapshotShapeMismatch
  else Ok tt.

Definition approval_mode_matches (a : StepApprovalState) (m : ApprovalMode) : bool :=
  match a, m with
  | NotRequired, ModeNone => true
  | (NotRequested | ApprovalPending _ | Granted _ | DeniedApproval _), ModeRequired => true
  | _, _ => false
  end.

Definition snapshot_step (snapshot : FlowSnapshot) (acc : nat * (StepSnapshot * FlowStep))
    (active : nat) : eres nat :=
  let '(index, (stored, declared)) := acc in
  if negb (String.eqb (ss_id stored) (fs_id declared))
     || negb (bool_decide (ss_semantic_role stored = semantic_role declared))
     || negb (String.eqb (ss_idempotency_identity stored)
                (idempotency_identity (sn_run_id snapshot) (sn_digest snapshot)
                   (fs_id declared) (fs_idempotency_key declared)))
     || (Z.of_nat (length (ss_results stored)) >? max_attempts (fs_retry declared))
  then Err SnapshotShapeMismatch
  else if negb (approval_mode_matches (ss_approval stored) (fs_approval declared))
  then Err SnapshotShapeMismatch
  else if negb (approval_shape_valid stored) then Err SnapshotShapeMismatch
  else if token_mismatch stored then Err SnapshotShapeMismatch
  else
    let? _ := validate_results index stored in
    let? _ := validate_blocked_report index stored in
    let? _ := validate_step_state stored (max_attempts (fs_retry declared))
                (sn_cancel_requested snapshot) in
    Ok (if is_active stored then S active else active).

Definition definition_position (definition : FlowDefinition) (id : string) : option nat :=
  position (fun step => String.eqb (fs_id step) id) (fd_steps definition).

(** [definition.steps().position(..)] and the indexed snapshot state; the index
    is a panic when the snapshot is shorter. *)
Definition snapshot_state_by_id (definition : FlowDefinition) (snapshot : FlowSnapshot)
    (id : string) : eres (option StepState) :=
  match definition_position definition id with
  | None => Ok None
  | Some index =>
    let? step := or_panic (sn_steps snapshot !! index) in Ok (Some (ss_state step))
  end.

(** [iter().all(f)] with a fallible test. *)
Fixpoint all_res {E A} (f : A -> res E bool) (l : list A) : res E bool :=
  match l with
  | [] => Ok true
  | x :: l => let? b := f x in if b then all_res f l else Ok false
  end.

Definition option_state_is (p : StepState -> bool) (o : option StepState) : bool :=
  match o with Some s => p s | None => false end.

Definition declared_condition_true (definition : FlowDefinition) (snapshot : FlowSnapshot)
    (c : StepCondition) : eres bool :=
  match c with
  | Always => Ok true
  | CondSucceeded step =>
    let? state := snapshot_state_by_id definition snapshot step in
    Ok (option_state_is is_succeeded state)
  | CondFailed step =>
    let? state := snapshot_state_by_id definition snapshot step in
    Ok (option_state_is is_failed state)
  end.

Definition snapshot_graph_step (definition : FlowDefinition) (snapshot : FlowSnapshot)
    (acc : nat * (StepSnapshot * FlowStep)) : eres unit :=
  let '(index, (stored, declared)) := acc in
  if is_cancelled (ss_state stored)
  then if negb (sn_cancel_requested snapshot) then Err SnapshotShapeMismatch else Ok tt
  else
    let ready_approval :=
      match ss_approval stored with ApprovalPending _ | Granted _ => true | _ => false end
      && is_pending (ss_state stored) in
    if is_pending (ss_state stored) && negb ready_approval then Ok tt
    else
      let? prerequisites_complete :=
        all_res (fun reference =>
                   let? state := snapshot_state_by_id definition snapshot reference in
                   Ok (option_state_is is_terminal state)) (references declared) in
      if negb prerequisites_complete then Err SnapshotShapeMismatch
      else
        let? condition_true := declared_condition_true definition snapshot (fs_condition declared) in
        if eqb (is_skipped (ss_state stored)) condition_true
        then engine_invalid ("snapshot.steps[" +:+ pretty index +:+ "].state")
               "does not match the declared condition outcome"
        else Ok tt.

Definition validate_snapshot_graph (definition : FlowDefinition) (snapshot : FlowSnapshot)
  : eres unit :=
  iter_res (snapshot_graph_step definition snapshot)
    (enumerate (combine (sn_steps snapshot) (fd_steps definition))).

Definition validate_snapshot (definition : FlowDefinition) (snapshot : FlowSnapshot) : eres unit :=
  if negb (sn_version snapshot =? FLOW_SNAPSHOT_VERSION)
  then Err (UnsupportedSnapshotVersion (sn_version snapshot))
  else if (sn_sequence snapshot =? u64_max) && negb (status_is_terminal (sn_status snapshot))
  then Err TransitionSequenceOverflow
  else
    let? _ := validate_engine_identity "snapshot.run_id" (sn_run_id snapshot) MAX_RUN_ID_BYTES in
    if negb (length (sn_steps snapshot) =? length (fd_steps definition))%nat
    then Err SnapshotShapeMismatch
    else
      let? active := fold_res (snapshot_step snapshot)
        (enumerate (combine (sn_steps snapshot) (fd_steps definition))) 0%nat in
      let? _ := validate_status snapshot active in
      validate_snapshot_graph definition snapshot.

(** ** Successors *)

Definition require_transition (condition : bool) : eres unit :=
  if condition then Ok tt else Err SnapshotTransitionMismatch.

Definition transition_step (snapshot : FlowSnapshot) (step_id : string) : eres nat :=
  ok_or (position (fun step => String.eqb (ss_id step) step_id) (sn_steps snapshot))
    SnapshotTransitionMismatch.

Definition in_flight_at (s : StepState) (attempt : Z) : bool :=
  match s with InFlight current _ => current =? attempt | _ => false end.
Definition awaiting_at (s : StepState) (attempt : Z) : bool :=
  match s with AwaitingEffect current => current =? attempt | _ => false end.

Definition in_flight_or_cancelling (s : RunStatus) : bool :=
  match s with EffectInFlight | Cancelling => true | _ => false end.

Definition result_transition_origin (snapshot : FlowSnapshot) (step_id : string) (attempt : Z)
  : eres nat :=
  let? _ := require_transition (in_flight_or_cancelling (sn_status snapshot)) in
  let? index := transition_step snapshot step_id in
  let? step := or_panic (sn_steps snapshot !! index) in
  let? _ := require_transition (in_flight_at (ss_state step) attempt) in
  Ok index.

Definition candidate_result (snapshot : FlowSnapshot) (step_index : nat) (attempt : Z)
  : eres RecordedEffectResult :=
  let? step := or_panic (sn_steps snapshot !! step_index) in
  match last (ss_results step) with
  | Some record => if rec_attempt record =? attempt then Ok record
                   else Err SnapshotTransitionMismatch
  | None => Err SnapshotTransitionMismatch
  end.

Definition validate_successor_identity (previous candidate : FlowSnapshot) : eres unit :=
  if negb (sn_version previous =? sn_version candidate)
     || negb (String.eqb (sn_run_id previous) (sn_run_id candidate))
     || negb (String.eqb (sn_digest previous) (sn_digest candidate))
     || negb (length (sn_steps previous) =? length (sn_steps candidate))%nat
     || existsb (fun '(before, after) =>
                   negb (String.eqb (ss_id before) (ss_id after))
                   || negb (String.eqb (ss_idempotency_identity before)
                              (ss_idempotency_identity after))
                   || negb (bool_decide (ss_semantic_role before = ss_semantic_role after)))
          (combine (sn_steps previous) (sn_steps candidate))
  then Err SnapshotIdentityMismatch
  else Ok tt.

Definition approval_ready (a : StepApprovalState) : bool :=
  match a with NotRequired | Granted _ => true | _ => false end.

Definition with_step (s : FlowSnapshot) (index : nat) (step : StepSnapshot) : FlowSnapshot :=
  set_steps s (<[index := step]> (sn_steps s)).

Definition result_status (previous : FlowSnapshot) : RunStatus :=
  if sn_cancel_requested previous then Cancelling else Running.

(** The arms of [validate_transition_successor]: the snapshot each transition
    kind must lead to. [base] is the previous snapshot with the new sequence;
    the candidate supplies what the previous snapshot cannot know (the start
    time, the recorded result, the report of a block). *)

Definition has_status (previous : FlowSnapshot) (s : RunStatus) : bool :=
  bool_decide (sn_status previous = s).
Definition previous_step (previous : FlowSnapshot) (index : nat) : eres StepSnapshot :=
  or_panic (sn_steps previous !! index).

Definition expected_skipped (previous base : FlowSnapshot) (step_id : string)
  : eres FlowSnapshot :=
  let? _ := require_transition
    (negb (sn_cancel_requested previous) && has_status previous Running) in
  let? index := transition_step previous step_id in
  let? step := previous_step previous index in
  let? _ := require_transition (is_pending (ss_state step) && approval_ready (ss_approval step)) in
  Ok (with_step base index (set_state step Skipped)).

Definition expected_requested (previous base : FlowSnapshot) (step_id : string)
  : eres FlowSnapshot :=
  let? _ := require_transition
    (negb (sn_cancel_requested previous) && has_status previous Running) in
  let? index := transition_step previous step_id in
  let? step := previous_step previous index in
  let? _ := require_transition (is_pending (ss_state step)
              && match ss_approval step with NotRequested => true | _ => false end) in
  Ok (set_status
        (with_step base index
           (set_approval step (ApprovalPending (approval_token (ss_idempotency_identity step)))))
        WaitingApproval).

Definition expected_granted (previous base : FlowSnapshot) (step_id : string)
  : eres FlowSnapshot :=
  let? _ := require_transition
    (negb (sn_cancel_requested previous) && has_status previous WaitingApproval) in
  let? index := transition_step previous step_id in
  let? step := previous_step previous index in
  match ss_approval step with
  | ApprovalPending token =>
    Ok (set_status (with_step base index (set_approval step (Granted token))) Running)
  | _ => Err SnapshotTransitionMismatch
  end.

Definition expected_denied (previous base : FlowSnapshot) (step_id : string)
  : eres FlowSnapshot :=
  let? _ := require_transition
    (negb (sn_cancel_requested previous) && has_status previous WaitingApproval) in
  let? index := transition_step previous step_id in
  let? step := previous_step previous index in
  match ss_approval step with
  | ApprovalPending token =>
    Ok (set_status
          (with_step base index
             (set_blocked_report
                (set_state (set_approval step (DeniedApproval token)) Blocked)
                (Some (report_trusted "the exact effect approval was denied"))))
          BlockedStatus)
  | _ => Err SnapshotTransitionMismatch
  end.

Definition expected_evaluation (previous base : FlowSnapshot) (step_id : string) (attempt : Z)
  : eres FlowSnapshot :=
  let? _ := require_transition (negb (sn_cancel_requested previous)) in
  let? index := transition_step previous step_id in
  let? step := previous_step previous index in
  let valid_origin :=
    match ss_state step with
    | Pending => (attempt =? 1) && has_status previous Running && approval_ready (ss_approval step)
    | WaitingRetry next_attempt _ => (attempt =? next_attempt) && has_status previous WaitingRetryStatus
    | _ => false
    end in
  let? _ := require_transition valid_origin in
  Ok (set_status (with_step base index (set_state step (AwaitingEffect attempt)))
        AwaitingEffectEvaluation).

Definition expected_unauthorized (previous base : FlowSnapshot) (step_id : string) (attempt : Z)
    (replay : bool)
  : eres FlowSnapshot :=
  let? _ := require_transition (negb (sn_cancel_requested previous)) in
  let? index := transition_step previous step_id in
  let? step := previous_step previous index in
  let? _ := require_transition
    (if replay then has_status previous EffectInFlight && in_flight_at (ss_state step) attempt
     else has_status previous AwaitingEffectEvaluation && awaiting_at (ss_state step) attempt) in
  Ok (set_status
        (with_step base index
           (set_blocked_report (set_state step Blocked)
              (Some (report_trusted "fresh authorization for the exact effect was denied"))))
        BlockedStatus).

Definition expected_started (previous candidate base : FlowSnapshot) (step_id : string)
    (attempt : Z) (replay : bool)
  : eres FlowSnapshot :=
  let? _ := require_transition (negb (sn_cancel_requested previous)) in
  let? index := transition_step previous step_id in
  let? step := previous_step previous index in
  if replay
  then
    let? _ := require_transition
    (has_status previous EffectInFlight && in_flight_at (ss_state step) attempt) in
    Ok (set_status base EffectInFlight)
  else
    let? _ := require_transition
      (has_status previous AwaitingEffectEvaluation && awaiting_at (ss_state step) attempt) in
    let? after := or_panic (sn_steps candidate !! index) in
    match ss_state after with
    | InFlight candidate_attempt started_at_ms =>
      let? _ := require_transition (candidate_attempt =? attempt) in
      Ok (set_status (with_step base index (set_state step (InFlight attempt started_at_ms)))
            EffectInFlight)
    | _ => Err SnapshotTransitionMismatch
    end.

Definition expected_succeeded (previous candidate base : FlowSnapshot) (step_id : string)
    (attempt : Z)
  : eres FlowSnapshot :=
  let? index := result_transition_origin previous step_id attempt in
  let? step := previous_step previous index in
  let? record := candidate_result candidate index attempt in
  let? _ := require_transition (bool_decide (kind (rec_result record) = KindSucceeded)) in
  Ok (set_status (with_step base index (set_state (push_result step record) (Succeeded attempt)))
        (result_status previous)).

Definition expected_retry (previous candidate base : FlowSnapshot) (step_id : string)
    (next_attempt : Z) (not_before_ms : Z)
  : eres FlowSnapshot :=
  let? _ := require_transition (negb (sn_cancel_requested previous)) in
  let? attempt := ok_or (checked_sub8 next_attempt 1) SnapshotTransitionMismatch in
  let? index := result_transition_origin previous step_id attempt in
  let? step := previous_step previous index in
  let? record := candidate_result candidate index attempt in
  let? _ := require_transition (is_retryable_failure (kind (rec_result record))
                                && (next_attempt <=? MAX_RETRY_ATTEMPTS)) in
  Ok (set_status
        (with_step base index
           (set_state (push_result step record) (WaitingRetry next_attempt not_before_ms)))
        WaitingRetryStatus).

Definition expected_exhausted (previous candidate base : FlowSnapshot) (step_id : string)
    (attempt : Z)
  : eres FlowSnapshot :=
  let? _ := require_transition (negb (sn_cancel_requested previous)) in
  let? index := result_transition_origin previous step_id attempt in
  let? step := previous_step previous index in
  let? record := candidate_result candidate index attempt in
  let? _ := require_transition (is_retryable_failure (kind (rec_result record))) in
  Ok (set_status (with_step base index (set_state (push_result step record) (Failed attempt)))
        Running).

Definition expected_failed (previous candidate base : FlowSnapshot) (step_id : string) (attempt : Z)
  : eres FlowSnapshot :=
  let? index := result_transition_origin previous step_id attempt in
  let? step := previous_step previous index in
  let? record := candidate_result candidate index attempt in
  let? _ := require_transition
    (match kind (rec_result record) with
     | KindFailed retryable => sn_cancel_requested previous || negb retryable
     | KindSucceeded => false
     end) in
  Ok (set_status (with_step base index (set_state (push_result step record) (Failed attempt)))
        (result_status previous)).

Definition expected_not_applied (previous base : FlowSnapshot) (step_id : string) (attempt : Z)
  : eres FlowSnapshot :=
  let? _ := require_transition
    (negb (sn_cancel_requested previous) && has_status previous EffectInFlight) in
  let? index := transition_step previous step_id in
  let? step := previous_step previous index in
  let? _ := require_transition (in_flight_at (ss_state step) attempt) in
  Ok (set_status (with_step base index (set_state step (AwaitingEffect attempt)))
        AwaitingEffectEvaluation).

Definition expected_unknown (previous candidate base : FlowSnapshot) (step_id : string)
    (attempt : Z)
  : eres FlowSnapshot :=
  let? _ := require_transition (in_flight_or_cancelling (sn_status previous)) in
  let? index := transition_step previous step_id in
  let? step := previous_step previous index in
  let? _ := require_transition (in_flight_at (ss_state step) attempt) in
  let? after := or_panic (sn_steps candidate !! index) in
  let? report := ok_or (ss_blocked_report after) SnapshotTransitionMismatch in
  Ok (set_status
        (with_step base index (set_blocked_report (set_state step Blocked) (Some report)))
        BlockedStatus).

Definition expected_cancelling (previous base : FlowSnapshot)
  : eres FlowSnapshot :=
  let? _ := require_transition
    (negb (sn_cancel_requested previous) && has_status previous EffectInFlight
     && existsb (fun step => is_in_flight (ss_state step)) (sn_steps previous)) in
  Ok (set_status (set_cancel base true) Cancelling).

Definition expected_completed (previous base : FlowSnapshot) (outcome : RunOutcome)
  : eres FlowSnapshot :=
  let all_terminal := forallb (fun step => is_terminal (ss_state step)) (sn_steps previous) in
  let any p := existsb (fun step => p (ss_state step)) (sn_steps previous) in
  match outcome with
  | OutSolved =>
    let? _ := require_transition
      (negb (sn_cancel_requested previous) && has_status previous Running && all_terminal
       && negb (any (fun s => is_failed s || is_blocked s || is_cancelled s))) in
    Ok (set_status base SucceededStatus)
  | OutUnresolved =>
    let? _ := require_transition
      (negb (sn_cancel_requested previous) && has_status previous Running && all_terminal && any is_failed
       && negb (any (fun s => is_blocked s || is_cancelled s))) in
    Ok (set_status base UnresolvedStatus)
  | OutCancelled =>
    let? _ := require_transition (negb (status_is_terminal (sn_status previous))) in
    Ok (set_steps (set_status (set_cancel base true) CancelledStatus)
          (cancel_step <$> sn_steps base))
  | OutBlocked => Err SnapshotTransitionMismatch
  end.

Definition expected_successor (previous candidate base : FlowSnapshot) (kind : TransitionKind)
  : eres FlowSnapshot :=
  match kind with
  | StepSkipped step_id => expected_skipped previous base step_id
  | ApprovalRequested step_id => expected_requested previous base step_id
  | ApprovalGranted step_id => expected_granted previous base step_id
  | ApprovalDenied step_id => expected_denied previous base step_id
  | EffectEvaluationRequired step_id attempt => expected_evaluation previous base step_id attempt
  | EffectAuthorizationDenied step_id attempt replay =>
    expected_unauthorized previous base step_id attempt replay
  | EffectStarted step_id attempt replay => expected_started previous candidate base step_id attempt replay
  | EffectSucceeded step_id attempt => expected_succeeded previous candidate base step_id attempt
  | RetryScheduled step_id next_attempt not_before_ms =>
    expected_retry previous candidate base step_id next_attempt not_before_ms
  | RetryExhausted step_id attempt => expected_exhausted previous candidate base step_id attempt
  | EffectFailed step_id attempt => expected_failed previous candidate base step_id attempt
  | ReconciledNotApplied step_id attempt => expected_not_applied previous base step_id attempt
  | ReconciliationUnknown step_id attempt => expected_unknown previous candidate base step_id attempt
  | CancellationRequested => expected_cancelling previous base
  | RunCompleted outcome => expected_completed previous base outcome
  end.

Definition validate_transition_successor (previous candidate : FlowSnapshot)
    (transition : RunTransition) : eres unit :=
  let base := set_sequence previous (tr_sequence transition) in
  let? expected := expected_successor previous candidate base (tr_kind transition) in
  let? expected_semantic_events := semantic_events_for_transition expected (tr_kind transition) in
  let? _ := require_transition
    (bool_decide (tr_semantic_events transition = expected_semantic_events)) in
  if bool_decide (expected = candidate) then Ok tt else Err SnapshotTransitionMismatch.

Definition initial_shape_rejected (candidate : FlowSnapshot) (transition : option RunTransition)
  : bool :=
  bool_decide (is_Some transition)
  || negb (sn_sequence candidate =? 0)
  || negb (bool_decide (sn_status candidate = Running))
  || sn_cancel_requested candidate
  || bool_decide (sn_steps candidate = [])
  || existsb (fun step =>
                negb (is_pending (ss_state step))
                || negb (match ss_approval step with NotRequired | NotRequested => true | _ => false end)
                || negb (bool_decide (ss_results step = []))
                || bool_decide (is_Some (ss_blocked_report step))) (sn_steps candidate).

Definition validate_snapshot_successor (previous : option FlowSnapshot) (candidate : FlowSnapshot)
    (transition : option RunTransition) : eres unit :=
  let? _ := validate_standalone_snapshot candidate in
  match previous with
  | None =>
    if initial_shape_rejected candidate transition then Err InvalidInitialSnapshot else Ok tt
  | Some previous =>
    let? _ := validate_standalone_snapshot previous in
    let? _ := validate_successor_identity previous candidate in
    match transition with
    | None =>
      if bool_decide (previous = candidate) then Ok tt else Err SnapshotTransitionMismatch
    | Some transition =>
      let? expected_sequence :=
        ok_or (checked_add64 (sn_sequence previous) 1) TransitionSequenceOverflow in
      if negb (sn_sequence candidate =? expected_sequence)
         || negb (tr_sequence transition =? expected_sequence)
      then Err SnapshotSequenceMismatch
      else validate_transition_successor previous candidate transition
    end
  end.

(** [for (stored, upgraded) in expected.steps.iter_mut().zip(..)]: the roles
    of [right] written over the steps of [left]. *)
Definition copy_roles (left : list StepSnapshot) (roles : list StepSemanticRole)
  : list StepSnapshot :=
  zip_with set_role left roles.

Definition validate_snapshot_upgrade (previous candidate : FlowSnapshot) : eres unit :=
  if negb (sn_version previous =? 1) || negb (sn_version candidate =? FLOW_SNAPSHOT_VERSION)
  then Err SnapshotIdentityMismatch
  else if negb (length (sn_steps previous) =? length (sn_steps candidate))%nat
          || existsb (fun step => bool_decide (ss_semantic_role step = Verify)) (sn_steps candidate)
  then Err SnapshotShapeMismatch
  else
    let expected :=
      set_steps (set_version previous FLOW_SNAPSHOT_VERSION)
        (copy_roles (sn_steps previous) (ss_semantic_role <$> sn_steps candidate)) in
    let? _ := validate_standalone_snapshot candidate in
    if bool_decide (expected = candidate) then Ok tt else Err SnapshotTransitionMismatch.

End validators.
