(* ===== verification/FlowEngine.v ===== *)
(** * The flow engine ([FlowRun] of [pam_flow/src/engine.rs])

    The deterministic coordinator of a run. A [&mut self] method is a
    computation in a state monad over [FlowRun]: the state left behind by an
    early error is part of its result, and so is a panic. *)

From S2P Require Import Prelude FlowDef FlowData FlowSnapshot.

Local Open Scope Z_scope.

Record FlowRun := {
  fr_definition : FlowDefinition;
  fr_snapshot : FlowSnapshot;
  fr_issued_attempt : option EffectAttempt
}.

(** ** The state monad *)

Definition M (A : Type) : Type := FlowRun -> FlowRun * eres A.

Definition st_ret {A} (a : A) : M A := fun r => (r, Ok a).
Definition st_err {A} (e : FlowEngineError) : M A := fun r => (r, Err e).
Definition st_lift {A} (m : eres A) : M A := fun r => (r, m).
Definition st_bind {A B} (m : M A) (k : A -> M B) : M B :=
  fun r => match m r with
           | (r', Ok a) => k a r'
           | (r', Err e) => (r', Err e)
           | (r', Panic) => (r', Panic)
           end.
Definition st_get : M FlowRun := fun r => (r, Ok r).

Notation "'let!' x ':=' m 'in' k" := (st_bind m (fun x => k))
  (at level 10, x pattern, m at level 100, k at level 200) : pam_scope.
Notation "'do!' m 'in' k" := (st_bind m (fun _ => k))
  (at level 10, m at level 100, k at level 200) : pam_scope.

Definition with_snapshot (r : FlowRun) (s : FlowSnapshot) : FlowRun :=
  {| fr_definition := fr_definition r; fr_snapshot := s; fr_issued_attempt := fr_issued_attempt r |}.
Definition with_issued (r : FlowRun) (a : option EffectAttempt) : FlowRun :=
  {| fr_definition := fr_definition r; fr_snapshot := fr_snapshot r; fr_issued_attempt := a |}.

Definition put_snapshot (s : FlowSnapshot) : M unit := fun r => (with_snapshot r s, Ok tt).
Definition put_issued (a : option EffectAttempt) : M unit := fun r => (with_issued r a, Ok tt).
Definition put_status (v : RunStatus) : M unit :=
  fun r => (with_snapshot r (set_status (fr_snapshot r) v), Ok tt).
Definition put_cancel (v : bool) : M unit :=
  fun r => (with_snapshot r (set_cancel (fr_snapshot r) v), Ok tt).

(** [self.snapshot.steps[index]] read and written; out of range is a panic. *)
Definition get_step (index : nat) : M StepSnapshot :=
  fun r => (r, or_panic (sn_steps (fr_snapshot r) !! index)).
Definition modify_step (index : nat) (f : StepSnapshot -> StepSnapshot) : M unit :=
  fun r => match sn_steps (fr_snapshot r) !! index with
           | Some step => (with_snapshot r (with_step (fr_snapshot r) index (f step)), Ok tt)
           | None => (r, Panic)
           end.

Section engine.
Context `{Sha256}.

(** ** Reads *)

(** [self.definition.steps()[index]]. *)
Definition declared_step (r : FlowRun) (index : nat) : eres FlowStep :=
  or_panic (fd_steps (fr_definition r) !! index).

Definition effect_attempt (r : FlowRun) (index : nat) (attempt : Z) : eres EffectAttempt :=
  let? step := or_panic (sn_steps (fr_snapshot r) !! index) in
  let? declared := declared_step r index in
  Ok {| ea_step_index := index; ea_step_id := ss_id step; ea_attempt := attempt;
        ea_idempotency_identity := ss_idempotency_identity step;
        ea_effect := fs_effect declared; ea_timeout_seconds := fs_timeout_seconds declared |}.

Definition state_by_id (r : FlowRun) (id : string) : eres StepState :=
  let? index := or_panic (definition_position (fr_definition r) id) in
  let? step := or_panic (sn_steps (fr_snapshot r) !! index) in
  Ok (ss_state step).

Definition prerequisites_complete (r : FlowRun) (index : nat) : eres bool :=
  let? step := declared_step r index in
  all_res (fun reference => let? state := state_by_id r reference in Ok (is_terminal state))
    (references step).

Definition condition_is_true (r : FlowRun) (index : nat) : eres bool :=
  let? step := declared_step r index in
  match fs_condition step with
  | Always => Ok true
  | CondSucceeded id => let? state := state_by_id r id in Ok (is_succeeded state)
  | CondFailed id => let? state := state_by_id r id in Ok (is_failed state)
  end.

Definition validate_effect (r : FlowRun) (effect : EffectAttempt) : eres unit :=
  match sn_steps (fr_snapshot r) !! ea_step_index effect with
  | None => Err EffectIdentityMismatch
  | Some step =>
    let? declared := declared_step r (ea_step_index effect) in
    if negb (String.eqb (ea_step_id effect) (ss_id step))
       || negb (String.eqb (ea_idempotency_identity effect) (ss_idempotency_identity step))
       || negb (bool_decide (ea_effect effect = fs_effect declared))
       || negb (ea_timeout_seconds effect =? fs_timeout_seconds declared)
       || (ea_attempt effect =? 0)
       || (ea_attempt effect >? max_attempts (fs_retry declared))
    then Err EffectIdentityMismatch
    else Ok tt
  end.

Definition retry_schedule (r : FlowRun) (index : nat) (effect : EffectAttempt)
    (result_kind : EffectResultKind) (now_ms : Z) : eres (option (Z * Z)) :=
  let? declared := declared_step r index in
  if negb (is_retryable_failure result_kind) || sn_cancel_requested (fr_snapshot r)
     || (max_attempts (fs_retry declared) <=? ea_attempt effect)
  then Ok None
  else
    let retry := fs_retry declared in
    let backoff := retry_backoff_ms (initial_backoff_ms retry) (max_backoff_ms retry)
                     (ea_attempt effect) in
    let? not_before_ms := ok_or (checked_add64 now_ms backoff) TimestampOverflow in
    Ok (Some (wrap8 (ea_attempt effect + 1), not_before_ms)).

Definition in_flight_effect (r : FlowRun) : eres (option EffectAttempt) :=
  match position (fun step => is_in_flight (ss_state step)) (sn_steps (fr_snapshot r)) with
  | None => Ok None
  | Some index =>
    match sn_steps (fr_snapshot r) !! index with
    | Some step =>
      match ss_state step with
      | InFlight attempt _ => let? effect := effect_attempt r index attempt in Ok (Some effect)
      | _ => Ok None
      end
    | None => Ok None
    end
  end.

Definition result_kind_of (s : StepState) : StepRunResultKind :=
  match s with
  | Succeeded _ => ResSucceeded
  | Skipped => ResSkipped
  | Failed _ => ResFailed
  | Blocked => ResBlocked
  | Cancelled => ResCancelled
  | Pending | AwaitingEffect _ | InFlight _ _ | WaitingRetry _ _ => ResNotRun
  end.

Definition run_outcome (s : FlowSnapshot) : RunOutcome :=
  let any p := existsb (fun step => p (ss_state step)) (sn_steps s) in
  match sn_status s with
  | SucceededStatus => OutSolved
  | UnresolvedStatus => OutUnresolved
  | BlockedStatus => OutBlocked
  | CancelledStatus => OutCancelled
  | _ => if any is_blocked then OutBlocked
         else if sn_cancel_requested s then OutCancelled
         else if any is_failed then OutUnresolved
         else OutSolved
  end.

Definition step_run_result (step : StepSnapshot) : StepRunResult :=
  {| sr_step_id := ss_id step; sr_semantic_role := ss_semantic_role step;
     sr_kind := result_kind_of (ss_state step);
     sr_result := rec_result <$> last (ss_results step);
     sr_blocked_report := ss_blocked_report step |}.

Definition build_result (r : FlowRun) : FlowRunResult :=
  let s := fr_snapshot r in
  let outcome := run_outcome s in
  let steps := step_run_result <$> sn_steps s in
  {| rr_run_id := sn_run_id s; rr_digest := sn_digest s; rr_outcome := outcome;
     rr_report := build_outcome_report (fd_outcome (fr_definition r)) outcome steps;
     rr_steps := steps |}.

Definition run_result (r : FlowRun) : option FlowRunResult :=
  if status_is_terminal (sn_status (fr_snapshot r)) then Some (build_result r) else None.

(** ** Updates *)

Definition observed (r : FlowRun) (decision : RunDecision) : EngineUpdate :=
  {| up_snapshot := fr_snapshot r; up_transition := None; up_decision := decision |}.

Definition observe (decision : RunDecision) : M EngineUpdate :=
  fun r => (r, Ok (observed r decision)).

(** [observed(Terminal { result: self.build_result() })]. *)
Definition observe_terminal : M EngineUpdate :=
  fun r => (r, Ok (observed r (Terminal (build_result r)))).

Definition ensure_can_change : M unit :=
  fun r => (r, if sn_sequence (fr_snapshot r) =? u64_max
               then Err TransitionSequenceOverflow else Ok tt).

Definition changed (kind : TransitionKind) (decision : RunDecision) : M EngineUpdate :=
  fun r =>
  match checked_add64 (sn_sequence (fr_snapshot r)) 1 with
  | None => (r, Err TransitionSequenceOverflow)
  | Some sequence =>
    let snapshot := set_sequence (fr_snapshot r) sequence in
    let r := with_snapshot r snapshot in
    (r, let? semantic_events := semantic_events_for_transition snapshot kind in
        Ok {| up_snapshot := snapshot;
              up_transition := Some {| tr_sequence := sequence; tr_kind := kind;
                                       tr_semantic_events := semantic_events |};
              up_decision := decision |})
  end.

(** [changed(kind, Terminal { result: self.build_result() })]: the argument is
    evaluated before the call. *)
Definition changed_terminal (kind : TransitionKind) : M EngineUpdate :=
  fun r => changed kind (Terminal (build_result r)) r.

Definition finish_cancelled : M EngineUpdate :=
  do! ensure_can_change in
  let! r := st_get in
  do! put_snapshot (set_steps (fr_snapshot r) (cancel_step <$> sn_steps (fr_snapshot r))) in
  do! put_cancel true in
  do! put_status CancelledStatus in
  do! put_issued None in
  changed_terminal (RunCompleted OutCancelled).

Definition decision_for_active (index : nat) (state : StepState) (now_ms : Z) : M EngineUpdate :=
  let! r := st_get in
  match state with
  | AwaitingEffect attempt =>
    let! effect := st_lift (effect_attempt r index attempt) in
    observe (EvaluateEffect effect false)
  | InFlight attempt _ =>
    let! effect := st_lift (effect_attempt r index attempt) in
    if bool_decide (fr_issued_attempt r = Some effect)
    then observe (AwaitResult effect)
    else match ea_effect effect with
         | ReadOnly => observe (EvaluateEffect effect true)
         | Stateful => observe (Reconcile effect)
         end
  | WaitingRetry next_attempt not_before_ms =>
    if now_ms <? not_before_ms
    then
      let! effect := st_lift (effect_attempt r index next_attempt) in
      observe (WaitRetry effect not_before_ms)
    else
      do! ensure_can_change in
      do! modify_step index (fun s => set_state s (AwaitingEffect next_attempt)) in
      do! put_status AwaitingEffectEvaluation in
      let! r := st_get in
      let! effect := st_lift (effect_attempt r index next_attempt) in
      changed (EffectEvaluationRequired (ea_step_id effect) next_attempt)
        (EvaluateEffect effect false)
  | _ => st_err UnexpectedStepState
  end.

Definition schedule_step (index : nat) (attempt : Z) : M EngineUpdate :=
  do! ensure_can_change in
  let! step := get_step index in
  match ss_approval step with
  | NotRequested =>
    let token := approval_token (ss_idempotency_identity step) in
    do! modify_step index (fun s => set_approval s (ApprovalPending token)) in
    do! put_status WaitingApproval in
    let! step := get_step index in
    changed (ApprovalRequested (ss_id step)) (AwaitApproval (ss_id step) token)
  | ApprovalPending token => observe (AwaitApproval (ss_id step) token)
  | DeniedApproval _ => st_err UnexpectedStepState
  | NotRequired | Granted _ =>
    do! modify_step index (fun s => set_state s (AwaitingEffect attempt)) in
    do! put_status AwaitingEffectEvaluation in
    let! r := st_get in
    let! effect := st_lift (effect_attempt r index attempt) in
    changed (EffectEvaluationRequired (ea_step_id effect) attempt) (EvaluateEffect effect false)
  end.

(** The loop of [next_decision]: the first pending step whose prerequisites are
    complete. *)
Fixpoint first_ready (r : FlowRun) (indices : list nat) : eres (option nat) :=
  match indices with
  | [] => Ok None
  | index :: rest =>
    let? step := or_panic (sn_steps (fr_snapshot r) !! index) in
    if negb (is_pending (ss_state step)) then first_ready r rest
    else
      let? complete := prerequisites_complete r index in
      if negb complete then first_ready r rest else Ok (Some index)
  end.

Definition first_active (s : FlowSnapshot) : option nat :=
  position (fun step => negb (is_pending (ss_state step)) && negb (is_terminal (ss_state step)))
    (sn_steps s).

(** The cancellation branch shared by [next_decision] and [cancel]. *)
Definition continue_cancellation : M EngineUpdate :=
  let! r := st_get in
  let! effect := st_lift (in_flight_effect r) in
  match effect with
  | Some effect =>
    match ea_effect effect with
    | ReadOnly => finish_cancelled
    | Stateful => observe (Reconcile effect)
    end
  | None => finish_cancelled
  end.

(** The arms of [next_decision] that skip a step and complete the run. *)
Definition skip_step (index : nat) : M EngineUpdate :=
  do! ensure_can_change in
  do! modify_step index (fun s => set_state s Skipped) in
  let! step := get_step index in
  changed (StepSkipped (ss_id step)) Continue.

Definition complete_run : M EngineUpdate :=
  do! ensure_can_change in
  let! r := st_get in
  let outcome := if existsb (fun step => is_failed (ss_state step)) (sn_steps (fr_snapshot r))
                 then OutUnresolved else OutSolved in
  do! put_status (match outcome with OutUnresolved => UnresolvedStatus | _ => SucceededStatus end) in
  changed_terminal (RunCompleted outcome).

Definition next_decision (now_ms : Z) : M EngineUpdate :=
  let! r := st_get in
  let s := fr_snapshot r in
  if status_is_terminal (sn_status s) then observe_terminal
  else if sn_cancel_requested s then continue_cancellation
  else match first_active s with
  | Some index =>
    let! step := get_step index in decision_for_active index (ss_state step) now_ms
  | None =>
    let! ready := st_lift (first_ready r (seq 0 (length (sn_steps s)))) in
    match ready with
    | Some index =>
      let! condition := st_lift (condition_is_true r index) in
      if negb condition then skip_step index
      else schedule_step index 1
    | None =>
      if forallb (fun step => is_terminal (ss_state step)) (sn_steps s)
      then complete_run
      else st_err SchedulerStalled
    end
  end.

Definition resolve_approval (token : ApprovalToken) (decision : ApprovalDecision) : M EngineUpdate :=
  let! r := st_get in
  let steps := sn_steps (fr_snapshot r) in
  match position (fun step => match ss_approval step with
                              | ApprovalPending expected => String.eqb expected token
                              | _ => false end) steps with
  | None =>
    if existsb (fun step => approval_pending (ss_approval step)) steps
    then st_err ApprovalTokenMismatch else st_err NoApprovalPending
  | Some index =>
    let! step := get_step index in
    let step_id := ss_id step in
    do! ensure_can_change in
    match decision with
    | Approve =>
      do! modify_step index (fun s => set_approval s (Granted token)) in
      do! put_status Running in
      changed (ApprovalGranted step_id) Continue
    | DenyApproval =>
      do! modify_step index (fun s => set_approval s (DeniedApproval token)) in
      do! modify_step index (fun s => set_state s Blocked) in
      do! modify_step index (fun s => set_blocked_report s
            (Some (report_trusted "the exact effect approval was denied"))) in
      do! put_status BlockedStatus in
      changed_terminal (ApprovalDenied step_id)
    end
  end.

Definition prepare_effect (effect : EffectAttempt) (now_ms : Z) : M EngineUpdate :=
  let! r := st_get in
  do! st_lift (validate_effect r effect) in
  let! step := get_step (ea_step_index effect) in
  do! ensure_can_change in
  let! replay :=
    match ss_state step with
    | AwaitingEffect attempt =>
      if attempt =? ea_attempt effect
      then
        do! modify_step (ea_step_index effect) (fun s => set_state s (InFlight attempt now_ms)) in
        st_ret false
      else st_err UnexpectedStepState
    | InFlight attempt _ =>
      if (attempt =? ea_attempt effect) && bool_decide (ea_effect effect = ReadOnly)
      then st_ret true
      else st_err StatefulReplayRequiresReconcile
    | _ => st_err UnexpectedStepState
    end in
  do! put_status EffectInFlight in
  do! put_issued (Some effect) in
  changed (EffectStarted (ea_step_id effect) (ea_attempt effect) replay) (Execute effect replay).

Definition deny_effect_authorization (effect : EffectAttempt) : M EngineUpdate :=
  let! r := st_get in
  do! st_lift (validate_effect r effect) in
  if sn_cancel_requested (fr_snapshot r) then st_err UnexpectedStepState
  else
    let! step := get_step (ea_step_index effect) in
    let! replay :=
      match ss_state step with
      | AwaitingEffect attempt =>
        if (attempt =? ea_attempt effect)
           && bool_decide (sn_status (fr_snapshot r) = AwaitingEffectEvaluation)
        then st_ret false else st_err UnexpectedStepState
      | InFlight attempt _ =>
        if (attempt =? ea_attempt effect)
           && bool_decide (sn_status (fr_snapshot r) = EffectInFlight)
           && bool_decide (ea_effect effect = ReadOnly)
        then st_ret true else st_err UnexpectedStepState
      | _ => st_err UnexpectedStepState
      end in
    do! ensure_can_change in
    do! modify_step (ea_step_index effect) (fun s => set_state s Blocked) in
    do! modify_step (ea_step_index effect) (fun s => set_blocked_report s
          (Some (report_trusted "fresh authorization for the exact effect was denied"))) in
    do! put_status BlockedStatus in
    do! put_issued None in
    changed_terminal (EffectAuthorizationDenied (ea_step_id effect) (ea_attempt effect) replay).

Definition decision_for_current_state (r : FlowRun) (index : nat) : eres RunDecision :=
  let s := fr_snapshot r in
  if status_is_terminal (sn_status s) then Ok (Terminal (build_result r))
  else
    let? step := or_panic (sn_steps s !! index) in
    match ss_state step with
    | WaitingRetry next_attempt not_before_ms =>
      let? effect := effect_attempt r index next_attempt in Ok (WaitRetry effect not_before_ms)
    | Succeeded _ | Failed _ | Skipped | Cancelled => Ok Continue
    | Blocked => if bool_decide (sn_status s = BlockedStatus)
                 then Ok (Terminal (build_result r)) else Err UnexpectedStepState
    | AwaitingEffect attempt =>
      let? effect := effect_attempt r index attempt in Ok (EvaluateEffect effect false)
    | InFlight attempt _ =>
      let? effect := effect_attempt r index attempt in Ok (AwaitResult effect)
    | Pending => Err UnexpectedStepState
    end.

(** The end of [record_effect_result], for a result that was not recorded
    before. *)
(** The result of an attempt that ends while the run is being cancelled. *)
Definition settle_cancelling (effect : EffectAttempt) (result_kind : EffectResultKind)
  : M EngineUpdate :=
  let index := ea_step_index effect in
  let attempt := ea_attempt effect in
  let step_id := ea_step_id effect in
  do! put_status Cancelling in
  match result_kind with
  | KindSucceeded =>
    do! modify_step index (fun s => set_state s (Succeeded attempt)) in
    changed (EffectSucceeded step_id attempt) Continue
  | KindFailed _ =>
    do! modify_step index (fun s => set_state s (Failed attempt)) in
    changed (EffectFailed step_id attempt) Continue
  end.

(** The result of an attempt of a running flow: success, a scheduled retry or a
    final failure. *)
Definition settle_running (effect : EffectAttempt) (result_kind : EffectResultKind)
    (schedule : option (Z * Z)) : M EngineUpdate :=
  let index := ea_step_index effect in
  let attempt := ea_attempt effect in
  let step_id := ea_step_id effect in
  match result_kind, schedule with
  | KindSucceeded, _ =>
    do! modify_step index (fun s => set_state s (Succeeded attempt)) in
    do! put_status Running in
    changed (EffectSucceeded step_id attempt) Continue
  | KindFailed _, Some (next_attempt, not_before_ms) =>
    do! modify_step index (fun s => set_state s (WaitingRetry next_attempt not_before_ms)) in
    do! put_status WaitingRetryStatus in
    let! r := st_get in
    let! next_effect := st_lift (effect_attempt r index next_attempt) in
    changed (RetryScheduled step_id next_attempt not_before_ms)
      (WaitRetry next_effect not_before_ms)
  | KindFailed retryable, None =>
    do! modify_step index (fun s => set_state s (Failed attempt)) in
    do! put_status Running in
    changed (if retryable then RetryExhausted step_id attempt else EffectFailed step_id attempt)
      Continue
  end.

Definition record_fresh_result (effect : EffectAttempt) (result : EffectResult) (now_ms : Z)
  : M EngineUpdate :=
  let! r := st_get in
  let index := ea_step_index effect in
  let result_kind := kind result in
  let! schedule := st_lift (retry_schedule r index effect result_kind now_ms) in
  do! ensure_can_change in
  do! modify_step index (fun s => push_result s
        {| rec_attempt := ea_attempt effect; rec_result := result |}) in
  do! put_issued None in
  if sn_cancel_requested (fr_snapshot r)
  then settle_cancelling effect result_kind
  else settle_running effect result_kind schedule.

Definition record_effect_result (effect : EffectAttempt) (result : EffectResult) (now_ms : Z)
  : M EngineUpdate :=
  do! st_lift (result_validate result "effect_result") in
  let! r := st_get in
  do! st_lift (validate_effect r effect) in
  let index := ea_step_index effect in
  let! step := get_step index in
  match List.find (fun record => rec_attempt record =? ea_attempt effect) (ss_results step) with
  | Some recorded =>
    if bool_decide (rec_result recorded = result)
    then let! decision := st_lift (decision_for_current_state r index) in observe decision
    else st_err (ConflictingEffectResult (ea_step_id effect) (ea_attempt effect))
  | None =>
    if negb (in_flight_at (ss_state step) (ea_attempt effect)) then st_err UnexpectedStepState
    else record_fresh_result effect result now_ms
  end.

Definition record_reconciliation (effect : EffectAttempt) (reconciliation : ReconciliationResult)
    (now_ms : Z) : M EngineUpdate :=
  let! r := st_get in
  do! st_lift (validate_effect r effect) in
  let! step := get_step (ea_step_index effect) in
  if negb (bool_decide (ea_effect effect = Stateful))
     || negb (in_flight_at (ss_state step) (ea_attempt effect))
  then st_err UnexpectedStepState
  else match reconciliation with
  | Completed result => record_effect_result effect result now_ms
  | NotApplied =>
    do! ensure_can_change in
    if sn_cancel_requested (fr_snapshot r) then finish_cancelled
    else
      do! modify_step (ea_step_index effect)
            (fun s => set_state s (AwaitingEffect (ea_attempt effect))) in
      do! put_status AwaitingEffectEvaluation in
      changed (ReconciledNotApplied (ea_step_id effect) (ea_attempt effect))
        (EvaluateEffect effect false)
  | Unknown report =>
    do! ensure_can_change in
    do! st_lift (report_validate report "reconciliation.unknown") in
    do! modify_step (ea_step_index effect) (fun s => set_state s Blocked) in
    do! modify_step (ea_step_index effect) (fun s => set_blocked_report s (Some report)) in
    do! put_status BlockedStatus in
    changed_terminal (ReconciliationUnknown (ea_step_id effect) (ea_attempt effect))
  end.

Definition cancel : M EngineUpdate :=
  let! r := st_get in
  if status_is_terminal (sn_status (fr_snapshot r)) then observe_terminal
  else if sn_cancel_requested (fr_snapshot r) then continue_cancellation
  else
    do! ensure_can_change in
    do! put_cancel true in
    let! r := st_get in
    let! effect := st_lift (in_flight_effect r) in
    match effect with
    | Some effect =>
      match ea_effect effect with
      | ReadOnly => finish_cancelled
      | Stateful =>
        do! put_status Cancelling in
        changed CancellationRequested (Reconcile effect)
      end
    | None => finish_cancelled
    end.

(** ** Construction *)

Definition initial_step (run_id : RunId) (digest : FlowDigest) (step : FlowStep) : StepSnapshot :=
  {| ss_id := fs_id step;
     ss_idempotency_identity :=
       idempotency_identity run_id digest (fs_id step) (fs_idempotency_key step);
     ss_semantic_role := semantic_role step;
     ss_approval := match fs_approval step with
                    | ModeNone => NotRequired
                    | ModeRequired => NotRequested
                    end;
     ss_state := Pending; ss_results := []; ss_blocked_report := None |}.

Definition start (run_id : RunId) (definition : FlowDefinition) : eres FlowRun :=
  let? _ := from_validation (definition_validate definition) in
  let? _ := validate_engine_identity "run_id" run_id MAX_RUN_ID_BYTES in
  let? digest := from_validation (normalized_digest definition) in
  Ok {| fr_definition := definition;
        fr_snapshot :=
          {| sn_version := FLOW_SNAPSHOT_VERSION; sn_run_id := run_id; sn_digest := digest;
             sn_status := Running; sn_cancel_requested := false; sn_sequence := 0;
             sn_steps := initial_step run_id digest <$> fd_steps definition |};
        fr_issued_attempt := None |}.

Definition resume (expected_run_id : RunId) (definition : FlowDefinition) (snapshot : FlowSnapshot)
  : eres FlowRun :=
  let? _ := from_validation (definition_validate definition) in
  if negb (String.eqb (sn_run_id snapshot) expected_run_id) then Err RunIdMismatch
  else
    let? digest := from_validation (normalized_digest definition) in
    if negb (String.eqb (sn_digest snapshot) digest) then Err DefinitionDigestMismatch
    else
      let? snapshot :=
        if sn_version snapshot =? 1
        then if negb (length (sn_steps snapshot) =? length (fd_steps definition))%nat
             then Err SnapshotShapeMismatch
             else Ok (set_version
                        (set_steps snapshot
                           (copy_roles (sn_steps snapshot) (semantic_role <$> fd_steps definition)))
                        FLOW_SNAPSHOT_VERSION)
        else Ok snapshot in
      let? _ := validate_snapshot definition snapshot in
      Ok {| fr_definition := definition; fr_snapshot := snapshot; fr_issued_attempt := None |}.

End engine.
