(* ===== verification/FlowSamples.v ===== *)
(** * Sample flows

    Small concrete definitions and a stand-in hash, on which the executable
    model is evaluated. The hash only makes the samples computable; it keeps
    the 32-byte length of a digest and nothing else is proved from its definition. *)

From S2P Require Import Prelude FlowDef FlowData FlowSnapshot FlowEngine.

Local Open Scope Z_scope.

(** A 32-byte rolling sum: enough to tell the samples' identities apart. *)
Fixpoint sample_fold (acc : Z) (s : string) : Z :=
  match s with
  | EmptyString => acc
  | String a s => sample_fold ((acc * 257 + byte_val a + 1) `mod` 4294967291) s
  end.
Definition sample_sha256 (s : string) : string :=
  let b := to_be_bytes64 (sample_fold 7 s) in b +:+ b +:+ b +:+ b.
Definition sample_hash : Sha256 := sample_sha256.

Definition sample_outcome : OutcomeTemplate :=
  {| ot_solved := "The gate is green."; ot_changed := "The fix was applied.";
     ot_verified := "The gate was verified."; ot_unresolved := "The gate is still red.";
     ot_blocked := "An approval is missing." |}.

Definition sample_probe : FlowStep :=
  {| fs_id := "probe"; fs_description := "Read the gate."; fs_depends_on := [];
     fs_condition := Always;
     fs_retry := {| max_attempts := 3; initial_backoff_ms := 100; max_backoff_ms := 150 |};
     fs_approval := ModeNone; fs_idempotency_key := None; fs_timeout_seconds := 30;
     fs_effect := ReadOnly; fs_semantic := Some Verify;
     fs_action := Command "cargo" ["test"; "--all"] "." |}.

Definition sample_apply : FlowStep :=
  {| fs_id := "apply"; fs_description := "Apply the fix."; fs_depends_on := ["probe"];
     fs_condition := Always; fs_retry := RetryPolicy_default;
     fs_approval := ModeRequired; fs_idempotency_key := Some "apply-fix"; fs_timeout_seconds := 60;
     fs_effect := Stateful; fs_semantic := Some Change;
     fs_action := Connector "jira" "jira.comment" {| cr_kind := "issue"; cr_id := "PAM-1" |} |}.

(** The same stateful step, guarded by the failure of the probe. *)
Definition sample_guarded : FlowStep :=
  {| fs_id := "apply"; fs_description := "Apply the fix."; fs_depends_on := [];
     fs_condition := CondFailed "probe"; fs_retry := RetryPolicy_default;
     fs_approval := ModeRequired; fs_idempotency_key := Some "apply-fix"; fs_timeout_seconds := 60;
     fs_effect := Stateful; fs_semantic := Some Change;
     fs_action := Connector "jira" "jira.comment" {| cr_kind := "issue"; cr_id := "PAM-1" |} |}.

Definition sample_definition (second : FlowStep) : FlowDefinition :=
  {| fd_schema_version := 2; fd_id := "release-check"; fd_name := "Release check";
     fd_description := "Checks a release."; fd_revision := 1;
     fd_steps := [sample_probe; second]; fd_outcome := sample_outcome |}.

Definition sample_flow : FlowDefinition := sample_definition sample_apply.
Definition guarded_flow : FlowDefinition := sample_definition sample_guarded.

(** The state after a computation that returned. *)
Definition run_state {A} (m : M A) (r : FlowRun) : FlowRun := (m r).1.

Definition empty_snapshot : FlowSnapshot :=
  {| sn_version := 2; sn_run_id := "none"; sn_digest := ""; sn_status := Running;
     sn_cancel_requested := false; sn_sequence := 0; sn_steps := [] |}.

Definition sample_start (d : FlowDefinition) : FlowRun :=
  match @start sample_hash "run-1" d with
  | Ok r => r
  | _ => {| fr_definition := d; fr_snapshot := empty_snapshot; fr_issued_attempt := None |}
  end.

Definition probe_attempt (d : FlowDefinition) (attempt : Z) : EffectAttempt :=
  match effect_attempt (sample_start d) 0 attempt with
  | Ok e => e
  | _ => {| ea_step_index := 0; ea_step_id := ""; ea_attempt := 0; ea_idempotency_identity := "";
            ea_effect := ReadOnly; ea_timeout_seconds := 0 |}
  end.

Definition sample_success : EffectResult :=
  {| kind := KindSucceeded; report := {| summary := "all tests pass"; evidence := ["pam/log-1"] |} |}.
Definition sample_failure (retryable : bool) : EffectResult :=
  {| kind := KindFailed retryable; report := {| summary := "two tests fail"; evidence := ["pam/log-2"] |} |}.

(** The probe runs once and succeeds. *)
Definition probe_succeeded (d : FlowDefinition) : FlowRun :=
  let h := sample_hash in
  let r := run_state (next_decision 1000) (sample_start d) in
  let r := run_state (prepare_effect (probe_attempt d 1) 1000) r in
  run_state (record_effect_result (probe_attempt d 1) sample_success 1010) r.
