(* ===== verification/FlowSpec.v ===== *)
(** * The flow run as a state machine

    An abstract specification of the engine: [flow_step] is the relation of the
    transitions a run may make, [snap_inv] the invariant of its snapshots, and
    [flow_step_inv] the proof that every transition keeps it. [FlowRefine]
    shows that the engine's operations only make these transitions, and
    [FlowAccept] that the snapshot validators accept them. *)

From S2P Require Import Prelude FlowDef FlowGraph FlowValid FlowData FlowSnapshot FlowEngine.

Local Open Scope Z_scope.

(** ** Engine texts: an invalid value is the only error, and success does not
    depend on the reported path *)

Definition checked (m : eres unit) : Prop :=
  m = Ok tt \/ exists path message, m = Err (InvalidValue path message).

Lemma checked_total m : checked m -> m <> Panic.
Proof. by intros [->|(? & ? & ->)]. Qed.

Lemma checked_bind (m k : eres unit) : checked m -> checked k -> checked (let? _ := m in k).
Proof. intros [->|(p & q & ->)] Hk; [done|right; eauto]. Qed.

Lemma checked_iter {A} (f : A -> eres unit) l : (forall x, checked (f x)) -> checked (iter_res f l).
Proof. intros Hf. induction l as [|x l IH]; simpl; [by left|]. by apply (checked_bind (f x)). Qed.

Lemma engine_text_checked p v m : checked (validate_engine_text p v m).
Proof.
  unfold validate_engine_text, engine_invalid, reject_secret_like, checked.
  destruct (str_is_empty v), (len v >? m), (negb (is_trimmed v) || existsb is_control (chars v));
    simpl; eauto. destruct (_ || _); simpl; eauto.
Qed.

Lemma engine_identity_checked p v m : checked (validate_engine_identity p v m).
Proof.
  unfold validate_engine_identity. apply checked_bind; [apply engine_text_checked|].
  unfold checked, engine_invalid. destruct (negb _); eauto.
Qed.

Lemma report_checked r p : checked (report_validate r p).
Proof.
  unfold report_validate. apply checked_bind; [apply engine_text_checked|].
  destruct (_ >? _); [right; unfold engine_invalid; eauto|].
  apply checked_iter. intros [i h]. apply engine_identity_checked.
Qed.

Lemma engine_text_path p q v m :
  validate_engine_text p v m = Ok tt -> validate_engine_text q v m = Ok tt.
Proof.
  unfold validate_engine_text. destruct (str_is_empty v), (len v >? m),
    (negb (is_trimmed v) || existsb is_control (chars v)); try discriminate.
  destruct (reject_secret_like p v) as [[]| |] eqn:E; try discriminate.
  by rewrite (reject_secret_like_path p q v E).
Qed.

Lemma engine_identity_path p q v m :
  validate_engine_identity p v m = Ok tt -> validate_engine_identity q v m = Ok tt.
Proof.
  unfold validate_engine_identity.
  destruct (validate_engine_text p v m) as [[]| |] eqn:E; try discriminate.
  rewrite (engine_text_path p q v m E). by destruct (negb _).
Qed.

Lemma report_path p q r : report_validate r p = Ok tt -> report_validate r q = Ok tt.
Proof.
  unfold report_validate.
  destruct (validate_engine_text (p +:+ ".summary") _ _) as [[]| |] eqn:E; try discriminate.
  rewrite (engine_text_path _ (q +:+ ".summary") _ _ E). destruct (_ >? _); [discriminate|].
  rewrite !iter_res_Ok. intros Hall [i h] Hin. eapply engine_identity_path. apply (Hall (i, h) Hin).
Qed.

(** ** Inactive steps *)

Lemma inactive_quiet st :
  is_active st = false ->
  approval_pending (ss_approval st) = false /\
  (is_pending (ss_state st) || is_terminal (ss_state st)) = true.
Proof.
  unfold is_active. destruct (approval_pending _), (is_pending _), (is_terminal _); simpl; done.
Qed.

(** Rewrites the tests of [computed_status] with [Hany], which says what
    [existsb p] is for every [p] that is false on inactive unblocked steps. *)
Ltac inactive_existsb Hany :=
  unfold computed_status; simpl;
  rewrite ?(Hany (fun b => is_blocked (ss_state b))), ?(Hany (fun b => approval_pending (ss_approval b))),
    ?(Hany (fun b => is_waiting_retry (ss_state b))), ?(Hany (fun b => is_awaiting_effect (ss_state b))),
    ?(Hany (fun b => is_in_flight (ss_state b)))
    by (let b := fresh in let Hb := fresh in let Hn := fresh in
        intros b Hb Hn; apply inactive_quiet in Hb as [? ?]; by destruct (ss_state b)).

Section spec.
Context `{Sha256}.

(** ** The invariant of one step *)

Definition report_ok (r : EffectReport) : Prop := report_validate r "" = Ok tt.
Definition result_ok (r : EffectResult) : Prop := report_ok (report r).

Definition all_retryable (l : list RecordedEffectResult) : Prop :=
  Forall (fun record => is_retryable_failure (kind (rec_result record)) = true) l.

(** What the state of a step says about its results, report and approval. *)
Definition state_inv (max : Z) (cancel : bool) (st : StepSnapshot) : Prop :=
  let rs := ss_results st in
  let n := Z.of_nat (length rs) in
  let ready := approval_ready (ss_approval st) = true in
  match ss_state st with
  | Pending =>
    rs = [] /\ ss_blocked_report st = None /\ (forall t, ss_approval st <> DeniedApproval t)
  | Skipped =>
    rs = [] /\ ss_blocked_report st = None /\ (ready \/ ss_approval st = NotRequested)
  | AwaitingEffect a | InFlight a _ =>
    a = n + 1 /\ a <= max /\ all_retryable rs /\ ss_blocked_report st = None /\ ready
  | WaitingRetry a _ =>
    rs <> [] /\ a = n + 1 /\ a <= max /\ all_retryable rs /\ ss_blocked_report st = None /\ ready
  | Succeeded a =>
    ss_blocked_report st = None /\ ready /\ a = n /\
    exists init record, rs = init ++ [record] /\ all_retryable init
      /\ kind (rec_result record) = KindSucceeded
  | Failed a =>
    ss_blocked_report st = None /\ ready /\ a = n /\
    exists init record retryable, rs = init ++ [record] /\ all_retryable init
      /\ kind (rec_result record) = KindFailed retryable
      /\ (retryable = true -> cancel = true \/ n = max)
  | Blocked =>
    is_Some (ss_blocked_report st) /\ all_retryable rs /\
    (ready \/ exists t, ss_approval st = DeniedApproval t /\ rs = [])
  | Cancelled =>
    ss_blocked_report st = None /\ all_retryable rs /\
    (ready \/ (ss_approval st = NotRequested /\ rs = []))
  end.

Record step_inv (run_id : RunId) (digest : FlowDigest) (cancel : bool)
    (dcl : FlowStep) (st : StepSnapshot) : Prop := {
  st_id : ss_id st = fs_id dcl;
  st_role : ss_semantic_role st = semantic_role dcl;
  st_identity : ss_idempotency_identity st =
    idempotency_identity run_id digest (fs_id dcl) (fs_idempotency_key dcl);
  st_count : Z.of_nat (length (ss_results st)) <= max_attempts (fs_retry dcl);
  st_mode : approval_mode_matches (ss_approval st) (fs_approval dcl) = true;
  st_token : token_mismatch st = false;
  st_numbered : forall k record, ss_results st !! k = Some record ->
    rec_attempt record = Z.of_nat k + 1 /\ result_ok (rec_result record);
  st_blocked : forall r, ss_blocked_report st = Some r -> report_ok r;
  st_state : state_inv (max_attempts (fs_retry dcl)) cancel st
}.

(** ** The invariant of a snapshot *)

(** The declared step and the stored step at an index. *)
Definition at_index (d : FlowDefinition) (s : FlowSnapshot) (i : nat) (dcl : FlowStep)
    (st : StepSnapshot) : Prop :=
  fd_steps d !! i = Some dcl /\ sn_steps s !! i = Some st.

Definition refs_terminal (d : FlowDefinition) (s : FlowSnapshot) (dcl : FlowStep) : Prop :=
  forall reference, reference ∈ references dcl -> exists j t,
    definition_position d reference = Some j /\ sn_steps s !! j = Some t
    /\ is_terminal (ss_state t) = true.

Definition past_scheduling (st : StepSnapshot) : Prop :=
  ss_state st <> Pending \/ exists t, ss_approval st = ApprovalPending t \/ ss_approval st = Granted t.

(** A step that was scheduled has complete prerequisites, and it was skipped
    exactly when its condition is false. *)
Definition graph_ok (d : FlowDefinition) (s : FlowSnapshot) (dcl : FlowStep)
    (st : StepSnapshot) : Prop :=
  ss_state st <> Cancelled -> past_scheduling st ->
  refs_terminal d s dcl /\
  declared_condition_true d s (fs_condition dcl) = Ok (negb (is_skipped (ss_state st))).

(** No pending step before [i] has complete prerequisites. *)
Definition first_schedulable (d : FlowDefinition) (s : FlowSnapshot) (i : nat) : Prop :=
  forall k dcl st, (k < i)%nat -> at_index d s k dcl st -> ss_state st = Pending ->
    ~ refs_terminal d s dcl.

(** After a cancellation request only a stateful effect is still under way. *)
Definition cancel_quiet (dcl : FlowStep) (st : StepSnapshot) : Prop :=
  approval_pending (ss_approval st) = false /\
  (is_pending (ss_state st) || is_in_flight (ss_state st) || is_terminal (ss_state st)) = true /\
  (is_in_flight (ss_state st) = true -> fs_effect dcl = Stateful).

Record snap_inv (d : FlowDefinition) (s : FlowSnapshot) : Prop := {
  iv_version : sn_version s = FLOW_SNAPSHOT_VERSION;
  iv_run_id : validate_engine_identity "snapshot.run_id" (sn_run_id s) MAX_RUN_ID_BYTES = Ok tt;
  iv_digest : normalized_digest d = Ok (sn_digest s);
  iv_length : length (sn_steps s) = length (fd_steps d);
  iv_steps : forall i dcl st, at_index d s i dcl st ->
    step_inv (sn_run_id s) (sn_digest s) (sn_cancel_requested s) dcl st;
  iv_active : forall i j a b, sn_steps s !! i = Some a -> sn_steps s !! j = Some b ->
    is_active a = true -> is_active b = true -> i = j;
  iv_status : computed_status s = sn_status s;
  iv_graph : forall i dcl st, at_index d s i dcl st -> graph_ok d s dcl st;
  iv_cancelled : forall st, st ∈ sn_steps s -> ss_state st = Cancelled ->
    sn_status s = CancelledStatus;
  iv_blocked : (exists st, st ∈ sn_steps s /\ ss_state st = Blocked) <-> sn_status s = BlockedStatus;
  iv_quiet : sn_cancel_requested s = true -> forall i dcl st, at_index d s i dcl st ->
    cancel_quiet dcl st;
  iv_final : sn_status s = CancelledStatus ->
    sn_cancel_requested s = true /\ forall st, st ∈ sn_steps s -> is_terminal (ss_state st) = true;
  iv_stopped : status_is_terminal (sn_status s) = true ->
    forall st, st ∈ sn_steps s -> is_active st = false;
  iv_first : forall i st, sn_steps s !! i = Some st -> approval_pending (ss_approval st) = true ->
    first_schedulable d s i
}.

(** ** The transitions *)

Definition denied_report : EffectReport := report_trusted "the exact effect approval was denied".
Definition unauthorized_report : EffectReport :=
  report_trusted "fresh authorization for the exact effect was denied".

Inductive flow_step (d : FlowDefinition) (s : FlowSnapshot) : TransitionKind -> FlowSnapshot -> Prop :=
| step_skip i dcl st :
    at_index d s i dcl st -> sn_cancel_requested s = false -> sn_status s = Running ->
    ss_state st = Pending -> refs_terminal d s dcl ->
    declared_condition_true d s (fs_condition dcl) = Ok false ->
    flow_step d s (StepSkipped (ss_id st)) (with_step s i (set_state st Skipped))
| step_request i dcl st :
    at_index d s i dcl st -> sn_cancel_requested s = false -> sn_status s = Running ->
    ss_state st = Pending -> ss_approval st = NotRequested -> refs_terminal d s dcl ->
    declared_condition_true d s (fs_condition dcl) = Ok true -> first_schedulable d s i ->
    flow_step d s (ApprovalRequested (ss_id st))
      (set_status (with_step s i (set_approval st
         (ApprovalPending (approval_token (ss_idempotency_identity st))))) WaitingApproval)
| step_grant i dcl st token :
    at_index d s i dcl st -> sn_cancel_requested s = false -> sn_status s = WaitingApproval ->
    ss_approval st = ApprovalPending token ->
    flow_step d s (ApprovalGranted (ss_id st))
      (set_status (with_step s i (set_approval st (Granted token))) Running)
| step_deny i dcl st token :
    at_index d s i dcl st -> sn_cancel_requested s = false -> sn_status s = WaitingApproval ->
    ss_approval st = ApprovalPending token ->
    flow_step d s (ApprovalDenied (ss_id st))
      (set_status (with_step s i (set_blocked_report
         (set_state (set_approval st (DeniedApproval token)) Blocked) (Some denied_report)))
         BlockedStatus)
| step_evaluate i dcl st :
    at_index d s i dcl st -> sn_cancel_requested s = false -> sn_status s = Running ->
    ss_state st = Pending -> approval_ready (ss_approval st) = true -> refs_terminal d s dcl ->
    declared_condition_true d s (fs_condition dcl) = Ok true ->
    flow_step d s (EffectEvaluationRequired (ss_id st) 1)
      (set_status (with_step s i (set_state st (AwaitingEffect 1))) AwaitingEffectEvaluation)
| step_retry i dcl st attempt not_before :
    at_index d s i dcl st -> sn_cancel_requested s = false ->
    sn_status s = WaitingRetryStatus -> ss_state st = WaitingRetry attempt not_before ->
    flow_step d s (EffectEvaluationRequired (ss_id st) attempt)
      (set_status (with_step s i (set_state st (AwaitingEffect attempt))) AwaitingEffectEvaluation)
| step_unauthorized i dcl st attempt replay :
    at_index d s i dcl st -> sn_cancel_requested s = false ->
    (if replay : bool
     then sn_status s = EffectInFlight /\ in_flight_at (ss_state st) attempt = true
          /\ fs_effect dcl = ReadOnly
     else sn_status s = AwaitingEffectEvaluation /\ awaiting_at (ss_state st) attempt = true) ->
    flow_step d s (EffectAuthorizationDenied (ss_id st) attempt replay)
      (set_status (with_step s i (set_blocked_report (set_state st Blocked)
         (Some unauthorized_report))) BlockedStatus)
| step_started i dcl st attempt now :
    at_index d s i dcl st -> sn_cancel_requested s = false ->
    sn_status s = AwaitingEffectEvaluation -> ss_state st = AwaitingEffect attempt ->
    flow_step d s (EffectStarted (ss_id st) attempt false)
      (set_status (with_step s i (set_state st (InFlight attempt now))) EffectInFlight)
| step_replayed i dcl st attempt started :
    at_index d s i dcl st -> sn_cancel_requested s = false -> sn_status s = EffectInFlight ->
    ss_state st = InFlight attempt started -> fs_effect dcl = ReadOnly ->
    flow_step d s (EffectStarted (ss_id st) attempt true) (set_status s EffectInFlight)
| step_succeeded i dcl st attempt started result :
    at_index d s i dcl st -> in_flight_or_cancelling (sn_status s) = true ->
    ss_state st = InFlight attempt started -> result_ok result -> kind result = KindSucceeded ->
    flow_step d s (EffectSucceeded (ss_id st) attempt)
      (set_status (with_step s i (set_state
         (push_result st {| rec_attempt := attempt; rec_result := result |}) (Succeeded attempt)))
         (result_status s))
| step_retry_scheduled i dcl st attempt started result not_before :
    at_index d s i dcl st -> sn_cancel_requested s = false -> sn_status s = EffectInFlight ->
    ss_state st = InFlight attempt started -> result_ok result -> kind result = KindFailed true ->
    attempt < max_attempts (fs_retry dcl) ->
    flow_step d s (RetryScheduled (ss_id st) (attempt + 1) not_before)
      (set_status (with_step s i (set_state
         (push_result st {| rec_attempt := attempt; rec_result := result |})
         (WaitingRetry (attempt + 1) not_before))) WaitingRetryStatus)
| step_exhausted i dcl st attempt started result :
    at_index d s i dcl st -> sn_cancel_requested s = false -> sn_status s = EffectInFlight ->
    ss_state st = InFlight attempt started -> result_ok result -> kind result = KindFailed true ->
    attempt = max_attempts (fs_retry dcl) ->
    flow_step d s (RetryExhausted (ss_id st) attempt)
      (set_status (with_step s i (set_state
         (push_result st {| rec_attempt := attempt; rec_result := result |}) (Failed attempt)))
         Running)
| step_failed i dcl st attempt started result retryable :
    at_index d s i dcl st -> in_flight_or_cancelling (sn_status s) = true ->
    ss_state st = InFlight attempt started -> result_ok result -> kind result = KindFailed retryable ->
    sn_cancel_requested s || negb retryable = true ->
    flow_step d s (EffectFailed (ss_id st) attempt)
      (set_status (with_step s i (set_state
         (push_result st {| rec_attempt := attempt; rec_result := result |}) (Failed attempt)))
         (result_status s))
| step_not_applied i dcl st attempt started :
    at_index d s i dcl st -> sn_cancel_requested s = false -> sn_status s = EffectInFlight ->
    ss_state st = InFlight attempt started -> fs_effect dcl = Stateful ->
    flow_step d s (ReconciledNotApplied (ss_id st) attempt)
      (set_status (with_step s i (set_state st (AwaitingEffect attempt))) AwaitingEffectEvaluation)
| step_unknown i dcl st attempt started rep :
    at_index d s i dcl st -> in_flight_or_cancelling (sn_status s) = true ->
    ss_state st = InFlight attempt started -> fs_effect dcl = Stateful -> report_ok rep ->
    flow_step d s (ReconciliationUnknown (ss_id st) attempt)
      (set_status (with_step s i (set_blocked_report (set_state st Blocked) (Some rep)))
         BlockedStatus)
| step_cancel_requested i dcl st attempt started :
    at_index d s i dcl st -> sn_cancel_requested s = false -> sn_status s = EffectInFlight ->
    ss_state st = InFlight attempt started -> fs_effect dcl = Stateful ->
    flow_step d s CancellationRequested (set_status (set_cancel s true) Cancelling)
| step_completed outcome :
    sn_cancel_requested s = false -> sn_status s = Running ->
    (forall st, st ∈ sn_steps s -> is_terminal (ss_state st) = true) ->
    outcome = (if existsb (fun st => is_failed (ss_state st)) (sn_steps s)
               then OutUnresolved else OutSolved) ->
    flow_step d s (RunCompleted outcome)
      (set_status s (match outcome with OutUnresolved => UnresolvedStatus | _ => SucceededStatus end))
| step_cancelled :
    status_is_terminal (sn_status s) = false ->
    flow_step d s (RunCompleted OutCancelled)
      (set_steps (set_status (set_cancel s true) CancelledStatus) (cancel_step <$> sn_steps s)).

(** ** Facts of the invariant *)

Section facts.
Context (d : FlowDefinition) (s : FlowSnapshot) (Hinv : snap_inv d s).

Lemma declared_at i st : sn_steps s !! i = Some st -> exists dcl, at_index d s i dcl st.
Proof.
  intros Hi. pose proof (lookup_lt_Some _ _ _ Hi) as Hlt. rewrite (iv_length _ _ Hinv) in Hlt.
  apply lookup_lt_is_Some_2 in Hlt as [dcl Hd]. by exists dcl.
Qed.

Lemma inactive_unless i j a b :
  sn_steps s !! i = Some a -> is_active a = true -> j <> i -> sn_steps s !! j = Some b ->
  is_active b = false.
Proof.
  intros Hi Ha Hne Hj. destruct (is_active b) eqn:E; [|done].
  destruct Hne. by eapply (iv_active _ _ Hinv).
Qed.

Lemma running_inactive st :
  sn_cancel_requested s = false -> sn_status s = Running -> st ∈ sn_steps s -> is_active st = false.
Proof.
  intros Hc Hs Hst. pose proof (iv_status _ _ Hinv) as E. unfold computed_status in E.
  rewrite Hc, Hs in E.
  repeat match type of E with
         | context [if existsb ?p ?l then _ else _] =>
           let F := fresh in destruct (existsb p l) eqn:F; [discriminate|];
           apply existsb_false_elem with (x := st) in F; [|done]
         end.
  unfold is_active. destruct (ss_state st); simpl in *; done.
Qed.

Lemma live_not_blocked st :
  status_is_terminal (sn_status s) = false -> st ∈ sn_steps s -> ss_state st <> Blocked.
Proof.
  intros Hl Hst Hb. assert (E : sn_status s = BlockedStatus) by (apply (iv_blocked _ _ Hinv); eauto).
  by rewrite E in Hl.
Qed.

Lemma live_not_cancelled st :
  status_is_terminal (sn_status s) = false -> st ∈ sn_steps s -> ss_state st <> Cancelled.
Proof. intros Hl Hst Hb. by rewrite (iv_cancelled _ _ Hinv st Hst Hb) in Hl. Qed.

End facts.

(** ** Steps that are not terminal may change *)

(** [s'] keeps the terminal steps of [s]. *)
Definition keeps_terminal (s s' : FlowSnapshot) : Prop :=
  forall j t, sn_steps s !! j = Some t -> is_terminal (ss_state t) = true ->
    exists t', sn_steps s' !! j = Some t' /\ ss_state t' = ss_state t.

Lemma refs_terminal_keep d s s' dcl :
  keeps_terminal s s' -> refs_terminal d s dcl -> refs_terminal d s' dcl.
Proof.
  intros Hk Hr r Hin. destruct (Hr r Hin) as (j & t & Hj & Ht & Hterm).
  destruct (Hk j t Ht Hterm) as (t' & Ht' & E). exists j, t'. by rewrite E.
Qed.

Lemma condition_reference dcl id :
  referenced_step (fs_condition dcl) = Some id -> id ∈ references dcl.
Proof. intros E. unfold references. rewrite E. set_solver. Qed.

Lemma condition_keep d s s' dcl :
  keeps_terminal s s' -> refs_terminal d s dcl ->
  declared_condition_true d s' (fs_condition dcl) = declared_condition_true d s (fs_condition dcl).
Proof.
  intros Hk Hr.
  assert (Hid : forall id, referenced_step (fs_condition dcl) = Some id ->
            snapshot_state_by_id d s' id = snapshot_state_by_id d s id).
  { intros id Hid. destruct (Hr id (condition_reference _ _ Hid)) as (j & t & Hj & Ht & Hterm).
    destruct (Hk j t Ht Hterm) as (t' & Ht' & E).
    unfold snapshot_state_by_id. rewrite Hj, Ht, Ht'. simpl. by rewrite E. }
  unfold declared_condition_true. destruct (fs_condition dcl); [done| |]; by rewrite Hid.
Qed.

Lemma graph_ok_keep d s s' dcl st :
  keeps_terminal s s' -> graph_ok d s dcl st -> graph_ok d s' dcl st.
Proof.
  intros Hk Hg Hc Hp. destruct (Hg Hc Hp) as [Hr Hcond]. split.
  - by eapply refs_terminal_keep.
  - by rewrite (condition_keep _ _ _ _ Hk Hr).
Qed.

Lemma with_step_keeps s i st st' v :
  sn_steps s !! i = Some st -> is_terminal (ss_state st) = false ->
  keeps_terminal s (set_status (with_step s i st') v).
Proof.
  intros Hi Ht j t Hj Hterm. exists t. split; [|done]. simpl.
  apply list_lookup_insert_Some. right. split; [|done]. intros ->. congruence.
Qed.

(** The status of a run whose only active step is [st]. *)
Definition focus_status (st : StepSnapshot) : RunStatus :=
  if approval_pending (ss_approval st) then WaitingApproval
  else match ss_state st with
       | Blocked => BlockedStatus
       | WaitingRetry _ _ => WaitingRetryStatus
       | AwaitingEffect _ => AwaitingEffectEvaluation
       | InFlight _ _ => EffectInFlight
       | _ => Running
       end.

Lemma computed_focus s i st' v :
  (i < length (sn_steps s))%nat ->
  (forall j b, j <> i -> sn_steps s !! j = Some b -> is_active b = false /\ ss_state b <> Blocked) ->
  (ss_state st' = Blocked -> approval_pending (ss_approval st') = false) ->
  (if sn_cancel_requested s then v = Cancelling \/ v = BlockedStatus else v = focus_status st') ->
  computed_status (set_status (with_step s i st') v) = v.
Proof.
  intros Hi Hother Hbl Hv. unfold computed_status. simpl.
  destruct (sn_cancel_requested s); [destruct Hv as [-> | ->]; done|].
  assert (Hany : forall p, (forall b, is_active b = false -> ss_state b <> Blocked -> p b = false) ->
            existsb p (<[i := st']> (sn_steps s)) = p st').
  { intros p Hp. apply existsb_insert_only; [done|]. intros j y Hne Hy.
    destruct (Hother j y Hne Hy). auto. }
  inactive_existsb Hany.
  subst v. unfold focus_status in *.
  destruct (approval_pending (ss_approval st')); [by destruct (ss_state st'); try naive_solver|].
  destruct (ss_state st'); simpl; try done; by destruct (forallb _ _).
Qed.

(** One step of a live snapshot is replaced: what has to be shown of the new
    step. *)
Record good_change (d : FlowDefinition) (s : FlowSnapshot) (i : nat) (dcl : FlowStep)
    (st' : StepSnapshot) (v : RunStatus) : Prop := {
  gc_step : step_inv (sn_run_id s) (sn_digest s) (sn_cancel_requested s) dcl st';
  gc_status : if sn_cancel_requested s then v = Cancelling \/ v = BlockedStatus
              else v = focus_status st';
  gc_graph : graph_ok d s dcl st';
  gc_cancelled : ss_state st' <> Cancelled;
  gc_blocked : ss_state st' = Blocked <-> v = BlockedStatus;
  gc_quiet : sn_cancel_requested s = true -> cancel_quiet dcl st';
  gc_stopped : ss_state st' = Blocked -> approval_pending (ss_approval st') = false;
  gc_first : approval_pending (ss_approval st') = true ->
    first_schedulable d s i /\ ss_state st' = Pending
}.

Lemma first_schedulable_keep d s i st' v :
  sn_steps s !! i <> None -> is_terminal (ss_state st') = false ->
  first_schedulable d s i -> first_schedulable d (set_status (with_step s i st') v) i.
Proof.
  intros Hi Ht Hf k dcl st Hk [Hd Hs] Hp Hr. simpl in Hs.
  rewrite list_lookup_insert_ne in Hs by lia. apply (Hf k dcl st Hk (conj Hd Hs) Hp).
  intros r Hin. destruct (Hr r Hin) as (j & t & Hj & Hjt & Hterm). exists j, t.
  split_and!; [done| |done]. simpl in Hjt.
  apply list_lookup_insert_Some in Hjt as [(-> & <- & _)|[_ Hjt]]; [congruence|done].
Qed.

(** The status that goes with a changed step is never [Cancelled], and it ends
    the run only by blocking it. *)
Lemma good_change_status d s i dcl st' v :
  good_change d s i dcl st' v ->
  v <> CancelledStatus /\ (status_is_terminal v = true -> v = BlockedStatus).
Proof.
  intros [_ G2 _ _ _ _ _ _]. destruct (sn_cancel_requested s); [by destruct G2; subst v|].
  subst v. unfold focus_status. by destruct (approval_pending _), (ss_state st').
Qed.

Lemma blocked_with_step d s i st' v :
  snap_inv d s -> (i < length (sn_steps s))%nat -> status_is_terminal (sn_status s) = false ->
  (ss_state st' = Blocked <-> v = BlockedStatus) ->
  (exists b, b ∈ <[i := st']> (sn_steps s) /\ ss_state b = Blocked) <-> v = BlockedStatus.
Proof.
  intros Hinv Hlt Hlive Hbl. rewrite <-Hbl. split.
  - intros (b & Hb & Hbb). destruct (insert_elem_split _ _ _ _ Hb) as [->|(j & Hne & Hj)]; [done|].
    apply list_elem_of_lookup_2 in Hj. by destruct (live_not_blocked d s Hinv b Hlive Hj).
  - intros E. exists st'. split; [|done]. apply list_elem_of_lookup. exists i.
    by rewrite list_lookup_insert_eq.
Qed.

Lemma inv_with_step d s i dcl st st' v :
  snap_inv d s -> at_index d s i dcl st -> is_terminal (ss_state st) = false ->
  status_is_terminal (sn_status s) = false ->
  (forall j b, j <> i -> sn_steps s !! j = Some b -> is_active b = false) ->
  good_change d s i dcl st' v ->
  snap_inv d (set_status (with_step s i st') v).
Proof.
  intros Hinv [Hd Hi] Hnt Hlive Hother Hg. pose proof (lookup_lt_Some _ _ _ Hi) as Hlt.
  destruct (good_change_status _ _ _ _ _ _ Hg) as [Hv Hterm].
  pose proof (blocked_with_step d s i st' v Hinv Hlt Hlive (gc_blocked _ _ _ _ _ _ Hg)) as Hblocked.
  assert (Hnb : forall j b, j <> i -> sn_steps s !! j = Some b ->
            is_active b = false /\ ss_state b <> Blocked).
  { intros j b Hne Hj. split; [by eapply Hother|].
    apply (live_not_blocked d s Hinv); [done|by eapply list_elem_of_lookup_2]. }
  destruct Hg as [G1 G2 G3 G4 G5 G6 G7 G8], Hinv as [I1 I2 I3 I4 I5 I6 I7 I8 I9 I10 I11 I12 I13 I14].
  split; simpl; try done.
  - by rewrite length_insert.
  - intros j dcl' b [Hdj Hj]. apply insert_lookup_split in Hj as [[-> ->]|[_ Hj]]; [|by apply (I5 j)].
    simpl in Hdj. congruence.
  - intros a b x y Ha Hb Hxa Hyb.
    apply insert_lookup_split in Ha as [[-> ->]|[Hna Ha]];
      apply insert_lookup_split in Hb as [[-> ->]|[Hnb' Hb]]; try done;
      [rewrite (Hother b y) in Hyb by done|rewrite (Hother a x) in Hxa by done..]; done.
  - by apply computed_focus.
  - intros j dcl' b [Hdj Hj]. pose proof (with_step_keeps s i st st' v Hi Hnt) as Hk.
    apply (graph_ok_keep _ _ _ _ _ Hk).
    apply insert_lookup_split in Hj as [[-> ->]|[_ Hj]]; [simpl in Hdj; by simplify_eq|by apply (I8 j)].
  - intros b Hb Hc. destruct (insert_elem_split _ _ _ _ Hb) as [->|(j & _ & Hj)]; [done|].
    apply list_elem_of_lookup_2 in Hj. by rewrite (I9 b Hj Hc) in Hlive.
  - intros Hc j dcl' b [Hdj Hj]. apply insert_lookup_split in Hj as [[-> ->]|[_ Hj]];
      [simpl in Hdj; simplify_eq; auto|by apply (I11 Hc j)].
  - intros Ht b Hb. destruct (insert_elem_split _ _ _ _ Hb) as [->|(j & Hne & Hj)]; [|by eapply Hother].
    apply Hterm, G5 in Ht. unfold is_active. by rewrite Ht, (G7 Ht).
  - intros j b Hj Hp. apply insert_lookup_split in Hj as [[-> ->]|[Hne Hj]].
    + destruct (G8 Hp) as [Hf Hpend]. apply first_schedulable_keep; [congruence| |done].
      by rewrite Hpend.
    + specialize (Hother j b Hne Hj). unfold is_active in Hother. by rewrite Hp, orb_true_r in Hother.
Qed.

(** The status of a live run is that of its active step. *)
Lemma active_status d s i dcl st :
  snap_inv d s -> at_index d s i dcl st -> is_active st = true ->
  sn_cancel_requested s = false -> sn_status s = focus_status st.
Proof.
  intros Hinv [Hd Hi] Ha Hc.
  pose proof (list_elem_of_lookup_2 _ _ _ Hi) as Hin.
  assert (Hlive : status_is_terminal (sn_status s) = false).
  { destruct (status_is_terminal (sn_status s)) eqn:E; [|done].
    by rewrite (iv_stopped _ _ Hinv E st Hin) in Ha. }
  pose proof (live_not_blocked d s Hinv) as Hnb.
  rewrite <-(iv_status _ _ Hinv). unfold computed_status. rewrite Hc.
  assert (Hany : forall p, (forall b, is_active b = false -> ss_state b <> Blocked -> p b = false) ->
            existsb p (sn_steps s) = p st).
  { intros p Hp. rewrite <-(list_insert_id _ _ _ Hi) at 1.
    apply existsb_insert_only; [by eapply lookup_lt_Some|]. intros j y Hne Hy. apply Hp.
    - by eapply (inactive_unless d s Hinv i j).
    - apply Hnb; [done|]. by eapply list_elem_of_lookup_2. }
  inactive_existsb Hany.
  specialize (Hnb st Hlive Hin). revert Ha. unfold focus_status, is_active.
  by destruct (approval_pending (ss_approval st)), (ss_state st).
Qed.

(** ** Every transition keeps the invariant *)

Section step_updates.
Context (run_id : RunId) (digest : FlowDigest) (cancel : bool) (dcl : FlowStep) (st : StepSnapshot).
Context (Hst : step_inv run_id digest cancel dcl st).

Lemma step_inv_state v :
  state_inv (max_attempts (fs_retry dcl)) cancel (set_state st v) ->
  step_inv run_id digest cancel dcl (set_state st v).
Proof. by destruct Hst; split. Qed.

Lemma step_inv_blocked r :
  report_ok r ->
  state_inv (max_attempts (fs_retry dcl)) cancel (set_blocked_report (set_state st Blocked) (Some r)) ->
  step_inv run_id digest cancel dcl (set_blocked_report (set_state st Blocked) (Some r)).
Proof. destruct Hst; split; try done. simpl. by intros ? [= <-]. Qed.

Lemma step_inv_approval a :
  approval_mode_matches a (fs_approval dcl) = true -> token_mismatch (set_approval st a) = false ->
  state_inv (max_attempts (fs_retry dcl)) cancel (set_approval st a) ->
  step_inv run_id digest cancel dcl (set_approval st a).
Proof. by destruct Hst; split. Qed.

Lemma step_inv_result result v :
  Z.of_nat (length (ss_results st)) + 1 <= max_attempts (fs_retry dcl) -> result_ok result ->
  let st' := set_state (push_result st
    {| rec_attempt := Z.of_nat (length (ss_results st)) + 1; rec_result := result |}) v in
  state_inv (max_attempts (fs_retry dcl)) cancel st' ->
  step_inv run_id digest cancel dcl st'.
Proof.
  intros Hle Hok st' Hstate. destruct Hst as [S1 S2 S3 S4 S5 S6 S7 S8 S9].
  split; try done; simpl in *.
  - rewrite length_app. simpl. lia.
  - intros k record Hk. apply lookup_snoc_Some in Hk as [[_ Hk]|[-> <-]]; [auto|done].
Qed.

End step_updates.

Lemma denied_report_ok : report_ok denied_report.
Proof. reflexivity. Qed.
Lemma unauthorized_report_ok : report_ok unauthorized_report.
Proof. reflexivity. Qed.

Section preservation.
Context (d : FlowDefinition) (s : FlowSnapshot) (Hinv : snap_inv d s).
Context (i : nat) (dcl : FlowStep) (st : StepSnapshot) (Hat : at_index d s i dcl st).

Lemma live_step : step_inv (sn_run_id s) (sn_digest s) (sn_cancel_requested s) dcl st.
Proof. exact (iv_steps _ _ Hinv i dcl st Hat). Qed.

Lemma running_others :
  sn_cancel_requested s = false -> sn_status s = Running ->
  forall j b, j <> i -> sn_steps s !! j = Some b -> is_active b = false.
Proof.
  intros Hc Hs j b _ Hj. apply (running_inactive d s Hinv); try done. by eapply list_elem_of_lookup_2.
Qed.

Lemma active_others :
  is_active st = true -> forall j b, j <> i -> sn_steps s !! j = Some b -> is_active b = false.
Proof. intros Ha j b Hne Hj. eapply (inactive_unless d s Hinv i); eauto. apply Hat. Qed.

(** The state of the step in a form that [state_inv] computes on. *)
Lemma live_state v :
  ss_state st = v -> state_inv (max_attempts (fs_retry dcl)) (sn_cancel_requested s) (set_state st v).
Proof. intros <-. pose proof (st_state _ _ _ _ _ live_step) as Hs. by destruct st. Qed.

Lemma pending_ready :
  ss_state st = Pending -> approval_pending (ss_approval st) = false ->
  approval_ready (ss_approval st) = true \/ ss_approval st = NotRequested.
Proof.
  intros Hp Ha. destruct (live_state _ Hp) as (_ & _ & Hnd). simpl in Hnd.
  destruct (ss_approval st) as [| |t|t|t]; try (by auto). by destruct (Hnd t).
Qed.

Lemma running_not_pending :
  sn_cancel_requested s = false -> sn_status s = Running -> approval_pending (ss_approval st) = false.
Proof.
  intros Hc Hs. pose proof (running_inactive d s Hinv st Hc Hs) as Ha.
  assert (st ∈ sn_steps s) as Hin by (eapply list_elem_of_lookup_2; apply Hat).
  specialize (Ha Hin). unfold is_active in Ha. by apply orb_false_iff in Ha as [_ ?].
Qed.

Lemma pending_of_approval token : ss_approval st = ApprovalPending token -> ss_state st = Pending.
Proof.
  intros Ha. pose proof (st_state _ _ _ _ _ live_step) as Hs. unfold state_inv in Hs.
  rewrite Ha in Hs. destruct (ss_state st); naive_solver.
Qed.

(** Leaves the parts of [good_change] that automation does not settle. *)
Ltac change_solver :=
  split; simpl;
  try match goal with
  | |- ?v <> _ => done
  | |- _ <-> _ => by split
  | |- _ = true -> cancel_quiet _ _ => congruence
  | H : sn_cancel_requested _ = false |- if sn_cancel_requested _ then _ else _ =>
    rewrite H; unfold focus_status; simpl
  | |- _ = Blocked -> _ => done
  end.

Lemma skip_inv :
  sn_cancel_requested s = false -> sn_status s = Running -> ss_state st = Pending ->
  refs_terminal d s dcl -> declared_condition_true d s (fs_condition dcl) = Ok false ->
  snap_inv d (with_step s i (set_state st Skipped)).
Proof.
  intros Hc Hs Hp Hr Hcond. pose proof (running_not_pending Hc Hs) as Hnp.
  cut (snap_inv d (set_status (with_step s i (set_state st Skipped)) Running)).
  { unfold set_status, with_step, set_steps. simpl. by rewrite Hs. }
  eapply inv_with_step; [done..|by rewrite Hp|by rewrite Hs|by apply running_others|].
  change_solver.
  - apply step_inv_state; [apply live_step|]. simpl.
    destruct (live_state _ Hp) as (Hres & Hrep & _). split_and!; [done..|]. by apply pending_ready.
  - by rewrite Hnp.
  - done.
  - by rewrite Hnp.
Qed.

Lemma request_inv :
  sn_cancel_requested s = false -> sn_status s = Running -> ss_state st = Pending ->
  ss_approval st = NotRequested -> refs_terminal d s dcl ->
  declared_condition_true d s (fs_condition dcl) = Ok true -> first_schedulable d s i ->
  snap_inv d (set_status (with_step s i (set_approval st
    (ApprovalPending (approval_token (ss_idempotency_identity st))))) WaitingApproval).
Proof.
  intros Hc Hs Hp Ha Hr Hcond Hf. pose proof live_step as [S1 S2 S3 S4 S5 S6 S7 S8 S9].
  eapply inv_with_step; [done..|by rewrite Hp|by rewrite Hs|by apply running_others|].
  change_solver; rewrite ?Hp; try done.
  - apply step_inv_approval; [apply live_step|by rewrite Ha in S5| |].
    + unfold token_mismatch. simpl. by rewrite String.eqb_refl.
    + unfold state_inv in *. simpl. rewrite Hp in *. naive_solver.
  - intros _ _. simpl. by rewrite Hp.
Qed.

Lemma grant_inv token :
  sn_cancel_requested s = false -> sn_status s = WaitingApproval ->
  ss_approval st = ApprovalPending token ->
  snap_inv d (set_status (with_step s i (set_approval st (Granted token))) Running).
Proof.
  intros Hc Hs Ha. pose proof (pending_of_approval token Ha) as Hp.
  pose proof live_step as [S1 S2 S3 S4 S5 S6 S7 S8 S9].
  assert (Hact : is_active st = true) by (unfold is_active; rewrite Ha; apply orb_true_r).
  eapply inv_with_step; [done..|by rewrite Hp|by rewrite Hs|by apply active_others|].
  change_solver; rewrite ?Hp; try done.
  - apply step_inv_approval; [apply live_step|by rewrite Ha in S5| |].
    + unfold token_mismatch in *. by rewrite Ha in S6.
    + unfold state_inv in *. simpl. rewrite Hp in *. naive_solver.
  - intros _ _. simpl. rewrite Hp. simpl.
    destruct (iv_graph _ _ Hinv i dcl st Hat) as [Hr Hcond]; [by rewrite Hp|right; eauto|].
    by rewrite Hp in Hcond.
Qed.

Lemma deny_inv token :
  sn_cancel_requested s = false -> sn_status s = WaitingApproval ->
  ss_approval st = ApprovalPending token ->
  snap_inv d (set_status (with_step s i (set_blocked_report
    (set_state (set_approval st (DeniedApproval token)) Blocked) (Some denied_report)))
    BlockedStatus).
Proof.
  intros Hc Hs Ha. pose proof (pending_of_approval token Ha) as Hp.
  pose proof live_step as [S1 S2 S3 S4 S5 S6 S7 S8 S9].
  assert (Hact : is_active st = true) by (unfold is_active; rewrite Ha; apply orb_true_r).
  eapply inv_with_step; [done..|by rewrite Hp|by rewrite Hs|by apply active_others|].
  change_solver; try done.
  - split; try done; simpl.
    + by rewrite Ha in S5.
    + unfold token_mismatch in *. by rewrite Ha in S6.
    + by intros r [= <-].
    + unfold state_inv in *. simpl. rewrite Hp in *. split_and!; [eauto| |right; naive_solver].
      destruct S9 as (-> & _). constructor.
  - intros _ _. simpl.
    destruct (iv_graph _ _ Hinv i dcl st Hat) as [Hr Hcond]; [by rewrite Hp|right; eauto|].
    by rewrite Hp in Hcond.
Qed.

Lemma evaluate_inv :
  sn_cancel_requested s = false -> sn_status s = Running -> ss_state st = Pending ->
  approval_ready (ss_approval st) = true -> refs_terminal d s dcl ->
  declared_condition_true d s (fs_condition dcl) = Ok true ->
  1 <= max_attempts (fs_retry dcl) ->
  snap_inv d (set_status (with_step s i (set_state st (AwaitingEffect 1))) AwaitingEffectEvaluation).
Proof.
  intros Hc Hs Hp Ha Hr Hcond Hmax. pose proof (running_not_pending Hc Hs) as Hnp.
  eapply inv_with_step; [done..|by rewrite Hp|by rewrite Hs|by apply running_others|].
  change_solver; rewrite ?Hnp; try done.
  apply step_inv_state; [apply live_step|]. unfold state_inv. simpl.
  destruct (live_state _ Hp) as (Hres & Hrep & _). simpl in *. rewrite Hres.
  split_and!; try done. constructor.
Qed.

(** ** Steps under way *)

Definition under_way (v : StepState) : bool := negb (is_pending v) && negb (is_terminal v).

Lemma under_way_active : under_way (ss_state st) = true -> is_active st = true.
Proof. unfold is_active, under_way. by intros ->. Qed.

Lemma under_way_graph st' :
  under_way (ss_state st) = true -> is_skipped (ss_state st') = false -> graph_ok d s dcl st'.
Proof.
  intros Hu Hns _ _. destruct (iv_graph _ _ Hinv i dcl st Hat) as [Hr Hcond].
  - intros E. by rewrite E in Hu.
  - left. intros E. by rewrite E in Hu.
  - split; [done|]. rewrite Hcond, Hns. by destruct (ss_state st).
Qed.

Lemma under_way_ready : under_way (ss_state st) = true -> approval_ready (ss_approval st) = true.
Proof.
  intros Hu. pose proof (st_state _ _ _ _ _ live_step) as Hs. unfold state_inv in Hs.
  destruct (ss_state st); simpl in Hu; try done; naive_solver.
Qed.

Lemma ready_not_pending a : approval_ready a = true -> approval_pending a = false.
Proof. by destruct a. Qed.

(** Replacing a step under way: the part common to the remaining transitions. *)
Lemma inv_under_way st' v :
  under_way (ss_state st) = true -> status_is_terminal (sn_status s) = false ->
  ss_approval st' = ss_approval st ->
  step_inv (sn_run_id s) (sn_digest s) (sn_cancel_requested s) dcl st' ->
  (if sn_cancel_requested s
   then (v = Cancelling \/ v = BlockedStatus) /\ is_terminal (ss_state st') = true
        /\ (ss_state st' = Blocked <-> v = BlockedStatus)
   else v = focus_status st') ->
  is_skipped (ss_state st') = false -> ss_state st' <> Cancelled ->
  snap_inv d (set_status (with_step s i st') v).
Proof.
  intros Hu Hlive Hap Hst Hv Hns Hnc.
  pose proof (ready_not_pending _ (under_way_ready Hu)) as Hnp. rewrite <-Hap in Hnp.
  eapply inv_with_step; [done..| |done|by apply active_others, under_way_active|].
  { unfold under_way in Hu. by destruct (is_terminal (ss_state st)), (is_pending (ss_state st)). }
  split; try done.
  - destruct (sn_cancel_requested s); naive_solver.
  - by apply under_way_graph.
  - destruct (sn_cancel_requested s); [naive_solver|]. subst v. unfold focus_status. rewrite Hnp.
    by destruct (ss_state st').
  - intros Hc. rewrite Hc in Hv. destruct Hv as (_ & Ht & _).
    split_and!; [done|by rewrite Ht, orb_true_r|by destruct (ss_state st')].
  - rewrite Hnp. done.
Qed.

Lemma await_inv v attempt :
  sn_cancel_requested s = false -> status_is_terminal (sn_status s) = false ->
  ss_state st = v -> under_way v = true ->
  attempt = Z.of_nat (length (ss_results st)) + 1 ->
  snap_inv d (set_status (with_step s i (set_state st (AwaitingEffect attempt)))
    AwaitingEffectEvaluation).
Proof.
  intros Hc Hlive Hv Hu Hn. subst v. pose proof (under_way_ready Hu) as Hrdy.
  apply inv_under_way; try done.
  - apply step_inv_state; [apply live_step|].
    pose proof (st_state _ _ _ _ _ live_step) as Hs. unfold state_inv in *. simpl.
    destruct (ss_state st); try done; naive_solver.
  - rewrite Hc. unfold focus_status. simpl. by rewrite ready_not_pending.
Qed.

Lemma started_inv attempt now :
  sn_cancel_requested s = false -> status_is_terminal (sn_status s) = false ->
  ss_state st = AwaitingEffect attempt ->
  snap_inv d (set_status (with_step s i (set_state st (InFlight attempt now))) EffectInFlight).
Proof.
  intros Hc Hlive Hv. assert (Hu : under_way (ss_state st) = true) by by rewrite Hv.
  pose proof (under_way_ready Hu) as Hrdy. apply inv_under_way; try done.
  - apply step_inv_state; [apply live_step|]. exact (live_state _ Hv).
  - rewrite Hc. unfold focus_status. simpl. by rewrite ready_not_pending.
Qed.

Lemma blocked_inv rep :
  under_way (ss_state st) = true -> status_is_terminal (sn_status s) = false -> report_ok rep ->
  snap_inv d (set_status (with_step s i (set_blocked_report (set_state st Blocked) (Some rep)))
    BlockedStatus).
Proof.
  intros Hu Hlive Hrep. pose proof (under_way_ready Hu) as Hrdy. apply inv_under_way; try done.
  - apply step_inv_blocked; [apply live_step|done|].
    pose proof (st_state _ _ _ _ _ live_step) as Hs. unfold state_inv in *. simpl.
    destruct (ss_state st); try done; naive_solver.
  - unfold focus_status. simpl. rewrite ready_not_pending by done.
    destruct (sn_cancel_requested s); naive_solver.
Qed.

(** A recorded result: [v] is the new state of the step. *)
Lemma result_inv attempt started result v status :
  status_is_terminal (sn_status s) = false -> ss_state st = InFlight attempt started ->
  result_ok result ->
  match kind result, v with
  | KindSucceeded, Succeeded a => a = attempt
  | KindFailed retryable, Failed a =>
    a = attempt /\ (retryable = true ->
      sn_cancel_requested s = true \/ attempt = max_attempts (fs_retry dcl))
  | KindFailed true, WaitingRetry a _ =>
    sn_cancel_requested s = false /\ a = attempt + 1 /\ attempt < max_attempts (fs_retry dcl)
  | _, _ => False
  end ->
  status = (if sn_cancel_requested s then Cancelling
            else match v with WaitingRetry _ _ => WaitingRetryStatus | _ => Running end) ->
  snap_inv d (set_status (with_step s i (set_state
    (push_result st {| rec_attempt := attempt; rec_result := result |}) v)) status).
Proof.
  intros Hlive Hf Hok Hv ->. assert (Hu : under_way (ss_state st) = true) by by rewrite Hf.
  pose proof (under_way_ready Hu) as Hrdy.
  destruct (live_state _ Hf) as (Hn & Hmax & Hall & Hrep & _). simpl in *. subst attempt.
  apply inv_under_way; try done; simpl.
  - apply step_inv_result; [apply live_step|lia|done|].
    unfold state_inv. simpl. rewrite length_app, Nat2Z.inj_add. simpl.
    destruct v; destruct (kind result) as [|[]] eqn:Ek; try done; split_and!; try (done || lia).
    all: try (destruct (ss_results st); done).
    all: try (apply Forall_app; split; [done|]; constructor; [by simpl; rewrite Ek|constructor]).
    all: repeat eexists; eauto; try done. naive_solver.
  - destruct (sn_cancel_requested s).
    + destruct v; destruct (kind result) as [|[]]; try done; naive_solver.
    + unfold focus_status. simpl. rewrite ready_not_pending by done.
      destruct v; destruct (kind result) as [|[]]; done.
  - by destruct v; destruct (kind result) as [|[]].
  - intros ->. by destruct (kind result) as [|[]].
Qed.

End preservation.

(** ** Transitions of the whole run *)

Lemma state_inv_cancel max st : state_inv max false st -> state_inv max true st.
Proof. unfold state_inv. destruct (ss_state st); naive_solver. Qed.

Lemma step_inv_cancel r dg c dcl st : step_inv r dg c dcl st -> step_inv r dg true dcl st.
Proof. destruct c; [done|]. destruct 1; split; try done. by apply state_inv_cancel. Qed.

Lemma cancel_step_terminal st : is_terminal (ss_state (cancel_step st)) = true.
Proof.
  unfold cancel_step. destruct (is_terminal (ss_state st)) eqn:E; destruct (ss_approval _); simpl; done.
Qed.

Lemma terminal_settled max cancel st :
  state_inv max cancel st -> is_terminal (ss_state st) = true -> cancel_step st = st.
Proof.
  intros Hs Ht. unfold cancel_step, state_inv in *. rewrite Ht.
  destruct (ss_approval st) eqn:Ea; try done.
  destruct (ss_state st); try done; naive_solver.
Qed.

Lemma unfinished_facts max cancel st :
  state_inv max cancel st -> is_terminal (ss_state st) = false ->
  ss_blocked_report st = None /\ all_retryable (ss_results st) /\
  (approval_ready (ss_approval st) = true \/
   (ss_results st = [] /\ forall t, ss_approval st <> DeniedApproval t)).
Proof.
  unfold state_inv. destruct (ss_state st); try done; intros Hs _;
    [|split_and!; (apply Hs || left; apply Hs)..].
  destruct Hs as (E & ? & ?). split_and!; auto. rewrite E. constructor.
Qed.

Lemma cancel_step_inv r dg c dcl st :
  step_inv r dg c dcl st -> step_inv r dg true dcl (cancel_step st).
Proof.
  intros Hst%step_inv_cancel. pose proof (st_state _ _ _ _ _ Hst) as Hs.
  destruct (is_terminal (ss_state st)) eqn:Ht; [by rewrite (terminal_settled _ _ _ Hs Ht)|].
  destruct (unfinished_facts _ _ _ Hs Ht) as (Hrep & Hall & Hap).
  destruct Hst as [S1 S2 S3 S4 S5 S6 S7 S8 S9]. unfold cancel_step. rewrite Ht. simpl.
  unfold token_mismatch in *.
  destruct (ss_approval st) as [| |t|t|t] eqn:Ea; split; simpl; unfold token_mismatch, state_inv;
    simpl; rewrite ?Ea; try done; split_and!; auto; destruct Hap as [|[? Hd]]; try done; auto;
    by destruct (Hd t).
Qed.

Lemma cancel_step_state st :
  is_terminal (ss_state st) = true -> ss_state (cancel_step st) = ss_state st.
Proof. unfold cancel_step. intros ->. by destruct (ss_approval st). Qed.

Lemma cancel_step_pending st : approval_pending (ss_approval (cancel_step st)) = false.
Proof.
  unfold cancel_step. destruct (is_terminal _); simpl; destruct (ss_approval st) eqn:E; simpl;
    by rewrite ?E.
Qed.

Definition cancelled_snapshot (s : FlowSnapshot) : FlowSnapshot :=
  set_steps (set_status (set_cancel s true) CancelledStatus) (cancel_step <$> sn_steps s).

Lemma cancelled_keeps s : keeps_terminal s (cancelled_snapshot s).
Proof.
  intros j t Hj Ht. exists (cancel_step t). simpl. rewrite list_lookup_fmap, Hj.
  split; [done|]. by apply cancel_step_state.
Qed.

Lemma cancelled_inv d s :
  snap_inv d s -> status_is_terminal (sn_status s) = false -> snap_inv d (cancelled_snapshot s).
Proof.
  intros Hinv Hlive. pose proof (live_not_blocked d s Hinv) as Hnb.
  destruct Hinv as [I1 I2 I3 I4 I5 I6 I7 I8 I9 I10 I11 I12 I13 I14].
  assert (Hnth : forall j b, (cancel_step <$> sn_steps s) !! j = Some b ->
            exists a, sn_steps s !! j = Some a /\ b = cancel_step a).
  { intros j b Hj. apply list_lookup_fmap_Some in Hj as (a & -> & Ha). eauto. }
  assert (Hina : forall b, b ∈ cancel_step <$> sn_steps s ->
            is_terminal (ss_state b) = true /\ approval_pending (ss_approval b) = false).
  { intros b (a & -> & _)%list_elem_of_fmap.
    split; [apply cancel_step_terminal|apply cancel_step_pending]. }
  split; simpl; try done.
  - by rewrite length_fmap.
  - intros j dcl b [Hd Hj]. apply Hnth in Hj as (a & Ha & ->).
    by eapply cancel_step_inv, (I5 j).
  - intros a b x y Ha _ Hx. apply list_elem_of_lookup_2 in Ha. destruct (Hina x Ha) as [Ht Hp].
    unfold is_active in Hx. rewrite Ht, Hp in Hx. by destruct (is_pending _).
  - intros j dcl b [Hd Hj]. apply Hnth in Hj as (a & Ha & ->).
    intros Hc Hp. destruct (is_terminal (ss_state a)) eqn:Ht.
    + rewrite cancel_step_state by done.
      apply (graph_ok_keep _ _ _ _ _ (cancelled_keeps s) (I8 j dcl a (conj Hd Ha))).
      * by rewrite cancel_step_state in Hc.
      * left. by destruct (ss_state a).
    + destruct Hc. unfold cancel_step. rewrite Ht. simpl. by destruct (ss_approval a).
  - split; [|done]. intros (b & (a & -> & Ha)%list_elem_of_fmap & Hb).
    destruct (is_terminal (ss_state a)) eqn:Ht.
    + rewrite cancel_step_state in Hb by done. by destruct (Hnb a Hlive Ha).
    + unfold cancel_step in Hb. rewrite Ht in Hb. simpl in Hb. by destruct (ss_approval a).
  - intros _ j dcl b [_ Hj]. destruct (Hina b (list_elem_of_lookup_2 _ _ _ Hj)) as [Ht Hp].
    split_and!; [done|by rewrite Ht, orb_true_r|by destruct (ss_state b)].
  - intros _. split; [done|]. intros b Hb. by apply Hina.
  - intros _ b Hb. destruct (Hina b Hb) as [Ht Hp]. unfold is_active. rewrite Ht, Hp.
    by destruct (is_pending _).
  - intros j b Hj Hp. apply list_elem_of_lookup_2 in Hj. destruct (Hina b Hj). congruence.
Qed.

Lemma cancelling_inv d s i dcl st attempt started :
  snap_inv d s -> at_index d s i dcl st -> ss_state st = InFlight attempt started ->
  sn_status s = EffectInFlight -> fs_effect dcl = Stateful ->
  snap_inv d (set_status (set_cancel s true) Cancelling).
Proof.
  intros Hinv Hat Hf Hs He.
  assert (Hu : under_way (ss_state st) = true) by by rewrite Hf.
  pose proof (under_way_ready d s Hinv i dcl st Hat Hu) as Hrdy.
  pose proof (active_others d s Hinv i dcl st Hat (under_way_active st Hu)) as Hothers.
  destruct Hinv as [I1 I2 I3 I4 I5 I6 I7 I8 I9 I10 I11 I12 I13 I14].
  split; simpl; try done.
  - intros j dcl' b Hb. by eapply step_inv_cancel, (I5 j).
  - intros b Hb Hc. by rewrite (I9 b Hb Hc) in Hs.
  - split; [|done]. intros Hb. apply I10 in Hb. by rewrite Hb in Hs.
  - intros _ j dcl' b [Hdj Hj]. simpl in Hj. destruct (decide (j = i)) as [->|Hne].
    + destruct Hat as [Hdi Hi]. simplify_eq. split_and!; [by apply ready_not_pending|by rewrite Hf|done].
    + destruct (inactive_quiet b (Hothers j b Hne Hj)) as [Hp Ht].
      split_and!; [done| |]; by destruct (ss_state b).
Qed.

Lemma completed_inv d s v :
  snap_inv d s -> sn_cancel_requested s = false -> sn_status s = Running ->
  (forall st, st ∈ sn_steps s -> is_terminal (ss_state st) = true) ->
  v = (if existsb (fun st => is_failed (ss_state st)) (sn_steps s)
       then UnresolvedStatus else SucceededStatus) ->
  snap_inv d (set_status s v).
Proof.
  intros Hinv Hc Hs Hall Hv.
  assert (Hlive : status_is_terminal (sn_status s) = false) by by rewrite Hs.
  assert (Hv' : v <> Running /\ v <> BlockedStatus /\ v <> CancelledStatus)
    by by destruct (existsb _ _) in Hv; subst v.
  pose proof (live_not_blocked d s Hinv) as Hnb.
  pose proof (running_inactive d s Hinv) as Hna.
  assert (Hany : forall p, (forall b, is_active b = false -> ss_state b <> Blocked -> p b = false) ->
            existsb p (sn_steps s) = false).
  { intros p Hp. apply existsb_all_false, Forall_forall. intros b Hb. apply Hp; auto. }
  destruct Hinv as [I1 I2 I3 I4 I5 I6 I7 I8 I9 I10 I11 I12 I13 I14].
  split; simpl; try done; try congruence.
  - unfold computed_status. simpl. rewrite Hc.
    inactive_existsb Hany.
    rewrite (proj2 (forallb_true_elem _ _) Hall).
    rewrite bool_decide_false by apply Hv'. by rewrite Hv.
  - intros b Hb Hcan. by rewrite (I9 b Hb Hcan) in Hs.
  - split; [|by intros ->; destruct Hv' as (_ & ? & _)]. intros Hb. apply I10 in Hb. congruence.
  - intros ->. by destruct Hv' as (_ & _ & ?).
  - intros _ b Hb. by apply Hna.
Qed.

(** The sequence number is outside the invariant. *)
Lemma sequence_inv d s n : snap_inv d s -> snap_inv d (set_sequence s n).
Proof. by destruct 1; split. Qed.

Lemma status_id s v : sn_status s = v -> set_status s v = s.
Proof. intros <-. by destruct s. Qed.

Lemma in_flight_live v : in_flight_or_cancelling v = true -> status_is_terminal v = false.
Proof. by destruct v. Qed.

Definition attempts_positive (d : FlowDefinition) : Prop :=
  forall dcl, dcl ∈ fd_steps d -> 1 <= max_attempts (fs_retry dcl).

(** Every transition keeps the invariant. *)
Lemma flow_step_inv d s k s' :
  attempts_positive d -> snap_inv d s -> flow_step d s k s' -> snap_inv d s'.
Proof.
  intros Hd Hinv Hstep.
  assert (Hatt : forall i dcl st, at_index d s i dcl st -> 1 <= max_attempts (fs_retry dcl)).
  { intros i dcl st [Hi _]. apply Hd. by eapply list_elem_of_lookup_2. }
  destruct Hstep; try (assert (Hlive : status_is_terminal (sn_status s) = false)
    by (first [by apply in_flight_live
              |by match goal with E : sn_status s = _ |- _ => rewrite E end]));
    try match goal with E : ss_state _ = ?v |- _ => pose proof (live_state d s Hinv _ _ _ H0 v E) as Hv end.
  - by eapply skip_inv.
  - by eapply request_inv.
  - by eapply grant_inv.
  - by eapply deny_inv.
  - eapply evaluate_inv; eauto.
  - eapply (await_inv d s Hinv); try done. by destruct Hv as (_ & -> & _).
  - eapply blocked_inv; [done..| | |apply unauthorized_report_ok].
    + unfold in_flight_at, awaiting_at, under_way in *.
      destruct replay, (ss_state st); naive_solver.
    + destruct replay; destruct_and?; by match goal with E : sn_status s = _ |- _ => rewrite E end.
  - eapply started_inv; try done.
  - by rewrite status_id.
  - eapply result_inv; try done. by rewrite H4.
  - eapply result_inv; try done; rewrite ?H5; try done. by rewrite H1.
  - eapply result_inv; try done; rewrite ?H5; try done; [|by rewrite H1]. auto.
  - eapply result_inv; try done. rewrite H4.
    destruct retryable; (split; [done|]); [|done]. destruct (sn_cancel_requested s); [auto|done].
  - eapply (await_inv d s Hinv); try done. by destruct Hv as (-> & _).
  - eapply blocked_inv; [done..| | |done]; by rewrite ?H2.
  - by eapply cancelling_inv.
  - apply completed_inv; try done. subst outcome. by destruct (existsb _ _).
  - by apply cancelled_inv.
Qed.

End spec.
