(* ===== verification/FlowRefine.v ===== *)
(** * The engine refines the state machine

    Every operation of [FlowRun], called on a run whose snapshot satisfies the
    invariant, either observes the run, or makes exactly one transition of
    [flow_step] and publishes it with the next sequence number, or returns an
    error and leaves the run as it was; it never panics. *)

From S2P Require Import Prelude FlowDef FlowGraph FlowValid FlowData FlowSnapshot FlowEngine.
From S2P Require Import FlowSpec.

Local Open Scope Z_scope.

Section refine.
Context `{Sha256}.

(** ** What an operation may do *)

Definition published (s : FlowSnapshot) (d : FlowDefinition) (s' : FlowSnapshot)
    (t : RunTransition) : Prop :=
  exists X, flow_step d s (tr_kind t) X /\ sn_sequence s < u64_max /\
    s' = set_sequence X (sn_sequence s + 1) /\ tr_sequence t = sn_sequence s + 1 /\
    semantic_events_for_transition s' (tr_kind t) = Ok (tr_semantic_events t).

(** [errors] are the errors the operation may return. *)
Definition op_spec (errors : FlowEngineError -> Prop) (r : FlowRun)
    (out : FlowRun * eres EngineUpdate) : Prop :=
  match out with
  | (r', Ok u) =>
    fr_definition r' = fr_definition r /\ up_snapshot u = fr_snapshot r' /\
    match up_transition u with
    | None => fr_snapshot r' = fr_snapshot r
    | Some t => published (fr_snapshot r) (fr_definition r) (fr_snapshot r') t
    end
  | (r', Err e) => r' = r /\ errors e
  | (_, Panic) => False
  end.

(** The only error of an operation whose arguments are in order. *)
Definition overflow (r : FlowRun) (e : FlowEngineError) : Prop :=
  e = TransitionSequenceOverflow /\ sn_sequence (fr_snapshot r) = u64_max.

(** A run between two calls. *)
Record run_inv (r : FlowRun) : Prop := {
  ri_definition : valid_definition (fr_definition r);
  ri_snapshot : snap_inv (fr_definition r) (fr_snapshot r);
  ri_sequence : 0 <= sn_sequence (fr_snapshot r) <= u64_max
}.

(** ** The semantic events of a transition always exist *)

Lemma flow_step_frame d s k s' :
  flow_step d s k s' -> sn_sequence s' = sn_sequence s /\ sn_run_id s' = sn_run_id s
    /\ sn_digest s' = sn_digest s /\ sn_version s' = sn_version s
    /\ ss_id <$> sn_steps s' = ss_id <$> sn_steps s.
Proof.
  destruct 1; split_and!; try done; simpl;
    try (destruct H0 as [_ Hi]; rewrite list_fmap_insert; apply list_insert_id;
         rewrite list_lookup_fmap, Hi; done).
  rewrite <-list_fmap_compose. apply list_fmap_ext. intros j st _. simpl.
  unfold cancel_step. destruct (is_terminal _), (ss_approval st) eqn:E; simpl; by rewrite ?E.
Qed.

Lemma find_by_id l i st id :
  NoDup (ss_id <$> l) -> l !! i = Some st -> ss_id st = id ->
  List.find (fun x => String.eqb (ss_id x) id) l = Some st.
Proof.
  revert i. induction l as [|x l IH]; intros i Hnd Hi <-; [done|]. simpl in *.
  apply NoDup_cons in Hnd as [Hx Hnd]. destruct i as [|i]; simpl in Hi.
  - injection Hi as ->. by rewrite String.eqb_refl.
  - destruct (String.eqb_spec (ss_id x) (ss_id st)) as [E|_]; [|by eapply IH].
    destruct Hx. rewrite E. by eapply list_elem_of_fmap_2, list_elem_of_lookup_2.
Qed.

Lemma snap_ids d s : snap_inv d s -> ss_id <$> sn_steps s = fs_id <$> fd_steps d.
Proof.
  intros Hinv. apply list_eq. intros i. rewrite !list_lookup_fmap.
  pose proof (iv_length _ _ Hinv) as Hlen.
  destruct (sn_steps s !! i) as [st|] eqn:Ei; simpl.
  - destruct (declared_at d s Hinv i st Ei) as [dcl [Hd _]]. rewrite Hd. simpl. f_equal.
    by apply (st_id _ _ _ _ _ (iv_steps _ _ Hinv i dcl st (conj Hd Ei))).
  - apply lookup_ge_None in Ei. rewrite (proj2 (lookup_ge_None (fd_steps d) i)); [done|lia].
Qed.

Lemma snap_ids_nodup d s : valid_definition d -> snap_inv d s -> NoDup (ss_id <$> sn_steps s).
Proof. intros Hd Hinv. rewrite (snap_ids d s Hinv). apply Hd. Qed.

(** The events fit the bound on their number. *)
Lemma push_evidence_length step_id r l :
  (length (push_evidence_event [] step_id r ++ l) <= S (length l))%nat.
Proof. unfold push_evidence_event. case_bool_decide; simpl; lia. Qed.

Lemma push_evidence_alone step_id r : (length (push_evidence_event [] step_id r) <= 1)%nat.
Proof. unfold push_evidence_event. case_bool_decide; simpl; lia. Qed.

Lemma in_flight_found s i st :
  sn_steps s !! i = Some st -> is_in_flight (ss_state st) = true ->
  exists st', List.find (fun step => is_in_flight (ss_state step)) (sn_steps s) = Some st'.
Proof.
  intros Hi Hf. destruct (List.find _ _) as [st'|] eqn:E; [eauto|].
  apply List.find_none with (x := st) in E; [congruence|].
  apply list_elem_of_In. by eapply list_elem_of_lookup_2.
Qed.

Lemma events_of_step d s k X n :
  NoDup (ss_id <$> sn_steps s) -> flow_step d s k X ->
  exists events, semantic_events_for_transition (set_sequence X n) k = Ok events.
Proof.
  intros Hnd Hstep. pose proof (flow_step_frame _ _ _ _ Hstep) as (_ & _ & _ & _ & Hids).
  rewrite <-Hids in Hnd. unfold semantic_events_for_transition, transition_step_report,
    transition_step_snapshot.
  assert (Hbound : forall l : list FlowSemanticEvent, (length l <= 2)%nat ->
            exists events, (if Z.of_nat (length l) >? MAX_FLOW_SEMANTIC_EVENTS_PER_TRANSITION
                            then Err SnapshotTransitionMismatch else Ok l) = Ok events).
  { intros l Hl. unfold MAX_FLOW_SEMANTIC_EVENTS_PER_TRANSITION.
    destruct (Z.of_nat (length l) >? 3) eqn:E; [lia|eauto]. }
  assert (Hfind : forall i dcl st st' id, at_index d s i dcl st -> ss_id st' = id ->
            NoDup (ss_id <$> <[i := st']> (sn_steps s)) ->
            List.find (fun x => String.eqb (ss_id x) id) (<[i := st']> (sn_steps s)) = Some st').
  { intros i dcl st st' id [_ Hi] Hid Hnd'. apply find_by_id with (i := i); try done.
    by apply list_lookup_insert_eq, (lookup_lt_Some _ _ _ Hi). }
  destruct Hstep; simpl in *; try (by eexists);
    try (destruct (in_flight_found s i st) as (st' & ->); [apply H0|by rewrite H3|]; by eexists);
    erewrite Hfind by done; unfold last_report; simpl; rewrite ?last_snoc; simpl;
    try (by apply Hbound, push_evidence_length); try (by eexists).
  destruct (ss_semantic_role st); apply Hbound;
    [apply le_S, push_evidence_alone|apply push_evidence_length..].
Qed.

(** ** Running a computation *)

Lemma bind_step {B} m (k : StepSnapshot -> M B) r st :
  m r = (r, Ok st) -> st_bind m k r = k st r.
Proof. unfold st_bind. by intros ->. Qed.

Lemma bind_get_step {B} i (k : StepSnapshot -> M B) r st :
  sn_steps (fr_snapshot r) !! i = Some st -> st_bind (get_step i) k r = k st r.
Proof. unfold st_bind, get_step. by intros ->. Qed.

Lemma bind_modify {B} i f (k : unit -> M B) r st :
  sn_steps (fr_snapshot r) !! i = Some st ->
  st_bind (modify_step i f) k r = k tt (with_snapshot r (with_step (fr_snapshot r) i (f st))).
Proof. unfold st_bind, modify_step. by intros ->. Qed.

Lemma bind_lift_ok {A B} (m : eres A) (k : A -> M B) r a :
  m = Ok a -> st_bind (st_lift m) k r = k a r.
Proof. unfold st_bind, st_lift. by intros ->. Qed.

Lemma bind_ensure {B} (k : unit -> M B) r :
  sn_sequence (fr_snapshot r) <> u64_max -> st_bind ensure_can_change k r = k tt r.
Proof. unfold st_bind, ensure_can_change. intros Hn. by rewrite (proj2 (Z.eqb_neq _ _) Hn). Qed.

(** A check that fails leaves the run as it was. *)
Lemma ensure_spec errors r (k : unit -> M EngineUpdate) :
  (forall e, overflow r e -> errors e) ->
  (sn_sequence (fr_snapshot r) <> u64_max -> op_spec errors r (k tt r)) ->
  op_spec errors r (st_bind ensure_can_change k r).
Proof.
  intros He Hk. destruct (decide (sn_sequence (fr_snapshot r) = u64_max)) as [E|Hn].
  - unfold st_bind, ensure_can_change. rewrite E. split; [done|]. by apply He.
  - rewrite bind_ensure by done. auto.
Qed.

Lemma lift_spec {A} errors r (m : eres A) (k : A -> M EngineUpdate) :
  m <> Panic -> (forall e, m = Err e -> errors e) ->
  (forall a, m = Ok a -> op_spec errors r (k a r)) -> op_spec errors r (st_bind (st_lift m) k r).
Proof. intros Hm He Hk. unfold st_bind, st_lift. destruct m; [by apply Hk|split; auto|done]. Qed.

Lemma observe_spec errors r decision : op_spec errors r (observe decision r).
Proof. done. Qed.

Lemma changed_spec errors r r1 k decision :
  run_inv r -> fr_definition r1 = fr_definition r ->
  flow_step (fr_definition r) (fr_snapshot r) k (fr_snapshot r1) ->
  sn_sequence (fr_snapshot r) <> u64_max -> op_spec errors r (changed k decision r1).
Proof.
  intros [Hd Hinv Hseq] Hdef Hstep Hne.
  pose proof (flow_step_frame _ _ _ _ Hstep) as (Hsame & _).
  destruct (events_of_step _ _ _ _ (sn_sequence (fr_snapshot r) + 1)
    (snap_ids_nodup _ _ Hd Hinv) Hstep) as [events He].
  unfold changed, checked_add64. rewrite Hsame.
  destruct (Z.leb_spec (sn_sequence (fr_snapshot r) + 1) u64_max); [|lia].
  rewrite He. simpl. split_and!; [done..|]. exists (fr_snapshot r1). split_and!; simpl; [done|lia|done..].
Qed.

Lemma with_step_twice s i a b : with_step (with_step s i a) i b = with_step s i b.
Proof. unfold with_step, set_steps. simpl. by rewrite list_insert_insert_eq. Qed.

Lemma lookup_with_step s i st st' :
  sn_steps s !! i = Some st -> sn_steps (with_step s i st') !! i = Some st'.
Proof. intros Hi. by apply list_lookup_insert_eq, (lookup_lt_Some _ _ _ Hi). Qed.

Lemma flow_step_eq d s k X Y : flow_step d s k X -> X = Y -> flow_step d s k Y.
Proof. by intros ? <-. Qed.

(** The status is written before the state when a cancellation is under way. *)
Lemma result_snapshot s i a b :
  set_status (with_step s i b) (result_status s) =
  with_step (set_status (with_step s i a) (if sn_cancel_requested s then Cancelling else Running)) i b.
Proof. unfold with_step, set_status, set_steps, result_status. simpl. by rewrite list_insert_insert_eq. Qed.

Lemma finish_cancelled_spec errors r r1 :
  run_inv r -> fr_definition r1 = fr_definition r ->
  sn_steps (fr_snapshot r1) = sn_steps (fr_snapshot r) ->
  set_status (set_cancel (fr_snapshot r1) true) CancelledStatus =
    set_status (set_cancel (fr_snapshot r) true) CancelledStatus ->
  status_is_terminal (sn_status (fr_snapshot r)) = false ->
  sn_sequence (fr_snapshot r) <> u64_max -> op_spec errors r (finish_cancelled r1).
Proof.
  intros Hinv Hdef Hsteps Hsame Hlive Hne. unfold finish_cancelled.
  rewrite bind_ensure by (injection Hsame; congruence).
  unfold st_bind, st_get, put_snapshot, put_cancel, put_status, put_issued, changed_terminal. simpl.
  apply changed_spec; [done|done| |done]. simpl.
  enough (E : set_steps (set_status (set_cancel (fr_snapshot r1) true) CancelledStatus)
            (cancel_step <$> sn_steps (fr_snapshot r1))
          = cancelled_snapshot (fr_snapshot r)) by (unfold set_steps in E; simpl in E;
            unfold set_status, set_cancel, set_steps; simpl; rewrite E; by apply step_cancelled).
  unfold cancelled_snapshot. by rewrite Hsame, Hsteps.
Qed.

(** ** Reads of a run that satisfies the invariant *)

Section reads.
Context (r : FlowRun) (Hr : run_inv r).
Abbreviation d := (fr_definition r).
Abbreviation s := (fr_snapshot r).

(** The attempt an engine decision names. *)
Definition attempt_of (i : nat) (dcl : FlowStep) (st : StepSnapshot) (n : Z) : EffectAttempt :=
  {| ea_step_index := i; ea_step_id := ss_id st; ea_attempt := n;
     ea_idempotency_identity := ss_idempotency_identity st;
     ea_effect := fs_effect dcl; ea_timeout_seconds := fs_timeout_seconds dcl |}.

Lemma step_at_index i st : sn_steps s !! i = Some st -> exists dcl, at_index d s i dcl st.
Proof. apply declared_at. apply Hr. Qed.

Lemma effect_attempt_Ok i dcl st n :
  at_index d s i dcl st -> effect_attempt r i n = Ok (attempt_of i dcl st n).
Proof. intros [Hd Hs]. unfold effect_attempt, declared_step. by rewrite Hs, Hd. Qed.

Lemma in_flight_effect_spec :
  (in_flight_effect r = Ok None /\ forall st, st ∈ sn_steps s -> is_in_flight (ss_state st) = false)
  \/ exists i dcl st n started, at_index d s i dcl st /\ ss_state st = InFlight n started
       /\ in_flight_effect r = Ok (Some (attempt_of i dcl st n)).
Proof.
  unfold in_flight_effect. destruct (position _ (sn_steps s)) as [i|] eqn:E.
  - right. apply position_Some in E as (st & Hi & Hf). rewrite Hi.
    destruct (step_at_index i st Hi) as [dcl Hat].
    destruct (ss_state st) as [| |n started| | | | | |] eqn:Es; try discriminate.
    rewrite (effect_attempt_Ok i dcl st n Hat). by exists i, dcl, st, n, started.
  - left. split; [done|]. intros st [i Hi]%list_elem_of_lookup.
    destruct (is_in_flight (ss_state st)) eqn:Ef; [|done].
    destruct (position_first (fun step => is_in_flight (ss_state step)) _ i st Hi Ef) as (k & _ & E').
    congruence.
Qed.

(** References of a validated definition resolve to steps of the snapshot. *)
Lemma reference_resolves i dcl reference :
  fd_steps d !! i = Some dcl -> reference ∈ references dcl ->
  exists j t, definition_position d reference = Some j /\ sn_steps s !! j = Some t
    /\ state_by_id r reference = Ok (ss_state t)
    /\ snapshot_state_by_id d s reference = Ok (Some (ss_state t)).
Proof.
  intros Hi Href. destruct Hr as [Hv Hinv _]. destruct (vd_step _ Hv) as (m & Hm & Hsteps & _).
  destruct (vs_references _ _ (Hsteps dcl (list_elem_of_lookup_2 _ _ _ Hi)) reference Href)
    as [[j Hj] _].
  apply Hm in Hj. change (definition_position d reference = Some j) in Hj.
  pose proof Hj as Hlt. apply position_Some in Hlt as (t' & Ht' & _).
  apply lookup_lt_Some in Ht'. rewrite <-(iv_length _ _ Hinv) in Ht'.
  apply lookup_lt_is_Some_2 in Ht' as [t Ht]. exists j, t. split_and!; try done.
  - unfold state_by_id. rewrite Hj. simpl. by rewrite Ht.
  - unfold snapshot_state_by_id. by rewrite Hj, Ht.
Qed.

Lemma all_res_spec {E A} (f : A -> res E bool) (P : A -> Prop) l :
  (forall x, x ∈ l -> exists b, f x = Ok b /\ (b = true <-> P x)) ->
  exists b, all_res f l = Ok b /\ (b = true <-> forall x, x ∈ l -> P x).
Proof.
  induction l as [|x l IH]; intros Hf; simpl.
  - exists true. split; [done|]. split; [by intros _ ? ?%not_elem_of_nil|done].
  - destruct (Hf x) as ([] & -> & Hx); [set_solver| |].
    + destruct IH as (b & -> & Hb); [set_solver|]. exists b. split; [done|]. rewrite Hb. set_solver.
    + exists false. split; [done|]. split; [done|]. intros Hall. apply Hx. set_solver.
Qed.

Lemma prerequisites_spec i dcl :
  fd_steps d !! i = Some dcl ->
  exists b, prerequisites_complete r i = Ok b /\ (b = true <-> refs_terminal d s dcl).
Proof.
  intros Hi. unfold prerequisites_complete, declared_step. rewrite Hi. simpl.
  apply (all_res_spec _ (fun reference => exists j t,
    definition_position d reference = Some j /\ sn_steps s !! j = Some t
    /\ is_terminal (ss_state t) = true)).
  intros reference Href.
  destruct (reference_resolves i dcl reference Hi Href) as (j & t & Hj & Ht & -> & _).
  exists (is_terminal (ss_state t)). split; [done|]. split; [eauto|].
  intros (j' & t' & Hj' & Ht' & E). by simplify_eq.
Qed.

Lemma condition_spec i dcl :
  fd_steps d !! i = Some dcl ->
  exists b, condition_is_true r i = Ok b /\ declared_condition_true d s (fs_condition dcl) = Ok b.
Proof.
  intros Hi. unfold condition_is_true, declared_step, declared_condition_true. rewrite Hi. simpl.
  destruct (fs_condition dcl) eqn:Ec; [by eauto| |];
    destruct (reference_resolves i dcl step Hi) as (j & t & _ & _ & -> & ->);
    try (apply condition_reference; by rewrite Ec); simpl; eauto.
Qed.

(** The scheduler's loop finds the first pending step with complete
    prerequisites, if there is one. *)
Lemma first_ready_spec n k :
  (k + n = length (sn_steps s))%nat ->
  (forall j dcl st, (j < k)%nat -> at_index d s j dcl st -> ss_state st = Pending ->
     ~ refs_terminal d s dcl) ->
  match first_ready r (seq k n) with
  | Ok (Some i) => exists dcl st, at_index d s i dcl st /\ ss_state st = Pending
      /\ refs_terminal d s dcl /\ first_schedulable d s i
  | Ok None => first_schedulable d s (length (sn_steps s))
  | _ => False
  end.
Proof.
  revert k. induction n as [|n IH]; intros k Hk Hbefore; simpl.
  - unfold first_schedulable. by replace (length (sn_steps s)) with k by lia.
  - destruct (lookup_lt_is_Some_2 (sn_steps s) k) as [st Hst]; [lia|].
    destruct (step_at_index k st Hst) as [dcl Hat]. rewrite Hst. simpl.
    destruct (prerequisites_spec k dcl (proj1 Hat)) as (b & Hb & Hiff).
    assert (Hnext : ss_state st <> Pending \/ ~ refs_terminal d s dcl ->
      forall j dcl st, (j < S k)%nat -> at_index d s j dcl st -> ss_state st = Pending ->
        ~ refs_terminal d s dcl).
    { intros Hor j dcl' st' Hj Hat' Hp'. destruct (decide (j = k)) as [->|Hne].
      - destruct Hat as [? ?], Hat' as [? ?]. simplify_eq. by destruct Hor.
      - apply (Hbefore j dcl' st'); [lia|done|done]. }
    destruct (is_pending (ss_state st)) eqn:Ep; simpl.
    + rewrite Hb. destruct b; simpl.
      * exists dcl, st. split_and!; [done|by destruct (ss_state st)|by apply Hiff|done].
      * apply IH; [lia|]. apply Hnext. right. intros Hc. by apply Hiff in Hc.
    + apply IH; [lia|]. apply Hnext. left. intros E. by rewrite E in Ep.
Qed.

(** No schedulable step and no step under way: every step is terminal. *)
Lemma quiescent_terminal :
  first_schedulable d s (length (sn_steps s)) ->
  (forall st, st ∈ sn_steps s -> is_pending (ss_state st) || is_terminal (ss_state st) = true) ->
  forall st, st ∈ sn_steps s -> is_terminal (ss_state st) = true.
Proof.
  intros Hf Hq. destruct (valid_definition_rank _ (ri_definition _ Hr)) as [rank Hrank].
  assert (Hall : forall n i st, rank i = n -> sn_steps s !! i = Some st ->
            is_terminal (ss_state st) = true).
  { intros n. induction (lt_wf n) as [n _ IH]. intros i st <- Hi.
    specialize (Hq st (list_elem_of_lookup_2 _ _ _ Hi)).
    destruct (is_pending (ss_state st)) eqn:Ep; [|done].
    destruct (step_at_index i st Hi) as [dcl Hat].
    destruct (Hf i dcl st); [by eapply lookup_lt_Some|done|by destruct (ss_state st)|].
    intros reference Href.
    destruct (reference_resolves i dcl reference (proj1 Hat) Href) as (j & t & Hj & Ht & _).
    exists j, t. split_and!; [done..|]. eapply (IH (rank j)); [|done|done].
    eapply Hrank; [apply Hat|done|done]. }
  intros st [i Hi]%list_elem_of_lookup. by eapply Hall.
Qed.

End reads.

(** ** The operations *)

Section operations.
Context (r : FlowRun) (Hr : run_inv r).
Abbreviation d := (fr_definition r).
Abbreviation s := (fr_snapshot r).

Lemma under_way_status i dcl st :
  at_index d s i dcl st -> under_way (ss_state st) = true -> sn_cancel_requested s = false ->
  sn_status s = match ss_state st with
                | WaitingRetry _ _ => WaitingRetryStatus
                | AwaitingEffect _ => AwaitingEffectEvaluation
                | _ => EffectInFlight
                end.
Proof.
  intros Hat Hu Hc. destruct Hr as [_ Hinv _].
  rewrite (active_status _ _ _ _ _ Hinv Hat (under_way_active _ Hu) Hc). unfold focus_status.
  rewrite (ready_not_pending _ (under_way_ready _ _ Hinv _ _ _ Hat Hu)).
  by destruct (ss_state st).
Qed.

Lemma continue_cancellation_spec :
  status_is_terminal (sn_status s) = false -> op_spec (overflow r) r (continue_cancellation r).
Proof.
  intros Hlive. unfold continue_cancellation.
  assert (Hfin : op_spec (overflow r) r (finish_cancelled r)).
  { destruct (decide (sn_sequence s = u64_max)) as [E|Hne].
    - unfold finish_cancelled, st_bind at 1, ensure_can_change. rewrite E. done.
    - by apply finish_cancelled_spec. }
  unfold st_bind at 1, st_get.
  destruct (in_flight_effect_spec r Hr) as [[E _]|(i & dcl & st & n & started & _ & _ & E)];
    rewrite (bind_lift_ok _ _ _ _ E); [done|]. by destruct (ea_effect _).
Qed.

Lemma decision_for_active_spec i dcl st now_ms :
  at_index d s i dcl st -> under_way (ss_state st) = true ->
  sn_cancel_requested s = false -> status_is_terminal (sn_status s) = false ->
  op_spec (overflow r) r (decision_for_active i (ss_state st) now_ms r).
Proof.
  intros Hat Hu Hc Hlive. unfold decision_for_active. unfold st_bind at 1, st_get at 1.
  pose proof (fun n => effect_attempt_Ok r i dcl st n Hat) as He.
  destruct (ss_state st) as [|n|n started|n not_before| | | | |] eqn:Es; try discriminate.
  - by rewrite (bind_lift_ok _ _ _ _ (He n)).
  - rewrite (bind_lift_ok _ _ _ _ (He n)). case_bool_decide; [done|]. by destruct (ea_effect _).
  - destruct (now_ms <? not_before); [by rewrite (bind_lift_ok _ _ _ _ (He n))|].
    apply ensure_spec; [done|]. intros Hne.
    rewrite (bind_modify _ _ _ _ _ (proj2 Hat)).
    unfold st_bind at 1, put_status. unfold st_bind at 1, st_get.
    erewrite bind_lift_ok.
    2:{ unfold effect_attempt, declared_step. simpl.
        rewrite (list_lookup_insert_eq (sn_steps s) i _ (lookup_lt_Some _ _ _ (proj2 Hat))).
        rewrite (proj1 Hat). done. }
    apply changed_spec; [done|done| |done].
    apply (step_retry _ _ i dcl st n not_before); try done.
    rewrite (under_way_status i dcl st) by (done || by rewrite Es). by rewrite Es.
Qed.

(** A live run with no step under way waits for an approval or is running. *)
Lemma idle_status :
  sn_cancel_requested s = false -> status_is_terminal (sn_status s) = false ->
  (forall st, st ∈ sn_steps s -> is_active st = false) -> sn_status s = Running.
Proof.
  intros Hc Hlive Hna. destruct Hr as [_ Hinv _].
  assert (Hany : forall p, (forall b, is_active b = false -> ss_state b <> Blocked -> p b = false) ->
            existsb p (sn_steps s) = false).
  { intros p Hp. apply existsb_all_false, Forall_forall. intros b Hb. apply Hp; [by auto|].
    by eapply live_not_blocked. }
  pose proof (iv_status _ _ Hinv) as E. revert E. inactive_existsb Hany. rewrite Hc. intros E.
  destruct (forallb _ _); [|done]. case_bool_decide; [done|].
  rewrite <-E in Hlive. by destruct (existsb _ _).
Qed.

(** A pending step that may be scheduled: either its approval is awaited, or
    the run is running. *)
Lemma schedulable_status i dcl st :
  at_index d s i dcl st -> sn_cancel_requested s = false ->
  status_is_terminal (sn_status s) = false -> ss_state st = Pending ->
  refs_terminal d s dcl -> first_schedulable d s i ->
  (forall b, b ∈ sn_steps s -> under_way (ss_state b) = false) ->
  (exists token, ss_approval st = ApprovalPending token)
  \/ (sn_status s = Running /\ approval_pending (ss_approval st) = false).
Proof.
  intros Hat Hc Hlive Hp Hrefs Hf Hidle. destruct (approval_pending (ss_approval st)) eqn:Ea.
  { left. destruct (ss_approval st); try done. eauto. }
  right. split; [|done]. apply idle_status; [done..|]. intros b Hb.
  unfold is_active. specialize (Hidle b Hb). unfold under_way in Hidle. rewrite Hidle. simpl.
  destruct (approval_pending (ss_approval b)) eqn:Eb; [|done]. exfalso.
  apply list_elem_of_lookup in Hb as [j Hj]. destruct (step_at_index r Hr j b Hj) as [dcl' Hat'].
  destruct Hr as [_ Hinv _].
  assert (Hpb : exists t, ss_approval b = ApprovalPending t) by (destruct (ss_approval b); eauto; done).
  destruct Hpb as [t Ht]. pose proof (pending_of_approval _ _ Hinv _ _ _ Hat' t Ht) as Hpb.
  destruct (decide (j = i)) as [->|Hne].
  { destruct Hat as [_ Hi]. congruence. }
  destruct (decide (i < j)%nat) as [Hlt|Hge].
  - by apply (iv_first _ _ Hinv j b Hj Eb i dcl st Hlt Hat Hp).
  - destruct (iv_graph _ _ Hinv j dcl' b Hat') as [Hrefs' _]; [by rewrite Hpb|right; eauto|].
    apply (Hf j dcl' b); [lia|done..].
Qed.

Lemma schedule_step_spec i dcl st :
  at_index d s i dcl st -> sn_cancel_requested s = false ->
  status_is_terminal (sn_status s) = false -> ss_state st = Pending ->
  refs_terminal d s dcl -> declared_condition_true d s (fs_condition dcl) = Ok true ->
  first_schedulable d s i ->
  (forall b, b ∈ sn_steps s -> under_way (ss_state b) = false) ->
  op_spec (overflow r) r (schedule_step i 1 r).
Proof.
  intros Hat Hc Hlive Hp Hrefs Hcond Hf Hidle.
  pose proof (schedulable_status i dcl st Hat Hc Hlive Hp Hrefs Hf Hidle) as Hst.
  destruct (live_state _ _ (ri_snapshot _ Hr) _ _ _ Hat _ Hp) as (_ & _ & Hnd). simpl in Hnd.
  pose proof Hat as [Hd Hi]. pose proof (lookup_lt_Some _ _ _ Hi) as Hlt.
  unfold schedule_step. apply ensure_spec; [done|]. intros Hne. rewrite (bind_get_step _ _ _ _ Hi).
  destruct (ss_approval st) as [| |t|t|t] eqn:Ea; try done; [| | |by destruct (Hnd t)].
  2:{ rewrite (bind_modify _ _ _ _ _ Hi). unfold st_bind at 1, put_status.
      erewrite bind_get_step; [|by apply list_lookup_insert_eq].
      apply changed_spec; [done|done| |done]. simpl.
      apply (step_request _ _ i dcl st); try done. by destruct Hst as [[? ?]|[? _]]. }
  all: rewrite (bind_modify _ _ _ _ _ Hi); unfold st_bind at 1, put_status; unfold st_bind at 1, st_get;
    erewrite bind_lift_ok;
    [|unfold effect_attempt, declared_step; simpl; by rewrite list_lookup_insert_eq, Hd].
  all: apply changed_spec; [done|done| |done]; apply (step_evaluate _ _ i dcl st); try done;
    rewrite ?Ea; try done; by destruct Hst as [[? ?]|[? _]].
Qed.

Lemma first_active_spec :
  match first_active s with
  | Some i => exists dcl st, at_index d s i dcl st /\ under_way (ss_state st) = true
  | None => forall st, st ∈ sn_steps s -> under_way (ss_state st) = false
  end.
Proof.
  unfold first_active. destruct (position _ _) as [i|] eqn:E.
  - apply position_Some in E as (st & Hi & Hu). destruct (step_at_index r Hr i st Hi) as [dcl Hat].
    by exists dcl, st.
  - intros st [i Hi]%list_elem_of_lookup. destruct (under_way (ss_state st)) eqn:Eu; [|done].
    destruct (position_first (fun step => under_way (ss_state step)) _ i st Hi Eu) as (k & _ & E').
    unfold under_way in E'. congruence.
Qed.

Lemma skip_spec i dcl st :
  at_index d s i dcl st -> sn_cancel_requested s = false -> sn_status s = Running ->
  ss_state st = Pending -> refs_terminal d s dcl ->
  declared_condition_true d s (fs_condition dcl) = Ok false ->
  op_spec (overflow r) r (skip_step i r).
Proof.
  intros Hat Hc Hs Hp Hrefs Hcond. pose proof Hat as [Hd Hi].
  apply ensure_spec; [done|]. intros Hne. rewrite (bind_modify _ _ _ _ _ Hi).
  erewrite bind_get_step; [|by apply list_lookup_insert_eq, (lookup_lt_Some _ _ _ Hi)].
  apply changed_spec; [done|done| |done]. by apply (step_skip _ _ i dcl st).
Qed.

Lemma complete_spec :
  sn_cancel_requested s = false -> sn_status s = Running ->
  (forall st, st ∈ sn_steps s -> is_terminal (ss_state st) = true) ->
  op_spec (overflow r) r (complete_run r).
Proof.
  intros Hc Hs Hall. apply ensure_spec; [done|]. intros Hne.
  unfold st_bind, st_get, put_status, changed_terminal. apply changed_spec; [done|done| |done].
  by apply step_completed.
Qed.

Lemma next_decision_refines now_ms : op_spec (overflow r) r (next_decision now_ms r).
Proof.
  unfold next_decision. unfold st_bind at 1, st_get.
  destruct (status_is_terminal (sn_status s)) eqn:Hlive; [done|].
  destruct (sn_cancel_requested s) eqn:Hc; [by apply continue_cancellation_spec|].
  pose proof first_active_spec as Hact. destruct (first_active s) as [i|].
  { destruct Hact as (dcl & st & Hat & Hu). rewrite (bind_get_step _ _ _ _ (proj2 Hat)).
    by eapply decision_for_active_spec. }
  pose proof (first_ready_spec r Hr (length (sn_steps s)) 0 eq_refl) as Hready.
  destruct (first_ready _ _) as [[i|]| |] eqn:Ef; try (destruct Hready; lia).
  - destruct Hready as (dcl & st & Hat & Hp & Hrefs & Hf); [lia|].
    rewrite (bind_lift_ok _ _ _ _ eq_refl).
    destruct (condition_spec r Hr i dcl (proj1 Hat)) as (b & Hb & Hcond).
    rewrite (bind_lift_ok _ _ _ _ Hb). destruct b; simpl.
    + by eapply schedule_step_spec.
    + eapply skip_spec; try done.
      destruct (schedulable_status i dcl st Hat Hc Hlive Hp Hrefs Hf Hact) as [[t Ht]|[? _]]; [|done].
      destruct (iv_graph _ _ (ri_snapshot _ Hr) i dcl st Hat) as [_ E]; [by rewrite Hp|right; eauto|].
      rewrite Hp in E. simpl in E. congruence.
  - rewrite (bind_lift_ok _ _ _ _ eq_refl).
    assert (Hterm : forall st, st ∈ sn_steps s -> is_terminal (ss_state st) = true).
    { apply quiescent_terminal; [done|apply Hready; lia|]. intros st Hst. specialize (Hact st Hst).
      unfold under_way in Hact. by destruct (is_pending _), (is_terminal _). }
    rewrite (proj2 (forallb_true_elem _ _) Hterm). apply complete_spec; [done| |done].
    apply idle_status; [done..|]. intros st Hst. specialize (Hterm st Hst).
    apply list_elem_of_lookup in Hst as [i Hi]. destruct (step_at_index r Hr i st Hi) as [dcl Hat].
    unfold is_active. rewrite Hterm. destruct (is_pending _); simpl;
      (destruct (ss_approval st) eqn:Ea; try done);
      pose proof (pending_of_approval _ _ (ri_snapshot _ Hr) _ _ _ Hat _ Ea) as Hp; by rewrite Hp in Hterm.
Qed.

Lemma active_live i dcl st :
  at_index d s i dcl st -> is_active st = true -> status_is_terminal (sn_status s) = false.
Proof.
  intros [_ Hi] Ha. destruct (status_is_terminal (sn_status s)) eqn:E; [|done].
  rewrite (iv_stopped _ _ (ri_snapshot _ Hr) E st) in Ha; [done|]. by eapply list_elem_of_lookup_2.
Qed.

Lemma cancelling_status :
  sn_cancel_requested s = true -> status_is_terminal (sn_status s) = false -> sn_status s = Cancelling.
Proof.
  intros Hc Hlive. pose proof (iv_status _ _ (ri_snapshot _ Hr)) as E. unfold computed_status in E.
  rewrite Hc in E. by destruct (sn_status s).
Qed.

(** Pending approvals only exist while the run waits for one. *)
Lemma approval_status i dcl st token :
  at_index d s i dcl st -> ss_approval st = ApprovalPending token ->
  sn_cancel_requested s = false /\ sn_status s = WaitingApproval.
Proof.
  intros Hat Ha. destruct (sn_cancel_requested s) eqn:Hc.
  - destruct (iv_quiet _ _ (ri_snapshot _ Hr) Hc i dcl st Hat) as (Hq & _). by rewrite Ha in Hq.
  - split; [done|].
    rewrite (active_status _ _ _ _ _ (ri_snapshot _ Hr) Hat) by
      (try done; unfold is_active; rewrite Ha; apply orb_true_r).
    unfold focus_status. by rewrite Ha.
Qed.

Definition approval_errors (e : FlowEngineError) : Prop :=
  e ∈ [ApprovalTokenMismatch; NoApprovalPending] \/ overflow r e.

Lemma resolve_approval_refines token decision :
  op_spec approval_errors r (resolve_approval token decision r).
Proof.
  unfold resolve_approval. unfold st_bind at 1, st_get.
  destruct (position _ _) as [i|] eqn:Ep.
  2:{ destruct (existsb _ _); (split; [done|]); left; set_solver. }
  apply position_Some in Ep as (st & Hi & Ht). destruct (step_at_index r Hr i st Hi) as [dcl Hat].
  destruct (ss_approval st) as [| |t|t|t] eqn:Ea; try discriminate.
  apply String.eqb_eq in Ht as ->. destruct (approval_status i dcl st token Hat Ea) as [Hc Hs].
  rewrite (bind_get_step _ _ _ _ Hi). apply ensure_spec; [intros e He; by right|]. intros Hne.
  destruct decision.
  - rewrite (bind_modify _ _ _ _ _ Hi). unfold st_bind at 1, put_status.
    apply changed_spec; [done|done| |done]. by apply (step_grant _ _ i dcl st token).
  - rewrite (bind_modify _ _ _ _ _ Hi).
    do 2 (erewrite bind_modify; [|by eapply lookup_with_step]; simpl; rewrite with_step_twice).
    unfold st_bind at 1, put_status, changed_terminal.
    apply changed_spec; [done|done| |done]. by apply (step_deny _ _ i dcl st token).
Qed.

(** ** Operations on an effect attempt *)

Lemma validate_effect_total effect :
  validate_effect r effect <> Panic /\
  forall e, validate_effect r effect = Err e -> e = EffectIdentityMismatch.
Proof.
  unfold validate_effect. destruct (sn_steps s !! _) as [st|] eqn:Ei; [|split; [done|by intros ? [= <-]]].
  destruct (step_at_index r Hr _ st Ei) as [dcl [Hd _]]. unfold declared_step. rewrite Hd. simpl.
  destruct (_ || _); (split; [done|]); [by intros ? [= <-]|done].
Qed.

Lemma validate_effect_Ok effect :
  validate_effect r effect = Ok tt -> exists dcl st,
    at_index d s (ea_step_index effect) dcl st /\
    effect = attempt_of (ea_step_index effect) dcl st (ea_attempt effect) /\
    ea_attempt effect <= max_attempts (fs_retry dcl).
Proof.
  unfold validate_effect. destruct (sn_steps s !! _) as [st|] eqn:Ei; [|done].
  destruct (step_at_index r Hr _ st Ei) as [dcl [Hd _]]. unfold declared_step. rewrite Hd. simpl.
  destruct (_ || _) eqn:E; [done|]. intros _. exists dcl, st.
  rewrite !orb_false_iff, !negb_false_iff, !String.eqb_eq, bool_decide_eq_true, Z.eqb_eq in E.
  split_and!; [done| |lia]. destruct effect; unfold attempt_of; simpl in *. naive_solver.
Qed.

Lemma effect_spec errors effect (k : unit -> M EngineUpdate) :
  errors EffectIdentityMismatch ->
  (forall i dcl st n, at_index d s i dcl st -> effect = attempt_of i dcl st n ->
     n <= max_attempts (fs_retry dcl) -> op_spec errors r (k tt r)) ->
  op_spec errors r (st_bind (st_lift (validate_effect r effect)) k r).
Proof.
  intros He Hk. destruct (validate_effect_total effect) as [Hp Herr].
  apply lift_spec; [done|by intros e ->%Herr|]. intros [] Hok.
  apply validate_effect_Ok in Hok as (dcl & st & Hat & E & Hle). by eapply Hk.
Qed.

Definition effect_errors (e : FlowEngineError) : Prop :=
  e ∈ [EffectIdentityMismatch; UnexpectedStepState; StatefulReplayRequiresReconcile] \/ overflow r e.

Lemma prepare_effect_refines effect now_ms :
  op_spec effect_errors r (prepare_effect effect now_ms r).
Proof.
  unfold prepare_effect. unfold st_bind at 1, st_get.
  apply effect_spec; [left; set_solver|]. intros i dcl st n Hat -> Hle. simpl.
  pose proof Hat as [Hd Hi]. rewrite (bind_get_step _ _ _ _ Hi).
  apply ensure_spec; [intros e He; by right|]. intros Hne.
  assert (Herr : forall e, e ∈ [UnexpectedStepState; StatefulReplayRequiresReconcile] ->
            op_spec effect_errors r (r, Err e)).
  { intros e He. split; [done|]. left. set_solver. }
  pose proof (under_way_status i dcl st Hat) as Hst.
  destruct (ss_state st) as [|a|a started| | | | | |] eqn:Es; try (apply Herr; set_solver).
  - destruct (Z.eqb_spec a n) as [->|_]; [|apply Herr; set_solver].
    unfold st_bind at 1. rewrite (bind_modify _ _ _ _ _ Hi). unfold st_ret.
    unfold st_bind, put_status, put_issued. apply changed_spec; [done|done| |done]. simpl.
    assert (Hc : sn_cancel_requested s = false).
    { destruct (sn_cancel_requested s) eqn:Hc; [|done].
      destruct (iv_quiet _ _ (ri_snapshot _ Hr) Hc i dcl st Hat) as (_ & Hq & _). by rewrite Es in Hq. }
    apply (step_started _ _ i dcl st); try done. by apply Hst.
  - case_bool_decide as He; [|rewrite andb_false_r; apply Herr; set_solver]. rewrite andb_true_r.
    destruct (Z.eqb_spec a n) as [->|_]; [|apply Herr; set_solver].
    unfold st_bind, st_ret, put_status, put_issued. apply changed_spec; [done|done| |done]. simpl.
    assert (Hc : sn_cancel_requested s = false).
    { destruct (sn_cancel_requested s) eqn:Hc; [|done].
      destruct (iv_quiet _ _ (ri_snapshot _ Hr) Hc i dcl st Hat) as (_ & _ & Hq).
      rewrite Es in Hq. simpl in He. by rewrite Hq in He. }
    apply (step_replayed _ _ i dcl st n started); try done. by apply Hst.
Qed.

Lemma deny_effect_authorization_refines effect :
  op_spec effect_errors r (deny_effect_authorization effect r).
Proof.
  unfold deny_effect_authorization. unfold st_bind at 1, st_get.
  apply effect_spec; [left; set_solver|]. intros i dcl st n Hat -> Hle. simpl.
  assert (Herr : op_spec effect_errors r (r, Err UnexpectedStepState)).
  { split; [done|]. left. set_solver. }
  destruct (sn_cancel_requested s) eqn:Hc; [done|].
  pose proof Hat as [Hd Hi]. rewrite (bind_get_step _ _ _ _ Hi).
  assert (Hrest : forall replay : bool,
    (if replay then sn_status s = EffectInFlight /\ in_flight_at (ss_state st) n = true
          /\ fs_effect dcl = ReadOnly
     else sn_status s = AwaitingEffectEvaluation /\ awaiting_at (ss_state st) n = true) ->
    op_spec effect_errors r ((do! ensure_can_change in
      do! modify_step i (fun s => set_state s Blocked) in
      do! modify_step i (fun s => set_blocked_report s (Some unauthorized_report)) in
      do! put_status BlockedStatus in
      do! put_issued None in
      changed_terminal (EffectAuthorizationDenied (ss_id st) n replay)) r)).
  { intros replay Hor. apply ensure_spec; [intros e He; by right|]. intros Hne.
    rewrite (bind_modify _ _ _ _ _ Hi). erewrite bind_modify; [|by eapply lookup_with_step].
    simpl. rewrite with_step_twice. unfold st_bind, put_status, put_issued, changed_terminal.
    apply changed_spec; [done|done| |done]. by apply (step_unauthorized _ _ i dcl st n replay). }
  destruct (ss_state st) as [|a|a started| | | | | |] eqn:Es; try exact Herr.
  - destruct (Z.eqb_spec a n) as [->|_]; [|exact Herr]. case_bool_decide; [|exact Herr].
    apply (Hrest false). simpl. by rewrite Z.eqb_refl.
  - destruct (Z.eqb_spec a n) as [->|_]; [|exact Herr]. case_bool_decide; [|exact Herr].
    case_bool_decide; [|exact Herr]. apply (Hrest true). simpl. by rewrite Z.eqb_refl.
Qed.

(** ** Recording results *)

(** The step of a validated definition at an index. *)
Lemma declared_bounds i dcl :
  fd_steps d !! i = Some dcl -> 1 <= max_attempts (fs_retry dcl) <= MAX_RETRY_ATTEMPTS.
Proof.
  intros Hi. destruct (vd_step _ (ri_definition _ Hr)) as (m & _ & Hv & _).
  by apply (vs_attempts _ _ (Hv dcl (list_elem_of_lookup_2 _ _ _ Hi))).
Qed.

(** A duplicate result finds the step past its attempt: the decision exists. *)
Lemma current_decision i dcl st record :
  at_index d s i dcl st -> record ∈ ss_results st ->
  exists decision, decision_for_current_state r i = Ok decision.
Proof.
  intros Hat Hrec. unfold decision_for_current_state.
  destruct (status_is_terminal (sn_status s)) eqn:Hlive; [eauto|].
  pose proof (effect_attempt_Ok r i dcl st) as He. pose proof Hat as [_ Hi]. rewrite Hi. simpl.
  destruct (ss_state st) eqn:Es; rewrite ?(He _ Hat); eauto.
  - destruct (live_state _ _ (ri_snapshot _ Hr) _ _ _ Hat _ Es) as (E & _). simpl in E.
    rewrite E in Hrec. by apply not_elem_of_nil in Hrec.
  - by destruct (live_not_blocked _ _ (ri_snapshot _ Hr) st Hlive (list_elem_of_lookup_2 _ _ _ Hi)).
Qed.

(** The retry schedule, computed at the width of the attempt counter. *)
Lemma retry_schedule_spec i dcl st n result_kind now_ms :
  at_index d s i dcl st -> 0 <= n -> n <= max_attempts (fs_retry dcl) ->
  match retry_schedule r i (attempt_of i dcl st n) result_kind now_ms with
  | Ok (Some (next, _)) => result_kind = KindFailed true /\ sn_cancel_requested s = false
      /\ n < max_attempts (fs_retry dcl) /\ next = n + 1
  | Ok None => result_kind = KindFailed true -> sn_cancel_requested s = false ->
      n = max_attempts (fs_retry dcl)
  | Err e => e = TimestampOverflow
  | Panic => False
  end.
Proof.
  intros [Hd Hi] H0 Hle. pose proof (declared_bounds i dcl Hd) as Hb.
  unfold MAX_RETRY_ATTEMPTS in Hb. unfold retry_schedule, declared_step. rewrite Hd. simpl.
  destruct (negb _) eqn:Ek; simpl; [intros ->; done|].
  destruct (sn_cancel_requested s) eqn:Ec; simpl; [done|].
  destruct (Z.leb_spec (max_attempts (fs_retry dcl)) n) as [|Hlt]; [lia|].
  destruct (checked_add64 _ _); simpl; [|done].
  split_and!; [by destruct result_kind as [|[]]|done|done|].
  unfold wrap8. apply Z.mod_small. lia.
Qed.

Definition result_errors (e : FlowEngineError) : Prop :=
  e ∈ [EffectIdentityMismatch; UnexpectedStepState; TimestampOverflow]
  \/ (exists path message, e = InvalidValue path message)
  \/ (exists step_id attempt, e = ConflictingEffectResult step_id attempt)
  \/ overflow r e.

Lemma identity_error e : e = EffectIdentityMismatch -> result_errors e.
Proof. intros ->. left. set_solver. Qed.

(** The run with the result of an attempt appended. *)
Definition pushed (i : nat) (st : StepSnapshot) (n : Z) (result : EffectResult) : FlowRun :=
  with_issued (with_snapshot r (with_step s i
    (push_result st {| rec_attempt := n; rec_result := result |}))) None.

Lemma settle_cancelling_spec errors i dcl st n started result :
  at_index d s i dcl st -> ss_state st = InFlight n started ->
  sn_cancel_requested s = true -> in_flight_or_cancelling (sn_status s) = true ->
  sn_sequence s <> u64_max -> result_ok result ->
  op_spec errors r
    (settle_cancelling (attempt_of i dcl st n) (kind result) (pushed i st n result)).
Proof.
  intros Hat Hf Hc Hflight Hne Hok. pose proof Hat as [Hd Hi].
  unfold settle_cancelling, pushed. unfold st_bind at 1, put_status.
  destruct (kind result) as [|retryable] eqn:Ek; simpl;
    (erewrite bind_modify; [|by eapply lookup_with_step]; simpl);
    (apply changed_spec; [done|done| |done]); simpl.
  - eapply flow_step_eq; [by apply (step_succeeded _ _ i dcl st n started result)|].
    etransitivity; [apply result_snapshot|by rewrite Hc].
  - eapply flow_step_eq; [apply (step_failed _ _ i dcl st n started result retryable); try done|].
    + by rewrite Hc.
    + etransitivity; [apply result_snapshot|by rewrite Hc].
Qed.

Lemma settle_running_spec errors i dcl st n started result schedule :
  at_index d s i dcl st -> ss_state st = InFlight n started ->
  sn_cancel_requested s = false -> sn_status s = EffectInFlight ->
  sn_sequence s <> u64_max -> result_ok result ->
  match schedule with
  | Some (next, _) => n < max_attempts (fs_retry dcl) /\ next = n + 1 /\ kind result = KindFailed true
  | None => kind result = KindFailed true -> n = max_attempts (fs_retry dcl)
  end ->
  op_spec errors r
    (settle_running (attempt_of i dcl st n) (kind result) schedule (pushed i st n result)).
Proof.
  intros Hat Hf Hc Hs Hne Hok Hsched. pose proof Hat as [Hd Hi].
  assert (Hflight : in_flight_or_cancelling (sn_status s) = true) by by rewrite Hs.
  unfold settle_running, pushed.
  destruct (kind result) as [|retryable] eqn:Ek; [|destruct schedule as [[next not_before]|]]; simpl;
    (erewrite bind_modify; [|by eapply lookup_with_step]; simpl); rewrite with_step_twice;
    unfold st_bind at 1, put_status.
  - apply changed_spec; [done|done| |done].
    eapply flow_step_eq; [by apply (step_succeeded _ _ i dcl st n started result)|].
    unfold result_status. by rewrite Hc.
  - destruct Hsched as (Hlt & -> & [= ->]). unfold st_bind at 1, st_get.
    erewrite bind_lift_ok;
      [|unfold effect_attempt, declared_step; simpl; rewrite list_lookup_insert_eq;
        [by rewrite Hd|by eapply lookup_lt_Some]].
    apply changed_spec; [done|done| |done]. by apply (step_retry_scheduled _ _ i dcl st n started).
  - apply changed_spec; [done|done| |done]. destruct retryable.
    + apply (step_exhausted _ _ i dcl st n started); try done. by apply Hsched.
    + eapply flow_step_eq; [apply (step_failed _ _ i dcl st n started result false); try done|].
      * by rewrite orb_true_r.
      * unfold result_status. by rewrite Hc.
Qed.

Lemma fresh_result_spec i dcl st n started result now_ms :
  at_index d s i dcl st -> ss_state st = InFlight n started ->
  n <= max_attempts (fs_retry dcl) -> result_ok result ->
  op_spec result_errors r (record_fresh_result (attempt_of i dcl st n) result now_ms r).
Proof.
  intros Hat Hf Hle Hok. pose proof Hat as [Hd Hi].
  destruct (live_state _ _ (ri_snapshot _ Hr) _ _ _ Hat _ Hf) as (Hn & _). simpl in Hn.
  pose proof (retry_schedule_spec i dcl st n (kind result) now_ms Hat ltac:(lia) Hle) as Hsched.
  assert (Hu : under_way (ss_state st) = true) by by rewrite Hf.
  pose proof (active_live i dcl st Hat (under_way_active _ Hu)) as Hlive.
  unfold record_fresh_result. unfold st_bind at 1, st_get at 1.
  apply lift_spec; [by intros E; simpl in E; rewrite E in Hsched| |].
  { intros e E. simpl in E. rewrite E in Hsched. subst e. left. set_solver. }
  intros schedule E. simpl in E. rewrite E in Hsched. clear E.
  apply ensure_spec; [intros e He; do 3 right; done|]. intros Hne.
  rewrite (bind_modify _ _ _ _ _ Hi). unfold st_bind at 1, put_issued.
  destruct (sn_cancel_requested s) eqn:Hc.
  - eapply settle_cancelling_spec; try done. by rewrite cancelling_status.
  - eapply settle_running_spec; try done.
    + rewrite (under_way_status i dcl st Hat Hu Hc). by rewrite Hf.
    + destruct schedule as [[next nb]|]; naive_solver.
Qed.

Lemma record_effect_result_refines effect result now_ms :
  op_spec result_errors r (record_effect_result effect result now_ms r).
Proof.
  unfold record_effect_result.
  assert (Hres : checked (result_validate result "effect_result")) by apply report_checked.
  apply lift_spec; [by apply checked_total| |].
  { intros e E. destruct Hres as [?|(p & m & E')]; [congruence|]. right. left. exists p, m. congruence. }
  intros [] Hok. unfold st_bind at 1, st_get.
  apply effect_spec; [by apply identity_error|]. intros i dcl st n Hat -> Hle. simpl.
  pose proof Hat as [Hd Hi]. rewrite (bind_get_step _ _ _ _ Hi).
  destruct (List.find _ _) as [record|] eqn:Ef.
  - apply List.find_some in Ef as [Hin _]. case_bool_decide.
    + destruct (current_decision i dcl st record Hat) as [decision Hdec]; [by apply list_elem_of_In|].
      by rewrite (bind_lift_ok _ _ _ _ Hdec).
    + split; [done|]. right. right. left. eauto.
  - destruct (in_flight_at (ss_state st) n) eqn:Ea; simpl; [|split; [done|]; left; set_solver].
    destruct (ss_state st) as [| |a started| | | | | |] eqn:Es; try done.
    apply Z.eqb_eq in Ea as ->. eapply fresh_result_spec; try done. by eapply report_path.
Qed.

Lemma record_reconciliation_refines effect reconciliation now_ms :
  op_spec result_errors r (record_reconciliation effect reconciliation now_ms r).
Proof.
  unfold record_reconciliation. unfold st_bind at 1, st_get.
  apply effect_spec; [by apply identity_error|]. intros i dcl st n Hat -> Hle.
  pose proof Hat as [Hd Hi]. rewrite (bind_get_step _ _ _ _ Hi).
  case_bool_decide as He; simpl; [|split; [done|]; left; set_solver].
  destruct (in_flight_at (ss_state st) n) eqn:Ea; simpl; [|split; [done|]; left; set_solver].
  destruct (ss_state st) as [| |a started| | | | | |] eqn:Es; try done. apply Z.eqb_eq in Ea as ->.
  assert (Hu : under_way (ss_state st) = true) by by rewrite Es.
  pose proof (active_live i dcl st Hat (under_way_active _ Hu)) as Hlive.
  pose proof (fun Hc => under_way_status i dcl st Hat Hu Hc) as Hst. rewrite Es in Hst.
  destruct reconciliation as [|result|rep].
  - apply ensure_spec; [intros e E; do 3 right; done|]. intros Hne.
    destruct (sn_cancel_requested s) eqn:Hc; [by apply finish_cancelled_spec|].
    rewrite (bind_modify _ _ _ _ _ Hi). unfold st_bind at 1, put_status.
    apply changed_spec; [done|done| |done].
    apply (step_not_applied _ _ i dcl st n started); try done. by apply Hst.
  - apply record_effect_result_refines.
  - apply ensure_spec; [intros e E; do 3 right; done|]. intros Hne.
    pose proof (report_checked rep "reconciliation.unknown") as Hrep.
    apply lift_spec; [by apply checked_total| |].
    { intros e E. destruct Hrep as [?|(p & m & E')]; [congruence|]. right. left. exists p, m. congruence. }
    intros [] Hok. rewrite (bind_modify _ _ _ _ _ Hi).
    erewrite bind_modify; [|by eapply lookup_with_step]. simpl. rewrite with_step_twice.
    unfold st_bind, put_status, changed_terminal. apply changed_spec; [done|done| |done].
    apply (step_unknown _ _ i dcl st n started); try done; [|by eapply report_path].
    destruct (sn_cancel_requested s) eqn:Hc; [by rewrite cancelling_status|by rewrite Hst].
Qed.

Lemma cancel_refines : op_spec (overflow r) r (cancel r).
Proof.
  unfold cancel. unfold st_bind at 1, st_get at 1.
  destruct (status_is_terminal (sn_status s)) eqn:Hlive; [done|].
  destruct (sn_cancel_requested s) eqn:Hc; [by apply continue_cancellation_spec|].
  apply ensure_spec; [done|]. intros Hne. unfold st_bind at 1, put_cancel.
  unfold st_bind at 1, st_get at 1.
  assert (Hsame : in_flight_effect (with_snapshot r (set_cancel s true)) = in_flight_effect r) by done.
  rewrite Hsame.
  destruct (in_flight_effect_spec r Hr) as [[E _]|(i & dcl & st & n & started & Hat & Hf & E)];
    rewrite (bind_lift_ok _ _ _ _ E); [by apply finish_cancelled_spec|].
  simpl. destruct (fs_effect dcl) eqn:He; [by apply finish_cancelled_spec|].
  unfold st_bind, put_status. apply changed_spec; [done|done| |done].
  apply (step_cancel_requested _ _ i dcl st n started); try done.
  rewrite (under_way_status i dcl st Hat) by (done || by rewrite Hf). by rewrite Hf.
Qed.

End operations.

(** ** Runs *)

(** The calls of the engine's public interface. *)
Inductive EngineCall : Type :=
| CallNext (now_ms : Z)
| CallApproval (token : ApprovalToken) (decision : ApprovalDecision)
| CallPrepare (effect : EffectAttempt) (now_ms : Z)
| CallDeny (effect : EffectAttempt)
| CallResult (effect : EffectAttempt) (result : EffectResult) (now_ms : Z)
| CallReconcile (effect : EffectAttempt) (reconciliation : ReconciliationResult) (now_ms : Z)
| CallCancel.

Definition engine_call (c : EngineCall) : M EngineUpdate :=
  match c with
  | CallNext now_ms => next_decision now_ms
  | CallApproval token decision => resolve_approval token decision
  | CallPrepare effect now_ms => prepare_effect effect now_ms
  | CallDeny effect => deny_effect_authorization effect
  | CallResult effect result now_ms => record_effect_result effect result now_ms
  | CallReconcile effect reconciliation now_ms => record_reconciliation effect reconciliation now_ms
  | CallCancel => cancel
  end.

(** The run after a list of calls, whatever each of them returned. *)
Fixpoint engine_calls (calls : list EngineCall) (r : FlowRun) : FlowRun :=
  match calls with
  | [] => r
  | c :: rest => engine_calls rest (engine_call c r).1
  end.

Lemma op_spec_weaken (P Q : FlowEngineError -> Prop) r out :
  (forall e, P e -> Q e) -> op_spec P r out -> op_spec Q r out.
Proof. intros HPQ. destruct out as [r' [u|e|]]; simpl; naive_solver. Qed.

Lemma engine_call_refines c r : run_inv r -> op_spec (fun _ => True) r (engine_call c r).
Proof.
  intros Hr. destruct c; simpl; (eapply op_spec_weaken; [done|]).
  - by apply next_decision_refines.
  - by apply resolve_approval_refines.
  - by apply prepare_effect_refines.
  - by apply deny_effect_authorization_refines.
  - by apply record_effect_result_refines.
  - by apply record_reconciliation_refines.
  - by apply cancel_refines.
Qed.

Lemma valid_attempts d : valid_definition d -> attempts_positive d.
Proof.
  intros Hd dcl Hin. destruct (vd_step _ Hd) as (m & _ & Hv & _). apply (vs_attempts _ _ (Hv dcl Hin)).
Qed.

Lemma published_inv d s s' t :
  valid_definition d -> snap_inv d s -> 0 <= sn_sequence s -> published s d s' t ->
  snap_inv d s' /\ 0 <= sn_sequence s' <= u64_max.
Proof.
  intros Hd Hinv H0 (X & Hstep & Hlt & -> & _). split; [|simpl; lia].
  by eapply sequence_inv, flow_step_inv, Hstep; [apply valid_attempts|].
Qed.

Lemma op_spec_inv errors r r' u : run_inv r -> op_spec errors r (r', u) -> run_inv r'.
Proof.
  intros Hr Hop. destruct u as [u|e|]; simpl in Hop; [|by destruct Hop as [-> _]|done].
  destruct Hop as (Hdef & _ & Hu), Hr as [Hd Hinv Hseq]. destruct (up_transition u).
  - destruct (published_inv _ _ _ _ Hd Hinv (proj1 Hseq) Hu). by split; rewrite ?Hdef.
  - by split; rewrite ?Hu, ?Hdef.
Qed.

Lemma engine_call_inv c r : run_inv r -> run_inv (engine_call c r).1.
Proof.
  intros Hr. pose proof (engine_call_refines c r Hr) as Hop. destruct (engine_call c r) as [r' u].
  by eapply op_spec_inv.
Qed.

Lemma engine_calls_inv calls r : run_inv r -> run_inv (engine_calls calls r).
Proof. revert r. induction calls; intros r Hr; simpl; [done|]. by apply IHcalls, engine_call_inv. Qed.

(** ** The first snapshot *)

Lemma initial_step_inv run_id digest dcl :
  1 <= max_attempts (fs_retry dcl) ->
  step_inv run_id digest false dcl (initial_step run_id digest dcl).
Proof.
  intros Hmax. split; try done; simpl.
  - lia.
  - by destruct (fs_approval dcl).
  - unfold token_mismatch. simpl. by destruct (fs_approval dcl).
  - unfold state_inv. simpl. split_and!; try done. by destruct (fs_approval dcl).
Qed.

Lemma initial_snap_inv d s :
  attempts_positive d -> sn_version s = FLOW_SNAPSHOT_VERSION ->
  validate_engine_identity "snapshot.run_id" (sn_run_id s) MAX_RUN_ID_BYTES = Ok tt ->
  normalized_digest d = Ok (sn_digest s) -> sn_status s = Running -> sn_cancel_requested s = false ->
  sn_steps s = initial_step (sn_run_id s) (sn_digest s) <$> fd_steps d -> snap_inv d s.
Proof.
  intros Hatt Hv Hrun Hdig Hst Hc Hsteps.
  assert (Hall : forall st, st ∈ sn_steps s -> exists dcl, dcl ∈ fd_steps d /\
            st = initial_step (sn_run_id s) (sn_digest s) dcl).
  { rewrite Hsteps. intros st (dcl & -> & Hin)%list_elem_of_fmap. eauto. }
  assert (Hp : forall st, st ∈ sn_steps s -> ss_state st = Pending /\
            match ss_approval st with NotRequired | NotRequested => True | _ => False end).
  { intros st Hin. destruct (Hall st Hin) as (dcl & _ & ->). simpl. by destruct (fs_approval dcl). }
  assert (Hna : forall st, st ∈ sn_steps s -> is_active st = false).
  { intros st Hin. destruct (Hp st Hin) as [E1 E2]. unfold is_active. rewrite E1.
    by destruct (ss_approval st). }
  split; try done; rewrite ?Hst, ?Hc; try done.
  - by rewrite Hsteps, length_fmap.
  - intros i dcl st [Hd Hi]. rewrite Hsteps, list_lookup_fmap, Hd in Hi. injection Hi as <-.
    apply initial_step_inv, Hatt. by eapply list_elem_of_lookup_2.
  - intros i j a b Ha _ Hact. apply list_elem_of_lookup_2 in Ha. by rewrite (Hna a Ha) in Hact.
  - assert (Hany : forall p, (forall b, is_active b = false -> ss_state b <> Blocked -> p b = false) ->
              existsb p (sn_steps s) = false).
    { intros p Hp'. apply existsb_all_false, Forall_forall. intros b Hb. apply Hp'; [by auto|].
      destruct (Hp b Hb) as [-> _]. done. }
    inactive_existsb Hany. rewrite Hc, Hst. by destruct (forallb _ _).
  - intros i dcl st [_ Hi] _ Hpast. apply list_elem_of_lookup_2 in Hi. destruct (Hp st Hi) as [E1 E2].
    destruct Hpast as [?|(t & [E|E])]; [done|by rewrite E in E2..].
  - intros st Hin E. destruct (Hp st Hin) as [E1 _]. congruence.
  - split; [|done]. intros (st & Hin & E). destruct (Hp st Hin) as [E1 _]. congruence.
  - intros i st Hi E. apply list_elem_of_lookup_2 in Hi. destruct (Hp st Hi) as [_ E2].
    by destruct (ss_approval st).
Qed.

Lemma start_inv run_id d r :
  typed_definition d -> start run_id d = Ok r -> run_inv r /\ fr_definition r = d.
Proof.
  intros Hty. unfold start, from_validation.
  destruct (definition_validate d) as [[]| |] eqn:Ev; try discriminate. simpl.
  destruct (validate_engine_identity "run_id" run_id MAX_RUN_ID_BYTES) as [[]| |] eqn:Ei; try discriminate.
  destruct (normalized_digest d) as [digest| |] eqn:Edig; try discriminate. simpl.
  intros [= <-]. pose proof (definition_validate_spec d Hty Ev) as Hd. split; [|done].
  split; simpl; [done| |unfold u64_max; lia].
  apply initial_snap_inv; try done; [by apply valid_attempts|]. simpl. by eapply engine_identity_path.
Qed.

End refine.
