(* ===== verification/FlowAccept.v ===== *)
(** * The validators accept the engine's snapshots

    A snapshot that satisfies the invariant passes [validate_snapshot] and
    [validate_standalone_snapshot]; a transition of [flow_step] passes
    [validate_snapshot_successor]. So whatever the engine publishes can be
    stored, and can be resumed after a crash. *)

From S2P Require Import Prelude FlowDef FlowGraph FlowValid FlowData FlowSnapshot FlowEngine.
From S2P Require Import FlowSpec FlowRefine.

Local Open Scope Z_scope.

Section accept.
Context `{Sha256}.

(** ** One step *)

(** A skipped step never waited for an approval. *)
Definition skip_ready (st : StepSnapshot) : Prop :=
  ss_state st = Skipped -> approval_ready (ss_approval st) = true.

Section step.
Context (run_id : RunId) (digest : FlowDigest) (cancel : bool) (dcl : FlowStep) (st : StepSnapshot).
Context (Hst : step_inv run_id digest cancel dcl st) (Hskip : skip_ready st).
Context (Hmax : max_attempts (fs_retry dcl) <= MAX_RETRY_ATTEMPTS).

Lemma shape_accepted : approval_shape_valid st = true.
Proof.
  pose proof (st_state _ _ _ _ _ Hst) as Hs. unfold state_inv in Hs. unfold approval_shape_valid.
  unfold skip_ready in Hskip.
  destruct (ss_approval st) as [| |t|t|t] eqn:Ea; try done; simpl in *;
    destruct (ss_state st); try naive_solver; simpl.
  - destruct Hs as (-> & -> & _). done.
  - destruct Hs as (-> & _ & [?|[_ ->]]); done.
  - destruct Hs as (-> & -> & _). done.
  - destruct Hs as ([rep ->] & _). done.
Qed.

Lemma history_of k l :
  take k (ss_results st) = take k l -> all_retryable l -> retry_history_valid st k = true.
Proof.
  intros E Hall. unfold retry_history_valid. rewrite E. apply forallb_true_elem.
  apply Forall_forall. by apply Forall_take.
Qed.

Lemma history_accepted :
  retry_history_valid st (structural_prefix st) = true /\
  retry_history_valid st (definition_prefix st) = true.
Proof.
  pose proof (st_state _ _ _ _ _ Hst) as Hs. unfold state_inv in Hs.
  unfold structural_prefix, definition_prefix.
  assert (Hsnoc : forall init record, ss_results st = init ++ [record] -> all_retryable init ->
            retry_history_valid st (length (ss_results st) - 1) = true).
  { intros init record E Hall. apply history_of with init; [|done]. rewrite E, length_app. simpl.
    rewrite take_app_le by lia. done. }
  destruct (ss_state st); split; try done; try (by eapply history_of; [done|apply Hs]).
  all: destruct Hs as (_ & _ & _ & init & record & Hs); by destruct_and?; naive_solver.
Qed.

Lemma count_accepted : u8_try_from (length (ss_results st)) SnapshotShapeMismatch
  = Ok (Z.of_nat (length (ss_results st))).
Proof.
  pose proof (st_count _ _ _ _ _ Hst) as Hc. unfold u8_try_from, u8_max, MAX_RETRY_ATTEMPTS in *.
  destruct (Z.leb_spec (Z.of_nat (length (ss_results st))) 255); [done|lia].
Qed.

(** The attempt after [n] retryable failures, as the validators test it. *)
Lemma next_attempt_accepted a max :
  a = Z.of_nat (length (ss_results st)) + 1 -> a <= max -> max <= MAX_RETRY_ATTEMPTS ->
  all_retryable (ss_results st) ->
  (a =? wrap8 (Z.of_nat (length (ss_results st)) + 1)) = true /\ (a <=? max) = true /\
  ((a =? 1) || previous_retryable_failure st) = true /\
  (ss_results st <> [] -> previous_retryable_failure st = true).
Proof.
  intros Ha Hle Hmx Hall. unfold MAX_RETRY_ATTEMPTS in *.
  assert (Hprev : ss_results st <> [] -> previous_retryable_failure st = true).
  { intros Hne. unfold previous_retryable_failure. destruct (last (ss_results st)) as [record|] eqn:E.
    - apply last_Some in E as [l E]. rewrite E in Hall. apply Forall_app in Hall as [_ Hall].
      by apply Forall_cons_1 in Hall as [? _].
    - by apply last_None in E. }
  split_and!; [|lia| |done].
  - unfold wrap8. rewrite Z.mod_small by lia. lia.
  - destruct (ss_results st) eqn:E; [simpl in Ha; by rewrite Ha|]. rewrite Hprev by done.
    by rewrite orb_true_r.
Qed.

Lemma structural_accepted :
  structural_shape_valid st (Z.of_nat (length (ss_results st))) = true.
Proof.
  pose proof (st_state _ _ _ _ _ Hst) as Hs. unfold state_inv in Hs.
  unfold structural_shape_valid, no_blocked_report, last_kind_is.
  destruct (ss_state st) as [|a|a started|a nb|a| |a| |] eqn:Es; simpl.
  - destruct Hs as (-> & -> & _). done.
  - destruct Hs as (Ha & Hle & Hall & -> & _).
    destruct (next_attempt_accepted a MAX_RETRY_ATTEMPTS) as (-> & -> & -> & _); [done|lia|done..].
  - destruct Hs as (Ha & Hle & Hall & -> & _).
    destruct (next_attempt_accepted a MAX_RETRY_ATTEMPTS) as (-> & -> & -> & _); [done|lia|done..].
  - destruct Hs as (Hne & Ha & Hle & Hall & -> & _).
    destruct (next_attempt_accepted a MAX_RETRY_ATTEMPTS) as (-> & -> & _ & Hp); [done|lia|done..|].
    by rewrite Hp.
  - destruct Hs as (-> & _ & -> & init & record & -> & _ & Hk). rewrite last_snoc, Hk.
    by rewrite Z.eqb_refl.
  - destruct Hs as (-> & -> & _). done.
  - destruct Hs as (-> & _ & -> & init & record & retryable & -> & _ & Hk & _).
    rewrite last_snoc, Hk. by rewrite Z.eqb_refl.
  - by destruct Hs as ([rep ->] & _).
  - by destruct Hs as (-> & _).
Qed.

Lemma step_shape_accepted :
  step_shape_valid st (max_attempts (fs_retry dcl)) cancel (Z.of_nat (length (ss_results st))) = true.
Proof.
  pose proof (st_state _ _ _ _ _ Hst) as Hs. unfold state_inv in Hs.
  unfold step_shape_valid, no_blocked_report, last_kind_is.
  destruct (ss_state st) as [|a|a started|a nb|a| |a| |] eqn:Es; simpl.
  - destruct Hs as (-> & -> & _). done.
  - destruct Hs as (Ha & Hle & Hall & _).
    by destruct (next_attempt_accepted a (max_attempts (fs_retry dcl))) as (-> & -> & -> & _).
  - destruct Hs as (Ha & Hle & Hall & _).
    by destruct (next_attempt_accepted a (max_attempts (fs_retry dcl))) as (-> & -> & -> & _).
  - destruct Hs as (Hne & Ha & Hle & Hall & _).
    destruct (next_attempt_accepted a (max_attempts (fs_retry dcl))) as (-> & -> & _ & Hp); [done..|].
    by rewrite Hp.
  - destruct Hs as (_ & _ & -> & init & record & -> & _ & Hk). rewrite last_snoc, Hk.
    by rewrite Z.eqb_refl.
  - destruct Hs as (-> & -> & _). done.
  - destruct Hs as (_ & _ & Ha & init & record & retryable & E & _ & Hk & Hx).
    rewrite E at 2. rewrite last_snoc, Hk, Ha, Z.eqb_refl. simpl.
    destruct retryable; [|done]. destruct (Hx eq_refl) as [->|Hm]; [done|].
    rewrite Hm, Z.eqb_refl. by rewrite orb_true_r.
  - by destruct Hs as ([rep ->] & _).
  - by destruct Hs as (-> & _).
Qed.

Lemma enumerate_lookup {A} n (l : list A) k x :
  (k, x) ∈ enumerate_from n l -> exists j, k = (n + j)%nat /\ l !! j = Some x.
Proof.
  revert n. induction l as [|y l IH]; intros n Hin; simpl in Hin; [by apply not_elem_of_nil in Hin|].
  apply elem_of_cons in Hin as [[= -> ->]|Hin]; [exists 0%nat; split; [lia|done]|].
  destruct (IH (S n) Hin) as (j & -> & Hj). exists (S j). split; [lia|done].
Qed.

Lemma results_accepted index : validate_results index st = Ok tt.
Proof.
  unfold validate_results. apply iter_res_Ok. intros [k record] Hin.
  apply enumerate_lookup in Hin as (j & -> & Hj). simpl.
  destruct (st_numbered _ _ _ _ _ Hst j record Hj) as [-> Hok]. rewrite Z.eqb_refl. simpl.
  by eapply report_path.
Qed.

Lemma blocked_report_accepted index : validate_blocked_report index st = Ok tt.
Proof.
  unfold validate_blocked_report. destruct (ss_blocked_report st) eqn:E; [|done].
  by eapply report_path, (st_blocked _ _ _ _ _ Hst).
Qed.

End step.

(** ** A whole snapshot *)

Definition active_count (l : list StepSnapshot) : nat := length (List.filter is_active l).

Lemma active_count_bound d s : snap_inv d s -> (active_count (sn_steps s) <= 1)%nat.
Proof.
  intros Hinv. pose proof (iv_active _ _ Hinv) as Hu. unfold active_count. revert Hu.
  generalize (sn_steps s). induction l as [|x l IH]; intros Hu; simpl; [lia|].
  assert (Htail : forall i j a b, l !! i = Some a -> l !! j = Some b ->
            is_active a = true -> is_active b = true -> i = j).
  { intros i j a b Ha Hb Hxa Hxb. specialize (Hu (S i) (S j) a b Ha Hb Hxa Hxb). lia. }
  specialize (IH Htail). destruct (is_active x) eqn:Ex; [|done]. simpl.
  destruct (List.filter is_active l) as [|y l'] eqn:Ef; [simpl; lia|]. exfalso.
  assert (Hy : List.In y l /\ is_active y = true) by (apply filter_In; rewrite Ef; by left).
  destruct Hy as [Hin Hy]. apply list_elem_of_In, list_elem_of_lookup in Hin as [k Hk].
  specialize (Hu 0%nat (S k) x y eq_refl Hk Ex Hy). lia.
Qed.

Section snapshot.
Context (d : FlowDefinition) (s : FlowSnapshot).
Context (Hd : valid_definition d) (Hinv : snap_inv d s).
Context (Hskip : forall st, st ∈ sn_steps s -> skip_ready st).

Lemma declared_max dcl : dcl ∈ fd_steps d -> max_attempts (fs_retry dcl) <= MAX_RETRY_ATTEMPTS.
Proof. intros Hin. destruct (vd_step _ Hd) as (m & _ & Hv & _). apply (vs_attempts _ _ (Hv dcl Hin)). Qed.

Lemma status_accepted active :
  active = active_count (sn_steps s) -> validate_status s active = Ok tt.
Proof.
  intros ->. unfold validate_status. pose proof (active_count_bound d s Hinv) as Hb.
  destruct (Nat.ltb_spec 1 (active_count (sn_steps s))); [lia|].
  rewrite bool_decide_true by apply (iv_status _ _ Hinv). simpl.
  case_bool_decide as Hc; [|done]. destruct (iv_final _ _ Hinv Hc) as [_ Hterm].
  by rewrite (proj2 (forallb_true_elem _ _) Hterm).
Qed.

Lemma standalone_step_accepted i dcl st ids active :
  at_index d s i dcl st -> ss_id st ∉ ids ->
  standalone_step (i, st) (ids, active) =
    Ok ({[ss_id st]} ∪ ids, if is_active st then S active else active).
Proof.
  intros Hat Hfresh. pose proof (iv_steps _ _ Hinv i dcl st Hat) as Hst.
  pose proof Hat as [Hdi Hi]. apply list_elem_of_lookup_2 in Hdi, Hi.
  pose proof (declared_max dcl Hdi) as Hmax. specialize (Hskip st Hi).
  unfold standalone_step. rewrite (st_id _ _ _ _ _ Hst), (vd_slug _ Hd dcl _ Hdi). simpl.
  rewrite (st_id _ _ _ _ _ Hst) in Hfresh. rewrite bool_decide_false by done. simpl.
  pose proof (st_count _ _ _ _ _ Hst) as Hcount.
  destruct (_ >? MAX_RETRY_ATTEMPTS) eqn:E; [lia|]. clear E.
  rewrite (shape_accepted _ _ _ _ _ Hst Hskip), (st_token _ _ _ _ _ Hst). simpl.
  rewrite (results_accepted _ _ _ _ _ Hst), (blocked_report_accepted _ _ _ _ _ Hst).
  unfold validate_structural_step_state.
  rewrite (count_accepted _ _ _ _ _ Hst Hmax), (structural_accepted _ _ _ _ _ Hst Hmax),
    (proj1 (history_accepted _ _ _ _ _ Hst)). done.
Qed.

Lemma standalone_loop l n ids active :
  drop n (sn_steps s) = l -> NoDup (ss_id <$> l) -> (forall st, st ∈ l -> ss_id st ∉ ids) ->
  exists ids', fold_res standalone_step (enumerate_from n l) (ids, active)
    = Ok (ids', (active + active_count l)%nat).
Proof.
  revert n ids active. induction l as [|st l IH]; intros n ids active Hdrop Hnd Hfresh;
    cbn [fold_res enumerate_from].
  - exists ids. unfold active_count. simpl. by rewrite Nat.add_0_r.
  - assert (Hn : sn_steps s !! n = Some st).
    { rewrite <-(Nat.add_0_r n), <-lookup_drop, Hdrop. done. }
    destruct (declared_at d s Hinv n st Hn) as [dcl Hat].
    rewrite (standalone_step_accepted n dcl st ids active Hat) by (apply Hfresh; set_solver).
    apply NoDup_cons in Hnd as [Hx Hnd].
    destruct (IH (S n) ({[ss_id st]} ∪ ids) (if is_active st then S active else active))
      as [ids' ->].
    + rewrite (drop_S _ _ _ Hn) in Hdrop. by injection Hdrop.
    + done.
    + intros st' Hin. assert (ss_id st' ≠ ss_id st).
      { intros E. apply Hx. rewrite <-E. by apply list_elem_of_fmap_2. }
      specialize (Hfresh st'). set_solver.
    + exists ids'. unfold active_count. simpl. destruct (is_active st); simpl; f_equal; f_equal; lia.
Qed.

Lemma standalone_accepted : validate_standalone_snapshot s = Ok tt.
Proof.
  unfold validate_standalone_snapshot. rewrite (iv_version _ _ Hinv), (iv_run_id _ _ Hinv). simpl.
  pose proof (iv_length _ _ Hinv) as Hlen. pose proof (vd_steps _ Hd) as [Hpos Hmax].
  rewrite bool_decide_false by (intros E; rewrite E in Hlen; simpl in Hlen; lia). simpl.
  destruct (_ >? MAX_FLOW_STEPS) eqn:E; [lia|].
  destruct (standalone_loop (sn_steps s) 0 ∅ 0) as [ids' Hloop];
    [done|by eapply snap_ids_nodup|set_solver|].
  unfold enumerate. rewrite Hloop. by apply status_accepted.
Qed.

(** The loop over the steps and their declarations. *)
Lemma fold_count {A} (f : nat * A -> nat -> eres nat) (act : A -> bool) n l active :
  (forall k x a, (k, x) ∈ enumerate_from n l -> f (k, x) a = Ok (if act x then S a else a)) ->
  fold_res f (enumerate_from n l) active = Ok (active + length (List.filter act l))%nat.
Proof.
  revert n active. induction l as [|x l IH]; intros n active Hf; cbn [fold_res enumerate_from].
  - simpl. by rewrite Nat.add_0_r.
  - rewrite Hf by (simpl; set_solver). rewrite IH by (intros; apply Hf; simpl; set_solver).
    simpl. destruct (act x); simpl; f_equal; lia.
Qed.

Lemma combine_lookup {A B} (l : list A) (m : list B) k x y :
  combine l m !! k = Some (x, y) -> l !! k = Some x /\ m !! k = Some y.
Proof.
  revert m k. induction l as [|a l IH]; intros [|b m] [|k]; simpl; try done; [naive_solver|].
  apply IH.
Qed.

Lemma combine_filter {A B} (p : A -> bool) (l : list A) (m : list B) :
  length l = length m ->
  length (List.filter (fun xy => p xy.1) (combine l m)) = length (List.filter p l).
Proof.
  revert m. induction l as [|a l IH]; intros [|b m] Hlen; simpl in *; try done.
  destruct (p a); simpl; rewrite IH by lia; done.
Qed.

Lemma snapshot_step_accepted i dcl st active :
  at_index d s i dcl st ->
  snapshot_step s (i, (st, dcl)) active = Ok (if is_active st then S active else active).
Proof.
  intros Hat. pose proof (iv_steps _ _ Hinv i dcl st Hat) as Hst.
  pose proof Hat as [Hdi Hi]. apply list_elem_of_lookup_2 in Hdi, Hi.
  pose proof (declared_max dcl Hdi) as Hmax. specialize (Hskip st Hi).
  unfold snapshot_step.
  rewrite (st_id _ _ _ _ _ Hst), (st_role _ _ _ _ _ Hst), (st_identity _ _ _ _ _ Hst),
    !String.eqb_refl, bool_decide_true by done. simpl.
  pose proof (st_count _ _ _ _ _ Hst) as Hcount.
  destruct (_ >? max_attempts _) eqn:E; [lia|]. clear E.
  rewrite (st_mode _ _ _ _ _ Hst), (shape_accepted _ _ _ _ _ Hst Hskip), (st_token _ _ _ _ _ Hst). simpl.
  rewrite (results_accepted _ _ _ _ _ Hst), (blocked_report_accepted _ _ _ _ _ Hst).
  unfold validate_step_state.
  rewrite (count_accepted _ _ _ _ _ Hst Hmax), (step_shape_accepted _ _ _ _ _ Hst Hmax),
    (proj2 (history_accepted _ _ _ _ _ Hst)). done.
Qed.

Lemma all_res_true {E A} (f : A -> res E bool) l :
  (forall x, x ∈ l -> f x = Ok true) -> all_res f l = Ok true.
Proof.
  induction l as [|x l IH]; intros Hf; simpl; [done|]. rewrite Hf by set_solver. apply IH. set_solver.
Qed.

Lemma graph_step_accepted i dcl st :
  at_index d s i dcl st -> snapshot_graph_step d s (i, (st, dcl)) = Ok tt.
Proof.
  intros Hat. pose proof Hat as [_ Hi]. apply list_elem_of_lookup_2 in Hi.
  unfold snapshot_graph_step. destruct (is_cancelled (ss_state st)) eqn:Ec.
  - assert (E : ss_state st = Cancelled) by by destruct (ss_state st).
    by rewrite (proj1 (iv_final _ _ Hinv (iv_cancelled _ _ Hinv st Hi E))).
  - destruct (is_pending (ss_state st) && _) eqn:Ep; [done|].
    destruct (iv_graph _ _ Hinv i dcl st Hat) as [Hrefs Hcond].
    { intros E. by rewrite E in Ec. }
    { unfold past_scheduling. destruct (ss_state st) eqn:Es; try (by left). right.
      destruct (ss_approval st); simpl in Ep; try done; eauto. }
    rewrite all_res_true; [rewrite Hcond|].
    + by destruct (is_skipped (ss_state st)).
    + intros reference Href. destruct (Hrefs reference Href) as (j & t & Hj & Ht & Hterm).
      unfold snapshot_state_by_id. rewrite Hj, Ht. simpl. by rewrite Hterm.
Qed.

Lemma snapshot_accepted :
  sn_sequence s <> u64_max \/ status_is_terminal (sn_status s) = true ->
  validate_snapshot d s = Ok tt.
Proof.
  intros Hseq. unfold validate_snapshot. rewrite (iv_version _ _ Hinv), (iv_run_id _ _ Hinv). simpl.
  assert (E : (sn_sequence s =? u64_max) && negb (status_is_terminal (sn_status s)) = false).
  { destruct Hseq as [Hne| ->]; [by rewrite (proj2 (Z.eqb_neq _ _) Hne)|by rewrite andb_false_r]. }
  rewrite E. pose proof (iv_length _ _ Hinv) as Hlen. rewrite (proj2 (Nat.eqb_eq _ _) Hlen). simpl.
  assert (Hpair : forall k x, (k, x) ∈ enumerate (combine (sn_steps s) (fd_steps d)) ->
            at_index d s k x.2 x.1).
  { intros k [st dcl] Hin. apply enumerate_lookup in Hin as (j & -> & Hj).
    apply combine_lookup in Hj as [? ?]. done. }
  unfold enumerate in *.
  rewrite (fold_count _ (fun xy => is_active xy.1))
    by (intros k [st dcl] a Hin; apply snapshot_step_accepted; exact (Hpair k (st, dcl) Hin)).
  rewrite combine_filter by done.
  rewrite status_accepted by done. apply iter_res_Ok. intros [k [st dcl]] Hin.
  apply graph_step_accepted. exact (Hpair k (st, dcl) Hin).
Qed.

End snapshot.

(** ** Successors *)

Lemma transition_step_at s i st id :
  NoDup (ss_id <$> sn_steps s) -> sn_steps s !! i = Some st -> ss_id st = id ->
  transition_step s id = Ok i.
Proof.
  intros Hnd Hi <-. unfold transition_step.
  destruct (position_first (fun x => String.eqb (ss_id x) (ss_id st)) _ i st Hi (String.eqb_refl _))
    as (k & _ & E).
  rewrite E. simpl. apply position_Some in E as (t & Ht & Hid). apply String.eqb_eq in Hid.
  f_equal. apply (NoDup_lookup (ss_id <$> sn_steps s) k i (ss_id st) Hnd);
    [by rewrite list_lookup_fmap, Ht, <-Hid|by rewrite list_lookup_fmap, Hi].
Qed.

Ltac unfold_expected :=
  unfold expected_successor, expected_skipped, expected_requested, expected_granted, expected_denied,
    expected_evaluation, expected_unauthorized, expected_started, expected_succeeded, expected_retry,
    expected_exhausted, expected_failed, expected_not_applied, expected_unknown, expected_cancelling,
    expected_completed, has_status, previous_step; simpl.

Section successor.
Context (d : FlowDefinition) (s : FlowSnapshot).
Context (Hd : valid_definition d) (Hinv : snap_inv d s).
Abbreviation ids_nodup := (snap_ids_nodup d s Hd Hinv).

Lemma origin_accepted i dcl st attempt started :
  at_index d s i dcl st -> in_flight_or_cancelling (sn_status s) = true ->
  ss_state st = InFlight attempt started -> result_transition_origin s (ss_id st) attempt = Ok i.
Proof.
  intros [_ Hi] Hs Hf. unfold result_transition_origin.
  rewrite Hs, (transition_step_at s i st) by (done || apply ids_nodup). simpl.
  rewrite Hi. simpl. rewrite Hf. simpl. by rewrite Z.eqb_refl.
Qed.

Lemma candidate_accepted X i st record v n w :
  X = set_sequence (set_status (with_step s i (set_state (push_result st record) v)) w) n ->
  sn_steps s !! i = Some st -> candidate_result X i (rec_attempt record) = Ok record.
Proof.
  intros -> Hi. unfold candidate_result. simpl.
  rewrite list_lookup_insert_eq by by eapply lookup_lt_Some. simpl.
  by rewrite last_snoc, Z.eqb_refl.
Qed.

Lemma step_max i dcl st : at_index d s i dcl st -> max_attempts (fs_retry dcl) <= MAX_RETRY_ATTEMPTS.
Proof. intros [Hi _]. eapply declared_max; [done|]. by eapply list_elem_of_lookup_2. Qed.

Lemma completed_accepted outcome n :
  sn_cancel_requested s = false -> sn_status s = Running ->
  (forall st, st ∈ sn_steps s -> is_terminal (ss_state st) = true) ->
  outcome = (if existsb (fun st => is_failed (ss_state st)) (sn_steps s)
             then OutUnresolved else OutSolved) ->
  expected_successor s (set_sequence (set_status s (match outcome with
      OutUnresolved => UnresolvedStatus | _ => SucceededStatus end)) n)
    (set_sequence s n) (RunCompleted outcome)
  = Ok (set_sequence (set_status s (match outcome with
      OutUnresolved => UnresolvedStatus | _ => SucceededStatus end)) n).
Proof.
  intros Hc Hs Hall ->. unfold_expected.
  assert (Hlive : status_is_terminal (sn_status s) = false) by by rewrite Hs.
  assert (Hno : forall p, (forall v, v <> Blocked -> v <> Cancelled -> p v = false) ->
            existsb (fun st => p (ss_state st)) (sn_steps s) = false).
  { intros p Hp. apply existsb_all_false, Forall_forall. intros st Hin.
    apply Hp; [by eapply live_not_blocked|by eapply live_not_cancelled]. }
  rewrite Hc, Hs, (proj2 (forallb_true_elem _ _) Hall). simpl.
  destruct (existsb (fun st => is_failed (ss_state st)) (sn_steps s)) eqn:Ef; simpl.
  - rewrite (Hno (fun v => is_blocked v || is_cancelled v)) by by intros [].
    done.
  - assert (E : existsb (fun st => is_failed (ss_state st) || is_blocked (ss_state st)
                                 || is_cancelled (ss_state st)) (sn_steps s) = false).
    { apply existsb_all_false, Forall_forall. intros st Hin.
      pose proof (existsb_false_elem _ _ Ef st Hin) as Hnf. simpl in Hnf. rewrite Hnf. simpl.
      pose proof (live_not_blocked d s Hinv st Hlive Hin).
      pose proof (live_not_cancelled d s Hinv st Hlive Hin). by destruct (ss_state st). }
    by rewrite E.
Qed.

(** A retry names the next attempt: the check goes back to the one that failed. *)
Lemma retry_accepted i dcl st attempt started result nb n :
  at_index d s i dcl st -> sn_cancel_requested s = false -> sn_status s = EffectInFlight ->
  ss_state st = InFlight attempt started -> kind result = KindFailed true ->
  attempt < max_attempts (fs_retry dcl) ->
  let st' := set_state (push_result st {| rec_attempt := attempt; rec_result := result |})
               (WaitingRetry (attempt + 1) nb) in
  let X := set_sequence (set_status (with_step s i st') WaitingRetryStatus) n in
  expected_retry s X (set_sequence s n) (ss_id st) (attempt + 1) nb = Ok X.
Proof.
  intros Hat Hc Hs Hw Hk Hlt st' X. pose proof Hat as [_ Hi].
  pose proof (step_max i dcl st Hat) as Hm.
  destruct (live_state _ _ Hinv _ _ _ Hat _ Hw) as (Hn & _). simpl in Hn.
  unfold expected_retry, checked_sub8. rewrite Hc. simpl.
  destruct (Z.leb_spec 1 (attempt + 1)); [|lia]. simpl. rewrite Z.add_simpl_r.
  rewrite (origin_accepted i dcl st attempt started Hat) by (done || by rewrite Hs).
  unfold previous_step. rewrite Hi. simpl.
  erewrite (candidate_accepted _ i st {| rec_attempt := attempt; rec_result := result |}) by done.
  simpl. rewrite Hk. simpl. destruct (Z.leb_spec (attempt + 1) MAX_RETRY_ATTEMPTS); [done|lia].
Qed.

Lemma expected_accepted k X n :
  flow_step d s k X -> (forall st, st ∈ sn_steps X -> skip_ready st) ->
  expected_successor s (set_sequence X n) (set_sequence s n) k = Ok (set_sequence X n).
Proof.
  intros Hstep Hskip. destruct Hstep as
    [i dcl st Hat Hc Hs Hp Hr Hcond|i dcl st Hat Hc Hs Hp Ha Hr Hcond Hf|i dcl st token Hat Hc Hs Ha
    |i dcl st token Hat Hc Hs Ha|i dcl st Hat Hc Hs Hp Ha Hr Hcond|i dcl st attempt nb Hat Hc Hs Hw
    |i dcl st attempt replay Hat Hc Hor|i dcl st attempt now Hat Hc Hs Hw
    |i dcl st attempt started Hat Hc Hs Hw He|i dcl st attempt started result Hat Hs Hw Hok Hk
    |i dcl st attempt started result nb Hat Hc Hs Hw Hok Hk Hlt
    |i dcl st attempt started result Hat Hc Hs Hw Hok Hk Hmax
    |i dcl st attempt started result retryable Hat Hs Hw Hok Hk Hor
    |i dcl st attempt started Hat Hc Hs Hw He|i dcl st attempt started rep Hat Hs Hw He Hrep
    |i dcl st attempt started Hat Hc Hs Hw He|outcome Hc Hs Hall Hout|Hlive];
    try pose proof Hat as [Hdi Hi]; try pose proof (lookup_lt_Some _ _ _ Hi) as Hlt';
    unfold_expected;
    rewrite ?(transition_step_at s i st (ss_id st) ids_nodup Hi eq_refl),
      ?(origin_accepted i dcl st attempt started Hat) by first [done|by rewrite Hs];
    rewrite ?Hc; try rewrite Hs; simpl; rewrite ?Hi; simpl.
  - rewrite Hp. assert (Hready : skip_ready (set_state st Skipped)).
    { apply Hskip. simpl. apply list_elem_of_lookup. exists i. by rewrite list_lookup_insert_eq. }
    specialize (Hready eq_refl). simpl in Hready. by rewrite Hready.
  - by rewrite Hp, Ha.
  - by rewrite Ha.
  - by rewrite Ha.
  - by rewrite Hp, Ha.
  - by rewrite Hw, Z.eqb_refl.
  - by destruct replay; destruct_and?; repeat (match goal with E : _ = true |- _ => rewrite E
      | E : sn_status s = _ |- _ => rewrite E end).
  - rewrite Hw. simpl. rewrite Z.eqb_refl. simpl. rewrite list_lookup_insert_eq by done. simpl.
    by rewrite Z.eqb_refl.
  - rewrite Hw. simpl. by rewrite Z.eqb_refl.
  - erewrite (candidate_accepted _ i st {| rec_attempt := attempt; rec_result := result |}) by done.
    simpl. by rewrite Hk.
  - pose proof (retry_accepted i dcl st attempt started result nb n Hat Hc Hs Hw Hk Hlt) as E.
    revert E. unfold_expected. by rewrite Hc.
  - erewrite (candidate_accepted _ i st {| rec_attempt := attempt; rec_result := result |}) by done.
    simpl. by rewrite Hk.
  - erewrite (candidate_accepted _ i st {| rec_attempt := attempt; rec_result := result |}) by done.
    simpl. by rewrite Hk, Hor.
  - rewrite Hw. simpl. by rewrite Z.eqb_refl.
  - rewrite Hw. simpl. rewrite Z.eqb_refl. simpl. by rewrite list_lookup_insert_eq.
  - rewrite (proj2 (existsb_true_elem _ _)); [done|]. exists st. rewrite Hw.
    split; [by eapply list_elem_of_lookup_2|done].
  - pose proof (completed_accepted outcome n Hc Hs Hall Hout) as E. revert E. unfold_expected.
    by rewrite Hc, Hs.
  - by rewrite Hlive.
Qed.

Lemma identity_accepted k X n :
  flow_step d s k X -> snap_inv d X -> validate_successor_identity s (set_sequence X n) = Ok tt.
Proof.
  intros Hstep HX. pose proof (flow_step_frame _ _ _ _ Hstep) as (_ & Hrun & Hdig & Hver & _).
  unfold validate_successor_identity. simpl. rewrite Hrun, Hdig, Hver, Z.eqb_refl, !String.eqb_refl.
  rewrite (iv_length _ _ Hinv), (iv_length _ _ HX), Nat.eqb_refl. simpl.
  destruct (existsb _ _) eqn:E; [|done]. apply existsb_true_elem in E as ([a b] & Hin & E).
  apply list_elem_of_lookup in Hin as [i Hi]. apply combine_lookup in Hi as [Ha Hb].
  destruct (declared_at d s Hinv i a Ha) as [dcl Hat].
  pose proof (iv_steps _ _ Hinv i dcl a Hat) as Sa.
  pose proof (iv_steps _ _ HX i dcl b (conj (proj1 Hat) Hb)) as Sb.
  rewrite (st_id _ _ _ _ _ Sa), (st_id _ _ _ _ _ Sb), (st_identity _ _ _ _ _ Sa),
    (st_identity _ _ _ _ _ Sb), (st_role _ _ _ _ _ Sa), (st_role _ _ _ _ _ Sb), Hrun, Hdig,
    !String.eqb_refl, bool_decide_true in E by done. done.
Qed.

(** What the engine publishes, the store accepts. *)
Lemma successor_accepted s' t :
  published s d s' t -> 0 <= sn_sequence s ->
  (forall st, st ∈ sn_steps s -> skip_ready st) -> (forall st, st ∈ sn_steps s' -> skip_ready st) ->
  validate_snapshot_successor (Some s) s' (Some t) = Ok tt.
Proof.
  intros Hpub H0 Hsk Hsk'. destruct (published_inv _ _ _ _ Hd Hinv H0 Hpub) as [Hinv' _].
  destruct Hpub as (X & Hstep & Hlt & -> & Hseq & Hev).
  assert (HX : snap_inv d X) by (by eapply flow_step_inv, Hstep; [apply valid_attempts|]).
  unfold validate_snapshot_successor.
  rewrite (standalone_accepted d _ Hd Hinv' Hsk'), (standalone_accepted d s Hd Hinv Hsk).
  rewrite (identity_accepted _ _ _ Hstep HX). unfold checked_add64.
  destruct (Z.leb_spec (sn_sequence s + 1) u64_max); [|lia]. simpl.
  rewrite Hseq, Z.eqb_refl. simpl. unfold validate_transition_successor.
  rewrite Hseq, (expected_accepted _ _ _ Hstep Hsk'), Hev. simpl.
  by rewrite !bool_decide_true.
Qed.

End successor.

(** ** Which definitions never skip a step that waits for approval *)

(** A step that requires approval runs unconditionally. *)
Definition unconditional_approvals (d : FlowDefinition) : Prop :=
  forall dcl, dcl ∈ fd_steps d -> fs_approval dcl = ModeRequired -> fs_condition dcl = Always.

Lemma skips_ready d s :
  unconditional_approvals d -> snap_inv d s -> forall st, st ∈ sn_steps s -> skip_ready st.
Proof.
  intros Hu Hinv st [i Hi]%list_elem_of_lookup Hs.
  destruct (declared_at d s Hinv i st Hi) as [dcl Hat].
  destruct (iv_graph _ _ Hinv i dcl st Hat) as [_ Hcond]; [by rewrite Hs|left; by rewrite Hs|].
  rewrite Hs in Hcond. simpl in Hcond.
  pose proof (st_mode _ _ _ _ _ (iv_steps _ _ Hinv i dcl st Hat)) as Hm.
  destruct (fs_approval dcl) eqn:Ea; [by destruct (ss_approval st)|].
  rewrite (Hu dcl) in Hcond; [done|eapply list_elem_of_lookup_2, Hat|done].
Qed.

End accept.
