(* ===== verification/FlowTrace.v ===== *)
(** * Runs of the engine

    A run is any sequence of engine calls, with any arguments and results,
    interrupted by any number of restarts that resume the stored snapshot. The
    theorems here hold of every such run of a validated definition. *)

From S2P Require Import Prelude FlowDef FlowGraph FlowValid FlowData FlowSnapshot FlowEngine.
From S2P Require Import FlowSamples FlowSpec FlowRefine FlowAccept.

Local Open Scope Z_scope.

Section trace.
Context `{Sha256}.

Definition transition_of (out : eres EngineUpdate) : list TransitionKind :=
  match out with
  | Ok u => match up_transition u with Some t => [tr_kind t] | None => [] end
  | _ => []
  end.

(** [run_trace r ks r']: calls and restarts lead from [r] to [r'], and the
    transitions they made are [ks]. *)
Inductive run_trace (r : FlowRun) : list TransitionKind -> FlowRun -> Prop :=
| trace_start : run_trace r [] r
| trace_call ks r1 c r2 out :
    run_trace r ks r1 -> engine_call c r1 = (r2, out) -> run_trace r (ks ++ transition_of out) r2
| trace_restart ks r1 r2 :
    run_trace r ks r1 ->
    resume (sn_run_id (fr_snapshot r1)) (fr_definition r1) (fr_snapshot r1) = Ok r2 ->
    run_trace r ks r2.

(** The transitions as a path of the state machine, up to sequence numbers. *)
Inductive flow_path (d : FlowDefinition) (s : FlowSnapshot) : list TransitionKind -> FlowSnapshot -> Prop :=
| path_nil : flow_path d s [] s
| path_snoc ks s1 k s2 n :
    flow_path d s ks s1 -> snap_inv d s1 -> flow_step d s1 k s2 ->
    flow_path d s (ks ++ [k]) (set_sequence s2 n).

Lemma resume_current r r' :
  run_inv r -> resume (sn_run_id (fr_snapshot r)) (fr_definition r) (fr_snapshot r) = Ok r' ->
  r' = with_issued r None.
Proof.
  intros [Hd Hinv Hseq]. unfold resume, from_validation.
  destruct (definition_validate _) as [[]| |]; try discriminate. simpl.
  rewrite String.eqb_refl. simpl. rewrite (iv_digest _ _ Hinv). simpl. rewrite String.eqb_refl. simpl.
  rewrite (iv_version _ _ Hinv). simpl. destruct (validate_snapshot _ _) as [[]| |]; try discriminate.
  by intros [= <-].
Qed.

Lemma run_trace_inv r ks r' : run_inv r -> run_trace r ks r' ->
  run_inv r' /\ fr_definition r' = fr_definition r
  /\ flow_path (fr_definition r) (fr_snapshot r) ks (fr_snapshot r').
Proof.
  intros Hr. induction 1 as [|ks r1 c r2 out Htr (Hr1 & Hdef & IH) Hcall|ks r1 r2 Htr (Hr1 & Hdef & IH) Hres].
  - split_and!; [done..|constructor].
  - pose proof (engine_call_refines c r1 Hr1) as Hop. rewrite Hcall in Hop.
    split; [by eapply op_spec_inv|]. destruct out as [u|e|]; simpl in Hop |- *; [|destruct Hop as [-> _]|done].
    + destruct Hop as (Hd2 & _ & Hu). split; [congruence|]. destruct (up_transition u) as [t|].
      * destruct Hu as (X & Hstep & _ & -> & _). rewrite Hdef in Hstep.
        econstructor; [done| |done]. rewrite <-Hdef. apply Hr1.
      * by rewrite app_nil_r, Hu.
    + by rewrite app_nil_r.
  - apply resume_current in Hres as ->; [|done]. split; [|done]. destruct Hr1. by split.
Qed.

(** A started run of a typed definition. *)
Lemma started_trace run_id d r0 ks r :
  typed_definition d -> start run_id d = Ok r0 -> run_trace r0 ks r ->
  run_inv r0 /\ run_inv r /\ fr_definition r0 = d /\ fr_definition r = d
  /\ flow_path d (fr_snapshot r0) ks (fr_snapshot r).
Proof.
  intros Hty Hs Htr. destruct (start_inv run_id d r0 Hty Hs) as [Hr0 Hdef].
  destruct (run_trace_inv r0 ks r Hr0 Htr) as (Hr & Hdef' & Hpath).
  rewrite Hdef in *. done.
Qed.

(** ** Paths *)

Lemma flow_path_ind_inv d s0 (P : list TransitionKind -> FlowSnapshot -> Prop) :
  P [] s0 ->
  (forall ks s k X n, P ks s -> snap_inv d s -> flow_step d s k X -> P (ks ++ [k]) (set_sequence X n)) ->
  forall ks s, flow_path d s0 ks s -> P ks s.
Proof. intros H0 Hstep ks s. induction 1; eauto. Qed.

(** A transition only leaves a live status. *)
Lemma flow_step_live d s k X : flow_step d s k X -> status_is_terminal (sn_status s) = false.
Proof.
  destruct 1; try done; try (by apply in_flight_live);
    try (by match goal with E : sn_status s = _ |- _ => rewrite E end).
  by destruct replay; destruct_and?; match goal with E : sn_status s = _ |- _ => rewrite E end.
Qed.

(** ** What a transition does to one step *)

Inductive step_move (dcl : FlowStep) (st : StepSnapshot) : TransitionKind -> StepSnapshot -> Prop :=
| move_skip :
    ss_state st = Pending -> step_move dcl st (StepSkipped (ss_id st)) (set_state st Skipped)
| move_request token :
    ss_state st = Pending -> ss_approval st = NotRequested ->
    step_move dcl st (ApprovalRequested (ss_id st)) (set_approval st (ApprovalPending token))
| move_grant token :
    ss_approval st = ApprovalPending token ->
    step_move dcl st (ApprovalGranted (ss_id st)) (set_approval st (Granted token))
| move_deny token :
    ss_approval st = ApprovalPending token ->
    step_move dcl st (ApprovalDenied (ss_id st)) (set_blocked_report
      (set_state (set_approval st (DeniedApproval token)) Blocked) (Some denied_report))
| move_evaluate :
    ss_state st = Pending -> approval_ready (ss_approval st) = true ->
    step_move dcl st (EffectEvaluationRequired (ss_id st) 1) (set_state st (AwaitingEffect 1))
| move_retry attempt not_before :
    ss_state st = WaitingRetry attempt not_before ->
    step_move dcl st (EffectEvaluationRequired (ss_id st) attempt) (set_state st (AwaitingEffect attempt))
| move_unauthorized attempt replay :
    under_way (ss_state st) = true ->
    step_move dcl st (EffectAuthorizationDenied (ss_id st) attempt replay)
      (set_blocked_report (set_state st Blocked) (Some unauthorized_report))
| move_started attempt now :
    ss_state st = AwaitingEffect attempt ->
    step_move dcl st (EffectStarted (ss_id st) attempt false) (set_state st (InFlight attempt now))
| move_replayed attempt started :
    ss_state st = InFlight attempt started -> fs_effect dcl = ReadOnly ->
    step_move dcl st (EffectStarted (ss_id st) attempt true) st
| move_succeeded attempt started result :
    ss_state st = InFlight attempt started ->
    step_move dcl st (EffectSucceeded (ss_id st) attempt)
      (set_state (push_result st {| rec_attempt := attempt; rec_result := result |}) (Succeeded attempt))
| move_retry_scheduled attempt started result not_before :
    ss_state st = InFlight attempt started -> attempt < max_attempts (fs_retry dcl) ->
    step_move dcl st (RetryScheduled (ss_id st) (attempt + 1) not_before)
      (set_state (push_result st {| rec_attempt := attempt; rec_result := result |})
         (WaitingRetry (attempt + 1) not_before))
| move_failed attempt started result k :
    ss_state st = InFlight attempt started ->
    k = RetryExhausted (ss_id st) attempt \/ k = EffectFailed (ss_id st) attempt ->
    step_move dcl st k
      (set_state (push_result st {| rec_attempt := attempt; rec_result := result |}) (Failed attempt))
| move_not_applied attempt started :
    ss_state st = InFlight attempt started ->
    step_move dcl st (ReconciledNotApplied (ss_id st) attempt) (set_state st (AwaitingEffect attempt))
| move_unknown attempt started rep :
    ss_state st = InFlight attempt started ->
    step_move dcl st (ReconciliationUnknown (ss_id st) attempt)
      (set_blocked_report (set_state st Blocked) (Some rep)).

(** The step a transition names. *)
Definition moved_id (k : TransitionKind) : option string :=
  match k with
  | StepSkipped id | ApprovalRequested id | ApprovalGranted id | ApprovalDenied id
  | EffectEvaluationRequired id _ | EffectAuthorizationDenied id _ _ | EffectStarted id _ _
  | EffectSucceeded id _ | RetryScheduled id _ _ | RetryExhausted id _ | EffectFailed id _
  | ReconciledNotApplied id _ | ReconciliationUnknown id _ => Some id
  | CancellationRequested | RunCompleted _ => None
  end.

(** A transition moves the step it names, cancels every step, or only changes
    the status of the run. *)
Lemma flow_step_moves d s k X :
  flow_step d s k X ->
  (exists i dcl st st', at_index d s i dcl st /\ sn_steps X = <[i := st']> (sn_steps s)
     /\ step_move dcl st k st')
  \/ (k = RunCompleted OutCancelled /\ sn_steps X = cancel_step <$> sn_steps s)
  \/ (moved_id k = None /\ sn_steps X = sn_steps s).
Proof.
  destruct 1 as
    [i dcl st Hat ? ? Hp|i dcl st Hat ? ? Hp Ha|i dcl st token Hat ? ? Ha|i dcl st token Hat ? ? Ha
    |i dcl st Hat ? ? Hp Ha|i dcl st attempt nb Hat ? ? Hw|i dcl st attempt replay Hat ? Hor
    |i dcl st attempt now Hat ? ? Hw|i dcl st attempt started Hat ? ? Hw He
    |i dcl st attempt started result Hat ? Hw|i dcl st attempt started result nb Hat ? ? Hw ? ? Hlt
    |i dcl st attempt started result Hat ? ? Hw|i dcl st attempt started result retryable Hat ? Hw
    |i dcl st attempt started Hat ? ? Hw|i dcl st attempt started rep Hat ? Hw
    |i dcl st attempt started Hat ? ? Hw|outcome|];
    try (by right; right); try (by right; left); left; exists i, dcl, st; eexists;
    (split; [done|split; [done|]]) || (split; [done|split; [by rewrite list_insert_id by apply Hat|]]).
  all: try (by econstructor); try (by eapply move_failed; eauto).
  - constructor. unfold under_way. destruct replay; destruct (ss_state st); naive_solver.
Qed.

Lemma step_move_id dcl st k st' :
  step_move dcl st k st' -> moved_id k = Some (ss_id st) /\ ss_id st' = ss_id st.
Proof. destruct 1 as [| | | | | | | | | | |? ? ? ? ? [->| ->]| |]; done. Qed.

(** Properties of single moves hold of every step of a transition. *)
Lemma flow_step_each d s k X i dcl st :
  NoDup (ss_id <$> sn_steps s) -> flow_step d s k X -> at_index d s i dcl st ->
  exists st', sn_steps X !! i = Some st' /\ ss_id st' = ss_id st /\
    (step_move dcl st k st'
     \/ (k = RunCompleted OutCancelled /\ st' = cancel_step st)
     \/ (moved_id k <> Some (ss_id st) /\ st' = st)).
Proof.
  intros Hnd Hstep [Hd Hi].
  destruct (flow_step_moves _ _ _ _ Hstep) as [(j & dcl' & b & b' & [Hdj Hj] & -> & Hm)|[[-> ->]|[Hk ->]]].
  - destruct (step_move_id _ _ _ _ Hm) as [Hk Hid].
    destruct (decide (j = i)) as [->|Hne].
    + simplify_eq. exists b'. rewrite list_lookup_insert_eq by by eapply lookup_lt_Some. auto.
    + exists st. rewrite list_lookup_insert_ne by done. split_and!; [done..|]. right. right.
      split; [|done]. rewrite Hk. intros [= E]. apply Hne.
      apply (NoDup_lookup (ss_id <$> sn_steps s) j i (ss_id st) Hnd); rewrite list_lookup_fmap;
        [by rewrite Hj, <-E|by rewrite Hi].
  - exists (cancel_step st). rewrite list_lookup_fmap, Hi. split_and!; [done| |auto].
    unfold cancel_step. destruct (is_terminal _); simpl; by destruct (ss_approval st).
  - exists st. split_and!; [done..|]. right. right. split; [by rewrite Hk|done].
Qed.

(** ** A stateful effect is started once per reconciliation *)

Definition is_start (id : string) (attempt : Z) (k : TransitionKind) : bool :=
  match k with EffectStarted i n _ => String.eqb i id && (n =? attempt) | _ => false end.
Definition is_not_applied (id : string) (attempt : Z) (k : TransitionKind) : bool :=
  match k with ReconciledNotApplied i n => String.eqb i id && (n =? attempt) | _ => false end.
Definition occurrences (p : TransitionKind -> bool) (ks : list TransitionKind) : nat :=
  length (List.filter p ks).

Lemma occurrences_snoc p ks k : occurrences p (ks ++ [k]) = (occurrences p ks + Nat.b2n (p k))%nat.
Proof. unfold occurrences. rewrite List.filter_app, length_app. simpl. by destruct (p k). Qed.

(** The attempt was started and not reconciled away. *)
Definition attempted (v : StepState) (a : Z) : bool :=
  match v with
  | Pending => false
  | AwaitingEffect n | WaitingRetry n _ => a <? n
  | InFlight n _ => a <=? n
  | _ => true
  end.

Lemma b2n_le_true b : (Nat.b2n b <= 1)%nat.
Proof. destruct b; simpl; lia. Qed.

Lemma start_move d s k X i dcl st a :
  NoDup (ss_id <$> sn_steps s) -> snap_inv d s -> flow_step d s k X -> at_index d s i dcl st ->
  fs_effect dcl = Stateful ->
  exists st', sn_steps X !! i = Some st' /\ ss_id st' = ss_id st /\
    (Nat.b2n (is_start (ss_id st) a k) + Nat.b2n (attempted (ss_state st) a)
     <= Nat.b2n (is_not_applied (ss_id st) a k) + Nat.b2n (attempted (ss_state st') a))%nat.
Proof.
  intros Hnd Hinv Hstep Hat He.
  destruct (flow_step_each _ _ _ _ _ _ _ Hnd Hstep Hat) as (st' & Hi & Hid & Hor). exists st'.
  split_and!; [done..|]. pose proof (b2n_le_true (attempted (ss_state st) a)) as H1.
  destruct Hor as [Hm|[[-> ->]|[Hk ->]]].
  - pose proof (st_state _ _ _ _ _ (iv_steps _ _ Hinv _ _ _ Hat)) as Hs. unfold state_inv in Hs.
    destruct Hm as [Hp|token Hp Ha|token Ha|token Ha|Hp Ha|n nb Hp|n replay Hu|n now Hp|n started Hp He'
      |n started result Hp|n started result nb Hp Hlt|n started result k Hp [->| ->]|n started Hp
      |n started rep Hp]; simpl; try lia; rewrite ?Hp in *; simpl; try lia.
    + rewrite String.eqb_refl. simpl. destruct (Z.eqb_spec n a), (Z.ltb_spec a n), (Z.leb_spec a n);
        simpl; lia.
    + congruence.
    + destruct (Z.leb_spec a n), (Z.ltb_spec a (n + 1)); simpl; lia.
    + rewrite String.eqb_refl. simpl. destruct (Z.eqb_spec n a), (Z.ltb_spec a n), (Z.leb_spec a n);
        simpl; lia.
  - simpl. unfold cancel_step. destruct (is_terminal (ss_state st)) eqn:E; simpl;
      destruct (ss_approval st); simpl; lia.
  - assert (is_start (ss_id st) a k = false) as ->; [|simpl; lia].
    destruct k; try done. simpl in *. by destruct (String.eqb_spec step_id (ss_id st)); [subst|].
Qed.

Lemma path_starts d s0 ks s :
  valid_definition d -> snap_inv d s0 -> (forall st, st ∈ sn_steps s0 -> ss_state st = Pending) ->
  flow_path d s0 ks s -> snap_inv d s /\
  forall i dcl st a, at_index d s i dcl st -> fs_effect dcl = Stateful ->
    (occurrences (is_start (ss_id st) a) ks
     <= occurrences (is_not_applied (ss_id st) a) ks + Nat.b2n (attempted (ss_state st) a))%nat.
Proof.
  intros Hd Hinv0 H0 Hpath. induction Hpath as [|ks s1 k s2 n Hpath [_ IH] Hinv Hstep].
  - split; [done|]. intros. unfold occurrences. simpl. lia.
  - split; [eapply sequence_inv, flow_step_inv; [by apply valid_attempts|done|done]|].
    intros i dcl st a [Hdi Hi] He. simpl in Hi.
    pose proof (flow_step_inv _ _ _ _ (valid_attempts d Hd) Hinv Hstep) as Hinv2.
    assert (exists b, sn_steps s1 !! i = Some b) as [b Hb].
    { apply lookup_lt_is_Some_2. apply lookup_lt_Some in Hi.
      by rewrite (iv_length _ _ Hinv), <-(iv_length _ _ Hinv2). }
    destruct (start_move _ _ _ _ i dcl b a (snap_ids_nodup _ _ Hd Hinv) Hinv Hstep (conj Hdi Hb) He)
      as (st' & Hst' & Hid & Hle). simplify_eq.
    specialize (IH i dcl b a (conj Hdi Hb) He). rewrite Hid, !occurrences_snoc. lia.
Qed.

(** ** Terminal steps and recorded results are never changed *)

Definition step_grows (st st' : StepSnapshot) : Prop :=
  (is_terminal (ss_state st) = true -> st' = st) /\ ss_results st `prefix_of` ss_results st'.

Lemma step_grows_each d s k X i dcl st :
  valid_definition d -> snap_inv d s -> flow_step d s k X -> at_index d s i dcl st ->
  exists st', sn_steps X !! i = Some st' /\ step_grows st st'.
Proof.
  intros Hd Hinv Hstep Hat.
  destruct (flow_step_each _ _ _ _ _ _ _ (snap_ids_nodup _ _ Hd Hinv) Hstep Hat) as (st' & Hi & _ & Hor).
  exists st'. split; [done|]. pose proof (pending_of_approval _ _ Hinv _ _ _ Hat) as Hpend.
  pose proof (st_state _ _ _ _ _ (iv_steps _ _ Hinv _ _ _ Hat)) as Hs.
  destruct Hor as [Hm|[[-> ->]|[Hk ->]]]; [|split|by split].
  - assert (Hnt : is_terminal (ss_state st) = false).
    { destruct Hm as [Hp|token Hp Ha|token Ha|token Ha|Hp Ha|n nb Hp|n replay Hu|n now Hp|n started Hp He'
        |n started result Hp|n started result nb Hp Hlt|n started result k Hp _|n started Hp
        |n started rep Hp]; try (by rewrite Hp); try (by rewrite (Hpend _ Ha)).
      unfold under_way in Hu. by destruct (is_terminal (ss_state st)), (is_pending (ss_state st)). }
    split; [congruence|]. destruct Hm; try done; simpl; by apply prefix_app_r.
  - by eapply terminal_settled.
  - unfold cancel_step. destruct (is_terminal (ss_state st)); simpl; by destruct (ss_approval st).
Qed.

Lemma step_grows_trans a b c : step_grows a b -> step_grows b c -> step_grows a c.
Proof.
  intros [H1 H2] [H3 H4]. split; [|by etransitivity]. intros Ht. rewrite <-(H1 Ht). apply H3.
  by rewrite (H1 Ht).
Qed.

Lemma path_grows d s0 ks s i st :
  valid_definition d -> snap_inv d s0 -> flow_path d s0 ks s -> sn_steps s0 !! i = Some st ->
  exists st', sn_steps s !! i = Some st' /\ step_grows st st'.
Proof.
  intros Hd Hinv0 Hpath Hi. induction Hpath as [|ks s1 k s2 n Hpath (b & Hb & Hg) Hinv Hstep].
  - exists st. split; [done|]. by split.
  - destruct (declared_at d s1 Hinv i b Hb) as [dcl Hat].
    destruct (step_grows_each _ _ _ _ i dcl b Hd Hinv Hstep Hat) as (c & Hc & Hg').
    exists c. split; [done|]. by eapply step_grows_trans.
Qed.

(** ** Termination *)

Definition step_weight (max : Z) (st : StepSnapshot) : Z :=
  match ss_state st with
  | Pending => 3 * max + match ss_approval st with
                         | NotRequested => 3 | ApprovalPending _ => 2 | _ => 1
                         end
  | AwaitingEffect a => 3 * (max - a) + 3
  | InFlight a _ => 3 * (max - a) + 2
  | WaitingRetry a _ => 3 * (max - a) + 4
  | _ => 0
  end.

Fixpoint steps_weight (dcls : list FlowStep) (sts : list StepSnapshot) : Z :=
  match dcls, sts with
  | dcl :: dcls, st :: sts => step_weight (max_attempts (fs_retry dcl)) st + steps_weight dcls sts
  | _, _ => 0
  end.

Definition run_weight (d : FlowDefinition) (s : FlowSnapshot) : Z :=
  steps_weight (fd_steps d) (sn_steps s)
  + (if status_is_terminal (sn_status s) then 0 else 1) + (if sn_cancel_requested s then 0 else 1).

Lemma steps_weight_insert dcls sts i dcl st st' :
  dcls !! i = Some dcl -> sts !! i = Some st ->
  steps_weight dcls (<[i := st']> sts) = steps_weight dcls sts
    - step_weight (max_attempts (fs_retry dcl)) st + step_weight (max_attempts (fs_retry dcl)) st'.
Proof.
  revert dcls i. induction sts as [|x sts IH]; intros [|y dcls] [|i]; simpl; try done.
  - intros [= ->] [= ->]. lia.
  - intros Hd Hs. rewrite (IH dcls i) by done. lia.
Qed.

(** The weight allowed to a transition: re-executions pay for themselves. *)
Definition allowance (k : TransitionKind) : Z :=
  match k with
  | EffectStarted _ _ true => 1
  | ReconciledNotApplied _ _ => 2
  | _ => 0
  end.

Lemma step_weight_nonneg d s i dcl st :
  valid_definition d -> snap_inv d s -> at_index d s i dcl st ->
  0 <= step_weight (max_attempts (fs_retry dcl)) st.
Proof.
  intros Hd Hinv Hat. pose proof (st_state _ _ _ _ _ (iv_steps _ _ Hinv _ _ _ Hat)) as Hs.
  assert (1 <= max_attempts (fs_retry dcl)).
  { apply (valid_attempts d Hd). eapply list_elem_of_lookup_2, Hat. }
  unfold state_inv in Hs. unfold step_weight.
  destruct (ss_state st); try lia. destruct (ss_approval st); lia.
Qed.

Lemma cancelled_weight dcls sts :
  (forall i dcl st, dcls !! i = Some dcl -> sts !! i = Some st ->
     0 <= step_weight (max_attempts (fs_retry dcl)) st) ->
  steps_weight dcls (cancel_step <$> sts) <= steps_weight dcls sts.
Proof.
  revert dcls. induction sts as [|x sts IH]; intros [|y dcls] Hall; csimpl; try lia.
  specialize (IH dcls (fun i => Hall (S i))). specialize (Hall 0%nat y x eq_refl eq_refl).
  enough (step_weight (max_attempts (fs_retry y)) (cancel_step x) = 0) by lia.
  pose proof (cancel_step_terminal x) as Ht. unfold step_weight. by destruct (ss_state (cancel_step x)).
Qed.

Lemma step_move_weight max dcl st k st' :
  max = max_attempts (fs_retry dcl) -> 0 <= step_weight max st -> 1 <= max ->
  (forall t, ss_approval st = ApprovalPending t -> ss_state st = Pending) ->
  (forall a b, ss_state st = InFlight a b -> a <= max) ->
  (forall a, ss_state st = AwaitingEffect a -> a <= max) ->
  (forall a b, ss_state st = WaitingRetry a b -> a <= max) ->
  step_move dcl st k st' -> step_weight max st' + 1 <= step_weight max st + allowance k.
Proof.
  intros -> H0 Hmax Hpend Hfl Haw Hwr Hm. unfold step_weight in *.
  destruct Hm as [Hp|token Hp Ha|token Ha|token Ha|Hp Ha|n nb Hp|n replay Hu|n now Hp|n started Hp He'
    |n started result Hp|n started result nb Hp Hlt|n started result k Hp Hk|n started Hp
    |n started rep Hp]; simpl; try (rewrite (Hpend _ Ha)); rewrite ?Hp, ?Ha in *; simpl;
    try (specialize (Hfl _ _ eq_refl)); try lia.
  - destruct (ss_approval st); lia.
  - destruct (ss_approval st); lia.
  - destruct (ss_state st); try done; simpl;
      try (specialize (Hfl _ _ eq_refl)); try (specialize (Haw _ eq_refl));
      try (specialize (Hwr _ _ eq_refl)); lia.
  - destruct Hk as [->| ->]; simpl; lia.
Qed.

Lemma flow_step_cancel d s k X :
  flow_step d s k X ->
  (sn_cancel_requested X = sn_cancel_requested s /\ k <> CancellationRequested /\
   (status_is_terminal (sn_status X) = true \/ moved_id k <> None))
  \/ (k = CancellationRequested /\ sn_cancel_requested s = false /\ sn_cancel_requested X = true)
  \/ (k = RunCompleted OutCancelled /\ status_is_terminal (sn_status X) = true
      /\ sn_cancel_requested X = true).
Proof.
  destruct 1; simpl; try (left; split_and!; [done|done|by right]); auto.
  left. split_and!; [done|done|]. left. by destruct outcome.
Qed.

Lemma flow_step_weight d s k X :
  valid_definition d -> snap_inv d s -> flow_step d s k X ->
  run_weight d X + 1 <= run_weight d s + allowance k.
Proof.
  intros Hd Hinv Hstep. pose proof (flow_step_live _ _ _ _ Hstep) as Hlive.
  pose proof (flow_step_cancel _ _ _ _ Hstep) as Hcan.
  assert (Hnn : forall i dcl st, fd_steps d !! i = Some dcl -> sn_steps s !! i = Some st ->
            0 <= step_weight (max_attempts (fs_retry dcl)) st).
  { intros i dcl st Hdi Hi. by eapply step_weight_nonneg. }
  pose proof (cancelled_weight _ _ Hnn) as Hcw. unfold run_weight. rewrite Hlive.
  destruct (flow_step_moves _ _ _ _ Hstep) as [(i & dcl & st & st' & Hat & -> & Hm)|[[-> ->]|[Hk ->]]].
  - rewrite (steps_weight_insert _ _ _ dcl st) by apply Hat.
    pose proof (st_state _ _ _ _ _ (iv_steps _ _ Hinv _ _ _ Hat)) as Hs. unfold state_inv in Hs.
    assert (1 <= max_attempts (fs_retry dcl)).
    { apply (valid_attempts d Hd). eapply list_elem_of_lookup_2, Hat. }
    pose proof (step_move_id _ _ _ _ Hm) as [Hid _].
    apply (step_move_weight (max_attempts (fs_retry dcl))) in Hm; try done.
    + destruct Hcan as [(-> & _)|[(-> & _)|(-> & _)]]; [|done..].
      destruct (status_is_terminal (sn_status X)), (sn_cancel_requested s); lia.
    + destruct Hat as [Hdi Hi]. by eapply Hnn.
    + intros t Ht. by eapply (pending_of_approval d s Hinv).
    + intros a b E. rewrite E in Hs. apply Hs.
    + intros a E. rewrite E in Hs. apply Hs.
    + intros a b E. rewrite E in Hs. apply Hs.
  - simpl. destruct Hcan as [(-> & _ & [->|?])|[(? & _)|(_ & -> & ->)]]; try done.
    + destruct (sn_cancel_requested s); lia.
    + destruct (sn_cancel_requested s); lia.
  - rewrite Hk in Hcan. destruct Hcan as [(-> & _ & [->|?])|[(-> & -> & ->)|(-> & -> & ->)]]; try done.
    + destruct k; try done; simpl; destruct (sn_cancel_requested s); lia.
    + simpl. destruct (status_is_terminal (sn_status X)); lia.
    + simpl. destruct (sn_cancel_requested s); lia.
Qed.

Definition total_allowance (ks : list TransitionKind) : Z := foldr Z.add 0 (allowance <$> ks).

Lemma total_allowance_snoc ks k : total_allowance (ks ++ [k]) = total_allowance ks + allowance k.
Proof.
  unfold total_allowance. induction ks as [|x ks IH]; csimpl; [lia|]. csimpl in IH. lia.
Qed.

Lemma path_weight d s0 ks s :
  valid_definition d -> flow_path d s0 ks s ->
  run_weight d s + Z.of_nat (length ks) <= run_weight d s0 + total_allowance ks.
Proof.
  intros Hd Hpath. induction Hpath as [|ks s1 k s2 n Hpath IH Hinv Hstep].
  - unfold total_allowance. simpl. lia.
  - pose proof (flow_step_weight _ _ _ _ Hd Hinv Hstep) as Hw.
    change (run_weight d (set_sequence s2 n)) with (run_weight d s2).
    rewrite total_allowance_snoc, length_app. simpl. lia.
Qed.

Lemma run_weight_nonneg d s : valid_definition d -> snap_inv d s -> 0 <= run_weight d s.
Proof.
  intros Hd Hinv. unfold run_weight.
  assert (Hnn : forall i dcl st, fd_steps d !! i = Some dcl -> sn_steps s !! i = Some st ->
            0 <= step_weight (max_attempts (fs_retry dcl)) st).
  { intros i dcl st Hdi Hi. by eapply step_weight_nonneg. }
  assert (0 <= steps_weight (fd_steps d) (sn_steps s)).
  { revert Hnn. generalize (sn_steps s), (fd_steps d). intros sts.
    induction sts as [|x sts IH]; intros [|y dcls] Hall; simpl; try lia.
    specialize (IH dcls (fun i => Hall (S i))). specialize (Hall 0%nat y x eq_refl eq_refl). lia. }
  destruct (status_is_terminal (sn_status s)), (sn_cancel_requested s); lia.
Qed.

(** The weight of a started run: eighteen for each step, and two. *)
Lemma initial_weight d run_id digest :
  valid_definition d ->
  steps_weight (fd_steps d) (initial_step run_id digest <$> fd_steps d)
  <= 18 * Z.of_nat (length (fd_steps d)).
Proof.
  intros Hd. assert (Hb : forall dcl, dcl ∈ fd_steps d -> max_attempts (fs_retry dcl) <= 5).
  { intros dcl Hin. by apply (declared_max d Hd). }
  revert Hb. generalize (fd_steps d). intros dcls. induction dcls as [|dcl dcls IH]; intros Hb; csimpl; [lia|].
  specialize (IH (fun x Hx => Hb x (list_elem_of_further _ _ _ Hx))).
  specialize (Hb dcl (list_elem_of_here _ _)).
  unfold step_weight at 1. simpl. destruct (fs_approval dcl); lia.
Qed.

(** ** Execution *)

(** The position of an approval that lets a step run. *)
Lemma ready_approval run_id digest cancel dcl st :
  step_inv run_id digest cancel dcl st -> approval_ready (ss_approval st) = true ->
  fs_approval dcl = ModeRequired ->
  ss_approval st = Granted (approval_token (ss_idempotency_identity st)).
Proof.
  intros Hst Hrdy Hm. pose proof (st_mode _ _ _ _ _ Hst) as Hmode. rewrite Hm in Hmode.
  pose proof (st_token _ _ _ _ _ Hst) as Ht. unfold token_mismatch in Ht.
  destruct (ss_approval st); try done. apply negb_false_iff, String.eqb_eq in Ht. by subst.
Qed.

(** What [prepare_effect] has checked when it issues an attempt. *)
Lemma prepare_effect_Ok r effect now_ms r' u :
  run_inv r -> prepare_effect effect now_ms r = (r', Ok u) ->
  exists dcl st replay,
    at_index (fr_definition r) (fr_snapshot r) (ea_step_index effect) dcl st /\
    effect = attempt_of (ea_step_index effect) dcl st (ea_attempt effect) /\
    ea_attempt effect <= max_attempts (fs_retry dcl) /\
    under_way (ss_state st) = true /\
    up_decision u = Execute effect replay /\ fr_issued_attempt r' = Some effect /\
    (if replay then in_flight_at (ss_state st) (ea_attempt effect) = true /\ fs_effect dcl = ReadOnly
     else ss_state st = AwaitingEffect (ea_attempt effect)).
Proof.
  intros Hr. unfold prepare_effect. unfold st_bind at 1, st_get.
  destruct (validate_effect r effect) as [[]|e|] eqn:Ev; try done.
  rewrite (bind_lift_ok _ _ _ _ eq_refl).
  destruct (validate_effect_Ok r Hr effect Ev) as (dcl & st & Hat & He & Hle).
  rewrite (bind_get_step _ _ _ _ (proj2 Hat)).
  destruct (decide (sn_sequence (fr_snapshot r) = u64_max)) as [E|Hn];
    [unfold st_bind, ensure_can_change; rewrite E; done|]. rewrite bind_ensure by done.
  unfold st_bind at 1.
  destruct (ss_state st) as [|a|a started| | | | | |] eqn:Es; try done.
  - destruct (Z.eqb_spec a (ea_attempt effect)) as [->|_]; [|done].
    rewrite (bind_modify _ _ _ _ _ (proj2 Hat)). unfold st_ret, st_bind, put_status, put_issued, changed.
    destruct (checked_add64 _ _); [|done]. destruct (semantic_events_for_transition _ _); try done.
    intros [= <- <-]. by exists dcl, st, false; rewrite Es.
  - destruct (Z.eqb_spec a (ea_attempt effect)) as [->|_]; [|done].
    case_bool_decide as Hro; [|done]. unfold st_ret, st_bind, put_status, put_issued, changed.
    cbn [andb]. destruct (checked_add64 _ _); [|done]. destruct (semantic_events_for_transition _ _); try done.
    intros [= <- <-]. exists dcl, st, true. rewrite Es. simpl. rewrite Z.eqb_refl.
    split_and!; try done. by rewrite He in Hro.
Qed.

(** ** Resuming *)

Lemma resume_accepted r :
  run_inv r -> definition_validate (fr_definition r) = Ok tt ->
  unconditional_approvals (fr_definition r) ->
  sn_sequence (fr_snapshot r) <> u64_max \/ status_is_terminal (sn_status (fr_snapshot r)) = true ->
  resume (sn_run_id (fr_snapshot r)) (fr_definition r) (fr_snapshot r) = Ok (with_issued r None).
Proof.
  intros [Hd Hinv Hseq] Hv Hu Hne. unfold resume, from_validation. rewrite Hv. simpl.
  rewrite String.eqb_refl. simpl. rewrite (iv_digest _ _ Hinv). simpl. rewrite String.eqb_refl. simpl.
  rewrite (iv_version _ _ Hinv). simpl.
  rewrite (snapshot_accepted _ _ Hd Hinv (skips_ready _ _ Hu Hinv) Hne). done.
Qed.

Lemma start_validated run_id d r0 : start run_id d = Ok r0 -> definition_validate d = Ok tt.
Proof. unfold start, from_validation. by destruct (definition_validate d) as [[]| |]. Qed.

Lemma start_accepted run_id d r0 :
  typed_definition d -> start run_id d = Ok r0 -> unconditional_approvals d ->
  validate_snapshot_successor None (fr_snapshot r0) None = Ok tt.
Proof.
  intros Hty Hs Hu. destruct (start_inv run_id d r0 Hty Hs) as [[Hd Hinv _] Hdef].
  rewrite Hdef in *. unfold validate_snapshot_successor.
  rewrite (standalone_accepted d _ Hd Hinv (skips_ready _ _ Hu Hinv)).
  destruct (initial_shape_rejected (fr_snapshot r0) None) eqn:E; [|done]. exfalso. revert E.
  pose proof (iv_length _ _ Hinv) as Hlen. pose proof (vd_steps _ Hd) as [Hpos _]. revert Hs Hlen.
  unfold start, from_validation. destruct (definition_validate d) as [[]| |]; try done. simpl.
  destruct (validate_engine_identity _ _ _) as [[]| |]; try done.
  destruct (normalized_digest d) as [digest| |]; try done. simpl. intros [= <-] Hlen.
  unfold initial_shape_rejected. simpl in *.
  rewrite bool_decide_false by (intros E; rewrite E in Hlen; simpl in Hlen; lia). simpl.
  intros E. apply existsb_true_elem in E as (st & (dcl & -> & _)%list_elem_of_fmap & E).
  simpl in E. by destruct (fs_approval dcl).
Qed.

Lemma start_snapshot run_id d r0 :
  start run_id d = Ok r0 -> exists digest,
    sn_steps (fr_snapshot r0) = initial_step run_id digest <$> fd_steps d
    /\ sn_status (fr_snapshot r0) = Running /\ sn_cancel_requested (fr_snapshot r0) = false.
Proof.
  unfold start, from_validation. destruct (definition_validate d) as [[]| |]; try done. simpl.
  destruct (validate_engine_identity _ _ _) as [[]| |]; try done.
  destruct (normalized_digest d) as [digest| |]; try done. simpl. intros [= <-]. by exists digest.
Qed.

Lemma start_pending run_id d r0 st :
  start run_id d = Ok r0 -> st ∈ sn_steps (fr_snapshot r0) -> ss_state st = Pending.
Proof.
  intros (digest & -> & _)%start_snapshot (dcl & -> & _)%list_elem_of_fmap. done.
Qed.

Lemma start_weight run_id d r0 :
  valid_definition d -> start run_id d = Ok r0 ->
  run_weight d (fr_snapshot r0) <= 18 * Z.of_nat (length (fd_steps d)) + 2.
Proof.
  intros Hd (digest & E & Hs & Hc)%start_snapshot. unfold run_weight. rewrite E, Hs, Hc. simpl.
  pose proof (initial_weight d run_id digest Hd). lia.
Qed.

Lemma unchanged_identity s : validate_successor_identity s s = Ok tt.
Proof.
  unfold validate_successor_identity. rewrite Z.eqb_refl, !String.eqb_refl, Nat.eqb_refl. simpl.
  destruct (existsb _ _) eqn:E; [|done]. apply existsb_true_elem in E as ([a b] & Hin & E).
  apply list_elem_of_lookup in Hin as [i Hi]. apply combine_lookup in Hi as [Ha Hb]. simplify_eq.
  rewrite !String.eqb_refl, bool_decide_true in E by done. done.
Qed.

(** The calls of a list, as a run. *)
Fixpoint calls_kinds (calls : list EngineCall) (r : FlowRun) : list TransitionKind :=
  match calls with
  | [] => []
  | c :: rest => transition_of (engine_call c r).2 ++ calls_kinds rest (engine_call c r).1
  end.

Lemma run_trace_trans r0 ks r1 ks' r2 :
  run_trace r0 ks r1 -> run_trace r1 ks' r2 -> run_trace r0 (ks ++ ks') r2.
Proof.
  intros H1. induction 1 as [|ks' r2 c r3 out H2 IH Hc|ks' r2 r3 H2 IH Hres].
  - by rewrite app_nil_r.
  - rewrite app_assoc. by eapply trace_call.
  - by eapply trace_restart.
Qed.

Lemma run_calls_trace calls r : run_trace r (calls_kinds calls r) (engine_calls calls r).
Proof.
  revert r. induction calls as [|c rest IH]; intros r; simpl; [constructor|].
  eapply run_trace_trans; [|apply IH]. rewrite <-(app_nil_l (transition_of _)).
  eapply trace_call; [constructor|apply surjective_pairing].
Qed.

End trace.

(** ** Properties *)

(** C1: the engine implements the state machine [flow_step]. In every run of a
    validated definition, whatever calls came before and with restarts in
    between, each further call either observes the run without changing its
    snapshot, or makes exactly one transition of the machine and publishes the
    snapshot it leads to with the next sequence number and the transition's
    semantic events, or returns an error and leaves the whole run unchanged;
    no call panics. *)
Theorem engine_refines_machine `{Sha256} run_id d r0 ks r c :
  typed_definition d -> start run_id d = Ok r0 -> run_trace r0 ks r ->
  match engine_call c r with
  | (r', Ok u) =>
    fr_definition r' = d /\ up_snapshot u = fr_snapshot r' /\
    match up_transition u with
    | None => fr_snapshot r' = fr_snapshot r
    | Some t => published (fr_snapshot r) d (fr_snapshot r') t
    end
  | (r', Err _) => r' = r
  | (_, Panic) => False
  end.
Proof.
  intros Hty Hs Htr. destruct (started_trace _ _ _ _ _ Hty Hs Htr) as (_ & Hr & _ & Hdef & _).
  pose proof (engine_call_refines c r Hr) as Hop. rewrite <-Hdef.
  destruct (engine_call c r) as [r' [u|e|]]; simpl in Hop; [done|by destruct Hop|done].
Qed.

(** C2: every snapshot a run reaches satisfies the invariant [snap_inv]: at most
    one step is active and the run status is the one computed from the steps;
    the results of a step are numbered from one and all but the last are
    retryable failures within the retry budget; a step past scheduling has
    complete prerequisites and is skipped exactly when its condition is false;
    approvals carry the token of their step; the run is blocked exactly when a
    step is, and cancelled only with every step terminal. *)
Theorem run_snapshots_invariant `{Sha256} run_id d r0 ks r :
  typed_definition d -> start run_id d = Ok r0 -> run_trace r0 ks r -> snap_inv d (fr_snapshot r).
Proof.
  intros Hty Hs Htr. destruct (started_trace _ _ _ _ _ Hty Hs Htr) as (_ & [_ Hinv _] & _ & Hdef & _).
  by rewrite Hdef in Hinv.
Qed.

(** C5: the scheduler never stalls. In every run, asking for the next decision
    or cancelling always succeeds; the only exception is a snapshot whose
    sequence counter has reached the largest 64-bit value, which is reported
    as such and changes nothing. *)
Theorem scheduler_never_stalls `{Sha256} run_id d r0 ks r now_ms :
  typed_definition d -> start run_id d = Ok r0 -> run_trace r0 ks r ->
  forall c, c = CallNext now_ms \/ c = CallCancel ->
  (exists r' u, engine_call c r = (r', Ok u))
  \/ (engine_call c r = (r, Err TransitionSequenceOverflow) /\ sn_sequence (fr_snapshot r) = u64_max).
Proof.
  intros Hty Hs Htr c Hc. destruct (started_trace _ _ _ _ _ Hty Hs Htr) as (_ & Hr & _).
  assert (Hop : op_spec (overflow r) r (engine_call c r)).
  { destruct Hc as [-> | ->]; [by apply next_decision_refines|by apply cancel_refines]. }
  destruct (engine_call c r) as [r' [u|e|]]; simpl in Hop; [eauto| |done].
  destruct Hop as (-> & -> & E). by right.
Qed.

(** C3: an effect is executed only when it may be. Whenever [prepare_effect]
    issues an attempt, the attempt is the one its step is waiting for, within
    the retry budget; if the step requires approval, the approval of exactly
    this step was granted; every prerequisite of the step is finished and its
    condition is true; and a replay is only ever issued for a read-only
    effect, so a stateful effect that may be in flight is never issued again. *)
Theorem effects_execute_safely `{Sha256} run_id d r0 ks r effect now_ms r' u :
  typed_definition d -> start run_id d = Ok r0 -> run_trace r0 ks r ->
  prepare_effect effect now_ms r = (r', Ok u) ->
  exists dcl st replay,
    at_index d (fr_snapshot r) (ea_step_index effect) dcl st /\
    up_decision u = Execute effect replay /\
    ea_step_id effect = fs_id dcl /\ ea_effect effect = fs_effect dcl /\
    ea_attempt effect = Z.of_nat (length (ss_results st)) + 1 /\
    ea_attempt effect <= max_attempts (fs_retry dcl) /\
    (fs_approval dcl = ModeRequired ->
       ss_approval st = Granted (approval_token (ss_idempotency_identity st))) /\
    refs_terminal d (fr_snapshot r) dcl /\
    declared_condition_true d (fr_snapshot r) (fs_condition dcl) = Ok true /\
    (fs_effect dcl = Stateful -> replay = false /\ ss_state st = AwaitingEffect (ea_attempt effect)).
Proof.
  intros Hty Hs Htr Hp. destruct (started_trace _ _ _ _ _ Hty Hs Htr) as (_ & Hr & _ & Hdef & _).
  destruct (prepare_effect_Ok _ _ _ _ _ Hr Hp) as (dcl & st & replay & Hat & He & Hle & Hu & Hd & _ & Hrep).
  pose proof (ri_snapshot _ Hr) as Hinv. rewrite Hdef in *.
  pose proof (iv_steps _ _ Hinv _ _ _ Hat) as Hst.
  destruct (under_way_graph _ _ Hinv _ _ _ Hat st Hu) as [Hrefs Hcond].
  { by destruct (ss_state st). } { intros E. by rewrite E in Hu. } { left. intros E. by rewrite E in Hu. }
  exists dcl, st, replay. split_and!; try done.
  - rewrite He. apply (st_id _ _ _ _ _ Hst).
  - by rewrite He.
  - pose proof (st_state _ _ _ _ _ Hst) as Hs'. unfold state_inv in Hs'.
    destruct replay; [destruct Hrep as [Hf _]|rewrite Hrep in Hs'; apply Hs'].
    destruct (ss_state st) as [| |a started| | | | | |]; try done. apply Z.eqb_eq in Hf as <-. apply Hs'.
  - eapply ready_approval; [done|]. by eapply under_way_ready.
  - rewrite Hcond. by destruct (ss_state st).
  - intros Hstate. destruct replay; [|done]. destruct Hrep. congruence.
Qed.

(** C4: a stateful effect reaches the outside world at most once per
    reconciliation. In every run, and across restarts, the number of times an
    attempt of a stateful step is started exceeds by at most one the number of
    times that attempt was reconciled as not applied. *)
Theorem stateful_effect_started_once `{Sha256} run_id d r0 ks r i dcl st attempt :
  typed_definition d -> start run_id d = Ok r0 -> run_trace r0 ks r ->
  at_index d (fr_snapshot r) i dcl st -> fs_effect dcl = Stateful ->
  (occurrences (is_start (fs_id dcl) attempt) ks
   <= 1 + occurrences (is_not_applied (fs_id dcl) attempt) ks)%nat.
Proof.
  intros Hty Hs Htr Hat He.
  destruct (started_trace _ _ _ _ _ Hty Hs Htr) as ([Hd Hinv0 _] & [_ Hinv _] & Hdef0 & Hdef & Hpath).
  rewrite Hdef0 in *. rewrite Hdef in *.
  destruct (path_starts d _ ks _ Hd Hinv0 (fun st => start_pending _ _ _ st Hs) Hpath) as [_ Hcount].
  specialize (Hcount i dcl st attempt Hat He).
  rewrite (st_id _ _ _ _ _ (iv_steps _ _ Hinv _ _ _ Hat)) in Hcount.
  pose proof (b2n_le_true (attempted (ss_state st) attempt)). lia.
Qed.

(** Nothing that happened is rewritten. From any point of a run to any later
    one, a step that is terminal keeps its whole record, and the recorded
    effect results of every step are only appended to. *)
Theorem history_is_append_only `{Sha256} run_id d r0 ks r ks' r' i st :
  typed_definition d -> start run_id d = Ok r0 -> run_trace r0 ks r -> run_trace r ks' r' ->
  sn_steps (fr_snapshot r) !! i = Some st ->
  exists st', sn_steps (fr_snapshot r') !! i = Some st' /\
    (is_terminal (ss_state st) = true -> st' = st) /\ ss_results st `prefix_of` ss_results st'.
Proof.
  intros Hty Hs Htr Htr' Hi. destruct (started_trace _ _ _ _ _ Hty Hs Htr) as (_ & Hr & _).
  destruct (run_trace_inv r ks' r' Hr Htr') as (_ & _ & Hpath). destruct Hr as [Hd Hinv _].
  exact (path_grows _ _ _ _ _ _ Hd Hinv Hpath Hi).
Qed.

(** C6: a run ends. A run of a definition with [n] steps makes at most
    [18 * n + 2] transitions, apart from those that repeat an effect: one for
    each replay of a read-only effect and two for each stateful attempt that
    was reconciled as not applied. *)
Theorem transitions_are_bounded `{Sha256} run_id d r0 ks r :
  typed_definition d -> start run_id d = Ok r0 -> run_trace r0 ks r ->
  Z.of_nat (length ks) <= 18 * Z.of_nat (length (fd_steps d)) + 2 + total_allowance ks.
Proof.
  intros Hty Hs Htr.
  destruct (started_trace _ _ _ _ _ Hty Hs Htr) as ([Hd _ _] & [_ Hinv _] & Hdef0 & Hdef & Hpath).
  rewrite Hdef0 in *. rewrite Hdef in *.
  pose proof (path_weight d _ ks _ Hd Hpath) as Hw. pose proof (run_weight_nonneg d _ Hd Hinv).
  pose proof (start_weight _ _ _ Hd Hs). lia.
Qed.

(** a finished run stays finished: in a terminal status no call changes the
    snapshot, and the next decision and a cancellation both return the result
    of the run. *)
Theorem terminal_runs_are_final `{Sha256} run_id d r0 ks r c :
  typed_definition d -> start run_id d = Ok r0 -> run_trace r0 ks r ->
  status_is_terminal (sn_status (fr_snapshot r)) = true ->
  fr_snapshot (engine_call c r).1 = fr_snapshot r /\
  (forall now_ms, c = CallNext now_ms \/ c = CallCancel ->
     engine_call c r = (r, Ok (observed r (Terminal (build_result r))))).
Proof.
  intros Hty Hs Htr Hterm. destruct (started_trace _ _ _ _ _ Hty Hs Htr) as (_ & Hr & _).
  split; [|intros now_ms [-> | ->]; unfold engine_call, next_decision, cancel, st_bind, st_get;
           by rewrite Hterm].
  pose proof (engine_call_refines c r Hr) as Hop.
  destruct (engine_call c r) as [r' [u|e|]]; simpl in Hop |- *; [|by destruct Hop as [-> _]|done].
  destruct Hop as (_ & _ & Hu). destruct (up_transition u); [|done].
  destruct Hu as (X & Hstep & _). by rewrite (flow_step_live _ _ _ _ Hstep) in Hterm.
Qed.

(** C7: whatever the engine publishes, the store accepts. For a definition
    whose approval-requiring steps are unconditional, the first snapshot of a
    run is accepted as an initial snapshot, and every snapshot published by a
    call is accepted, with its transition, as the successor of the snapshot
    before it. *)
Theorem store_accepts_published `{Sha256} run_id d r0 ks r c r' u :
  typed_definition d -> unconditional_approvals d -> start run_id d = Ok r0 -> run_trace r0 ks r ->
  engine_call c r = (r', Ok u) ->
  validate_snapshot_successor None (fr_snapshot r0) None = Ok tt /\
  validate_snapshot_successor (Some (fr_snapshot r)) (up_snapshot u) (up_transition u) = Ok tt.
Proof.
  intros Hty Hu Hs Htr Hc. split; [by eapply start_accepted|].
  destruct (started_trace _ _ _ _ _ Hty Hs Htr) as (_ & Hr & _ & Hdef & _).
  pose proof (engine_call_refines c r Hr) as Hop. rewrite Hc in Hop. simpl in Hop.
  pose proof (op_spec_inv (fun _ => True) r r' (Ok u) Hr Hop) as [_ Hinv' _].
  destruct Hop as (Hd' & Hsnap & Ht), Hr as [Hd Hinv Hseq]. rewrite Hsnap. rewrite Hd', Hdef in *.
  pose proof (skips_ready _ _ Hu Hinv) as Hsk. pose proof (skips_ready _ _ Hu Hinv') as Hsk'.
  destruct (up_transition u) as [t|].
  - apply (successor_accepted d); try done; lia.
  - unfold validate_snapshot_successor. rewrite Ht, (standalone_accepted d _ Hd Hinv Hsk).
    rewrite (unchanged_identity (fr_snapshot r)). by rewrite bool_decide_true.
Qed.

(** C8: a run survives a restart. For a definition whose approval-requiring
    steps are unconditional, the snapshot of a run at any point at which its
    sequence counter is not exhausted, or the run is over, passes the full
    validation of [resume] and resumes to the same definition and snapshot; what
    is not kept is the transient mark of the attempt that was last issued, which
    is cleared. *)
Theorem snapshots_resume `{Sha256} run_id d r0 ks r :
  typed_definition d -> unconditional_approvals d -> start run_id d = Ok r0 -> run_trace r0 ks r ->
  sn_sequence (fr_snapshot r) <> u64_max \/ status_is_terminal (sn_status (fr_snapshot r)) = true ->
  resume (sn_run_id (fr_snapshot r)) d (fr_snapshot r)
  = Ok {| fr_definition := d; fr_snapshot := fr_snapshot r; fr_issued_attempt := None |}.
Proof.
  intros Hty Hu Hs Htr Hne. destruct (started_trace _ _ _ _ _ Hty Hs Htr) as (_ & Hr & _ & Hdef & _).
  pose proof (resume_accepted r Hr) as Hres. unfold with_issued in Hres. rewrite Hdef in Hres.
  apply Hres; [by eapply start_validated|done|done].
Qed.
