(* ===== verification/FlowWitness.v ===== *)
(** * The run theorems on a concrete flow

    Two-step flow [sample_flow]: a read-only probe, then a stateful step that
    needs approval. The calls below run it from the start to its end, and each
    theorem of [FlowTrace] is applied at a point of that run. *)

From S2P Require Import Prelude FlowDef FlowGraph FlowValid FlowData FlowSnapshot FlowEngine.
From S2P Require Import FlowSamples FlowSpec FlowRefine FlowAccept FlowTrace.

Local Open Scope Z_scope.

#[local] Existing Instance sample_hash.

Definition sample_r0 : FlowRun := sample_start sample_flow.

Definition apply_attempt : EffectAttempt :=
  match effect_attempt sample_r0 1 1 with
  | Ok e => e
  | _ => probe_attempt sample_flow 1
  end.

Definition apply_token : ApprovalToken := approval_token (ea_idempotency_identity apply_attempt).

(** The probe runs and succeeds; the approval is requested and granted; the
    stateful step runs, is reconciled as not applied once, and succeeds. *)
Definition sample_calls : list EngineCall :=
  [CallNext 1000; CallPrepare (probe_attempt sample_flow 1) 1000;
   CallResult (probe_attempt sample_flow 1) sample_success 1010;
   CallNext 1020; CallApproval apply_token Approve; CallNext 1030;
   CallPrepare apply_attempt 1040; CallReconcile apply_attempt NotApplied 1050;
   CallPrepare apply_attempt 1060; CallResult apply_attempt sample_success 1070; CallNext 1080].

Definition sample_at (n : nat) : FlowRun := engine_calls (take n sample_calls) sample_r0.
Definition sample_kinds (n : nat) : list TransitionKind := calls_kinds (take n sample_calls) sample_r0.

Lemma sample_typed : typed_definition sample_flow.
Proof. repeat constructor; simpl; unfold u8_max, u64_max; lia. Defined.

Lemma sample_started : start "run-1" sample_flow = Ok sample_r0.
Proof. vm_compute. reflexivity. Defined.

Lemma sample_unconditional : unconditional_approvals sample_flow.
Proof.
  intros dcl Hin Ha. repeat (apply elem_of_cons in Hin as [->|Hin]; [done|]).
  by apply not_elem_of_nil in Hin.
Defined.

Lemma sample_trace n : run_trace sample_r0 (sample_kinds n) (sample_at n).
Proof. exact (run_calls_trace (take n sample_calls) sample_r0). Defined.

Example sample_run_kinds :
  sample_kinds 11 =
  [EffectEvaluationRequired "probe" 1; EffectStarted "probe" 1 false; EffectSucceeded "probe" 1;
   ApprovalRequested "apply"; ApprovalGranted "apply"; EffectEvaluationRequired "apply" 1;
   EffectStarted "apply" 1 false; ReconciledNotApplied "apply" 1; EffectStarted "apply" 1 false;
   EffectSucceeded "apply" 1; RunCompleted OutSolved].
Proof. vm_compute. reflexivity. Qed.

Lemma engine_refines_machine_witness :
  match engine_call (CallPrepare apply_attempt 1040) (sample_at 6) with
  | (r', Ok u) =>
    fr_definition r' = sample_flow /\ up_snapshot u = fr_snapshot r' /\
    match up_transition u with
    | None => fr_snapshot r' = fr_snapshot (sample_at 6)
    | Some t => published (fr_snapshot (sample_at 6)) sample_flow (fr_snapshot r') t
    end
  | (r', Err _) => r' = sample_at 6
  | (_, Panic) => False
  end.
Proof.
  exact (engine_refines_machine "run-1" sample_flow sample_r0 (sample_kinds 6) (sample_at 6)
    (CallPrepare apply_attempt 1040) sample_typed sample_started (sample_trace 6)).
Defined.

Lemma run_snapshots_invariant_witness : snap_inv sample_flow (fr_snapshot (sample_at 7)).
Proof.
  exact (run_snapshots_invariant "run-1" sample_flow sample_r0 (sample_kinds 7) (sample_at 7)
    sample_typed sample_started (sample_trace 7)).
Defined.

Lemma scheduler_never_stalls_witness :
  (exists r' u, engine_call (CallNext 1020) (sample_at 3) = (r', Ok u))
  \/ (engine_call (CallNext 1020) (sample_at 3) = (sample_at 3, Err TransitionSequenceOverflow)
      /\ sn_sequence (fr_snapshot (sample_at 3)) = u64_max).
Proof.
  exact (scheduler_never_stalls "run-1" sample_flow sample_r0 (sample_kinds 3) (sample_at 3) 1020
    sample_typed sample_started (sample_trace 3) (CallNext 1020) (or_introl eq_refl)).
Defined.

Lemma effects_execute_safely_witness :
  exists dcl st replay,
    at_index sample_flow (fr_snapshot (sample_at 6)) 1 dcl st /\ replay = false /\
    ss_approval st = Granted (approval_token (ss_idempotency_identity st)).
Proof.
  destruct (prepare_effect apply_attempt 1040 (sample_at 6)) as [r' [u|e|]] eqn:E;
    [|vm_compute in E; discriminate E..].
  destruct (effects_execute_safely "run-1" sample_flow sample_r0 (sample_kinds 6) (sample_at 6)
    apply_attempt 1040 r' u sample_typed sample_started (sample_trace 6) E)
    as (dcl & st & replay & Hat & _ & _ & He & _ & _ & Ha & _ & _ & Hst).
  exists dcl, st, replay. split; [exact Hat|]. vm_compute in He.
  destruct Hat as [Hd _]. vm_compute in Hd. injection Hd as <-.
  split; [exact (proj1 (Hst eq_refl))|exact (Ha eq_refl)].
Defined.

Lemma stateful_effect_started_once_witness :
  (occurrences (is_start "apply" 1) (sample_kinds 11)
   <= 1 + occurrences (is_not_applied "apply" 1) (sample_kinds 11))%nat.
Proof.
  destruct (sn_steps (fr_snapshot (sample_at 11)) !! 1%nat) as [st|] eqn:E;
    [|vm_compute in E; discriminate E].
  exact (stateful_effect_started_once "run-1" sample_flow sample_r0 (sample_kinds 11) (sample_at 11)
    1 sample_apply st 1 sample_typed sample_started (sample_trace 11) (conj eq_refl E) eq_refl).
Defined.

Lemma history_is_append_only_witness :
  exists st st', sn_steps (fr_snapshot (sample_at 3)) !! 0%nat = Some st /\
    sn_steps (fr_snapshot (engine_calls [CallNext 1020] (sample_at 3))) !! 0%nat = Some st' /\ st' = st.
Proof.
  destruct (sn_steps (fr_snapshot (sample_at 3)) !! 0%nat) as [st|] eqn:E;
    [|vm_compute in E; discriminate E].
  destruct (history_is_append_only "run-1" sample_flow sample_r0 (sample_kinds 3) (sample_at 3)
    (calls_kinds [CallNext 1020] (sample_at 3)) (engine_calls [CallNext 1020] (sample_at 3)) 0 st
    sample_typed sample_started (sample_trace 3) (run_calls_trace [CallNext 1020] (sample_at 3)) E)
    as (st' & E' & Hsame & _).
  exists st, st'. split; [reflexivity|]. split; [exact E'|]. apply Hsame.
  vm_compute in E. injection E as <-. reflexivity.
Defined.

Lemma transitions_are_bounded_witness :
  Z.of_nat (length (sample_kinds 11)) <= 18 * 2 + 2 + total_allowance (sample_kinds 11).
Proof.
  exact (transitions_are_bounded "run-1" sample_flow sample_r0 (sample_kinds 11) (sample_at 11)
    sample_typed sample_started (sample_trace 11)).
Defined.

Lemma terminal_runs_are_final_witness :
  fr_snapshot (engine_call CallCancel (sample_at 11)).1 = fr_snapshot (sample_at 11).
Proof.
  refine (proj1 (terminal_runs_are_final "run-1" sample_flow sample_r0 (sample_kinds 11) (sample_at 11)
    CallCancel sample_typed sample_started (sample_trace 11) _)).
  vm_compute. reflexivity.
Defined.

Lemma store_accepts_published_witness :
  validate_snapshot_successor None (fr_snapshot sample_r0) None = Ok tt.
Proof.
  destruct (engine_call (CallNext 1020) (sample_at 3)) as [r' [u|e|]] eqn:E;
    [|vm_compute in E; discriminate E..].
  exact (proj1 (store_accepts_published "run-1" sample_flow sample_r0 (sample_kinds 3) (sample_at 3)
    (CallNext 1020) r' u sample_typed sample_unconditional sample_started (sample_trace 3) E)).
Defined.

Lemma snapshots_resume_witness :
  resume (sn_run_id (fr_snapshot (sample_at 7))) sample_flow (fr_snapshot (sample_at 7))
  = Ok {| fr_definition := sample_flow; fr_snapshot := fr_snapshot (sample_at 7);
          fr_issued_attempt := None |}.
Proof.
  refine (snapshots_resume "run-1" sample_flow sample_r0 (sample_kinds 7) (sample_at 7)
    sample_typed sample_unconditional sample_started (sample_trace 7) _).
  left. vm_compute. discriminate.
Defined.

(** ** The definition itself *)

Definition sample_indices : gmap string nat := {["probe" := 0%nat; "apply" := 1%nat]}.

Lemma validate_acyclic_correct_witness :
  validate_acyclic (fd_steps sample_flow) sample_indices = Ok tt
  <-> acyclic (fd_steps sample_flow) sample_indices.
Proof.
  refine (proj1 (validate_acyclic_correct (fd_steps sample_flow) sample_indices _)).
  intros [|[|i]] step reference Hi Hr; simpl in Hi; try discriminate Hi; injection Hi as <-.
  - by apply not_elem_of_nil in Hr.
  - apply elem_of_cons in Hr as [->|Hr]; [|by apply not_elem_of_nil in Hr].
    exists 0%nat. split; [reflexivity|simpl; lia].
Defined.

Lemma validated_definition_safe_witness : NoDup (fs_id <$> fd_steps sample_flow).
Proof.
  exact (proj1 (validated_definition_safe sample_flow sample_typed
    (start_validated "run-1" sample_flow sample_r0 sample_started))).
Defined.
