(* ===== verification/FlowOutcome.v ===== *)
(** * What a run reports

    The retry backoff, the outcome sections with their bounded evidence, the
    terminal result of a run and its deserialization, and the semantic events
    of a transition. *)

From S2P Require Import Prelude FlowDef FlowGraph FlowValid FlowData FlowSnapshot FlowEngine FlowSamples FlowSpec.
From S2P Require Import FlowRefine FlowAccept FlowTrace FlowWitness.

Local Open Scope Z_scope.

(** ** Backoff *)

Lemma shifted_initial initial failed :
  0 <= initial <= MAX_INITIAL_BACKOFF_MS -> 1 <= failed <= MAX_RETRY_ATTEMPTS ->
  checked_shl64 initial (saturating_sub failed 1) = Some (initial * 2 ^ (failed - 1)).
Proof.
  unfold MAX_INITIAL_BACKOFF_MS, MAX_RETRY_ATTEMPTS. intros Hi Hf.
  unfold checked_shl64, saturating_sub. rewrite Z.max_r by lia.
  destruct (Z.ltb_spec (failed - 1) 64); [|lia]. f_equal.
  rewrite Z.shiftl_mul_pow2 by lia. unfold wrap64. apply Z.mod_small.
  assert (2 ^ (failed - 1) <= 2 ^ 4) by (apply Z.pow_le_mono_r; lia).
  pose proof (Z.pow_pos_nonneg 2 (failed - 1) ltac:(lia) ltac:(lia)). nia.
Qed.

(** ** Evidence *)

(** The handles in the order of their first occurrence. *)
Fixpoint distinct (seen : list string) (handles : list string) : list string :=
  match handles with
  | [] => []
  | h :: rest => if bool_decide (h ∈ seen) then distinct seen rest
                 else h :: distinct (seen ++ [h]) rest
  end.

Lemma existsb_eqb (h : string) l : existsb (String.eqb h) l = bool_decide (h ∈ l).
Proof.
  destruct (existsb (String.eqb h) l) eqn:E; symmetry.
  - apply bool_decide_true. apply existsb_true_elem in E as (x & Hx & Hh).
    by apply String.eqb_eq in Hh as ->.
  - apply bool_decide_false. intros Hh. pose proof (existsb_false_elem _ _ E h Hh) as Hn.
    by rewrite String.eqb_refl in Hn.
Qed.

(** Once the section is full it never changes, and a handle it lacks marks it
    as truncated. *)
Lemma collect_full handles evidence seen truncated :
  Z.of_nat (length evidence) = MAX_OUTCOME_EVIDENCE_HANDLES ->
  (forall h, h ∈ evidence -> h ∈ seen) -> (truncated = false -> forall h, h ∈ seen -> h ∈ evidence) ->
  collect_evidence handles evidence truncated
  = (evidence, truncated || negb (bool_decide (distinct seen handles = []))).
Proof.
  intros Hlen. revert seen truncated.
  induction handles as [|h handles IH]; intros seen truncated Hsub Hsup; simpl.
  - by rewrite orb_false_r.
  - rewrite existsb_eqb. case_bool_decide as He.
    + rewrite (bool_decide_true (h ∈ seen)) by auto. by rewrite (IH seen).
    + rewrite (proj2 (Z.eqb_eq _ _) Hlen).
      rewrite (IH seen true); [|done|discriminate]. simpl.
      destruct (decide (h ∈ seen)) as [Hs|Hs].
      * destruct truncated; [done|]. by destruct He; apply Hsup.
      * rewrite (bool_decide_false (h ∈ seen)) by done.
        by rewrite (bool_decide_false (_ :: _ = [])), orb_true_r by done.
Qed.

Lemma collect_distinct handles evidence :
  Z.of_nat (length evidence) <= MAX_OUTCOME_EVIDENCE_HANDLES ->
  collect_evidence handles evidence false
  = (take 4 (evidence ++ distinct evidence handles),
     bool_decide (4 < length (evidence ++ distinct evidence handles))%nat).
Proof.
  unfold MAX_OUTCOME_EVIDENCE_HANDLES. revert evidence.
  induction handles as [|h handles IH]; intros evidence Hle.
  - simpl. rewrite app_nil_r, take_ge by lia. by rewrite bool_decide_false by lia.
  - destruct (decide (Z.of_nat (length evidence) = 4)) as [E|Hne].
    + rewrite (collect_full _ evidence evidence false) by done. f_equal.
      * by rewrite take_app_length' by lia.
      * rewrite length_app. destruct (distinct evidence (h :: handles)); simpl.
        -- rewrite bool_decide_false by lia. done.
        -- rewrite (bool_decide_true (4 < _)%nat) by lia. done.
    + simpl. rewrite existsb_eqb. case_bool_decide as He; [by apply IH|].
      unfold MAX_OUTCOME_EVIDENCE_HANDLES. rewrite (proj2 (Z.eqb_neq _ _) Hne).
      rewrite IH by (rewrite length_app; simpl; lia). by rewrite <-app_assoc.
Qed.

Lemma section_summary summary satisfied steps include :
  os_summary (build_outcome_section summary satisfied steps include) = summary.
Proof. unfold build_outcome_section. by destruct (collect_evidence _ _ _). Qed.

Lemma outcome_report_accepted template outcome steps :
  validate_outcome_report (build_outcome_report template outcome steps) outcome steps = Ok tt.
Proof.
  unfold validate_outcome_report, build_outcome_report. cbn [or_solved or_changed or_verified
    or_unresolved or_blocked]. rewrite !section_summary. by rewrite bool_decide_true.
Qed.

(** ** Terminal results *)

Section results.
Context `{Sha256} (d : FlowDefinition) (s : FlowSnapshot).
Context (Hd : valid_definition d) (Hinv : snap_inv d s).
Context (Hterm : status_is_terminal (sn_status s) = true).
Context (Hclean : forall st, st ∈ sn_steps s -> ss_state st = Blocked -> ss_results st = []).

Lemma last_failure st :
  all_retryable (ss_results st) ->
  match rec_result <$> last (ss_results st) with Some r => is_failure (kind r) = true | None => True end.
Proof.
  intros Hall. destruct (last (ss_results st)) as [record|] eqn:E; [|done]. simpl.
  apply last_Some in E as [l E]. rewrite E in Hall. apply Forall_app in Hall as [_ Hall].
  apply Forall_cons_1 in Hall as [Hr _]. by destruct (kind (rec_result record)) as [|[]].
Qed.

Lemma result_shape i dcl st :
  at_index d s i dcl st -> terminal_shape_valid (step_run_result st) = true.
Proof.
  intros Hat. pose proof (list_elem_of_lookup_2 _ _ _ (proj2 Hat)) as Hin.
  pose proof (iv_stopped _ _ Hinv Hterm st Hin) as Hna.
  pose proof (st_state _ _ _ _ _ (iv_steps _ _ Hinv _ _ _ Hat)) as Hs. unfold state_inv in Hs.
  unfold terminal_shape_valid, step_run_result. simpl. specialize (Hclean st Hin).
  destruct (ss_state st) as [|a|a b|a b|a| |a| |] eqn:Es; simpl;
    try (unfold is_active in Hna; rewrite Es in Hna; discriminate).
  - destruct Hs as (-> & -> & _). done.
  - destruct Hs as (-> & _ & _ & init & record & -> & _ & Hk). rewrite last_snoc. simpl. by rewrite Hk.
  - destruct Hs as (-> & -> & _). done.
  - destruct Hs as (-> & _ & _ & init & record & retryable & -> & _ & Hk & _).
    rewrite last_snoc. simpl. by rewrite Hk.
  - rewrite (Hclean eq_refl). by destruct Hs as ([rep ->] & _).
  - destruct Hs as (-> & Hall & _). simpl. apply last_failure in Hall.
    by destruct (rec_result <$> last (ss_results st)).
Qed.

Lemma terminal_loop l n ids :
  drop n (sn_steps s) = l -> NoDup (ss_id <$> l) -> (forall st, st ∈ l -> ss_id st ∉ ids) ->
  validate_terminal_loop n ids (step_run_result <$> l) = Ok tt.
Proof.
  revert n ids. induction l as [|st l IH]; intros n ids Hdrop Hnd Hfresh; [done|].
  rewrite fmap_cons. cbn [validate_terminal_loop].
  assert (Hn : sn_steps s !! n = Some st) by by rewrite <-(Nat.add_0_r n), <-lookup_drop, Hdrop.
  destruct (declared_at d s Hinv n st Hn) as [dcl Hat]. apply NoDup_cons in Hnd as [Hx Hnd].
  change (sr_step_id (step_run_result st)) with (ss_id st).
  pose proof (vd_slug _ Hd dcl) as Hslug. unfold from_validation.
  rewrite (st_id _ _ _ _ _ (iv_steps _ _ Hinv _ _ _ Hat)).
  rewrite Hslug by (eapply list_elem_of_lookup_2, Hat). simpl.
  rewrite <-(st_id _ _ _ _ _ (iv_steps _ _ Hinv _ _ _ Hat)).
  rewrite bool_decide_false by (apply Hfresh; set_solver).
  rewrite (result_shape n dcl st Hat). simpl. apply IH; [|done|].
  - rewrite (drop_S _ _ _ Hn) in Hdrop. by injection Hdrop.
  - intros st' Hin. assert (ss_id st' ≠ ss_id st).
    { intros E. apply Hx. rewrite <-E. by apply list_elem_of_fmap_2. }
    specialize (Hfresh st'). set_solver.
Qed.

Lemma completed_facts :
  sn_status s = SucceededStatus \/ sn_status s = UnresolvedStatus ->
  (forall st, st ∈ sn_steps s -> is_terminal (ss_state st) = true) /\
  sn_status s = (if existsb (fun st => is_failed (ss_state st)) (sn_steps s)
                 then UnresolvedStatus else SucceededStatus).
Proof.
  intros Hor. pose proof (iv_status _ _ Hinv) as Hst. unfold computed_status in Hst.
  destruct (sn_cancel_requested s); [by destruct Hor as [E|E]; rewrite E in Hst|].
  destruct (existsb (fun step => is_blocked _) _); [by destruct Hor; congruence|].
  destruct (existsb (fun step => approval_pending _) _); [by destruct Hor; congruence|].
  destruct (existsb (fun step => is_waiting_retry _) _); [by destruct Hor; congruence|].
  destruct (existsb (fun step => is_awaiting_effect _) _); [by destruct Hor; congruence|].
  destruct (existsb (fun step => is_in_flight _) _); [by destruct Hor; congruence|].
  destruct (forallb _ _) eqn:Ef; [|by destruct Hor; congruence].
  rewrite bool_decide_false in Hst by (destruct Hor; congruence).
  split; [by apply forallb_true_elem|done].
Qed.

Lemma existsb_map {A B} (p : B -> bool) (f : A -> B) l :
  existsb p (f <$> l) = existsb (fun x => p (f x)) l.
Proof. induction l as [|x l IH]; csimpl; [done|]. by rewrite IH. Qed.

Lemma forallb_results p :
  (forall st, st ∈ sn_steps s -> p (step_run_result st) = true) ->
  forallb p (step_run_result <$> sn_steps s) = true.
Proof. intros Hp. apply forallb_true_elem. intros x (st & -> & Hin)%list_elem_of_fmap. auto. Qed.

Lemma outcome_of_status : outcome_valid (run_outcome s) (step_run_result <$> sn_steps s) = true.
Proof.
  assert (Hnc : sn_status s <> CancelledStatus -> forall st, st ∈ sn_steps s -> ss_state st <> Cancelled).
  { intros Hne st Hin E. by apply Hne, (iv_cancelled _ _ Hinv st). }
  assert (Hnb : sn_status s <> BlockedStatus -> forall st, st ∈ sn_steps s -> ss_state st <> Blocked).
  { intros Hne st Hin E. apply Hne, (iv_blocked _ _ Hinv). eauto. }
  unfold run_outcome, outcome_valid.
  destruct (sn_status s) eqn:Es; try discriminate.
  - destruct completed_facts as [Hall Hf]; [by left|]. rewrite Es in Hf.
    apply forallb_results. intros st Hin. unfold has_kind. simpl.
    specialize (Hall st Hin). specialize (Hnc ltac:(done) st Hin). specialize (Hnb ltac:(done) st Hin).
    destruct (existsb _ _) eqn:E in Hf; [done|].
    pose proof (existsb_false_elem _ _ E st Hin) as Hnf. simpl in Hnf.
    by destruct (ss_state st).
  - destruct completed_facts as [Hall Hf]; [by right|]. rewrite Es in Hf.
    destruct (existsb _ _) eqn:E in Hf; [|done].
    apply andb_true_iff. split.
    + rewrite existsb_map. apply existsb_true_elem in E as (st & Hin & Hst). apply existsb_true_elem.
      exists st. split; [done|]. unfold has_kind. simpl. by destruct (ss_state st).
    + apply forallb_results. intros st Hin. unfold has_kind. simpl.
      specialize (Hall st Hin). specialize (Hnc ltac:(done) st Hin). specialize (Hnb ltac:(done) st Hin).
      by destruct (ss_state st).
  - apply andb_true_iff. split.
    + destruct (proj2 (iv_blocked _ _ Hinv) Es) as (st & Hin & Hst). rewrite existsb_map.
      apply existsb_true_elem. exists st. split; [done|]. unfold has_kind. simpl. by rewrite Hst.
    + apply forallb_results. intros st Hin. unfold has_kind. simpl.
      specialize (Hnc ltac:(done) st Hin). by destruct (ss_state st).
  - apply forallb_results. intros st Hin. unfold has_kind. simpl.
    pose proof (proj2 (iv_final _ _ Hinv Es) st Hin) as Ht. specialize (Hnb ltac:(done) st Hin).
    by destruct (ss_state st).
Qed.

Lemma terminal_steps_accepted :
  validate_terminal_steps (run_outcome s) (step_run_result <$> sn_steps s) = Ok tt.
Proof.
  unfold validate_terminal_steps. rewrite length_fmap.
  pose proof (iv_length _ _ Hinv) as Hlen. pose proof (vd_steps _ Hd) as [Hpos Hmax].
  rewrite bool_decide_false by lia. destruct (_ >? MAX_FLOW_STEPS) eqn:E; [lia|]. simpl.
  rewrite (terminal_loop (sn_steps s) 0 ∅); [|done|by eapply snap_ids_nodup|set_solver].
  by rewrite outcome_of_status.
Qed.

End results.

(** ** Semantic events *)

Section events.
Context `{Sha256} (d : FlowDefinition) (s : FlowSnapshot).
Context (Hd : valid_definition d) (Hinv : snap_inv d s).

Definition event_ok (e : FlowSemanticEvent) : Prop := forall index, event_validate e index = Ok tt.

Lemma step_slug st p : st ∈ sn_steps s -> validate_slug p (ss_id st) MAX_FLOW_ID_BYTES = Ok tt.
Proof.
  intros [i Hi]%list_elem_of_lookup. destruct (declared_at d s Hinv i st Hi) as [dcl Hat].
  rewrite (st_id _ _ _ _ _ (iv_steps _ _ Hinv _ _ _ Hat)). apply Hd.
  eapply list_elem_of_lookup_2, Hat.
Qed.

(** An event whose step is a step of the snapshot. *)
Lemma event_of_step st e :
  st ∈ sn_steps s -> event_step_id e = ss_id st ->
  match e with
  | Waiting _ WaitRetryReason (Some _)
  | Waiting _ (WaitApproval | WaitEffectResult | WaitReconciliation) None
  | ApprovalRequiredEvent _ => True
  | Waiting _ _ _ => False
  | EvidenceFound _ l => l <> [] /\ Z.of_nat (length l) <= MAX_EVIDENCE_HANDLES
  | FixApplied _ r | VerificationPassed _ r | UnresolvedEvent _ r | BlockedEvent _ r => report_ok r
  end -> event_ok e.
Proof.
  intros Hin Hid Hok index. unfold event_validate, from_validation.
  rewrite Hid, (step_slug st _ Hin). simpl.
  destruct e as [id [] []| |id l|id r|id r|id r|id r]; try done; try (by eapply report_path).
  destruct Hok as [Hne Hle]. rewrite bool_decide_false by done. simpl.
  destruct (_ >? _) eqn:E; [lia|done].
Qed.

Lemma evidence_bound r : report_ok r -> Z.of_nat (length (evidence r)) <= MAX_EVIDENCE_HANDLES.
Proof.
  unfold report_ok, report_validate. destruct (validate_engine_text _ _ _); try done.
  destruct (_ >? _) eqn:E; [done|lia].
Qed.

Lemma evidence_events st r :
  st ∈ sn_steps s -> report_ok r -> Forall event_ok (push_evidence_event [] (ss_id st) r).
Proof.
  intros Hin Hr. unfold push_evidence_event. case_bool_decide; [constructor|].
  apply Forall_singleton, (event_of_step st); try done. split; [done|]. by apply evidence_bound.
Qed.

Lemma step_report_ok st r : st ∈ sn_steps s -> last_report st = Ok r -> report_ok r.
Proof.
  intros [i Hi]%list_elem_of_lookup Hr. destruct (declared_at d s Hinv i st Hi) as [dcl Hat].
  unfold last_report in Hr. destruct (last (ss_results st)) as [record|] eqn:El; [|done].
  simpl in Hr. injection Hr as <-. apply last_Some in El as [l El].
  destruct (st_numbered _ _ _ _ _ (iv_steps _ _ Hinv _ _ _ Hat) (length l) record) as [_ Hok]; [|done].
  rewrite El, lookup_app_r by done. by rewrite Nat.sub_diag.
Qed.

Lemma blocked_report_ok st r : st ∈ sn_steps s -> ss_blocked_report st = Some r -> report_ok r.
Proof.
  intros [i Hi]%list_elem_of_lookup Hr. destruct (declared_at d s Hinv i st Hi) as [dcl Hat].
  by eapply (st_blocked _ _ _ _ _ (iv_steps _ _ Hinv _ _ _ Hat)).
Qed.

Lemma found_step id st :
  transition_step_snapshot s id = Ok st -> st ∈ sn_steps s /\ ss_id st = id.
Proof.
  unfold transition_step_snapshot, ok_or. destruct (List.find _ _) as [t|] eqn:E; [|done].
  intros [= ->]. apply List.find_some in E as [Hin Hid]. apply String.eqb_eq in Hid.
  split; [by apply list_elem_of_In|done].
Qed.

Lemma found_report id r :
  transition_step_report s id = Ok r -> report_ok r /\ exists st, st ∈ sn_steps s /\ ss_id st = id.
Proof.
  unfold transition_step_report. destruct (transition_step_snapshot s id) as [st| |] eqn:E; try done.
  apply found_step in E as [Hin Hid]. intros Hr. split; [by eapply step_report_ok|eauto].
Qed.

Lemma blocked_events id events :
  (let? step := transition_step_snapshot s id in
   let? report := ok_or (ss_blocked_report step) SnapshotTransitionMismatch in
   Ok (push_evidence_event [] id report ++ [BlockedEvent id report])) = Ok events ->
  Forall event_ok events.
Proof.
  destruct (transition_step_snapshot s id) as [st| |] eqn:E; try done.
  apply found_step in E as [Hin <-]. destruct (ss_blocked_report st) as [r|] eqn:Er; [|done].
  pose proof (blocked_report_ok st r Hin Er) as Hok. intros [= <-].
  apply Forall_app_2; [by apply evidence_events|].
  apply Forall_singleton; by apply (event_of_step st).
Qed.

Lemma unresolved_events id events :
  (let? report := transition_step_report s id in
   Ok (push_evidence_event [] id report ++ [UnresolvedEvent id report])) = Ok events ->
  Forall event_ok events.
Proof.
  destruct (transition_step_report s id) as [r| |] eqn:E; try done.
  apply found_report in E as (Hok & st & Hin & <-). intros [= <-].
  apply Forall_app_2; [by apply evidence_events|].
  apply Forall_singleton; by apply (event_of_step st).
Qed.

Lemma bounded_events (events : list FlowSemanticEvent) (m : eres (list FlowSemanticEvent)) :
  (let? es := m in
   if Z.of_nat (length es) >? MAX_FLOW_SEMANTIC_EVENTS_PER_TRANSITION
   then Err SnapshotTransitionMismatch else Ok es) = Ok events ->
  m = Ok events /\ Z.of_nat (length events) <= MAX_FLOW_SEMANTIC_EVENTS_PER_TRANSITION.
Proof. destruct m as [es| |]; try done. destruct (_ >? _) eqn:E; [done|]. intros [= <-]. split; [done|lia]. Qed.

Lemma events_valid k events :
  (forall id, moved_id k = Some id -> exists st, st ∈ sn_steps s /\ ss_id st = id) ->
  semantic_events_for_transition s k = Ok events ->
  Forall event_ok events /\ Z.of_nat (length events) <= MAX_FLOW_SEMANTIC_EVENTS_PER_TRANSITION.
Proof.
  intros Hmoved Hev. apply bounded_events in Hev as [Hev Hlen]. split; [|done]. clear Hlen.
  destruct k; simpl in Hmoved; try (injection Hev as <-; by constructor).
  - destruct (Hmoved _ eq_refl) as (st & Hin & <-). injection Hev as <-.
    repeat constructor; by apply (event_of_step st).
  - by apply blocked_events in Hev.
  - by apply blocked_events in Hev.
  - destruct (Hmoved _ eq_refl) as (st & Hin & <-). injection Hev as <-.
    repeat constructor; by apply (event_of_step st).
  - destruct (transition_step_snapshot s step_id) as [st| |] eqn:E; try discriminate.
    apply found_step in E as [Hin <-]. destruct (last_report st) as [r| |] eqn:Er; try discriminate.
    pose proof (step_report_ok st r Hin Er) as Hok. pose proof (evidence_events st r Hin Hok) as Hevi.
    destruct (ss_semantic_role st); injection Hev as <-; try done; apply Forall_app_2; try done;
      apply Forall_singleton; by apply (event_of_step st).
  - destruct (transition_step_report s step_id) as [r| |] eqn:E; try discriminate.
    apply found_report in E as (Hok & st & Hin & <-). injection Hev as <-.
    apply Forall_app_2; [by apply evidence_events|].
    apply Forall_singleton; by apply (event_of_step st).
  - by apply unresolved_events in Hev.
  - by apply unresolved_events in Hev.
  - by apply blocked_events in Hev.
  - destruct (List.find _ _) as [st|] eqn:E; [|discriminate]. injection Hev as <-.
    apply List.find_some in E as [Hin%list_elem_of_In _].
    apply Forall_singleton; by apply (event_of_step st).
Qed.

End events.

Lemma moved_step_exists `{Sha256} d s k X id :
  flow_step d s k X -> moved_id k = Some id -> exists st, st ∈ sn_steps X /\ ss_id st = id.
Proof.
  intros Hstep Hid. destruct (flow_step_moves _ _ _ _ Hstep)
    as [(i & dcl & st & st' & [_ Hi] & -> & Hm)|[[-> _]|[E _]]]; [|done|congruence].
  destruct (step_move_id _ _ _ _ Hm) as [E Hsame]. exists st'. split; [|congruence].
  apply list_elem_of_lookup. exists i. apply list_lookup_insert_eq. by eapply lookup_lt_Some.
Qed.

(** ** Properties *)

(** the wait before a retry doubles with each failed attempt and is capped.
    For every retry policy that validates and every attempt it allows, the
    shift of the 64-bit initial backoff loses no bits and the wait is
    [min (initial * 2^(attempt - 1)) maximum], at most five minutes and never
    shorter than the wait before. *)
Theorem retry_backoff_doubles (r : RetryPolicy) path failed :
  0 <= max_attempts r -> 0 <= initial_backoff_ms r -> retry_validate r path = Ok tt ->
  1 <= failed <= max_attempts r ->
  retry_backoff_ms (initial_backoff_ms r) (max_backoff_ms r) failed
    = Z.min (initial_backoff_ms r * 2 ^ (failed - 1)) (max_backoff_ms r) /\
  retry_backoff_ms (initial_backoff_ms r) (max_backoff_ms r) failed <= 300000 /\
  (failed < max_attempts r ->
   retry_backoff_ms (initial_backoff_ms r) (max_backoff_ms r) failed
   <= retry_backoff_ms (initial_backoff_ms r) (max_backoff_ms r) (failed + 1)).
Proof.
  intros H0 H1 Hv Hf. destruct (retry_validate_spec r path H0 H1 Hv) as (Hmax & Hmany & Hone).
  assert (Hi : 0 <= initial_backoff_ms r <= MAX_INITIAL_BACKOFF_MS /\ max_backoff_ms r <= MAX_BACKOFF_MS).
  { unfold MAX_INITIAL_BACKOFF_MS, MAX_BACKOFF_MS in *.
    destruct (decide (max_attempts r = 1)) as [E|E]; [destruct (Hone E)|destruct (Hmany E)]; lia. }
  destruct Hi as [Hi Hb]. unfold MAX_RETRY_ATTEMPTS, MAX_BACKOFF_MS in *.
  assert (Heq : forall k, 1 <= k <= max_attempts r ->
    retry_backoff_ms (initial_backoff_ms r) (max_backoff_ms r) k
    = Z.min (initial_backoff_ms r * 2 ^ (k - 1)) (max_backoff_ms r)).
  { intros k Hk. unfold retry_backoff_ms.
    rewrite shifted_initial by (unfold MAX_RETRY_ATTEMPTS; lia). done. }
  rewrite (Heq failed Hf). split_and!; [done|lia|]. intros Hlt. rewrite Heq by lia.
  replace (failed + 1 - 1) with (Z.succ (failed - 1)) by lia. rewrite Z.pow_succ_r by lia.
  pose proof (Z.pow_pos_nonneg 2 (failed - 1) ltac:(lia) ltac:(lia)). nia.
Qed.

(** An outcome section lists the included steps in order and the first four
    distinct evidence handles of their reports, in order of first appearance;
    it is marked as truncated exactly when there were more. *)
Theorem outcome_section_evidence summary satisfied steps include :
  let section := build_outcome_section summary satisfied steps include in
  let handles := distinct [] (section_handles (List.filter include steps)) in
  os_step_ids section = sr_step_id <$> List.filter include steps /\
  os_evidence section = take 4 handles /\
  (os_evidence_truncated section = true <-> (4 < length handles)%nat).
Proof.
  unfold build_outcome_section.
  rewrite collect_distinct by (simpl; unfold MAX_OUTCOME_EVIDENCE_HANDLES; lia). simpl.
  split_and!; [done..|]. apply bool_decide_eq_true.
Qed.

(** the result of a finished run survives storage: it deserializes from its
    own fields to the same result, its report checked against its steps,
    whenever no step was blocked after an earlier failed attempt. *)
Theorem run_result_round_trip `{Sha256} run_id d r0 ks r :
  typed_definition d -> start run_id d = Ok r0 -> run_trace r0 ks r ->
  status_is_terminal (sn_status (fr_snapshot r)) = true ->
  (forall st, st ∈ sn_steps (fr_snapshot r) -> ss_state st = Blocked -> ss_results st = []) ->
  let result := build_result r in
  run_result_deserialize (rr_run_id result) (rr_digest result) (rr_outcome result)
    (Some (rr_report result)) (rr_steps result) = Ok result.
Proof.
  intros Hty Hs Htr Hterm Hclean result.
  destruct (started_trace _ _ _ _ _ Hty Hs Htr) as (_ & [Hd Hinv _] & _ & Hdef & _).
  unfold run_result_deserialize, result, build_result. simpl.
  rewrite (terminal_steps_accepted (fr_definition r)) by done.
  rewrite outcome_report_accepted. done.
Qed.

(** Every transition an engine call publishes is readable: it carries at
    most three semantic events, each about a step of the flow and well formed,
    so its deserializer accepts it unchanged. *)
Theorem published_transitions_deserialize `{Sha256} run_id d r0 ks r c r' u t :
  typed_definition d -> start run_id d = Ok r0 -> run_trace r0 ks r ->
  engine_call c r = (r', Ok u) -> up_transition u = Some t -> transition_deserialize t = Ok t.
Proof.
  intros Hty Hs Htr Hc Ht. destruct (started_trace _ _ _ _ _ Hty Hs Htr) as (_ & Hr & _ & Hdef & _).
  pose proof (engine_call_refines c r Hr) as Hop. rewrite Hc in Hop. simpl in Hop.
  pose proof (op_spec_inv (fun _ => True) r r' (Ok u) Hr Hop) as [Hd' Hinv' _].
  destruct Hop as (Hd2 & _ & Hpub). rewrite Ht in Hpub. rewrite Hd2 in *.
  destruct Hpub as (X & Hstep & _ & E & _ & Hev).
  destruct (events_valid _ _ Hd' Hinv' (tr_kind t) (tr_semantic_events t)) as [Hall Hlen]; [|done|].
  - intros id Hid. rewrite E. simpl. by eapply moved_step_exists.
  - unfold transition_deserialize. destruct (_ >? _) eqn:El; [lia|].
    rewrite (proj2 (iter_res_Ok _ _)); [done|]. intros [index e] Hin.
    apply enumerate_lookup in Hin as (j & -> & Hj). rewrite Forall_forall in Hall.
    apply Hall. by eapply list_elem_of_lookup_2.
Qed.

(** ** The properties at concrete inputs *)

Lemma retry_backoff_doubles_witness :
  retry_backoff_ms 100 150 2 = Z.min (100 * 2 ^ (2 - 1)) 150 /\ retry_backoff_ms 100 150 2 <= 300000.
Proof.
  destruct (retry_backoff_doubles (fs_retry sample_probe) "retry" 2) as (E & Hb & _);
    [simpl; lia|simpl; lia|reflexivity|simpl; lia|].
  exact (conj E Hb).
Defined.

Lemma run_result_round_trip_witness :
  let result := build_result (sample_at 11) in
  run_result_deserialize (rr_run_id result) (rr_digest result) (rr_outcome result)
    (Some (rr_report result)) (rr_steps result) = Ok result.
Proof.
  refine (@run_result_round_trip sample_hash "run-1" sample_flow sample_r0 (sample_kinds 11) (sample_at 11)
    sample_typed sample_started (sample_trace 11) _ _).
  - vm_compute. reflexivity.
  - intros st Hin Hb.
    assert (Hall : forallb (fun st => negb (is_blocked (ss_state st))) (sn_steps (fr_snapshot (sample_at 11)))
              = true) by (vm_compute; reflexivity).
    pose proof (proj1 (forallb_true_elem _ _) Hall st Hin) as Hn. simpl in Hn. rewrite Hb in Hn.
    discriminate Hn.
Defined.

Lemma published_transitions_deserialize_witness :
  exists t, transition_deserialize t = Ok t /\ tr_kind t = EffectSucceeded "probe" 1.
Proof.
  destruct (@engine_call sample_hash (CallResult (probe_attempt sample_flow 1) sample_success 1010)
    (sample_at 2)) as [r1 [u|e|]] eqn:E; [|vm_compute in E; discriminate E..].
  destruct (up_transition u) as [t|] eqn:Et.
  2:{ vm_compute in E. injection E as _ <-. discriminate Et. }
  exists t. split.
  - exact (@published_transitions_deserialize sample_hash "run-1" sample_flow sample_r0 (sample_kinds 2)
      (sample_at 2) _ r1 u t sample_typed sample_started (sample_trace 2) E Et).
  - vm_compute in E. injection E as _ <-. vm_compute in Et. injection Et as <-. reflexivity.
Defined.

(** ** Recording effect results

    An executor may report the same result more than once, before and after a
    restart: recording is idempotent, and a different result for the same
    attempt is refused. The identity of an effect attempt binds the run, the
    definition and the step. *)

Section record.
Context `{Sha256}.

(** ** Attempts do not depend on the state of the run *)

Definition attempt_for (run_id : RunId) (digest : FlowDigest) (i : nat) (dcl : FlowStep) (n : Z)
  : EffectAttempt :=
  {| ea_step_index := i; ea_step_id := fs_id dcl; ea_attempt := n;
     ea_idempotency_identity :=
       idempotency_identity run_id digest (fs_id dcl) (fs_idempotency_key dcl);
     ea_effect := fs_effect dcl; ea_timeout_seconds := fs_timeout_seconds dcl |}.

Lemma validate_effect_iff r e :
  run_inv r -> validate_effect r e = Ok tt <->
  exists dcl, fd_steps (fr_definition r) !! ea_step_index e = Some dcl /\
    e = attempt_for (sn_run_id (fr_snapshot r)) (sn_digest (fr_snapshot r)) (ea_step_index e) dcl
          (ea_attempt e) /\
    ea_attempt e <> 0 /\ ea_attempt e <= max_attempts (fs_retry dcl).
Proof.
  intros Hr. unfold validate_effect. pose proof (ri_snapshot _ Hr) as Hinv. split.
  - destruct (sn_steps (fr_snapshot r) !! _) as [st|] eqn:Ei; [|done].
    destruct (step_at_index r Hr _ st Ei) as [dcl Hat]. pose proof Hat as [Hd _].
    unfold declared_step. rewrite Hd. simpl. destruct (_ || _) eqn:E; [done|]. intros _.
    rewrite !orb_false_iff, !negb_false_iff, !String.eqb_eq, bool_decide_eq_true, Z.eqb_eq in E.
    exists dcl. pose proof (iv_steps _ _ Hinv _ _ _ Hat) as Hst.
    rewrite (st_id _ _ _ _ _ Hst), (st_identity _ _ _ _ _ Hst) in E.
    split_and!; [done| |lia..]. destruct e; unfold attempt_for; simpl in *. naive_solver.
  - intros (dcl & Hd & He & H0 & Hle).
    assert (exists st, sn_steps (fr_snapshot r) !! ea_step_index e = Some st) as [st Hi].
    { apply lookup_lt_is_Some_2. rewrite (iv_length _ _ Hinv). by eapply lookup_lt_Some. }
    rewrite Hi. unfold declared_step. rewrite Hd. simpl.
    pose proof (iv_steps _ _ Hinv _ _ _ (conj Hd Hi)) as Hst.
    rewrite (st_id _ _ _ _ _ Hst), (st_identity _ _ _ _ _ Hst).
    assert (ea_step_id e = fs_id dcl) as -> by by rewrite He.
    assert (ea_idempotency_identity e = idempotency_identity (sn_run_id (fr_snapshot r))
      (sn_digest (fr_snapshot r)) (fs_id dcl) (fs_idempotency_key dcl)) as -> by by rewrite He.
    assert (ea_effect e = fs_effect dcl) as -> by by rewrite He.
    assert (ea_timeout_seconds e = fs_timeout_seconds dcl) as -> by by rewrite He.
    rewrite !String.eqb_refl, bool_decide_true, Z.eqb_refl by done. simpl.
    destruct (Z.eqb_spec (ea_attempt e) 0); [done|]. simpl. destruct (_ >? _) eqn:E; [lia|done].
Qed.

Lemma path_frame d s0 ks s :
  flow_path d s0 ks s -> sn_run_id s = sn_run_id s0 /\ sn_digest s = sn_digest s0.
Proof.
  induction 1 as [|ks s1 k s2 n _ [IH1 IH2] _ Hstep]; [done|].
  pose proof (flow_step_frame _ _ _ _ Hstep) as (_ & Hr & Hdg & _). simpl. split; congruence.
Qed.

Lemma validate_effect_later r ks r' e :
  run_inv r -> run_trace r ks r' -> validate_effect r e = Ok tt -> validate_effect r' e = Ok tt.
Proof.
  intros Hr Htr Hv. destruct (run_trace_inv r ks r' Hr Htr) as (Hr' & Hdef & Hpath).
  destruct (path_frame _ _ _ _ Hpath) as [Hrun Hdig]. apply (validate_effect_iff r' e Hr').
  rewrite Hdef, Hrun, Hdig. by apply validate_effect_iff.
Qed.

(** ** The record of a result *)

Definition recorded (r : FlowRun) (e : EffectAttempt) (result : EffectResult) : Prop :=
  exists st, sn_steps (fr_snapshot r) !! ea_step_index e = Some st /\
    {| rec_attempt := ea_attempt e; rec_result := result |} ∈ ss_results st.

(** The recorded results are numbered, so an attempt has one record. *)
Lemma find_recorded r e result st :
  run_inv r -> sn_steps (fr_snapshot r) !! ea_step_index e = Some st ->
  {| rec_attempt := ea_attempt e; rec_result := result |} ∈ ss_results st ->
  List.find (fun record => rec_attempt record =? ea_attempt e) (ss_results st)
  = Some {| rec_attempt := ea_attempt e; rec_result := result |}.
Proof.
  intros Hr Hi Hin. destruct (step_at_index r Hr _ st Hi) as [dcl Hat].
  pose proof (st_numbered _ _ _ _ _ (iv_steps _ _ (ri_snapshot _ Hr) _ _ _ Hat)) as Hnum.
  apply list_elem_of_lookup in Hin as [k Hk]. pose proof (Hnum k _ Hk) as [Ek _]. simpl in Ek.
  destruct (List.find _ _) as [record|] eqn:E.
  - apply List.find_some in E as [Hin E]. apply list_elem_of_In, list_elem_of_lookup in Hin as [j Hj].
    pose proof (Hnum j _ Hj) as [Ej _]. assert (j = k) as -> by lia. congruence.
  - apply List.find_none with (x := {| rec_attempt := ea_attempt e; rec_result := result |}) in E;
      [simpl in E; lia|]. apply list_elem_of_In. by eapply list_elem_of_lookup_2.
Qed.

Lemma changed_Ok k decision r r' u :
  changed k decision r = (r', Ok u) -> sn_steps (fr_snapshot r') = sn_steps (fr_snapshot r).
Proof.
  unfold changed. destruct (checked_add64 _ _); [|done].
  destruct (semantic_events_for_transition _ _); try done. by intros [= <- _].
Qed.

Lemma fresh_result_recorded r e result now_ms r' u st :
  sn_steps (fr_snapshot r) !! ea_step_index e = Some st ->
  record_fresh_result e result now_ms r = (r', Ok u) -> recorded r' e result.
Proof.
  intros Hi. pose proof (lookup_lt_Some _ _ _ Hi) as Hlt.
  set (record := {| rec_attempt := ea_attempt e; rec_result := result |}).
  assert (Hdone : forall v r1, sn_steps (fr_snapshot r1) = <[ea_step_index e :=
      set_state (push_result st record) v]> (sn_steps (fr_snapshot r)) -> recorded r1 e result).
  { intros v r1 Hr1. eexists. rewrite Hr1, list_lookup_insert_eq by done. split; [done|].
    simpl. set_solver. }
  unfold record_fresh_result. unfold st_bind at 1, st_get at 1.
  destruct (retry_schedule _ _ _ _ _) as [schedule| |]; try done.
  rewrite (bind_lift_ok _ _ _ _ eq_refl).
  destruct (decide (sn_sequence (fr_snapshot r) = u64_max)) as [E|Hn];
    [unfold st_bind, ensure_can_change; rewrite E; done|]. rewrite bind_ensure by done.
  rewrite (bind_modify _ _ _ _ _ Hi). unfold st_bind at 1, put_issued. fold record.
  unfold settle_cancelling, settle_running.
  destruct (sn_cancel_requested (fr_snapshot r)); [unfold st_bind at 1, put_status|].
  - destruct (kind result); (erewrite bind_modify; [|by apply list_lookup_insert_eq]);
      intros Hc%changed_Ok; eapply Hdone; rewrite Hc; simpl; by rewrite list_insert_insert_eq.
  - destruct (kind result) as [|retryable]; [|destruct schedule as [[next nb]|]];
      (erewrite bind_modify; [|by apply list_lookup_insert_eq]); unfold st_bind at 1, put_status.
    + intros Hc%changed_Ok; eapply Hdone; rewrite Hc; simpl; by rewrite list_insert_insert_eq.
    + unfold st_bind at 1, st_get. destruct (effect_attempt _ _ _) as [e'| |]; try done.
      rewrite (bind_lift_ok _ _ _ _ eq_refl).
      intros Hc%changed_Ok; eapply Hdone; rewrite Hc; simpl; by rewrite list_insert_insert_eq.
    + intros Hc%changed_Ok; eapply Hdone; rewrite Hc; simpl; by rewrite list_insert_insert_eq.
Qed.

(** What a successful recording leaves behind. *)
Lemma record_effect_result_Ok r e result now_ms r' u :
  run_inv r -> record_effect_result e result now_ms r = (r', Ok u) ->
  result_validate result "effect_result" = Ok tt /\ validate_effect r e = Ok tt /\
  recorded r' e result.
Proof.
  intros Hr. unfold record_effect_result.
  destruct (result_validate result "effect_result") as [[]| |]; try done.
  rewrite (bind_lift_ok _ _ _ _ eq_refl). unfold st_bind at 1, st_get.
  destruct (validate_effect r e) as [[]| |] eqn:Ev; try done. rewrite (bind_lift_ok _ _ _ _ eq_refl).
  destruct (validate_effect_Ok r Hr e Ev) as (dcl & st & Hat & _).
  rewrite (bind_get_step _ _ _ _ (proj2 Hat)). intros Hrec. split_and!; [done..|].
  destruct (List.find _ _) as [record|] eqn:Ef.
  - case_bool_decide as Hsame; [|done].
    destruct (decision_for_current_state r _) as [dec| |]; try done.
    rewrite (bind_lift_ok _ _ _ _ eq_refl) in Hrec. injection Hrec as <- _.
    apply List.find_some in Ef as [Hin Ha]. apply Z.eqb_eq in Ha.
    exists st. split; [apply Hat|]. apply list_elem_of_In. destruct record; simpl in *. by subst.
  - destruct (negb _); [done|]. eapply fresh_result_recorded; [apply Hat|done].
Qed.

Lemma recorded_later r ks r' e result :
  run_inv r -> run_trace r ks r' -> recorded r e result -> recorded r' e result.
Proof.
  intros Hr Htr (st & Hi & Hin). destruct (run_trace_inv r ks r' Hr Htr) as (_ & _ & Hpath).
  destruct (path_grows _ _ _ _ _ _ (ri_definition _ Hr) (ri_snapshot _ Hr) Hpath Hi)
    as (st' & Hi' & _ & [l Hl]).
  exists st'. split; [done|]. rewrite Hl. set_solver.
Qed.

(** Recording again in a state that has the record. *)
Lemma record_again r e result other now_ms :
  run_inv r -> validate_effect r e = Ok tt -> recorded r e result ->
  result_validate other "effect_result" = Ok tt ->
  if bool_decide (other = result)
  then exists decision, record_effect_result e other now_ms r = (r, Ok (observed r decision))
  else record_effect_result e other now_ms r
       = (r, Err (ConflictingEffectResult (ea_step_id e) (ea_attempt e))).
Proof.
  intros Hr Hv (st & Hi & Hin) Hres.
  assert (E : record_effect_result e other now_ms r =
    (if bool_decide (result = other)
     then let! decision := st_lift (decision_for_current_state r (ea_step_index e)) in observe decision
     else st_err (ConflictingEffectResult (ea_step_id e) (ea_attempt e))) r).
  { unfold record_effect_result. rewrite (bind_lift_ok _ _ _ _ Hres). unfold st_bind at 1, st_get.
    rewrite (bind_lift_ok _ _ _ _ Hv), (bind_get_step _ _ _ _ Hi).
    by rewrite (find_recorded r e result st Hr Hi Hin). }
  rewrite E. destruct (step_at_index r Hr _ st Hi) as [dcl Hat].
  destruct (decide (other = result)) as [->|Hne].
  - rewrite !bool_decide_true by done.
    destruct (current_decision r Hr _ dcl st _ Hat Hin) as [dec Hdec].
    rewrite (bind_lift_ok _ _ _ _ Hdec). by exists dec.
  - by rewrite !bool_decide_false by congruence.
Qed.

(** ** Identities *)

Lemma update_length_prefixed_inj s1 s2 t1 t2 :
  fits64 s1 -> fits64 s2 ->
  update_length_prefixed s1 +:+ t1 = update_length_prefixed s2 +:+ t2 -> s1 = s2 /\ t1 = t2.
Proof. apply prefixed_inj. Qed.

Lemma idempotency_input_inj run1 dg1 id1 key1 run2 dg2 id2 key2 :
  fits64 run1 -> fits64 run2 -> fits64 id1 -> fits64 id2 ->
  fits64 (default id1 key1) -> fits64 (default id2 key2) -> String.length dg1 = String.length dg2 ->
  idempotency_input run1 dg1 id1 key1 = idempotency_input run2 dg2 id2 key2 ->
  run1 = run2 /\ dg1 = dg2 /\ id1 = id2 /\ default id1 key1 = default id2 key2.
Proof.
  unfold idempotency_input. intros F1 F2 F3 F4 F5 F6 Hl E. apply append_inj_l in E.
  apply update_length_prefixed_inj in E as [-> E]; [|done..]. apply append_inj_length in E as [-> E]; [|done].
  apply update_length_prefixed_inj in E as [-> E]; [|done..].
  rewrite <-(append_nil_r (update_length_prefixed (default id2 key1))),
    <-(append_nil_r (update_length_prefixed (default id2 key2))) in E.
  apply update_length_prefixed_inj in E as [-> _]; done.
Qed.

End record.

(** ** Properties *)

(** An approval token stands for one effect. Two steps share an approval
    token only if they are the same step (run, definition digest, step and
    idempotency key), or if two distinct inputs of the identity or of the token
    hash collide under SHA-256. *)
Theorem approval_token_binds_step `{Sha256} run1 dg1 id1 key1 run2 dg2 id2 key2 :
  fits64 run1 -> fits64 run2 -> fits64 id1 -> fits64 id2 ->
  fits64 (default id1 key1) -> fits64 (default id2 key2) -> String.length dg1 = String.length dg2 ->
  approval_token (idempotency_identity run1 dg1 id1 key1)
    = approval_token (idempotency_identity run2 dg2 id2 key2) ->
  (run1 = run2 /\ dg1 = dg2 /\ id1 = id2 /\ default id1 key1 = default id2 key2)
  \/ sha256_collides (idempotency_input run1 dg1 id1 key1) (idempotency_input run2 dg2 id2 key2)
  \/ sha256_collides
       (("pam-flow-step-approval-v1" +:+ nul) +:+ idempotency_identity run1 dg1 id1 key1)
       (("pam-flow-step-approval-v1" +:+ nul) +:+ idempotency_identity run2 dg2 id2 key2).
Proof.
  intros F1 F2 F3 F4 F5 F6 Hl Ht.
  destruct (decide (idempotency_identity run1 dg1 id1 key1 = idempotency_identity run2 dg2 id2 key2))
    as [Ei|Hne].
  - destruct (decide (idempotency_input run1 dg1 id1 key1 = idempotency_input run2 dg2 id2 key2))
      as [E|Hne]; [left; by apply idempotency_input_inj|]. right. left. by split.
  - right. right. split; [|done]. intros E. apply append_inj_l in E. done.
Qed.

(** recording a result is idempotent and final. Once a run has accepted a
    result for an attempt, then at any later point, restarts included,
    recording the same result again succeeds and changes nothing, and
    recording a different one is refused as a conflict and changes nothing. *)
Theorem result_recording_idempotent `{Sha256} run_id d r0 ks r effect result now_ms r1 u ks' r2 :
  typed_definition d -> start run_id d = Ok r0 -> run_trace r0 ks r ->
  record_effect_result effect result now_ms r = (r1, Ok u) -> run_trace r1 ks' r2 ->
  (forall later, exists decision,
     record_effect_result effect result later r2 = (r2, Ok (observed r2 decision))) /\
  (forall later other, other <> result -> result_validate other "effect_result" = Ok tt ->
     record_effect_result effect other later r2
     = (r2, Err (ConflictingEffectResult (ea_step_id effect) (ea_attempt effect)))).
Proof.
  intros Hty Hs Htr Hrec Htr'. destruct (started_trace _ _ _ _ _ Hty Hs Htr) as (_ & Hr & _).
  destruct (record_effect_result_Ok _ _ _ _ _ _ Hr Hrec) as (Hres & Hv & Hrec').
  assert (H1 : run_trace r ([] ++ transition_of (Ok u)) r1).
  { apply (trace_call r [] r (CallResult effect result now_ms) r1 (Ok u)); [constructor|done]. }
  destruct (run_trace_inv _ _ _ Hr H1) as (Hr1 & _). destruct (run_trace_inv _ _ _ Hr1 Htr') as (Hr2 & _).
  pose proof (validate_effect_later _ _ _ _ Hr1 Htr' (validate_effect_later _ _ _ _ Hr H1 Hv)) as Hv2.
  pose proof (recorded_later _ _ _ _ _ Hr1 Htr' Hrec') as Hrec2. split.
  - intros later. pose proof (record_again r2 effect result result later Hr2 Hv2 Hrec2 Hres) as Ha.
    by rewrite bool_decide_true in Ha.
  - intros later other Hne Hother.
    pose proof (record_again r2 effect result other later Hr2 Hv2 Hrec2 Hother) as Ha.
    by rewrite bool_decide_false in Ha.
Qed.

Lemma approval_token_binds_step_witness :
  ("run-1" = "run-1" /\ "d" = "d" /\ "apply" = "apply" /\ "k" = "k")
  \/ @sha256_collides sample_hash (idempotency_input "run-1" "d" "apply" (Some "k"))
       (idempotency_input "run-1" "d" "apply" (Some "k"))
  \/ @sha256_collides sample_hash
       (("pam-flow-step-approval-v1" +:+ nul)
        +:+ @idempotency_identity sample_hash "run-1" "d" "apply" (Some "k"))
       (("pam-flow-step-approval-v1" +:+ nul)
        +:+ @idempotency_identity sample_hash "run-1" "d" "apply" (Some "k")).
Proof.
  apply (@approval_token_binds_step sample_hash "run-1" "d" "apply" (Some "k") "run-1" "d" "apply" (Some "k"));
    try reflexivity; unfold fits64, len, u64_max; simpl; lia.
Defined.

Lemma result_recording_idempotent_witness :
  exists r1, forall later, exists decision,
    record_effect_result (probe_attempt sample_flow 1) sample_success later r1
    = (r1, Ok (observed r1 decision)).
Proof.
  destruct (record_effect_result (probe_attempt sample_flow 1) sample_success 1010
    (sample_at 2)) as [r1 [u|e|]] eqn:E; [|vm_compute in E; discriminate E..].
  exists r1. exact (proj1 (@result_recording_idempotent sample_hash "run-1" sample_flow sample_r0
    (sample_kinds 2) (sample_at 2) (probe_attempt sample_flow 1) sample_success 1010 r1 u [] r1
    sample_typed sample_started (sample_trace 2) E (trace_start r1))).
Defined.
