(* ===== verification/FlowGate.v ===== *)
(** * What the snapshot gate guarantees on its own

    The store replaces a snapshot only when [validate_snapshot_successor] or
    [validate_snapshot_upgrade] accepts the pair. These theorems hold of any
    accepted pair, whoever produced it. *)

From S2P Require Import Prelude FlowDef FlowGraph FlowValid FlowData FlowSnapshot FlowEngine FlowSamples FlowSpec.
From S2P Require Import FlowRefine FlowAccept FlowTrace FlowWitness.

Local Open Scope Z_scope.

Section gate.
Context `{Sha256}.

(** ** Inversion of the checks *)

Lemma require_Ok b u : require_transition b = Ok u -> b = true.
Proof. unfold require_transition. by destruct b. Qed.

Lemma previous_step_Ok s i st : previous_step s i = Ok st -> sn_steps s !! i = Some st.
Proof. unfold previous_step, or_panic. by destruct (_ !! _) as [t|]; [intros [= ->]|]. Qed.

Ltac inv_res H :=
  repeat match type of H with
         | (match ?m with Ok _ => _ | Err _ => _ | Panic => _ end) = Ok _ =>
           let E := fresh "E" in destruct m eqn:E; [|discriminate H|discriminate H];
           first [apply require_Ok in E | apply previous_step_Ok in E | idtac]
         end.

Lemma origin_Ok s id attempt i :
  result_transition_origin s id attempt = Ok i ->
  status_is_terminal (sn_status s) = false /\
  exists st, sn_steps s !! i = Some st /\ in_flight_at (ss_state st) attempt = true.
Proof.
  unfold result_transition_origin. intros Ho. inv_res Ho. injection Ho as <-.
  split; [by apply in_flight_live|]. unfold or_panic in *.
  destruct (sn_steps s !! _) as [st|] eqn:Ei; [|done]. simplify_eq. eauto.
Qed.

(** One step that is not terminal changes. *)
Definition one_step_changes (s X : FlowSnapshot) : Prop :=
  exists i st st', sn_steps s !! i = Some st /\ is_terminal (ss_state st) = false /\
    ss_results st `prefix_of` ss_results st' /\ sn_steps X = <[i := st']> (sn_steps s).

Definition shapes_valid (s : FlowSnapshot) : Prop :=
  forall st, st ∈ sn_steps s -> approval_shape_valid st = true.

Lemma shape_pending st token :
  approval_shape_valid st = true -> ss_approval st = ApprovalPending token ->
  is_terminal (ss_state st) = false.
Proof. unfold approval_shape_valid. intros Hs Ha. rewrite Ha in Hs. by destruct (ss_state st). Qed.

Lemma in_flight_unfinished v a : in_flight_at v a = true -> is_terminal v = false.
Proof. by destruct v. Qed.
Lemma awaiting_unfinished v a : awaiting_at v a = true -> is_terminal v = false.
Proof. by destruct v. Qed.
Lemma pending_unfinished v : is_pending v = true -> is_terminal v = false.
Proof. by destruct v. Qed.

Lemma live_of s v : has_status s v = true -> status_is_terminal v = false ->
  status_is_terminal (sn_status s) = false.
Proof. unfold has_status. by intros ->%bool_decide_eq_true. Qed.

(** The arms that record a result. *)
Lemma result_change s base i st attempt record v w :
  sn_steps base = sn_steps s -> sn_steps s !! i = Some st ->
  in_flight_at (ss_state st) attempt = true ->
  one_step_changes s (set_status (with_step base i (set_state (push_result st record) v)) w).
Proof.
  intros Hb Hi Hf. exists i, st, (set_state (push_result st record) v).
  split_and!; [done|by eapply in_flight_unfinished|by apply prefix_app_r|]. simpl. by rewrite Hb.
Qed.

(** The other arms that change a step. *)
Lemma plain_change s base i st st' w :
  sn_steps base = sn_steps s -> sn_steps s !! i = Some st -> is_terminal (ss_state st) = false ->
  ss_results st' = ss_results st -> one_step_changes s (set_status (with_step base i st') w).
Proof.
  intros Hb Hi Ht Hr. exists i, st, st'. split_and!; [done|done|by rewrite Hr|]. simpl. by rewrite Hb.
Qed.

Ltac gate_arm HX :=
  inv_res HX;
  repeat match goal with E : _ && _ = true |- _ => apply andb_true_iff in E as [? ?] end.

Ltac gate_live := match goal with E : has_status _ _ = true |- _ => by eapply live_of end.

Lemma approval_arms s n k X :
  shapes_valid s ->
  (exists id, k = StepSkipped id /\ expected_skipped s (set_sequence s n) id = Ok X)
  \/ (exists id, k = ApprovalRequested id /\ expected_requested s (set_sequence s n) id = Ok X)
  \/ (exists id, k = ApprovalGranted id /\ expected_granted s (set_sequence s n) id = Ok X)
  \/ (exists id, k = ApprovalDenied id /\ expected_denied s (set_sequence s n) id = Ok X) ->
  status_is_terminal (sn_status s) = false /\ one_step_changes s X.
Proof.
  intros Hshape [(id & _ & HX)|[(id & _ & HX)|[(id & _ & HX)|(id & _ & HX)]]].
  - unfold expected_skipped in HX. gate_arm HX. injection HX as <-. split; [gate_live|].
    eapply (plain_change s (set_sequence s n) _ _ _ (sn_status s)); [done..|by apply pending_unfinished|done].
  - unfold expected_requested in HX. gate_arm HX. injection HX as <-. split; [gate_live|].
    eapply plain_change; [done..|by apply pending_unfinished|done].
  - unfold expected_granted in HX. gate_arm HX. destruct (ss_approval _) eqn:Ea in HX; try discriminate HX.
    injection HX as <-. split; [gate_live|].
    eapply plain_change; [done|done| |done]. eapply shape_pending; [|done]. apply Hshape.
    by eapply list_elem_of_lookup_2.
  - unfold expected_denied in HX. gate_arm HX. destruct (ss_approval _) eqn:Ea in HX; try discriminate HX.
    injection HX as <-. split; [gate_live|].
    eapply plain_change; [done|done| |done]. eapply shape_pending; [|done]. apply Hshape.
    by eapply list_elem_of_lookup_2.
Qed.

Lemma evaluation_arm s n id attempt X :
  expected_evaluation s (set_sequence s n) id attempt = Ok X ->
  status_is_terminal (sn_status s) = false /\ one_step_changes s X.
Proof.
  unfold expected_evaluation. intros HX. gate_arm HX. injection HX as <-.
  destruct (ss_state _) eqn:Es in E2; try discriminate E2; gate_arm E2;
    repeat match goal with E : _ && _ = true |- _ => apply andb_true_iff in E as [? ?] end;
    (split; [gate_live|]); eapply plain_change; (done || by rewrite Es).
Qed.

Lemma started_arm s cand n id attempt replay X :
  expected_started s cand (set_sequence s n) id attempt replay = Ok X ->
  status_is_terminal (sn_status s) = false /\ (one_step_changes s X \/ sn_steps X = sn_steps s).
Proof.
  unfold expected_started. intros HX. gate_arm HX. destruct replay.
  - gate_arm HX. injection HX as <-. split; [gate_live|by right].
  - gate_arm HX. destruct (ss_state _) eqn:Es in HX; try discriminate HX. gate_arm HX.
    injection HX as <-. split; [gate_live|]. left.
    eapply plain_change; [done|done|by eapply awaiting_unfinished|done].
Qed.

Lemma unauthorized_arm s n id attempt replay X :
  expected_unauthorized s (set_sequence s n) id attempt replay = Ok X ->
  status_is_terminal (sn_status s) = false /\ one_step_changes s X.
Proof.
  unfold expected_unauthorized. intros HX. gate_arm HX. injection HX as <-.
  destruct replay; repeat match goal with E : _ && _ = true |- _ => apply andb_true_iff in E as [? ?] end;
    (split; [gate_live|]); eapply plain_change;
    first [done|by eapply in_flight_unfinished|by eapply awaiting_unfinished].
Qed.

Lemma result_arms s cand n k X :
  (exists id a, k = EffectSucceeded id a /\ expected_succeeded s cand (set_sequence s n) id a = Ok X)
  \/ (exists id a t, k = RetryScheduled id a t /\ expected_retry s cand (set_sequence s n) id a t = Ok X)
  \/ (exists id a, k = RetryExhausted id a /\ expected_exhausted s cand (set_sequence s n) id a = Ok X)
  \/ (exists id a, k = EffectFailed id a /\ expected_failed s cand (set_sequence s n) id a = Ok X) ->
  status_is_terminal (sn_status s) = false /\ one_step_changes s X.
Proof.
  intros [(id & a & _ & HX)|[(id & a & t & _ & HX)|[(id & a & _ & HX)|(id & a & _ & HX)]]];
    [unfold expected_succeeded in HX|unfold expected_retry in HX|unfold expected_exhausted in HX
    |unfold expected_failed in HX]; gate_arm HX; injection HX as <-;
    match goal with E : result_transition_origin _ _ _ = Ok _ |- _ =>
      apply origin_Ok in E as (Hl & st & Hi & Hf) end;
    (split; [done|]); simplify_eq; by eapply result_change.
Qed.

Lemma reconciliation_arms s cand n k X :
  (exists id a, k = ReconciledNotApplied id a /\ expected_not_applied s (set_sequence s n) id a = Ok X)
  \/ (exists id a, k = ReconciliationUnknown id a
        /\ expected_unknown s cand (set_sequence s n) id a = Ok X) ->
  status_is_terminal (sn_status s) = false /\ one_step_changes s X.
Proof.
  intros [(id & a & _ & HX)|(id & a & _ & HX)];
    [unfold expected_not_applied in HX|unfold expected_unknown in HX]; gate_arm HX; injection HX as <-;
    (split; [first [gate_live|by apply in_flight_live]|]);
    eapply plain_change; (done || by eapply in_flight_unfinished).
Qed.

Lemma expected_changes s cand n k X :
  shapes_valid s -> expected_successor s cand (set_sequence s n) k = Ok X ->
  status_is_terminal (sn_status s) = false /\
  (one_step_changes s X \/ sn_steps X = sn_steps s \/ sn_steps X = cancel_step <$> sn_steps s).
Proof.
  intros Hshape. assert (Hone : status_is_terminal (sn_status s) = false /\ one_step_changes s X ->
    status_is_terminal (sn_status s) = false /\
    (one_step_changes s X \/ sn_steps X = sn_steps s \/ sn_steps X = cancel_step <$> sn_steps s)) by tauto.
  destruct k; cbn [expected_successor]; intros HX.
  - apply Hone; eapply (approval_arms s n); [done|]; eauto 10.
  - apply Hone; eapply (approval_arms s n); [done|]; eauto 10.
  - apply Hone; eapply (approval_arms s n); [done|]; eauto 10.
  - apply Hone; eapply (approval_arms s n); [done|]; eauto 10.
  - by eapply Hone, evaluation_arm.
  - by eapply Hone, unauthorized_arm.
  - destruct (started_arm _ _ _ _ _ _ _ HX) as [? [?|?]]; auto.
  - apply Hone; eapply (result_arms s cand n); eauto 10.
  - apply Hone; eapply (result_arms s cand n); eauto 10.
  - apply Hone; eapply (result_arms s cand n); eauto 10.
  - apply Hone; eapply (result_arms s cand n); eauto 10.
  - apply Hone; eapply (reconciliation_arms s cand n); eauto 10.
  - apply Hone; eapply (reconciliation_arms s cand n); eauto 10.
  - unfold expected_cancelling in HX. gate_arm HX. injection HX as <-. split; [gate_live|auto].
  - unfold expected_completed in HX. destruct outcome; gate_arm HX; try discriminate HX;
      injection HX as <-; (split; [first [gate_live|by apply negb_true_iff]|auto]).
Qed.

(** ** What standalone validation has checked *)

Lemma standalone_loop_shapes l n acc acc' :
  fold_res standalone_step (enumerate_from n l) acc = Ok acc' ->
  forall st, st ∈ l -> approval_shape_valid st = true.
Proof.
  revert n acc. induction l as [|x l IH]; intros n [ids active] Hl st Hin; [by apply not_elem_of_nil in Hin|].
  cbn [fold_res enumerate_from] in Hl.
  destruct (standalone_step (n, x) (ids, active)) as [acc1| |] eqn:Ex; try discriminate.
  apply elem_of_cons in Hin as [->|Hin]; [|by eapply IH].
  unfold standalone_step in Ex. destruct (_ || _ || _); [discriminate|].
  destruct (approval_shape_valid x); [done|discriminate].
Qed.

Lemma standalone_shapes s : validate_standalone_snapshot s = Ok tt -> shapes_valid s.
Proof.
  unfold validate_standalone_snapshot. destruct (negb _); [discriminate|]. intros Hv.
  destruct (validate_engine_identity _ _ _) as [[]| |]; try discriminate.
  destruct (_ || _); [discriminate|].
  destruct (fold_res _ _ _) as [acc| |] eqn:E; try discriminate.
  intros st Hin. by eapply standalone_loop_shapes.
Qed.

Lemma settled_shape st :
  approval_shape_valid st = true -> is_terminal (ss_state st) = true -> cancel_step st = st.
Proof.
  unfold approval_shape_valid, cancel_step. intros Hs Ht. rewrite Ht.
  destruct (ss_approval st); try done. by destruct (ss_state st).
Qed.

Lemma changes_grow s X i st :
  shapes_valid s ->
  one_step_changes s X \/ sn_steps X = sn_steps s \/ sn_steps X = cancel_step <$> sn_steps s ->
  sn_steps s !! i = Some st -> exists st', sn_steps X !! i = Some st' /\ step_grows st st'.
Proof.
  intros Hsh [(j & a & b & Ha & Hn & Hp & ->)|[->| ->]] Hi.
  - destruct (decide (j = i)) as [->|Hne].
    + simplify_eq. exists b. rewrite list_lookup_insert_eq by by eapply lookup_lt_Some.
      split; [done|]. split; [congruence|done].
    + exists st. rewrite list_lookup_insert_ne by done. by split.
  - exists st. by split.
  - exists (cancel_step st). rewrite list_lookup_fmap, Hi. split; [done|]. split.
    + apply settled_shape. apply Hsh. by eapply list_elem_of_lookup_2.
    + unfold cancel_step. destruct (is_terminal (ss_state st)); simpl; by destruct (ss_approval st).
Qed.

Lemma identity_Ok s s' :
  validate_successor_identity s s' = Ok tt ->
  sn_version s' = sn_version s /\ sn_run_id s' = sn_run_id s /\ sn_digest s' = sn_digest s.
Proof.
  unfold validate_successor_identity. destruct (_ || _) eqn:E; [discriminate|]. intros _.
  rewrite !orb_false_iff, !negb_false_iff, !String.eqb_eq, Z.eqb_eq in E. naive_solver.
Qed.

End gate.

(** ** Properties *)

(** C9: the store's gate keeps the history of a run whoever writes it. When
    [validate_snapshot_successor] accepts a snapshot and a transition after a
    stored snapshot, the run and its definition are the same, the sequence
    number is the next one and is the transition's, the stored snapshot was not
    terminal, the transition carries exactly the semantic events of the new
    snapshot, every terminal step is unchanged and every recorded result is
    still there. *)
Theorem successor_gate_sound `{Sha256} s s' t :
  validate_snapshot_successor (Some s) s' (Some t) = Ok tt ->
  sn_run_id s' = sn_run_id s /\ sn_digest s' = sn_digest s /\ sn_version s' = sn_version s /\
  sn_sequence s' = sn_sequence s + 1 /\ tr_sequence t = sn_sequence s + 1 /\
  status_is_terminal (sn_status s) = false /\
  semantic_events_for_transition s' (tr_kind t) = Ok (tr_semantic_events t) /\
  (forall i st, sn_steps s !! i = Some st -> exists st', sn_steps s' !! i = Some st' /\
     (is_terminal (ss_state st) = true -> st' = st) /\ ss_results st `prefix_of` ss_results st').
Proof.
  unfold validate_snapshot_successor. intros Hv.
  destruct (validate_standalone_snapshot s') as [[]| |]; try discriminate.
  destruct (validate_standalone_snapshot s) as [[]| |] eqn:Es; try discriminate.
  destruct (validate_successor_identity s s') as [[]| |] eqn:Eid; try discriminate.
  unfold checked_add64 in Hv. destruct (_ <=? u64_max); [simpl in Hv|discriminate].
  destruct (negb _ || negb _) eqn:Eseq; [discriminate|].
  apply orb_false_iff in Eseq as [E1%negb_false_iff E2%negb_false_iff]. apply Z.eqb_eq in E1, E2.
  unfold validate_transition_successor in Hv.
  destruct (expected_successor _ _ _ _) as [X| |] eqn:EX; try discriminate.
  destruct (semantic_events_for_transition X _) as [events| |] eqn:Eev; try discriminate.
  destruct (require_transition _) as [u| |] eqn:Er; try discriminate. apply require_Ok in Er.
  apply bool_decide_eq_true in Er. case_bool_decide as Hsame; [subst X|discriminate].
  apply standalone_shapes in Es. destruct (identity_Ok _ _ Eid) as (Hver & Hrun & Hdig).
  destruct (expected_changes _ _ _ _ _ Es EX) as [Hlive Hch].
  split_and!; try done; [by rewrite Er|]. intros i st Hi. by eapply changes_grow.
Qed.

(** An accepted upgrade of a version-one snapshot changes nothing of the
    run: identity, status, cancellation, sequence and the state, approval,
    results and report of every step are the same; only the version and the
    semantic roles differ, and no step claims to be a verification. *)
Theorem upgrade_gate_sound `{Sha256} s s' :
  validate_snapshot_upgrade s s' = Ok tt ->
  sn_version s = 1 /\ sn_version s' = 2 /\
  sn_run_id s' = sn_run_id s /\ sn_digest s' = sn_digest s /\ sn_status s' = sn_status s /\
  sn_cancel_requested s' = sn_cancel_requested s /\ sn_sequence s' = sn_sequence s /\
  length (sn_steps s') = length (sn_steps s) /\
  (forall i st', sn_steps s' !! i = Some st' -> ss_semantic_role st' <> Verify /\
     exists st, sn_steps s !! i = Some st /\ st' = set_role st (ss_semantic_role st')).
Proof.
  unfold validate_snapshot_upgrade. destruct (negb _ || negb _) eqn:Ev; [discriminate|].
  apply orb_false_iff in Ev as [E1%negb_false_iff E2%negb_false_iff]. apply Z.eqb_eq in E1, E2.
  destruct (negb _ || _) eqn:El; [discriminate|].
  apply orb_false_iff in El as [El%negb_false_iff Er]. apply Nat.eqb_eq in El.
  destruct (validate_standalone_snapshot s') as [[]| |]; try discriminate.
  case_bool_decide as Hs; [|discriminate]. intros _.
  assert (Hsteps : sn_steps s' = copy_roles (sn_steps s) (ss_semantic_role <$> sn_steps s')).
  { rewrite <-Hs at 1. done. }
  split_and!; try (by rewrite <-Hs); try done.
  intros i st' Hi. pose proof (existsb_false_lookup _ _ i st' Er Hi) as Hrole. simpl in Hrole.
  apply bool_decide_eq_false in Hrole. split; [done|].
  rewrite Hsteps in Hi at 1. unfold copy_roles in Hi. rewrite lookup_zip_with in Hi.
  destruct (sn_steps s !! i) as [st|]; [|done]. simpl in Hi.
  destruct ((ss_semantic_role <$> sn_steps s') !! i) as [role|]; [|done]. simpl in Hi.
  injection Hi as <-. exists st. by split.
Qed.

Lemma successor_gate_sound_witness :
  sn_sequence (fr_snapshot (sample_at 2)) = sn_sequence (fr_snapshot (sample_at 1)) + 1.
Proof.
  destruct (@engine_call sample_hash (CallPrepare (probe_attempt sample_flow 1) 1000) (sample_at 1))
    as [r1 [u|e|]] eqn:E; [|vm_compute in E; discriminate E..].
  destruct (up_transition u) as [t|] eqn:Et.
  2:{ vm_compute in E. injection E as _ <-. discriminate Et. }
  enough (Hv : @validate_snapshot_successor sample_hash (Some (fr_snapshot (sample_at 1)))
            (fr_snapshot (sample_at 2)) (Some t) = Ok tt).
  { destruct (@successor_gate_sound sample_hash _ _ _ Hv) as (_ & _ & _ & Hseq & _). exact Hseq. }
  vm_compute in E. injection E as _ <-. vm_compute in Et. injection Et as <-.
  vm_compute. reflexivity.
Defined.

(** A version-one snapshot of the probe, whose role was not yet stored. *)
Definition legacy_snapshot : FlowSnapshot :=
  let s := fr_snapshot (sample_at 3) in
  set_version (set_steps s ((fun st => set_role st Observe) <$> sn_steps s)) 1.

Definition upgraded_snapshot : FlowSnapshot := set_version legacy_snapshot 2.

Lemma upgrade_gate_sound_witness : sn_status upgraded_snapshot = sn_status legacy_snapshot.
Proof.
  assert (Hv : @validate_snapshot_upgrade sample_hash legacy_snapshot upgraded_snapshot = Ok tt)
    by (vm_compute; reflexivity).
  destruct (@upgrade_gate_sound sample_hash _ _ Hv) as (_ & _ & _ & _ & Hs & _). exact Hs.
Defined.

(** ** Where the engine and its validators disagree

    Two runs, evaluated on concrete flows, in which the engine produces a value
    that the crate's own validators reject. *)

#[local] Existing Instance sample_hash.

(** The update of a call, if it returned one. *)
Definition update_of (out : FlowRun * eres EngineUpdate) : option EngineUpdate :=
  match out.2 with Ok u => Some u | _ => None end.

(** The probe fails once, is scheduled for retry, and the second attempt is
    refused authorization. *)
Definition denied_retry : FlowRun :=
  engine_calls
    [CallNext 1000; CallPrepare (probe_attempt sample_flow 1) 1000;
     CallResult (probe_attempt sample_flow 1) (sample_failure true) 1010;
     CallNext 2000; CallDeny (probe_attempt sample_flow 2)] (sample_start sample_flow).

(** a step that requires approval and whose condition turns out false is
    skipped while its approval was never requested. The definition is valid and
    the engine publishes the skip, but the store's successor check rejects the
    published snapshot and the snapshot cannot be resumed either, so the run
    cannot make any durable progress. *)
Theorem conditional_approval_skip_rejected :
  let r := probe_succeeded guarded_flow in
  definition_validate guarded_flow = Ok tt /\
  exists u t, update_of (next_decision 1020 r) = Some u /\
    up_transition u = Some t /\ tr_kind t = StepSkipped "apply" /\ up_decision u = Continue /\
    validate_snapshot_successor (Some (fr_snapshot r)) (up_snapshot u) (Some t)
      = Err SnapshotShapeMismatch /\
    resume "run-1" guarded_flow (up_snapshot u) = Err SnapshotShapeMismatch.
Proof.
  intros r. split; [vm_compute; reflexivity|].
  destruct (update_of (next_decision 1020 r)) as [u|] eqn:Eu; [|vm_compute in Eu; discriminate Eu].
  destruct (up_transition u) as [t|] eqn:Et.
  2:{ vm_compute in Eu. injection Eu as <-. discriminate Et. }
  exists u, t. vm_compute in Eu. injection Eu as <-. vm_compute in Et. injection Et as <-.
  split_and!; vm_compute; reflexivity.
Qed.

(** a step blocked after an earlier failed attempt ends the run with a
    result that its own deserializer rejects: the step is reported as blocked
    with the last failed result attached, and a blocked step must have none. *)
Theorem denied_retry_result_rejected :
  sn_status (fr_snapshot denied_retry) = BlockedStatus /\
  let result := build_result denied_retry in
  run_result denied_retry = Some result /\
  run_result_deserialize (rr_run_id result) (rr_digest result) (rr_outcome result)
    (Some (rr_report result)) (rr_steps result)
  = Err (InvalidValue "flow_result.steps[0]" "terminal kind does not match its report").
Proof. split; [vm_compute; reflexivity|]. intros result. split; vm_compute; reflexivity. Qed.
