(* ===== verification/Paths.v ===== *)
(** * Paths

    The parts of [std::path] the daemon and the contract use, on Unix: the
    components of a path, joining, and the comparisons that go component by
    component. *)

From S2P Require Import Prelude Core.

Local Open Scope Z_scope.

(** [std::path::Component]; a Unix path has no prefix. *)
Inductive Component : Type :=
| RootDir | CurDir | ParentDir
| Normal (name : string).

#[export] Instance Component_eq_dec : EqDecision Component.
Proof. solve_decision. Defined.

Definition has_root (p : string) : bool :=
  match p with String a _ => is_slash a | EmptyString => false end.

(** [Path::is_absolute]. *)
Definition is_absolute (p : string) : bool := has_root p.

(** The component of a segment between separators; empty segments and [.]
    have none. *)
Definition segment_component (s : string) : option Component :=
  if str_is_empty s || String.eqb s "." then None
  else if String.eqb s ".." then Some ParentDir
  else Some (Normal s).

(** [Path::components]: a leading [.] of a relative path is kept. *)
Definition components (p : string) : list Component :=
  if has_root p then RootDir :: omap segment_component (split_on is_slash p)
  else match split_on is_slash p with
       | s :: rest => if String.eqb s "." then CurDir :: omap segment_component rest
                      else omap segment_component (s :: rest)
       | [] => []
       end.

(** [Component::as_os_str]. *)
Definition component_str (c : Component) : string :=
  match c with
  | RootDir => "/" | CurDir => "." | ParentDir => ".." | Normal s => s
  end.

Fixpoint ends_in_slash (p : string) : bool :=
  match p with
  | EmptyString => false
  | String a EmptyString => is_slash a
  | String _ p => ends_in_slash p
  end.

(** [PathBuf::push] and [Path::join]. *)
Definition path_join (p q : string) : string :=
  if is_absolute q then q
  else if str_is_empty p || ends_in_slash p then p +:+ q
  else p +:+ "/" +:+ q.

(** [components().collect::<PathBuf>()]. *)
Definition collect_path (l : list Component) : string :=
  foldl (fun p c => path_join p (component_str c)) EmptyString l.

(** [Path::starts_with] and [Path] equality. *)
Definition path_starts_with (p base : string) : bool :=
  bool_decide (take (length (components base)) (components p) = components base).
Definition path_eqb (p q : string) : bool := bool_decide (components p = components q).

Definition is_normal (c : Component) : bool :=
  match c with Normal _ => true | _ => false end.

(** ** Canonical absolute paths *)

(** A name a canonical path can hold. *)
Definition plain_name (s : string) : Prop :=
  s <> EmptyString /\ s <> "." /\ s <> ".." /\ all_bytes (fun a => negb (is_slash a)) s = true.

Lemma segment_component_normal s :
  plain_name s -> segment_component s = Some (Normal s).
Proof.
  intros (H1 & H2 & H3 & _). unfold segment_component.
  destruct (String.eqb_spec s "."), (String.eqb_spec s ".."); try done. by destruct s.
Qed.

Lemma omap_segments l : Forall plain_name l -> omap segment_component l = Normal <$> l.
Proof.
  induction 1 as [|s l Hs _ IH]; csimpl; [done|]. by rewrite (segment_component_normal s Hs), IH.
Qed.

Lemma ends_in_slash_app p s : s <> EmptyString -> ends_in_slash (p +:+ s) = ends_in_slash s.
Proof.
  intros Hs. induction p as [|a p IH]; [done|]. cbn [String.append].
  destruct (p +:+ s) eqn:E; [|simpl; by rewrite <-IH].
  destruct p, s; try done; by simplify_eq.
Qed.

Lemma plain_name_shape s : plain_name s -> has_root s = false /\ ends_in_slash s = false.
Proof.
  intros (Hne & _ & _ & Hall). unfold all_bytes, bytes in Hall. split.
  - destruct s as [|a s]; [done|]. simpl in Hall. apply andb_true_iff in Hall as [Ha _].
    by apply negb_true_iff in Ha.
  - clear -Hall. induction s as [|a s IH]; [done|]. simpl in *.
    apply andb_true_iff in Hall as [Ha Hs]. destruct s; [by apply negb_true_iff in Ha|auto].
Qed.

(** Collecting the components of an absolute path joins its names. *)
Lemma collect_names p l :
  p <> EmptyString -> Forall plain_name l ->
  foldl (fun p c => path_join p (component_str c)) p (Normal <$> l)
  = if bool_decide (l = []) then p
    else p +:+ (if ends_in_slash p then EmptyString else "/") +:+ str_join "/" l.
Proof.
  intros Hp Hl. revert p Hp. induction Hl as [|s l Hs Hl IH]; intros p Hp; csimpl; [done|].
  destruct (plain_name_shape s Hs) as [Hr He]. unfold path_join at 2, is_absolute. cbn [component_str].
  rewrite Hr. assert (str_is_empty p = false) as -> by by destruct p. cbn [orb].
  assert (Hs0 : s <> EmptyString) by apply Hs.
  destruct (ends_in_slash p) eqn:Ep; rewrite IH.
  - rewrite ends_in_slash_app, He by done. case_bool_decide; [by subst|].
    destruct l; [done|]. cbn [str_join String.append]. by rewrite append_assoc.
  - by destruct p.
  - rewrite ends_in_slash_app by by destruct s. change ("/" +:+ s) with (String "/" s).
    replace (ends_in_slash (String "/" s)) with false by by destruct s.
    case_bool_decide; [by subst|]. destruct l; [done|].
    cbn [str_join]. rewrite !append_assoc. done.
  - by destruct p.
Qed.

(** The canonical absolute paths: [/], or [/] and names separated by single
    slashes, none of them empty, [.] or [..]. *)
Definition canonical_path (p : string) : Prop :=
  exists names, Forall plain_name names /\ p = "/" +:+ str_join "/" names.

Lemma split_plain p : Forall (fun s => all_bytes (fun a => negb (is_slash a)) s = true) (split_on is_slash p).
Proof.
  induction p as [|a p IH]; [by repeat constructor|]. simpl. destruct (is_slash a) eqn:Ea.
  - by constructor.
  - destruct (split_on is_slash p) as [|s l]; [constructor; [unfold all_bytes, bytes; simpl; by rewrite Ea|done]|].
    inversion IH; subst. constructor; [|done]. unfold all_bytes, bytes in *. simpl. by rewrite Ea.
Qed.

Lemma normal_names l :
  Forall (fun s => all_bytes (fun a => negb (is_slash a)) s = true) l ->
  forallb is_normal (omap segment_component l) = true ->
  exists names, omap segment_component l = Normal <$> names /\ Forall plain_name names.
Proof.
  induction 1 as [|s l Hs _ IH]; csimpl; [by exists []|].
  destruct (segment_component s) as [c|] eqn:Ec; [|done]. cbn [forallb].
  rewrite andb_true_iff. intros [Hc Hl]. destruct (IH Hl) as (names & -> & Hn).
  unfold segment_component in Ec. destruct (_ || _) eqn:Eo in Ec; [done|].
  apply orb_false_iff in Eo as [H1 H2]. apply String.eqb_neq in H2.
  destruct (String.eqb_spec s ".."); simplify_eq.
  exists (s :: names). split; [done|]. constructor; [|done]. repeat split; try done. by destruct s.
Qed.

Lemma collect_absolute names :
  Forall plain_name names -> collect_path (RootDir :: (Normal <$> names)) = "/" +:+ str_join "/" names.
Proof.
  intros Hn. unfold collect_path. cbn [foldl component_str]. change (path_join "" "/") with "/".
  rewrite collect_names by done. case_bool_decide; [by subst|done].
Qed.

Lemma components_canonical names :
  Forall plain_name names -> components ("/" +:+ str_join "/" names) = RootDir :: (Normal <$> names).
Proof.
  intros Hn. unfold components. cbn [has_root String.append]. f_equal. cbn [split_on]. csimpl.
  change (is_slash "/") with true. cbn iota. csimpl. destruct names as [|s l]; [done|].
  rewrite split_on_join; [by apply omap_segments|done|done|].
  eapply Forall_impl; [exact Hn|]. by intros x (_ & _ & _ & ?).
Qed.
