(* ===== verification/ModelData.v ===== *)
(** * Models: identities, descriptors and the memory estimate

    [pam_model/src/error.rs], [model.rs], [path.rs] and [memory.rs]: the error
    type, model keys, licence snapshots and consent, the immutable descriptor
    of an artifact, where it was obtained, what a GGUF header says of it, and
    whether a host can hold it. The [url] crate is the class [UrlLib]. *)

From S2P Require Import Prelude Core Paths.

Local Open Scope Z_scope.

(** ** Errors ([error.rs]) *)

(** The kinds of [std::io::Error] the crate tells apart. *)
Inductive IoKind : Type := IoNotFound | IoAlreadyExists | IoOther.

Inductive ModelError : Type :=
| InvalidModelIdentity | InvalidFilename | InvalidPath | UnsafePath | NotRegularFile
| InvalidGguf | UnsupportedGgufVersion (version : Z)
| InvalidLicense | LicenseNotAccepted | InvalidSource | InsecureSource
| RedirectNotAllowed | TooManyRedirects | NetworkError | UnexpectedStatus (status : Z)
| InvalidContentEncoding | InvalidContentLength | InvalidContentRange | RangeIgnored
| TransferInterrupted | SizeMismatch (expected actual : Z) | DigestMismatch
| ExistingDestination | CheckpointConflict | ConcurrentAcquisition
| IoError (kind : IoKind).

#[export] Instance IoKind_eq_dec : EqDecision IoKind.
Proof. solve_decision. Defined.
#[export] Instance ModelError_eq_dec : EqDecision ModelError.
Proof. solve_decision. Defined.

(** ** The [url] crate *)

Inductive UrlHost : Type :=
| HostIpv4 (a b c d : Z)
| HostIpv6 (segments : list Z)
| HostDomain (domain : string).

Class UrlLib := {
  Url : Type;
  url_parse : string -> option Url;
  url_join : Url -> string -> option Url;
  url_to_string : Url -> string;
  url_scheme : Url -> string;
  url_cannot_be_a_base : Url -> bool;
  url_has_authority : Url -> bool;
  url_host : Url -> option UrlHost;
  url_host_str : Url -> option string;
  url_port_or_known_default : Url -> option Z;
  url_username : Url -> string;
  url_password : Url -> option string;
  url_query : Url -> option string;
  url_fragment : Url -> option string;
  url_clear_query : Url -> Url;
  url_clear_fragment : Url -> Url
}.

Definition port_is (port : option Z) (n : Z) : bool :=
  match port with Some p => p =? n | None => false end.
Definition present {A} (o : option A) : bool := match o with Some _ => true | None => false end.
Definition absent {A} (o : option A) : bool := negb (present o).

(** ** Identities ([model.rs]) *)

Definition MAX_SEGMENT_BYTES : Z := 128.
Definition MAX_LICENSE_ID_BYTES : Z := 128.
Definition MAX_LICENSE_URL_BYTES : Z := 2048.
Definition MAX_SOURCE_URL_BYTES : Z := 4096.

Definition valid_segment (value : string) : bool :=
  negb (str_is_empty value)
  && (len value <=? MAX_SEGMENT_BYTES)
  && negb (String.eqb value ".")
  && negb (String.eqb value "..")
  && all_bytes (fun byte => is_ascii_alphanumeric byte || one_of "._-" byte) value.

Record ModelKey := { key_vendor : string; key_name : string }.

Definition model_key_new (vendor name : string) : res ModelError ModelKey :=
  if negb (valid_segment vendor) || negb (valid_segment name) then Err InvalidModelIdentity
  else Ok {| key_vendor := vendor; key_name := name |}.

Definition model_key_id (k : ModelKey) : string := key_vendor k +:+ "/" +:+ key_name k.

(** Both URL checks of the file are the same conjunction. *)
Definition plain_https_url `{UrlLib} (value : string) : bool :=
  match url_parse value with
  | None => false
  | Some url =>
    String.eqb (url_to_string url) value
    && String.eqb (url_scheme url) "https"
    && negb (url_cannot_be_a_base url)
    && url_has_authority url
    && present (url_host_str url)
    && port_is (url_port_or_known_default url) 443
    && str_is_empty (url_username url)
    && absent (url_password url)
    && absent (url_query url)
    && absent (url_fragment url)
  end.

Definition safe_https_url `{UrlLib} (value : string) : bool := plain_https_url value.
Definition safe_canonical_source_url `{UrlLib} (value : string) : bool :=
  (len value <=? MAX_SOURCE_URL_BYTES) && plain_https_url value.

Record LicenseSnapshot := {
  lic_identifier : string;
  lic_notice_url : string;
  lic_notice_digest : ContentDigest
}.

Definition license_new `{UrlLib} (identifier notice_url : string) (notice_digest : ContentDigest)
  : res ModelError LicenseSnapshot :=
  if str_is_empty identifier
     || (len identifier >? MAX_LICENSE_ID_BYTES)
     || existsb is_control (chars identifier)
     || (len notice_url >? MAX_LICENSE_URL_BYTES)
     || negb (safe_https_url notice_url)
  then Err InvalidLicense
  else Ok {| lic_identifier := identifier; lic_notice_url := notice_url;
             lic_notice_digest := notice_digest |}.

(** [path.rs]: the last segment with a [.gguf] extension. *)
Fixpoint rsplit_dot (s : string) : option (string * string) :=
  match s with
  | EmptyString => None
  | String a s' =>
    match rsplit_dot s' with
    | Some (stem, extension) => Some (String a stem, extension)
    | None => if Ascii.eqb a "." then Some (EmptyString, s') else None
    end
  end.

Definition eq_ignore_ascii_case (a b : string) : bool :=
  String.eqb (to_ascii_lowercase a) (to_ascii_lowercase b).

Definition validate_model_filename (filename : string) : res ModelError unit :=
  if negb (valid_segment filename)
     || negb (length (components filename) =? 1)%nat
     || negb (match rsplit_dot filename with
              | Some (stem, extension) =>
                negb (str_is_empty stem) && eq_ignore_ascii_case extension "gguf"
              | None => false
              end)
  then Err InvalidFilename
  else Ok tt.

(** Paths are Unicode strings here, so [to_str] never fails. *)
Definition validate_absolute_unicode_path (path : string) : res ModelError unit :=
  if negb (is_absolute path)
     || existsb (fun c => match c with ParentDir => true | _ => false end) (components path)
  then Err InvalidPath
  else Ok tt.

Definition model_path_under (root : string) (key : ModelKey) (filename : string)
  : res ModelError string :=
  let? _ := validate_absolute_unicode_path root in
  let? _ := validate_model_filename filename in
  Ok (path_join (path_join root (key_vendor key)) filename).

Definition default_models_dir (home : string) : string := path_join home "llm".

Definition default_model_path (home : string) (key : ModelKey) (filename : string)
  : res ModelError string :=
  model_path_under (default_models_dir home) key filename.

Record ModelDescriptor := {
  d_key : ModelKey;
  d_filename : string;
  d_expected_digest : ContentDigest;
  d_expected_size_bytes : Z;
  d_license : LicenseSnapshot
}.

#[export] Instance ModelKey_eq_dec : EqDecision ModelKey.
Proof. solve_decision. Defined.
#[export] Instance LicenseSnapshot_eq_dec : EqDecision LicenseSnapshot.
Proof. solve_decision. Defined.
#[export] Instance ModelDescriptor_eq_dec : EqDecision ModelDescriptor.
Proof. solve_decision. Defined.

Definition MAX_SIZE_BYTES : Z := 1099511627776.
Definition MIN_SIZE_BYTES : Z := 24.

Definition descriptor_validate (d : ModelDescriptor) : res ModelError unit :=
  let? _ := validate_model_filename (d_filename d) in
  if negb ((MIN_SIZE_BYTES <=? d_expected_size_bytes d) && (d_expected_size_bytes d <=? MAX_SIZE_BYTES))
  then Err InvalidContentLength
  else Ok tt.

Definition descriptor_new (key : ModelKey) (filename : string) (expected_digest : ContentDigest)
    (expected_size_bytes : Z) (license : LicenseSnapshot) : res ModelError ModelDescriptor :=
  let descriptor := {| d_key := key; d_filename := filename; d_expected_digest := expected_digest;
                       d_expected_size_bytes := expected_size_bytes; d_license := license |} in
  let? _ := descriptor_validate descriptor in
  Ok descriptor.

Record LicenseConsent := { consent_descriptor : ModelDescriptor }.

Definition consent_accept (d : ModelDescriptor) : LicenseConsent := {| consent_descriptor := d |}.

Definition consent_verify (c : LicenseConsent) (d : ModelDescriptor) : res ModelError unit :=
  let? _ := descriptor_validate d in
  if bool_decide (consent_descriptor c = d) then Ok tt else Err LicenseNotAccepted.

Inductive ModelSource : Type :=
| SourceLocal
| SourceHttps (canonical_url : string).

Definition source_https `{UrlLib} (canonical_url : string) : res ModelError ModelSource :=
  if negb (safe_canonical_source_url canonical_url) then Err InvalidSource
  else Ok (SourceHttps canonical_url).

Definition source_kind (s : ModelSource) : string :=
  match s with SourceLocal => "local" | SourceHttps _ => "https" end.

Definition source_identity (s : ModelSource) : option string :=
  match s with SourceLocal => None | SourceHttps canonical_url => Some canonical_url end.

Record GgufMetadata := {
  gm_version : Z;
  gm_tensor_count : Z;
  gm_metadata_kv_count : Z;
  gm_architecture : option string;
  gm_model_name : option string;
  gm_license : option string
}.

Definition MIN_TENSOR_COUNT : Z := 1.
Definition MAX_TENSOR_COUNT : Z := 131072.
Definition MAX_METADATA_KV_COUNT : Z := 65536.

(** [PartialEq for GgufMetadata]: the identity strings do not count. *)
Definition gguf_eqb (a b : GgufMetadata) : bool :=
  (gm_version a =? gm_version b) && (gm_tensor_count a =? gm_tensor_count b)
  && (gm_metadata_kv_count a =? gm_metadata_kv_count b).

Record RegisteredModel := {
  rm_key : ModelKey;
  rm_path : string;
  rm_digest : ContentDigest;
  rm_size_bytes : Z;
  rm_gguf : GgufMetadata;
  rm_license : LicenseSnapshot;
  rm_source : ModelSource;
  rm_registered_at_ms : Z
}.

Definition CALIBRATED_ARTIFACTS : list (string * Z) := [
  ("56a7d00783419bcb0ae566253c371bcb3678261bb79881a553539f5679864db4", 17456012448);
  ("fadc3e5f8d42bf7e894a785b05082e47daee4df26680389817e2093056f088ad", 18556689568);
  ("100b5121d09553fb1af3b873b21fb3ec3da5c306fc5cb09bd338c48e21b10875", 25092535456)].

Definition is_calibrated_artifact (digest : string) (size_bytes : Z) : bool :=
  existsb (fun '(d, s) => String.eqb d digest && (s =? size_bytes)) CALIBRATED_ARTIFACTS.

(** ** The memory estimate ([memory.rs]) *)

Inductive MemoryEstimateError : Type :=
| InvalidProjection | MemDigestMismatch | InvalidModelSize | InvalidHostMemory
| UnknownWorkingSetLimit | ArithmeticOverflow.

Record RuntimeMemoryProjection := {
  pj_model_digest : ContentDigest;
  pj_allocated_context_tokens : Z;
  pj_weight_bytes : Z;
  pj_context_bytes : Z;
  pj_compute_bytes : Z
}.

Definition projection_new (model_digest : ContentDigest) (allocated_context_tokens weight_bytes
    context_bytes compute_bytes : Z) : res MemoryEstimateError RuntimeMemoryProjection :=
  if (allocated_context_tokens =? 0) || (weight_bytes =? 0) then Err InvalidProjection
  else Ok {| pj_model_digest := model_digest;
             pj_allocated_context_tokens := allocated_context_tokens;
             pj_weight_bytes := weight_bytes; pj_context_bytes := context_bytes;
             pj_compute_bytes := compute_bytes |}.

Inductive UnifiedWorkingSetLimit : Type :=
| LimitNotApplicable | LimitKnown (limit : Z) | LimitUnknown.

Record HostMemoryBudget := {
  hb_total : Z;
  hb_available : Z;
  hb_limit : UnifiedWorkingSetLimit;
  hb_reserved_os : Z;
  hb_reserved_application : Z;
  hb_projection_contingency : Z
}.

Definition host_budget_new (total_bytes available_bytes : Z) (limit : UnifiedWorkingSetLimit)
    (reserved_os_bytes reserved_application_bytes projection_contingency_bytes : Z)
  : res MemoryEstimateError HostMemoryBudget :=
  if (total_bytes =? 0) || (available_bytes >? total_bytes) || (reserved_os_bytes >? total_bytes)
     || match limit with LimitKnown l => l =? 0 | _ => false end
  then Err InvalidHostMemory
  else Ok {| hb_total := total_bytes; hb_available := available_bytes; hb_limit := limit;
             hb_reserved_os := reserved_os_bytes;
             hb_reserved_application := reserved_application_bytes;
             hb_projection_contingency := projection_contingency_bytes |}.

Inductive MemoryFit : Type :=
| Fits (spare_bytes : Z)
| InsufficientCapacity (shortfall_bytes : Z)
| InsufficientWorkingSet (shortfall_bytes : Z)
| InsufficientAvailable (shortfall_bytes : Z).

Record MemoryEstimate := {
  me_allocated_context_tokens : Z;
  me_artifact_size_bytes : Z;
  me_weight_bytes : Z;
  me_context_bytes : Z;
  me_compute_bytes : Z;
  me_runtime_required_bytes : Z;
  me_reserved_application_bytes : Z;
  me_projection_contingency_bytes : Z;
  me_model_working_set_bytes : Z;
  me_reserved_os_bytes : Z;
  me_required_with_headroom_bytes : Z;
  me_physical_capacity_for_model_bytes : Z;
  me_currently_available_for_model_bytes : Z;
  me_fit : MemoryFit
}.

Definition checked_sub64 (a b : Z) : option Z := if b <=? a then Some (a - b) else None.

Definition estimate_memory (model : RegisteredModel) (projection : RuntimeMemoryProjection)
    (host : HostMemoryBudget) : res MemoryEstimateError MemoryEstimate :=
  if negb (bool_decide (rm_digest model = pj_model_digest projection)) then Err MemDigestMismatch
  else if negb ((MIN_SIZE_BYTES <=? rm_size_bytes model) && (rm_size_bytes model <=? MAX_SIZE_BYTES))
  then Err InvalidModelSize
  else
    let? unified_working_set_limit :=
      match hb_limit host with
      | LimitNotApplicable => Ok None
      | LimitKnown limit => Ok (Some limit)
      | LimitUnknown => Err UnknownWorkingSetLimit
      end in
    let? runtime_required_bytes :=
      ok_or (value ← checked_add64 (pj_weight_bytes projection) (pj_context_bytes projection);
             checked_add64 value (pj_compute_bytes projection)) ArithmeticOverflow in
    let? model_working_set_bytes :=
      ok_or (value ← checked_add64 runtime_required_bytes (hb_reserved_application host);
             checked_add64 value (hb_projection_contingency host)) ArithmeticOverflow in
    let? required_with_headroom_bytes :=
      ok_or (checked_add64 model_working_set_bytes (hb_reserved_os host)) ArithmeticOverflow in
    let for_model (bytes : Z) :=
      saturating_sub (saturating_sub (saturating_sub bytes (hb_reserved_os host))
                        (hb_reserved_application host)) (hb_projection_contingency host) in
    let physical_capacity_for_model_bytes := for_model (hb_total host) in
    let currently_available_for_model_bytes := for_model (hb_available host) in
    let working_set_shortfall :=
      match unified_working_set_limit ≫= checked_sub64 model_working_set_bytes with
      | Some shortfall => if shortfall >? 0 then Some shortfall else None
      | None => None
      end in
    let fit :=
      match working_set_shortfall with
      | Some shortfall_bytes => InsufficientWorkingSet shortfall_bytes
      | None =>
        if runtime_required_bytes >? physical_capacity_for_model_bytes
        then InsufficientCapacity (runtime_required_bytes - physical_capacity_for_model_bytes)
        else if runtime_required_bytes >? currently_available_for_model_bytes
        then InsufficientAvailable (runtime_required_bytes - currently_available_for_model_bytes)
        else
          let available_spare := currently_available_for_model_bytes - runtime_required_bytes in
          let working_set_spare :=
            match unified_working_set_limit with
            | Some limit => limit - model_working_set_bytes
            | None => u64_max
            end in
          Fits (Z.min available_spare working_set_spare)
      end in
    Ok {| me_allocated_context_tokens := pj_allocated_context_tokens projection;
          me_artifact_size_bytes := rm_size_bytes model;
          me_weight_bytes := pj_weight_bytes projection;
          me_context_bytes := pj_context_bytes projection;
          me_compute_bytes := pj_compute_bytes projection;
          me_runtime_required_bytes := runtime_required_bytes;
          me_reserved_application_bytes := hb_reserved_application host;
          me_projection_contingency_bytes := hb_projection_contingency host;
          me_model_working_set_bytes := model_working_set_bytes;
          me_reserved_os_bytes := hb_reserved_os host;
          me_required_with_headroom_bytes := required_with_headroom_bytes;
          me_physical_capacity_for_model_bytes := physical_capacity_for_model_bytes;
          me_currently_available_for_model_bytes := currently_available_for_model_bytes;
          me_fit := fit |}.

Lemma checked_add64_Some a b n : checked_add64 a b = Some n -> n = a + b.
Proof. unfold checked_add64. case_match; [by intros [= <-]|done]. Qed.

Lemma checked_sum (a b c : Z) (e : MemoryEstimateError) n :
  ok_or (value ← checked_add64 a b; checked_add64 value c) e = Ok n -> n = a + b + c.
Proof.
  destruct (checked_add64 a b) as [v|] eqn:Hv; [|done]. apply checked_add64_Some in Hv as ->. cbn.
  destruct (checked_add64 (a + b) c) as [w|] eqn:Hw; [|done]. apply checked_add64_Some in Hw as ->. by intros [= <-].
Qed.

(** A model fits exactly when its runtime, the application, the contingency and
    the system's reserve fit into the memory that is available now, and all but
    that reserve within a known working-set limit; what is left over is the
    smaller of the two margins. *)
Theorem estimate_memory_fits model projection host e spare :
  0 < pj_weight_bytes projection -> 0 <= pj_context_bytes projection -> 0 <= pj_compute_bytes projection ->
  0 <= hb_reserved_os host -> 0 <= hb_reserved_application host -> 0 <= hb_projection_contingency host ->
  hb_available host <= hb_total host ->
  estimate_memory model projection host = Ok e ->
  let working_set := pj_weight_bytes projection + pj_context_bytes projection + pj_compute_bytes projection
                     + hb_reserved_application host + hb_projection_contingency host in
  let left_available := hb_available host - hb_reserved_os host - working_set in
  let left_of_limit := match hb_limit host with LimitKnown limit => limit - working_set | _ => u64_max end in
  me_fit e = Fits spare
  <-> 0 <= left_available /\ 0 <= left_of_limit /\ spare = Z.min left_available left_of_limit.
Proof.
  intros Hw Hc Hp Hos Happ Hcont Hle He working_set left_available left_of_limit. unfold estimate_memory in He.
  destruct (negb (bool_decide _)); [done|]. destruct (negb (_ && _)); [done|].
  apply let_Ok in He as (limit & Hlimit & He). apply let_Ok in He as (runtime & Hruntime & He).
  apply let_Ok in He as (model_set & Hset & He). apply let_Ok in He as (headroom & _ & He).
  apply checked_sum in Hruntime, Hset. injection He as <-. cbn [me_fit].
  unfold checked_sub64, saturating_sub, left_available, left_of_limit, working_set in *. clear left_available left_of_limit working_set.
  assert (Hlim : match hb_limit host with LimitKnown l => limit = Some l | LimitNotApplicable => limit = None | _ => False end)
    by (destruct (hb_limit host); congruence).
  destruct (hb_limit host) as [|l|], limit as [l'|]; try done; [|injection Hlim as ->]; cbn [mbind option_bind].
  - repeat case_match; split; intros; destruct_and?; simplify_eq; try split_and!; unfold u64_max in *; first [lia|f_equal; lia].
  - destruct (Z.leb_spec l model_set); repeat case_match; split; intros; destruct_and?; simplify_eq; try split_and!; first [lia|f_equal; lia].
Qed.
