(* ===== verification/Gguf.v ===== *)
(** * The GGUF header ([pam_model/src/acquisition.rs])

    The parser that decides whether a file is a bounded, well-formed GGUF
    artifact: the fixed header, the metadata entries, the tensor table and the
    layout of the tensor data. A file is its bytes; the reader is the cursor
    the code counts and the bytes from the file position on.

    The second half is the format itself: values, entries and tensors as data,
    their encoding, and the conditions on a file. *)

From S2P Require Import Prelude ModelData.

Local Open Scope Z_scope.

Definition GGUF_FIXED_HEADER_BYTES : Z := 24.
Definition GGUF_DEFAULT_ALIGNMENT : Z := 32.
Definition GGUF_MAX_ALIGNMENT : Z := 4096.
Definition GGUF_MAX_ARRAY_ITEMS : Z := 16777216.
Definition GGUF_MAX_HEADER_BYTES : Z := 268435456.
Definition GGUF_MAX_METADATA_KEY_BYTES : Z := 4096.
Definition GGUF_MAX_TENSOR_NAME_BYTES : Z := 127.
Definition GGUF_MAX_STRING_BYTES : Z := 268435456.
Definition GGUF_MAX_DIMENSIONS : Z := 4.
Definition GGUF_MAX_IDENTITY_STRING_BYTES : Z := 256.

Definition i64_max : Z := 9223372036854775807.
Definition zlen {A} (l : list A) : Z := Z.of_nat (length l).

(** [checked_mul] on [u64]. *)
Definition checked_mul64 (a b : Z) : option Z := if a * b <=? u64_max then Some (a * b) else None.

(** ** Byte strings *)

(** [from_le_bytes] and [to_le_bytes]. *)
Fixpoint le_val (l : list ascii) : Z :=
  match l with
  | [] => 0
  | a :: l => byte_val a + 256 * le_val l
  end.
Fixpoint le_enc (width : nat) (z : Z) : list ascii :=
  match width with
  | O => []
  | S width => ascii_of_N (Z.to_N (z mod 256)) :: le_enc width (z / 256)
  end.

(** The second byte of a character of three or four bytes. *)
Definition second_byte_ok (first : Z) (second : ascii) : bool :=
  if first =? 224 then in_range 160 191 second
  else if first =? 237 then in_range 128 159 second
  else if first =? 240 then in_range 144 191 second
  else if first =? 244 then in_range 128 143 second
  else in_range 128 191 second.

(** [std::str::from_utf8(l).is_ok()]. *)
Fixpoint utf8_valid (l : list ascii) : bool :=
  match l with
  | [] => true
  | a :: l1 =>
    let b0 := byte_val a in
    if b0 <? 128 then utf8_valid l1
    else match l1 with
    | [] => false
    | b :: l2 =>
      if b0 <? 224 then (194 <=? b0) && in_range 128 191 b && utf8_valid l2
      else match l2 with
      | [] => false
      | c :: l3 =>
        if b0 <? 240 then second_byte_ok b0 b && in_range 128 191 c && utf8_valid l3
        else match l3 with
        | [] => false
        | d :: l4 =>
          (b0 <=? 244) && second_byte_ok b0 b && in_range 128 191 c && in_range 128 191 d
          && utf8_valid l4
        end
      end
    end
  end.

(** [String::from_utf8(l).ok()]. *)
Definition from_utf8 (l : list ascii) : option string :=
  if utf8_valid l then Some (of_bytes l) else None.

Definition valid_metadata_key (value : list ascii) : bool :=
  forallb (fun byte => is_ascii_lowercase byte || is_ascii_digit byte || one_of "_." byte) value.

Definition valid_tensor_name (value : list ascii) : bool :=
  match from_utf8 value with
  | Some value => negb (existsb is_control (chars value))
  | None => false
  end.

(** ** The reader *)

Record Reader := { rd_cursor : Z; rd_rest : list ascii }.

Definition Gp (A : Type) : Type := Reader -> res ModelError (A * Reader).
#[export] Instance Gp_ret : MRet Gp := fun A a r => Ok (a, r).
#[export] Instance Gp_bind : MBind Gp := fun A B k m r => let? (a, r') := m r in k a r'.

Definition gp_fail {A} (e : ModelError) : Gp A := fun _ => Err e.
Definition gp_guard (b : bool) : Gp unit := if b then mret tt else gp_fail InvalidGguf.
Definition gp_some {A} (o : option A) : Gp A :=
  match o with Some a => mret a | None => gp_fail InvalidGguf end.

(** [for _ in 0..n], with the variables the body assigns. *)
Fixpoint times {A} (n : nat) (body : A -> Gp A) (a : A) : Gp A :=
  match n with
  | O => mret a
  | S n => a' ← body a; times n body a'
  end.

Definition cursor_at : Gp Z := fun r => Ok (rd_cursor r, r).

Definition align_up (value alignment : Z) : option Z :=
  smaller ← checked_sub64 alignment 1;
  value ← checked_add64 value smaller;
  Some (Z.land value (Z.lxor (alignment - 1) u64_max)).

(** [u64::is_power_of_two]. *)
Definition is_power_of_two (z : Z) : bool := (0 <? z) && (2 ^ Z.log2 z =? z).

Definition ensure_header_budget (cursor : Z) : Gp unit := gp_guard (cursor <=? GGUF_MAX_HEADER_BYTES).

Definition ggml_type_layout (tensor_type : Z) : Gp (Z * Z) :=
  match tensor_type with
  | 0 | 26 => mret (1, 4)
  | 1 | 25 | 30 => mret (1, 2)
  | 2 | 20 => mret (32, 18)
  | 3 => mret (32, 20)
  | 6 => mret (32, 22)
  | 7 => mret (32, 24)
  | 8 => mret (32, 34)
  | 9 => mret (32, 36)
  | 10 => mret (256, 84)
  | 11 | 21 => mret (256, 110)
  | 12 => mret (256, 144)
  | 13 => mret (256, 176)
  | 14 => mret (256, 210)
  | 15 => mret (256, 292)
  | 16 | 35 => mret (256, 66)
  | 17 => mret (256, 74)
  | 18 => mret (256, 98)
  | 19 => mret (256, 50)
  | 22 => mret (256, 82)
  | 23 => mret (256, 136)
  | 24 => mret (1, 1)
  | 27 | 28 => mret (1, 8)
  | 29 => mret (256, 56)
  | 34 => mret (256, 54)
  | 39 => mret (32, 17)
  | 40 => mret (64, 36)
  | 41 => mret (128, 18)
  | 42 => mret (64, 18)
  | _ => gp_fail InvalidGguf
  end.

Section parser.
Context (file_size : Z).

(** [*cursor = cursor.checked_add(length).filter(|end| *end <= file_size)?]. *)
Definition advance (length : Z) : Gp unit := fun r =>
  match checked_add64 (rd_cursor r) length with
  | Some cursor_end =>
    if cursor_end <=? file_size
    then Ok (tt, {| rd_cursor := cursor_end; rd_rest := rd_rest r |})
    else Err InvalidGguf
  | None => Err InvalidGguf
  end.

(** [file.read_exact(bytes)]: the file is short when it was truncated after its
    size was read; [file.seek(SeekFrom::Current(length))]. *)
Definition file_read (length : Z) : Gp (list ascii) := fun r =>
  if zlen (rd_rest r) <? length then Err InvalidGguf
  else Ok (take (Z.to_nat length) (rd_rest r),
           {| rd_cursor := rd_cursor r; rd_rest := drop (Z.to_nat length) (rd_rest r) |}).
Definition file_seek (length : Z) : Gp unit := fun r =>
  Ok (tt, {| rd_cursor := rd_cursor r; rd_rest := drop (Z.to_nat length) (rd_rest r) |}).

Definition read_exact (length : Z) : Gp (list ascii) :=
  _ ← advance length;
  file_read length.

Definition skip_bytes (length : Z) : Gp unit :=
  _ ← advance length;
  _ ← gp_guard (length <=? i64_max);
  file_seek length.

(** [read_bytes::<N>] and the little-endian integers. *)
Definition read_bytes (width : nat) : Gp (list ascii) := read_exact (Z.of_nat width).
Definition read_u32 : Gp Z := raw ← read_bytes 4; mret (le_val raw).
Definition read_u64 : Gp Z := raw ← read_bytes 8; mret (le_val raw).

Definition read_gguf_string (maximum_bytes : Z) : Gp (list ascii) :=
  length ← read_u64;
  _ ← gp_guard (negb ((length =? 0) || (length >? maximum_bytes)));
  read_exact length.

(** [None]: longer than the display cap, and skipped. *)
Definition read_gguf_identity_string : Gp (option (list ascii)) :=
  length ← read_u64;
  _ ← gp_guard (negb ((length =? 0) || (length >? GGUF_MAX_STRING_BYTES)));
  if length >? GGUF_MAX_IDENTITY_STRING_BYTES
  then _ ← skip_bytes length; mret None
  else raw ← read_exact length; mret (Some raw).

Definition skip_gguf_string : Gp unit :=
  length ← read_u64;
  _ ← gp_guard (length <=? GGUF_MAX_STRING_BYTES);
  skip_bytes length.

Definition read_bool : Gp unit :=
  raw ← read_bytes 1;
  gp_guard (le_val raw <=? 1).

Definition scalar_bytes (element_type : Z) : option Z :=
  match element_type with
  | 0 | 1 => Some 1
  | 2 | 3 => Some 2
  | 4 | 5 | 6 => Some 4
  | 10 | 11 | 12 => Some 8
  | _ => None
  end.

Definition skip_metadata_array (element_type count : Z) : Gp unit :=
  match scalar_bytes element_type with
  | Some scalar_bytes => length ← gp_some (checked_mul64 scalar_bytes count); skip_bytes length
  | None =>
    match element_type with
    | 7 => times (Z.to_nat count) (fun _ => read_bool) tt
    | 8 => times (Z.to_nat count) (fun _ => skip_gguf_string) tt
    | _ => gp_fail InvalidGguf
    end
  end.

(** The value is the new count of array items. *)
Definition skip_metadata_value (value_type array_items : Z) : Gp Z :=
  match value_type with
  | 0 | 1 => _ ← skip_bytes 1; mret array_items
  | 2 | 3 => _ ← skip_bytes 2; mret array_items
  | 4 | 5 | 6 => _ ← skip_bytes 4; mret array_items
  | 7 => _ ← read_bool; mret array_items
  | 8 => _ ← skip_gguf_string; mret array_items
  | 9 =>
    element_type ← read_u32;
    count ← read_u64;
    array_items ← gp_some (checked_add64 array_items count);
    _ ← gp_guard (array_items <=? GGUF_MAX_ARRAY_ITEMS);
    _ ← skip_metadata_array element_type count;
    mret array_items
  | 10 | 11 | 12 => _ ← skip_bytes 8; mret array_items
  | _ => gp_fail InvalidGguf
  end.

(** ** The tensor table *)

Record TensorSpan := { ts_offset : Z; ts_length : Z }.

Definition read_dimension (rows : Z) : Gp Z :=
  dimension ← read_u64;
  _ ← gp_guard (negb (dimension =? 0));
  gp_some (checked_mul64 rows dimension).

Definition tensor_bytes (first_dimension block_elements block_bytes rows : Z) : option Z :=
  row_bytes ← checked_mul64 (first_dimension / block_elements) block_bytes;
  length ← checked_mul64 row_bytes rows;
  if (0 <? length) && (length <=? MAX_SIZE_BYTES) then Some length else None.

(** From the type of a tensor to its offset. *)
Definition read_span (first_dimension rows : Z) : Gp TensorSpan :=
  tensor_type ← read_u32;
  layout ← ggml_type_layout tensor_type;
  let '(block_elements, block_bytes) := layout in
  _ ← gp_guard (first_dimension mod block_elements =? 0);
  length ← gp_some (tensor_bytes first_dimension block_elements block_bytes rows);
  offset ← read_u64;
  mret {| ts_offset := offset; ts_length := length |}.

Definition read_tensor_span (acc : gset (list ascii) * list TensorSpan)
  : Gp (gset (list ascii) * list TensorSpan) :=
  name ← read_gguf_string GGUF_MAX_TENSOR_NAME_BYTES;
  _ ← gp_guard (valid_tensor_name name && bool_decide (name ∉ acc.1));
  dimensions ← read_u32;
  _ ← gp_guard ((1 <=? dimensions) && (dimensions <=? GGUF_MAX_DIMENSIONS));
  first_dimension ← read_u64;
  _ ← gp_guard (negb (first_dimension =? 0));
  rows ← times (Z.to_nat (dimensions - 1)) read_dimension 1;
  span ← read_span first_dimension rows;
  cursor ← cursor_at;
  _ ← ensure_header_budget cursor;
  mret ({[name]} ∪ acc.1, acc.2 ++ [span]).

Definition read_tensor_spans (tensor_count : Z) : Gp (list TensorSpan) :=
  acc ← times (Z.to_nat tensor_count) read_tensor_span (∅, []);
  mret acc.2.

(** ** The whole header *)

Definition GGUF : list ascii := bytes "GGUF".

Definition read_magic_version : Gp Z :=
  _ ← gp_guard (GGUF_FIXED_HEADER_BYTES <=? file_size);
  magic ← read_bytes 4;
  _ ← gp_guard (bool_decide (magic = GGUF));
  read_u32.

Definition read_gguf_header : Gp (Z * Z * Z) :=
  version ← read_magic_version;
  _ ← (if (version =? 2) || (version =? 3) then mret tt
       else gp_fail (UnsupportedGgufVersion version));
  tensor_count ← read_u64;
  metadata_kv_count ← read_u64;
  mret (version, tensor_count, metadata_kv_count).

(** The variables of the metadata loop. *)
Record Metadata := {
  md_keys : gset (list ascii);
  md_alignment : Z;
  md_array_items : Z;
  md_architecture : option string;
  md_model_name : option string;
  md_license : option string
}.

Definition ALIGNMENT_KEY : list ascii := bytes "general.alignment".
Definition ARCHITECTURE_KEY : list ascii := bytes "general.architecture".
Definition NAME_KEY : list ascii := bytes "general.name".
Definition LICENSE_KEY : list ascii := bytes "general.license".

Definition set_alignment (m : Metadata) (alignment : Z) : Metadata :=
  {| md_keys := md_keys m; md_alignment := alignment; md_array_items := md_array_items m;
     md_architecture := md_architecture m; md_model_name := md_model_name m;
     md_license := md_license m |}.
Definition set_array_items (m : Metadata) (array_items : Z) : Metadata :=
  {| md_keys := md_keys m; md_alignment := md_alignment m; md_array_items := array_items;
     md_architecture := md_architecture m; md_model_name := md_model_name m;
     md_license := md_license m |}.
Definition insert_key (m : Metadata) (key : list ascii) : Metadata :=
  {| md_keys := {[key]} ∪ md_keys m; md_alignment := md_alignment m;
     md_array_items := md_array_items m; md_architecture := md_architecture m;
     md_model_name := md_model_name m; md_license := md_license m |}.
Definition set_identity (m : Metadata) (key : list ascii) (value : option string) : Metadata :=
  {| md_keys := md_keys m; md_alignment := md_alignment m; md_array_items := md_array_items m;
     md_architecture := if bool_decide (key = ARCHITECTURE_KEY) then value else md_architecture m;
     md_model_name := if bool_decide (key = NAME_KEY) then value else md_model_name m;
     md_license := if bool_decide (key = LICENSE_KEY) then value else md_license m |}.

Definition is_identity_key (key : list ascii) : bool :=
  bool_decide (key = ARCHITECTURE_KEY) || bool_decide (key = NAME_KEY)
  || bool_decide (key = LICENSE_KEY).

(** The value of an entry, by its key and type. *)
Definition read_entry_value (m : Metadata) (key : list ascii) (value_type : Z) : Gp Metadata :=
  if bool_decide (key = ALIGNMENT_KEY) then
    _ ← gp_guard (value_type =? 4);
    alignment ← read_u32;
    _ ← gp_guard ((8 <=? alignment) && (alignment <=? GGUF_MAX_ALIGNMENT) && is_power_of_two alignment);
    mret (set_alignment m alignment)
  else if (value_type =? 8) && is_identity_key key then
    value ← read_gguf_identity_string;
    mret (set_identity m key (value ≫= from_utf8))
  else
    array_items ← skip_metadata_value value_type (md_array_items m);
    mret (set_array_items m array_items).

Definition read_metadata_entry (m : Metadata) : Gp Metadata :=
  key ← read_gguf_string GGUF_MAX_METADATA_KEY_BYTES;
  _ ← gp_guard (valid_metadata_key key && bool_decide (key ∉ md_keys m));
  value_type ← read_u32;
  m ← read_entry_value (insert_key m key) key value_type;
  cursor ← cursor_at;
  _ ← ensure_header_budget cursor;
  mret m.

Definition no_metadata : Metadata :=
  {| md_keys := ∅; md_alignment := GGUF_DEFAULT_ALIGNMENT; md_array_items := 0;
     md_architecture := None; md_model_name := None; md_license := None |}.

(** [sort_unstable_by_key(|tensor| tensor.offset)]; tensors with equal offsets
    are refused in whatever order they come. *)
Fixpoint insert_by_offset (t : TensorSpan) (l : list TensorSpan) : list TensorSpan :=
  match l with
  | [] => [t]
  | u :: l => if ts_offset t <=? ts_offset u then t :: u :: l else u :: insert_by_offset t l
  end.
Definition sort_by_offset (l : list TensorSpan) : list TensorSpan := foldr insert_by_offset [] l.

Fixpoint check_layout (alignment data_bytes previous_end : Z) (tensors : list TensorSpan) : bool :=
  match tensors with
  | [] => true
  | t :: tensors =>
    match checked_add64 (ts_offset t) (ts_length t) with
    | Some span_end =>
      (span_end <=? data_bytes)
      && negb (negb (ts_offset t mod alignment =? 0) || (ts_offset t <? previous_end))
      && check_layout alignment data_bytes span_end tensors
    | None => false
    end
  end.

Definition check_tensor_data (tensor_count alignment : Z) (tensors : list TensorSpan) : Gp unit :=
  cursor ← cursor_at;
  if 0 <? tensor_count then
    data_start ← gp_some (align_up cursor alignment);
    _ ← gp_guard (data_start <? file_size);
    gp_guard (check_layout alignment (file_size - data_start) 0 (sort_by_offset tensors))
  else mret tt.

(** Everything after the fixed header. *)
Definition parse_body (version tensor_count metadata_kv_count : Z) : Gp GgufMetadata :=
  _ ← gp_guard ((MIN_TENSOR_COUNT <=? tensor_count) && (tensor_count <=? MAX_TENSOR_COUNT)
                && (metadata_kv_count <=? MAX_METADATA_KV_COUNT));
  m ← times (Z.to_nat metadata_kv_count) read_metadata_entry no_metadata;
  tensors ← read_tensor_spans tensor_count;
  _ ← check_tensor_data tensor_count (md_alignment m) tensors;
  mret {| gm_version := version; gm_tensor_count := tensor_count;
          gm_metadata_kv_count := metadata_kv_count; gm_architecture := md_architecture m;
          gm_model_name := md_model_name m; gm_license := md_license m |}.

Definition parse_gguf : Gp GgufMetadata :=
  header ← read_gguf_header;
  let '(version, tensor_count, metadata_kv_count) := header in
  parse_body version tensor_count metadata_kv_count.
End parser.

(** [file.seek(SeekFrom::Start(0))], then the header. *)
Definition inspect_gguf (content : list ascii) (file_size : Z) : res ModelError GgufMetadata :=
  let? (metadata, _) := parse_gguf file_size {| rd_cursor := 0; rd_rest := content |} in
  Ok metadata.

(** ** The format *)

Inductive GgufValue : Type :=
| GScalar (value_type : Z) (raw : list ascii)
| GBool (b : bool)
| GString (s : list ascii)
| GScalars (element_type count : Z) (raw : list ascii)
| GBools (l : list bool)
| GStrings (l : list (list ascii)).

Record GgufTensor := {
  t_name : list ascii;
  t_first : Z;
  t_more : list Z;
  t_type : Z;
  t_offset : Z
}.

Record GgufFile := {
  f_version : Z;
  f_entries : list (list ascii * GgufValue);
  f_tensors : list GgufTensor;
  f_data : list ascii
}.

Definition enc_string (s : list ascii) : list ascii := le_enc 8 (zlen s) ++ s.
Definition enc_bool (b : bool) : list ascii := le_enc 1 (if b then 1 else 0).

Definition value_type_of (v : GgufValue) : Z :=
  match v with
  | GScalar value_type _ => value_type
  | GBool _ => 7
  | GString _ => 8
  | GScalars _ _ _ | GBools _ | GStrings _ => 9
  end.

Definition enc_value (v : GgufValue) : list ascii :=
  match v with
  | GScalar _ raw => raw
  | GBool b => enc_bool b
  | GString s => enc_string s
  | GScalars element_type count raw => le_enc 4 element_type ++ le_enc 8 count ++ raw
  | GBools l => le_enc 4 7 ++ le_enc 8 (zlen l) ++ concat (enc_bool <$> l)
  | GStrings l => le_enc 4 8 ++ le_enc 8 (zlen l) ++ concat (enc_string <$> l)
  end.

Definition enc_entry (e : list ascii * GgufValue) : list ascii :=
  enc_string e.1 ++ le_enc 4 (value_type_of e.2) ++ enc_value e.2.

Definition enc_tensor (t : GgufTensor) : list ascii :=
  enc_string (t_name t) ++ le_enc 4 (1 + zlen (t_more t)) ++ le_enc 8 (t_first t)
  ++ concat (le_enc 8 <$> t_more t) ++ le_enc 4 (t_type t) ++ le_enc 8 (t_offset t).

Definition enc_header (f : GgufFile) : list ascii :=
  GGUF ++ le_enc 4 (f_version f) ++ le_enc 8 (zlen (f_tensors f))
  ++ le_enc 8 (zlen (f_entries f)) ++ concat (enc_entry <$> f_entries f)
  ++ concat (enc_tensor <$> f_tensors f).
Definition enc_file (f : GgufFile) : list ascii := enc_header f ++ f_data f.

Definition array_items_of (v : GgufValue) : Z :=
  match v with
  | GScalars _ count _ => count
  | GBools l => zlen l
  | GStrings l => zlen l
  | _ => 0
  end.

Definition string_ok (s : list ascii) : Prop := zlen s <= GGUF_MAX_STRING_BYTES.

Definition value_ok (v : GgufValue) : Prop :=
  match v with
  | GScalar value_type raw => scalar_bytes value_type = Some (zlen raw)
  | GBool _ | GBools _ => True
  | GString s => string_ok s
  | GScalars element_type count raw =>
    exists width, scalar_bytes element_type = Some width /\ 0 <= count /\ zlen raw = width * count
  | GStrings l => Forall string_ok l
  end.

Definition ALIGNMENTS : list Z := [8; 16; 32; 64; 128; 256; 512; 1024; 2048; 4096].

(** The value of the alignment key is an unsigned 32-bit power of two, and the
    string of an identity key is not empty. *)
Definition key_value_ok (key : list ascii) (v : GgufValue) : Prop :=
  (key = ALIGNMENT_KEY -> exists alignment, v = GScalar 4 (le_enc 4 alignment) /\ alignment ∈ ALIGNMENTS)
  /\ (is_identity_key key = true -> v <> GString []).

Definition entry_ok (e : list ascii * GgufValue) : Prop :=
  0 < zlen e.1 <= GGUF_MAX_METADATA_KEY_BYTES
  /\ valid_metadata_key e.1 = true
  /\ value_ok e.2
  /\ key_value_ok e.1 e.2.

Definition u64_fits (z : Z) : Prop := 0 <= z <= u64_max.

(** The blocks of a tensor type: elements and bytes. *)
Definition type_layout (tensor_type : Z) : option (Z * Z) :=
  match ggml_type_layout tensor_type {| rd_cursor := 0; rd_rest := [] |} with
  | Ok (layout, _) => Some layout
  | _ => None
  end.

Definition product (l : list Z) : Z := foldr Z.mul 1 l.

Definition tensor_length (t : GgufTensor) : Z :=
  match type_layout (t_type t) with
  | Some (block_elements, block_bytes) =>
    t_first t / block_elements * block_bytes * product (t_more t)
  | None => 0
  end.

Definition tensor_ok (t : GgufTensor) : Prop :=
  0 < zlen (t_name t) <= GGUF_MAX_TENSOR_NAME_BYTES
  /\ valid_tensor_name (t_name t) = true
  /\ Forall (fun d => 0 < d <= u64_max) (t_first t :: t_more t)
  /\ zlen (t_more t) < GGUF_MAX_DIMENSIONS
  /\ (exists block_elements block_bytes,
        type_layout (t_type t) = Some (block_elements, block_bytes)
        /\ t_first t mod block_elements = 0)
  /\ tensor_length t <= MAX_SIZE_BYTES
  /\ u64_fits (t_offset t).

Definition value_of (key : list ascii) (f : GgufFile) : option GgufValue :=
  snd <$> find (fun e => bool_decide (e.1 = key)) (f_entries f).

Definition alignment_of (f : GgufFile) : Z :=
  match value_of ALIGNMENT_KEY f with
  | Some (GScalar _ raw) => le_val raw
  | _ => GGUF_DEFAULT_ALIGNMENT
  end.

(** An identity string is shown when it is within the cap and UTF-8. *)
Definition identity_of (key : list ascii) (f : GgufFile) : option string :=
  match value_of key f with
  | Some (GString s) => if zlen s <=? GGUF_MAX_IDENTITY_STRING_BYTES then from_utf8 s else None
  | _ => None
  end.

Definition metadata_of (f : GgufFile) : GgufMetadata :=
  {| gm_version := f_version f; gm_tensor_count := zlen (f_tensors f);
     gm_metadata_kv_count := zlen (f_entries f);
     gm_architecture := identity_of ARCHITECTURE_KEY f;
     gm_model_name := identity_of NAME_KEY f; gm_license := identity_of LICENSE_KEY f |}.

(** The data begins at the first multiple of the alignment after the header. *)
Definition data_start_of (f : GgufFile) : Z :=
  (zlen (enc_header f) + alignment_of f - 1) / alignment_of f * alignment_of f.

Definition disjoint_tensors (t u : GgufTensor) : Prop :=
  t_offset t + tensor_length t <= t_offset u \/ t_offset u + tensor_length u <= t_offset t.

Definition layout_ok (f : GgufFile) : Prop :=
  data_start_of f < zlen (enc_file f)
  /\ Forall (fun t => t_offset t mod alignment_of f = 0
                      /\ data_start_of f + t_offset t + tensor_length t <= zlen (enc_file f)) (f_tensors f)
  /\ ForallOrdPairs disjoint_tensors (f_tensors f).

Definition well_formed (f : GgufFile) : Prop :=
  f_version f ∈ [2; 3]
  /\ 1 <= zlen (f_tensors f) <= MAX_TENSOR_COUNT
  /\ zlen (f_entries f) <= MAX_METADATA_KV_COUNT
  /\ NoDup (f_entries f).*1 /\ NoDup (t_name <$> f_tensors f)
  /\ Forall entry_ok (f_entries f) /\ Forall tensor_ok (f_tensors f)
  /\ foldr Z.add 0 (array_items_of ∘ snd <$> f_entries f) <= GGUF_MAX_ARRAY_ITEMS
  /\ zlen (enc_header f) <= GGUF_MAX_HEADER_BYTES
  /\ layout_ok f.
