(* ===== verification/GgufProof.v ===== *)
(** * What the GGUF inspection accepts

    Each reader of [Gguf] is related to a grammar: the bytes it consumes and
    the value it returns. The rules compose, so the relation of the whole
    parser is the format of [Gguf.well_formed]. *)

From S2P Require Import Prelude ModelData Gguf.
From Stdlib Require Import Sorted.

Local Open Scope Z_scope.

(** ** Little-endian integers *)

Lemma zlen_app {A} (l k : list A) : zlen (l ++ k) = zlen l + zlen k.
Proof. unfold zlen. rewrite length_app. lia. Qed.
Lemma zlen_nonneg {A} (l : list A) : 0 <= zlen l.
Proof. unfold zlen. lia. Qed.
Lemma zlen_cons {A} (x : A) l : zlen (x :: l) = 1 + zlen l.
Proof. unfold zlen. cbn [length]. lia. Qed.
Lemma zlen_nil {A} : zlen (@nil A) = 0.
Proof. done. Qed.

Lemma ascii_of_byte_val a : ascii_of_N (Z.to_N (byte_val a)) = a.
Proof. unfold byte_val. by rewrite N2Z.id, ascii_N_embedding. Qed.
Lemma byte_val_of_ascii z : 0 <= z < 256 -> byte_val (ascii_of_N (Z.to_N z)) = z.
Proof. intros ?. unfold byte_val. rewrite N_ascii_embedding by lia. lia. Qed.

Lemma le_enc_length w z : length (le_enc w z) = w.
Proof. revert z. induction w; intros; simpl; by rewrite ?IHw. Qed.
Lemma zlen_le_bytes w z : zlen (le_enc w z) = Z.of_nat w.
Proof. unfold zlen. by rewrite le_enc_length. Qed.

Lemma le_val_range l : 0 <= le_val l < 256 ^ zlen l.
Proof.
  induction l as [|a l IH]; [done|]. rewrite zlen_cons, Z.pow_add_r by (done || apply zlen_nonneg).
  cbn [le_val]. pose proof (byte_val_range a). lia.
Qed.

Lemma le_enc_val l : le_enc (length l) (le_val l) = l.
Proof.
  induction l as [|a l IH]; [done|]. cbn [length le_enc le_val].
  pose proof (byte_val_range a) as Ha.
  replace ((byte_val a + 256 * le_val l) mod 256) with (byte_val a)
    by (rewrite Z.mul_comm, Z.mod_add by done; by rewrite Z.mod_small).
  replace ((byte_val a + 256 * le_val l) / 256) with (le_val l)
    by (rewrite Z.mul_comm, Z.div_add by done; by rewrite Z.div_small).
  by rewrite ascii_of_byte_val, IH.
Qed.

Lemma le_val_bytes w z : 0 <= z < 256 ^ Z.of_nat w -> le_val (le_enc w z) = z.
Proof.
  revert z. induction w as [|w IH]; intros z Hz; cbn [le_enc le_val].
  { change (256 ^ Z.of_nat 0) with 1 in Hz. lia. }
  rewrite Nat2Z.inj_succ, Z.pow_succ_r in Hz by lia.
  rewrite byte_val_of_ascii by (apply Z.mod_pos_bound; lia).
  rewrite IH; [|split; [apply Z.div_pos|apply Z.div_lt_upper_bound]; lia].
  pose proof (Z.div_mod z 256). lia.
Qed.

(** ** Readers and grammars *)

Section reads.
Context (N : Z).
Hypothesis (HN : N <= i64_max).

(** From a cursor within the file, [p] succeeds exactly on the bytes of [R],
    and fails as an invalid file. *)
Definition reads {A} (p : Gp A) (R : Z -> A -> list ascii -> Prop) : Prop :=
  forall r, 0 <= rd_cursor r -> rd_cursor r + zlen (rd_rest r) = N ->
  match p r with
  | Ok (a, r') => exists u, rd_rest r = u ++ rd_rest r'
      /\ rd_cursor r' = rd_cursor r + zlen u /\ R (rd_cursor r) a u
  | Err e => e = InvalidGguf
  | Panic => False
  end
  /\ forall a u s, rd_rest r = u ++ s -> R (rd_cursor r) a u ->
       p r = Ok (a, {| rd_cursor := rd_cursor r + zlen u; rd_rest := s |}).

Lemma reads_iff {A} (p : Gp A) R R' :
  reads p R -> (forall c a u, 0 <= c -> R c a u <-> R' c a u) -> reads p R'.
Proof.
  intros Hp HR r Hc HN'. destruct (Hp r Hc HN') as [H1 H2]. split.
  - destruct (p r) as [[a r']| |]; [|done..]. destruct H1 as (u & ? & ? & ?).
    exists u. by rewrite <-HR.
  - intros a u s Hs Ha. apply H2; [done|]. by apply HR.
Qed.

Lemma reads_iff_le {A} (p : Gp A) R R' :
  reads p R -> (forall c a u, 0 <= c -> c + zlen u <= N -> R c a u <-> R' c a u) -> reads p R'.
Proof.
  intros Hp HR r Hc HN'. destruct (Hp r Hc HN') as [H1 H2].
  assert (Hu : forall u s, rd_rest r = u ++ s -> rd_cursor r + zlen u <= N).
  { intros u s E. rewrite E, zlen_app in HN'. pose proof (zlen_nonneg s). lia. }
  split.
  - destruct (p r) as [[a r']| |]; [|done..]. destruct H1 as (u & E & ? & ?).
    exists u. rewrite <-HR; eauto.
  - intros a u s Hs Ha. apply H2; [done|]. apply HR; eauto.
Qed.

Lemma reads_ret {A} (x : A) : reads (mret x) (fun _ a u => a = x /\ u = []).
Proof.
  intros r Hc _. split.
  - exists []. rewrite zlen_nil. repeat split; [lia].
  - intros a u s Hs [-> ->]. cbn in Hs. subst. rewrite zlen_nil, Z.add_0_r. by destruct r.
Qed.

Lemma reads_fail {A} : reads (@gp_fail A InvalidGguf) (fun _ _ _ => False).
Proof. intros r _ _. by split. Qed.

Lemma reads_cursor : reads cursor_at (fun c a u => a = c /\ u = []).
Proof.
  intros r Hc _. split.
  - exists []. rewrite zlen_nil. repeat split; [lia].
  - intros a u s Hs [-> ->]. cbn in Hs. subst. rewrite zlen_nil, Z.add_0_r. by destruct r.
Qed.

Lemma reads_bind {A B} (p : Gp A) (k : A -> Gp B) R S :
  reads p R -> (forall a, (exists c v, R c a v) -> reads (k a) (S a)) ->
  reads (p ≫= k) (fun c b u => exists a v w, u = v ++ w /\ R c a v /\ S a (c + zlen v) b w).
Proof.
  intros Hp Hk r Hc HN'. destruct (Hp r Hc HN') as [H1 H2]. unfold mbind, Gp_bind. split.
  - destruct (p r) as [[a r']| |]; [|done..]. destruct H1 as (v & Hv & Hr & Ha).
    assert (0 <= rd_cursor r' /\ rd_cursor r' + zlen (rd_rest r') = N) as [Hc' Hn'].
    { pose proof (zlen_nonneg v). rewrite Hv, zlen_app in HN'. lia. }
    destruct (Hk a ltac:(eauto) r' Hc' Hn') as [H3 _]. destruct (k a r') as [[b r'']| |]; [|done..].
    destruct H3 as (w & Hw & Hr' & Hb). exists (v ++ w). rewrite Hv, Hw, app_assoc, zlen_app.
    split; [done|]. split; [lia|]. exists a, v, w. by rewrite <-Hr.
  - intros b u s Hs (a & v & w & -> & Ha & Hb). rewrite <-app_assoc in Hs.
    rewrite (H2 a v (w ++ s) Hs Ha).
    destruct (Hk a ltac:(eauto) {| rd_cursor := rd_cursor r + zlen v; rd_rest := w ++ s |}) as [_ H4].
    { pose proof (zlen_nonneg v). cbn. lia. }
    { cbn. rewrite Hs, zlen_app in HN'. lia. }
    rewrite (H4 b w s eq_refl Hb). cbn [rd_cursor]. by rewrite zlen_app, Z.add_assoc.
Qed.

(** Binds of readers that consume nothing. *)
Lemma reads_guard {A} b (k : Gp A) R :
  (b = true -> reads k R) ->
  reads (_ ← gp_guard b; k) (fun c a u => b = true /\ R c a u).
Proof.
  intros Hk. destruct b.
  - eapply reads_iff; [exact (Hk eq_refl)|]. naive_solver.
  - intros r _ _. split; [done|]. by intros ? ? ? ? [??].
Qed.

Lemma reads_guard_unit b : reads (gp_guard b) (fun _ _ u => b = true /\ u = []).
Proof.
  destruct b; [|intros r _ _; by split; [|intros ? ? ? ? [??]]].
  eapply reads_iff; [apply (reads_ret tt)|]. intros c [] u _. naive_solver.
Qed.

Lemma reads_some {A B} (o : option A) (k : A -> Gp B) R :
  (forall x, o = Some x -> reads (k x) (R x)) ->
  reads (x ← gp_some o; k x) (fun c a u => exists x, o = Some x /\ R x c a u).
Proof.
  intros Hk. destruct o as [x|].
  - eapply reads_iff; [exact (Hk x eq_refl)|]. naive_solver.
  - intros r _ _. split; [done|]. by intros ? ? ? ? (?&?&?).
Qed.

Lemma reads_some_unit {A} (o : option A) : reads (gp_some o) (fun _ a u => o = Some a /\ u = []).
Proof.
  destruct o as [x|]; [|intros r _ _; by split; [|intros ? ? ? ? [??]]].
  eapply reads_iff; [apply (reads_ret x)|]. naive_solver.
Qed.

Lemma reads_here {A} (k : Z -> Gp A) R :
  (forall c0, reads (k c0) (R c0)) -> reads (c ← cursor_at; k c) (fun c a u => R c c a u).
Proof. intros Hk r Hc HN'. exact (Hk (rd_cursor r) r Hc HN'). Qed.

(** The budget is checked where the cursor is. *)
Lemma reads_budget {A} (x : A) :
  reads (cursor ← cursor_at; _ ← ensure_header_budget cursor; mret x)
    (fun c a u => a = x /\ u = [] /\ c <= GGUF_MAX_HEADER_BYTES).
Proof.
  intros r Hc _. unfold mbind, Gp_bind, cursor_at, ensure_header_budget, gp_guard. split.
  - destruct (Z.leb_spec (rd_cursor r) GGUF_MAX_HEADER_BYTES); [|done].
    exists []. rewrite zlen_nil. repeat split; [lia|done].
  - intros a u s Hs (-> & -> & H). cbn in Hs. subst. apply Z.leb_le in H as ->.
    rewrite zlen_nil, Z.add_0_r. by destruct r.
Qed.

(** ** The file *)

Lemma reads_exact n :
  0 <= n -> reads (read_exact N n) (fun _ s u => s = u /\ zlen u = n).
Proof.
  intros Hn r Hc HN'. unfold read_exact, advance, file_read, checked_add64, mbind, Gp_bind. split.
  - destruct (Z.leb_spec (rd_cursor r + n) u64_max) as [Hu|Hu]; [|done].
    destruct (Z.leb_spec (rd_cursor r + n) N) as [Hl|Hl]; [|done]. cbn [rd_cursor rd_rest].
    destruct (Z.ltb_spec (zlen (rd_rest r)) n) as [Hs|Hs]; [done|]. cbn [rd_cursor rd_rest].
    assert (zlen (take (Z.to_nat n) (rd_rest r)) = n) as Ht.
    { unfold zlen in *. rewrite length_take. lia. }
    exists (take (Z.to_nat n) (rd_rest r)). by rewrite Ht, take_drop.
  - intros a u s Hs [-> Hu]. assert (rd_cursor r + n <= N) as Hle.
    { rewrite Hs, zlen_app in HN'. pose proof (zlen_nonneg s). lia. }
    assert (rd_cursor r + n <= u64_max) as ->%Z.leb_le by (unfold u64_max, i64_max in *; lia).
    apply Z.leb_le in Hle as ->. cbn [rd_cursor rd_rest]. rewrite Hs, zlen_app.
    destruct (Z.ltb_spec (zlen u + zlen s) n) as [Hlt|_]; [pose proof (zlen_nonneg s); lia|].
    replace (Z.to_nat n) with (length u) by (unfold zlen in Hu; lia).
    by rewrite take_app_length, drop_app_length, Hu.
Qed.

Lemma reads_skip n : 0 <= n -> reads (skip_bytes N n) (fun _ _ u => zlen u = n).
Proof.
  intros Hn r Hc HN'.
  unfold skip_bytes, advance, gp_guard, file_seek, checked_add64, mbind, Gp_bind. split.
  - destruct (Z.leb_spec (rd_cursor r + n) u64_max) as [Hu|Hu]; [|done].
    destruct (Z.leb_spec (rd_cursor r + n) N) as [Hl|Hl]; [|done].
    destruct (Z.leb_spec n i64_max) as [_|Hi]; [|lia]. cbn [mret Gp_ret rd_cursor rd_rest].
    assert (zlen (take (Z.to_nat n) (rd_rest r)) = n) as Ht.
    { unfold zlen in *. rewrite length_take. lia. }
    exists (take (Z.to_nat n) (rd_rest r)). by rewrite Ht, take_drop.
  - intros [] u s Hs Hu. assert (rd_cursor r + n <= N) as Hle.
    { rewrite Hs, zlen_app in HN'. pose proof (zlen_nonneg s). lia. }
    assert (rd_cursor r + n <= u64_max) as ->%Z.leb_le by (unfold u64_max, i64_max in *; lia).
    assert (n <= i64_max) as ->%Z.leb_le by lia.
    apply Z.leb_le in Hle as ->. cbn [mret Gp_ret rd_cursor rd_rest]. rewrite Hs.
    replace (Z.to_nat n) with (length u) by (unfold zlen in Hu; lia).
    by rewrite drop_app_length, Hu.
Qed.

(** A reader that begins with a little-endian integer of [w] bytes. *)
Lemma reads_le {A} w (k : Z -> Gp A) R :
  (forall z, 0 <= z < 256 ^ Z.of_nat w -> reads (k z) (R z)) ->
  reads (raw ← read_bytes N w; k (le_val raw))
    (fun c a u => exists z v, u = le_enc w z ++ v /\ 0 <= z < 256 ^ Z.of_nat w
       /\ R z (c + Z.of_nat w) a v).
Proof.
  intros Hk. eapply reads_iff.
  - apply reads_bind with (S := fun raw => R (le_val raw)); [apply reads_exact; lia|].
    intros raw (c & v & -> & Hw). apply Hk. rewrite <-Hw. apply le_val_range.
  - intros c a u _. split.
    + intros (raw & v & w' & -> & [-> Hw] & H). exists (le_val v), w'.
      assert (w = length v) as -> by (symmetry; by apply Nat2Z.inj).
      rewrite le_enc_val. split; [done|]. by split; [apply le_val_range|].
    + intros (z & v & -> & Hz & H). exists (le_enc w z), (le_enc w z), v.
      by rewrite zlen_le_bytes, le_val_bytes.
Qed.

Lemma reads_ext {A} (p q : Gp A) R : (forall r, p r = q r) -> reads p R -> reads q R.
Proof. intros Hpq Hp r Hc HN'. rewrite <-Hpq. by apply Hp. Qed.

Lemma bind_map {A B C} (p : Gp A) (f : A -> B) (k : B -> Gp C) r :
  (a ← p; k (f a)) r = (b ← (a ← p; mret (f a)); k b) r.
Proof. unfold mbind, Gp_bind. by destruct (p r) as [[]| |]. Qed.

Lemma reads_u32 {A} (k : Z -> Gp A) R :
  (forall z, 0 <= z < 2 ^ 32 -> reads (k z) (R z)) ->
  reads (z ← read_u32 N; k z)
    (fun c a u => exists z v, u = le_enc 4 z ++ v /\ 0 <= z < 2 ^ 32 /\ R z (c + 4) a v).
Proof. intros Hk. eapply reads_ext; [apply bind_map|]. exact (reads_le 4 k R Hk). Qed.

Lemma reads_u64 {A} (k : Z -> Gp A) R :
  (forall z, 0 <= z <= u64_max -> reads (k z) (R z)) ->
  reads (z ← read_u64 N; k z)
    (fun c a u => exists z v, u = le_enc 8 z ++ v /\ 0 <= z <= u64_max /\ R z (c + 8) a v).
Proof.
  intros Hk. eapply reads_ext; [apply bind_map|].
  eapply reads_iff; [apply (reads_le 8 k R); intros z Hz; apply Hk|].
  all: change (256 ^ Z.of_nat 8) with 18446744073709551616 in *; unfold u64_max in *.
  { lia. }
  intros c a u _. split; intros (z & v & ? & ? & ?); exists z, v; repeat split; try done; lia.
Qed.

(** ** Loops *)

Fixpoint chain {A X} (enc : X -> list ascii) (pre : Z -> A -> X -> Prop) (step : A -> X -> A)
    (c : Z) (a : A) (l : list X) : Prop :=
  match l with
  | [] => True
  | x :: l => pre c a x /\ chain enc pre step (c + zlen (enc x)) (step a x) l
  end.

Lemma reads_times {A X} (inv : A -> Prop) (enc : X -> list ascii) pre step n (body : A -> Gp A) a :
  (forall a, inv a -> reads (body a) (fun c a' u => exists x, u = enc x /\ pre c a x /\ a' = step a x)) ->
  (forall c a x, inv a -> pre c a x -> inv (step a x)) -> inv a ->
  reads (times n body a)
    (fun c a' u => exists l, length l = n /\ u = concat (enc <$> l)
       /\ chain enc pre step c a l /\ a' = foldl step a l).
Proof.
  intros Hb Hinv. revert a. induction n as [|n IH]; intros a Ha; cbn [times].
  - eapply reads_iff; [apply reads_ret|]. intros c a' u _. split.
    + intros [-> ->]. by exists [].
    + intros ([|] & ? & -> & _ & ->); done.
  - eapply reads_iff; [eapply reads_bind with (S := fun a c a' u => exists l, length l = n
      /\ u = concat (enc <$> l) /\ chain enc pre step c a l /\ a' = foldl step a l);
      [by apply Hb|]|].
    + intros a' (c & v & x & -> & Hx & ->). apply IH. by eapply Hinv.
    + intros c a' u _. cbn beta. split.
      * intros (a1 & v & w & -> & (x & -> & Hx & ->) & l & <- & -> & Hl & ->). by exists (x :: l).
      * intros ([|x l] & Hn & -> & Hl & ->); [done|]. destruct Hl as [Hx Hl].
        exists (step a x), (enc x), (concat (enc <$> l)). split; [done|]. split; [by exists x|].
        exists l. by injection Hn.
Qed.
(** ** Strings and values *)

Lemma reads_string maximum :
  maximum <= u64_max ->
  reads (read_gguf_string N maximum) (fun _ s u => u = enc_string s /\ 0 < zlen s <= maximum).
Proof.
  intros Hm. unfold read_gguf_string. eapply reads_iff.
  - apply reads_u64. intros z Hz. apply reads_guard. intros _. apply reads_exact. lia.
  - intros c s u _. unfold enc_string. split.
    + intros (z & v & -> & Hz & Hg & -> & <-). split; [done|]. pose proof (zlen_nonneg v).
      apply negb_true_iff, orb_false_iff in Hg. lia.
    + intros [-> Hs]. exists (zlen s), s. split; [done|]. split; [lia|]. split; [|done].
      apply negb_true_iff, orb_false_iff. lia.
Qed.

Lemma reads_skip_string :
  reads (skip_gguf_string N) (fun _ _ u => exists s, u = enc_string s /\ string_ok s).
Proof.
  unfold skip_gguf_string. eapply reads_iff.
  - apply reads_u64. intros z Hz. apply reads_guard. intros _. apply reads_skip. lia.
  - intros c s u _. unfold enc_string, string_ok. split.
    + intros (z & v & -> & Hz & Hg & <-). exists v. split; [done|]. lia.
    + intros (v & -> & Hv). exists (zlen v), v. split; [done|].
      pose proof (zlen_nonneg v). unfold GGUF_MAX_STRING_BYTES, u64_max in *. repeat split; lia.
Qed.

Lemma reads_identity_string :
  reads (read_gguf_identity_string N) (fun _ o u => exists s, u = enc_string s /\ string_ok s
    /\ s <> [] /\ o = if zlen s <=? GGUF_MAX_IDENTITY_STRING_BYTES then Some s else None).
Proof.
  unfold read_gguf_identity_string. eapply reads_iff.
  - apply reads_u64 with (R := fun z _ o u => negb ((z =? 0) || (z >? GGUF_MAX_STRING_BYTES)) = true
      /\ zlen u = z /\ o = if zlen u <=? GGUF_MAX_IDENTITY_STRING_BYTES then Some u else None).
    intros z Hz. eapply reads_guard. intros _.
    destruct (z >? GGUF_MAX_IDENTITY_STRING_BYTES) eqn:Hz'.
    + eapply reads_iff; [apply reads_bind with (S := fun _ _ o u => o = None /\ u = []);
        [apply reads_skip; lia|intros _ _; apply reads_ret]|].
      intros c o u _. split.
      * intros (_ & v & w & -> & Hv & -> & ->). rewrite app_nil_r. split; [done|].
        destruct (Z.leb_spec (zlen v) GGUF_MAX_IDENTITY_STRING_BYTES); [lia|done].
      * intros [Hu ->]. exists tt, u, []. rewrite app_nil_r. repeat split; try done.
        destruct (Z.leb_spec (zlen u) GGUF_MAX_IDENTITY_STRING_BYTES); [lia|done].
    + eapply reads_iff; [apply reads_bind with (S := fun s _ o u => o = Some s /\ u = []);
        [apply reads_exact; lia|intros s _; apply reads_ret]|].
      intros c o u _. split.
      * intros (s & v & w & -> & [-> Hv] & -> & ->). rewrite app_nil_r. split; [done|].
        destruct (Z.leb_spec (zlen v) GGUF_MAX_IDENTITY_STRING_BYTES); [done|lia].
      * intros [Hu ->]. exists u, u, []. rewrite app_nil_r. repeat split; try done.
        destruct (Z.leb_spec (zlen u) GGUF_MAX_IDENTITY_STRING_BYTES); [done|lia].
  - intros c o u _. unfold enc_string, string_ok. split.
    + intros (z & v & -> & Hz & Hg & <- & ->). exists v.
      apply negb_true_iff, orb_false_iff in Hg as [Hg1 Hg2]. repeat split; [lia|].
      intros ->. by rewrite zlen_nil in Hg1.
    + intros (s & -> & Hs & Hne & ->). exists (zlen s), s. pose proof (zlen_nonneg s).
      assert (zlen s <> 0) by (by destruct s).
      unfold GGUF_MAX_STRING_BYTES, u64_max in *. repeat split; try done; lia.
Qed.

Lemma reads_bool : reads (read_bool N) (fun _ _ u => exists b, u = enc_bool b).
Proof.
  unfold read_bool. eapply reads_iff.
  - apply (reads_le 1 (fun z => gp_guard (z <=? 1))). intros z Hz. apply reads_guard_unit.
  - intros c [] u _. unfold enc_bool. split.
    + intros (z & v & -> & Hz & Hz1 & ->). exists (z =? 1). rewrite app_nil_r.
      destruct (Z.eqb_spec z 1) as [->|]; [done|]. assert (z = 0) as -> by lia. done.
    + intros [b ->]. exists (if b then 1 else 0), []. rewrite app_nil_r. by destruct b.
Qed.

Lemma chain_forall {A X} (enc : X -> list ascii) (P : X -> Prop) step c (a : A) l :
  chain enc (fun _ _ x => P x) step c a l <-> Forall P l.
Proof.
  revert c a. induction l as [|x l IH]; intros c a; cbn [chain]; [done|].
  by rewrite IH, Forall_cons.
Qed.

(** A loop whose body keeps nothing. *)
Lemma reads_each {X} (enc : X -> list ascii) (P : X -> Prop) n (p : Gp unit) :
  reads p (fun _ _ u => exists x, u = enc x /\ P x) ->
  reads (times n (fun _ => p) tt) (fun _ _ u => exists l, length l = n /\ u = concat (enc <$> l) /\ Forall P l).
Proof.
  intros Hp. eapply reads_iff.
  - apply (reads_times (fun _ => True) enc (fun _ _ x => P x) (fun _ _ => tt)); [|done..].
    intros [] _. eapply reads_iff; [exact Hp|]. intros c [] u _. naive_solver.
  - intros c [] u _. setoid_rewrite chain_forall. split; intros (l & ? & ? & ?).
    + exists l. naive_solver.
    + exists l. repeat split; try done. clear. by induction l.
Qed.

Definition array_body (element_type count : Z) (u : list ascii) : Prop :=
  (exists width, scalar_bytes element_type = Some width /\ zlen u = width * count)
  \/ (element_type = 7 /\ exists l, zlen l = count /\ u = concat (enc_bool <$> l))
  \/ (element_type = 8 /\ exists l, zlen l = count /\ u = concat (enc_string <$> l) /\ Forall string_ok l).

Lemma scalar_bytes_pos ty w : scalar_bytes ty = Some w -> 0 < w <= 8 /\ 0 <= ty <= 12 /\ ty <> 7 /\ ty <> 8 /\ ty <> 9.
Proof. clear HN.
  intros H. assert (0 < w <= 8 /\ 0 <= ty <= 12 /\ negb ((ty =? 7) || (ty =? 8) || (ty =? 9)) = true) as (? & ? & Hn).
  { destruct ty as [|q|q]; cbn in H; try (by injection H as <-); [|done].
    repeat (destruct q as [q|q|]; cbn in H; try (by injection H as <-); try done). }
  apply negb_true_iff in Hn. repeat (apply orb_false_iff in Hn as [Hn ?]). lia.
Qed.

Lemma skip_array_cases ety count :
  skip_metadata_array N ety count =
  match scalar_bytes ety with
  | Some w => length ← gp_some (checked_mul64 w count); skip_bytes N length
  | None =>
    if ety =? 7 then times (Z.to_nat count) (fun _ => read_bool N) tt
    else if ety =? 8 then times (Z.to_nat count) (fun _ => skip_gguf_string N) tt
    else gp_fail InvalidGguf
  end.
Proof.
  unfold skip_metadata_array. destruct (scalar_bytes ety); [done|].
  destruct ety as [|q|q]; [done| |done]. repeat (destruct q as [q|q|]; try done).
Qed.

Lemma reads_array ety count :
  0 <= count -> reads (skip_metadata_array N ety count) (fun _ _ u => array_body ety count u).
Proof.
  intros Hc. rewrite skip_array_cases. unfold array_body.
  destruct (scalar_bytes ety) as [w|] eqn:Hw.
  - destruct (scalar_bytes_pos _ _ Hw) as (Hw0 & _ & H7 & H8 & _). eapply reads_iff_le.
    + apply reads_some. intros x Hx. unfold checked_mul64 in Hx. apply reads_skip.
      destruct (_ <=? _); [|done]. injection Hx as <-. nia.
    + intros c [] u Hc0 Hle. unfold checked_mul64. split.
      * intros (x & Hx & Hu). destruct (_ <=? _); [|done]. injection Hx as <-. left. eauto.
      * intros [(w' & [= <-] & Hu)|[[]|[]]]; [|done..]. exists (w * count). split; [|done].
        destruct (Z.leb_spec (w * count) u64_max); [done|]. unfold u64_max, i64_max in *. lia.
  - destruct (Z.eqb_spec ety 7) as [->|H7]; [|destruct (Z.eqb_spec ety 8) as [->|H8]].
    + eapply reads_iff; [apply (reads_each enc_bool (fun _ => True))|].
      * eapply reads_iff; [apply reads_bool|]. naive_solver.
      * intros c [] u _. split.
        -- intros (l & Hl & -> & _). right; left. split; [done|]. exists l. unfold zlen. split; [lia|done].
        -- intros [(? & ? & ?)|[(_ & l & Hl & ->)|[? _]]]; [done| |done]. exists l.
           split; [unfold zlen in Hl; lia|]. split; [done|]. by apply Forall_true.
    + eapply reads_iff; [apply (reads_each enc_string string_ok), reads_skip_string|].
      intros c [] u _. split.
      * intros (l & Hl & -> & ?). right; right. split; [done|]. exists l. unfold zlen. split; [lia|done].
      * intros [(? & ? & ?)|[[? _]|(_ & l & Hl & -> & ?)]]; [done|done|]. exists l.
        split; [unfold zlen in Hl; lia|done].
    + eapply reads_iff; [apply reads_fail|]. naive_solver.
Qed.

Lemma skip_value_cases ty items :
  skip_metadata_value N ty items =
  match scalar_bytes ty with
  | Some w => _ ← skip_bytes N w; mret items
  | None =>
    if ty =? 7 then _ ← read_bool N; mret items
    else if ty =? 8 then _ ← skip_gguf_string N; mret items
    else if ty =? 9 then
      element_type ← read_u32 N;
      count ← read_u64 N;
      items ← gp_some (checked_add64 items count);
      _ ← gp_guard (items <=? GGUF_MAX_ARRAY_ITEMS);
      _ ← skip_metadata_array N element_type count;
      mret items
    else gp_fail InvalidGguf
  end.
Proof.
  unfold skip_metadata_value. destruct ty as [|q|q]; [done| |done].
  repeat (destruct q as [q|q|]; try done).
Qed.

(** A reader of nothing but the bytes of [p]. *)
Lemma reads_then {A B} (p : Gp A) (b : B) R :
  reads p R -> reads (_ ← p; mret b) (fun c b' u => b' = b /\ exists a, R c a u).
Proof.
  intros Hp. eapply reads_iff; [apply reads_bind with (S := fun _ _ b' u => b' = b /\ u = []);
    [exact Hp|intros _ _; apply reads_ret]|].
  intros c b' u _. split.
  - intros (a & v & w & -> & Ha & -> & ->). rewrite app_nil_r. eauto.
  - intros [-> [a Ha]]. exists a, u, []. by rewrite app_nil_r.
Qed.

Definition value_spec (ty items items' : Z) (u : list ascii) : Prop :=
  exists v, value_type_of v = ty /\ value_ok v /\ u = enc_value v
    /\ items' = items + array_items_of v /\ items' <= GGUF_MAX_ARRAY_ITEMS.

Lemma array_value items items' u :
  0 <= items ->
  (exists ety count w, u = le_enc 4 ety ++ le_enc 8 count ++ w /\ 0 <= ety < 2 ^ 32
     /\ 0 <= count <= u64_max /\ array_body ety count w
     /\ items' = items + count /\ items' <= GGUF_MAX_ARRAY_ITEMS)
  <-> value_spec 9 items items' u.
Proof.
  intros Hi. unfold value_spec. split.
  - intros (ety & count & v & -> & He & Hc & [(w & Hw & Hu)|[(-> & l & <- & ->)|(-> & l & <- & -> & Hl)]] & -> & Hm).
    + exists (GScalars ety count v). cbn. split; [done|]. split; [|done]. exists w. split; [done|]. split; [lia|done].
    + by exists (GBools l).
    + by exists (GStrings l).
  - unfold GGUF_MAX_ARRAY_ITEMS, u64_max. intros ([ty raw|b|s|ety count raw|l|l] & Hty & Hok & -> & -> & Hm); try done; cbn in *.
    + subst ty. by destruct (scalar_bytes_pos _ _ Hok) as (_ & _ & _ & _ & ?).
    + destruct Hok as (w & Hw & Hc & Hu). destruct (scalar_bytes_pos _ _ Hw) as (_ & ? & _).
      exists ety, count, raw. repeat split; try done; try lia. left. eauto.
    + exists 7, (zlen l), (concat (enc_bool <$> l)). pose proof (zlen_nonneg l).
      repeat split; try done; try lia. right; left. eauto.
    + exists 8, (zlen l), (concat (enc_string <$> l)). pose proof (zlen_nonneg l).
      repeat split; try done; try lia. right; right. eauto.
Qed.

Lemma reads_value ty items :
  0 <= items <= GGUF_MAX_ARRAY_ITEMS ->
  reads (skip_metadata_value N ty items) (fun _ items' u => value_spec ty items items' u).
Proof.
  intros Hi. rewrite skip_value_cases. destruct (scalar_bytes ty) as [w|] eqn:Hw;
    [|destruct (Z.eqb_spec ty 7) as [->|H7]; [|destruct (Z.eqb_spec ty 8) as [->|H8];
    [|destruct (Z.eqb_spec ty 9) as [->|H9]]]].
  - destruct (scalar_bytes_pos _ _ Hw) as (Hw0 & _ & H7 & H8 & H9).
    eapply reads_iff; [apply reads_then, reads_skip; lia|]. intros c items' u _. split.
    + intros [-> [_ Hu]]. exists (GScalar ty u). cbn. rewrite Hw, Hu. repeat split; try done; lia.
    + intros ([] & <- & Hok & -> & -> & _); cbn in *; try congruence. rewrite Z.add_0_r.
      split; [done|]. exists tt. congruence.
  - eapply reads_iff; [apply reads_then, reads_bool|]. intros c items' u _. split.
    + intros [-> (_ & b & ->)]. exists (GBool b). cbn. repeat split; try done; lia.
    + intros ([ty' raw|b|s| | |] & Hty & Hok & -> & -> & _); cbn in *; try congruence; rewrite Z.add_0_r.
      * subst. by destruct (scalar_bytes_pos _ _ Hok) as (_ & _ & ? & _).
      * split; [done|]. by exists tt, b.
  - eapply reads_iff; [apply reads_then, reads_skip_string|]. intros c items' u _. split.
    + intros [-> (_ & s & -> & Hs)]. exists (GString s). cbn. repeat split; try done; lia.
    + intros ([ty' raw|b|s| | |] & Hty & Hok & -> & -> & _); cbn in *; try congruence; rewrite Z.add_0_r.
      * subst. by destruct (scalar_bytes_pos _ _ Hok) as (_ & _ & _ & ? & _).
      * split; [done|]. by exists tt, s.
  - eapply reads_iff.
    + apply reads_u32. intros ety He. apply reads_u64. intros count Hc. apply reads_some.
      intros total Ht. apply reads_guard. intros Hg. apply reads_then, reads_array. lia.
    + intros c items' u _. rewrite <-array_value by lia. split.
      * intros (ety & v & -> & He & count & w & -> & Hc & total & Ht & Hg & -> & [] & Hb).
        unfold checked_add64 in Ht. destruct (_ <=? _) in Ht; [|done]. injection Ht as <-.
        exists ety, count, w. repeat split; try done; lia.
      * intros (ety & count & w & -> & He & Hc & Hb & -> & Hm).
        exists ety, (le_enc 8 count ++ w). split; [done|]. split; [done|].
        exists count, w. split; [done|]. split; [done|]. exists (items + count).
        unfold checked_add64. assert (items + count <= u64_max) as ->%Z.leb_le
          by (unfold GGUF_MAX_ARRAY_ITEMS, u64_max in *; lia).
        split; [done|]. split; [by apply Z.leb_le|]. split; [done|]. by exists tt.
  - eapply reads_iff; [apply reads_fail|]. intros c items' u _. split; [done|].
    intros ([] & Hty & Hok & -> & -> & _); cbn in *; congruence.
Qed.

(** ** Metadata entries *)

Definition display_string (s : list ascii) : option string :=
  if zlen s <=? GGUF_MAX_IDENTITY_STRING_BYTES then from_utf8 s else None.

Definition value_step (m : Metadata) (key : list ascii) (v : GgufValue) : Metadata :=
  if bool_decide (key = ALIGNMENT_KEY) then
    set_alignment m (match v with GScalar _ raw => le_val raw | _ => md_alignment m end)
  else match v with
  | GString s => if is_identity_key key then set_identity m key (display_string s) else m
  | _ => set_array_items m (md_array_items m + array_items_of v)
  end.

Lemma alignment_ok a :
  (8 <=? a) && (a <=? GGUF_MAX_ALIGNMENT) && is_power_of_two a = true <-> a ∈ ALIGNMENTS.
Proof. clear HN.
  split.
  - rewrite !andb_true_iff. unfold is_power_of_two. rewrite andb_true_iff.
    intros ((H1 & H2) & _ & H3). apply Z.eqb_eq in H3. apply Z.leb_le in H1, H2.
    pose proof (Z.log2_le_mono 8 a H1). pose proof (Z.log2_le_mono a 4096 H2).
    change (Z.log2 8) with 3 in *. change (Z.log2 4096) with 12 in *.
    assert (Hk : Z.log2 a ∈ seqZ 3 10) by (apply elem_of_seqZ; lia).
    rewrite <-H3. revert Hk. generalize (Z.log2 a). intros k Hk. unfold ALIGNMENTS.
    cbn in Hk. repeat (apply elem_of_cons in Hk as [->|Hk]; [set_solver|]). by apply not_elem_of_nil in Hk.
  - unfold ALIGNMENTS. intros Hk. repeat (apply elem_of_cons in Hk as [->|Hk]; [done|]).
    by apply not_elem_of_nil in Hk.
Qed.

Definition entry_value_spec (m : Metadata) (key : list ascii) (ty : Z) (m' : Metadata) (u : list ascii) : Prop :=
  exists v, value_type_of v = ty /\ value_ok v /\ key_value_ok key v /\ u = enc_value v
    /\ m' = value_step m key v /\ md_array_items m + array_items_of v <= GGUF_MAX_ARRAY_ITEMS.

Lemma set_array_items_same m : set_array_items m (md_array_items m) = m.
Proof. by destruct m. Qed.

Lemma reads_entry_value m key ty :
  0 <= md_array_items m <= GGUF_MAX_ARRAY_ITEMS ->
  reads (read_entry_value N m key ty) (fun _ m' u => entry_value_spec m key ty m' u).
Proof.
  intros Hi. unfold read_entry_value, entry_value_spec, value_step, key_value_ok.
  case_bool_decide as Ha; [subst key|destruct (_ && _) eqn:Hid].
  - eapply reads_iff; [apply reads_guard; intros Hty; apply reads_u32; intros a Hr;
      apply reads_guard; intros Ha; apply reads_ret|].
    intros c m' u _. split.
    + intros (Hty & a & v & -> & Hr & Ha & -> & ->). apply alignment_ok in Ha. apply Z.eqb_eq in Hty as ->.
      rewrite app_nil_r. exists (GScalar 4 (le_enc 4 a)). cbn [value_type_of value_ok enc_value array_items_of].
      rewrite zlen_le_bytes, le_val_bytes by done. repeat split; try done; [|lia]. intros _. by exists a.
    + intros (v & <- & Hok & [Hk _] & -> & -> & Hm). destruct (Hk eq_refl) as (a & -> & Ha).
      assert (0 <= a < 2 ^ 32).
      { apply alignment_ok in Ha. rewrite !andb_true_iff, !Z.leb_le in Ha. unfold GGUF_MAX_ALIGNMENT in Ha. lia. }
      split; [done|]. exists a, []. rewrite app_nil_r. split; [done|]. split; [done|].
      split; [by apply alignment_ok|]. by rewrite le_val_bytes.
  - apply andb_true_iff in Hid as [->%Z.eqb_eq Hid]. rewrite Hid.
    eapply reads_iff; [apply reads_bind with (S := fun o _ m' u => m' = set_identity m key (o ≫= from_utf8) /\ u = []);
      [apply reads_identity_string|intros o _; apply reads_ret]|].
    intros c m' u _. split.
    + intros (o & v & w & -> & (s & -> & Hs & Hne & ->) & -> & ->). rewrite app_nil_r.
      exists (GString s). cbn. repeat split; try done; [congruence| |lia]. f_equal. unfold display_string.
      by destruct (_ <=? _).
    + intros (v & Hty & Hok & [_ Hk] & -> & -> & Hm). destruct v as [ty raw| |s| | |]; try done; cbn in *.
      { subst. by destruct (scalar_bytes_pos _ _ Hok) as (_ & _ & _ & ? & _). }
      eexists _, (enc_string s), []. rewrite app_nil_r. split; [done|]. split.
      * exists s. repeat split; try done. intros ->. by apply Hk.
      * split; [|done]. unfold display_string. by destruct (_ <=? _).
  - eapply reads_iff; [apply reads_bind with (S := fun items _ m' u => m' = set_array_items m items /\ u = []);
      [by apply reads_value|intros o _; apply reads_ret]|].
    intros c m' u _. split.
    + intros (items & v & w & -> & (x & <- & Hok & -> & -> & Hm) & -> & ->). rewrite app_nil_r.
      exists x. split; [done|]. split; [done|]. assert (Hnid : is_identity_key key = true -> forall s, x <> GString s).
      { intros Hk s ->. by rewrite Hk in Hid. }
      split; [split; [done|]; intros Hk; by apply Hnid|]. split; [done|]. split; [|done].
      destruct x as [| |s| | |]; try done. cbn. rewrite Z.add_0_r, set_array_items_same.
      destruct (is_identity_key key) eqn:E; [|done]. by destruct (Hnid eq_refl s).
    + intros (x & <- & Hok & [_ Hk] & -> & -> & Hm). exists (md_array_items m + array_items_of x), (enc_value x), [].
      rewrite app_nil_r. split; [done|]. split; [by exists x|]. split; [|done].
      destruct x as [| |s| | |]; try done. cbn in *. rewrite Z.add_0_r, set_array_items_same. by rewrite Hid.
Qed.

Definition entry_pre (c : Z) (m : Metadata) (e : list ascii * GgufValue) : Prop :=
  entry_ok e /\ e.1 ∉ md_keys m
  /\ md_array_items m + array_items_of e.2 <= GGUF_MAX_ARRAY_ITEMS
  /\ c + zlen (enc_entry e) <= GGUF_MAX_HEADER_BYTES.
Definition entry_step (m : Metadata) (e : list ascii * GgufValue) : Metadata :=
  value_step (insert_key m e.1) e.1 e.2.

Lemma value_type_range v : value_ok v -> 0 <= value_type_of v < 2 ^ 32.
Proof. clear HN.
  destruct v as [ty raw| | | | |]; cbn; try lia. intros H.
  destruct (scalar_bytes_pos _ _ H) as (_ & ? & _). lia.
Qed.

Lemma reads_entry m :
  0 <= md_array_items m <= GGUF_MAX_ARRAY_ITEMS ->
  reads (read_metadata_entry N m)
    (fun c m' u => exists e, u = enc_entry e /\ entry_pre c m e /\ m' = entry_step m e).
Proof.
  intros Hi. unfold read_metadata_entry. eapply reads_iff.
  - eapply reads_bind; [by apply reads_string|]. intros key _. apply reads_guard. intros _.
    apply reads_u32. intros ty _. eapply reads_bind; [by apply reads_entry_value|].
    intros m' _. apply reads_budget.
  - intros c m' u _. unfold entry_step, entry_pre, entry_ok. split.
    + intros (key & v & w & -> & [-> Hlen] & Hg & ty & w' & -> & Hty & m2 & w2 & w3 & -> & (x & <- & Hok & Hk & -> & -> & Hm) & -> & -> & Hb).
      apply andb_true_iff in Hg as [Hv Hn]. apply bool_decide_eq_true in Hn. exists (key, x).
      unfold enc_entry. cbn [fst snd]. rewrite app_nil_r. split; [done|].
      split; [|done]. split; [done|]. split; [done|]. split; [done|].
      rewrite !zlen_app, zlen_le_bytes. lia.
    + intros ([key x] & -> & ((Hlen & Hv & Hok & Hk) & Hn & Hm & Hb) & ->). cbn [fst snd] in *.
      unfold enc_entry in *. cbn [fst snd] in *. rewrite !zlen_app, zlen_le_bytes in Hb.
      eexists key, (enc_string key), _. split; [done|]. split; [done|].
      split; [apply andb_true_iff; split; [done|by apply bool_decide_eq_true]|].
      exists (value_type_of x), (enc_value x). split; [done|]. split; [by apply value_type_range|].
      eexists _, (enc_value x), []. rewrite app_nil_r. split; [done|]. split; [by exists x|].
      repeat split; try done. lia.
Qed.

(** ** Tensors *)

Lemma layout_cases ty :
  ggml_type_layout ty = match type_layout ty with Some l => mret l | None => gp_fail InvalidGguf end.
Proof.
  unfold type_layout. destruct ty as [|q|q]; [done| |done].
  repeat (destruct q as [q|q|]; try done).
Qed.

Lemma type_layout_range ty be bb :
  type_layout ty = Some (be, bb) -> 0 < be /\ 0 < bb /\ 0 <= ty < 2 ^ 32.
Proof. clear HN.
  intros H. assert ((0 <? be) && (0 <? bb) && (0 <=? ty) && (ty <=? 42) = true).
  { unfold type_layout in H. destruct ty as [|q|q]; cbn in H; [by injection H as <- <-| |done].
    repeat (destruct q as [q|q|]; cbn in H; try (by injection H as <- <-); try done). }
  rewrite !andb_true_iff in *. lia.
Qed.

Definition dim_pre (_ rows d : Z) : Prop := 0 < d <= u64_max /\ rows * d <= u64_max.

Lemma product_pos l : Forall (fun d => 0 < d <= u64_max) l -> 1 <= product l.
Proof. clear HN. induction 1 as [|d l Hd _ IH]; cbn [product foldr]; [done|]. change (foldr Z.mul 1 l) with (product l). nia. Qed.

Lemma dims_chain c rows l :
  1 <= rows <= u64_max ->
  chain (le_enc 8) dim_pre Z.mul c rows l
  <-> Forall (fun d => 0 < d <= u64_max) l /\ rows * product l <= u64_max.
Proof. clear HN.
  revert c rows. induction l as [|d l IH]; intros c rows Hr; cbn [chain product foldr].
  { rewrite Z.mul_1_r. split; [intros _; split; [constructor|lia]|done]. }
  change (foldr Z.mul 1 l) with (product l). unfold dim_pre at 1. split.
  - intros [[Hd Hp] Hl]. apply IH in Hl as [Hl Hm]; [|nia]. split; [by constructor|lia].
  - intros [[Hd Hl]%Forall_cons Hp]. pose proof (product_pos l Hl).
    assert (rows * d <= u64_max) by nia. split; [done|]. apply IH; [nia|]. split; [done|lia].
Qed.

Lemma dims_fold rows l : foldl Z.mul rows l = rows * product l.
Proof. clear HN.
  revert rows. induction l as [|d l IH]; intros rows; cbn [foldl product foldr]; [lia|].
  rewrite IH. change (foldr Z.mul 1 l) with (product l). lia.
Qed.

Lemma reads_dims n :
  reads (times n (read_dimension N) 1) (fun _ rows u => exists l, length l = n
    /\ u = concat (le_enc 8 <$> l) /\ Forall (fun d => 0 < d <= u64_max) l
    /\ rows = product l /\ product l <= u64_max).
Proof.
  eapply reads_iff.
  - apply (reads_times (fun rows => 1 <= rows) (le_enc 8) dim_pre Z.mul); [| |done].
    + intros rows Hr. unfold read_dimension. eapply reads_iff.
      * apply reads_u64. intros d Hd. apply reads_guard. intros _. apply reads_some_unit.
      * intros c a u _. unfold dim_pre, checked_mul64. split.
        -- intros (d & v & -> & Hd & Hg & Hs & ->). destruct (_ <=? _) eqn:E in Hs; [|done]. injection Hs as <-.
           exists d. rewrite app_nil_r. repeat split; try done; lia.
        -- intros (d & -> & [Hd Hp] & ->). exists d, []. rewrite app_nil_r. apply Z.leb_le in Hp as ->.
           repeat split; try done; lia.
    + unfold dim_pre. nia.
  - intros c rows u _. cbn beta. split.
    + intros (l & Hl & -> & Hc & ->). apply dims_chain in Hc as [Hd Hp]; [|unfold u64_max; lia].
      rewrite dims_fold, Z.mul_1_l in *. by exists l.
    + intros (l & Hl & -> & Hd & -> & Hp). exists l. split; [done|]. split; [done|].
      rewrite dims_fold, Z.mul_1_l. split; [|done]. apply dims_chain; [unfold u64_max; lia|].
      by rewrite Z.mul_1_l.
Qed.

Lemma tensor_bytes_spec first be bb rows length :
  0 < first -> first mod be = 0 -> 0 < be -> 0 < bb -> 1 <= rows ->
  tensor_bytes first be bb rows = Some length
  <-> length = first / be * bb * rows /\ length <= MAX_SIZE_BYTES.
Proof. clear HN.
  intros Hf Hm Hbe Hbb Hr. unfold tensor_bytes, checked_mul64.
  assert (1 <= first / be) by (pose proof (Z.div_mod first be); nia).
  set (row := first / be * bb). assert (1 <= row) by nia.
  destruct (Z.leb_spec row u64_max) as [H1|H1]; cbn [mbind option_bind].
  - destruct (Z.leb_spec (row * rows) u64_max) as [H2|H2]; cbn [mbind option_bind].
    + destruct (Z.ltb_spec 0 (row * rows)); [|nia]. cbn [andb].
      destruct (Z.leb_spec (row * rows) MAX_SIZE_BYTES).
      * split; [by intros [= <-]|by intros [-> _]].
      * split; [done|]. intros [-> ?]. lia.
    + split; [done|]. unfold MAX_SIZE_BYTES, u64_max in *. lia.
  - split; [done|]. unfold MAX_SIZE_BYTES, u64_max in *. intros [-> ?]. nia.
Qed.

Definition span_of (t : GgufTensor) : TensorSpan :=
  {| ts_offset := t_offset t; ts_length := tensor_length t |}.
Definition tensor_pre (c : Z) (acc : gset (list ascii) * list TensorSpan) (t : GgufTensor) : Prop :=
  tensor_ok t /\ t_name t ∉ acc.1 /\ c + zlen (enc_tensor t) <= GGUF_MAX_HEADER_BYTES.
Definition tensor_step (acc : gset (list ascii) * list TensorSpan) (t : GgufTensor)
  : gset (list ascii) * list TensorSpan :=
  ({[t_name t]} ∪ acc.1, acc.2 ++ [span_of t]).

Definition span_spec (first rows : Z) (span : TensorSpan) (u : list ascii) : Prop :=
  exists ty offset be bb, type_layout ty = Some (be, bb) /\ first mod be = 0
    /\ u = le_enc 4 ty ++ le_enc 8 offset /\ first / be * bb * rows <= MAX_SIZE_BYTES
    /\ u64_fits offset /\ span = {| ts_offset := offset; ts_length := first / be * bb * rows |}.

Lemma reads_span first rows :
  0 < first -> 1 <= rows -> reads (read_span N first rows) (fun _ span u => span_spec first rows span u).
Proof.
  intros Hf Hp. unfold read_span, span_spec. eapply reads_iff.
  - apply reads_u32 with (R := fun ty _ span u => exists be bb offset length,
      type_layout ty = Some (be, bb) /\ first mod be = 0
      /\ tensor_bytes first be bb rows = Some length
      /\ u = le_enc 8 offset /\ 0 <= offset <= u64_max
      /\ span = {| ts_offset := offset; ts_length := length |}).
    intros ty _. rewrite layout_cases. destruct (type_layout ty) as [[be bb]|].
    + eapply reads_iff.
      * eapply reads_ext; [intros r; reflexivity|]. apply reads_guard. intros _.
        apply reads_some. intros length _. apply reads_u64. intros offset _. apply reads_ret.
      * intros c span u _. split.
        -- intros (Hm & length & Hl & offset & v & -> & Ho & -> & ->). rewrite app_nil_r.
           exists be, bb, offset, length. repeat split; try done; lia.
        -- intros (be' & bb' & offset & length & [= <- <-] & Hm & Hl & -> & Ho & ->).
           split; [by apply Z.eqb_eq|]. exists length. split; [done|]. exists offset, [].
           by rewrite app_nil_r.
    + eapply reads_iff; [exact reads_fail|]. intros c span u _. split; [done|]. by intros (?&?&?&?&?&?).
  - intros c span u _. split.
    + intros (ty & v & -> & Hty & be & bb & offset & length & Hl & Hm & Ht & -> & Ho & ->).
      destruct (type_layout_range _ _ _ Hl) as (Hbe & Hbb & _).
      apply tensor_bytes_spec in Ht as [-> Hmax]; try done. by exists ty, offset, be, bb.
    + intros (ty & offset & be & bb & Hl & Hm & -> & Hmax & Ho & ->).
      destruct (type_layout_range _ _ _ Hl) as (Hbe & Hbb & Hty).
      exists ty, (le_enc 8 offset). split; [done|]. split; [done|].
      exists be, bb, offset, (first / be * bb * rows). split; [done|]. split; [done|].
      by split; [by apply tensor_bytes_spec|].
Qed.

Lemma reads_tensor acc :
  reads (read_tensor_span N acc)
    (fun c acc' u => exists t, u = enc_tensor t /\ tensor_pre c acc t /\ acc' = tensor_step acc t).
Proof.
  unfold read_tensor_span. eapply reads_iff.
  - eapply reads_bind; [by apply reads_string|]. intros name _. apply reads_guard. intros _.
    apply reads_u32. intros n _. apply reads_guard. intros _. apply reads_u64. intros first Hfirst.
    apply reads_guard. intros Hg. eapply reads_bind with (S := fun rows c acc' u => exists span v w,
      u = v ++ w /\ span_spec first rows span v
      /\ acc' = ({[name]} ∪ acc.1, acc.2 ++ [span]) /\ w = [] /\ c + zlen v <= GGUF_MAX_HEADER_BYTES);
      [apply reads_dims|].
    intros rows (_ & _ & more & _ & _ & Hd & -> & Hp). eapply reads_iff;
      [eapply reads_bind; [apply reads_span; [lia|by apply product_pos]|intros span _; apply reads_budget]|done].
  - intros c acc' u _. unfold tensor_pre, tensor_ok, tensor_step, span_of, enc_tensor, tensor_length. cbn beta. split.
    + intros (name & v & w & -> & [-> Hlen] & Hg & n & w1 & -> & Hn & Hn4 & first & w2 & -> & Hf & Hf0 &
        rows & w3 & w4 & -> & (more & Hl & -> & Hd & -> & Hp) & span & w5 & w6 & -> &
        (ty & offset & be & bb & Hlay & Hm & -> & Hmax & Ho & ->) & -> & -> & Hb).
      apply andb_true_iff in Hg as [Hv Hnm]. apply bool_decide_eq_true in Hnm.
      apply andb_true_iff in Hn4 as [H1%Z.leb_le H4%Z.leb_le]. apply negb_true_iff, Z.eqb_neq in Hf0.
      assert (n = 1 + zlen more) as -> by (unfold zlen; lia).
      exists {| t_name := name; t_first := first; t_more := more; t_type := ty; t_offset := offset |}.
      cbn [t_name t_first t_more t_type t_offset]. rewrite Hlay, app_nil_r. split; [by rewrite <-?app_assoc|].
      split; [|done]. split; [|split; [done|]].
      * split; [done|]. split; [done|]. split; [constructor; [lia|done]|]. split; [lia|].
        split; [by exists be, bb|]. by split.
      * rewrite !zlen_app, !zlen_le_bytes in *. lia.
    + intros ([name first more ty offset] & -> & ((Hlen & Hv & [Hf Hd]%Forall_cons & H4 & (be & bb & Hlay & Hm) & Hmax & Ho) & Hnm & Hb) & ->).
      cbn [t_name t_first t_more t_type t_offset] in *. rewrite Hlay in *.
      rewrite !zlen_app, !zlen_le_bytes in Hb. pose proof (zlen_nonneg more).
      assert (Hpr : product more <= u64_max).
      { destruct (type_layout_range _ _ _ Hlay) as (Hbe & Hbb & _).
        assert (1 <= first / be) by (pose proof (Z.div_mod first be); nia).
        pose proof (product_pos more Hd). unfold MAX_SIZE_BYTES, u64_max in *. nia. }
      eexists name, (enc_string name), _. split; [done|]. split; [done|].
      split; [apply andb_true_iff; split; [done|by apply bool_decide_eq_true]|].
      eexists (1 + zlen more), _. split; [done|]. split; [unfold GGUF_MAX_DIMENSIONS in *; lia|].
      split; [unfold GGUF_MAX_DIMENSIONS in *; lia|].
      eexists first, _. split; [done|]. split; [lia|]. split; [lia|].
      eexists (product more), (concat (le_enc 8 <$> more)), _. split; [done|].
      split; [exists more; repeat split; try done; unfold zlen; lia|].
      eexists _, (le_enc 4 ty ++ le_enc 8 offset), []. rewrite app_nil_r. split; [done|].
      split; [by exists ty, offset, be, bb|]. split; [done|]. split; [done|].
      rewrite ?zlen_app, ?zlen_le_bytes. lia.
Qed.

(** ** Everything after the fixed header *)

Lemma value_items_nonneg v : value_ok v -> 0 <= array_items_of v.
Proof. clear HN. destruct v; cbn; try done; [intros (? & ? & ? & ?); lia|intros _; apply zlen_nonneg..]. Qed.

Lemma entry_step_items m e :
  entry_ok e -> md_array_items (entry_step m e) = md_array_items m + array_items_of e.2.
Proof. clear HN.
  intros (_ & _ & _ & Hk & _). unfold entry_step, value_step. case_bool_decide as Ha.
  - destruct (Hk Ha) as (a & -> & _). cbn. lia.
  - destruct (e.2) as [| |s| | |]; try done. destruct (is_identity_key _); cbn; lia.
Qed.

Definition entries_read (c : Z) (m : Metadata) (l : list (list ascii * GgufValue)) : Prop :=
  chain enc_entry entry_pre entry_step c m l.
Definition tensors_read (c : Z) (l : list GgufTensor) : Prop :=
  chain enc_tensor tensor_pre tensor_step c (∅, []) l.

Definition data_checked (cursor tensor_count alignment : Z) (tensors : list TensorSpan) : Prop :=
  0 < tensor_count -> exists data_start, align_up cursor alignment = Some data_start /\ data_start < N
    /\ check_layout alignment (N - data_start) 0 (sort_by_offset tensors) = true.

Lemma reads_data tensor_count alignment tensors :
  reads (check_tensor_data N tensor_count alignment tensors)
    (fun c _ u => u = [] /\ data_checked c tensor_count alignment tensors).
Proof.
  unfold check_tensor_data, data_checked. eapply reads_iff.
  - apply reads_here with (R := fun c0 _ _ u => u = [] /\ (0 < tensor_count -> exists data_start,
      align_up c0 alignment = Some data_start /\ data_start < N
      /\ check_layout alignment (N - data_start) 0 (sort_by_offset tensors) = true)).
    intros c0. destruct (Z.ltb_spec 0 tensor_count) as [Ht|Ht].
    + eapply reads_iff; [apply reads_some; intros d _; apply reads_guard; intros _; apply reads_guard_unit|].
      intros c [] u _. split.
      * intros (d & Hd & Hl & Hc & ->). split; [done|]. intros _. exists d. split; [done|]. split; [lia|done].
      * intros [-> Hd]. destruct (Hd Ht) as (d & ? & ? & ?). exists d. split; [done|]. split; [lia|done].
    + eapply reads_iff; [apply (reads_ret tt)|]. intros c [] u _. split; [|naive_solver].
      intros [_ ->]. split; [done|]. lia.
  - done.
Qed.

Definition body_spec (version tensor_count metadata_kv_count c : Z) (md : GgufMetadata) (u : list ascii) : Prop :=
  MIN_TENSOR_COUNT <= tensor_count <= MAX_TENSOR_COUNT /\ metadata_kv_count <= MAX_METADATA_KV_COUNT
  /\ exists entries tensors, let m := foldl entry_step no_metadata entries in
    length entries = Z.to_nat metadata_kv_count /\ length tensors = Z.to_nat tensor_count
    /\ u = concat (enc_entry <$> entries) ++ concat (enc_tensor <$> tensors)
    /\ entries_read c no_metadata entries
    /\ tensors_read (c + zlen (concat (enc_entry <$> entries))) tensors
    /\ data_checked (c + zlen u) tensor_count (md_alignment m) (foldl tensor_step (∅, []) tensors).2
    /\ md = {| gm_version := version; gm_tensor_count := tensor_count;
               gm_metadata_kv_count := metadata_kv_count; gm_architecture := md_architecture m;
               gm_model_name := md_model_name m; gm_license := md_license m |}.

Lemma reads_entries n :
  reads (times n (read_metadata_entry N) no_metadata)
    (fun c m u => exists l, length l = n /\ u = concat (enc_entry <$> l)
       /\ entries_read c no_metadata l /\ m = foldl entry_step no_metadata l).
Proof.
  apply (reads_times (fun m => 0 <= md_array_items m <= GGUF_MAX_ARRAY_ITEMS)).
  - intros m Hm. by apply reads_entry.
  - intros c m e Hm (Hok & _ & Hi & _). rewrite entry_step_items by done.
    pose proof (value_items_nonneg e.2 ltac:(apply Hok)). lia.
  - by cbn.
Qed.

Lemma reads_tensors tensor_count :
  reads (read_tensor_spans N tensor_count)
    (fun c spans u => exists l, length l = Z.to_nat tensor_count /\ u = concat (enc_tensor <$> l)
       /\ tensors_read c l /\ spans = (foldl tensor_step (∅, []) l).2).
Proof.
  unfold read_tensor_spans. eapply reads_iff.
  - eapply reads_bind; [|intros acc _; apply reads_ret].
    apply (reads_times (fun _ => True) enc_tensor tensor_pre tensor_step); [|done..]. intros acc _. apply reads_tensor.
  - intros c spans u _. split.
    + intros (acc & v & w & -> & (l & Hl & -> & Hc & ->) & -> & ->). exists l. by rewrite app_nil_r.
    + intros (l & Hl & -> & Hc & ->). eexists _, _, []. rewrite app_nil_r. split; [done|].
      split; [|done]. by exists l.
Qed.

Lemma reads_body version tensor_count metadata_kv_count :
  reads (parse_body N version tensor_count metadata_kv_count)
    (fun c md u => body_spec version tensor_count metadata_kv_count c md u).
Proof.
  unfold parse_body, body_spec. eapply reads_iff.
  - apply reads_guard. intros _. eapply reads_bind; [apply reads_entries|]. intros m _.
    eapply reads_bind; [apply reads_tensors|]. intros spans _. apply reads_then, reads_data.
  - intros c md u _. cbn zeta. split.
    + intros (Hg & m & v & w & -> & (entries & Hne & -> & He & ->) & spans & v2 & w2 & -> &
        (tensors & Hnt & -> & Ht & ->) & -> & [] & -> & Hd).
      rewrite !andb_true_iff, !Z.leb_le in Hg. split; [lia|]. split; [lia|].
      exists entries, tensors. rewrite app_nil_r, zlen_app, Z.add_assoc. done.
    + intros (Hc1 & Hc2 & entries & tensors & Hne & Hnt & -> & He & Ht & Hd & ->).
      split; [rewrite !andb_true_iff, !Z.leb_le; lia|].
      eexists _, _, _. split; [done|]. split; [by exists entries|].
      eexists _, _, []. rewrite app_nil_r. split; [done|]. split; [by exists tensors|].
      split; [done|]. exists tt. split; [done|]. by rewrite <-Z.add_assoc, <-zlen_app.
Qed.
End reads.

(** ** What the loops accept *)

Definition items_sum (l : list (list ascii * GgufValue)) : Z := foldr Z.add 0 (array_items_of ∘ snd <$> l).

Lemma items_sum_nonneg l : Forall entry_ok l -> 0 <= items_sum l.
Proof.
  unfold items_sum. induction 1 as [|e l He _ IH]; cbn; [done|].
  pose proof (value_items_nonneg e.2 ltac:(apply He)). lia.
Qed.

Lemma value_step_keys m key v : md_keys (value_step m key v) = md_keys m.
Proof. unfold value_step. case_bool_decide; [done|]. destruct v; try done. by destruct (is_identity_key _). Qed.
Lemma entry_step_keys m e : md_keys (entry_step m e) = {[e.1]} ∪ md_keys m.
Proof. unfold entry_step. by rewrite value_step_keys. Qed.

Lemma zlen_pos {A} (l : list A) : l <> [] -> 0 < zlen l.
Proof. destruct l; [done|]. rewrite zlen_cons. pose proof (zlen_nonneg l). lia. Qed.

Lemma entries_chain c m l :
  0 <= md_array_items m <= GGUF_MAX_ARRAY_ITEMS ->
  entries_read c m l
  <-> Forall entry_ok l /\ NoDup l.*1 /\ Forall (fun e => e.1 ∉ md_keys m) l
      /\ md_array_items m + items_sum l <= GGUF_MAX_ARRAY_ITEMS
      /\ (l = [] \/ c + zlen (concat (enc_entry <$> l)) <= GGUF_MAX_HEADER_BYTES).
Proof.
  unfold entries_read. revert c m. induction l as [|e l IH]; intros c m Hm; cbn [chain].
  { split; [|done]. intros _. split; [constructor|]. split; [constructor|]. split; [constructor|].
    split; [cbn; lia|by left]. }
  rewrite !Forall_cons, fmap_cons, NoDup_cons, fmap_cons. cbn [concat]. rewrite zlen_app.
  change (items_sum (e :: l)) with (array_items_of e.2 + items_sum l).
  assert (Hkeys : Forall (fun x : list ascii * GgufValue => x.1 ∉ {[e.1]} ∪ md_keys m) l
    <-> e.1 ∉ l.*1 /\ Forall (fun x => x.1 ∉ md_keys m) l).
  { rewrite !Forall_forall, list_elem_of_fmap. split.
    - intros H. split; [intros (x & Hx & Hxl); specialize (H x Hxl); set_solver|].
      intros x Hx. specialize (H x Hx). set_solver.
    - intros [Hn H] x Hx. specialize (H x Hx). apply not_elem_of_union. split; [|done].
      intros Hxe%elem_of_singleton. apply Hn. by exists x. }
  assert (Hs : l = [] -> zlen (concat (enc_entry <$> l)) = 0) by (by intros ->).
  pose proof (zlen_nonneg (concat (enc_entry <$> l))). split.
  - intros [(Hok & Hn & Hi & Hb) Hl].
    pose proof (value_items_nonneg e.2 ltac:(apply Hok)).
    apply IH in Hl; [|rewrite entry_step_items by done; lia].
    rewrite entry_step_keys, entry_step_items, Hkeys in Hl by done.
    destruct Hl as (Hok' & Hnd & [Hne Hnk] & Hsum & Hlast).
    split; [done|]. split; [done|]. split; [done|]. split; [lia|].
    right. destruct Hlast as [E|]; [rewrite (Hs E)|]; lia.
  - intros ([Hok Hok'] & [Hne Hnd] & [Hn Hnk] & Hsum & Hlast). destruct Hlast as [|Hlast]; [done|].
    pose proof (items_sum_nonneg l Hok'). pose proof (value_items_nonneg e.2 ltac:(apply Hok)).
    split; [split; [done|]; split; [done|]; lia|]. apply IH; [rewrite entry_step_items by done; lia|].
    rewrite entry_step_keys, entry_step_items, Hkeys by done.
    split; [done|]. split; [done|]. split; [done|]. split; [lia|right; lia].
Qed.

Lemma tensors_chain c acc l :
  chain enc_tensor tensor_pre tensor_step c acc l
  <-> Forall tensor_ok l /\ NoDup (t_name <$> l) /\ Forall (fun t => t_name t ∉ acc.1) l
      /\ (l = [] \/ c + zlen (concat (enc_tensor <$> l)) <= GGUF_MAX_HEADER_BYTES).
Proof.
  revert c acc. induction l as [|t l IH]; intros c acc; cbn [chain].
  { split; [|done]. intros _. split; [constructor|]. split; [constructor|]. split; [constructor|by left]. }
  rewrite !Forall_cons, !fmap_cons, NoDup_cons. cbn [concat]. rewrite zlen_app, IH.
  unfold tensor_step at 1. cbn [fst].
  assert (Hkeys : Forall (fun x => t_name x ∉ {[t_name t]} ∪ acc.1) l
    <-> t_name t ∉ t_name <$> l /\ Forall (fun x => t_name x ∉ acc.1) l).
  { rewrite !Forall_forall, list_elem_of_fmap. split.
    - intros H. split; [intros (x & Hx & Hxl); specialize (H x Hxl); set_solver|].
      intros x Hx. specialize (H x Hx). set_solver.
    - intros [Hn H] x Hx. specialize (H x Hx). apply not_elem_of_union. split; [|done].
      intros Hxe%elem_of_singleton. apply Hn. by exists x. }
  assert (Hs : l = [] -> zlen (concat (enc_tensor <$> l)) = 0) by (by intros ->).
  rewrite Hkeys. unfold tensor_pre. pose proof (zlen_nonneg (concat (enc_tensor <$> l))). split.
  - intros [(Hok & Hn & Hb) (Hok' & Hnd & [Hne Hnk] & Hlast)].
    split; [done|]. split; [done|]. split; [done|]. right. destruct Hlast as [E|]; [rewrite (Hs E)|]; lia.
  - intros ([Hok Hok'] & [Hne Hnd] & [Hn Hnk] & [|Hlast]); [done|].
    split; [split; [done|]; split; [done|]; lia|].
    split; [done|]. split; [done|]. split; [done|]. right; lia.
Qed.

Lemma tensors_fold acc l : (foldl tensor_step acc l).2 = acc.2 ++ (span_of <$> l).
Proof.
  revert acc. induction l as [|t l IH]; intros acc; cbn [foldl fmap list_fmap]; [by rewrite app_nil_r|].
  rewrite IH. cbn [tensor_step snd]. by rewrite <-app_assoc.
Qed.

(** ** What the entries leave behind *)

Definition find_value (key : list ascii) (l : list (list ascii * GgufValue)) : option GgufValue :=
  snd <$> find (fun e => bool_decide (e.1 = key)) l.

Lemma find_value_absent key l : key ∉ l.*1 -> find_value key l = None.
Proof.
  unfold find_value. induction l as [|e l IH]; [done|]. rewrite fmap_cons, not_elem_of_cons.
  intros [Hne Hn]. cbn [find]. case_bool_decide; [by subst|]. by apply IH.
Qed.

(** A variable only one key assigns has the value that key's entry gives it. *)
Lemma fold_assign {A} (get : Metadata -> A) (assign : GgufValue -> A -> A) key m l :
  (forall m e, get (entry_step m e)
     = if bool_decide (e.1 = key) then assign e.2 (get m) else get m) ->
  NoDup l.*1 ->
  get (foldl entry_step m l)
  = match find_value key l with Some v => assign v (get m) | None => get m end.
Proof.
  intros Hget. revert m. induction l as [|e l IH]; intros m; [done|].
  rewrite fmap_cons, NoDup_cons. intros [Hn Hnd]. cbn [foldl]. rewrite IH, Hget by done.
  unfold find_value. cbn [find]. case_bool_decide as He; [|done].
  fold (find_value key l). by rewrite find_value_absent by (by rewrite <-He).
Qed.

Lemma fold_alignment l :
  NoDup l.*1 ->
  md_alignment (foldl entry_step no_metadata l)
  = match find_value ALIGNMENT_KEY l with Some (GScalar _ raw) => le_val raw | _ => GGUF_DEFAULT_ALIGNMENT end.
Proof.
  intros Hnd. rewrite (fold_assign md_alignment
    (fun v a => match v with GScalar _ raw => le_val raw | _ => a end) ALIGNMENT_KEY); [|clear|done].
  - by destruct (find_value _ l) as [[]|].
  - intros m e. unfold entry_step, value_step. case_bool_decide; [by destruct e.2|].
    destruct e.2; try done. by destruct (is_identity_key _).
Qed.

Definition shown (v : GgufValue) (old : option string) : option string :=
  match v with GString s => display_string s | _ => old end.

(** One of the three identity variables. *)
Lemma fold_identity get key l :
  is_identity_key key = true -> key <> ALIGNMENT_KEY ->
  get no_metadata = None ->
  (forall m k, get (insert_key m k) = get m) -> (forall m i, get (set_array_items m i) = get m) ->
  (forall m a, get (set_alignment m a) = get m) ->
  (forall m k v, get (set_identity m k v) = if bool_decide (k = key) then v else get m) ->
  NoDup l.*1 ->
  get (foldl entry_step no_metadata l)
  = match find_value key l with Some (GString s) => display_string s | _ => None end.
Proof.
  intros Hid Hna H0 H1 H2 H3 H4 Hnd. rewrite (fold_assign get shown key); [|clear Hnd|done].
  - rewrite H0. by destruct (find_value key l) as [[]|].
  - intros m e. unfold entry_step, value_step, shown. case_bool_decide as Ha; case_bool_decide as Hk.
    + congruence.
    + by rewrite H3, H1.
    + rewrite Hk, Hid. destruct e.2; rewrite ?H2, ?H4, ?H1; try done. by rewrite bool_decide_true.
    + destruct e.2; rewrite ?H2, ?H1; try done. destruct (is_identity_key e.1); [|by rewrite H1].
      rewrite H4, H1. by case_bool_decide.
Qed.

(** ** The layout of the data *)

Lemma FOP_map {A B} (f : A -> B) (R : B -> B -> Prop) l :
  ForallOrdPairs R (f <$> l) <-> ForallOrdPairs (fun x y => R (f x) (f y)) l.
Proof.
  induction l as [|x l IH]; cbn [fmap list_fmap]; [split; constructor|].
  split; intros H; inversion H; subst; constructor; try (by apply IH); by apply Forall_fmap.
Qed.

Lemma FOP_perm {A} (R : A -> A -> Prop) l k :
  (forall x y, R x y -> R y x) -> l ≡ₚ k -> ForallOrdPairs R l -> ForallOrdPairs R k.
Proof.
  intros Hs. induction 1 as [|x l k Hp IH|x y l|l k j Hp1 IH1 Hp2 IH2]; intros H; [done| | |auto].
  - inversion H as [|? ? Hx Hl]; subst. constructor; [|by apply IH]. by rewrite <-Hp.
  - inversion H as [|? ? Hx Hl]; subst. inversion Hl as [|? ? Hy Hl']; subst.
    apply Forall_cons in Hx as [Hxy Hx]. constructor; [|by constructor]. constructor; auto.
Qed.

Lemma insert_perm t l : insert_by_offset t l ≡ₚ t :: l.
Proof.
  induction l as [|u l IH]; cbn [insert_by_offset]; [done|]. destruct (_ <=? _); [done|].
  rewrite IH. constructor.
Qed.
Lemma sort_perm l : sort_by_offset l ≡ₚ l.
Proof. induction l as [|t l IH]; cbn [sort_by_offset foldr]; [done|]. rewrite insert_perm. by constructor. Qed.

Definition by_offset (t u : TensorSpan) : Prop := ts_offset t <= ts_offset u.

Lemma insert_sorted_spans t l :
  StronglySorted by_offset l -> StronglySorted by_offset (insert_by_offset t l).
Proof.
  unfold by_offset. induction 1 as [|u l Hl IH Hu]; cbn [insert_by_offset]; [by repeat constructor|].
  destruct (Z.leb_spec (ts_offset t) (ts_offset u)).
  - constructor; [by constructor|]. constructor; [done|].
    eapply Forall_impl; [exact Hu|]. cbn. lia.
  - constructor; [done|]. rewrite insert_perm. constructor; [cbn; lia|done].
Qed.
Lemma sort_sorted l : StronglySorted by_offset (sort_by_offset l).
Proof. induction l; cbn [sort_by_offset foldr]; [constructor|by apply insert_sorted_spans]. Qed.

Definition disjoint_spans (t u : TensorSpan) : Prop :=
  ts_offset t + ts_length t <= ts_offset u \/ ts_offset u + ts_length u <= ts_offset t.
#[export] Instance disjoint_spans_proper : Proper ((≡ₚ) ==> iff) (ForallOrdPairs disjoint_spans).
Proof.
  intros l k Hp. assert (forall t u, disjoint_spans t u -> disjoint_spans u t).
  { unfold disjoint_spans. naive_solver. }
  split; apply FOP_perm; done.
Qed.

Definition span_fits (alignment data_bytes : Z) (t : TensorSpan) : Prop :=
  ts_offset t mod alignment = 0 /\ ts_offset t + ts_length t <= data_bytes.

Lemma check_layout_sorted alignment data_bytes previous l :
  data_bytes <= u64_max -> Forall (fun t => 0 < ts_length t) l -> StronglySorted by_offset l ->
  check_layout alignment data_bytes previous l = true
  <-> Forall (span_fits alignment data_bytes) l /\ Forall (fun t => previous <= ts_offset t) l
      /\ ForallOrdPairs disjoint_spans l.
Proof.
  intros Hd Hlen Hs. revert previous. induction Hs as [|t l Hs IH Ht]; intros previous; cbn [check_layout].
  { split; [intros _; repeat constructor|done]. }
  apply Forall_cons in Hlen as [Hl Hlen]. unfold checked_add64.
  rewrite !Forall_cons. unfold span_fits at 1.
  destruct (Z.leb_spec (ts_offset t + ts_length t) u64_max) as [Hu|Hu]; [|split; [done|lia]].
  rewrite !andb_true_iff, negb_true_iff, orb_false_iff, negb_false_iff, IH by done.
  rewrite Z.leb_le, Z.eqb_eq, Z.ltb_ge. split.
  - intros ([He [Hm Hp]] & Hf & Hn & Hpairs). repeat split; try done.
    + eapply Forall_impl; [exact Ht|]. unfold by_offset. cbn. lia.
    + constructor; [|done]. eapply Forall_impl; [exact Hn|]. intros u ?. by left.
  - intros ([[Hm He] Hf] & [Hp Hn] & Hpairs). inversion Hpairs as [|? ? Hdis Hpairs']; subst.
    repeat split; try done. apply Forall_forall. intros u Hu'.
    rewrite Forall_forall in Hdis, Hlen, Ht. specialize (Hdis u Hu'). specialize (Hlen u Hu').
    specialize (Ht u Hu'). unfold disjoint_spans, by_offset in *. lia.
Qed.

Lemma check_layout_exact alignment data_bytes l :
  data_bytes <= u64_max -> Forall (fun t => 0 < ts_length t /\ 0 <= ts_offset t) l ->
  check_layout alignment data_bytes 0 (sort_by_offset l) = true
  <-> Forall (span_fits alignment data_bytes) l /\ ForallOrdPairs disjoint_spans l.
Proof.
  intros Hd Hl. rewrite check_layout_sorted; [|done| |apply sort_sorted].
  - rewrite !sort_perm. split; [by intros (? & _ & ?)|]. intros [H1 H2].
    split; [done|]. split; [eapply Forall_impl; [exact Hl|]; by intros ? [??]|done].
  - rewrite sort_perm. eapply Forall_impl; [exact Hl|]. by intros ? [??].
Qed.

Lemma land_mask v k :
  0 <= v <= u64_max -> 0 <= k ->
  Z.land v (Z.lxor (2 ^ k - 1) u64_max) = v / 2 ^ k * 2 ^ k.
Proof.
  intros Hv Hk. replace (2 ^ k - 1) with (Z.ones k) by (rewrite Z.ones_equiv; lia).
  change u64_max with (Z.ones 64). rewrite <-Z.shiftr_div_pow2, <-Z.shiftl_mul_pow2, <-Z.ldiff_ones_r by done.
  apply Z.bits_inj'. intros n Hn. rewrite Z.land_spec, Z.lxor_spec, Z.ldiff_spec.
  destruct (Z.testbit v n) eqn:E; [|done]. cbn [andb].
  assert (n < 64).
  { destruct (Z_lt_le_dec n 64) as [|Hge]; [done|]. rewrite Z.testbit_eqb in E by done.
    rewrite Z.div_small in E; [done|]. split; [lia|]. apply Z.le_lt_trans with (1 := proj2 Hv).
    apply Z.lt_le_trans with (2 ^ 64); [done|]. apply Z.pow_le_mono_r; lia. }
  rewrite (Z.ones_spec_low 64) by lia. by destruct (Z.testbit (Z.ones k) n).
Qed.

Lemma align_up_exact c a :
  0 <= c <= GGUF_MAX_HEADER_BYTES -> a ∈ ALIGNMENTS ->
  align_up c a = Some ((c + a - 1) / a * a).
Proof.
  intros Hc Ha. unfold align_up, checked_sub64, checked_add64.
  assert (exists k, 0 <= k <= 12 /\ a = 2 ^ k) as (k & Hk & ->).
  { unfold ALIGNMENTS in Ha. repeat (apply elem_of_cons in Ha as [->|Ha];
      [by (exists 3 + exists 4 + exists 5 + exists 6 + exists 7 + exists 8 + exists 9 + exists 10 + exists 11 + exists 12)|]).
    by apply not_elem_of_nil in Ha. }
  assert (1 <= 2 ^ k <= 4096).
  { split; [apply (Z.pow_le_mono_r 2 0 k); lia|]. change 4096 with (2 ^ 12). apply Z.pow_le_mono_r; lia. }
  unfold GGUF_MAX_HEADER_BYTES in Hc.
  assert (1 <= 2 ^ k) as ->%Z.leb_le by lia. cbn [mbind option_bind].
  assert (c + (2 ^ k - 1) <= u64_max) as Hle by (unfold u64_max; lia).
  pose proof Hle as ->%Z.leb_le. cbn [mbind option_bind]. f_equal.
  rewrite land_mask by lia. by replace (c + (2 ^ k - 1)) with (c + 2 ^ k - 1) by lia.
Qed.

(** ** The whole file *)

Section whole.
Context (N : Z).
Hypothesis (HN : N <= i64_max).

Lemma reads_u32_value : reads N (read_u32 N) (fun _ v u => u = le_enc 4 v /\ 0 <= v < 2 ^ 32).
Proof.
  eapply reads_iff.
  - eapply reads_ext; [|apply (reads_u32 N HN mret), (fun z _ => reads_ret N z)].
    intros r. unfold mbind, Gp_bind, mret, Gp_ret. by destruct (read_u32 N r) as [[]| |].
  - intros c v u _. split.
    + intros (z & w & -> & Hz & -> & ->). by rewrite app_nil_r.
    + intros [-> Hz]. exists v, []. by rewrite app_nil_r.
Qed.

Lemma reads_magic_version :
  reads N (read_magic_version N) (fun _ v u => 24 <= N /\ u = GGUF ++ le_enc 4 v /\ 0 <= v < 2 ^ 32).
Proof.
  unfold read_magic_version. eapply reads_iff.
  - apply reads_guard. intros _. eapply reads_bind; [apply reads_exact; [done|lia]|]. intros magic _.
    apply reads_guard. intros _. apply reads_u32_value.
  - intros c v u _. unfold GGUF_FIXED_HEADER_BYTES. split.
    + intros (H24 & m & w1 & w2 & -> & [-> _] & Hm & -> & Hz). apply bool_decide_eq_true in Hm as ->.
      split; [lia|done].
    + intros (H24 & -> & Hz). split; [lia|]. exists GGUF, GGUF, (le_enc 4 v). by rewrite bool_decide_true.
Qed.

Definition parse_tail (version : Z) : Gp GgufMetadata :=
  tensor_count ← read_u64 N;
  metadata_kv_count ← read_u64 N;
  parse_body N version tensor_count metadata_kv_count.

Lemma parse_gguf_split r :
  parse_gguf N r
  = let? (version, r') := read_magic_version N r in
    if (version =? 2) || (version =? 3) then parse_tail version r'
    else Err (UnsupportedGgufVersion version).
Proof.
  unfold parse_gguf, read_gguf_header, parse_tail, mbind, Gp_bind, mret, Gp_ret, gp_fail.
  destruct (read_magic_version N r) as [[v r']| |]; [|done..]. destruct (_ || _); [|done].
  destruct (read_u64 N r') as [[tc r2]| |]; [|done..]. by destruct (read_u64 N r2) as [[]| |].
Qed.

Definition tail_spec (version c : Z) (md : GgufMetadata) (u : list ascii) : Prop :=
  exists tensor_count metadata_kv_count w,
    u = le_enc 8 tensor_count ++ le_enc 8 metadata_kv_count ++ w
    /\ u64_fits tensor_count /\ u64_fits metadata_kv_count
    /\ body_spec N version tensor_count metadata_kv_count (c + 16) md w.

Lemma reads_tail version : reads N (parse_tail version) (fun c md u => tail_spec version c md u).
Proof.
  unfold parse_tail, tail_spec. eapply reads_iff.
  - apply reads_u64; [done|]. intros tc _. apply reads_u64; [done|]. intros kc _. by apply reads_body.
  - intros c md u _. unfold u64_fits. split.
    + intros (tc & v & -> & Htc & kc & w & -> & Hkc & Hb). exists tc, kc, w.
      by replace (c + 16) with (c + 8 + 8) by lia.
    + intros (tc & kc & w & -> & Htc & Hkc & Hb). exists tc, (le_enc 8 kc ++ w). split; [done|].
      split; [done|]. exists kc, w. by replace (c + 8 + 8) with (c + 16) by lia.
Qed.

(** The results of the inspection, by the first eight bytes. *)
Lemma parse_gguf_results content :
  zlen content = N ->
  match parse_gguf N {| rd_cursor := 0; rd_rest := content |} with
  | Ok (md, _) => exists v u s, content = GGUF ++ le_enc 4 v ++ u ++ s /\ 24 <= N
      /\ (v = 2 \/ v = 3) /\ tail_spec v 8 md u
  | Err e => e = InvalidGguf \/ exists v, e = UnsupportedGgufVersion v
  | Panic => False
  end
  /\ (forall v u s md, content = GGUF ++ le_enc 4 v ++ u ++ s -> 24 <= N -> v = 2 \/ v = 3 ->
        tail_spec v 8 md u -> exists r, parse_gguf N {| rd_cursor := 0; rd_rest := content |} = Ok (md, r))
  /\ (forall v, parse_gguf N {| rd_cursor := 0; rd_rest := content |} = Err (UnsupportedGgufVersion v)
        <-> 24 <= N /\ 0 <= v < 2 ^ 32 /\ v <> 2 /\ v <> 3 /\ exists s, content = GGUF ++ le_enc 4 v ++ s).
Proof.
  intros Hlen. rewrite parse_gguf_split.
  destruct (reads_magic_version {| rd_cursor := 0; rd_rest := content |}) as [H1 H2]; [done|by cbn|].
  cbn [rd_cursor rd_rest] in *.
  destruct (read_magic_version N _) as [[v r']|e|]; [| |done].
  - destruct H1 as (u & Hc & Hcur & H24 & -> & Hv). rewrite <-app_assoc in Hc.
    assert (Hzl : zlen (GGUF ++ le_enc 4 v) = 8) by (rewrite zlen_app, zlen_le_bytes; done).
    rewrite Hzl in Hcur. rewrite Z.add_0_l in Hcur.
    assert (Huniq : forall v' s, 0 <= v' < 2 ^ 32 -> content = GGUF ++ le_enc 4 v' ++ s -> v' = v /\ s = rd_rest r').
    { intros v' s Hv' E. rewrite Hc in E. apply app_inv_head in E.
      apply app_inj_1 in E as [E <-]; [|by rewrite !le_enc_length].
      split; [|done]. rewrite <-(le_val_bytes 4 v'), <-(le_val_bytes 4 v) by done. by rewrite E. }
    destruct (reads_tail v r') as [H3 H4]; [lia| |].
    { rewrite Hcur. rewrite <-Hlen, Hc, app_assoc, zlen_app, Hzl. done. }
    destruct (_ || _) eqn:Hv23.
    + assert (v = 2 \/ v = 3) by lia. destruct (parse_tail v r') as [[md r'']|e|] eqn:Ep; [| |done].
      * destruct H3 as (u & Hu & _ & Ht). rewrite Hcur in Ht, H4. split; [exists v, u, (rd_rest r''); by rewrite <-Hu|].
        split.
        -- intros v' u' s' md' E _ Hv' Ht'. destruct (Huniq v' (u' ++ s')) as [-> Er]; [lia|done|].
           eexists. exact (H4 md' u' s' (eq_sym Er) Ht').
        -- intros v'. split; [done|]. intros (_ & Hv' & Hn2 & Hn3 & s & E). destruct (Huniq v' s Hv' E). lia.
      * subst e. rewrite Hcur in H4. split; [by left|]. split.
        -- intros v' u' s' md' E _ Hv' Ht'. destruct (Huniq v' (u' ++ s')) as [-> Er]; [lia|done|].
           by pose proof (H4 md' u' s' (eq_sym Er) Ht').
        -- intros v'. split; [done|]. intros (_ & Hv' & Hn2 & Hn3 & s & E). destruct (Huniq v' s Hv' E). lia.
    + split; [right; by exists v|]. split.
      * intros v' u' s' md' E _ Hv' _. destruct (Huniq v' (u' ++ s')) as [-> _]; [lia|done|]. lia.
      * intros v'. split.
        -- intros [= <-]. repeat split; try done; try lia. by exists (rd_rest r').
        -- intros (_ & Hv' & _ & _ & s & E). destruct (Huniq v' s Hv' E) as [-> _]. done.
  - subst e. assert (Hno : forall v s, 24 <= N -> 0 <= v < 2 ^ 32 -> content <> GGUF ++ le_enc 4 v ++ s).
    { intros v s H24 Hv E. rewrite app_assoc in E.
      pose proof (H2 v _ s E (conj H24 (conj eq_refl Hv))). done. }
    split; [by left|]. split.
    + intros v u s md E H24 Hv _. exfalso. apply (Hno v (u ++ s)); [done|lia|done].
    + intros v. split; [done|]. intros (H24 & Hv & _ & _ & s & E). by destruct (Hno v s).
Qed.
End whole.

Lemma value_of_entry f key v : value_of key f = Some v -> exists e, e ∈ f_entries f /\ e.1 = key /\ e.2 = v.
Proof.
  unfold value_of. destruct (find _ _) as [e|] eqn:E; [|done]. intros [= <-].
  apply find_some in E as [He Hk]. apply bool_decide_eq_true in Hk. apply list_elem_of_In in He. eauto.
Qed.

Lemma alignment_of_ok f : Forall entry_ok (f_entries f) -> alignment_of f ∈ ALIGNMENTS.
Proof.
  intros Hok. unfold alignment_of. destruct (value_of ALIGNMENT_KEY f) as [v|] eqn:E; [|by unfold ALIGNMENTS; set_solver].
  apply value_of_entry in E as (e & He & Hk & <-). rewrite Forall_forall in Hok.
  destruct (Hok e He) as (_ & _ & _ & Hal & _). destruct (Hal Hk) as (a & -> & Ha).
  assert (0 <= a < 2 ^ 32).
  { apply alignment_ok in Ha. rewrite !andb_true_iff, !Z.leb_le in Ha. unfold GGUF_MAX_ALIGNMENT in Ha. lia. }
  by rewrite le_val_bytes.
Qed.

Lemma tensor_ok_pos t : tensor_ok t -> 0 < tensor_length t /\ 0 <= t_offset t.
Proof.
  intros (_ & _ & [Hf Hd]%Forall_cons & _ & (be & bb & Hl & Hm) & _ & Ho). split; [|apply Ho].
  unfold tensor_length. rewrite Hl. destruct (type_layout_range _ _ _ Hl) as (Hbe & Hbb & _).
  assert (1 <= t_first t / be) by (pose proof (Z.div_mod (t_first t) be); nia).
  pose proof (product_pos (t_more t) Hd). nia.
Qed.

Lemma header_length f :
  zlen (enc_header f) = 24 + zlen (concat (enc_entry <$> f_entries f))
                        + zlen (concat (enc_tensor <$> f_tensors f)).
Proof. unfold enc_header. rewrite !zlen_app, !zlen_le_bytes. change (zlen GGUF) with 4. lia. Qed.

Definition metadata_read (f : GgufFile) : Metadata := foldl entry_step no_metadata (f_entries f).

Lemma alignment_read f : NoDup (f_entries f).*1 -> md_alignment (metadata_read f) = alignment_of f.
Proof. intros Hnd. apply fold_alignment, Hnd. Qed.

Lemma identity_read f :
  NoDup (f_entries f).*1 ->
  {| gm_version := f_version f; gm_tensor_count := zlen (f_tensors f);
     gm_metadata_kv_count := zlen (f_entries f); gm_architecture := md_architecture (metadata_read f);
     gm_model_name := md_model_name (metadata_read f); gm_license := md_license (metadata_read f) |}
  = metadata_of f.
Proof.
  intros Hnd. unfold metadata_of, metadata_read. f_equal.
  - by rewrite (fold_identity md_architecture ARCHITECTURE_KEY).
  - by rewrite (fold_identity md_model_name NAME_KEY).
  - by rewrite (fold_identity md_license LICENSE_KEY).
Qed.

(** The data of the tensors, from the header on. *)
Lemma data_exact f :
  zlen (enc_file f) <= i64_max ->
  Forall entry_ok (f_entries f) -> Forall tensor_ok (f_tensors f) -> 1 <= zlen (f_tensors f) ->
  zlen (enc_header f) <= GGUF_MAX_HEADER_BYTES ->
  data_checked (zlen (enc_file f)) (zlen (enc_header f)) (zlen (f_tensors f)) (alignment_of f)
    (span_of <$> f_tensors f)
  <-> layout_ok f.
Proof.
  intros HN He Ht Hn Hb. pose proof (alignment_of_ok f He) as Ha. pose proof (zlen_nonneg (enc_header f)).
  assert (Hspans : Forall (fun t => 0 < ts_length t /\ 0 <= ts_offset t) (span_of <$> f_tensors f)).
  { apply Forall_fmap. eapply Forall_impl; [exact Ht|]. apply tensor_ok_pos. }
  assert (Ha0 : 0 < alignment_of f).
  { apply alignment_ok in Ha. rewrite !andb_true_iff in Ha. lia. }
  assert (Hstart : 0 <= data_start_of f).
  { unfold data_start_of. apply Z.mul_nonneg_nonneg; [apply Z.div_pos|]; lia. }
  unfold data_checked, layout_ok. rewrite align_up_exact by (done || lia). fold (data_start_of f).
  assert (Hiff : check_layout (alignment_of f) (zlen (enc_file f) - data_start_of f) 0
      (sort_by_offset (span_of <$> f_tensors f)) = true
    <-> Forall (fun t => t_offset t mod alignment_of f = 0
          /\ data_start_of f + t_offset t + tensor_length t <= zlen (enc_file f)) (f_tensors f)
        /\ ForallOrdPairs disjoint_tensors (f_tensors f)).
  { rewrite check_layout_exact; [|unfold u64_max, i64_max in *; lia|done].
    rewrite FOP_map, Forall_fmap. unfold span_fits. apply and_iff_compat_r, Forall_iff.
    intros t. cbn. lia. }
  split.
  - intros H'. destruct H' as (d & [= <-] & Hd & Hc); [lia|]. by split; [|apply Hiff].
  - intros [Hd Hc] _. exists (data_start_of f). split; [done|]. by split; [|apply Hiff].
Qed.

Lemma body_exact f :
  zlen (enc_file f) <= i64_max -> f_version f ∈ [2; 3] ->
  (MIN_TENSOR_COUNT <= zlen (f_tensors f) <= MAX_TENSOR_COUNT
   /\ zlen (f_entries f) <= MAX_METADATA_KV_COUNT
   /\ entries_read 24 no_metadata (f_entries f)
   /\ tensors_read (24 + zlen (concat (enc_entry <$> f_entries f))) (f_tensors f)
   /\ data_checked (zlen (enc_file f)) (zlen (enc_header f)) (zlen (f_tensors f))
        (md_alignment (metadata_read f)) (foldl tensor_step (∅, []) (f_tensors f)).2)
  <-> well_formed f.
Proof.
  intros HN Hv. unfold well_formed, MIN_TENSOR_COUNT. fold (items_sum (f_entries f)).
  rewrite entries_chain by done. unfold tensors_read. rewrite tensors_chain, tensors_fold.
  cbn [snd app]. pose proof (header_length f) as Hh. pose proof (zlen_nonneg (concat (enc_tensor <$> f_tensors f))).
  assert (Hne : 1 <= zlen (f_tensors f) -> f_tensors f <> []) by (intros ? E; rewrite E in *; done).
  split.
  - intros (Hc & Hk & (He & Hnd & _ & Hi & _) & (Ht & Htn & _ & Hb) & Hd).
    assert (Hbudget : zlen (enc_header f) <= GGUF_MAX_HEADER_BYTES)
      by (destruct Hb as [E|]; [by destruct (Hne ltac:(lia))|lia]).
    rewrite alignment_read in Hd by done.
    apply (proj1 (data_exact f HN He Ht (proj1 Hc) Hbudget)) in Hd.
    cbn [md_array_items no_metadata] in Hi. repeat (split; [done || lia|]). done.
  - intros (_ & Hc & Hk & Hnd & Htn & He & Ht & Hi & Hb & Hl).
    split; [done|]. split; [done|]. split.
    { split; [done|]. split; [done|]. split; [by apply Forall_forall; intros ? _; apply not_elem_of_empty|].
      split; [cbn; lia|right; lia]. }
    split.
    { split; [done|]. split; [done|]. split; [by apply Forall_forall; intros ? _; apply not_elem_of_empty|].
      right; lia. }
    rewrite alignment_read by done. apply data_exact; try done. lia.
Qed.

Lemma version_in v : v ∈ [2; 3] <-> v = 2 \/ v = 3.
Proof. rewrite !elem_of_cons, elem_of_nil. naive_solver. Qed.

Lemma spec_file content v md u s :
  zlen content <= i64_max -> content = GGUF ++ le_enc 4 v ++ u ++ s -> v = 2 \/ v = 3 ->
  tail_spec (zlen content) v 8 md u ->
  exists f, content = enc_file f /\ well_formed f /\ metadata_of f = md.
Proof.
  intros Hsize Hc Hv (tc & kc & w & -> & Htc & Hkc & Hm1 & Hm2 & es & ts & Hes & Hts & -> & He & Ht & Hd & ->).
  unfold u64_fits in *.
  set (f := {| f_version := v; f_entries := es; f_tensors := ts; f_data := s |}).
  assert (Hz1 : tc = zlen ts) by (unfold zlen; lia). assert (Hz2 : kc = zlen es) by (unfold zlen; lia).
  subst tc kc. assert (Hf : content = enc_file f).
  { rewrite Hc. unfold enc_file, enc_header, f. cbn. by rewrite <-!app_assoc. }
  exists f. split; [done|]. assert (Hwf : well_formed f).
  { apply body_exact; [by rewrite <-Hf|by apply version_in|]. rewrite <-Hf, header_length. cbn [f_tensors f_entries f].
    split; [done|]. split; [done|]. split; [exact He|]. split; [exact Ht|].
    rewrite zlen_app, Z.add_assoc in Hd. exact Hd. }
  split; [done|]. symmetry. apply (identity_read f). apply Hwf.
Qed.

Definition enc_tail (f : GgufFile) : list ascii :=
  le_enc 8 (zlen (f_tensors f)) ++ le_enc 8 (zlen (f_entries f))
  ++ concat (enc_entry <$> f_entries f) ++ concat (enc_tensor <$> f_tensors f).

Lemma file_spec f :
  zlen (enc_file f) <= i64_max -> well_formed f ->
  enc_file f = GGUF ++ le_enc 4 (f_version f) ++ enc_tail f ++ f_data f
  /\ 24 <= zlen (enc_file f)
  /\ tail_spec (zlen (enc_file f)) (f_version f) 8 (metadata_of f) (enc_tail f).
Proof.
  intros Hsize Hwf. pose proof Hwf as (Hv & Hc & Hk & Hnd & _).
  pose proof (proj2 (body_exact f Hsize Hv) Hwf) as (Hc' & Hk' & He & Ht & Hd).
  split; [unfold enc_file, enc_header, enc_tail; by rewrite <-!app_assoc|]. split.
  - unfold enc_file. rewrite zlen_app, header_length.
    pose proof (zlen_nonneg (f_data f)). pose proof (zlen_nonneg (concat (enc_entry <$> f_entries f))).
    pose proof (zlen_nonneg (concat (enc_tensor <$> f_tensors f))). lia.
  - unfold MIN_TENSOR_COUNT, MAX_TENSOR_COUNT, MAX_METADATA_KV_COUNT in *.
    pose proof (zlen_nonneg (f_entries f)). rewrite header_length in Hd.
    eexists _, _, _. split; [done|]. unfold u64_fits, u64_max. split; [lia|]. split; [lia|].
    split; [done|]. split; [done|]. exists (f_entries f), (f_tensors f). unfold zlen at 1 2. rewrite !Nat2Z.id.
    split; [done|]. split; [done|]. split; [done|]. split; [exact He|]. split; [exact Ht|].
    split; [|symmetry; by apply identity_read]. rewrite zlen_app, Z.add_assoc. exact Hd.
Qed.

(** C33: The inspection accepts exactly the well-formed files: the bytes are the encoding of a version 2 or 3 file whose entries and tensors have distinct valid names, whose values have the types and bounds of the format, whose alignment is a power of two within its range, whose arrays and header stay within their budgets, and whose tensors are aligned, lie within the data and do not overlap; what it returns is the metadata of that file. Every other file is refused as an invalid one, or by its version when the magic number is right. *)
Theorem inspect_gguf_exact (content : list ascii) (Hsize : zlen content <= i64_max) :
  (forall md, inspect_gguf content (zlen content) = Ok md
     <-> exists f, content = enc_file f /\ well_formed f /\ metadata_of f = md)
  /\ (forall v, inspect_gguf content (zlen content) = Err (UnsupportedGgufVersion v)
     <-> GGUF_FIXED_HEADER_BYTES <= zlen content /\ 0 <= v < 2 ^ 32 /\ v ∉ [2; 3]
         /\ exists rest, content = GGUF ++ le_enc 4 v ++ rest)
  /\ inspect_gguf content (zlen content) <> Panic
  /\ (forall e, inspect_gguf content (zlen content) = Err e ->
        e = InvalidGguf \/ exists v, e = UnsupportedGgufVersion v).
Proof.
  destruct (parse_gguf_results (zlen content) Hsize content eq_refl) as (H1 & H2 & H3).
  unfold inspect_gguf. set (r := parse_gguf _ _) in *. split; [|split; [|split]].
  - intros md. split.
    + intros Hr. destruct r as [[md' r']| |] eqn:Er; [|done..]. injection Hr as ->.
      destruct H1 as (v & u & s & Hc & _ & Hv & Ht). by apply (spec_file content v md u s).
    + intros (f & -> & Hwf & <-). destruct (file_spec f Hsize Hwf) as (Hf & H24 & Ht).
      destruct (H2 _ _ _ _ Hf H24 (proj1 (version_in _) (proj1 Hwf)) Ht) as [r' Hr].
      fold r in Hr. by rewrite Hr.
  - intros v. assert (Hin : v ∉ [2; 3] <-> v <> 2 /\ v <> 3) by (rewrite version_in; naive_solver). rewrite Hin.
    assert (Heq : (let? (metadata, _) := r in Ok metadata) = Err (UnsupportedGgufVersion v) <-> r = Err (UnsupportedGgufVersion v)).
    { destruct r as [[]| |]; split; congruence. }
    rewrite Heq, H3. unfold GGUF_FIXED_HEADER_BYTES. naive_solver.
  - by destruct r as [[]| |].
  - intros e He. destruct r as [[]|e'|]; [done| |done]. by injection He as <-.
Qed.

(** A version 3 file with four entries and two tensors. *)
Definition sample_file : GgufFile :=
  {| f_version := 3;
     f_entries := [(ARCHITECTURE_KEY, GString (bytes "llama"));
                   (ALIGNMENT_KEY, GScalar 4 (le_enc 4 64));
                   (bytes "tokenizer.ids", GScalars 5 2 (le_enc 8 7));
                   (bytes "tokenizer.add_bos", GBool true)];
     f_tensors := [{| t_name := bytes "b.weight"; t_first := 32; t_more := [2]; t_type := 8; t_offset := 64 |};
                   {| t_name := bytes "a.weight"; t_first := 4; t_more := []; t_type := 0; t_offset := 0 |}];
     f_data := replicate 300 (ascii_of_N 0) |}.

Lemma inspect_gguf_exact_witness :
  inspect_gguf (enc_file sample_file) (zlen (enc_file sample_file)) = Ok (metadata_of sample_file)
  /\ (exists f, enc_file sample_file = enc_file f /\ well_formed f /\ metadata_of f = metadata_of sample_file)
  /\ gm_architecture (metadata_of sample_file) = Some "llama".
Proof.
  assert (H : inspect_gguf (enc_file sample_file) (zlen (enc_file sample_file)) = Ok (metadata_of sample_file))
    by (vm_compute; reflexivity).
  split; [exact H|]. split; [|vm_compute; reflexivity].
  apply (proj1 (inspect_gguf_exact (enc_file sample_file) ltac:(vm_compute; discriminate))). exact H.
Defined.
