(* ===== verification/Protocol.v ===== *)
(** * The wire contract: requests, results and events ([pam_protocol/src/contract.rs])

    The messages between callers and the daemon as data: the request envelope
    and its payloads, the capabilities they need, the results, failures and
    events that come back. The checks are in [ProtocolRequest], the frame codec
    in [ProtocolCodec]. *)

From S2P Require Import Prelude Core FlowDef FlowData.

Local Open Scope Z_scope.

Definition PROTOCOL_VERSION : Z := 9.
Definition MAX_FRAME_SIZE : Z := 1024 * 1024.
Definition MAX_EVIDENCE_CHUNK_SIZE : Z := 256 * 1024.
Definition MAX_MODEL_MESSAGES : Z := 32.
Definition MAX_MODEL_MESSAGE_BYTES : Z := 64 * 1024.
Definition MAX_MODEL_PROMPT_BYTES : Z := 256 * 1024.
Definition MAX_MODEL_OUTPUT_TOKENS : Z := 4096.
Definition MAX_MODEL_OUTPUT_BYTES : Z := 512 * 1024.
Definition MAX_FLOW_APPROVAL_ID_BYTES : Z := 256.
Definition MAX_FLOW_REQUEST_ATTACHMENT_BYTES : Z :=
  MAX_CALLER_CREDENTIAL_LENGTH + MAX_FLOW_APPROVAL_ID_BYTES + 64.
Definition MAX_FLOW_PROJECT_ROOT_BYTES : Z := 4 * 1024.
Definition MAX_PROJECT_CURRENT_QUEUED : Z := 64.
Definition MAX_PROJECT_OPERATION_KIND_BYTES : Z := 128.
Definition MAX_MODEL_PATH_BYTES : Z := 4 * 1024.
Definition MAX_MODEL_URL_BYTES : Z := 4 * 1024.
Definition MAX_MODEL_LICENSE_ID_BYTES : Z := 128.
Definition MAX_GRANT_CAPABILITY_BYTES : Z := 128.
Definition MAX_CONNECTOR_ID_BYTES : Z := 128.
Definition MAX_CONNECTOR_BASE_URL_BYTES : Z := 1024.
Definition MAX_CONNECTOR_SECRET_BYTES : Z := 4096.

(** ** Capabilities *)

Inductive Capability : Type :=
| CapDaemonStatus | CapDaemonStop | CapDaemonActivity | CapDaemonLogs | CapDaemonStats
| CapCallerList | CapProjectCurrent | CapApprovalDecide | CapCancelRequest | CapReplayEvents
| CapBrief | CapNetworkDiagnostics | CapWaitForResult | CapGetResult | CapInspectEvidence
| CapReadEvidence | CapModelInfer | CapModelStatus | CapModelRegister | CapModelLoad
| CapModelUnload | CapModelUnregister | CapModelVerify | CapModelSweep | CapModelDeleteWeights
| CapGrantRevoke | CapFlowRun | CapConnectorList | CapConnectorConfigure | CapConnectorTest
| CapResetAccess | CapResetIdentity | CapResetHistory | CapResetRegistry.

Definition policy_name (c : Capability) : string :=
  match c with
  | CapDaemonStatus => "daemon.status"
  | CapDaemonStop => "daemon.stop"
  | CapDaemonActivity => "daemon.activity"
  | CapDaemonLogs => "daemon.logs"
  | CapDaemonStats => "daemon.stats"
  | CapCallerList => "caller.list"
  | CapProjectCurrent => "project.current"
  | CapApprovalDecide => "approval.decide"
  | CapCancelRequest => "request.cancel"
  | CapReplayEvents => "request.replay"
  | CapBrief => "brief.read"
  | CapNetworkDiagnostics => "network.diagnostics"
  | CapWaitForResult => "request.wait"
  | CapGetResult => "request.result.read"
  | CapInspectEvidence => "evidence.inspect"
  | CapReadEvidence => "evidence.read"
  | CapModelInfer => "model.infer"
  | CapModelStatus => "model.status"
  | CapModelRegister => "model.register"
  | CapModelLoad => "model.load"
  | CapModelUnload => "model.unload"
  | CapModelUnregister => "model.unregister"
  | CapModelVerify => "model.verify"
  | CapModelSweep => "model.sweep"
  | CapModelDeleteWeights => "model.delete-weights"
  | CapGrantRevoke => "grant.revoke"
  | CapFlowRun => "flow.run"
  | CapConnectorList => "connector.list"
  | CapConnectorConfigure => "connector.configure"
  | CapConnectorTest => "connector.test"
  | CapResetAccess => "reset.access"
  | CapResetIdentity => "reset.identity"
  | CapResetHistory => "reset.history"
  | CapResetRegistry => "reset.registry"
  end.

Inductive ResetTier : Type := TierAccess | TierIdentity | TierHistory | TierRegistry.

Definition tier_label (t : ResetTier) : string :=
  match t with
  | TierAccess => "access" | TierIdentity => "identity"
  | TierHistory => "history" | TierRegistry => "registry"
  end.

Definition tier_capability (t : ResetTier) : Capability :=
  match t with
  | TierAccess => CapResetAccess | TierIdentity => CapResetIdentity
  | TierHistory => CapResetHistory | TierRegistry => CapResetRegistry
  end.

Definition all_tiers : list ResetTier := [TierAccess; TierIdentity; TierHistory; TierRegistry].

(** ** Errors *)

Inductive ProtocolContractError : Type :=
| InvalidEvidenceReadLength (actual maximum : Z)
| EvidenceChunkTooLarge (actual maximum : Z)
| InvalidModelIdentity
| InvalidModelMessage
| InvalidModelConversation
| InvalidModelDeadline
| ModelPromptTooLarge (actual maximum : Z)
| InvalidModelOutputTokens (actual maximum : Z)
| ModelOutputTooLarge (actual maximum : Z)
| FlowDefinitionTooLarge (actual maximum : Z)
| FlowProjectRootTooLarge (actual maximum : Z)
| InvalidFlowProjectRoot
| InvalidFlowRunId
| InvalidFlowDefinition
| FlowRequestTooLarge (actual maximum : Z)
| FlowRequestEncoding
| InvalidProjectOperationKind
| ProjectCurrentQueueTooLarge (actual maximum : Z)
| InvalidConnectorIdentity
| InvalidConnectorBaseUrl
| InvalidConnectorSecret
| InvalidModelRegistration
| InvalidGrantCapability.

Definition cres (A : Type) : Type := res ProtocolContractError A.

(** ** Requests *)

(** The newtypes over [String]; their constructors are in [ProtocolRequest]. *)
Definition CallerCredential := string.
Record FlowDefinitionDocument := { document_str : string }.
Record FlowProjectRoot := { root_str : string }.
Record ConnectorSecret := { secret_str : string }.

Inductive ProtocolApprovalDecision : Type := DecisionApprove | DecisionDeny.
Inductive ExpectedTargetKind : Type := TargetFlowRun.

Definition policy_label (k : ExpectedTargetKind) : string :=
  match k with TargetFlowRun => "flow_run" end.

Inductive ConnectorCredentialAction : Type :=
| CredentialSet (secret : ConnectorSecret)
| CredentialClear.

Inductive ModelRole : Type := RoleSystem | RoleUser | RoleAssistant.

Record ModelMessage := { mm_role : ModelRole; mm_content : string }.

Record ModelRegistration := {
  mr_model : string;
  mr_path : string;
  mr_digest : string;
  mr_size_bytes : Z;
  mr_gguf_version : Z;
  mr_gguf_tensor_count : Z;
  mr_gguf_metadata_kv_count : Z;
  mr_license_id : string;
  mr_license_url : string;
  mr_license_digest : string;
  mr_source_url : option string;
  mr_registered_at_ms : Z
}.

Inductive RequestPayload : Type :=
| PayStatus
| PayStop
| PayDaemonActivity (limit : Z)
| PayDaemonLogs (limit : Z)
| PayDaemonStats (days : Z)
| PayCallerList
| PayProjectCurrent
| PayApprovalDecide (approval_id : ApprovalId) (decision : ProtocolApprovalDecision)
| PayCancel (target_request_id : RequestId) (expected_target_kind : option ExpectedTargetKind)
| PayReplay (target_request_id : RequestId) (after_sequence : Z)
    (expected_target_kind : option ExpectedTargetKind)
| PayBrief
| PayNetworkDiagnostics
| PayWaitForResult (target_request_id : RequestId) (after_sequence : Z)
    (expected_target_kind : option ExpectedTargetKind)
| PayGetResult (target_request_id : RequestId) (expected_target_kind : option ExpectedTargetKind)
| PayInspectEvidence (handle : EvidenceHandle)
| PayReadEvidence (handle : EvidenceHandle) (offset length : Z)
| PayModelInfer (model : string) (messages : list ModelMessage) (max_output_tokens : Z)
| PayModelStatus
| PayModelRegister (registration : ModelRegistration)
| PayModelLoad (model : string)
| PayModelUnload
| PayModelUnregister (model : string)
| PayModelVerify (model : option string)
| PayModelSweep
| PayModelDeleteWeights (model : string)
| PayGrantRevoke (capability : string)
| PayFlowRun (definition : FlowDefinitionDocument) (project_root : FlowProjectRoot)
| PayConnectorList
| PayConnectorConfigure (connector : string) (enabled : option bool) (base_url : option string)
    (credential : option ConnectorCredentialAction)
| PayConnectorTest (connector : string)
| PayResetAccess (dry_run : bool)
| PayResetIdentity (dry_run : bool)
| PayResetHistory (dry_run : bool)
| PayResetRegistry (dry_run : bool).

Record RequestEnvelope := {
  rq_protocol_version : Z;
  rq_request_id : RequestId;
  rq_caller_id : CallerId;
  rq_authentication : option CallerCredential;
  rq_approval_id : option ApprovalId;
  rq_project_root : option FlowProjectRoot;
  rq_project_id : ProjectId;
  rq_capability : Capability;
  rq_idempotency_key : IdempotencyKey;
  rq_deadline_unix_ms : option Z;
  rq_payload : RequestPayload
}.

(** ** Results *)

Inductive OperationTruth : Type :=
| TruthObserved | TruthChanged | TruthVerified | TruthUnresolved | TruthBlocked.

Inductive CancellationDisposition : Type :=
| DispRequested | DispAlreadyRequested | DispAlreadyCancelled | DispAlreadyTerminal.

Record CancellationResult := {
  cn_target_request_id : RequestId;
  cn_disposition : CancellationDisposition
}.

Record ReplayResult := {
  rp_target_request_id : RequestId;
  rp_through_sequence : Z;
  rp_pending : bool
}.

Record StatusResult := {
  st_ready : bool;
  st_healthy : bool;
  st_daemon_version : string;
  st_protocol_version : Z;
  st_queue_depth : Z
}.

Record DaemonLifecycleResult := { dl_stopping : bool }.

Record ActivityEventSummary := {
  ae_sequence : Z;
  ae_project_id : ProjectId;
  ae_caller_id : CallerId;
  ae_action : string;
  ae_decision : string;
  ae_outcome : string;
  ae_occurred_at_ms : Z;
  ae_project_root : option string
}.

Record ActivityResult := { ar_events : list ActivityEventSummary; ar_truncated : bool }.

Record ActivityDaySummary := { ad_day_start_ms : Z; ad_events : Z }.

Record ProjectUsageSummary := {
  pu_project_id : string;
  pu_events : Z;
  pu_last_event_ms : Z;
  pu_root : option string
}.

Record DaemonStatsResult := {
  ds_days : list ActivityDaySummary;
  ds_projects : list ProjectUsageSummary
}.

Inductive LogSeverity : Type := SeverityInfo | SeverityWarn | SeverityError.

Record DaemonLogEntry := {
  le_timestamp_ms : Z;
  le_severity : LogSeverity;
  le_message : string
}.

Record DaemonLogsResult := { dg_entries : list DaemonLogEntry }.

Record CallerSummary := {
  cs_caller_id : CallerId;
  cs_registered_at_ms : Z;
  cs_revoked_at_ms : option Z;
  cs_kind : option string
}.

Record CallerListResult := { cl_callers : list CallerSummary }.

Inductive ModelTransitionPhase : Type := PhaseLoading | PhaseUnloading.

Definition phase_as_str (p : ModelTransitionPhase) : string :=
  match p with PhaseLoading => "loading" | PhaseUnloading => "unloading" end.

Record ModelTransition := { mt_phase : ModelTransitionPhase; mt_model : string }.

Record ModelSummary := { ms_model_id : string; ms_size_bytes : Z }.

Record ModelStatusResult := {
  mst_loaded : option ModelSummary;
  mst_registered : list ModelSummary;
  mst_load_failure : option string;
  mst_transition : option ModelTransition
}.

Inductive ProjectRequestState : Type :=
| StateQueued | StateLeased | StateCancellationRequested | StateSucceeded | StateFailed
| StateCancelled.

Record ProjectRequestSummary := {
  prs_request_id : RequestId;
  prs_operation_kind : string;
  prs_state : ProjectRequestState;
  prs_queue_sequence : Z;
  prs_accepted_at_ms : Z;
  prs_completed_at_ms : option Z
}.

Record ProjectCurrentResult := {
  pc_queued : list ProjectRequestSummary;
  pc_active : option ProjectRequestSummary;
  pc_latest : option ProjectRequestSummary;
  pc_truncated : bool
}.

Inductive ApprovalDecisionDisposition : Type :=
| DispositionApproved | DispositionDenied | DispositionExpired.

Record ApprovalDecisionResult := {
  adr_approval_id : ApprovalId;
  adr_disposition : ApprovalDecisionDisposition
}.

Inductive ConfigurationPresence : Type := NotConfigured | Configured | InvalidConfiguration.
Inductive PacState : Type := PacNotDetected | PacDetectedUnsupported | PacInspectionUnavailable.

Record NetworkDiagnosticsResult := {
  nd_platform_roots_enabled : bool;
  nd_system_proxy_discovery_enabled : bool;
  nd_proxy_environment_presence : ConfigurationPresence;
  nd_no_proxy_presence : ConfigurationPresence;
  nd_pac_state : PacState
}.

Inductive SourceAvailability : Type := SourceAvailable | SourcePartial | SourceUnavailable.

Record BriefItem := {
  bi_text : string;
  bi_truth : OperationTruth;
  bi_evidence : list EvidenceHandle
}.

Record BriefProvenance := {
  bp_source : string;
  bp_availability : SourceAvailability;
  bp_truth : OperationTruth;
  bp_evidence : option EvidenceHandle;
  bp_detail : option string
}.

Record BriefResult := {
  br_goal : option BriefItem;
  br_decisions : list BriefItem;
  br_verified : list BriefItem;
  br_next : list BriefItem;
  br_provenance : list BriefProvenance
}.

Inductive ProtocolEvidenceRetention : Type := RetainSession | RetainProject | RetainPersistent.
Inductive ProtocolEvidenceRedaction : Type := EvidenceUnredacted | EvidenceRedacted.

Record EvidenceMetadata := {
  em_handle : EvidenceHandle;
  em_digest : ContentDigest;
  em_size_bytes : Z;
  em_media_type : string;
  em_retention : ProtocolEvidenceRetention;
  em_redaction : ProtocolEvidenceRedaction;
  em_created_at_unix_ms : Z
}.

Record EvidenceChunk := {
  ec_handle : EvidenceHandle;
  ec_offset : Z;
  ec_bytes : string;
  ec_eof : bool
}.

Inductive ModelFinishReason : Type := FinishStop | FinishLength.

Record ModelUsage := {
  us_input_tokens : Z;
  us_sampled_output_tokens : Z;
  us_emitted_output_tokens : Z
}.

Record ModelGenerationResult := {
  mg_model : string;
  mg_text : string;
  mg_finish_reason : ModelFinishReason;
  mg_usage : ModelUsage
}.

Record ModelRegisterResult := { mrr_model : string; mrr_registered_at_ms : Z }.

Record ModelLoadResult := {
  ml_model : string;
  ml_size_bytes : Z;
  ml_previous : option string;
  ml_already_loaded : bool
}.

Record ModelUnloadResult := { mu_model : string; mu_size_bytes : Z }.
Record ModelUnregisterResult := { mur_model : string; mur_size_bytes : Z; mur_digest : string }.

Record ModelVerification := {
  mv_model : string;
  mv_path : string;
  mv_size_bytes : Z;
  mv_health : string;
  mv_detail : option string;
  mv_source : string;
  mv_weights_deletable : bool
}.

Record ModelVerifyResult := { mvr_models : list ModelVerification }.

Record DanglingRegistrationSummary := {
  dr_model : string; dr_path : string; dr_size_bytes : Z
}.
Record OrphanWeightsSummary := { ow_path : string; ow_size_bytes : Z }.

Record ModelSweepResult := {
  sw_models_dir : string;
  sw_dangling : list DanglingRegistrationSummary;
  sw_orphans : list OrphanWeightsSummary;
  sw_total_bytes : Z
}.

Record ModelDeleteWeightsResult := {
  dw_model : string; dw_path : string; dw_bytes_reclaimed : Z
}.

Record GrantRevokeResult := { gr_capability : string; gr_revoked : Z }.

Record ConnectorSummary := {
  cos_connector_id : string;
  cos_enabled : bool;
  cos_base_url : option string;
  cos_credential_present : bool;
  cos_last_test_status : option string;
  cos_last_test_at_ms : option Z
}.

Record ConnectorListResult := { col_connectors : list ConnectorSummary }.
Record ConnectorConfigureResult := { coc_connector : ConnectorSummary }.

Inductive ConnectorTestDisposition : Type := TestPassed | TestFailed.

Record ConnectorTestResult := {
  cot_connector_id : string;
  cot_status : ConnectorTestDisposition;
  cot_detail : string
}.

Record ResetItem := { ri_kind : string; ri_count : Z; ri_bytes : Z; ri_names : list string }.

Record ResetResult := {
  rs_scope : string;
  rs_dry_run : bool;
  rs_items : list ResetItem;
  rs_total_items : Z;
  rs_total_bytes : Z
}.

Inductive ResultPayload : Type :=
| GotStatus (r : StatusResult)
| GotDaemonLifecycle (r : DaemonLifecycleResult)
| GotDaemonActivity (r : ActivityResult)
| GotDaemonLogs (r : DaemonLogsResult)
| GotDaemonStats (r : DaemonStatsResult)
| GotCallerList (r : CallerListResult)
| GotProjectCurrent (r : ProjectCurrentResult)
| GotApprovalDecision (r : ApprovalDecisionResult)
| GotCancellation (r : CancellationResult)
| GotReplay (r : ReplayResult)
| GotBrief (r : BriefResult)
| GotNetworkDiagnostics (r : NetworkDiagnosticsResult)
| GotEvidenceMetadata (r : EvidenceMetadata)
| GotEvidenceChunk (r : EvidenceChunk)
| GotModelGeneration (r : ModelGenerationResult)
| GotModelStatus (r : ModelStatusResult)
| GotModelRegister (r : ModelRegisterResult)
| GotModelLoad (r : ModelLoadResult)
| GotModelUnload (r : ModelUnloadResult)
| GotModelUnregister (r : ModelUnregisterResult)
| GotModelVerify (r : ModelVerifyResult)
| GotModelSweep (r : ModelSweepResult)
| GotModelDeleteWeights (r : ModelDeleteWeightsResult)
| GotGrantRevoke (r : GrantRevokeResult)
| GotFlowRun (r : FlowRunResult)
| GotConnectorList (r : ConnectorListResult)
| GotConnectorConfigure (r : ConnectorConfigureResult)
| GotConnectorTest (r : ConnectorTestResult)
| GotReset (r : ResetResult).

Inductive FailureCode : Type :=
| CodeUnauthenticated | CodeForbidden | CodeApprovalRequired | CodeApprovalDenied
| CodeApprovalExpired | CodeUnsupportedProtocolVersion | CodeInvalidRequest | CodeFrameTooLarge
| CodeNotFound | CodePending | CodeIdempotencyConflict | CodeCancelled | CodeLeaseConflict
| CodeBusy | CodeInternal.

Record ApprovalChallenge := { ac_approval_id : ApprovalId; ac_expires_at_unix_ms : Z }.

Record Failure := {
  fa_code : FailureCode;
  fa_message : string;
  fa_recovery : option string;
  fa_approval : option ApprovalChallenge
}.

Inductive ResultBody : Type :=
| BodySuccess (truth : OperationTruth) (payload : ResultPayload)
| BodyFailure (failure : Failure).

Record ResultEnvelope := {
  re_protocol_version : Z;
  re_request_id : RequestId;
  re_project_id : ProjectId;
  re_body : ResultBody
}.

(** ** Events *)

Inductive Event : Type :=
| EvAccepted | EvStarted | EvLeaseExpired | EvCancellationRequested | EvCancelled | EvCompleted
| EvFailed
| EvFlowTransition (t : RunTransition).

Record EventEnvelope := {
  ee_protocol_version : Z;
  ee_request_id : RequestId;
  ee_project_id : ProjectId;
  ee_sequence : Z;
  ee_event : Event
}.

Inductive ServerMessage : Type :=
| MessageEvent (envelope : EventEnvelope)
| MessageResult (envelope : ResultEnvelope).

Definition message_protocol_version (m : ServerMessage) : Z :=
  match m with
  | MessageEvent e => ee_protocol_version e
  | MessageResult r => re_protocol_version r
  end.
