(* ===== verification/ProtocolRequest.v ===== *)
(** * Requests: their checks and constructors ([pam_protocol/src/contract.rs])

    The bounds of every request field, the constructors of the newtypes, one
    constructor per kind of request, and the checks the daemon repeats on what
    it decoded. *)

From S2P Require Import Prelude Core Paths FlowDef FlowData Protocol.

Local Open Scope Z_scope.

(** [toml::from_str::<FlowDefinition>], which no code here sees the inside
    of. *)
Class TomlParser := {
  toml_error : Type;
  toml_from_str : string -> res toml_error FlowDefinition
}.

(** ** Field checks *)

Definition has_control (s : string) : bool := existsb is_control (chars s).
Definition has_control_or_space (s : string) : bool :=
  existsb (fun c => is_control c || is_whitespace c) (chars s).

Definition valid_model_segment (value : string) : bool :=
  negb (str_is_empty value) && (len value <=? 128)
  && negb (String.eqb value ".") && negb (String.eqb value "..")
  && all_bytes (fun b => is_ascii_alphanumeric b || one_of "._-" b) value.

Definition validate_model_id (model : string) : cres unit :=
  match after_first "/" model with
  | None => Err InvalidModelIdentity
  | Some name =>
    if str_contains "/" name || negb (valid_model_segment (before_first is_slash model))
       || negb (valid_model_segment name)
    then Err InvalidModelIdentity
    else Ok tt
  end.

Definition validate_model_message (content : string) : cres unit :=
  if str_is_empty content || (len content >? MAX_MODEL_MESSAGE_BYTES) || str_contains nul content
  then Err InvalidModelMessage
  else Ok tt.

Definition is_user (m : ModelMessage) : bool :=
  match mm_role m with RoleUser => true | _ => false end.

(** The loop over the messages, with the bytes counted so far. *)
Fixpoint validate_prompt (total : Z) (messages : list ModelMessage) : cres unit :=
  match messages with
  | [] => Ok tt
  | message :: rest =>
    let? _ := validate_model_message (mm_content message) in
    let? total := ok_or (checked_add64 total (len (mm_content message)))
                    (ModelPromptTooLarge u64_max MAX_MODEL_PROMPT_BYTES) in
    if total >? MAX_MODEL_PROMPT_BYTES then Err (ModelPromptTooLarge total MAX_MODEL_PROMPT_BYTES)
    else validate_prompt total rest
  end.

Definition validate_model_generation (model : string) (messages : list ModelMessage)
    (max_output_tokens : Z) : cres unit :=
  let? _ := validate_model_id model in
  if bool_decide (messages = []) || (Z.of_nat (length messages) >? MAX_MODEL_MESSAGES)
     || negb (match last messages with Some m => is_user m | None => false end)
  then Err InvalidModelConversation
  else
    let? _ := validate_prompt 0 messages in
    if (max_output_tokens =? 0) || (max_output_tokens >? MAX_MODEL_OUTPUT_TOKENS)
    then Err (InvalidModelOutputTokens max_output_tokens MAX_MODEL_OUTPUT_TOKENS)
    else Ok tt.

Definition validate_model_deadline (deadline_unix_ms : option Z) : cres unit :=
  match deadline_unix_ms with
  | Some deadline => if deadline >? 0 then Ok tt else Err InvalidModelDeadline
  | None => Err InvalidModelDeadline
  end.

(** [remainder.split('/').next()], nonempty and without user information. *)
Definition authority_ok (remainder : string) : bool :=
  let authority := before_first is_slash remainder in
  negb (str_is_empty authority) && negb (str_contains "@" authority).

Definition bounded_https_url (url : string) : bool :=
  (len url <=? MAX_MODEL_URL_BYTES)
  && match strip_prefix "https://" url with Some r => authority_ok r | None => false end
  && negb (has_control_or_space url).

Definition validate_model_registration (r : ModelRegistration) : cres unit :=
  let? _ := map_err (fun _ => InvalidModelRegistration) (validate_model_id (mr_model r)) in
  let path_is_bounded :=
    negb (str_is_empty (mr_path r)) && (len (mr_path r) <=? MAX_MODEL_PATH_BYTES)
    && is_absolute (mr_path r) && negb (has_control (mr_path r)) in
  let license_is_bounded :=
    negb (str_is_empty (mr_license_id r)) && (len (mr_license_id r) <=? MAX_MODEL_LICENSE_ID_BYTES)
    && negb (has_control_or_space (mr_license_id r)) in
  let digests_are_canonical :=
    is_ok (digest_parse (mr_digest r)) && is_ok (digest_parse (mr_license_digest r)) in
  if path_is_bounded && license_is_bounded && digests_are_canonical && (mr_size_bytes r >? 0)
     && bounded_https_url (mr_license_url r)
     && match mr_source_url r with Some url => bounded_https_url url | None => true end
  then Ok tt
  else Err InvalidModelRegistration.

Definition validate_grant_capability (capability : string) : cres unit :=
  let bounded := negb (str_is_empty capability) && (len capability <=? MAX_GRANT_CAPABILITY_BYTES) in
  let well_formed :=
    forallb (fun segment =>
      negb (str_is_empty segment)
      && all_bytes (fun b => is_ascii_lowercase b || is_ascii_digit b || one_of "_" b) segment)
      (split_on is_dot capability) in
  if bounded && well_formed then Ok tt else Err InvalidGrantCapability.

Definition validate_connector_id (connector : string) : cres unit :=
  let bounded := negb (str_is_empty connector) && (len connector <=? MAX_CONNECTOR_ID_BYTES) in
  let well_formed :=
    forallb (fun segment =>
      negb (str_is_empty segment)
      && first_byte_is is_ascii_lowercase segment && last_byte_is is_ascii_alphanumeric segment
      && all_bytes (fun b => is_ascii_lowercase b || is_ascii_digit b || one_of "-" b) segment)
      (split_on is_dot connector) in
  if bounded && well_formed then Ok tt else Err InvalidConnectorIdentity.

Definition validate_connector_base_url (base_url : string) : cres unit :=
  match strip_prefix "https://" base_url with
  | None => Err InvalidConnectorBaseUrl
  | Some remainder =>
    if (len base_url >? MAX_CONNECTOR_BASE_URL_BYTES) || negb (authority_ok remainder)
       || existsb (one_of "#?") (bytes base_url) || has_control_or_space base_url
    then Err InvalidConnectorBaseUrl
    else Ok tt
  end.

Definition validate_evidence_read_length (length : Z) : cres unit :=
  if (length =? 0) || (length >? MAX_EVIDENCE_CHUNK_SIZE)
  then Err (InvalidEvidenceReadLength length MAX_EVIDENCE_CHUNK_SIZE)
  else Ok tt.

Definition validate_project_operation_kind (operation_kind : string) : cres unit :=
  if str_is_empty operation_kind || (len operation_kind >? MAX_PROJECT_OPERATION_KIND_BYTES)
     || str_contains nul operation_kind
  then Err InvalidProjectOperationKind
  else Ok tt.

Definition validate_project_current_queued (queued : list ProjectRequestSummary) : cres unit :=
  if Z.of_nat (length queued) >? MAX_PROJECT_CURRENT_QUEUED
  then Err (ProjectCurrentQueueTooLarge (Z.of_nat (length queued)) MAX_PROJECT_CURRENT_QUEUED)
  else Ok tt.

(** ** Validated newtypes *)

Definition document_new (definition : string) : cres FlowDefinitionDocument :=
  if len definition >? MAX_FLOW_DOCUMENT_BYTES
  then Err (FlowDefinitionTooLarge (len definition) MAX_FLOW_DOCUMENT_BYTES)
  else Ok {| document_str := definition |}.

Definition document_validate `{TomlParser} (d : FlowDefinitionDocument) : cres unit :=
  match parse_toml toml_from_str (document_str d) with
  | Ok _ => Ok tt
  | Err _ => Err InvalidFlowDefinition
  | Panic => Panic
  end.

(** [Component::Prefix(_) | Component::RootDir | Component::Normal(_)]. *)
Definition canonical_component (c : Component) : bool :=
  match c with RootDir | Normal _ => true | CurDir | ParentDir => false end.

Definition root_validate (r : FlowProjectRoot) : cres unit :=
  let path := root_str r in
  if str_is_empty path || negb (is_absolute path)
     || negb (forallb canonical_component (components path))
     || negb (String.eqb (collect_path (components path)) path)
  then Err InvalidFlowProjectRoot
  else Ok tt.

Definition root_new (project_root : string) : cres FlowProjectRoot :=
  if len project_root >? MAX_FLOW_PROJECT_ROOT_BYTES
  then Err (FlowProjectRootTooLarge (len project_root) MAX_FLOW_PROJECT_ROOT_BYTES)
  else
    let root := {| root_str := project_root |} in
    let? _ := root_validate root in
    Ok root.

Definition secret_new (secret : string) : cres ConnectorSecret :=
  if str_is_empty secret || (len secret >? MAX_CONNECTOR_SECRET_BYTES) || has_control secret
  then Err InvalidConnectorSecret
  else Ok {| secret_str := secret |}.

Definition message_new (role : ModelRole) (content : string) : cres ModelMessage :=
  let? _ := validate_model_message content in
  Ok {| mm_role := role; mm_content := content |}.

Definition generation_result_new (model text : string) (finish_reason : ModelFinishReason)
    (usage : ModelUsage) : cres ModelGenerationResult :=
  let? _ := validate_model_id model in
  if len text >? MAX_MODEL_OUTPUT_BYTES
  then Err (ModelOutputTooLarge (len text) MAX_MODEL_OUTPUT_BYTES)
  else Ok {| mg_model := model; mg_text := text; mg_finish_reason := finish_reason;
             mg_usage := usage |}.

Definition evidence_chunk_new (handle : EvidenceHandle) (offset : Z) (chunk : string) (eof : bool)
  : cres EvidenceChunk :=
  if len chunk >? MAX_EVIDENCE_CHUNK_SIZE
  then Err (EvidenceChunkTooLarge (len chunk) MAX_EVIDENCE_CHUNK_SIZE)
  else Ok {| ec_handle := handle; ec_offset := offset; ec_bytes := chunk; ec_eof := eof |}.

Definition model_summary_new (model_id : string) (size_bytes : Z) : cres ModelSummary :=
  let? _ := validate_model_id model_id in
  Ok {| ms_model_id := model_id; ms_size_bytes := size_bytes |}.

Definition request_summary_new (request_id : RequestId) (operation_kind : string)
    (state : ProjectRequestState) (queue_sequence accepted_at_ms : Z) (completed_at_ms : option Z)
  : cres ProjectRequestSummary :=
  let? _ := validate_project_operation_kind operation_kind in
  Ok {| prs_request_id := request_id; prs_operation_kind := operation_kind; prs_state := state;
        prs_queue_sequence := queue_sequence; prs_accepted_at_ms := accepted_at_ms;
        prs_completed_at_ms := completed_at_ms |}.

Definition project_current_new (queued : list ProjectRequestSummary)
    (active latest : option ProjectRequestSummary) (truncated : bool) : cres ProjectCurrentResult :=
  let? _ := validate_project_current_queued queued in
  Ok {| pc_queued := queued; pc_active := active; pc_latest := latest; pc_truncated := truncated |}.

(** ** Request checks *)

Definition validate_connector_request (r : RequestEnvelope) : cres unit :=
  match rq_payload r with
  | PayConnectorConfigure connector _ base_url _ =>
    let? _ := validate_connector_id connector in
    match base_url with Some url => validate_connector_base_url url | None => Ok tt end
  | PayConnectorTest connector => validate_connector_id connector
  | _ => Ok tt
  end.

Definition validate_model_request (r : RequestEnvelope) : cres unit :=
  match rq_payload r with
  | PayModelInfer model messages max_output_tokens =>
    let? _ := validate_model_generation model messages max_output_tokens in
    validate_model_deadline (rq_deadline_unix_ms r)
  | PayModelRegister registration => validate_model_registration registration
  | PayModelLoad model | PayModelUnregister model | PayModelDeleteWeights model =>
    validate_model_id model
  | PayModelVerify model => match model with Some m => validate_model_id m | None => Ok tt end
  | _ => Ok tt
  end.

Definition validate_grant_request (r : RequestEnvelope) : cres unit :=
  match rq_payload r with
  | PayGrantRevoke capability => validate_grant_capability capability
  | _ => Ok tt
  end.

Definition validate_flow_request `{TomlParser} (r : RequestEnvelope) : cres unit :=
  match rq_payload r with
  | PayFlowRun definition project_root =>
    let? _ := map_err (fun _ => InvalidFlowRunId) (run_id_parse (rq_request_id r)) in
    let? _ := document_validate definition in
    root_validate project_root
  | _ => Ok tt
  end.

(** ** Constructors *)

(** The identities every constructor takes, and the envelope it fills: nothing
    is attached and no deadline is set. *)
Section constructors.
Context (request_id : RequestId) (caller_id : CallerId) (project_id : ProjectId)
  (idempotency_key : IdempotencyKey).

Definition new_envelope (capability : Capability) (payload : RequestPayload) : RequestEnvelope :=
  {| rq_protocol_version := PROTOCOL_VERSION; rq_request_id := request_id;
     rq_caller_id := caller_id; rq_authentication := None; rq_approval_id := None;
     rq_project_root := None; rq_project_id := project_id; rq_capability := capability;
     rq_idempotency_key := idempotency_key; rq_deadline_unix_ms := None; rq_payload := payload |}.

Definition with_deadline (r : RequestEnvelope) (deadline_unix_ms : Z) : RequestEnvelope :=
  {| rq_protocol_version := rq_protocol_version r; rq_request_id := rq_request_id r;
     rq_caller_id := rq_caller_id r; rq_authentication := rq_authentication r;
     rq_approval_id := rq_approval_id r; rq_project_root := rq_project_root r;
     rq_project_id := rq_project_id r; rq_capability := rq_capability r;
     rq_idempotency_key := rq_idempotency_key r; rq_deadline_unix_ms := Some deadline_unix_ms;
     rq_payload := rq_payload r |}.

Definition status : RequestEnvelope :=
  new_envelope CapDaemonStatus PayStatus.
Definition stop : RequestEnvelope :=
  new_envelope CapDaemonStop PayStop.
Definition project_current : RequestEnvelope :=
  new_envelope CapProjectCurrent PayProjectCurrent.
Definition daemon_activity (limit : Z) : RequestEnvelope :=
  new_envelope CapDaemonActivity (PayDaemonActivity limit).
Definition daemon_logs (limit : Z) : RequestEnvelope :=
  new_envelope CapDaemonLogs (PayDaemonLogs limit).
Definition daemon_stats (days : Z) : RequestEnvelope :=
  new_envelope CapDaemonStats (PayDaemonStats days).
Definition caller_list : RequestEnvelope :=
  new_envelope CapCallerList PayCallerList.
Definition model_status : RequestEnvelope :=
  new_envelope CapModelStatus PayModelStatus.
Definition connector_list : RequestEnvelope :=
  new_envelope CapConnectorList PayConnectorList.
Definition approval_decide (approval_id : ApprovalId) (decision : ProtocolApprovalDecision) : RequestEnvelope :=
  new_envelope CapApprovalDecide (PayApprovalDecide approval_id decision).
Definition cancel_request (target_request_id : RequestId) : RequestEnvelope :=
  new_envelope CapCancelRequest (PayCancel target_request_id None).
Definition cancel_with_expected_target (target_request_id : RequestId) (expected : ExpectedTargetKind) : RequestEnvelope :=
  new_envelope CapCancelRequest (PayCancel target_request_id (Some expected)).
Definition replay_request (target_request_id : RequestId) (after_sequence : Z) : RequestEnvelope :=
  new_envelope CapReplayEvents (PayReplay target_request_id after_sequence None).
Definition replay_with_expected_target (target_request_id : RequestId) (after_sequence : Z) (expected : ExpectedTargetKind) : RequestEnvelope :=
  new_envelope CapReplayEvents (PayReplay target_request_id after_sequence (Some expected)).
Definition brief : RequestEnvelope :=
  new_envelope CapBrief PayBrief.
Definition network_diagnostics : RequestEnvelope :=
  new_envelope CapNetworkDiagnostics PayNetworkDiagnostics.
Definition model_unload : RequestEnvelope :=
  new_envelope CapModelUnload PayModelUnload.
Definition model_sweep : RequestEnvelope :=
  new_envelope CapModelSweep PayModelSweep.
Definition wait_for_result (target_request_id : RequestId) (after_sequence : Z) : RequestEnvelope :=
  new_envelope CapWaitForResult (PayWaitForResult target_request_id after_sequence None).
Definition wait_for_result_with_expected_target (target_request_id : RequestId) (after_sequence : Z) (expected : ExpectedTargetKind) : RequestEnvelope :=
  new_envelope CapWaitForResult (PayWaitForResult target_request_id after_sequence (Some expected)).
Definition get_result (target_request_id : RequestId) : RequestEnvelope :=
  new_envelope CapGetResult (PayGetResult target_request_id None).
Definition get_result_with_expected_target (target_request_id : RequestId) (expected : ExpectedTargetKind) : RequestEnvelope :=
  new_envelope CapGetResult (PayGetResult target_request_id (Some expected)).
Definition inspect_evidence (handle : EvidenceHandle) : RequestEnvelope :=
  new_envelope CapInspectEvidence (PayInspectEvidence handle).

Definition model_load (model : string) : cres RequestEnvelope :=
  let? _ := validate_model_id model in
  Ok (new_envelope CapModelLoad (PayModelLoad model)).
Definition model_unregister (model : string) : cres RequestEnvelope :=
  let? _ := validate_model_id model in
  Ok (new_envelope CapModelUnregister (PayModelUnregister model)).
Definition model_delete_weights (model : string) : cres RequestEnvelope :=
  let? _ := validate_model_id model in
  Ok (new_envelope CapModelDeleteWeights (PayModelDeleteWeights model)).
Definition model_verify (model : option string) : cres RequestEnvelope :=
  let? _ := match model with Some m => validate_model_id m | None => Ok tt end in
  Ok (new_envelope CapModelVerify (PayModelVerify model)).
Definition model_register (registration : ModelRegistration) : cres RequestEnvelope :=
  let? _ := validate_model_registration registration in
  Ok (new_envelope CapModelRegister (PayModelRegister registration)).
Definition grant_revoke (capability : string) : cres RequestEnvelope :=
  let? _ := validate_grant_capability capability in
  Ok (new_envelope CapGrantRevoke (PayGrantRevoke capability)).
Definition read_evidence (handle : EvidenceHandle) (offset length : Z) : cres RequestEnvelope :=
  let? _ := validate_evidence_read_length length in
  Ok (new_envelope CapReadEvidence (PayReadEvidence handle offset length)).

Definition connector_configure (connector : string) (enabled : option bool)
    (base_url : option string) (credential : option ConnectorCredentialAction)
  : cres RequestEnvelope :=
  let request := new_envelope CapConnectorConfigure
                   (PayConnectorConfigure connector enabled base_url credential) in
  let? _ := validate_connector_request request in
  Ok request.

Definition connector_test (connector : string) : cres RequestEnvelope :=
  let request := new_envelope CapConnectorTest (PayConnectorTest connector) in
  let? _ := validate_connector_request request in
  Ok request.

Definition model_infer (model : string) (messages : list ModelMessage)
    (max_output_tokens deadline_unix_ms : Z) : cres RequestEnvelope :=
  let? _ := validate_model_generation model messages max_output_tokens in
  let? _ := validate_model_deadline (Some deadline_unix_ms) in
  Ok (with_deadline (new_envelope CapModelInfer (PayModelInfer model messages max_output_tokens))
        deadline_unix_ms).

Definition reset (tier : ResetTier) (dry_run : bool) : RequestEnvelope :=
  match tier with
  | TierAccess => new_envelope CapResetAccess (PayResetAccess dry_run)
  | TierIdentity => new_envelope CapResetIdentity (PayResetIdentity dry_run)
  | TierHistory => new_envelope CapResetHistory (PayResetHistory dry_run)
  | TierRegistry => new_envelope CapResetRegistry (PayResetRegistry dry_run)
  end.

End constructors.

(** ** Attachments *)

Definition attach (r : RequestEnvelope) (authentication : option CallerCredential)
    (approval_id : option ApprovalId) (project_root : option FlowProjectRoot) : RequestEnvelope :=
  {| rq_protocol_version := rq_protocol_version r; rq_request_id := rq_request_id r;
     rq_caller_id := rq_caller_id r; rq_authentication := authentication;
     rq_approval_id := approval_id; rq_project_root := project_root;
     rq_project_id := rq_project_id r; rq_capability := rq_capability r;
     rq_idempotency_key := rq_idempotency_key r; rq_deadline_unix_ms := rq_deadline_unix_ms r;
     rq_payload := rq_payload r |}.

Definition authenticated (r : RequestEnvelope) (credential : CallerCredential) : RequestEnvelope :=
  attach r (Some credential) (rq_approval_id r) (rq_project_root r).
Definition with_approval (r : RequestEnvelope) (approval_id : ApprovalId) : RequestEnvelope :=
  attach r (rq_authentication r) (Some approval_id) (rq_project_root r).
Definition with_project_root (r : RequestEnvelope) (project_root : FlowProjectRoot)
  : RequestEnvelope :=
  attach r (rq_authentication r) (rq_approval_id r) (Some project_root).

(** The answer to a request of another protocol version. *)
Definition unsupported_version_failure (r : RequestEnvelope) : option ResultEnvelope :=
  if rq_protocol_version r =? PROTOCOL_VERSION then None
  else Some {| re_protocol_version := PROTOCOL_VERSION; re_request_id := rq_request_id r;
               re_project_id := rq_project_id r;
               re_body := BodyFailure {|
                 fa_code := CodeUnsupportedProtocolVersion;
                 fa_message := "protocol version " +:+ pretty (rq_protocol_version r)
                   +:+ " is unsupported; this daemon supports version " +:+ pretty PROTOCOL_VERSION;
                 fa_recovery := None; fa_approval := None |} |}.
