(* ===== verification/ProtocolCodec.v ===== *)
(** * The frame codec ([pam_protocol/src/codec.rs])

    Named-field MessagePack within the frame limit, and what decoding checks:
    the constructors of the validated types, the protocol version, and for a
    request the contract of its payload. [rmp_serde] is the class [WireCodec]. *)

From S2P Require Import Prelude Core Paths FlowDef FlowData Protocol ProtocolRequest.

Local Open Scope Z_scope.

(** A message before the checks of its [Deserialize] implementations. The
    flow result of an old peer has no report. *)
Record RawServerMessage := {
  raw_message : ServerMessage;
  raw_report_missing : bool
}.

(** [rmp_serde::to_vec_named] and [rmp_serde::from_slice] at the two message
    types; the errors are the crate's own. *)
Class WireCodec := {
  request_to_vec : RequestEnvelope -> option string;
  request_raw_from_slice : string -> option RequestEnvelope;
  message_to_vec : ServerMessage -> option string;
  message_raw_from_slice : string -> option RawServerMessage
}.

Inductive CodecError : Type :=
| FrameTooLarge (actual maximum : Z)
| DecodeError
| EncodeError
| ContractError (error : ProtocolContractError)
| UnsupportedProtocolVersion (actual supported : Z).

Definition enforce_frame_limit (actual : Z) : res CodecError unit :=
  if actual >? MAX_FRAME_SIZE then Err (FrameTooLarge actual MAX_FRAME_SIZE) else Ok tt.

Definition enforce_version (actual : Z) : res CodecError unit :=
  if actual =? PROTOCOL_VERSION then Ok tt
  else Err (UnsupportedProtocolVersion actual PROTOCOL_VERSION).

(** ** Deserialization of the validated types *)

Definition opt_all {A} (p : A -> bool) (o : option A) : bool :=
  match o with Some a => p a | None => true end.

Definition handle_ok (h : EvidenceHandle) : bool := is_ok (handle_parse (handle_str h)).
Definition root_ok (r : FlowProjectRoot) : bool := is_ok (root_new (root_str r)).
Definition message_ok (m : ModelMessage) : bool := is_ok (message_new (mm_role m) (mm_content m)).
Definition credential_ok (a : ConnectorCredentialAction) : bool :=
  match a with
  | CredentialSet secret => is_ok (secret_new (secret_str secret))
  | CredentialClear => true
  end.

Definition payload_fields_ok (p : RequestPayload) : bool :=
  match p with
  | PayInspectEvidence handle => handle_ok handle
  | PayReadEvidence handle _ length =>
    handle_ok handle && is_ok (validate_evidence_read_length length)
  | PayModelInfer _ messages _ => forallb message_ok messages
  | PayFlowRun definition project_root =>
    is_ok (document_new (document_str definition)) && root_ok project_root
  | PayConnectorConfigure _ _ _ credential => opt_all credential_ok credential
  | _ => true
  end.

Definition request_fields_ok (r : RequestEnvelope) : bool :=
  opt_all root_ok (rq_project_root r) && payload_fields_ok (rq_payload r).

Definition flow_handle_ok (h : FlowEvidenceHandle) : bool := is_ok (flow_handle_parse h).
Definition report_decodes (r : EffectReport) : bool := is_ok (report_validate r "effect_report").
Definition effect_result_ok (r : EffectResult) : bool :=
  report_decodes (report r) && is_ok (report_validate (report r) "effect_result.report").
Definition step_result_ok (s : StepRunResult) : bool :=
  opt_all effect_result_ok (sr_result s) && opt_all report_decodes (sr_blocked_report s).
Definition section_ok (s : FlowOutcomeSection) : bool :=
  forallb flow_handle_ok (os_evidence s) && is_ok (section_try_from s).
Definition outcome_report_ok (r : FlowOutcomeReport) : bool :=
  section_ok (or_solved r) && section_ok (or_changed r) && section_ok (or_verified r)
  && section_ok (or_unresolved r) && section_ok (or_blocked r).

(** [FlowRunResult::deserialize]: its fields, then the checks that tie them
    together. *)
Definition flow_result_deserialize (r : FlowRunResult) (report_missing : bool)
  : option FlowRunResult :=
  let report := if report_missing then None else Some (rr_report r) in
  if is_ok (run_id_parse (rr_run_id r)) && forallb step_result_ok (rr_steps r)
     && opt_all outcome_report_ok report
  then match run_result_deserialize (rr_run_id r) (rr_digest r) (rr_outcome r) report (rr_steps r) with
       | Ok result => Some result
       | _ => None
       end
  else None.

Definition event_reports_ok (e : FlowSemanticEvent) : bool :=
  match e with
  | EvidenceFound _ handles => forallb flow_handle_ok handles
  | FixApplied _ report | VerificationPassed _ report | UnresolvedEvent _ report
  | BlockedEvent _ report => report_decodes report
  | Waiting _ _ _ | ApprovalRequiredEvent _ => true
  end.

Definition brief_item_ok (i : BriefItem) : bool := forallb handle_ok (bi_evidence i).
Definition brief_ok (b : BriefResult) : bool :=
  opt_all brief_item_ok (br_goal b) && forallb brief_item_ok (br_decisions b)
  && forallb brief_item_ok (br_verified b) && forallb brief_item_ok (br_next b)
  && forallb (fun p => opt_all handle_ok (bp_evidence p)) (br_provenance b).

Definition summary_ok (s : ModelSummary) : bool := is_ok (validate_model_id (ms_model_id s)).
Definition request_summary_ok (s : ProjectRequestSummary) : bool :=
  is_ok (validate_project_operation_kind (prs_operation_kind s)).

Definition result_payload_deserialize (p : ResultPayload) (report_missing : bool)
  : option ResultPayload :=
  let checked (b : bool) := if b then Some p else None in
  match p with
  | GotProjectCurrent r =>
    checked (forallb request_summary_ok (pc_queued r)
             && is_ok (validate_project_current_queued (pc_queued r))
             && opt_all request_summary_ok (pc_active r) && opt_all request_summary_ok (pc_latest r))
  | GotBrief r => checked (brief_ok r)
  | GotEvidenceMetadata r =>
    checked (handle_ok (em_handle r) && is_ok (digest_parse (digest_str (em_digest r))))
  | GotEvidenceChunk r =>
    checked (handle_ok (ec_handle r) && (len (ec_bytes r) <=? MAX_EVIDENCE_CHUNK_SIZE))
  | GotModelGeneration r =>
    checked (is_ok (generation_result_new (mg_model r) (mg_text r) (mg_finish_reason r) (mg_usage r)))
  | GotModelStatus r =>
    checked (opt_all summary_ok (mst_loaded r) && forallb summary_ok (mst_registered r))
  | GotFlowRun r => GotFlowRun <$> flow_result_deserialize r report_missing
  | _ => Some p
  end.

Definition message_deserialize (raw : RawServerMessage) : option ServerMessage :=
  match raw_message raw with
  | MessageEvent e =>
    match ee_event e with
    | EvFlowTransition t =>
      if forallb event_reports_ok (tr_semantic_events t) && is_ok (transition_deserialize t)
      then Some (MessageEvent e) else None
    | _ => Some (MessageEvent e)
    end
  | MessageResult r =>
    match re_body r with
    | BodySuccess truth payload =>
      payload ← result_payload_deserialize payload (raw_report_missing raw);
      Some (MessageResult {| re_protocol_version := re_protocol_version r;
                             re_request_id := re_request_id r; re_project_id := re_project_id r;
                             re_body := BodySuccess truth payload |})
    | BodyFailure _ => Some (MessageResult r)
    end
  end.

Section codec.
Context `{WireCodec}.

(** ** Encoding *)

Definition encode_frame (encoded : option string) : res CodecError string :=
  let? frame := ok_or encoded EncodeError in
  let? _ := enforce_frame_limit (len frame) in
  Ok frame.

Definition encode_request (r : RequestEnvelope) : res CodecError string :=
  encode_frame (request_to_vec r).
Definition encode_message (m : ServerMessage) : res CodecError string :=
  encode_frame (message_to_vec m).

(** ** Decoding *)

Definition decode_request_envelope (frame : string) : res CodecError RequestEnvelope :=
  let? _ := enforce_frame_limit (len frame) in
  let? raw := ok_or (request_raw_from_slice frame) DecodeError in
  if request_fields_ok raw then Ok raw else Err DecodeError.

Definition decode_request `{TomlParser} (frame : string) : res CodecError RequestEnvelope :=
  let? request := decode_request_envelope frame in
  let? _ := enforce_version (rq_protocol_version request) in
  let? _ := map_err ContractError (validate_model_request request) in
  let? _ := map_err ContractError (validate_flow_request request) in
  Ok request.

Definition decode_server_message_envelope (frame : string) : res CodecError ServerMessage :=
  let? _ := enforce_frame_limit (len frame) in
  let? raw := ok_or (message_raw_from_slice frame) DecodeError in
  ok_or (message_deserialize raw) DecodeError.

Definition is_version_negotiation_failure (m : ServerMessage) : bool :=
  match m with
  | MessageResult r =>
    match re_body r with
    | BodyFailure f => match fa_code f with CodeUnsupportedProtocolVersion => true | _ => false end
    | BodySuccess _ _ => false
    end
  | MessageEvent _ => false
  end.

Definition decode_server_message (frame : string) : res CodecError ServerMessage :=
  let? message := decode_server_message_envelope frame in
  let? _ := if is_version_negotiation_failure message then Ok tt
            else enforce_version (message_protocol_version message) in
  Ok message.

(** ** Flow requests

    The frame of a flow request is measured when it is built, with room for the
    attachments of [authenticated] and [with_approval]. *)

Definition validate_flow_request_frame (r : RequestEnvelope) : cres unit :=
  let? frame := ok_or (request_to_vec r) FlowRequestEncoding in
  let actual := Z.min u64_max (len frame + MAX_FLOW_REQUEST_ATTACHMENT_BYTES) in
  if actual >? MAX_FRAME_SIZE then Err (FlowRequestTooLarge actual MAX_FRAME_SIZE) else Ok tt.

Definition flow_run `{TomlParser} (request_id : RequestId) (caller_id : CallerId)
    (project_id : ProjectId) (idempotency_key : IdempotencyKey) (definition project_root : string)
  : cres RequestEnvelope :=
  let? document := document_new definition in
  let? root := root_new project_root in
  let request := new_envelope request_id caller_id project_id idempotency_key CapFlowRun
                   (PayFlowRun document root) in
  let? _ := validate_flow_request request in
  let? _ := validate_flow_request_frame request in
  Ok request.

End codec.
