(* ===== verification/ProtocolProof.v ===== *)
(** * What the contract guarantees

    The daemon accepts every request its callers can build, exactly as it was
    built; the frame reserved for a flow request is enough for the attachments
    it was reserved for; and a project root is accepted exactly when it is a
    bounded canonical absolute path. *)

From S2P Require Import Prelude Core FlowDef FlowData FlowSamples Paths Protocol ProtocolRequest ProtocolCodec.

Local Open Scope Z_scope.

(** [rmp_serde] decodes what it encoded. *)
Class WireLaws `{WireCodec} : Prop := {
  request_decodes r frame : request_to_vec r = Some frame -> request_raw_from_slice frame = Some r;
  message_decodes m frame :
    message_to_vec m = Some frame ->
    message_raw_from_slice frame = Some {| raw_message := m; raw_report_missing := false |}
}.

(** ** Canonical project roots *)

Lemma forallb_canonical l :
  forallb canonical_component (omap segment_component l) = true ->
  forallb is_normal (omap segment_component l) = true.
Proof.
  induction l as [|s l IH]; csimpl; [done|].
  destruct (segment_component s) as [c|] eqn:Ec; [|exact IH].
  assert (c <> RootDir).
  { unfold segment_component in Ec. repeat case_match; by simplify_eq. }
  destruct c; csimpl; try done.
Qed.

(** A project root is accepted exactly when it is a canonical absolute path of
    at most 4096 bytes, and it is kept unchanged. *)
Theorem project_root_canonical p r :
  root_new p = Ok r
  <-> len p <= MAX_FLOW_PROJECT_ROOT_BYTES /\ canonical_path p /\ r = {| root_str := p |}.
Proof.
  unfold root_new, root_validate. cbn [root_str]. split.
  - destruct (len p >? _) eqn:El; [done|]. destruct (_ || _) eqn:Eo; [done|]. intros [= <-].
    split; [lia|]. split; [|done].
    rewrite !orb_false_iff, !negb_false_iff, String.eqb_eq in Eo. destruct Eo as (((_ & Ha) & Hc) & Heq).
    unfold is_absolute in Ha. unfold components in Hc, Heq. rewrite Ha in Hc, Heq. csimpl in Hc.
    destruct (normal_names _ (split_plain p) (forallb_canonical _ Hc)) as (names & Hn & Hp).
    exists names. split; [done|]. rewrite Hn, collect_absolute in Heq by done. done.
  - intros (Hl & (names & Hn & ->) & ->). rewrite components_canonical, collect_absolute by done.
    destruct (len _ >? _) eqn:El; [lia|].
    rewrite String.eqb_refl. cbn [negb orb str_is_empty String.append is_absolute has_root].
    assert (forallb canonical_component (RootDir :: (Normal <$> names)) = true) as ->; [|done].
    clear. csimpl. induction names; csimpl; done.
Qed.

(** ** Every request a caller can build *)

Section built.
Context `{WireCodec, TomlParser}.

(** The validated types have private fields: a value of one of them was made by
    its constructor, which may be the one its [Deserialize] calls. *)
Definition made_handle (h : EvidenceHandle) : Prop := exists s, handle_parse s = Ok h.
Definition made_root (root : FlowProjectRoot) : Prop := exists s, root_new s = Ok root.
Definition made_credential (a : option ConnectorCredentialAction) : Prop :=
  match a with Some (CredentialSet secret) => exists s, secret_new s = Ok secret | _ => True end.

(** A request made by one of the constructors, with or without attachments,
    from values of the validated types. *)
Inductive built : RequestEnvelope -> Prop :=
| built_plain i c p k capability payload :
    (capability, payload) ∈
      [(CapDaemonStatus, PayStatus); (CapDaemonStop, PayStop); (CapProjectCurrent, PayProjectCurrent);
       (CapCallerList, PayCallerList); (CapModelStatus, PayModelStatus);
       (CapConnectorList, PayConnectorList); (CapBrief, PayBrief);
       (CapNetworkDiagnostics, PayNetworkDiagnostics); (CapModelUnload, PayModelUnload);
       (CapModelSweep, PayModelSweep)] ->
    built (new_envelope i c p k capability payload)
| built_activity i c p k limit : built (daemon_activity i c p k limit)
| built_logs i c p k limit : built (daemon_logs i c p k limit)
| built_stats i c p k days : built (daemon_stats i c p k days)
| built_decide i c p k id d : built (approval_decide i c p k id d)
| built_cancel i c p k t : built (cancel_request i c p k t)
| built_cancel_expected i c p k t e : built (cancel_with_expected_target i c p k t e)
| built_replay i c p k t n : built (replay_request i c p k t n)
| built_replay_expected i c p k t n e : built (replay_with_expected_target i c p k t n e)
| built_wait i c p k t n : built (wait_for_result i c p k t n)
| built_wait_expected i c p k t n e : built (wait_for_result_with_expected_target i c p k t n e)
| built_get i c p k t : built (get_result i c p k t)
| built_get_expected i c p k t e : built (get_result_with_expected_target i c p k t e)
| built_inspect i c p k h : made_handle h -> built (inspect_evidence i c p k h)
| built_reset i c p k tier dry : built (reset i c p k tier dry)
| built_read i c p k h o l r : made_handle h -> read_evidence i c p k h o l = Ok r -> built r
| built_load i c p k m r : model_load i c p k m = Ok r -> built r
| built_unregister i c p k m r : model_unregister i c p k m = Ok r -> built r
| built_delete i c p k m r : model_delete_weights i c p k m = Ok r -> built r
| built_verify i c p k m r : model_verify i c p k m = Ok r -> built r
| built_register i c p k m r : model_register i c p k m = Ok r -> built r
| built_grant i c p k g r : grant_revoke i c p k g = Ok r -> built r
| built_configure i c p k n e u a r : made_credential a -> connector_configure i c p k n e u a = Ok r -> built r
| built_test i c p k n r : connector_test i c p k n = Ok r -> built r
| built_infer i c p k m ms n d r : model_infer i c p k m ms n d = Ok r -> built r
| built_flow i c p k d root r : flow_run i c p k d root = Ok r -> built r
| built_authenticated r s : built r -> built (authenticated r s)
| built_approval r a : built r -> built (with_approval r a)
| built_root r root : made_root root -> built r -> built (with_project_root r root).

(** The checks of [decode_request] on the payload. *)
Definition contract_ok (r : RequestEnvelope) : Prop :=
  rq_protocol_version r = PROTOCOL_VERSION
  /\ validate_model_request r = Ok tt /\ validate_flow_request r = Ok tt.

Lemma built_contract r : built r -> contract_ok r.
Proof.
  induction 1 as [i c p k cap pay Hin|i c p k l|i c p k l|i c p k l|i c p k id d|i c p k t|i c p k t e
    |i c p k t n|i c p k t n e|i c p k t n|i c p k t n e|i c p k t|i c p k t e|i c p k h Hh|i c p k tier dry
    |i c p k h o l r Hh Hb|i c p k m r Hb|i c p k m r Hb|i c p k m r Hb|i c p k m r Hb|i c p k m r Hb
    |i c p k g r Hb|i c p k n e u a r Ha Hb|i c p k n r Hb|i c p k m ms n d r Hb|i c p k d root r Hb
    |r s _ IH|r a _ IH|r root Hroot _ IH]; try done.
  - by repeat (apply elem_of_cons in Hin as [[= -> ->]|Hin]; [done|]); apply elem_of_nil in Hin.
  - by destruct tier.
  - let_ok Hb. by injection Hb as <-.
  - let_ok Hb. injection Hb as <-. by repeat split.
  - let_ok Hb. injection Hb as <-. by repeat split.
  - let_ok Hb. injection Hb as <-. by repeat split.
  - let_ok Hb. injection Hb as <-. by repeat split.
  - let_ok Hb. injection Hb as <-. by repeat split.
  - let_ok Hb. by injection Hb as <-.
  - let_ok Hb. by injection Hb as <-.
  - let_ok Hb. by injection Hb as <-.
  - let_ok Hb. let_ok Hb. injection Hb as <-. split; [done|split; [|done]]. unfold validate_model_request.
    cbn [rq_payload with_deadline new_envelope rq_deadline_unix_ms]. by rewrite H1, H2.
  - unfold flow_run in Hb. let_ok Hb. let_ok Hb. let_ok Hb. let_ok Hb. injection Hb as <-. by repeat split.
Qed.

(** ** The fields a request is built from *)

Lemma made_handle_ok h : made_handle h -> handle_ok h = true.
Proof.
  intros [s Hs]. unfold handle_ok. replace (handle_str h) with s; [by rewrite Hs|].
  unfold handle_parse in Hs. by repeat case_match; simplify_eq.
Qed.

Lemma root_new_ok s root : root_new s = Ok root -> root_ok root = true.
Proof.
  intros Hs. unfold root_ok. replace (root_str root) with s; [by rewrite Hs|].
  by apply project_root_canonical in Hs as (_ & _ & ->).
Qed.

Lemma made_credential_ok a : made_credential a -> opt_all credential_ok a = true.
Proof.
  destruct a as [[secret|]|]; [|done..]. intros [s Hs]. cbn. replace (secret_str secret) with s; [by rewrite Hs|].
  unfold secret_new in Hs. case_match; by simplify_eq.
Qed.

Lemma validate_prompt_messages total messages :
  validate_prompt total messages = Ok tt -> forallb message_ok messages = true.
Proof.
  revert total. induction messages as [|m rest IH]; intros total Hv; [done|]. cbn [validate_prompt] in Hv.
  destruct (validate_model_message (mm_content m)) as [[]|e|] eqn:Hm; [|done..]. cbn in Hv.
  destruct (ok_or _ _) as [n|e|]; [|done..]. case_match; [done|]. cbn.
  apply IH in Hv as ->. unfold message_ok, message_new. by rewrite Hm.
Qed.

Lemma generation_messages model messages n :
  validate_model_generation model messages n = Ok tt -> forallb message_ok messages = true.
Proof.
  unfold validate_model_generation. intros Hv. let_ok Hv. case_match; [done|]. let_ok Hv.
  match goal with Hp : validate_prompt _ _ = Ok ?u |- _ => destruct u; by apply validate_prompt_messages in Hp end.
Qed.

(** The fields of the payload pass the checks of their [Deserialize]. *)
Lemma built_payload r : built r -> payload_fields_ok (rq_payload r) = true.
Proof.
  induction 1 as [i c p k cap pay Hin|i c p k l|i c p k l|i c p k l|i c p k id d|i c p k t|i c p k t e
    |i c p k t n|i c p k t n e|i c p k t n|i c p k t n e|i c p k t|i c p k t e|i c p k h Hh|i c p k tier dry
    |i c p k h o l r Hh Hb|i c p k m r Hb|i c p k m r Hb|i c p k m r Hb|i c p k m r Hb|i c p k m r Hb
    |i c p k g r Hb|i c p k n e u a r Ha Hb|i c p k n r Hb|i c p k m ms n d r Hb|i c p k d root r Hb
    |r s _ IH|r a _ IH|r root Hroot _ IH]; try done; try (let_ok Hb; by injection Hb as <-).
  - by repeat (apply elem_of_cons in Hin as [[= -> ->]|Hin]; [done|]); apply elem_of_nil in Hin.
  - by apply made_handle_ok.
  - by destruct tier.
  - unfold read_evidence in Hb. destruct (validate_evidence_read_length l) as [[]|e|] eqn:Hl; [|done..].
    injection Hb as <-. cbn. by rewrite made_handle_ok, Hl.
  - let_ok Hb. injection Hb as <-. by apply made_credential_ok.
  - let_ok Hb. let_ok Hb. injection Hb as <-. by eapply generation_messages.
  - unfold flow_run in Hb. destruct (document_new d) as [document|e|] eqn:Hd; [|done..].
    destruct (root_new root) as [root'|e|] eqn:Hr; [|done..]. cbn in Hb. let_ok Hb. let_ok Hb. injection Hb as <-.
    cbn. rewrite (root_new_ok _ _ Hr), andb_true_r. replace (document_str document) with d; [by rewrite Hd|].
    unfold document_new in Hd. destruct (len d >? _); [done|]. by injection Hd as <-.
Qed.

Lemma built_project_root r : built r -> opt_all root_ok (rq_project_root r) = true.
Proof.
  induction 1 as [i c p k cap pay Hin|i c p k l|i c p k l|i c p k l|i c p k id d|i c p k t|i c p k t e
    |i c p k t n|i c p k t n e|i c p k t n|i c p k t n e|i c p k t|i c p k t e|i c p k h Hh|i c p k tier dry
    |i c p k h o l r Hh Hb|i c p k m r Hb|i c p k m r Hb|i c p k m r Hb|i c p k m r Hb|i c p k m r Hb
    |i c p k g r Hb|i c p k n e u a r Ha Hb|i c p k n r Hb|i c p k m ms n d r Hb|i c p k d root r Hb
    |r s _ IH|r a _ IH|r root [s Hroot] _ IH]; try done; try (by let_ok Hb; injection Hb as <-).
  - by destruct tier.
  - by let_ok Hb; let_ok Hb; injection Hb as <-.
  - unfold flow_run in Hb. by let_ok Hb; let_ok Hb; let_ok Hb; let_ok Hb; injection Hb as <-.
  - by eapply root_new_ok.
Qed.

Lemma built_fields r : built r -> request_fields_ok r = true.
Proof. intros Hr. unfold request_fields_ok. by rewrite built_project_root, built_payload. Qed.

End built.

(** C29: what callers build is what the daemon decodes. Every request made by a
    constructor of the contract, with any attachments made by the constructors
    of their types, decodes from its frame to itself: the checks of the field
    types, of the version, of the model request and of the flow request all
    accept it. The MessagePack library is assumed to read what it wrote. *)
Theorem requests_round_trip `{WireLaws, TomlParser} r frame :
  built r -> encode_request r = Ok frame -> decode_request frame = Ok r.
Proof.
  intros Hb He. destruct (built_contract r Hb) as (Hv & Hm & Hflow).
  unfold encode_request, encode_frame in He. destruct (request_to_vec r) as [b|] eqn:Eb; [|done].
  cbn [ok_or] in He. destruct (enforce_frame_limit (len b)) as [[]| |] eqn:El; [|done..].
  injection He as <-. unfold decode_request, decode_request_envelope. rewrite El.
  rewrite (request_decodes r b Eb). cbn [ok_or]. rewrite (built_fields r Hb), Hm, Hflow, Hv. done.
Qed.

(** ** The frame reserved for the attachments of a flow request *)

(** The MessagePack size of a string: its header and its bytes. *)
Definition str_size (s : string) : Z :=
  (if len s <? 32 then 1 else if len s <? 256 then 2 else if len s <? 65536 then 3 else 5) + len s.

(** What one more named field adds to the encoding of an envelope, whose map
    header has one byte as long as it has at most 15 fields. *)
Definition field_size (key value : string) : Z := str_size key + str_size value.

Definition grows `{WireCodec} (r r' : RequestEnvelope) (n : Z) : Prop :=
  forall frame, request_to_vec r = Some frame ->
  exists frame', request_to_vec r' = Some frame' /\ len frame' = len frame + n.

Class AttachmentSizes `{WireCodec} : Prop := {
  authentication_grows r s :
    rq_authentication r = None -> grows r (authenticated r s) (field_size "authentication" s);
  approval_grows r a :
    rq_approval_id r = None -> grows r (with_approval r a) (field_size "approval_id" a);
  project_root_grows r root :
    rq_project_root r = None ->
    grows r (with_project_root r root) (field_size "project_root" (root_str root))
}.

Lemma field_size_le key value n :
  len key < 32 -> len value <= n -> n < 65536 -> field_size key value <= len key + n + 4.
Proof. unfold field_size, str_size. intros. repeat case_match; lia. Qed.

Lemma flow_run_frame `{WireCodec, TomlParser} i c p k d root r :
  flow_run i c p k d root = Ok r ->
  rq_authentication r = None /\ rq_approval_id r = None /\ rq_project_root r = None /\
  exists frame, request_to_vec r = Some frame
    /\ len frame + MAX_FLOW_REQUEST_ATTACHMENT_BYTES <= MAX_FRAME_SIZE.
Proof.
  intros Hf. unfold flow_run in Hf. let_ok Hf. let_ok Hf. let_ok Hf. let_ok Hf. injection Hf as <-.
  split_and!; try done. match goal with Hv : validate_flow_request_frame _ = _ |- _ => rename Hv into Hfr end.
  unfold validate_flow_request_frame in Hfr. destruct (request_to_vec _) as [b|] eqn:Eb; [|done].
  cbn [ok_or] in Hfr. destruct (_ >? _) eqn:E; [done|]. exists b. split; [done|].
  unfold u64_max, MAX_FRAME_SIZE in *. lia.
Qed.

(** The room reserved for a flow request is enough. A flow request that was
    built can be authenticated with any valid credential and carry any approval
    of at most 256 bytes, and its frame still fits. *)
Theorem flow_attachments_fit `{AttachmentSizes, TomlParser} i c p k d root r s a :
  flow_run i c p k d root = Ok r -> credential_is_valid s = true ->
  len a <= MAX_FLOW_APPROVAL_ID_BYTES ->
  exists frame, encode_request (with_approval (authenticated r s) a) = Ok frame.
Proof.
  intros Hf Hs Ha. destruct (flow_run_frame _ _ _ _ _ _ _ Hf) as (Hn1 & Hn2 & _ & frame & Hv & Hl).
  destruct (authentication_grows r s Hn1 frame Hv) as (f1 & Hv1 & Hl1).
  destruct (approval_grows (authenticated r s) a Hn2 f1 Hv1) as (f2 & Hv2 & Hl2).
  exists f2. unfold encode_request, encode_frame. rewrite Hv2. cbn [ok_or].
  unfold credential_is_valid in Hs. apply andb_true_iff in Hs as [_ Hs]. apply Z.leb_le in Hs.
  pose proof (field_size_le "authentication" s 256 ltac:(done) Hs ltac:(done)).
  pose proof (field_size_le "approval_id" a 256 ltac:(done) Ha ltac:(done)).
  change (len "authentication") with 14 in *. change (len "approval_id") with 11 in *.
  unfold enforce_frame_limit. unfold MAX_FLOW_REQUEST_ATTACHMENT_BYTES, MAX_CALLER_CREDENTIAL_LENGTH,
    MAX_FLOW_APPROVAL_ID_BYTES, MAX_FRAME_SIZE in *.
  destruct (_ >? _) eqn:E; [lia|done].
Qed.

(** The third attachment is not reserved for: with a project root the same
    request is refused by the encoder as soon as its frame comes within the
    size of that field of the limit. *)
Theorem project_root_overflows `{AttachmentSizes, TomlParser} i c p k d root r frame r' :
  flow_run i c p k d root = Ok r -> request_to_vec r = Some frame ->
  MAX_FRAME_SIZE - field_size "project_root" (root_str r') < len frame ->
  exists n, encode_request (with_project_root r r') = Err (FrameTooLarge n MAX_FRAME_SIZE).
Proof.
  intros Hf Hv Hl. destruct (flow_run_frame _ _ _ _ _ _ _ Hf) as (_ & _ & Hn & _).
  destruct (project_root_grows r r' Hn frame Hv) as (f1 & Hv1 & Hl1). exists (len f1).
  unfold encode_request, encode_frame. rewrite Hv1. cbn [ok_or]. unfold enforce_frame_limit.
  destruct (_ >? _) eqn:E; [done|lia].
Qed.

(** ** The contract at concrete requests

    A TOML reader that knows the sample flow and two stand-ins for the
    MessagePack codec: one that only measures, as the attachment laws require,
    and one that knows a catalogue of requests, as the decoding law requires. *)

#[local] Instance ModelMessage_eq_dec : EqDecision ModelMessage.
Proof. unfold EqDecision. intros. unfold base.Decision. repeat decide equality. Defined.
#[local] Instance RequestPayload_eq_dec : EqDecision RequestPayload.
Proof. unfold EqDecision. intros. unfold base.Decision. repeat decide equality. Defined.
#[local] Instance RequestEnvelope_eq_dec : EqDecision RequestEnvelope.
Proof. unfold EqDecision. intros. unfold base.Decision. repeat decide equality. Defined.

Definition sample_text : string :=
  match to_normalized_toml sample_flow with Ok text => text | _ => EmptyString end.

#[local] Instance sample_toml : TomlParser := {|
  toml_error := unit;
  toml_from_str s := if String.eqb s sample_text then Ok sample_flow else Err tt
|}.

(** ** A codec that measures *)

Fixpoint filler (n : nat) : string := match n with O => EmptyString | S n => String "x" (filler n) end.

Lemma len_filler n : len (filler n) = Z.of_nat n.
Proof. induction n as [|n IH]; [done|]. unfold len in *. cbn [filler String.length]. lia. Qed.

Definition opt_size (key : string) (value : option string) : Z :=
  match value with Some s => field_size key s | None => 0 end.

Definition document_size (p : RequestPayload) : Z :=
  match p with PayFlowRun d root => str_size (document_str d) + str_size (root_str root) | _ => 0 end.

Definition frame_size (r : RequestEnvelope) : Z :=
  256 + document_size (rq_payload r) + opt_size "authentication" (rq_authentication r)
  + opt_size "approval_id" (rq_approval_id r) + opt_size "project_root" (root_str <$> rq_project_root r).

#[local] Instance size_codec : WireCodec := {|
  request_to_vec r := Some (filler (Z.to_nat (frame_size r)));
  request_raw_from_slice _ := None; message_to_vec _ := None; message_raw_from_slice _ := None
|}.

Lemma str_size_pos s : 0 < str_size s.
Proof. unfold str_size, len. repeat case_match; lia. Qed.

Lemma frame_size_pos r : 0 <= frame_size r.
Proof.
  assert (Ho : forall k v, 0 <= opt_size k v).
  { intros k [v|]; cbn; [|lia]. unfold field_size. pose proof (str_size_pos k). pose proof (str_size_pos v). lia. }
  assert (0 <= document_size (rq_payload r)).
  { destruct (rq_payload r); cbn; try lia.
    pose proof (str_size_pos (document_str definition)). pose proof (str_size_pos (root_str project_root)). lia. }
  unfold frame_size. pose proof (Ho "authentication" (rq_authentication r)).
  pose proof (Ho "approval_id" (rq_approval_id r)).
  pose proof (Ho "project_root" (root_str <$> rq_project_root r)). lia.
Qed.

Lemma size_grows r r' n : frame_size r' = frame_size r + n -> grows r r' n.
Proof.
  intros Hn frame [= <-]. eexists. split; [done|]. rewrite !len_filler.
  pose proof (frame_size_pos r). pose proof (frame_size_pos r'). lia.
Qed.

#[local] Instance size_attachments : AttachmentSizes.
Proof.
  split; intros r x Hnone; apply size_grows; unfold frame_size; cbn; rewrite Hnone; cbn; lia.
Qed.

Definition sample_credential : string := hex_string (sample_hash "caller-1").

Definition sample_envelope : RequestEnvelope :=
  new_envelope "run-1" "caller-1" "project-1" "key-1" CapFlowRun
    (PayFlowRun {| document_str := sample_text |} {| root_str := "/work/app" |}).

Definition sample_attached : RequestEnvelope :=
  with_approval (authenticated sample_envelope sample_credential) "approval-1".

Lemma flow_attachments_fit_witness : exists frame, encode_request sample_attached = Ok frame.
Proof.
  apply (flow_attachments_fit "run-1" "caller-1" "project-1" "key-1" sample_text "/work/app"
           sample_envelope sample_credential "approval-1").
  - vm_compute. reflexivity.
  - vm_compute. reflexivity.
  - vm_compute. discriminate.
Defined.

(** ** A codec that knows a catalogue *)

Definition sample_read : RequestEnvelope :=
  new_envelope "read-1" "caller-1" "project-1" "key-2" CapReadEvidence
    (PayReadEvidence {| handle_str := "evidence://project-1/log" |} 4096 1024).

Definition sample_complete : RequestEnvelope :=
  with_project_root sample_attached {| root_str := "/work/app" |}.

Definition catalogue : list (string * RequestEnvelope) :=
  [("flow", sample_envelope); ("complete", sample_complete); ("read", sample_read)].

Fixpoint frame_of (l : list (string * RequestEnvelope)) (r : RequestEnvelope) : option string :=
  match l with
  | [] => None
  | (frame, r') :: l => if decide (r = r') then Some frame else frame_of l r
  end.

Fixpoint request_of (l : list (string * RequestEnvelope)) (frame : string) : option RequestEnvelope :=
  match l with
  | [] => None
  | (frame', r) :: l => if String.eqb frame frame' then Some r else request_of l frame
  end.

Definition catalogue_codec : WireCodec := {|
  request_to_vec := frame_of catalogue; request_raw_from_slice := request_of catalogue;
  message_to_vec _ := None; message_raw_from_slice _ := None
|}.

Lemma catalogue_laws : @WireLaws catalogue_codec.
Proof.
  split; [|done]. intros r frame. unfold catalogue_codec, catalogue. cbn [request_to_vec frame_of].
  repeat case_decide; intros Hf; simplify_eq; reflexivity.
Qed.

Lemma requests_round_trip_witness :
  @decode_request catalogue_codec sample_toml "complete" = Ok sample_complete
  /\ @decode_request catalogue_codec sample_toml "read" = Ok sample_read.
Proof.
  split.
  - apply (@requests_round_trip catalogue_codec catalogue_laws sample_toml).
    + apply built_root; [exists "/work/app"; vm_compute; reflexivity|]. apply built_approval, built_authenticated.
      apply (built_flow "run-1" "caller-1" "project-1" "key-1" sample_text "/work/app").
      vm_compute. reflexivity.
    + vm_compute. reflexivity.
  - apply (@requests_round_trip catalogue_codec catalogue_laws sample_toml).
    + apply (built_read "read-1" "caller-1" "project-1" "key-2" {| handle_str := "evidence://project-1/log" |} 4096 1024);
        [exists "evidence://project-1/log"|]; vm_compute; reflexivity.
    + vm_compute. reflexivity.
Defined.

(** The checks of the decoder are not vacuous: the same request under another
    protocol version is refused. *)
Example other_version_refused :
  enforce_version (PROTOCOL_VERSION - 1) = Err (UnsupportedProtocolVersion 8 9).
Proof. reflexivity. Qed.
