(* ===== verification/FlowOperation.v ===== *)
(** * The stored operation of a flow request ([pam_daemon/src/flow.rs])

    What the daemon writes into the operation column of a flow request when it
    accepts it, and reads back when it executes it: the project root, the
    fingerprint of the workspace and the normalized definition. The resource a
    run is authorized for names the same three things. *)

From S2P Require Import Prelude Core Policy Compact Paths FlowDef FlowData Protocol ProtocolRequest.

Local Open Scope Z_scope.

Definition FLOW_OPERATION_HEADER : string := "pam-flow-operation-v2" +:+ nul.

Definition u32_max : Z := 4294967295.

(** [u32::to_be_bytes] and [u32::from_be_bytes]. *)
Definition to_be_bytes32 (z : Z) : string := of_bytes (be_byte z <$> [3; 2; 1; 0]).
Definition from_be_bytes (s : string) : Z := foldl (fun z b => z * 256 + byte_val b) 0 (bytes s).

(** [slice::split_at_checked]. *)
Fixpoint split_at_checked (n : nat) (s : string) : option (string * string) :=
  match n, s with
  | O, _ => Some (EmptyString, s)
  | S n, String a s => '(front, rest) ← split_at_checked n s; Some (String a front, rest)
  | S _, EmptyString => None
  end.

(** [std::str::from_utf8] succeeds: the lossy decoding loses nothing. *)
Definition is_utf8 (s : string) : bool :=
  String.eqb (foldr (fun c out => push_char c +:+ out) EmptyString (from_utf8_lossy (bytes s))) s.

(** A [[u8; 32]]. *)
Definition WorkspaceFingerprint := string.

Inductive FlowSubmissionError : Type :=
| InvalidFlowSubmission
| UnsupportedDefinition
| WorkspaceUnavailable.

Definition encode_flow_operation (normalized_definition : string) (workspace : WorkspaceFingerprint)
    (execution_root : string) : res FlowSubmissionError string :=
  if negb (is_utf8 execution_root) then Err WorkspaceUnavailable
  else if len execution_root >? u32_max then Err WorkspaceUnavailable
  else Ok (FLOW_OPERATION_HEADER +:+ to_be_bytes32 (len execution_root) +:+ execution_root
           +:+ workspace +:+ normalized_definition).

Definition decode_flow_operation `{TomlParser} (operation : string)
  : option (FlowDefinition * WorkspaceFingerprint * string) :=
  payload ← strip_prefix FLOW_OPERATION_HEADER operation;
  '(root_length, payload) ← split_at_checked 4 payload;
  '(root, payload) ← split_at_checked (Z.to_nat (from_be_bytes root_length)) payload;
  if negb (is_utf8 root) || negb (is_absolute root) then None
  else
    '(fingerprint, normalized) ← split_at_checked 32 payload;
    if negb (is_utf8 normalized) then None
    else
      match parse_toml toml_from_str normalized with
      | Ok definition =>
        match to_normalized_toml definition with
        | Ok text => if String.eqb text normalized then Some (definition, fingerprint, root) else None
        | _ => None
        end
      | _ => None
      end.

(** The [Display] of a flow digest. *)
Definition flow_digest_str (d : FlowDigest) : string := "sha256:" +:+ hex_string d.

Definition flow_policy_resource `{Sha256} (definition : FlowDefinition)
    (workspace : WorkspaceFingerprint) : res InvalidName string :=
  let? digest := map_err (fun _ => InvalidResourceName) (normalized_digest definition) in
  Ok ("flow:" +:+ fd_id definition +:+ ":revision=" +:+ pretty (fd_revision definition)
      +:+ ":digest=" +:+ flow_digest_str digest +:+ ":workspace=" +:+ digest_str (from_sha256 workspace)).

(** ** The encoding is canonical *)

Lemma split_at_checked_Some n s front rest :
  split_at_checked n s = Some (front, rest) <-> s = front +:+ rest /\ String.length front = n.
Proof.
  revert s front rest. induction n as [|n IH]; intros s front rest; cbn [split_at_checked].
  - split; [by intros [= <- <-]|]. intros [-> Hl]. by destruct front.
  - destruct s as [|a s].
    + split; [done|]. intros [Hs Hl]. by destruct front.
    + destruct (split_at_checked n s) as [[f r]|] eqn:E; csimpl.
      * apply IH in E as [-> <-]. split; [by intros [= <- <-]|].
        intros [Hs Hl]. destruct front as [|b front]; [done|].
        cbn [String.append] in Hs. injection Hs as -> Hs. injection Hl as Hl.
        apply append_inj_length in Hs as [-> ->]; [done|lia].
      * split; [done|]. intros [Hs Hl]. destruct front as [|b front]; [done|].
        injection Hs as -> ->. injection Hl as Hl.
        assert (split_at_checked n (front +:+ rest) = Some (front, rest)) by by apply IH. congruence.
Qed.

#[local] Arguments split_at_checked : simpl never.
#[local] Opaque FLOW_OPERATION_HEADER.

Lemma byte_val_be_byte z i : byte_val (be_byte z i) = Z.shiftr z (8 * i) `mod` 256.
Proof.
  unfold byte_val, be_byte. pose proof (Z.mod_pos_bound (Z.shiftr z (8 * i)) 256 ltac:(lia)).
  rewrite N_ascii_embedding by lia. lia.
Qed.

Lemma be_bytes32_round_trip z : 0 <= z <= u32_max -> from_be_bytes (to_be_bytes32 z) = z.
Proof.
  unfold u32_max. intros Hz. unfold to_be_bytes32, from_be_bytes, of_bytes, bytes.
  cbn [fmap list_fmap]. cbn [String.string_of_list_ascii String.list_ascii_of_string]. cbn [fmap list_fmap foldl].
  rewrite !byte_val_be_byte, !Z.shiftr_div_pow2 by lia. change (8 * 0) with 0. rewrite Z.pow_0_r, Z.div_1_r.
  change (2 ^ (8 * 3)) with 16777216. change (2 ^ (8 * 2)) with 65536. change (2 ^ (8 * 1)) with 256.
  pose proof (Z.div_mod z 256 ltac:(lia)). pose proof (Z.div_mod (z / 256) 256 ltac:(lia)).
  pose proof (Z.div_mod (z / 65536) 256 ltac:(lia)).
  assert (E1 : z / 256 / 256 = z / 65536) by by rewrite Z.div_div by lia.
  assert (E2 : z / 65536 / 256 = z / 16777216) by by rewrite Z.div_div by lia.
  rewrite (Z.mod_small (z / 16777216)); [lia|].
  split; [by apply Z.div_pos; lia|]. apply Z.div_lt_upper_bound; lia.
Qed.

Lemma from_be_bytes_inj (s : string) :
  String.length s = 4%nat -> to_be_bytes32 (from_be_bytes s) = s /\ 0 <= from_be_bytes s <= u32_max.
Proof.
  destruct s as [|a [|b [|c [|d [|]]]]]; try done. intros _.
  assert (Hv : forall x, 0 <= byte_val x < 256).
  { intros x. unfold byte_val. pose proof (N_ascii_bounded x). lia. }
  pose proof (Hv a). pose proof (Hv b). pose proof (Hv c). pose proof (Hv d).
  unfold from_be_bytes, bytes, u32_max. cbn [String.list_ascii_of_string foldl].
  set (z := (((0 * 256 + byte_val a) * 256 + byte_val b) * 256 + byte_val c) * 256 + byte_val d).
  split; [|unfold z; lia].
  assert (Hb : forall x i q, z = q * 2 ^ (8 * i + 8) + byte_val x * 2 ^ (8 * i) + z `mod` 2 ^ (8 * i) ->
    0 <= i -> be_byte z i = x).
  { intros x i q Hz Hi. unfold be_byte. rewrite Z.shiftr_div_pow2 by lia.
    assert (Hp : 0 < 2 ^ (8 * i)) by by apply Z.pow_pos_nonneg; lia.
    pose proof (Z.mod_pos_bound z _ Hp). pose proof (Hv x).
    replace (z / 2 ^ (8 * i)) with (q * 256 + byte_val x).
    - rewrite Z.add_comm, Z.mod_add, Z.mod_small by lia. unfold byte_val. rewrite N2Z.id.
      apply ascii_N_embedding.
    - apply (Z.div_unique z _ _ (z `mod` 2 ^ (8 * i))); [lia|].
      rewrite Z.pow_add_r in Hz by lia. change (2 ^ 8) with 256 in Hz. lia. }
  unfold to_be_bytes32, of_bytes. cbn [fmap list_fmap String.string_of_list_ascii].
  assert (E0 : z `mod` 1 = 0) by apply Z.mod_1_r.
  assert (E1 : z `mod` 256 = byte_val d).
  { unfold z. rewrite Z.add_comm, Z.mod_add, Z.mod_small by lia. done. }
  assert (E2 : z `mod` 65536 = byte_val c * 256 + byte_val d).
  { unfold z. replace (_ * 256 + byte_val d)
      with (byte_val c * 256 + byte_val d + (byte_val a * 256 + byte_val b) * 65536) by lia.
    rewrite Z.mod_add, Z.mod_small by lia. done. }
  assert (E3 : z `mod` 16777216 = byte_val b * 65536 + byte_val c * 256 + byte_val d).
  { unfold z. replace (_ * 256 + byte_val d)
      with (byte_val b * 65536 + byte_val c * 256 + byte_val d + byte_val a * 16777216) by lia.
    rewrite Z.mod_add, Z.mod_small by lia. done. }
  rewrite (Hb a 3 0), (Hb b 2 (byte_val a)), (Hb c 1 (byte_val a * 256 + byte_val b)),
    (Hb d 0 ((byte_val a * 256 + byte_val b) * 256 + byte_val c)); try lia; [done|..].
  - change (2 ^ (8 * 0)) with 1. change (2 ^ (8 * 0 + 8)) with 256. rewrite E0. unfold z. lia.
  - change (2 ^ (8 * 1)) with 256. change (2 ^ (8 * 1 + 8)) with 65536. rewrite E1. unfold z. lia.
  - change (2 ^ (8 * 2)) with 65536. change (2 ^ (8 * 2 + 8)) with 16777216. rewrite E2. unfold z. lia.
  - change (2 ^ (8 * 3)) with 16777216. change (2 ^ (8 * 3 + 8)) with 4294967296. rewrite E3. unfold z. lia.
Qed.

Lemma to_be_bytes32_length z : String.length (to_be_bytes32 z) = 4%nat.
Proof. done. Qed.

#[local] Opaque to_be_bytes32.

(** The stored operation of a flow run is canonical. It decodes to a
    definition, a fingerprint and a root exactly when it is the encoding of the
    normalized text of that definition, of 32 fingerprint bytes and of that
    absolute root, and the text parses back to the definition: nothing can be
    appended, reordered or written in another way. *)
Theorem operation_canonical `{TomlParser} operation d workspace root :
  decode_flow_operation operation = Some (d, workspace, root)
  <-> exists normalized,
    encode_flow_operation normalized workspace root = Ok operation
    /\ is_absolute root = true /\ String.length workspace = 32%nat /\ is_utf8 normalized = true
    /\ parse_toml toml_from_str normalized = Ok d /\ to_normalized_toml d = Ok normalized.
Proof.
  unfold decode_flow_operation, encode_flow_operation. split.
  - destruct (strip_prefix _ operation) as [p1|] eqn:E1; csimpl; [|done].
    apply strip_prefix_Some in E1 as ->.
    destruct (split_at_checked 4 p1) as [[l p2]|] eqn:E2; csimpl; [|done].
    apply split_at_checked_Some in E2 as [-> Hl]. destruct (from_be_bytes_inj l Hl) as [Hbe Hrange].
    destruct (split_at_checked _ p2) as [[r p3]|] eqn:E3; csimpl; [|done].
    apply split_at_checked_Some in E3 as [-> Hr]. destruct (_ || _) eqn:E4; [done|].
    apply orb_false_iff in E4 as [Hu Ha]. apply negb_false_iff in Hu, Ha.
    destruct (split_at_checked 32 p3) as [[w n]|] eqn:E5; csimpl; [|done].
    apply split_at_checked_Some in E5 as [-> Hw]. destruct (is_utf8 n) eqn:En; cbn [negb]; [|done].
    destruct (parse_toml _ n) as [d'| |] eqn:Ep; [|done..].
    destruct (to_normalized_toml d') as [t| |] eqn:Et; [|done..].
    destruct (String.eqb_spec t n) as [->|]; [|done]. intros [= -> -> ->]. exists n.
    assert (Hlen : len root = from_be_bytes l) by (unfold len; lia).
    rewrite Hu, Hlen, Hbe. cbn [negb]. destruct (_ >? _) eqn:Eg; [lia|]. done.
  - intros (n & He & Ha & Hw & Hn & Hp & Ht).
    destruct (is_utf8 root) eqn:Hu; cbn [negb] in He; [|done]. destruct (_ >? _) eqn:Eg; [done|].
    injection He as <-.
    rewrite (proj2 (strip_prefix_Some _ _ _) eq_refl). csimpl.
    rewrite (proj2 (split_at_checked_Some 4 _ _ _) (conj eq_refl (to_be_bytes32_length _))). csimpl.
    rewrite be_bytes32_round_trip by (unfold len in *; lia). unfold len. rewrite Nat2Z.id.
    rewrite (proj2 (split_at_checked_Some _ _ _ _) (conj eq_refl eq_refl)). csimpl.
    rewrite Hu, Ha. cbn [negb orb].
    rewrite (proj2 (split_at_checked_Some 32 _ _ _) (conj eq_refl Hw)). csimpl.
    by rewrite Hn, Hp, Ht, String.eqb_refl.
Qed.
