(* ===== verification/Artifact.v ===== *)
(** * Agent artifacts ([pam_skills/src/model.rs])

    A normalized agent artifact, its portable logical path, and the identifier
    derived from its origin, kind, scope and path. An artifact that was built
    once is built again from its own fields, and two identities share an
    identifier only when their distinct encodings collide under SHA-256. *)

From S2P Require Import Prelude Core Policy.

Local Open Scope Z_scope.

Definition MAX_ARTIFACT_NAME_BYTES : Z := 256.
Definition MAX_ARTIFACT_LOGICAL_PATH_BYTES : Z := 4096.
Definition ARTIFACT_ID_PREFIX : string := "artifact:sha256:".
Definition ARTIFACT_ID_HEX_BYTES : Z := 64.
Definition ARTIFACT_ID_DOMAIN : string := "pam-agent-artifact-id-v1".

(** ** Normalized enumerations *)

Inductive ArtifactKind : Type :=
| KindSkill | KindPlugin | KindAgent | KindHook | KindInstruction | KindConfig | KindPrompt | KindRule
| KindEmbedding | KindReranker | KindCompressor | KindAnalyzer | KindWasmComponent.
Definition kind_as_str (k : ArtifactKind) : string :=
  match k with
  | KindSkill => "skill" | KindPlugin => "plugin" | KindAgent => "agent" | KindHook => "hook"
  | KindInstruction => "instruction" | KindConfig => "config" | KindPrompt => "prompt"
  | KindRule => "rule" | KindEmbedding => "embedding" | KindReranker => "reranker"
  | KindCompressor => "compressor" | KindAnalyzer => "analyzer"
  | KindWasmComponent => "wasm_component"
  end.
Definition artifact_kinds : list ArtifactKind :=
  [KindSkill; KindPlugin; KindAgent; KindHook; KindInstruction; KindConfig; KindPrompt; KindRule;
   KindEmbedding; KindReranker; KindCompressor; KindAnalyzer; KindWasmComponent].

Inductive ArtifactScope : Type :=
| ScopeManaged | ScopeSystem | ScopeUser | ScopeProject | ScopeLocal | ScopePlugin.
Definition artifact_scope_as_str (s : ArtifactScope) : string :=
  match s with
  | ScopeManaged => "managed" | ScopeSystem => "system" | ScopeUser => "user"
  | ScopeProject => "project" | ScopeLocal => "local" | ScopePlugin => "plugin"
  end.
Definition artifact_scopes : list ArtifactScope :=
  [ScopeManaged; ScopeSystem; ScopeUser; ScopeProject; ScopeLocal; ScopePlugin].

Inductive OriginAgent : Type := OriginClaudeCode | OriginCodex | OriginCursor | OriginPam.
Definition origin_as_str (o : OriginAgent) : string :=
  match o with
  | OriginClaudeCode => "claude_code" | OriginCodex => "codex" | OriginCursor => "cursor"
  | OriginPam => "pam"
  end.
Definition origin_agents : list OriginAgent := [OriginClaudeCode; OriginCodex; OriginCursor; OriginPam].

Inductive LoadSemantics : Type :=
| LoadAlways | LoadExplicit | LoadModelSelected | LoadPathConditional | LoadEventTriggered
| LoadConfigurationLayer | LoadPluginEnabled | LoadDisabledOrInstalledOnly | LoadUnavailable.
Definition semantics_as_str (l : LoadSemantics) : string :=
  match l with
  | LoadAlways => "always" | LoadExplicit => "explicit" | LoadModelSelected => "model_selected"
  | LoadPathConditional => "path_conditional" | LoadEventTriggered => "event_triggered"
  | LoadConfigurationLayer => "configuration_layer" | LoadPluginEnabled => "plugin_enabled"
  | LoadDisabledOrInstalledOnly => "disabled_or_installed_only" | LoadUnavailable => "unavailable"
  end.
Definition load_semantics_values : list LoadSemantics :=
  [LoadAlways; LoadExplicit; LoadModelSelected; LoadPathConditional; LoadEventTriggered;
   LoadConfigurationLayer; LoadPluginEnabled; LoadDisabledOrInstalledOnly; LoadUnavailable].

#[export] Instance ArtifactKind_eq_dec : EqDecision ArtifactKind.
Proof. solve_decision. Defined.
#[export] Instance ArtifactScope_eq_dec : EqDecision ArtifactScope.
Proof. solve_decision. Defined.
#[export] Instance OriginAgent_eq_dec : EqDecision OriginAgent.
Proof. solve_decision. Defined.
#[export] Instance LoadSemantics_eq_dec : EqDecision LoadSemantics.
Proof. solve_decision. Defined.

(** [impl_from_str!]: the first variant with this text. *)
Definition from_str {A} (as_str : A -> string) (variants : list A) (value : string) : option A :=
  List.find (fun v => String.eqb value (as_str v)) variants.

(** ** Identity *)

Record AgentArtifactIdentity := {
  ai_origin : OriginAgent;
  ai_kind : ArtifactKind;
  ai_scope : ArtifactScope;
  ai_logical_path : string
}.

Definition AgentArtifactId := string.

(** The bytes fed to the hasher. *)
Definition identity_input (i : AgentArtifactIdentity) : string :=
  ARTIFACT_ID_DOMAIN +:+ length_prefixed (origin_as_str (ai_origin i))
  +:+ length_prefixed (kind_as_str (ai_kind i))
  +:+ length_prefixed (artifact_scope_as_str (ai_scope i))
  +:+ length_prefixed (ai_logical_path i).

Definition from_identity `{Sha256} (i : AgentArtifactIdentity) : AgentArtifactId :=
  ARTIFACT_ID_PREFIX +:+ hex_string (sha256 (identity_input i)).

Definition artifact_id_parse (value : string) : option AgentArtifactId :=
  match strip_prefix ARTIFACT_ID_PREFIX value with
  | None => None
  | Some hex =>
    if negb (len hex =? ARTIFACT_ID_HEX_BYTES) || negb (all_bytes is_lower_hex hex) then None
    else Some value
  end.

(** ** Artifacts *)

Inductive InvalidAgentArtifact : Type := InvalidArtifactName | InvalidArtifactLogicalPath.

Record AgentArtifact := {
  aar_name : string;
  aar_logical_path : string;
  aar_kind : ArtifactKind;
  aar_scope : ArtifactScope;
  aar_origin : OriginAgent;
  aar_load_semantics : LoadSemantics;
  aar_content_hash : ContentDigest
}.

#[export] Instance AgentArtifact_eq_dec : EqDecision AgentArtifact.
Proof. solve_decision. Defined.

Definition has_windows_drive_prefix (path : string) : bool :=
  match bytes path with
  | a :: b :: _ => (is_ascii_lowercase a || is_ascii_uppercase a) && (byte_val b =? 58)
  | _ => false
  end.

(** [value.replace('\\', "/")]. *)
Definition slash_byte (a : ascii) : ascii := if byte_val a =? 92 then ascii_of_nat 47 else a.
Definition replace_backslashes (s : string) : string := of_bytes (map slash_byte (bytes s)).

Definition path_component_rejected (component : string) : bool :=
  str_is_empty component || String.eqb component "." || String.eqb component "..".

Definition normalize_logical_path (value : string) : res InvalidAgentArtifact string :=
  if str_is_empty value || (len value >? MAX_ARTIFACT_LOGICAL_PATH_BYTES)
     || existsb (fun a => byte_val a =? 0) (bytes value)
  then Err InvalidArtifactLogicalPath
  else
    let normalized := replace_backslashes value in
    if match bytes normalized with a :: _ => is_slash a | [] => false end
       || has_windows_drive_prefix normalized
       || existsb path_component_rejected (split_on is_slash normalized)
    then Err InvalidArtifactLogicalPath
    else Ok normalized.

Definition artifact_new (name logical_path : string) (kind : ArtifactKind) (scope : ArtifactScope)
    (origin : OriginAgent) (load_semantics : LoadSemantics) (content_hash : ContentDigest)
  : res InvalidAgentArtifact AgentArtifact :=
  if str_is_empty name || (len name >? MAX_ARTIFACT_NAME_BYTES)
     || existsb (fun a => byte_val a =? 0) (bytes name)
  then Err InvalidArtifactName
  else
    let? logical_path := normalize_logical_path logical_path in
    Ok {| aar_name := name; aar_logical_path := logical_path; aar_kind := kind; aar_scope := scope;
          aar_origin := origin; aar_load_semantics := load_semantics; aar_content_hash := content_hash |}.

Definition identity (a : AgentArtifact) : AgentArtifactIdentity :=
  {| ai_origin := aar_origin a; ai_kind := aar_kind a; ai_scope := aar_scope a;
     ai_logical_path := aar_logical_path a |}.
Definition artifact_id `{Sha256} (a : AgentArtifact) : AgentArtifactId := from_identity (identity a).
#[global] Arguments artifact_id {_} a : simpl never.

(** The fields are private: a value was built by [new] from a parsed digest. *)
Definition artifact_ok (a : AgentArtifact) : Prop :=
  artifact_new (aar_name a) (aar_logical_path a) (aar_kind a) (aar_scope a) (aar_origin a)
    (aar_load_semantics a) (aar_content_hash a) = Ok a
  /\ digest_parse (digest_str (aar_content_hash a)) = Ok (aar_content_hash a).

(** ** Lemmas *)

Lemma kind_round_trip k : from_str kind_as_str artifact_kinds (kind_as_str k) = Some k.
Proof. by destruct k. Qed.
Lemma scope_round_trip s : from_str artifact_scope_as_str artifact_scopes (artifact_scope_as_str s) = Some s.
Proof. by destruct s. Qed.
Lemma origin_round_trip o : from_str origin_as_str origin_agents (origin_as_str o) = Some o.
Proof. by destruct o. Qed.
Lemma semantics_round_trip l : from_str semantics_as_str load_semantics_values (semantics_as_str l) = Some l.
Proof. by destruct l. Qed.

Lemma slash_byte_idem a : slash_byte (slash_byte a) = slash_byte a.
Proof. unfold slash_byte at 2 3. destruct (byte_val a =? 92) eqn:E; [done|]. unfold slash_byte. by rewrite E. Qed.

Lemma replace_backslashes_idem s : replace_backslashes (replace_backslashes s) = replace_backslashes s.
Proof.
  unfold replace_backslashes, bytes, of_bytes. rewrite String.list_ascii_of_string_of_list_ascii.
  f_equal. rewrite map_map. apply map_ext. apply slash_byte_idem.
Qed.

Lemma len_replace_backslashes s : len (replace_backslashes s) = len s.
Proof.
  unfold len, replace_backslashes, of_bytes, bytes. f_equal.
  induction s as [|a s IH]; [done|]. cbn. by rewrite IH.
Qed.

Lemma slash_byte_zero a : (byte_val (slash_byte a) =? 0) = (byte_val a =? 0).
Proof. unfold slash_byte. destruct (byte_val a =? 92) eqn:E; [|done]. apply Z.eqb_eq in E. by rewrite E. Qed.

(** Normalizing a normalized path changes nothing. *)
Lemma normalize_Ok value normalized :
  normalize_logical_path value = Ok normalized ->
  normalized = replace_backslashes value
  /\ (str_is_empty value || (len value >? MAX_ARTIFACT_LOGICAL_PATH_BYTES)
      || existsb (fun a => byte_val a =? 0) (bytes value)) = false
  /\ (match bytes normalized with a :: _ => is_slash a | [] => false end
      || has_windows_drive_prefix normalized
      || existsb path_component_rejected (split_on is_slash normalized)) = false.
Proof.
  unfold normalize_logical_path. destruct (str_is_empty value || _ || _); [done|]. cbn zeta.
  destruct (_ || _ || _) eqn:E; [done|]. by intros [= <-].
Qed.

Lemma replace_backslashes_nul s :
  existsb (fun a => byte_val a =? 0) (bytes (replace_backslashes s))
  = existsb (fun a => byte_val a =? 0) (bytes s).
Proof.
  unfold replace_backslashes, bytes, of_bytes. rewrite String.list_ascii_of_string_of_list_ascii.
  induction (String.list_ascii_of_string s) as [|a l IH]; [done|]. cbn. by rewrite slash_byte_zero, IH.
Qed.

Lemma normalize_idem value normalized :
  normalize_logical_path value = Ok normalized -> normalize_logical_path normalized = Ok normalized.
Proof.
  intros (-> & Hv & Hn)%normalize_Ok. unfold normalize_logical_path.
  rewrite replace_backslashes_idem, len_replace_backslashes, replace_backslashes_nul.
  replace (str_is_empty (replace_backslashes value)) with (str_is_empty value) by (by destruct value).
  rewrite Hv. cbn zeta. by rewrite Hn.
Qed.

Lemma artifact_new_Ok name path kind scope origin semantics digest a :
  artifact_new name path kind scope origin semantics digest = Ok a <->
  (str_is_empty name || (len name >? MAX_ARTIFACT_NAME_BYTES)
   || existsb (fun a => byte_val a =? 0) (bytes name)) = false
  /\ exists p, normalize_logical_path path = Ok p
     /\ a = {| aar_name := name; aar_logical_path := p; aar_kind := kind; aar_scope := scope;
               aar_origin := origin; aar_load_semantics := semantics; aar_content_hash := digest |}.
Proof.
  unfold artifact_new. destruct (_ || _ || _); [by split; [|intros [? _]]|].
  destruct (normalize_logical_path path) as [p| |]; cbn; split; try done.
  - intros [= <-]. eauto.
  - intros (_ & q & [= <-] & ->). done.
  - by intros (_ & q & ? & _).
  - by intros (_ & q & ? & _).
Qed.

Lemma artifact_new_ok name path kind scope origin semantics digest a :
  artifact_new name path kind scope origin semantics digest = Ok a ->
  artifact_new (aar_name a) (aar_logical_path a) (aar_kind a) (aar_scope a) (aar_origin a)
    (aar_load_semantics a) (aar_content_hash a) = Ok a.
Proof.
  intros (Hn & p & Hp & ->)%artifact_new_Ok. cbn. apply artifact_new_Ok. split; [done|].
  exists p. split; [by eapply normalize_idem|done].
Qed.

Lemma normalize_bounds value normalized :
  normalize_logical_path value = Ok normalized -> 1 <= len normalized <= MAX_ARTIFACT_LOGICAL_PATH_BYTES.
Proof.
  intros (-> & Hv & _)%normalize_Ok. rewrite len_replace_backslashes.
  rewrite !orb_false_iff in Hv. destruct Hv as [[Hne Hl] _].
  assert (len value <> 0) by (by destruct value). unfold len in *. lia.
Qed.

Lemma artifact_ok_bounds a :
  artifact_ok a -> 1 <= len (aar_name a) <= MAX_ARTIFACT_NAME_BYTES
    /\ 1 <= len (aar_logical_path a) <= MAX_ARTIFACT_LOGICAL_PATH_BYTES
    /\ normalize_logical_path (aar_logical_path a) = Ok (aar_logical_path a).
Proof.
  intros [(Hn & p & Hp & Ha)%artifact_new_Ok _]. apply (f_equal aar_logical_path) in Ha. cbn in Ha.
  subst p. rewrite !orb_false_iff in Hn. destruct Hn as [[Hne Hl] _].
  pose proof (normalize_bounds _ _ Hp) as Hb. split_and!; [|lia|lia|lia|done].
  assert (len (aar_name a) <> 0) by (by destruct (aar_name a)). unfold len in *. lia.
Qed.

Section identity.
Context `{Sha256}.

Lemma identity_input_inj i j :
  fits64 (ai_logical_path i) -> fits64 (ai_logical_path j) -> identity_input i = identity_input j -> i = j.
Proof.
  assert (Hfo : forall o, fits64 (origin_as_str o)) by (by intros []).
  assert (Hfk : forall k, fits64 (kind_as_str k)) by (by intros []).
  assert (Hfs : forall s, fits64 (artifact_scope_as_str s)) by (by intros []).
  intros Hi Hj Heq. unfold identity_input in Heq. apply append_inj_l in Heq.
  apply length_prefixed_inj in Heq as [Ho Heq]; [|done..].
  apply length_prefixed_inj in Heq as [Hk Heq]; [|done..].
  apply length_prefixed_inj in Heq as [Hs Heq]; [|done..].
  rewrite <-(append_nil_r (length_prefixed (ai_logical_path i))),
    <-(append_nil_r (length_prefixed (ai_logical_path j))) in Heq.
  apply length_prefixed_inj in Heq as [Hp _]; [|done..].
  apply (f_equal (from_str origin_as_str origin_agents)) in Ho.
  apply (f_equal (from_str kind_as_str artifact_kinds)) in Hk.
  apply (f_equal (from_str artifact_scope_as_str artifact_scopes)) in Hs.
  rewrite !origin_round_trip in Ho. rewrite !kind_round_trip in Hk. rewrite !scope_round_trip in Hs.
  destruct i, j; cbn in *. congruence.
Qed.

(** Equal identifiers: equal identities, or a collision of their encodings. *)
Lemma artifact_id_binds a b :
  artifact_ok a -> artifact_ok b -> artifact_id a = artifact_id b ->
  identity a = identity b \/ sha256_collides (identity_input (identity a)) (identity_input (identity b)).
Proof.
  intros Ha Hb Heq. unfold artifact_id, from_identity in Heq. apply append_inj_l, hex_string_inj in Heq.
  destruct (decide (identity_input (identity a) = identity_input (identity b))) as [Hin|Hne].
  - left. apply artifact_ok_bounds in Ha as (_ & Ha & _), Hb as (_ & Hb & _).
    unfold MAX_ARTIFACT_LOGICAL_PATH_BYTES in *.
    apply identity_input_inj; [| |done]; unfold fits64, u64_max; cbn; lia.
  - by right.
Qed.

Lemma artifact_id_canonical a :
  (forall x, String.length (sha256 x) = 32%nat) -> artifact_id_parse (artifact_id a) = Some (artifact_id a).
Proof.
  intros Hsha. unfold artifact_id_parse.
  rewrite (proj2 (strip_prefix_Some _ _ (hex_string (sha256 (identity_input (identity a)))))) by done.
  rewrite hex_string_lower. unfold len, ARTIFACT_ID_HEX_BYTES. by rewrite hex_string_length, Hsha.
Qed.

End identity.
