(* ===== verification/StoreDef.v ===== *)
(** * The store: tables, statements and transactions ([pam_store])

    The SQLite tables the request queue, the flow checkpoints and the flow
    authorizations live in ([migrations/0001], [0003], [0004]/[0006], [0008]
    and [0009]), as rows of Rocq records, with the schema's CHECK, UNIQUE and
    partial-index constraints as decidable predicates; the SQL statements as
    functions on the tables; and the transaction monad [Tx], whose errors
    leave the store as it was (a dropped transaction rolls back).

    A [Vec<u8>] or BLOB is a [string] of bytes. The [state] column is kept as
    the [RequestState] it names: its CHECK confines the text to the six names
    [as_str] writes and [parse_state] reads, which are inverse
    ([parse_state_as_str]). *)

From S2P Require Import Prelude Core Policy FlowDef FlowData Artifact.

Local Open Scope Z_scope.

Definition FLOW_OPERATION_KIND : string := "flow_run".
Definition STATUS_OPERATION_KIND : string := "status".
Definition LEGACY_STATUS_OPERATION_KIND : string := "daemon_status".
Definition FLOW_CAPABILITY_NAME : string := "flow.run".
Definition MAX_FLOW_CHECKPOINT_BYTES : Z := 4 * 1024 * 1024.
Definition MAX_FLOW_TRANSITION_BYTES : Z := 64 * 1024.
Definition MAX_FLOW_TERMINAL_RESULT_BYTES : Z := 1024 * 1024.
Definition i64_max : Z := 9223372036854775807.

(** ** Errors *)

(** The errors of the modelled operations; [Sqlite] is any error SQLite or
    rusqlite reports: a violated constraint, or an integer column or
    expression that leaves the 64-bit range. *)
Inductive StoreError : Type :=
| Sqlite
| ApprovalNotFound (id : ApprovalId)
| InvalidApprovalState
| ApprovalExpiryOverflow
| RequestNotFound (id : RequestId)
| RequestIdConflict (id : RequestId)
| IdempotencyConflict (canonical_request_id : RequestId)
| StaleLease (id : RequestId)
| InvalidFlowCheckpoint (message : string)
| FlowCheckpointTooLarge (size_bytes maximum_bytes : Z)
| FlowTransitionTooLarge (size_bytes maximum_bytes : Z)
| FlowTerminalResultTooLarge (size_bytes maximum_bytes : Z)
| FlowCheckpointRevisionConflict (id : RequestId) (expected actual : Z)
| FlowCheckpointConflict (id : RequestId)
| FlowDefinitionDigestMismatch (id : RequestId)
| FlowCheckpointRequestMismatch (id : RequestId)
| FlowTerminalOutcomeConflict (id : RequestId)
| FlowEffectStartConflict (id : RequestId)
| CorruptFlowAuthorization (id : RequestId)
| CorruptFlowCheckpoint (id : RequestId)
| FlowCheckpointRevisionOverflow
| InvalidState (message : string)
| TimestampOutOfRange (value : Z)
| LeaseDurationZero
| LeaseExpiryOverflow
| GrantAlreadyExists (id : GrantId)
| CallerAlreadyRegistered (id : CallerId)
| InvalidCallerCredential
| InvalidProjectRoot (field : string)
| AuditEventAlreadyExists
| InvalidAuditEvent (field : string)
| AuditCursorOutOfRange (value : Z)
| InvalidAuditCursorRange (after through : Z)
| AuditHighWaterAhead (through maximum : Z)
| InvalidAuditBatchLimit (limit maximum : Z)
| SkillInventoryObservationRegression (project : ProjectId) (observed_at_ms stored_at_ms : Z)
| SkillInventoryObservationConflict (project : ProjectId) (observed_at_ms : Z)
| SkillInventoryTimestampRegression (artifact : AgentArtifactId) (observed_at_ms stored_at_ms : Z)
| SkillArtifactNotFound (project : ProjectId) (artifact : AgentArtifactId)
| InvalidSkillInventory (message : string)
| CorruptSkillArtifact
| Io
| EvidenceTooLarge (size_bytes maximum_bytes : Z)
| EvidenceRangeTooLarge (length maximum_bytes : Z)
| EvidenceRangeOutOfBounds (offset size_bytes : Z)
| InvalidEvidenceMediaType
| InvalidEvidencePruneRetention
| InvalidEvidencePruneLimit (limit maximum : Z)
| EvidenceNotFound (project : ProjectId) (handle : EvidenceHandle)
| EvidenceHandleConflict (project : ProjectId) (handle : EvidenceHandle)
| EvidenceBlobMissing (digest : ContentDigest)
| EvidenceBlobCorrupt (digest : ContentDigest)
| UnsafeEvidencePath.

Definition sres (A : Type) : Type := res StoreError A.

(** ** Request states *)

Inductive RequestState : Type :=
| ReqQueued | ReqLeased | ReqCancellationRequested | ReqSucceeded | ReqFailed | ReqCancelled.

#[export] Instance RequestState_eq_dec : EqDecision RequestState.
Proof. solve_decision. Defined.

Definition as_str (s : RequestState) : string :=
  match s with
  | ReqQueued => "queued"
  | ReqLeased => "leased"
  | ReqCancellationRequested => "cancellation_requested"
  | ReqSucceeded => "succeeded"
  | ReqFailed => "failed"
  | ReqCancelled => "cancelled"
  end.

Definition parse_state (state : string) : sres RequestState :=
  if String.eqb state "queued" then Ok ReqQueued
  else if String.eqb state "leased" then Ok ReqLeased
  else if String.eqb state "cancellation_requested" then Ok ReqCancellationRequested
  else if String.eqb state "succeeded" then Ok ReqSucceeded
  else if String.eqb state "failed" then Ok ReqFailed
  else if String.eqb state "cancelled" then Ok ReqCancelled
  else Err (InvalidState state).

Inductive TerminalState : Type := TermSucceeded | TermFailed | TermCancelled.

Definition terminal_request_state (t : TerminalState) : RequestState :=
  match t with
  | TermSucceeded => ReqSucceeded | TermFailed => ReqFailed | TermCancelled => ReqCancelled
  end.

Definition terminal_event_kind (t : TerminalState) : string :=
  match t with
  | TermSucceeded => "completed" | TermFailed => "failed" | TermCancelled => "cancelled"
  end.

(** [state IN ('leased', 'cancellation_requested')]. *)
Definition is_active_state (s : RequestState) : bool :=
  match s with ReqLeased | ReqCancellationRequested => true | _ => false end.
(** [state IN ('queued', 'leased', 'cancellation_requested')]. *)
Definition is_unfinished_state (s : RequestState) : bool :=
  match s with ReqQueued | ReqLeased | ReqCancellationRequested => true | _ => false end.
Definition is_terminal_state (s : RequestState) : bool :=
  match s with ReqSucceeded | ReqFailed | ReqCancelled => true | _ => false end.
Definition state_is (s t : RequestState) : bool := bool_decide (s = t).

(** ** Rows *)

Record RequestRow := {
  q_request_id : RequestId;
  q_caller_id : CallerId;
  q_project_id : ProjectId;
  q_idempotency_key : IdempotencyKey;
  q_operation_kind : string;
  q_operation : string;
  q_queue_sequence : Z;
  q_state : RequestState;
  q_accepted_at_ms : Z;
  q_attempt : Z;
  q_lease_owner : option string;
  q_lease_token : option string;
  q_lease_expires_at_ms : option Z;
  q_completed_at_ms : option Z;
  q_result : option string
}.

Record EventRow := {
  e_request_id : RequestId;
  e_sequence : Z;
  e_kind : string;
  e_payload : string;
  e_recorded_at_ms : Z
}.

Record FlowRunRow := {
  f_definition_digest : string;
  f_snapshot : string;
  f_checkpoint_revision : Z;
  f_updated_at_ms : Z;
  f_terminal_outcome : option string;
  f_terminal_result : option string;
  f_terminal_cancellation_override : bool
}.

Record FlowAuthorizationRow := {
  fa_capability : string;
  fa_resource : string;
  fa_effect_fingerprint : string;
  fa_authorization_kind : string;
  fa_approval_id : option ApprovalId;
  fa_schema_approval_required : bool;
  fa_authorized_at_ms : Z
}.

Record ApprovalRow := {
  ap_caller_id : CallerId;
  ap_project_id : ProjectId;
  ap_capability : string;
  ap_resource : string;
  ap_effect_fingerprint : string;
  ap_state : string;
  ap_requested_at_ms : Z;
  ap_expires_at_ms : Z;
  ap_decided_by : option CallerId;
  ap_decided_at_ms : option Z;
  ap_consumed_at_ms : option Z;
  ap_flow_request_id : option RequestId
}.

Record GrantRow := {
  gr_grant_id : GrantId;
  gr_caller_id : CallerId;
  gr_project_id : ProjectId;
  gr_capability : string;
  gr_resource_kind : string;
  gr_resource : option string;
  gr_effect : string;
  gr_approval : string;
  gr_expires_at_ms : option Z;
  gr_revoked_at_ms : option Z;
  gr_created_at_ms : Z
}.

Record CallerRow := {
  ca_credential_digest : string;
  ca_registered_at_ms : Z;
  ca_revoked_at_ms : option Z;
  ca_kind : option string
}.

Record AuditRow := {
  au_sequence : Z;
  au_event_id : string;
  au_project_id : ProjectId;
  au_caller_id : CallerId;
  au_action : string;
  au_decision : string;
  au_outcome : string;
  au_redacted_detail : string;
  au_occurred_at_ms : Z;
  au_retain_until_ms : Z
}.

(** The ledger in rowid order, the AUTOINCREMENT counter of its [sequence], and
    the daily rollup. *)
Record AuditLedger := {
  audit_events : list AuditRow;
  audit_sequence : Z;
  activity_days : gmap Z Z
}.

(** An agent artifact, keyed by project and artifact identifier. *)
Record ArtifactRow := {
  sk_name : string;
  sk_logical_path : string;
  sk_kind : string;
  sk_scope : string;
  sk_origin : string;
  sk_load_semantics : string;
  sk_content_hash : string;
  sk_first_seen_at_ms : Z;
  sk_last_changed_at_ms : Z;
  sk_removed_at_ms : option Z
}.

(** The artifacts of each project, and the time of its last observation. *)
Record SkillTables := {
  agent_artifacts : gmap ProjectId (gmap AgentArtifactId ArtifactRow);
  artifact_inventory : gmap ProjectId Z
}.

(** The database: [requests] in rowid order (an INSERT takes the next rowid and
    no request is ever deleted), the tables with a one-column key as maps,
    [projects] as the map of [next_queue_sequence] and [project_roots] as its
    [root] column, [project_policies] as version and update time. *)
Record Store := {
  projects : gmap ProjectId Z;
  requests : list RequestRow;
  events : list EventRow;
  flow_runs : gmap RequestId FlowRunRow;
  flow_authorizations : gmap RequestId FlowAuthorizationRow;
  approvals : gmap ApprovalId ApprovalRow;
  callers : gmap CallerId CallerRow;
  capability_grants : list GrantRow;
  project_policies : gmap ProjectId (Z * Z);
  project_roots : gmap ProjectId string;
  audit : AuditLedger;
  skills : SkillTables
}.

Definition empty_store : Store :=
  {| projects := ∅; requests := []; events := []; flow_runs := ∅; flow_authorizations := ∅;
     approvals := ∅; callers := ∅; capability_grants := []; project_policies := ∅;
     project_roots := ∅;
     audit := {| audit_events := []; audit_sequence := 0; activity_days := ∅ |};
     skills := {| agent_artifacts := ∅; artifact_inventory := ∅ |} |}.

Definition set_projects (s : Store) v : Store :=
  {| projects := v; requests := requests s; events := events s; flow_runs := flow_runs s;
     flow_authorizations := flow_authorizations s; approvals := approvals s;
     callers := callers s; capability_grants := capability_grants s;
     project_policies := project_policies s; project_roots := project_roots s;
     audit := audit s; skills := skills s |}.
Definition set_requests (s : Store) v : Store :=
  {| projects := projects s; requests := v; events := events s; flow_runs := flow_runs s;
     flow_authorizations := flow_authorizations s; approvals := approvals s;
     callers := callers s; capability_grants := capability_grants s;
     project_policies := project_policies s; project_roots := project_roots s;
     audit := audit s; skills := skills s |}.
Definition set_events (s : Store) v : Store :=
  {| projects := projects s; requests := requests s; events := v; flow_runs := flow_runs s;
     flow_authorizations := flow_authorizations s; approvals := approvals s;
     callers := callers s; capability_grants := capability_grants s;
     project_policies := project_policies s; project_roots := project_roots s;
     audit := audit s; skills := skills s |}.
Definition set_flow_runs (s : Store) v : Store :=
  {| projects := projects s; requests := requests s; events := events s; flow_runs := v;
     flow_authorizations := flow_authorizations s; approvals := approvals s;
     callers := callers s; capability_grants := capability_grants s;
     project_policies := project_policies s; project_roots := project_roots s;
     audit := audit s; skills := skills s |}.
Definition set_flow_authorizations (s : Store) v : Store :=
  {| projects := projects s; requests := requests s; events := events s;
     flow_runs := flow_runs s; flow_authorizations := v; approvals := approvals s;
     callers := callers s; capability_grants := capability_grants s;
     project_policies := project_policies s; project_roots := project_roots s;
     audit := audit s; skills := skills s |}.
Definition set_approvals (s : Store) v : Store :=
  {| projects := projects s; requests := requests s; events := events s;
     flow_runs := flow_runs s; flow_authorizations := flow_authorizations s; approvals := v;
     callers := callers s; capability_grants := capability_grants s;
     project_policies := project_policies s; project_roots := project_roots s;
     audit := audit s; skills := skills s |}.
Definition set_callers (s : Store) v : Store :=
  {| projects := projects s; requests := requests s; events := events s;
     flow_runs := flow_runs s; flow_authorizations := flow_authorizations s;
     approvals := approvals s; callers := v; capability_grants := capability_grants s;
     project_policies := project_policies s; project_roots := project_roots s;
     audit := audit s; skills := skills s |}.
Definition set_capability_grants (s : Store) v : Store :=
  {| projects := projects s; requests := requests s; events := events s;
     flow_runs := flow_runs s; flow_authorizations := flow_authorizations s;
     approvals := approvals s; callers := callers s; capability_grants := v;
     project_policies := project_policies s; project_roots := project_roots s;
     audit := audit s; skills := skills s |}.
Definition set_project_policies (s : Store) v : Store :=
  {| projects := projects s; requests := requests s; events := events s;
     flow_runs := flow_runs s; flow_authorizations := flow_authorizations s;
     approvals := approvals s; callers := callers s; capability_grants := capability_grants s;
     project_policies := v; project_roots := project_roots s; audit := audit s;
     skills := skills s |}.
Definition set_project_roots (s : Store) v : Store :=
  {| projects := projects s; requests := requests s; events := events s;
     flow_runs := flow_runs s; flow_authorizations := flow_authorizations s;
     approvals := approvals s; callers := callers s; capability_grants := capability_grants s;
     project_policies := project_policies s; project_roots := v; audit := audit s;
     skills := skills s |}.
Definition set_audit (s : Store) v : Store :=
  {| projects := projects s; requests := requests s; events := events s;
     flow_runs := flow_runs s; flow_authorizations := flow_authorizations s;
     approvals := approvals s; callers := callers s; capability_grants := capability_grants s;
     project_policies := project_policies s; project_roots := project_roots s; audit := v;
     skills := skills s |}.
Definition set_skills (s : Store) v : Store :=
  {| projects := projects s; requests := requests s; events := events s; flow_runs := flow_runs s;
     flow_authorizations := flow_authorizations s; approvals := approvals s;
     callers := callers s; capability_grants := capability_grants s;
     project_policies := project_policies s; project_roots := project_roots s; audit := audit s;
     skills := v |}.

(** ** Schema constraints

    A CHECK holds when its expression is not false, so a NULL passes. *)

(** [lease_owner IS NOT NULL AND ..] exactly in the two active states. *)
Definition lease_shape (r : RequestRow) : bool :=
  if is_active_state (q_state r)
  then bool_decide (is_Some (q_lease_owner r)) && bool_decide (is_Some (q_lease_token r))
       && bool_decide (is_Some (q_lease_expires_at_ms r))
  else bool_decide (q_lease_owner r = None) && bool_decide (q_lease_token r = None)
       && bool_decide (q_lease_expires_at_ms r = None).

Definition result_shape (r : RequestRow) : bool :=
  match q_state r with
  | ReqSucceeded | ReqFailed | ReqCancelled =>
    bool_decide (is_Some (q_completed_at_ms r)) && bool_decide (is_Some (q_result r))
  | ReqCancellationRequested =>
    bool_decide (q_completed_at_ms r = None) && bool_decide (is_Some (q_result r))
  | ReqQueued | ReqLeased =>
    bool_decide (q_completed_at_ms r = None) && bool_decide (q_result r = None)
  end.

Definition request_check (r : RequestRow) : bool :=
  (0 <? q_queue_sequence r) && (0 <=? q_accepted_at_ms r) && (0 <=? q_attempt r)
  && is_none_or (q_lease_expires_at_ms r) (Z.leb 0)
  && is_none_or (q_completed_at_ms r) (Z.leb 0)
  && lease_shape r && result_shape r.

Definition active_row (r : RequestRow) : bool := is_active_state (q_state r).
Definition idempotency_columns (r : RequestRow) : string * (string * string) :=
  (q_caller_id r, (q_project_id r, q_idempotency_key r)).
Definition queue_columns (r : RequestRow) : string * Z := (q_project_id r, q_queue_sequence r).

(** The constraints of the table [requests]: the row CHECKs, the primary key,
    the two UNIQUE constraints and the partial unique index
    [one_active_lease_per_project]. *)
Definition requests_schema (rows : list RequestRow) : Prop :=
  Forall (fun r => request_check r = true) rows
  /\ NoDup (q_request_id <$> rows)
  /\ NoDup (idempotency_columns <$> rows)
  /\ NoDup (queue_columns <$> rows)
  /\ NoDup (q_project_id <$> List.filter active_row rows).

#[export] Instance requests_schema_dec rows : base.Decision (requests_schema rows).
Proof. unfold requests_schema. apply _. Defined.

Definition flow_outcomes : list string := ["solved"; "unresolved"; "blocked"; "cancelled"].

Definition flow_run_check (f : FlowRunRow) : bool :=
  (len (f_definition_digest f) =? 32)
  && (1 <=? len (f_snapshot f)) && (len (f_snapshot f) <=? MAX_FLOW_CHECKPOINT_BYTES)
  && (0 <? f_checkpoint_revision f) && (0 <=? f_updated_at_ms f)
  && is_none_or (f_terminal_outcome f) (fun o => existsb (String.eqb o) flow_outcomes)
  && is_none_or (f_terminal_result f)
       (fun r => (1 <=? len r) && (len r <=? MAX_FLOW_TERMINAL_RESULT_BYTES))
  && Bool.eqb (bool_decide (f_terminal_outcome f = None)) (bool_decide (f_terminal_result f = None))
  && (negb (f_terminal_cancellation_override f)
      || is_none_or (f_terminal_outcome f) (String.eqb "blocked")).

(** ** Transactions *)

(** A statement sequence inside one transaction: it reads and writes the store
    or fails, and a failure discards its writes. *)
Definition Tx (A : Type) : Type := Store -> sres (Store * A).

#[export] Instance tx_ret : MRet Tx := fun A a s => Ok (s, a).
#[export] Instance tx_bind : MBind Tx := fun A B k m s =>
  match m s with Ok (s', a) => k a s' | Err e => Err e | Panic => Panic end.

Definition tx_err {A} (e : StoreError) : Tx A := fun _ => Err e.
(** [?] on a value that does not touch the database. *)
Definition tx_lift {A} (r : sres A) : Tx A := fun s => let? a := r in Ok (s, a).
(** A SELECT. *)
Definition tx_read {A} (f : Store -> A) : Tx A := fun s => Ok (s, f s).

(** [transaction_with_behavior(Immediate)], the statements, [commit]; an early
    return drops the transaction, which rolls it back. *)
Definition transaction {A} (m : Tx A) (s : Store) : Store * sres A :=
  match m s with Ok (s', a) => (s', Ok a) | Err e => (s, Err e) | Panic => (s, Panic) end.

(** ** Integers and times *)

Definition sql_integer (value : Z) : sres Z :=
  if value <=? i64_max then Ok value else Err (TimestampOutOfRange value).
Definition unsigned_integer (value : Z) : sres Z :=
  if 0 <=? value then Ok value else Err (InvalidState ("negative integer " +:+ pretty value)).
Definition lease_expiry (now_ms duration_ms : Z) : sres Z :=
  if duration_ms =? 0 then Err LeaseDurationZero
  else ok_or (checked_add64 now_ms duration_ms) LeaseExpiryOverflow.

(** ** Statements *)

(** [ORDER BY key, rowid] on rows listed in rowid order. *)
Fixpoint insert_by {A} (key : A -> Z) (x : A) (l : list A) : list A :=
  match l with
  | [] => [x]
  | y :: l' => if key x <=? key y then x :: l else y :: insert_by key x l'
  end.
Definition order_by {A} (key : A -> Z) (l : list A) : list A :=
  foldr (insert_by key) [] l.

(** Comparisons of a nullable column; a NULL is not selected. *)
Definition opt_eqb (o : option string) (v : string) : bool :=
  match o with Some x => String.eqb x v | None => false end.
Definition opt_gt (o : option Z) (v : Z) : bool :=
  match o with Some x => v <? x | None => false end.
Definition opt_le (o : option Z) (v : Z) : bool :=
  match o with Some x => x <=? v | None => false end.

Definition by_id (id : RequestId) (r : RequestRow) : bool := String.eqb (q_request_id r) id.

(** [SELECT .. FROM requests WHERE p] through [query_row(..).optional()]. *)
Definition select_request (p : RequestRow -> bool) : Tx (option RequestRow) :=
  tx_read (fun s => List.find p (requests s)).

(** [UPDATE requests SET .. WHERE p]: the number of rows changed. *)
Definition update_requests (p : RequestRow -> bool) (f : RequestRow -> RequestRow) : Tx nat :=
  fun s =>
    let rows := (fun r => if p r then f r else r) <$> requests s in
    if bool_decide (requests_schema rows)
    then Ok (set_requests s rows, length (List.filter p (requests s)))
    else Err Sqlite.

(** [INSERT INTO requests ..]. *)
Definition insert_request (r : RequestRow) : Tx unit :=
  fun s =>
    if bool_decide (requests_schema (requests s ++ [r]))
       && bool_decide (is_Some (projects s !! q_project_id r))
    then Ok (set_requests s (requests s ++ [r]), tt)
    else Err Sqlite.

Definition event_of (id : RequestId) (e : EventRow) : bool := String.eqb (e_request_id e) id.

(** [INSERT INTO events ..]: the primary key, the CHECKs and the foreign key. *)
Definition insert_event (e : EventRow) : Tx unit :=
  fun s =>
    if (0 <? e_sequence e) && (0 <=? e_recorded_at_ms e)
       && negb (existsb (fun x => event_of (e_request_id e) x && (e_sequence x =? e_sequence e))
                  (events s))
       && existsb (by_id (e_request_id e)) (requests s)
    then Ok (set_events s (events s ++ [e]), tt)
    else Err Sqlite.

(** [COALESCE(MAX(sequence), 0)]. *)
Definition max_sequence (id : RequestId) (l : list EventRow) : Z :=
  foldr (fun e => Z.max (e_sequence e)) 0 (List.filter (event_of id) l).

(** An integer column or expression leaves SQLite's 64-bit range. *)
Definition sqlite_integer (v : Z) : Tx Z :=
  if v <=? i64_max then mret v else tx_err Sqlite.

Definition append_event_tx (request_id : RequestId) (recorded_at_ms : Z) (kind payload : string)
  : Tx Z :=
  highest ← tx_read (fun s => max_sequence request_id (events s));
  sequence ← sqlite_integer (highest + 1);
  _ ← insert_event {| e_request_id := request_id; e_sequence := sequence; e_kind := kind;
                      e_payload := payload; e_recorded_at_ms := recorded_at_ms |};
  tx_lift (unsigned_integer sequence).

(** ** Row updates *)

Definition set_req_state (r : RequestRow) (v : RequestState) : RequestRow :=
  {| q_request_id := q_request_id r; q_caller_id := q_caller_id r;
     q_project_id := q_project_id r; q_idempotency_key := q_idempotency_key r;
     q_operation_kind := q_operation_kind r; q_operation := q_operation r;
     q_queue_sequence := q_queue_sequence r; q_state := v;
     q_accepted_at_ms := q_accepted_at_ms r; q_attempt := q_attempt r;
     q_lease_owner := q_lease_owner r; q_lease_token := q_lease_token r;
     q_lease_expires_at_ms := q_lease_expires_at_ms r;
     q_completed_at_ms := q_completed_at_ms r; q_result := q_result r |}.
Definition set_attempt (r : RequestRow) (v : Z) : RequestRow :=
  {| q_request_id := q_request_id r; q_caller_id := q_caller_id r;
     q_project_id := q_project_id r; q_idempotency_key := q_idempotency_key r;
     q_operation_kind := q_operation_kind r; q_operation := q_operation r;
     q_queue_sequence := q_queue_sequence r; q_state := q_state r;
     q_accepted_at_ms := q_accepted_at_ms r; q_attempt := v;
     q_lease_owner := q_lease_owner r; q_lease_token := q_lease_token r;
     q_lease_expires_at_ms := q_lease_expires_at_ms r;
     q_completed_at_ms := q_completed_at_ms r; q_result := q_result r |}.
(** [lease_owner = .., lease_token = .., lease_expires_at_ms = ..]. *)
Definition set_lease (r : RequestRow) (owner token : option string) (expires : option Z)
  : RequestRow :=
  {| q_request_id := q_request_id r; q_caller_id := q_caller_id r;
     q_project_id := q_project_id r; q_idempotency_key := q_idempotency_key r;
     q_operation_kind := q_operation_kind r; q_operation := q_operation r;
     q_queue_sequence := q_queue_sequence r; q_state := q_state r;
     q_accepted_at_ms := q_accepted_at_ms r; q_attempt := q_attempt r;
     q_lease_owner := owner; q_lease_token := token;
     q_lease_expires_at_ms := expires;
     q_completed_at_ms := q_completed_at_ms r; q_result := q_result r |}.
Definition set_completed (r : RequestRow) (v : Z) : RequestRow :=
  {| q_request_id := q_request_id r; q_caller_id := q_caller_id r;
     q_project_id := q_project_id r; q_idempotency_key := q_idempotency_key r;
     q_operation_kind := q_operation_kind r; q_operation := q_operation r;
     q_queue_sequence := q_queue_sequence r; q_state := q_state r;
     q_accepted_at_ms := q_accepted_at_ms r; q_attempt := q_attempt r;
     q_lease_owner := q_lease_owner r; q_lease_token := q_lease_token r;
     q_lease_expires_at_ms := q_lease_expires_at_ms r;
     q_completed_at_ms := Some v; q_result := q_result r |}.
Definition set_result (r : RequestRow) (v : option string) : RequestRow :=
  {| q_request_id := q_request_id r; q_caller_id := q_caller_id r;
     q_project_id := q_project_id r; q_idempotency_key := q_idempotency_key r;
     q_operation_kind := q_operation_kind r; q_operation := q_operation r;
     q_queue_sequence := q_queue_sequence r; q_state := q_state r;
     q_accepted_at_ms := q_accepted_at_ms r; q_attempt := q_attempt r;
     q_lease_owner := q_lease_owner r; q_lease_token := q_lease_token r;
     q_lease_expires_at_ms := q_lease_expires_at_ms r;
     q_completed_at_ms := q_completed_at_ms r; q_result := v |}.

(** [lease_owner = NULL, lease_token = NULL, lease_expires_at_ms = NULL]. *)
Definition clear_lease (r : RequestRow) : RequestRow := set_lease r None None None.

(** ** Leases *)

Record Lease := {
  le_request_id : RequestId;
  le_project_id : ProjectId;
  le_owner : string;
  le_token : string;
  le_attempt : Z;
  le_expires_at_ms : Z
}.

(** [request_id = ?1 AND state IN ('leased', 'cancellation_requested') AND
    lease_owner = ?2 AND lease_token = ?3 AND lease_expires_at_ms > ?4]. *)
Definition live_lease (lease : Lease) (now : Z) (r : RequestRow) : bool :=
  by_id (le_request_id lease) r && is_active_state (q_state r)
  && opt_eqb (q_lease_owner r) (le_owner lease) && opt_eqb (q_lease_token r) (le_token lease)
  && opt_gt (q_lease_expires_at_ms r) now.

Definition ensure_live_lease (lease : Lease) (now : Z) : Tx unit :=
  live ← tx_read (fun s => existsb (live_lease lease now) (requests s));
  if (live : bool) then mret tt else tx_err (StaleLease (le_request_id lease)).

Definition ensure_live_flow_lease (lease : Lease) (now : Z) : Tx RequestState :=
  live ← select_request (live_lease lease now);
  match live with
  | None => tx_err (StaleLease (le_request_id lease))
  | Some r =>
    if negb (String.eqb (q_operation_kind r) FLOW_OPERATION_KIND)
    then tx_err (InvalidState "flow checkpoint requires a flow request")
    else tx_lift (parse_state (as_str (q_state r)))
  end.

Record EventRecord := {
  ev_sequence : Z;
  ev_kind : string;
  ev_payload : string;
  ev_recorded_at_ms : Z
}.

(** ** Flow authorization proofs in the store ([pam_store/src/store.rs])

    The read side of the [flow_authorizations] table: the stored proof of a
    flow run is loaded with its request, every column is checked, the effect
    fingerprint is recomputed and compared in constant time, and the consumed
    approval receipt the proof names is checked against it. *)

(** The [fold] of [difference | (left ^ right)] over the zipped bytes. *)
Definition constant_time_equal (expected supplied : string) : bool :=
  if negb (len expected =? len supplied) then false
  else
    foldl (fun difference '(l, r) => Z.lor difference (Z.lxor (byte_val l) (byte_val r)))
      0 (zip (bytes expected) (bytes supplied)) =? 0.

Record StoredFlowAuthorization := {
  sa_caller_id : CallerId;
  sa_project_id : ProjectId;
  sa_capability : CapabilityName;
  sa_resource : ResourceName;
  sa_fingerprint : string;
  sa_approval_id : option ApprovalId;
  sa_schema_approval_required : bool
}.

Section proofs.
Context `{Sha256}.

(** The row of the LEFT JOIN, or [None] when no flow request has the id. *)
Definition joined_authorization (id : RequestId) (s : Store)
  : option (RequestRow * option FlowAuthorizationRow) :=
  (fun r => (r, flow_authorizations s !! id)) <$>
  List.find (fun r => by_id id r && String.eqb (q_operation_kind r) FLOW_OPERATION_KIND)
    (requests s).

Definition kind_matches (kind : string) (approval : option ApprovalId) : bool :=
  match approval with
  | None => String.eqb kind "unconditional"
  | Some _ => String.eqb kind "approved"
  end.

Definition load_flow_authorization (request_id : RequestId) : Tx StoredFlowAuthorization :=
  stored ← tx_read (joined_authorization request_id);
  match stored with
  | Some (r, Some a) =>
    capability ← tx_lift (map_err (fun _ => CorruptFlowAuthorization request_id)
                            (capability_parse (fa_capability a)));
    resource ← tx_lift (map_err (fun _ => CorruptFlowAuthorization request_id)
                          (resource_parse (fa_resource a)));
    let expected := fingerprint_compute (q_caller_id r) (q_project_id r) capability resource in
    if negb (String.eqb capability FLOW_CAPABILITY_NAME)
       || negb (kind_matches (fa_authorization_kind a) (fa_approval_id a))
       || (fa_schema_approval_required a && bool_decide (fa_approval_id a = None))
       || negb (fa_authorized_at_ms a =? q_accepted_at_ms r)
       || negb (constant_time_equal (fa_effect_fingerprint a) expected)
    then tx_err (CorruptFlowAuthorization request_id)
    else
      mret {| sa_caller_id := q_caller_id r; sa_project_id := q_project_id r;
              sa_capability := capability; sa_resource := resource;
              sa_fingerprint := fa_effect_fingerprint a; sa_approval_id := fa_approval_id a;
              sa_schema_approval_required := fa_schema_approval_required a |}
  | _ => tx_err (CorruptFlowAuthorization request_id)
  end.

(** [matches!((decided_at, consumed_at), (Some(d), Some(c)) if d <= c && c < expires)]. *)
Definition consumed_in_time (a : ApprovalRow) : bool :=
  match ap_decided_at_ms a, ap_consumed_at_ms a with
  | Some decided, Some consumed => (decided <=? consumed) && (consumed <? ap_expires_at_ms a)
  | _, _ => false
  end.

Definition receipt_matches (a : ApprovalRow) (request_id : RequestId)
    (proof : StoredFlowAuthorization) : bool :=
  String.eqb (ap_caller_id a) (sa_caller_id proof)
  && String.eqb (ap_project_id a) (sa_project_id proof)
  && String.eqb (ap_capability a) (sa_capability proof)
  && String.eqb (ap_resource a) (sa_resource proof)
  && String.eqb (ap_state a) "consumed"
  && opt_eqb (ap_flow_request_id a) request_id
  && consumed_in_time a
  && constant_time_equal (ap_effect_fingerprint a) (sa_fingerprint proof).

Definition validate_consumed_flow_receipt (request_id : RequestId)
    (proof : StoredFlowAuthorization) (approval_id : ApprovalId) : Tx unit :=
  receipt ← tx_read (fun s => approvals s !! approval_id);
  match receipt with
  | None => tx_err (CorruptFlowAuthorization request_id)
  | Some a =>
    if negb (receipt_matches a request_id proof)
    then tx_err (CorruptFlowAuthorization request_id)
    else mret tt
  end.

Definition validate_flow_authorization_integrity (request_id : RequestId)
  : Tx StoredFlowAuthorization :=
  proof ← load_flow_authorization request_id;
  match sa_approval_id proof with
  | Some approval_id =>
    _ ← validate_consumed_flow_receipt request_id proof approval_id;
    mret proof
  | None => mret proof
  end.

End proofs.

(** ** The comparison is equality *)

Lemma difference_zero (l : list (ascii * ascii)) acc :
  0 <= acc ->
  foldl (fun difference '(x, y) => Z.lor difference (Z.lxor (byte_val x) (byte_val y))) acc l = 0
  <-> acc = 0 /\ Forall (fun p => p.1 = p.2) l.
Proof.
  revert acc. induction l as [|[x y] l IH]; intros acc Hacc; simpl.
  - split; [intros ->; by split|by intros [-> _]].
  - assert (Hx : 0 <= Z.lxor (byte_val x) (byte_val y)) by (apply Z.lxor_nonneg; unfold byte_val; lia).
    rewrite IH by by apply Z.lor_nonneg. rewrite Z.lor_eq_0_iff, Z.lxor_eq_0_iff.
    split.
    + intros [[-> Hxy] Hl]. split; [done|]. constructor; [|done]. cbn.
      unfold byte_val in Hxy. apply N2Z.inj in Hxy.
      by rewrite <-(ascii_N_embedding x), <-(ascii_N_embedding y), Hxy.
    + intros [-> Hl]. apply Forall_cons in Hl as [Hxy Hl]. cbn in Hxy. by subst.
Qed.

Lemma zip_all_equal {A} (l1 l2 : list A) :
  length l1 = length l2 -> Forall (fun p => p.1 = p.2) (zip l1 l2) -> l1 = l2.
Proof.
  revert l2. induction l1 as [|x l1 IH]; intros [|y l2] Hl Hf; try done.
  apply Forall_cons in Hf as [Hxy Hf]. cbn in Hxy. subst. f_equal. apply IH; [by injection Hl|done].
Qed.

Lemma length_bytes_string s : length (bytes s) = String.length s.
Proof. induction s; simpl; congruence. Qed.

Lemma constant_time_equal_spec a b : constant_time_equal a b = true <-> a = b.
Proof.
  unfold constant_time_equal, len. destruct (_ =? _) eqn:E; cbn [negb].
  - apply Z.eqb_eq, Nat2Z.inj in E. rewrite Z.eqb_eq, difference_zero by lia. split.
    + intros [_ Hl]. apply zip_all_equal in Hl; [|by rewrite !length_bytes_string].
      apply (f_equal String.string_of_list_ascii) in Hl. unfold bytes in Hl.
      by rewrite !String.string_of_list_ascii_of_string in Hl.
    + intros ->. split; [done|]. induction (bytes b); simpl; by constructor.
  - split; [done|]. intros ->. by rewrite Z.eqb_refl in E.
Qed.
