(* ===== verification/StoreFlow.v ===== *)
(** * Flow checkpoints in the store ([pam_store/src/store.rs])

    The [flow_runs] table: one checkpoint per flow request, written under a
    live lease by compare-and-swap on its revision, each write a semantic
    successor of the stored snapshot in the sense of [pam_flow]
    ([FlowSnapshot.validate_snapshot_successor]) and appended to the request's
    event log together with its transition. The MessagePack encodings of
    snapshots and transitions are [rmp_serde]'s, a parameter. *)

From S2P Require Import Prelude Core Policy FlowDef FlowData FlowSnapshot StoreDef.

Local Open Scope Z_scope.

#[export] Instance TransitionKind_eq_dec : EqDecision TransitionKind.
Proof. solve_decision. Defined.
#[export] Instance RunTransition_eq_dec : EqDecision RunTransition.
Proof. solve_decision. Defined.

(** [rmp_serde::to_vec_named] and [rmp_serde::from_slice] at the two stored
    types; [None] is an encoding or decoding error. The decoder of a
    transition is given before the checks of its [Deserialize]. *)
Class FlowCodec := {
  snapshot_to_vec : FlowSnapshot -> option string;
  snapshot_from_slice : string -> option FlowSnapshot;
  transition_to_vec : RunTransition -> option string;
  transition_raw_from_slice : string -> option RunTransition
}.

Record FlowTerminalResult := {
  ft_outcome : RunOutcome;
  ft_encoded_result : string
}.

#[export] Instance FlowTerminalResult_eq_dec : EqDecision FlowTerminalResult.
Proof. solve_decision. Defined.

Record FlowCheckpoint := {
  fc_request_id : RequestId;
  fc_snapshot : FlowSnapshot;
  fc_checkpoint_revision : Z;
  fc_updated_at_ms : Z;
  fc_terminal_result : option FlowTerminalResult
}.

Record SaveFlowCheckpoint := {
  sv_lease : Lease;
  sv_expected_revision : Z;
  sv_snapshot : FlowSnapshot;
  sv_transition : option RunTransition;
  sv_terminal_result : option FlowTerminalResult;
  sv_updated_at_ms : Z
}.

Inductive FlowCheckpointDisposition : Type := CheckpointCreated | CheckpointUpdated | CheckpointUnchanged.

#[export] Instance FlowCheckpointDisposition_eq_dec : EqDecision FlowCheckpointDisposition.
Proof. solve_decision. Defined.

Record FlowCheckpointSaveOutcome := {
  so_checkpoint : FlowCheckpoint;
  so_disposition : FlowCheckpointDisposition;
  so_event : option EventRecord
}.

Record StoredFlowCheckpoint := {
  sc_definition_digest : string;
  sc_snapshot_bytes : string;
  sc_checkpoint_revision : Z;
  sc_updated_at_ms : Z;
  sc_terminal_result : option FlowTerminalResult;
  sc_terminal_cancellation_override : bool
}.

(** ** Outcome and event names *)

Definition terminal_outcome_for_status (status : RunStatus) : option RunOutcome :=
  match status with
  | SucceededStatus => Some OutSolved
  | UnresolvedStatus => Some OutUnresolved
  | BlockedStatus => Some OutBlocked
  | CancelledStatus => Some OutCancelled
  | Running | WaitingApproval | WaitingRetryStatus | AwaitingEffectEvaluation | EffectInFlight
  | Cancelling => None
  end.

Definition flow_outcome_name (outcome : RunOutcome) : string :=
  match outcome with
  | OutSolved => "solved"
  | OutUnresolved => "unresolved"
  | OutBlocked => "blocked"
  | OutCancelled => "cancelled"
  end.

Definition parse_flow_outcome (value : string) : option RunOutcome :=
  if String.eqb value "solved" then Some OutSolved
  else if String.eqb value "unresolved" then Some OutUnresolved
  else if String.eqb value "blocked" then Some OutBlocked
  else if String.eqb value "cancelled" then Some OutCancelled
  else None.

Definition flow_event_kind (kind : TransitionKind) : string :=
  match kind with
  | StepSkipped _ => "flow_step_skipped"
  | ApprovalRequested _ => "flow_approval_required"
  | ApprovalGranted _ => "flow_approval_granted"
  | ApprovalDenied _ => "flow_approval_denied"
  | EffectEvaluationRequired _ _ => "flow_effect_evaluation_required"
  | EffectStarted _ _ _ => "flow_effect_started"
  | EffectAuthorizationDenied _ _ _ => "flow_effect_authorization_denied"
  | EffectSucceeded _ _ => "flow_effect_succeeded"
  | RetryScheduled _ _ _ => "flow_retry_scheduled"
  | RetryExhausted _ _ => "flow_retry_exhausted"
  | EffectFailed _ _ => "flow_effect_failed"
  | ReconciledNotApplied _ _ => "flow_reconciled_not_applied"
  | ReconciliationUnknown _ _ => "flow_reconciliation_unknown"
  | CancellationRequested => "flow_cancellation_requested"
  | RunCompleted _ => "flow_completed"
  end.

Definition is_reconciliation_unknown (k : TransitionKind) : bool :=
  match k with ReconciliationUnknown _ _ => true | _ => false end.
Definition is_effect_started (k : TransitionKind) : bool :=
  match k with EffectStarted _ _ _ => true | _ => false end.

(** ** Validation *)

Definition validate_flow_terminal_result (snapshot : FlowSnapshot)
    (transition : option RunTransition) (terminal_result : option FlowTerminalResult) : sres unit :=
  let? _ :=
    match terminal_outcome_for_status (sn_status snapshot), terminal_result with
    | Some expected, Some terminal =>
      if bool_decide (expected = ft_outcome terminal) then
        if str_is_empty (ft_encoded_result terminal)
        then Err (InvalidFlowCheckpoint "terminal result cannot be empty")
        else if len (ft_encoded_result terminal) >? MAX_FLOW_TERMINAL_RESULT_BYTES
        then Err (FlowTerminalResultTooLarge (len (ft_encoded_result terminal))
                    MAX_FLOW_TERMINAL_RESULT_BYTES)
        else Ok tt
      else Err (InvalidFlowCheckpoint "terminal result outcome does not match snapshot status")
    | Some _, None => Err (InvalidFlowCheckpoint "terminal snapshot requires its encoded result")
    | None, Some _ =>
      Err (InvalidFlowCheckpoint "non-terminal snapshot cannot cache a terminal result")
    | None, None => Ok tt
    end in
  match tr_kind <$> transition with
  | Some (RunCompleted outcome) =>
    match terminal_result with
    | Some terminal =>
      if bool_decide (outcome = ft_outcome terminal) then Ok tt
      else Err (InvalidFlowCheckpoint "run completion and terminal result outcomes do not match")
    | None => Err (InvalidFlowCheckpoint "run completion and terminal result outcomes do not match")
    end
  | _ => Ok tt
  end.

Definition decode_stored_terminal_result (request_id : RequestId) (outcome : option string)
    (result : option string) : sres (option FlowTerminalResult) :=
  match outcome, result with
  | None, None => Ok None
  | Some outcome, Some encoded_result =>
    let? outcome := ok_or (parse_flow_outcome outcome) (CorruptFlowCheckpoint request_id) in
    Ok (Some {| ft_outcome := outcome; ft_encoded_result := encoded_result |})
  | _, _ => Err (CorruptFlowCheckpoint request_id)
  end.

Definition validate_flow_request_identity (request_id : RequestId) (snapshot : FlowSnapshot)
  : sres unit :=
  if String.eqb (sn_run_id snapshot) request_id then Ok tt
  else Err (FlowCheckpointRequestMismatch request_id).

Definition validate_transition_alignment (snapshot : FlowSnapshot)
    (transition : option RunTransition) : sres unit :=
  match transition with
  | Some transition =>
    if tr_sequence transition =? sn_sequence snapshot then Ok tt
    else Err (InvalidFlowCheckpoint "transition sequence does not match snapshot")
  | None =>
    if sn_sequence snapshot =? 0 then Ok tt
    else Err (InvalidFlowCheckpoint "non-initial snapshot requires its transition")
  end.

Definition validate_stored_digest (request_id : RequestId) (stored : StoredFlowCheckpoint)
    (snapshot : FlowSnapshot) : sres unit :=
  if String.eqb (sc_definition_digest stored) (sn_digest snapshot) then Ok tt
  else Err (FlowDefinitionDigestMismatch request_id).

Definition terminal_cancellation_override (save : SaveFlowCheckpoint)
    (request_state : RequestState) : sres bool :=
  match sv_terminal_result save with
  | None => Ok false
  | Some terminal =>
    match request_state, ft_outcome terminal with
    | ReqLeased, (OutSolved | OutUnresolved | OutBlocked)
    | ReqCancellationRequested, OutCancelled => Ok false
    | ReqCancellationRequested, OutBlocked =>
      if sn_cancel_requested (sv_snapshot save)
         && match tr_kind <$> sv_transition save with
            | Some k => is_reconciliation_unknown k
            | None => false
            end
      then Ok true
      else Err (FlowTerminalOutcomeConflict (le_request_id (sv_lease save)))
    | _, _ => Err (FlowTerminalOutcomeConflict (le_request_id (sv_lease save)))
    end
  end.

Section checkpoints.
Context `{Sha256} `{FlowCodec}.

(** [rmp_serde::from_slice::<RunTransition>]: the raw fields, then the checks
    of the [Deserialize] implementation. *)
Definition transition_from_slice (payload : string) : option RunTransition :=
  raw ← transition_raw_from_slice payload;
  match transition_deserialize raw with Ok t => Some t | _ => None end.

(** ** Encoding *)

Definition encode_snapshot (snapshot : FlowSnapshot) : sres string :=
  let? payload := ok_or (snapshot_to_vec snapshot)
                    (InvalidFlowCheckpoint "snapshot cannot be encoded") in
  if str_is_empty payload || (len payload >? MAX_FLOW_CHECKPOINT_BYTES)
  then Err (FlowCheckpointTooLarge (len payload) MAX_FLOW_CHECKPOINT_BYTES)
  else
    let? decoded := ok_or (snapshot_from_slice payload)
                      (InvalidFlowCheckpoint "snapshot cannot be decoded") in
    if bool_decide (decoded = snapshot) then Ok payload
    else Err (InvalidFlowCheckpoint "snapshot encoding is not lossless").

Definition encode_transition (transition : RunTransition) : sres string :=
  let? payload := ok_or (transition_to_vec transition)
                    (InvalidFlowCheckpoint "transition cannot be encoded") in
  if str_is_empty payload || (len payload >? MAX_FLOW_TRANSITION_BYTES)
  then Err (FlowTransitionTooLarge (len payload) MAX_FLOW_TRANSITION_BYTES)
  else
    let? decoded := ok_or (transition_from_slice payload)
                      (InvalidFlowCheckpoint "transition cannot be decoded") in
    if bool_decide (decoded = transition) then Ok payload
    else Err (InvalidFlowCheckpoint "transition encoding is not lossless").

Definition validate_flow_successor (previous : option FlowSnapshot) (snapshot : FlowSnapshot)
    (transition : option RunTransition) : sres unit :=
  map_err (fun _ => InvalidFlowCheckpoint
                      "snapshot and transition do not form a valid semantic successor")
    (validate_snapshot_successor previous snapshot transition).

(** ** Reading *)

Definition stored_of_row (request_id : RequestId) (row : FlowRunRow) : sres StoredFlowCheckpoint :=
  let? revision := unsigned_integer (f_checkpoint_revision row) in
  let? updated := unsigned_integer (f_updated_at_ms row) in
  let? terminal := decode_stored_terminal_result request_id (f_terminal_outcome row)
                     (f_terminal_result row) in
  Ok {| sc_definition_digest := f_definition_digest row; sc_snapshot_bytes := f_snapshot row;
        sc_checkpoint_revision := revision; sc_updated_at_ms := updated;
        sc_terminal_result := terminal;
        sc_terminal_cancellation_override := f_terminal_cancellation_override row |}.

Definition read_flow_checkpoint (request_id : RequestId) : Tx (option StoredFlowCheckpoint) :=
  row ← tx_read (fun s => flow_runs s !! request_id);
  match row with
  | None => mret None
  | Some row => stored ← tx_lift (stored_of_row request_id row); mret (Some stored)
  end.

(** [snapshot.cancel_requested() && .. == Some(RunOutcome::Blocked)]. *)
Definition override_shape (snapshot : FlowSnapshot) (terminal : option FlowTerminalResult) : bool :=
  sn_cancel_requested snapshot && bool_decide (ft_outcome <$> terminal = Some OutBlocked).

Definition decode_flow_checkpoint (request_id : RequestId) (stored : StoredFlowCheckpoint)
  : sres FlowCheckpoint :=
  let corrupt := CorruptFlowCheckpoint request_id in
  if str_is_empty (sc_snapshot_bytes stored)
     || (len (sc_snapshot_bytes stored) >? MAX_FLOW_CHECKPOINT_BYTES)
  then Err corrupt
  else
    let? snapshot := ok_or (snapshot_from_slice (sc_snapshot_bytes stored)) corrupt in
    let? _ := map_err (fun _ => corrupt) (validate_flow_request_identity request_id snapshot) in
    if negb (String.eqb (sc_definition_digest stored) (sn_digest snapshot)) then Err corrupt
    else
      let? _ := map_err (fun _ => corrupt)
                  (validate_flow_terminal_result snapshot None (sc_terminal_result stored)) in
      if sc_terminal_cancellation_override stored
         && negb (override_shape snapshot (sc_terminal_result stored))
      then Err corrupt
      else
        Ok {| fc_request_id := request_id; fc_snapshot := snapshot;
              fc_checkpoint_revision := sc_checkpoint_revision stored;
              fc_updated_at_ms := sc_updated_at_ms stored;
              fc_terminal_result := sc_terminal_result stored |}.

(** [ORDER BY sequence DESC LIMIT 1]. *)
Definition latest_event (p : EventRow -> bool) (s : Store) : option EventRow :=
  last (order_by e_sequence (List.filter p (events s))).

Definition decode_and_validate_flow_checkpoint (request_id : RequestId)
    (stored : StoredFlowCheckpoint) : Tx FlowCheckpoint :=
  checkpoint ← tx_lift (decode_flow_checkpoint request_id stored);
  if negb (sc_terminal_cancellation_override stored) then mret checkpoint
  else
    let corrupt := CorruptFlowCheckpoint request_id in
    event ← tx_read (latest_event (fun e => event_of request_id e
                       && String.eqb (e_kind e) "flow_reconciliation_unknown"));
    payload ← tx_lift (ok_or (e_payload <$> event) corrupt);
    transition ← tx_lift (ok_or (transition_from_slice payload) corrupt);
    if negb (tr_sequence transition =? sn_sequence (fc_snapshot checkpoint))
       || negb (is_reconciliation_unknown (tr_kind transition))
    then tx_err corrupt
    else mret checkpoint.

Definition load_flow_checkpoint_tx (lease : Lease) (now_ms : Z) : Tx (option FlowCheckpoint) :=
  now ← tx_lift (sql_integer now_ms);
  _ ← ensure_live_flow_lease lease now;
  stored ← read_flow_checkpoint (le_request_id lease);
  match stored with
  | None => mret None
  | Some stored =>
    checkpoint ← decode_and_validate_flow_checkpoint (le_request_id lease) stored;
    mret (Some checkpoint)
  end.

Definition load_flow_checkpoint (lease : Lease) (now_ms : Z)
  : Store -> Store * sres (option FlowCheckpoint) :=
  transaction (load_flow_checkpoint_tx lease now_ms).

(** ** Writing *)

(** The columns an INSERT or UPDATE of [flow_runs] writes for [save]. *)
Definition checkpoint_row (save : SaveFlowCheckpoint) (snapshot_bytes : string)
    (revision updated_at : Z) (override : bool) : FlowRunRow :=
  {| f_definition_digest := sn_digest (sv_snapshot save);
     f_snapshot := snapshot_bytes;
     f_checkpoint_revision := revision;
     f_updated_at_ms := updated_at;
     f_terminal_outcome := (fun t => flow_outcome_name (ft_outcome t)) <$> sv_terminal_result save;
     f_terminal_result := ft_encoded_result <$> sv_terminal_result save;
     f_terminal_cancellation_override := override |}.

(** [INSERT INTO flow_runs ..]. *)
Definition insert_flow_run (id : RequestId) (row : FlowRunRow) : Tx unit :=
  fun s =>
    if flow_run_check row && bool_decide (flow_runs s !! id = None)
       && existsb (by_id id) (requests s)
    then Ok (set_flow_runs s (<[id := row]> (flow_runs s)), tt)
    else Err Sqlite.

(** [UPDATE flow_runs SET .. WHERE request_id = .. AND p]: the rows changed. *)
Definition update_flow_run (id : RequestId) (p : FlowRunRow -> bool) (row : FlowRunRow) : Tx nat :=
  fun s =>
    match flow_runs s !! id with
    | Some old =>
      if p old then
        if flow_run_check row then Ok (set_flow_runs s (<[id := row]> (flow_runs s)), 1%nat)
        else Err Sqlite
      else Ok (s, 0%nat)
    | None => Ok (s, 0%nat)
    end.

Definition insert_flow_checkpoint (save : SaveFlowCheckpoint) (snapshot_bytes : string)
    (override : bool) : Tx unit :=
  updated_at ← tx_lift (sql_integer (sv_updated_at_ms save));
  insert_flow_run (le_request_id (sv_lease save))
    (checkpoint_row save snapshot_bytes 1 updated_at override).

Definition update_flow_checkpoint (save : SaveFlowCheckpoint) (snapshot_bytes : string)
    (revision : Z) (override : bool) : Tx unit :=
  let id := le_request_id (sv_lease save) in
  revision ← tx_lift (sql_integer revision);
  updated_at ← tx_lift (sql_integer (sv_updated_at_ms save));
  expected ← tx_lift (sql_integer (sv_expected_revision save));
  changed ← update_flow_run id
    (fun row => String.eqb (f_definition_digest row) (sn_digest (sv_snapshot save))
                && (f_checkpoint_revision row =? expected))
    (checkpoint_row save snapshot_bytes revision updated_at override);
  if (changed =? 1)%nat then mret tt else tx_err (FlowCheckpointConflict id).

Definition append_flow_transition (request_id : RequestId) (now : Z)
    (transition : option RunTransition) (transition_bytes : option string)
  : Tx (option EventRecord) :=
  match transition with
  | None => mret None
  | Some transition =>
    payload ← tx_lift (ok_or transition_bytes
                         (InvalidFlowCheckpoint "transition bytes are missing"));
    let kind := flow_event_kind (tr_kind transition) in
    sequence ← append_event_tx request_id now kind payload;
    recorded ← tx_lift (unsigned_integer now);
    mret (Some {| ev_sequence := sequence; ev_kind := kind; ev_payload := payload;
                  ev_recorded_at_ms := recorded |})
  end.

Definition validate_exact_flow_replay (request_id : RequestId)
    (transition : option RunTransition) (transition_bytes : option string) : Tx unit :=
  match transition with
  | None => mret tt
  | Some transition =>
    payload ← tx_lift (ok_or transition_bytes
                         (InvalidFlowCheckpoint "transition bytes are missing"));
    found ← tx_read (fun s => existsb (fun e =>
                event_of request_id e
                && String.eqb (e_kind e) (flow_event_kind (tr_kind transition))
                && String.eqb (e_payload e) payload) (events s));
    if (found : bool) then mret tt else tx_err (FlowCheckpointConflict request_id)
  end.

Definition FlowPersistenceOutcome : Type :=
  Z * Z * FlowCheckpointDisposition * option EventRecord.

(** The first checkpoint of a run. *)
Definition create_checkpoint (save : SaveFlowCheckpoint) (snapshot_bytes : string)
    (transition_bytes : option string) (now : Z) (override : bool) : Tx FlowPersistenceOutcome :=
  let id := le_request_id (sv_lease save) in
  if negb (sv_expected_revision save =? 0)
  then tx_err (FlowCheckpointRevisionConflict id (sv_expected_revision save) 0)
  else
    _ ← tx_lift (validate_flow_successor None (sv_snapshot save) (sv_transition save));
    _ ← insert_flow_checkpoint save snapshot_bytes override;
    event ← append_flow_transition id now (sv_transition save) transition_bytes;
    mret (1, sv_updated_at_ms save, CheckpointCreated, event).

(** [stored.terminal_result != save.terminal_result || ..]. *)
Definition terminal_columns_differ (save : SaveFlowCheckpoint) (stored : StoredFlowCheckpoint)
    (override : bool) : bool :=
  negb (bool_decide (sc_terminal_result stored = sv_terminal_result save))
  || negb (Bool.eqb (sc_terminal_cancellation_override stored) override).

(** [save.expected_revision.checked_add(1) == Some(stored.checkpoint_revision)]. *)
Definition repeats_last_write (save : SaveFlowCheckpoint) (stored : StoredFlowCheckpoint) : bool :=
  bool_decide (checked_add64 (sv_expected_revision save) 1 = Some (sc_checkpoint_revision stored)).

(** A write of the stored bytes: an exact replay of the last write. *)
Definition replay_checkpoint (save : SaveFlowCheckpoint) (stored : StoredFlowCheckpoint)
    (previous : FlowCheckpoint) (transition_bytes : option string) (override : bool)
  : Tx FlowPersistenceOutcome :=
  let id := le_request_id (sv_lease save) in
  if terminal_columns_differ save stored override then tx_err (FlowCheckpointConflict id)
  else if negb (sv_expected_revision save =? sc_checkpoint_revision stored)
          && negb (repeats_last_write save stored)
  then tx_err (FlowCheckpointRevisionConflict id (sv_expected_revision save)
                 (sc_checkpoint_revision stored))
  else
    _ ← tx_lift (validate_flow_successor (Some (fc_snapshot previous)) (sv_snapshot save) None);
    _ ← tx_lift (match sv_transition save with
                 | Some _ => validate_transition_alignment (sv_snapshot save) (sv_transition save)
                 | None => Ok tt
                 end);
    _ ← validate_exact_flow_replay id (sv_transition save) transition_bytes;
    mret (sc_checkpoint_revision stored, sc_updated_at_ms stored, CheckpointUnchanged, None).

Definition is_legacy_upgrade (save : SaveFlowCheckpoint) (previous : FlowCheckpoint) : bool :=
  bool_decide (sv_transition save = None)
  && (sn_version (fc_snapshot previous) =? 1)
  && (sn_version (sv_snapshot save) =? FLOW_SNAPSHOT_VERSION).

(** A write of different bytes: the compare-and-swap to the next revision. *)
Definition advance_checkpoint (save : SaveFlowCheckpoint) (stored : StoredFlowCheckpoint)
    (previous : FlowCheckpoint) (snapshot_bytes : string) (transition_bytes : option string)
    (now : Z) (override : bool) : Tx FlowPersistenceOutcome :=
  let id := le_request_id (sv_lease save) in
  if negb (sv_expected_revision save =? sc_checkpoint_revision stored)
  then tx_err (FlowCheckpointRevisionConflict id (sv_expected_revision save)
                 (sc_checkpoint_revision stored))
  else
    _ ← tx_lift
      (if is_legacy_upgrade save previous then
         if terminal_columns_differ save stored override then Err (FlowCheckpointConflict id)
         else map_err (fun _ => InvalidFlowCheckpoint
                                  "legacy snapshot upgrade changed durable flow state")
                (validate_snapshot_upgrade (fc_snapshot previous) (sv_snapshot save))
       else validate_flow_successor (Some (fc_snapshot previous)) (sv_snapshot save)
              (sv_transition save));
    revision ← tx_lift (ok_or (checked_add64 (sv_expected_revision save) 1)
                          FlowCheckpointRevisionOverflow);
    _ ← update_flow_checkpoint save snapshot_bytes revision override;
    event ← append_flow_transition id now (sv_transition save) transition_bytes;
    mret (revision, sv_updated_at_ms save, CheckpointUpdated, event).

Definition persist_flow_checkpoint (save : SaveFlowCheckpoint) (snapshot_bytes : string)
    (transition_bytes : option string) (now : Z) (existing : option StoredFlowCheckpoint)
    (override : bool) : Tx FlowPersistenceOutcome :=
  let id := le_request_id (sv_lease save) in
  match existing with
  | None => create_checkpoint save snapshot_bytes transition_bytes now override
  | Some stored =>
    _ ← tx_lift (validate_stored_digest id stored (sv_snapshot save));
    previous ← decode_and_validate_flow_checkpoint id stored;
    if String.eqb (sc_snapshot_bytes stored) snapshot_bytes
    then replay_checkpoint save stored previous transition_bytes override
    else advance_checkpoint save stored previous snapshot_bytes transition_bytes now override
  end.

Definition save_flow_checkpoint_tx (save : SaveFlowCheckpoint) : Tx FlowCheckpointSaveOutcome :=
  let id := le_request_id (sv_lease save) in
  _ ← tx_lift (validate_flow_request_identity id (sv_snapshot save));
  _ ← tx_lift (validate_flow_terminal_result (sv_snapshot save) (sv_transition save)
                 (sv_terminal_result save));
  snapshot_bytes ← tx_lift (encode_snapshot (sv_snapshot save));
  encoded_transition ← tx_lift
    (match sv_transition save with
     | None => Ok None
     | Some transition => let? payload := encode_transition transition in Ok (Some payload)
     end);
  now ← tx_lift (sql_integer (sv_updated_at_ms save));
  request_state ← ensure_live_flow_lease (sv_lease save) now;
  if bool_decide (request_state = ReqCancellationRequested)
     && match tr_kind <$> sv_transition save with
        | Some k => is_effect_started k
        | None => false
        end
  then tx_err (FlowEffectStartConflict id)
  else
    override ← tx_lift (terminal_cancellation_override save request_state);
    existing ← read_flow_checkpoint id;
    outcome ← persist_flow_checkpoint save snapshot_bytes encoded_transition now existing override;
    let '(revision, updated_at_ms, disposition, event) := outcome in
    mret {| so_checkpoint :=
              {| fc_request_id := id; fc_snapshot := sv_snapshot save;
                 fc_checkpoint_revision := revision; fc_updated_at_ms := updated_at_ms;
                 fc_terminal_result := sv_terminal_result save |};
            so_disposition := disposition; so_event := event |}.

Definition save_flow_checkpoint (save : SaveFlowCheckpoint) : Store -> Store * sres FlowCheckpointSaveOutcome :=
  transaction (save_flow_checkpoint_tx save).

End checkpoints.
