(* ===== verification/StoreQueue.v ===== *)
(** * The request queue of the store ([pam_store/src/store.rs])

    Acceptance, claiming, renewal, recovery, completion and cancellation of
    requests, and the reads of the queue. Each operation is the sequence of
    statements of its Rust function in the monad [Tx]; [transaction] runs it.
    A fresh lease token ([Uuid::new_v4]) is an argument of [claim]. *)

From S2P Require Import Prelude Core Policy FlowDef FlowData FlowSnapshot StoreDef.
From S2P Require Import StoreFlow.

Local Open Scope Z_scope.

Record AcceptRequest := {
  ar_request_id : RequestId;
  ar_caller_id : CallerId;
  ar_project_id : ProjectId;
  ar_idempotency_key : IdempotencyKey;
  ar_operation_kind : string;
  ar_operation : string
}.

Inductive AcceptOutcome : Type :=
| Created (request_id : RequestId) (queue_sequence : Z)
| Existing (request_id : RequestId) (state : RequestState).

Record LeasedRequest := {
  lr_lease : Lease;
  lr_queue_sequence : Z;
  lr_operation_kind : string;
  lr_operation : string
}.

Inductive CancelOutcome : Type :=
| OutcomeCancelled
| OutcomeCancellationRequested
| OutcomeAlreadyRequested
| OutcomeAlreadyTerminal (state : RequestState).

Record StoredResult := {
  st_state : RequestState;
  st_payload : string;
  st_completed_at_ms : Z
}.

Record Replay := {
  rp_events : list EventRecord;
  rp_result : option StoredResult
}.

Record RequestSnapshot := {
  rs_request_id : RequestId;
  rs_project_id : ProjectId;
  rs_queue_sequence : Z;
  rs_state : RequestState;
  rs_attempt : Z;
  rs_lease_expires_at_ms : option Z
}.

Record ProjectWorkload := { wl_queued : Z; wl_active : bool }.

Inductive ExpectedOperationKind : Type := ExpectFlowRun.

Inductive FlowAuthorizationRecoveryOutcome : Type :=
| RecoveryFailed (result : StoredResult)
| RecoveryAlreadyTerminal (result : StoredResult)
| NoLongerEligible.

(** ** Acceptance *)

Definition same_acceptance (a : AcceptRequest) (r : RequestRow) : bool :=
  String.eqb (q_caller_id r) (ar_caller_id a) && String.eqb (q_project_id r) (ar_project_id a)
  && String.eqb (q_idempotency_key r) (ar_idempotency_key a).

Definition existing_acceptance_tx (a : AcceptRequest) : Tx (option AcceptOutcome) :=
  existing ← select_request (same_acceptance a);
  match existing with
  | Some r =>
    if String.eqb (q_operation_kind r) (ar_operation_kind a)
       && String.eqb (q_operation r) (ar_operation a)
    then
      state ← tx_lift (parse_state (as_str (q_state r)));
      mret (Some (Existing (q_request_id r) state))
    else tx_err (IdempotencyConflict (q_request_id r))
  | None => mret None
  end.

(** [INSERT OR IGNORE INTO projects]. *)
Definition insert_project (p : ProjectId) : Tx unit :=
  fun s =>
    match projects s !! p with
    | Some _ => Ok (s, tt)
    | None => Ok (set_projects s (<[p := 1]> (projects s)), tt)
    end.

(** [UPDATE projects SET next_queue_sequence = next_queue_sequence + 1] and the
    [SELECT next_queue_sequence - 1] after it. *)
Definition advance_project (p : ProjectId) : Tx Z :=
  fun s =>
    match projects s !! p with
    | Some next =>
      if next + 1 <=? i64_max then Ok (set_projects s (<[p := next + 1]> (projects s)), next)
      else Err Sqlite
    | None => Err Sqlite
    end.

Definition queued_row (a : AcceptRequest) (queue_sequence now : Z) : RequestRow :=
  {| q_request_id := ar_request_id a; q_caller_id := ar_caller_id a;
     q_project_id := ar_project_id a; q_idempotency_key := ar_idempotency_key a;
     q_operation_kind := ar_operation_kind a; q_operation := ar_operation a;
     q_queue_sequence := queue_sequence; q_state := ReqQueued; q_accepted_at_ms := now;
     q_attempt := 0; q_lease_owner := None; q_lease_token := None;
     q_lease_expires_at_ms := None; q_completed_at_ms := None; q_result := None |}.

Definition accept_tx (a : AcceptRequest) (now : Z) : Tx AcceptOutcome :=
  existing ← existing_acceptance_tx a;
  match existing with
  | Some outcome => mret outcome
  | None =>
    taken ← select_request (by_id (ar_request_id a));
    match taken with
    | Some _ => tx_err (RequestIdConflict (ar_request_id a))
    | None =>
      _ ← insert_project (ar_project_id a);
      queue_sequence ← advance_project (ar_project_id a);
      _ ← insert_request (queued_row a queue_sequence now);
      _ ← append_event_tx (ar_request_id a) now "accepted" "";
      sequence ← tx_lift (unsigned_integer queue_sequence);
      mret (Created (ar_request_id a) sequence)
    end
  end.

Definition accept (a : AcceptRequest) (now_ms : Z) : Store -> Store * sres AcceptOutcome :=
  transaction
    (if String.eqb (ar_operation_kind a) FLOW_OPERATION_KIND
     then tx_err (InvalidState "flow requests require atomic authorization and acceptance")
     else now ← tx_lift (sql_integer now_ms); accept_tx a now).

(** ** Claiming *)

(** The two NOT EXISTS subqueries: no earlier unfinished request of the project
    and no active one. *)
Definition claimable (rows : list RequestRow) (queued : RequestRow) : bool :=
  state_is (q_state queued) ReqQueued
  && negb (existsb (fun earlier =>
             String.eqb (q_project_id earlier) (q_project_id queued)
             && is_unfinished_state (q_state earlier)
             && (q_queue_sequence earlier <? q_queue_sequence queued)) rows)
  && negb (existsb (fun active =>
             String.eqb (q_project_id active) (q_project_id queued)
             && is_active_state (q_state active)) rows).

(** [ORDER BY queued.accepted_at_ms, queued.rowid LIMIT 1]. *)
Definition claim_candidate (s : Store) : option RequestRow :=
  head (order_by q_accepted_at_ms (List.filter (claimable (requests s)) (requests s))).

Section queue.
Context `{Sha256} `{FlowCodec}.

(** The transaction of [claim]: the candidate, its new attempt and the expiry. *)
Definition claim_tx (owner token : string) (now_ms lease_duration_ms : Z)
  : Tx (option (RequestRow * Z * Z)) :=
  now ← tx_lift (sql_integer now_ms);
  expires_at_ms ← tx_lift (lease_expiry now_ms lease_duration_ms);
  expires_at ← tx_lift (sql_integer expires_at_ms);
  candidate ← tx_read claim_candidate;
  match candidate with
  | None => mret None
  | Some c =>
    _ ← (if String.eqb (q_operation_kind c) FLOW_OPERATION_KIND
         then _ ← validate_flow_authorization_integrity (q_request_id c); mret tt
         else mret tt);
    attempt ← tx_lift (if q_attempt c + 1 <=? i64_max then Ok (q_attempt c + 1)
                       else Err (InvalidState "attempt overflow"));
    changed ← update_requests
      (fun r => by_id (q_request_id c) r && state_is (q_state r) ReqQueued)
      (fun r => set_lease (set_attempt (set_req_state r ReqLeased) attempt)
                  (Some owner) (Some token) (Some expires_at));
    if negb (changed =? 1)%nat then tx_err (InvalidState "claim candidate changed state")
    else
      _ ← append_event_tx (q_request_id c) now "started" "";
      mret (Some (c, attempt, expires_at_ms))
  end.

(** The conversions of the returned lease come after the commit. *)
Definition claim (owner token : string) (now_ms lease_duration_ms : Z) (s : Store)
  : Store * sres (option LeasedRequest) :=
  let (s', claimed) := transaction (claim_tx owner token now_ms lease_duration_ms) s in
  (s',
   let? claimed := claimed in
   match claimed with
   | None => Ok None
   | Some (c, attempt, expires_at_ms) =>
     let? attempt := unsigned_integer attempt in
     let? sequence := unsigned_integer (q_queue_sequence c) in
     Ok (Some {| lr_lease := {| le_request_id := q_request_id c;
                                le_project_id := q_project_id c;
                                le_owner := owner; le_token := token;
                                le_attempt := attempt; le_expires_at_ms := expires_at_ms |};
                 lr_queue_sequence := sequence;
                 lr_operation_kind := q_operation_kind c;
                 lr_operation := q_operation c |})
   end).

Definition with_expiry (lease : Lease) (expires_at_ms : Z) : Lease :=
  {| le_request_id := le_request_id lease; le_project_id := le_project_id lease;
     le_owner := le_owner lease; le_token := le_token lease; le_attempt := le_attempt lease;
     le_expires_at_ms := expires_at_ms |}.

(** One UPDATE in autocommit mode. *)
Definition renew_tx (lease : Lease) (now_ms lease_duration_ms : Z) : Tx Lease :=
  now ← tx_lift (sql_integer now_ms);
  expires_at_ms ← tx_lift (lease_expiry now_ms lease_duration_ms);
  expires_at ← tx_lift (sql_integer expires_at_ms);
  changed ← update_requests (live_lease lease now)
    (fun r => set_lease r (q_lease_owner r) (q_lease_token r) (Some expires_at));
  if negb (changed =? 1)%nat then tx_err (StaleLease (le_request_id lease))
  else mret (with_expiry lease expires_at_ms).

Definition append_leased_event_tx (lease : Lease) (now_ms : Z) (kind payload : string)
  : Tx EventRecord :=
  now ← tx_lift (sql_integer now_ms);
  _ ← ensure_live_lease lease now;
  sequence ← append_event_tx (le_request_id lease) now kind payload;
  mret {| ev_sequence := sequence; ev_kind := kind; ev_payload := payload;
          ev_recorded_at_ms := now_ms |}.

Definition renew (lease : Lease) (now_ms lease_duration_ms : Z) : Store -> Store * sres Lease :=
  transaction (renew_tx lease now_ms lease_duration_ms).
Definition append_leased_event (lease : Lease) (now_ms : Z) (kind payload : string)
  : Store -> Store * sres EventRecord :=
  transaction (append_leased_event_tx lease now_ms kind payload).

(** ** Terminal flow results *)

Record ValidatedTerminalFlowResult := {
  vt_terminal : FlowTerminalResult;
  vt_cancellation_override : bool
}.

Definition validated_terminal_flow_result (request_id : RequestId) (operation_kind : string)
  : Tx (option ValidatedTerminalFlowResult) :=
  if negb (String.eqb operation_kind FLOW_OPERATION_KIND) then mret None
  else
    stored ← read_flow_checkpoint request_id;
    match stored with
    | None => mret None
    | Some stored =>
      _ ← decode_and_validate_flow_checkpoint request_id stored;
      mret ((fun terminal =>
               {| vt_terminal := terminal;
                  vt_cancellation_override := sc_terminal_cancellation_override stored |})
            <$> sc_terminal_result stored)
    end.

Definition terminal_may_override_cancellation (t : ValidatedTerminalFlowResult) : bool :=
  match ft_outcome (vt_terminal t) with
  | OutCancelled => true
  | OutBlocked => vt_cancellation_override t
  | _ => false
  end.

Definition terminal_request_resolution (outcome : RunOutcome)
  : RequestState * string * CancelOutcome :=
  match outcome with
  | OutSolved => (ReqSucceeded, "completed", OutcomeAlreadyTerminal ReqSucceeded)
  | OutUnresolved | OutBlocked => (ReqFailed, "failed", OutcomeAlreadyTerminal ReqFailed)
  | OutCancelled => (ReqCancelled, "cancelled", OutcomeCancelled)
  end.

(** [SET state = .., lease_* = NULL, completed_at_ms = .., result = ..]. *)
Definition finish_row (state : RequestState) (now : Z) (result : option string) (r : RequestRow)
  : RequestRow :=
  set_result (set_completed (clear_lease (set_req_state r state)) now) result.

(** ** Recovery *)

Inductive LeaseRecovery : Type := RecoverExpired | RecoverAll.

(** [AND lease_expires_at_ms <= ?] for expired leases, nothing for all. *)
Definition recoverable (recovery : LeaseRecovery) (now : Z) (r : RequestRow) : bool :=
  match recovery with
  | RecoverExpired => opt_le (q_lease_expires_at_ms r) now
  | RecoverAll => true
  end.

Record ActiveLease := {
  al_request_id : RequestId;
  al_state : RequestState;
  al_operation_kind : string
}.

Fixpoint collect_res {A B} (f : A -> sres B) (l : list A) : sres (list B) :=
  match l with
  | [] => Ok []
  | x :: l => let? y := f x in let? ys := collect_res f l in Ok (y :: ys)
  end.

Definition active_leases (now : Z) (recovery : LeaseRecovery) : Tx (list ActiveLease) :=
  stored ← tx_read (fun s =>
    order_by q_accepted_at_ms
      (List.filter (fun r => active_row r && recoverable recovery now r) (requests s)));
  tx_lift (collect_res (fun r =>
    let? state := parse_state (as_str (q_state r)) in
    Ok {| al_request_id := q_request_id r; al_state := state;
          al_operation_kind := q_operation_kind r |}) stored).

Definition recovered_cancellation_flow_result (active : ActiveLease)
  : Tx (option ValidatedTerminalFlowResult) :=
  terminal ← validated_terminal_flow_result (al_request_id active) (al_operation_kind active);
  mret (terminal ≫= fun t => if terminal_may_override_cancellation t then Some t else None).

Definition finalize_recovered_cancellation (request_id : RequestId) (now : Z)
    (recovery : LeaseRecovery) (terminal : option ValidatedTerminalFlowResult)
  : Tx (nat * string) :=
  let '(state, event_kind, terminal_result) :=
    match terminal with
    | None => (ReqCancelled, "cancelled", None)
    | Some t =>
      let '(state, event_kind, _) := terminal_request_resolution (ft_outcome (vt_terminal t)) in
      (state, event_kind, Some (ft_encoded_result (vt_terminal t)))
    end in
  changed ← update_requests
    (fun r => by_id request_id r && state_is (q_state r) ReqCancellationRequested
              && recoverable recovery now r)
    (fun r => finish_row state now
                (match terminal_result with Some v => Some v | None => q_result r end) r);
  mret (changed, event_kind).

Definition finalize_recovered_terminal_flow (request_id : RequestId) (now : Z)
    (recovery : LeaseRecovery) (terminal : ValidatedTerminalFlowResult) : Tx (nat * string) :=
  let '(state, event_kind, _) := terminal_request_resolution (ft_outcome (vt_terminal terminal)) in
  changed ← update_requests
    (fun r => by_id request_id r && state_is (q_state r) ReqLeased && recoverable recovery now r)
    (finish_row state now (Some (ft_encoded_result (vt_terminal terminal))));
  mret (changed, event_kind).

Definition release_lease (request_id : RequestId) (now : Z) (recovery : LeaseRecovery) : Tx nat :=
  update_requests
    (fun r => by_id request_id r && state_is (q_state r) ReqLeased && recoverable recovery now r)
    (fun r => clear_lease (set_req_state r ReqQueued)).

(** [if changed == 1 { append_event_tx(..)?; }]. *)
Definition append_if_changed (changed : nat) (request_id : RequestId) (now : Z) (kind : string)
  : Tx unit :=
  if (changed =? 1)%nat then _ ← append_event_tx request_id now kind ""; mret tt else mret tt.

(** One iteration of the loop of [recover_leases]: the rows changed. *)
Definition recover_one (now : Z) (recovery : LeaseRecovery) (active : ActiveLease) : Tx nat :=
  let id := al_request_id active in
  match al_state active with
  | ReqLeased =>
    terminal ← validated_terminal_flow_result id (al_operation_kind active);
    outcome ← (match terminal with
               | Some t => finalize_recovered_terminal_flow id now recovery t
               | None => changed ← release_lease id now recovery; mret (changed, "lease_expired")
               end);
    _ ← append_if_changed outcome.1 id now outcome.2;
    mret outcome.1
  | ReqCancellationRequested =>
    terminal ← recovered_cancellation_flow_result active;
    outcome ← finalize_recovered_cancellation id now recovery terminal;
    _ ← append_if_changed outcome.1 id now outcome.2;
    mret outcome.1
  | state => tx_err (InvalidState ("recovery selected " +:+ as_str state))
  end.

Fixpoint recover_loop (now : Z) (recovery : LeaseRecovery) (actives : list ActiveLease)
    (recovered : list RequestId) : Tx (list RequestId) :=
  match actives with
  | [] => mret recovered
  | active :: rest =>
    changed ← recover_one now recovery active;
    recover_loop now recovery rest
      (if (changed =? 1)%nat then recovered ++ [al_request_id active] else recovered)
  end.

Definition recover_leases_tx (now_ms : Z) (recovery : LeaseRecovery) : Tx (list RequestId) :=
  now ← tx_lift (sql_integer now_ms);
  actives ← active_leases now recovery;
  recover_loop now recovery actives [].

Definition recover_leases (now_ms : Z) (recovery : LeaseRecovery)
  : Store -> Store * sres (list RequestId) :=
  transaction (recover_leases_tx now_ms recovery).

Definition recover_expired_requests (now_ms : Z) : Store -> Store * sres (list RequestId) :=
  recover_leases now_ms RecoverExpired.

(** [u64::try_from(recovered.len())]: a [usize] fits. *)
Definition recovered_count (r : Store * sres (list RequestId)) : Store * sres Z :=
  (r.1, let? recovered := r.2 in Ok (Z.of_nat (length recovered))).
Definition recover_expired (now_ms : Z) (s : Store) : Store * sres Z :=
  recovered_count (recover_expired_requests now_ms s).
Definition recover_all_leases (now_ms : Z) (s : Store) : Store * sres Z :=
  recovered_count (recover_leases now_ms RecoverAll s).

(** ** Completion *)

Definition finish_tx (lease : Lease) (now_ms : Z) (terminal_state : TerminalState)
    (result : string) : Tx StoredResult :=
  let id := le_request_id lease in
  now ← tx_lift (sql_integer now_ms);
  live ← select_request (live_lease lease now);
  live ← tx_lift (ok_or live (StaleLease id));
  active_state ← tx_lift (parse_state (as_str (q_state live)));
  outcome ←
    (match active_state, q_result live with
     | ReqLeased, None =>
       match terminal_state with
       | TermCancelled =>
         tx_err (InvalidState
           "a leased request cannot finish cancelled without a durable cancellation request")
       | TermSucceeded | TermFailed =>
         let state := terminal_request_state terminal_state in
         changed ← update_requests
           (fun r => live_lease lease now r && state_is (q_state r) ReqLeased)
           (finish_row state now (Some result));
         mret (state, result, terminal_event_kind terminal_state, changed)
       end
     | ReqCancellationRequested, Some cancellation_result =>
       changed ← update_requests
         (fun r => live_lease lease now r && state_is (q_state r) ReqCancellationRequested)
         (fun r => finish_row ReqCancelled now (q_result r) r);
       mret (ReqCancelled, cancellation_result, "cancelled", changed)
     | state, _ =>
       tx_err (InvalidState ("active request has " +:+ as_str state +:+ " result shape"))
     end);
  let '(state, payload, event_kind, changed) := outcome in
  if negb (changed =? 1)%nat then tx_err (StaleLease id)
  else
    _ ← append_event_tx id now event_kind "";
    mret {| st_state := state; st_payload := payload; st_completed_at_ms := now_ms |}.

Definition finish (lease : Lease) (now_ms : Z) (terminal_state : TerminalState) (result : string)
  : Store -> Store * sres StoredResult :=
  transaction (finish_tx lease now_ms terminal_state result).

(** [state_allows_outcome && (..) && cached result == terminal_result]. *)
Definition completion_allowed (request_state : RequestState) (stored_result : option string)
    (cached : ValidatedTerminalFlowResult) (terminal_result : string) : bool :=
  (state_is request_state ReqLeased
   || (state_is request_state ReqCancellationRequested
       && terminal_may_override_cancellation cached))
  && negb (state_is request_state ReqCancellationRequested && bool_decide (stored_result = None))
  && String.eqb (ft_encoded_result (vt_terminal cached)) terminal_result.

Definition finish_terminal_flow_tx (lease : Lease) (now_ms : Z) (terminal_result : string)
  : Tx StoredResult :=
  let id := le_request_id lease in
  now ← tx_lift (sql_integer now_ms);
  live ← select_request (live_lease lease now);
  live ← tx_lift (ok_or live (StaleLease id));
  request_state ← tx_lift (parse_state (as_str (q_state live)));
  if negb (String.eqb (q_operation_kind live) FLOW_OPERATION_KIND)
  then tx_err (InvalidState "terminal flow completion requires a flow request")
  else
    cached ← validated_terminal_flow_result id (q_operation_kind live);
    cached ← tx_lift (ok_or cached (InvalidState "flow has no terminal checkpoint"));
    if negb (completion_allowed request_state (q_result live) cached terminal_result)
    then tx_err (InvalidState
           "flow completion does not match its terminal checkpoint or request state")
    else
      let '(state, event_kind, _) := terminal_request_resolution (ft_outcome (vt_terminal cached)) in
      changed ← update_requests
        (fun r => live_lease lease now r && state_is (q_state r) request_state)
        (finish_row state now (Some terminal_result));
      if negb (changed =? 1)%nat then tx_err (StaleLease id)
      else
        _ ← append_event_tx id now event_kind "";
        mret {| st_state := state; st_payload := terminal_result; st_completed_at_ms := now_ms |}.

Definition finish_terminal_flow (lease : Lease) (now_ms : Z) (terminal_result : string)
  : Store -> Store * sres StoredResult :=
  transaction (finish_terminal_flow_tx lease now_ms terminal_result).

(** [match validate_flow_authorization_integrity(..)]: whether the proof of the
    request is the corrupt one. *)
Definition authorization_is_corrupt (request_id : RequestId) : Tx bool :=
  fun s =>
    match validate_flow_authorization_integrity request_id s with
    | Err (CorruptFlowAuthorization corrupt) =>
      if String.eqb corrupt request_id then Ok (s, true) else Err (CorruptFlowAuthorization corrupt)
    | Err e => Err e
    | Ok _ => Ok (s, false)
    | Panic => Panic
    end.

Definition fail_corrupt_flow_authorization_tx (request_id : RequestId) (now_ms : Z)
    (result : string) : Tx (FlowAuthorizationRecoveryOutcome) :=
  now ← tx_lift (sql_integer now_ms);
  stored ← select_request (by_id request_id);
  stored ← tx_lift (ok_or stored (RequestNotFound request_id));
  if negb (String.eqb (q_operation_kind stored) FLOW_OPERATION_KIND)
  then tx_err (InvalidState "corrupt flow authorization recovery requires a flow request")
  else
    state ← tx_lift (parse_state (as_str (q_state stored)));
    if is_terminal_state state then
      match q_result stored, q_completed_at_ms stored with
      | Some payload, Some completed_at =>
        completed_at_ms ← tx_lift (unsigned_integer completed_at);
        mret (RecoveryAlreadyTerminal {| st_state := state; st_payload := payload;
                                         st_completed_at_ms := completed_at_ms |})
      | _, _ => tx_err (InvalidState "terminal corrupt flow recovery omitted its result")
      end
    else if negb (state_is state ReqQueued) then mret NoLongerEligible
    else
      corrupt ← authorization_is_corrupt request_id;
      if negb corrupt then mret NoLongerEligible
      else
        changed ← update_requests
          (fun r => by_id request_id r && state_is (q_state r) ReqQueued
                    && String.eqb (q_operation_kind r) "flow_run")
          (finish_row ReqFailed now (Some result));
        if negb (changed =? 1)%nat
        then tx_err (InvalidState "corrupt flow authorization recovery lost its queued state")
        else
          _ ← append_event_tx request_id now "failed" "";
          mret (RecoveryFailed {| st_state := ReqFailed; st_payload := result;
                                  st_completed_at_ms := now_ms |}).

Definition fail_corrupt_flow_authorization (request_id : RequestId) (now_ms : Z) (result : string)
  : Store -> Store * sres FlowAuthorizationRecoveryOutcome :=
  transaction (fail_corrupt_flow_authorization_tx request_id now_ms result).

(** ** Cancellation *)

Definition ensure_expected_target_kind (request_id : RequestId) (operation_kind : string)
    (expected : option ExpectedOperationKind) : sres unit :=
  if match expected with
     | None => true
     | Some ExpectFlowRun => String.eqb operation_kind FLOW_OPERATION_KIND
     end
  then Ok tt else Err (RequestNotFound request_id).

(** The [if matches!(state, ..) && let Some(terminal) = .. && ..] of [cancel]. *)
Definition terminal_before_cancel (request_id : RequestId) (operation_kind : string)
    (state : RequestState) : Tx (option ValidatedTerminalFlowResult) :=
  if is_active_state state then
    terminal ← validated_terminal_flow_result request_id operation_kind;
    mret (terminal ≫= fun t =>
            if state_is state ReqLeased || terminal_may_override_cancellation t
            then Some t else None)
  else mret None.

Definition cancel_tx (request_id : RequestId) (now_ms : Z) (result : string)
    (expected : option ExpectedOperationKind) : Tx CancelOutcome :=
  now ← tx_lift (sql_integer now_ms);
  stored ← select_request (by_id request_id);
  stored ← tx_lift (ok_or stored (RequestNotFound request_id));
  _ ← tx_lift (ensure_expected_target_kind request_id (q_operation_kind stored) expected);
  state ← tx_lift (parse_state (as_str (q_state stored)));
  terminal ← terminal_before_cancel request_id (q_operation_kind stored) state;
  match terminal with
  | Some t =>
    let '(terminal_state, event_kind, outcome) :=
      terminal_request_resolution (ft_outcome (vt_terminal t)) in
    changed ← update_requests (fun r => by_id request_id r && active_row r)
      (finish_row terminal_state now (Some (ft_encoded_result (vt_terminal t))));
    if negb (changed =? 1)%nat
    then tx_err (InvalidState "terminal flow cancellation race changed no request")
    else _ ← append_event_tx request_id now event_kind ""; mret outcome
  | None =>
    let changed_event (m : Tx nat) (event_kind : string) (outcome : CancelOutcome) :=
      changed ← m;
      if negb (changed =? 1)%nat
      then tx_err (InvalidState "cancellation transition changed no request")
      else _ ← append_event_tx request_id now event_kind ""; mret outcome in
    match state with
    | ReqQueued =>
      changed_event
        (update_requests (fun r => by_id request_id r && state_is (q_state r) ReqQueued)
           (fun r => set_result (set_completed (set_req_state r ReqCancelled) now) (Some result)))
        "cancelled" OutcomeCancelled
    | ReqLeased =>
      changed_event
        (update_requests (fun r => by_id request_id r && state_is (q_state r) ReqLeased)
           (fun r => set_result (set_req_state r ReqCancellationRequested) (Some result)))
        "cancellation_requested" OutcomeCancellationRequested
    | ReqCancellationRequested => mret OutcomeAlreadyRequested
    | ReqSucceeded | ReqFailed | ReqCancelled => mret (OutcomeAlreadyTerminal state)
    end
  end.

Definition cancel (request_id : RequestId) (now_ms : Z) (result : string)
    (expected : option ExpectedOperationKind) : Store -> Store * sres CancelOutcome :=
  transaction (cancel_tx request_id now_ms result expected).

End queue.

(** ** Reads *)

(** [stored.result], when it fits the state. *)
Definition stored_result (r : RequestRow) (state : RequestState) : sres (option StoredResult) :=
  match state, q_result r, q_completed_at_ms r with
  | (ReqSucceeded | ReqFailed | ReqCancelled), Some payload, Some completed_at =>
    let? completed_at_ms := unsigned_integer completed_at in
    Ok (Some {| st_state := state; st_payload := payload; st_completed_at_ms := completed_at_ms |})
  | (ReqQueued | ReqLeased), None, None
  | ReqCancellationRequested, Some _, None => Ok None
  | _, _, _ => Err (InvalidState "result does not match request state")
  end.

Definition event_record (e : EventRow) : sres EventRecord :=
  let? sequence := unsigned_integer (e_sequence e) in
  let? recorded := unsigned_integer (e_recorded_at_ms e) in
  Ok {| ev_sequence := sequence; ev_kind := e_kind e; ev_payload := e_payload e;
        ev_recorded_at_ms := recorded |}.

Definition replay (s : Store) (request_id : RequestId) (after_sequence : Z)
    (expected : option ExpectedOperationKind) : sres Replay :=
  let? stored := ok_or (List.find (by_id request_id) (requests s)) (RequestNotFound request_id) in
  let? _ := ensure_expected_target_kind request_id (q_operation_kind stored) expected in
  let? state := parse_state (as_str (q_state stored)) in
  let? result := stored_result stored state in
  let? after := sql_integer after_sequence in
  let? evs := collect_res event_record
    (order_by e_sequence
       (List.filter (fun e => event_of request_id e && (after <? e_sequence e)) (events s))) in
  Ok {| rp_events := evs; rp_result := result |}.

Definition snapshot (s : Store) (request_id : RequestId)
    (expected : option ExpectedOperationKind) : sres RequestSnapshot :=
  let? stored := ok_or (List.find (by_id request_id) (requests s)) (RequestNotFound request_id) in
  let? _ := ensure_expected_target_kind request_id (q_operation_kind stored) expected in
  let? sequence := unsigned_integer (q_queue_sequence stored) in
  let? state := parse_state (as_str (q_state stored)) in
  let? attempt := unsigned_integer (q_attempt stored) in
  let? expires := match q_lease_expires_at_ms stored with
                  | None => Ok None
                  | Some v => let? v := unsigned_integer v in Ok (Some v)
                  end in
  Ok {| rs_request_id := request_id; rs_project_id := q_project_id stored;
        rs_queue_sequence := sequence; rs_state := state; rs_attempt := attempt;
        rs_lease_expires_at_ms := expires |}.

Definition queued_behind (s : Store) (request_id : RequestId) : sres Z :=
  let? position := ok_or (List.find (by_id request_id) (requests s))
                     (RequestNotFound request_id) in
  unsigned_integer (Z.of_nat (length (List.filter (fun r =>
    String.eqb (q_project_id r) (q_project_id position)
    && (q_queue_sequence position <? q_queue_sequence r)
    && state_is (q_state r) ReqQueued) (requests s)))).

Definition is_status_kind (kind : string) : bool :=
  String.eqb kind STATUS_OPERATION_KIND || String.eqb kind LEGACY_STATUS_OPERATION_KIND.

Definition project_workload (s : Store) (project_id : ProjectId) : sres ProjectWorkload :=
  let rows := List.filter (fun r => String.eqb (q_project_id r) project_id
                                    && negb (is_status_kind (q_operation_kind r))) (requests s) in
  let? queued := unsigned_integer
    (Z.of_nat (length (List.filter (fun r => state_is (q_state r) ReqQueued) rows))) in
  Ok {| wl_queued := queued; wl_active := existsb active_row rows |}.
