(* ===== verification/StoreAudit.v ===== *)
(** * The audit ledger of the store ([pam_store/src/store.rs])

    Audit events are redacted again, validated and appended with a sequence
    that is never reused; the daily rollup outlives them; export reads a project
    in pages up to a high-water mark, and pruning deletes what is past its
    retention. *)

From S2P Require Import Prelude Core Policy FlowDef FlowData Redact StoreDef StoreQueue.

Local Open Scope Z_scope.

Definition AUDIT_EXPORT_VERSION : Z := 1.
Definition MAX_AUDIT_ACTION_BYTES : Z := 128.
Definition MAX_AUDIT_BATCH_SIZE : Z := 1000.
Definition MAX_AUDIT_CALLER_ID_BYTES : Z := 256.
Definition MAX_AUDIT_DECISION_BYTES : Z := 64.
Definition MAX_AUDIT_DETAIL_BYTES : Z := 16 * 1024.
Definition MAX_AUDIT_EVENT_ID_BYTES : Z := 256.
Definition MAX_AUDIT_OUTCOME_BYTES : Z := 64.
Definition MAX_AUDIT_PROJECT_ID_BYTES : Z := 256.
Definition DAY_MS : Z := 86400000.
Definition MAX_ACTIVITY_DAYS : nat := 400.

Record AppendAuditEvent := {
  ae_event_id : string;
  ae_project_id : ProjectId;
  ae_caller_id : CallerId;
  ae_action : string;
  ae_decision : string;
  ae_outcome : string;
  ae_redacted_detail : string;
  ae_occurred_at_ms : Z;
  ae_retain_until_ms : Z
}.

(** [AuditEventRecord]: the stored row and the remembered project root. *)
Record AuditEventRecord := { aer_event : AuditRow; aer_project_root : option string }.

Record AuditExport := {
  ax_version : Z;
  ax_project_id : ProjectId;
  ax_after_sequence : Z;
  ax_through_sequence : Z;
  ax_next_after_sequence : Z;
  ax_has_more : bool;
  ax_events : list AuditEventRecord
}.

Record AuditPruneOutcome := { apo_deleted : Z; apo_has_more : bool }.
Record RecentAuditEvents := { rae_events : list AuditEventRecord; rae_truncated : bool }.

(** ** Validation *)

Definition in_spans (spans : list (Z * Z)) (c : Z) : bool :=
  existsb (fun '(lo, hi) => (lo <=? c) && (c <=? hi)) spans.

Definition is_unsafe_audit_character (c : Z) : bool :=
  is_control c
  || in_spans
       [(0xAD, 0xAD); (0x600, 0x605); (0x61C, 0x61C); (0x6DD, 0x6DD); (0x70F, 0x70F);
        (0x890, 0x891); (0x8E2, 0x8E2); (0x180E, 0x180E); (0x200B, 0x200F); (0x202A, 0x202E);
        (0x2060, 0x2064); (0x2066, 0x206F); (0xFEFF, 0xFEFF); (0xFFF9, 0xFFFB);
        (0x110BD, 0x110BD); (0x110CD, 0x110CD); (0x13430, 0x1343F); (0x1BCA0, 0x1BCA3);
        (0x1D173, 0x1D17A); (0xE0001, 0xE0001); (0xE0020, 0xE007F)] c.

Definition validate_audit_identifier (value : string) (maximum_bytes : Z) (field : string)
  : sres unit :=
  if str_is_empty value || (len value >? maximum_bytes)
     || existsb is_unsafe_audit_character (chars value)
  then Err (InvalidAuditEvent field) else Ok tt.

Definition validate_audit_event (event : AppendAuditEvent) : sres unit :=
  let? _ := validate_audit_identifier (ae_event_id event) MAX_AUDIT_EVENT_ID_BYTES "event ID" in
  let? _ := validate_audit_identifier (ae_project_id event) MAX_AUDIT_PROJECT_ID_BYTES "project ID" in
  let? _ := validate_audit_identifier (ae_caller_id event) MAX_AUDIT_CALLER_ID_BYTES "caller ID" in
  let? _ := validate_audit_identifier (ae_action event) MAX_AUDIT_ACTION_BYTES "action" in
  let? _ := validate_audit_identifier (ae_decision event) MAX_AUDIT_DECISION_BYTES "decision" in
  let? _ := validate_audit_identifier (ae_outcome event) MAX_AUDIT_OUTCOME_BYTES "outcome" in
  if (len (ae_redacted_detail event) >? MAX_AUDIT_DETAIL_BYTES)
     || existsb is_unsafe_audit_character (chars (ae_redacted_detail event))
  then Err (InvalidAuditEvent "detail")
  else if ae_retain_until_ms event <? ae_occurred_at_ms event
  then Err (InvalidAuditEvent "retention precedes occurrence")
  else Ok tt.

Definition validate_audit_limit (limit : Z) : sres unit :=
  if (limit =? 0) || (limit >? MAX_AUDIT_BATCH_SIZE)
  then Err (InvalidAuditBatchLimit limit MAX_AUDIT_BATCH_SIZE) else Ok tt.

(** ** Appending *)

Definition with_detail (event : AppendAuditEvent) (detail : string) : AppendAuditEvent :=
  {| ae_event_id := ae_event_id event; ae_project_id := ae_project_id event;
     ae_caller_id := ae_caller_id event; ae_action := ae_action event;
     ae_decision := ae_decision event; ae_outcome := ae_outcome event;
     ae_redacted_detail := detail; ae_occurred_at_ms := ae_occurred_at_ms event;
     ae_retain_until_ms := ae_retain_until_ms event |}.

(** [StoredAuditEvent::into_record]. *)
Definition into_record (row : AuditRow) : sres AuditEventRecord :=
  let? _ := unsigned_integer (au_sequence row) in
  let? _ := unsigned_integer (au_occurred_at_ms row) in
  let? _ := unsigned_integer (au_retain_until_ms row) in
  Ok {| aer_event := row; aer_project_root := None |}.

Definition audit_event_matches (row : AuditRow) (event : AppendAuditEvent) : bool :=
  String.eqb (au_event_id row) (ae_event_id event)
  && String.eqb (au_project_id row) (ae_project_id event)
  && String.eqb (au_caller_id row) (ae_caller_id event)
  && String.eqb (au_action row) (ae_action event)
  && String.eqb (au_decision row) (ae_decision event)
  && String.eqb (au_outcome row) (ae_outcome event)
  && String.eqb (au_redacted_detail row) (ae_redacted_detail event)
  && (au_occurred_at_ms row =? ae_occurred_at_ms event)
  && (au_retain_until_ms row =? ae_retain_until_ms event).

Definition audit_row (event : AppendAuditEvent) (sequence occurred_at retain_until : Z) : AuditRow :=
  {| au_sequence := sequence; au_event_id := ae_event_id event;
     au_project_id := ae_project_id event; au_caller_id := ae_caller_id event;
     au_action := ae_action event; au_decision := ae_decision event;
     au_outcome := ae_outcome event; au_redacted_detail := ae_redacted_detail event;
     au_occurred_at_ms := occurred_at; au_retain_until_ms := retain_until |}.

(** [INSERT INTO audit_events ..]: the next AUTOINCREMENT sequence (an error
    when there is none left), the CHECKs, which repeat the validation, and the
    UNIQUE event id. *)
Definition insert_audit_event (event : AppendAuditEvent) (occurred_at retain_until : Z) : Tx Z :=
  fun s =>
    let sequence := audit_sequence (audit s) + 1 in
    if (sequence <=? i64_max) && (0 <=? occurred_at) && (occurred_at <=? retain_until)
       && negb (existsb (fun row => String.eqb (au_event_id row) (ae_event_id event))
                  (audit_events (audit s)))
    then Ok (set_audit s
               {| audit_events := audit_events (audit s)
                                  ++ [audit_row event sequence occurred_at retain_until];
                  audit_sequence := sequence; activity_days := activity_days (audit s) |},
             sequence)
    else Err Sqlite.

(** [INSERT INTO activity_days .. ON CONFLICT DO UPDATE SET events = events + 1]. *)
Definition count_activity_day (day_start : Z) : Tx unit :=
  fun s =>
    let counted := default 0 (activity_days (audit s) !! day_start) + 1 in
    if counted <=? i64_max
    then Ok (set_audit s
               {| audit_events := audit_events (audit s); audit_sequence := audit_sequence (audit s);
                  activity_days := <[day_start := counted]> (activity_days (audit s)) |}, tt)
    else Err Sqlite.

(** [redact_audit_detail] cannot fail, but it can panic. *)
Definition redacted (detail : string) : sres string :=
  map_err (fun e : Empty_set => match e with end) (redact_audit_detail detail).

Definition append_audit_event_tx (event : AppendAuditEvent) : Tx AuditEventRecord :=
  detail ← tx_lift (redacted (ae_redacted_detail event));
  let event := with_detail event detail in
  _ ← tx_lift (validate_audit_event event);
  occurred_at ← tx_lift (sql_integer (ae_occurred_at_ms event));
  retain_until ← tx_lift (sql_integer (ae_retain_until_ms event));
  existing ← tx_read (fun s =>
    List.find (fun row => String.eqb (au_event_id row) (ae_event_id event)) (audit_events (audit s)));
  match existing with
  | Some row =>
    existing ← tx_lift (into_record row);
    if audit_event_matches row event then mret existing else tx_err AuditEventAlreadyExists
  | None =>
    rowid ← insert_audit_event event occurred_at retain_until;
    sequence ← tx_lift (unsigned_integer rowid);
    _ ← count_activity_day (occurred_at - occurred_at `mod` DAY_MS);
    mret {| aer_event := audit_row event sequence (ae_occurred_at_ms event) (ae_retain_until_ms event);
            aer_project_root := None |}
  end.

Definition append_audit_event (event : AppendAuditEvent) : Store -> Store * sres AuditEventRecord :=
  transaction (append_audit_event_tx event).

(** ** Reading *)

(** [LIMIT n]. *)
Definition limit_rows {A} (n : Z) (l : list A) : list A := take (Z.to_nat n) l.

(** [COALESCE(MAX(sequence), 0)]. *)
Definition max_audit_sequence (rows : list AuditRow) : Z :=
  foldr (fun row => Z.max (au_sequence row)) 0 rows.

(** The page of the export query: in sequence order after [after] through
    [through], at most [fetch] rows. *)
Definition audit_page (s : Store) (project_id : ProjectId) (after through fetch : Z)
  : list AuditRow :=
  limit_rows fetch
    (order_by au_sequence
       (List.filter (fun row => String.eqb (au_project_id row) project_id
                                && (after <? au_sequence row) && (au_sequence row <=? through))
          (audit_events (audit s)))).

(** [i64::try_from(sequence)]. *)
Definition cursor_integer (value : Z) : sres Z :=
  if value <=? i64_max then Ok value else Err (AuditCursorOutOfRange value).

Definition export_audit_events (s : Store) (project_id : ProjectId) (after_sequence : Z)
    (through_sequence : option Z) (limit : Z) : sres AuditExport :=
  let? _ := validate_audit_identifier project_id MAX_AUDIT_PROJECT_ID_BYTES "project ID" in
  let? _ := validate_audit_limit limit in
  let? after := cursor_integer after_sequence in
  let? _ := match through_sequence with
            | Some through =>
              if through <? after_sequence then Err (InvalidAuditCursorRange after_sequence through)
              else Ok tt
            | None => Ok tt
            end in
  let maximum := max_audit_sequence (audit_events (audit s)) in
  let? maximum_sequence := unsigned_integer maximum in
  let? through := match through_sequence with
                  | Some sequence =>
                    if sequence >? maximum_sequence
                    then Err (AuditHighWaterAhead sequence maximum_sequence)
                    else cursor_integer sequence
                  | None => Ok maximum
                  end in
  if through <? after_sequence then Err (InvalidAuditCursorRange after_sequence through)
  else
    let? fetched := collect_res into_record (audit_page s project_id after through (limit + 1)) in
    let page := limit_rows limit fetched in
    Ok {| ax_version := AUDIT_EXPORT_VERSION; ax_project_id := project_id;
          ax_after_sequence := after_sequence; ax_through_sequence := through;
          ax_next_after_sequence :=
            match last page with Some e => au_sequence (aer_event e) | None => after_sequence end;
          ax_has_more := (limit <? Z.of_nat (length fetched)); ax_events := page |}.

Definition with_root (s : Store) (record : AuditEventRecord) : AuditEventRecord :=
  {| aer_event := aer_event record;
     aer_project_root := project_roots s !! au_project_id (aer_event record) |}.

Definition recent_audit_events (s : Store) (limit : Z) : sres RecentAuditEvents :=
  let? _ := validate_audit_limit limit in
  let rows := limit_rows (limit + 1) (reverse (order_by au_sequence (audit_events (audit s)))) in
  let? fetched := collect_res (fun row => let? r := into_record row in Ok (with_root s r)) rows in
  Ok {| rae_events := limit_rows limit fetched;
        rae_truncated := (limit <? Z.of_nat (length fetched)) |}.

(** The newest days since [since], oldest first; [max(0)] on both columns. *)
Definition activity_days_since (s : Store) (since_ms : Z) : sres (list (Z * Z)) :=
  let? since := sql_integer since_ms in
  let days := order_by fst (List.filter (fun d => since <=? d.1) (map_to_list (activity_days (audit s)))) in
  Ok (reverse ((fun d => (Z.max 0 d.1, Z.max 0 d.2)) <$> take MAX_ACTIVITY_DAYS (reverse days))).

(** ** Pruning *)

Definition prunable (project_id : ProjectId) (now : Z) (row : AuditRow) : bool :=
  String.eqb (au_project_id row) project_id && (au_retain_until_ms row <=? now).

Definition set_audit_events (s : Store) (rows : list AuditRow) : Store :=
  set_audit s {| audit_events := rows; audit_sequence := audit_sequence (audit s);
                 activity_days := activity_days (audit s) |}.

(** [DELETE FROM audit_events WHERE sequence IN (..)]. *)
Definition delete_audit_rows (doomed : list AuditRow) : Tx unit :=
  fun s => Ok (set_audit_events s
    (List.filter (fun row => negb (existsb (fun d => au_sequence d =? au_sequence row) doomed))
       (audit_events (audit s))), tt).

Definition prune_audit_events_tx (project_id : ProjectId) (now_ms limit : Z) : Tx AuditPruneOutcome :=
  _ ← tx_lift (validate_audit_identifier project_id MAX_AUDIT_PROJECT_ID_BYTES "project ID");
  _ ← tx_lift (validate_audit_limit limit);
  now ← tx_lift (sql_integer now_ms);
  doomed ← tx_read (fun s =>
    limit_rows limit (order_by au_sequence (List.filter (prunable project_id now) (audit_events (audit s)))));
  _ ← delete_audit_rows doomed;
  has_more ← tx_read (fun s => existsb (prunable project_id now) (audit_events (audit s)));
  mret {| apo_deleted := Z.of_nat (length doomed); apo_has_more := has_more |}.

Definition prune_audit_events (project_id : ProjectId) (now_ms limit : Z)
  : Store -> Store * sres AuditPruneOutcome :=
  transaction (prune_audit_events_tx project_id now_ms limit).
