(* ===== verification/StoreAccess.v ===== *)
(** * Callers, grants and approvals in the store ([pam_store/src/store.rs])

    Registration, authentication and revocation of callers; grants and the
    policy version of their project; the authorization of a request against the
    stored grants, and the approvals it asks for, consumes and expires. A fresh
    identifier ([Uuid::new_v4]) is an argument. *)

From S2P Require Import Prelude Core Policy FlowDef FlowData StoreDef StoreFlow StoreQueue.
From S2P Require Import StoreAudit.

Local Open Scope Z_scope.

(** ** Callers *)

(** [length(text)]: the characters before the first NUL. *)
Definition sql_length (s : string) : Z :=
  Z.of_nat (length (chars (before_first (Ascii.eqb (ascii_of_nat 0)) s))).

Definition caller_kinds : list string := ["cli"; "gui"; "coding-agent"; "local-application"].

Definition caller_check (id : CallerId) (c : CallerRow) : bool :=
  (1 <=? sql_length id) && (sql_length id <=? 256)
  && (len (ca_credential_digest c) =? 32) && (0 <=? ca_registered_at_ms c)
  && is_none_or (ca_revoked_at_ms c) (Z.leb (ca_registered_at_ms c))
  && is_none_or (ca_kind c) (fun k => existsb (String.eqb k) caller_kinds).

(** An INSERT or UPDATE of one row of [callers]. *)
Definition write_caller (id : CallerId) (c : CallerRow) : Tx unit :=
  fun s => if caller_check id c then Ok (set_callers s (<[id := c]> (callers s)), tt) else Err Sqlite.

Record CallerRegistration := {
  cr_caller_id : CallerId;
  cr_registered_at_ms : Z;
  cr_revoked_at_ms : option Z;
  cr_caller_kind : option string
}.

Inductive CallerAuthentication : Type := Authenticated | UnknownCaller | RevokedCaller | InvalidCredential.
Inductive CallerRevocation : Type := CallerRevoked | CallerAlreadyRevoked | CallerUnknown.

Definition caller_active (s : Store) (id : CallerId) : bool :=
  match callers s !! id with Some c => bool_decide (ca_revoked_at_ms c = None) | None => false end.

Section callers.
Context `{Sha256}.

Definition credential_digest (credential : string) : string := sha256 credential.

Definition register_caller_tx (caller_id : CallerId) (credential : string) (kind : option string)
    (now_ms : Z) : Tx CallerRegistration :=
  if negb (credential_is_valid credential) then tx_err InvalidCallerCredential
  else
    registered_at ← tx_lift (sql_integer now_ms);
    let row := {| ca_credential_digest := credential_digest credential;
                  ca_registered_at_ms := registered_at; ca_revoked_at_ms := None; ca_kind := kind |} in
    existing ← tx_read (fun s => callers s !! caller_id);
    _ ← (match ca_revoked_at_ms <$> existing with
         | None => write_caller caller_id row
         | Some None => tx_err (CallerAlreadyRegistered caller_id)
         | Some (Some _) => write_caller caller_id row
         end);
    mret {| cr_caller_id := caller_id; cr_registered_at_ms := now_ms; cr_revoked_at_ms := None;
            cr_caller_kind := kind |}.

Definition register_caller (caller_id : CallerId) (credential : string) (kind : option string)
    (now_ms : Z) : Store -> Store * sres CallerRegistration :=
  transaction (register_caller_tx caller_id credential kind now_ms).

Definition authenticate_caller (s : Store) (caller_id : CallerId) (credential : string)
  : sres CallerAuthentication :=
  if negb (credential_is_valid credential) then Ok InvalidCredential
  else match callers s !! caller_id with
       | None => Ok UnknownCaller
       | Some c =>
         match ca_revoked_at_ms c with
         | Some _ => Ok RevokedCaller
         | None =>
           if constant_time_equal (ca_credential_digest c) (credential_digest credential)
           then Ok Authenticated else Ok InvalidCredential
         end
       end.

End callers.

Definition set_revoked (c : CallerRow) (revoked_at : Z) : CallerRow :=
  {| ca_credential_digest := ca_credential_digest c; ca_registered_at_ms := ca_registered_at_ms c;
     ca_revoked_at_ms := Some revoked_at; ca_kind := ca_kind c |}.

(** A SELECT and an UPDATE in autocommit mode on the worker's only connection. *)
Definition revoke_caller_tx (caller_id : CallerId) (now_ms : Z) : Tx CallerRevocation :=
  revoked_at ← tx_lift (sql_integer now_ms);
  state ← tx_read (fun s => callers s !! caller_id);
  match state with
  | None => mret CallerUnknown
  | Some c =>
    match ca_revoked_at_ms c with
    | Some _ => mret CallerAlreadyRevoked
    | None =>
      if revoked_at <? ca_registered_at_ms c
      then tx_err (InvalidState "caller revocation predates registration")
      else _ ← write_caller caller_id (set_revoked c revoked_at); mret CallerRevoked
    end
  end.
Definition revoke_caller (caller_id : CallerId) (now_ms : Z)
  : Store -> Store * sres CallerRevocation := transaction (revoke_caller_tx caller_id now_ms).

Definition caller_is_active (caller_id : CallerId) : Tx bool := tx_read (fun s => caller_active s caller_id).

(** ** Grants *)

Record ProjectPolicy := { pp_project_id : ProjectId; pp_version : Z; pp_updated_at_ms : Z }.
Record PutGrant := { pg_grant : Grant; pg_created_at_ms : Z }.
Inductive GrantRevocation : Type := GrantRevoked | GrantAlreadyRevoked | GrantUnknown.

Definition opt_sql_integer (o : option Z) : sres (option Z) :=
  match o with None => Ok None | Some v => let? v := sql_integer v in Ok (Some v) end.
Definition opt_unsigned_integer (o : option Z) : sres (option Z) :=
  match o with None => Ok None | Some v => let? v := unsigned_integer v in Ok (Some v) end.

Definition grant_row (grant : Grant) (expires_at revoked_at : option Z) (created_at : Z) : GrantRow :=
  {| gr_grant_id := g_id grant; gr_caller_id := g_caller grant; gr_project_id := g_project grant;
     gr_capability := g_capability grant;
     gr_resource_kind := match g_resource grant with Any => "any" | Exact _ => "exact" end;
     gr_resource := match g_resource grant with Any => None | Exact r => Some r end;
     gr_effect := match g_effect grant with Allow => "allow" | Deny => "deny" end;
     gr_approval := match g_approval grant with ApprovalNone => "none" | ApprovalOnce => "once" end;
     gr_expires_at_ms := expires_at; gr_revoked_at_ms := revoked_at; gr_created_at_ms := created_at |}.

Definition bounded_text (value : string) (maximum : Z) : bool :=
  (1 <=? sql_length value) && (sql_length value <=? maximum).

Definition grant_check (g : GrantRow) : bool :=
  bounded_text (gr_capability g) 128
  && existsb (String.eqb (gr_resource_kind g)) ["any"; "exact"]
  && is_none_or (gr_resource g) (fun r => bounded_text r 1024)
  && existsb (String.eqb (gr_effect g)) ["allow"; "deny"]
  && existsb (String.eqb (gr_approval g)) ["none"; "once"]
  && is_none_or (gr_expires_at_ms g) (Z.leb 0) && is_none_or (gr_revoked_at_ms g) (Z.leb 0)
  && (0 <=? gr_created_at_ms g)
  && (String.eqb (gr_resource_kind g) "any" && bool_decide (gr_resource g = None)
      || String.eqb (gr_resource_kind g) "exact" && bool_decide (is_Some (gr_resource g))).

Definition grant_by_id (id : GrantId) (g : GrantRow) : bool := String.eqb (gr_grant_id g) id.

(** [INSERT INTO capability_grants ..]: primary key, CHECKs and foreign keys. *)
Definition insert_grant (g : GrantRow) : Tx unit :=
  fun s =>
    if grant_check g && negb (existsb (grant_by_id (gr_grant_id g)) (capability_grants s))
       && bool_decide (is_Some (callers s !! gr_caller_id g))
       && bool_decide (is_Some (projects s !! gr_project_id g))
    then Ok (set_capability_grants s (capability_grants s ++ [g]), tt)
    else Err Sqlite.

(** [INSERT INTO project_policies .. ON CONFLICT DO UPDATE SET version = version + 1]. *)
Definition bump_policy (project : ProjectId) (now : Z) : Tx unit :=
  fun s =>
    let version := match project_policies s !! project with Some (v, _) => v + 1 | None => 1 end in
    if (version <=? i64_max) && (0 <=? now)
    then Ok (set_project_policies s (<[project := (version, now)]> (project_policies s)), tt)
    else Err Sqlite.

(** [SELECT version FROM project_policies WHERE project_id = ?1]. *)
Definition policy_version (project : ProjectId) : Tx Z :=
  row ← tx_read (fun s => project_policies s !! project);
  match row with Some (version, _) => mret version | None => tx_err Sqlite end.

Definition put_grant_tx (put : PutGrant) : Tx ProjectPolicy :=
  let grant := pg_grant put in
  created_at ← tx_lift (sql_integer (pg_created_at_ms put));
  expires_at ← tx_lift (opt_sql_integer (g_expires_at_ms grant));
  revoked_at ← tx_lift (opt_sql_integer (g_revoked_at_ms grant));
  exists_ ← tx_read (fun s => existsb (grant_by_id (g_id grant)) (capability_grants s));
  if (exists_ : bool) then tx_err (GrantAlreadyExists (g_id grant))
  else
    _ ← insert_project (g_project grant);
    _ ← bump_policy (g_project grant) created_at;
    _ ← insert_grant (grant_row grant expires_at revoked_at created_at);
    version ← policy_version (g_project grant);
    version ← tx_lift (unsigned_integer version);
    mret {| pp_project_id := g_project grant; pp_version := version;
            pp_updated_at_ms := pg_created_at_ms put |}.
Definition put_grant (put : PutGrant) : Store -> Store * sres ProjectPolicy :=
  transaction (put_grant_tx put).

Definition parse_resource_scope (kind : string) (resource : option string) : sres ResourceScope :=
  match resource with
  | None => if String.eqb kind "any" then Ok Any
            else Err (InvalidState "invalid stored policy resource scope")
  | Some r => if String.eqb kind "exact"
              then match resource_parse r with
                   | Ok r => Ok (Exact r)
                   | _ => Err (InvalidState "invalid stored policy resource")
                   end
              else Err (InvalidState "invalid stored policy resource scope")
  end.
Definition parse_effect (effect : string) : sres Effect :=
  if String.eqb effect "allow" then Ok Allow
  else if String.eqb effect "deny" then Ok Deny
  else Err (InvalidState "invalid stored grant effect").
Definition parse_approval_requirement (value : string) : sres ApprovalRequirement :=
  if String.eqb value "none" then Ok ApprovalNone
  else if String.eqb value "once" then Ok ApprovalOnce
  else Err (InvalidState "invalid stored approval requirement").

(** The common part of the two row decoders; [active_grants] leaves out the
    revocation, which its query has excluded. *)
Definition decode_grant (g : GrantRow) (capability : CapabilityName) (revoked_at : option Z) : sres Grant :=
  let? resource := parse_resource_scope (gr_resource_kind g) (gr_resource g) in
  let? effect := parse_effect (gr_effect g) in
  let? approval := parse_approval_requirement (gr_approval g) in
  let? expires_at := opt_unsigned_integer (gr_expires_at_ms g) in
  let? revoked_at := opt_unsigned_integer revoked_at in
  Ok {| g_id := gr_grant_id g; g_caller := gr_caller_id g; g_project := gr_project_id g;
        g_capability := capability; g_resource := resource; g_effect := effect;
        g_approval := approval; g_expires_at_ms := expires_at; g_revoked_at_ms := revoked_at |}.

(** [ORDER BY created_at_ms, grant_id]. *)
Fixpoint insert_grant_row (g : GrantRow) (l : list GrantRow) : list GrantRow :=
  match l with
  | [] => [g]
  | h :: l' =>
    if (gr_created_at_ms g <? gr_created_at_ms h)
       || ((gr_created_at_ms g =? gr_created_at_ms h) && String.leb (gr_grant_id g) (gr_grant_id h))
    then g :: l else h :: insert_grant_row g l'
  end.

Definition active_grants (s : Store) (caller_id : CallerId) (project_id : ProjectId) (now_ms : Z)
  : sres (list Grant) :=
  let? now := sql_integer now_ms in
  collect_res (fun g =>
      match capability_parse (gr_capability g) with
      | Ok capability => decode_grant g capability None
      | _ => Err (InvalidState "invalid stored capability")
      end)
    (foldr insert_grant_row []
       (List.filter (fun g => String.eqb (gr_caller_id g) caller_id
                              && String.eqb (gr_project_id g) project_id
                              && bool_decide (gr_revoked_at_ms g = None)
                              && is_none_or (gr_expires_at_ms g) (Z.ltb now))
          (capability_grants s))).

Definition revoke_row (id : GrantId) (revoked_at : Z) (g : GrantRow) : GrantRow :=
  if grant_by_id id g then
    {| gr_grant_id := gr_grant_id g; gr_caller_id := gr_caller_id g;
       gr_project_id := gr_project_id g; gr_capability := gr_capability g;
       gr_resource_kind := gr_resource_kind g; gr_resource := gr_resource g;
       gr_effect := gr_effect g; gr_approval := gr_approval g;
       gr_expires_at_ms := gr_expires_at_ms g; gr_revoked_at_ms := Some revoked_at;
       gr_created_at_ms := gr_created_at_ms g |}
  else g.

(** [UPDATE capability_grants SET revoked_at_ms = ?2 WHERE grant_id = ?1]. *)
Definition update_revoked (id : GrantId) (revoked_at : Z) : Tx unit :=
  fun s => if 0 <=? revoked_at
           then Ok (set_capability_grants s (revoke_row id revoked_at <$> capability_grants s), tt)
           else Err Sqlite.

(** [UPDATE project_policies SET version = version + 1 ..], which changes
    nothing when the project has no policy. *)
Definition update_policy (project : ProjectId) (now : Z) : Tx unit :=
  row ← tx_read (fun s => project_policies s !! project);
  match row with Some _ => bump_policy project now | None => mret tt end.

Definition revoke_grant_tx (grant_id : GrantId) (now_ms : Z) : Tx GrantRevocation :=
  revoked_at ← tx_lift (sql_integer now_ms);
  grant ← tx_read (fun s => List.find (grant_by_id grant_id) (capability_grants s));
  match grant with
  | None => mret GrantUnknown
  | Some g =>
    match gr_revoked_at_ms g with
    | Some _ => mret GrantAlreadyRevoked
    | None =>
      _ ← update_revoked grant_id revoked_at;
      _ ← update_policy (gr_project_id g) revoked_at;
      mret GrantRevoked
    end
  end.
Definition revoke_grant (grant_id : GrantId) (now_ms : Z) : Store -> Store * sres GrantRevocation :=
  transaction (revoke_grant_tx grant_id now_ms).
