(* ===== verification/StoreAuth.v ===== *)
(** * Authorization and approvals in the store ([pam_store/src/store.rs])

    One policy evaluation against the stored grants, with the approval it may
    ask for, consume or expire and the audit event recorded with it; the
    authorization of a flow run together with its acceptance and stored proof;
    the rechecks at an effect boundary; and the decision of an approval. *)

From S2P Require Import Prelude Core Policy FlowDef FlowData FlowSnapshot StoreDef.
From S2P Require Import StoreFlow StoreQueue StoreAudit StoreAccess.

Local Open Scope Z_scope.

Record AuthorizationRequest := {
  az_caller_id : CallerId;
  az_project_id : ProjectId;
  az_capability : CapabilityName;
  az_resource : ResourceName;
  az_approval_id : option ApprovalId
}.

Record AuthorizationAudit := {
  aa_event_id : string;
  aa_action : string;
  aa_redacted_detail : string;
  aa_retain_until_ms : Z
}.

Inductive AuthorizationOutcome : Type :=
| AuthAllowed
| AuthDenied
| AuthApprovalRequired (approval_id : ApprovalId) (expires_at_ms : Z)
| AuthApprovalDenied
| AuthApprovalExpired.

Record AuthorizeFlowRun := {
  af_accept : AcceptRequest;
  af_resource : ResourceName;
  af_approval_id : option ApprovalId;
  af_audit : AuthorizationAudit;
  af_schema_approval_required : bool
}.

Inductive FlowAuthorizationOutcome : Type :=
| FlowAccepted (outcome : AcceptOutcome)
| FlowDenied
| FlowApprovalRequired (approval_id : ApprovalId) (expires_at_ms : Z)
| FlowApprovalDenied
| FlowApprovalExpired.

Inductive FlowEffectAuthorization : Type := EffectAllowed | EffectDenied.

(** [pam_store]'s [ApprovalDecision], distinct from the engine's. *)
Inductive StoreApprovalDecision : Type := DecideApprove | DecideDeny.
Inductive ApprovalDecisionOutcome : Type := DecisionApproved | DecisionDenied | DecisionExpired.

#[export] Instance AuthorizationOutcome_eq_dec : EqDecision AuthorizationOutcome.
Proof. solve_decision. Defined.
#[export] Instance FlowEffectAuthorization_eq_dec : EqDecision FlowEffectAuthorization.
Proof. solve_decision. Defined.

(** ** Rows *)

Definition approval_states : list string := ["requested"; "approved"; "denied"; "consumed"; "expired"].

(** The CHECK over the state and the decision columns. *)
Definition approval_shape (a : ApprovalRow) : bool :=
  let decided := bool_decide (is_Some (ap_decided_by a)) && bool_decide (is_Some (ap_decided_at_ms a)) in
  let undecided := bool_decide (ap_decided_by a = None) && bool_decide (ap_decided_at_ms a = None) in
  let consumed := bool_decide (is_Some (ap_consumed_at_ms a)) in
  (String.eqb (ap_state a) "requested" && undecided && negb consumed)
  || (existsb (String.eqb (ap_state a)) ["approved"; "denied"] && decided && negb consumed)
  || (String.eqb (ap_state a) "consumed" && decided && consumed)
  || (String.eqb (ap_state a) "expired" && negb consumed && (undecided || decided)).

Definition approval_check (a : ApprovalRow) : bool :=
  bounded_text (ap_capability a) 128 && bounded_text (ap_resource a) 1024
  && (len (ap_effect_fingerprint a) =? 32)
  && existsb (String.eqb (ap_state a)) approval_states
  && (0 <=? ap_requested_at_ms a) && (ap_requested_at_ms a <? ap_expires_at_ms a)
  && is_none_or (ap_decided_at_ms a) (Z.leb (ap_requested_at_ms a))
  && is_none_or (ap_consumed_at_ms a) (Z.leb (ap_requested_at_ms a))
  && approval_shape a
  && is_none_or (ap_flow_request_id a) (fun id => bounded_text id 256).

(** [INSERT INTO approvals ..]. *)
Definition insert_approval (id : ApprovalId) (a : ApprovalRow) : Tx unit :=
  fun s =>
    if approval_check a && bool_decide (approvals s !! id = None)
       && bool_decide (is_Some (callers s !! ap_caller_id a))
       && bool_decide (is_Some (projects s !! ap_project_id a))
    then Ok (set_approvals s (<[id := a]> (approvals s)), tt)
    else Err Sqlite.

(** [UPDATE approvals SET .. WHERE approval_id = ?1 AND p]: the rows changed.
    A new [decided_by] must be a caller. *)
Definition update_approval (id : ApprovalId) (p : ApprovalRow -> bool) (f : ApprovalRow -> ApprovalRow)
  : Tx nat :=
  fun s =>
    match approvals s !! id with
    | Some a =>
      if p a then
        if approval_check (f a)
           && is_none_or (ap_decided_by (f a)) (fun c => bool_decide (is_Some (callers s !! c)))
        then Ok (set_approvals s (<[id := f a]> (approvals s)), 1%nat)
        else Err Sqlite
      else Ok (s, 0%nat)
    | None => Ok (s, 0%nat)
    end.

Definition set_ap_state (a : ApprovalRow) (state : string) : ApprovalRow :=
  {| ap_caller_id := ap_caller_id a; ap_project_id := ap_project_id a;
     ap_capability := ap_capability a; ap_resource := ap_resource a;
     ap_effect_fingerprint := ap_effect_fingerprint a; ap_state := state;
     ap_requested_at_ms := ap_requested_at_ms a; ap_expires_at_ms := ap_expires_at_ms a;
     ap_decided_by := ap_decided_by a; ap_decided_at_ms := ap_decided_at_ms a;
     ap_consumed_at_ms := ap_consumed_at_ms a; ap_flow_request_id := ap_flow_request_id a |}.
Definition set_consumed (now : Z) (a : ApprovalRow) : ApprovalRow :=
  {| ap_caller_id := ap_caller_id a; ap_project_id := ap_project_id a;
     ap_capability := ap_capability a; ap_resource := ap_resource a;
     ap_effect_fingerprint := ap_effect_fingerprint a; ap_state := "consumed";
     ap_requested_at_ms := ap_requested_at_ms a; ap_expires_at_ms := ap_expires_at_ms a;
     ap_decided_by := ap_decided_by a; ap_decided_at_ms := ap_decided_at_ms a;
     ap_consumed_at_ms := Some now; ap_flow_request_id := ap_flow_request_id a |}.
Definition set_decided (state : string) (approver : CallerId) (now : Z) (a : ApprovalRow) : ApprovalRow :=
  {| ap_caller_id := ap_caller_id a; ap_project_id := ap_project_id a;
     ap_capability := ap_capability a; ap_resource := ap_resource a;
     ap_effect_fingerprint := ap_effect_fingerprint a; ap_state := state;
     ap_requested_at_ms := ap_requested_at_ms a; ap_expires_at_ms := ap_expires_at_ms a;
     ap_decided_by := Some approver; ap_decided_at_ms := Some now;
     ap_consumed_at_ms := ap_consumed_at_ms a; ap_flow_request_id := ap_flow_request_id a |}.

Definition is_pending_state (state : string) : bool :=
  String.eqb state "requested" || String.eqb state "approved".

(** [UPDATE approvals SET state = 'expired' WHERE approval_id = ?1]. *)
Definition expire_approval (id : ApprovalId) : Tx nat :=
  update_approval id (fun _ => true) (fun a => set_ap_state a "expired").

Definition unit_request (caller : CallerId) (project : ProjectId) (capability : CapabilityName)
    (resource : ResourceName) (approval : option ApprovalId) : AuthorizationRequest :=
  {| az_caller_id := caller; az_project_id := project; az_capability := capability;
     az_resource := resource; az_approval_id := approval |}.

(** ** Grants of a request *)

Definition load_grants (request : AuthorizationRequest) : Tx (list Grant) :=
  rows ← tx_read (fun s =>
    List.filter (fun g => String.eqb (gr_caller_id g) (az_caller_id request)
                          && String.eqb (gr_project_id g) (az_project_id request)
                          && String.eqb (gr_capability g) (az_capability request))
      (capability_grants s));
  tx_lift (collect_res (fun g => decode_grant g (az_capability request) (gr_revoked_at_ms g)) rows).

Definition evaluate_request (grants : list Grant) (request : AuthorizationRequest) (now_ms : Z)
  : Decision :=
  evaluate grants (az_caller_id request) (az_project_id request) (az_capability request)
    (az_resource request) now_ms.

Section authorization.
Context `{Sha256}.

Definition request_fingerprint (request : AuthorizationRequest) : EffectFingerprint :=
  fingerprint_compute (az_caller_id request) (az_project_id request) (az_capability request)
    (az_resource request).

(** ** Approvals *)

Definition requested_row (request : AuthorizationRequest) (now expires_at : Z)
    (flow_request : option RequestId) : ApprovalRow :=
  {| ap_caller_id := az_caller_id request; ap_project_id := az_project_id request;
     ap_capability := az_capability request; ap_resource := az_resource request;
     ap_effect_fingerprint := request_fingerprint request; ap_state := "requested";
     ap_requested_at_ms := now; ap_expires_at_ms := expires_at; ap_decided_by := None;
     ap_decided_at_ms := None; ap_consumed_at_ms := None; ap_flow_request_id := flow_request |}.

(** The part that asks for a new approval under a fresh identifier. *)
Definition request_approval (uuid : string) (request : AuthorizationRequest) (now now_ms ttl_ms : Z)
    (flow_request : option RequestId) : Tx AuthorizationOutcome :=
  if ttl_ms =? 0 then tx_err (InvalidState "approval lifetime must be non-zero")
  else
    expires_at_ms ← tx_lift (ok_or (checked_add64 now_ms ttl_ms) ApprovalExpiryOverflow);
    expires_at ← tx_lift (sql_integer expires_at_ms);
    _ ← insert_approval uuid (requested_row request now expires_at flow_request);
    mret (AuthApprovalRequired uuid expires_at_ms).

(** The comparison of the stored columns with the request. *)
Definition approval_matches (a : ApprovalRow) (request : AuthorizationRequest)
    (flow_request : option RequestId) : bool :=
  String.eqb (ap_caller_id a) (az_caller_id request)
  && String.eqb (ap_project_id a) (az_project_id request)
  && String.eqb (ap_capability a) (az_capability request)
  && String.eqb (ap_resource a) (az_resource request)
  && bool_decide (ap_flow_request_id a = flow_request)
  && constant_time_equal (ap_effect_fingerprint a) (request_fingerprint request).

(** [resolve_approval] ([flow_request = None]) and [resolve_flow_approval]
    ([flow_request = Some ..]): the same statements but for the flow request
    an approval must be bound to. *)
Definition resolve_bound_approval (approval_id : ApprovalId) (request : AuthorizationRequest)
    (flow_request : option RequestId) (now now_ms : Z) : Tx AuthorizationOutcome :=
  approval ← tx_read (fun s => approvals s !! approval_id);
  match approval with
  | None => mret AuthDenied
  | Some a =>
    if negb (approval_matches a request flow_request) then mret AuthDenied
    else
      expires_at_ms ← tx_lift (unsigned_integer (ap_expires_at_ms a));
      if (expires_at_ms <=? now_ms) && is_pending_state (ap_state a)
      then _ ← expire_approval approval_id; mret AuthApprovalExpired
      else if String.eqb (ap_state a) "requested"
      then mret (AuthApprovalRequired approval_id expires_at_ms)
      else if String.eqb (ap_state a) "approved" then
        updated ← update_approval approval_id
          (fun x => String.eqb (ap_state x) "approved"
                    && match flow_request with
                       | None => true
                       | Some id => opt_eqb (ap_flow_request_id x) id
                       end) (set_consumed now);
        mret (if (updated =? 1)%nat then AuthAllowed else AuthDenied)
      else if String.eqb (ap_state a) "denied" then mret AuthApprovalDenied
      else if String.eqb (ap_state a) "expired" then mret AuthApprovalExpired
      else if String.eqb (ap_state a) "consumed" then mret AuthDenied
      else tx_err (InvalidState "invalid stored approval state")
  end.

Definition resolve_approval (approval_id : ApprovalId) (request : AuthorizationRequest)
    (now now_ms : Z) : Tx AuthorizationOutcome :=
  resolve_bound_approval approval_id request None now now_ms.
Definition resolve_flow_approval (approval_id : ApprovalId) (request : AuthorizationRequest)
    (request_id : RequestId) (now now_ms : Z) : Tx AuthorizationOutcome :=
  resolve_bound_approval approval_id request (Some request_id) now now_ms.

Definition authorize_with_approval (uuid : string) (request : AuthorizationRequest)
    (now now_ms ttl_ms : Z) : Tx AuthorizationOutcome :=
  match az_approval_id request with
  | None => request_approval uuid request now now_ms ttl_ms None
  | Some approval_id => resolve_approval approval_id request now now_ms
  end.

(** [ORDER BY requested_at_ms DESC, approval_id DESC LIMIT 1]. *)
Definition newer_approval (x y : ApprovalId * ApprovalRow) : bool :=
  (ap_requested_at_ms y.2 <? ap_requested_at_ms x.2)
  || ((ap_requested_at_ms x.2 =? ap_requested_at_ms y.2) && String.leb y.1 x.1).
Definition newest_approval (l : list (ApprovalId * ApprovalRow)) : option (ApprovalId * ApprovalRow) :=
  foldr (fun x best => match best with
                       | None => Some x
                       | Some y => if newer_approval x y then Some x else Some y
                       end) None l.

Definition reusable (request : AuthorizationRequest) (request_id : RequestId) (now : Z)
    (a : ApprovalRow) : bool :=
  String.eqb (ap_caller_id a) (az_caller_id request)
  && String.eqb (ap_project_id a) (az_project_id request)
  && String.eqb (ap_capability a) (az_capability request)
  && String.eqb (ap_resource a) (az_resource request)
  && String.eqb (ap_effect_fingerprint a) (request_fingerprint request)
  && opt_eqb (ap_flow_request_id a) request_id
  && is_pending_state (ap_state a) && (now <? ap_expires_at_ms a).

Definition reusable_flow_approval (request : AuthorizationRequest) (request_id : RequestId)
    (now_ms : Z) : Tx (option (ApprovalId * Z)) :=
  now ← tx_lift (sql_integer now_ms);
  found ← tx_read (fun s =>
    newest_approval (List.filter (fun x => reusable request request_id now x.2)
                       (map_to_list (approvals s))));
  match found with
  | None => mret None
  | Some (id, a) => expires ← tx_lift (unsigned_integer (ap_expires_at_ms a)); mret (Some (id, expires))
  end.

Definition authorize_flow_with_approval (uuid : string) (request : AuthorizationRequest)
    (request_id : RequestId) (now now_ms ttl_ms : Z) : Tx AuthorizationOutcome :=
  match az_approval_id request with
  | None =>
    reused ← reusable_flow_approval request request_id now_ms;
    match reused with
    | Some (approval_id, expires_at_ms) => mret (AuthApprovalRequired approval_id expires_at_ms)
    | None => request_approval uuid request now now_ms ttl_ms (Some request_id)
    end
  | Some approval_id => resolve_flow_approval approval_id request request_id now now_ms
  end.

(** ** One authorization *)

Definition authorize_tx (uuid : string) (request : AuthorizationRequest) (now now_ms ttl_ms : Z)
  : Tx AuthorizationOutcome :=
  active ← caller_is_active (az_caller_id request);
  if negb active then mret AuthDenied
  else
    grants ← load_grants request;
    match evaluate_request grants request now_ms with
    | Allowed => mret AuthAllowed
    | Denied => mret AuthDenied
    | ApprovalRequired => authorize_with_approval uuid request now now_ms ttl_ms
    end.

Definition authorization_audit_outcome (outcome : AuthorizationOutcome) : string * string :=
  match outcome with
  | AuthAllowed => ("allow", "authorized")
  | AuthDenied => ("deny", "forbidden")
  | AuthApprovalRequired _ _ => ("challenge", "approval_required")
  | AuthApprovalDenied => ("deny", "approval_denied")
  | AuthApprovalExpired => ("deny", "approval_expired")
  end.

Definition audit_of (audit : AuthorizationAudit) (caller : CallerId) (project : ProjectId)
    (result : string * string) (now_ms : Z) : AppendAuditEvent :=
  {| ae_event_id := aa_event_id audit; ae_project_id := project; ae_caller_id := caller;
     ae_action := aa_action audit; ae_decision := result.1; ae_outcome := result.2;
     ae_redacted_detail := aa_redacted_detail audit; ae_occurred_at_ms := now_ms;
     ae_retain_until_ms := aa_retain_until_ms audit |}.

Definition authorize (uuid : string) (request : AuthorizationRequest) (now_ms ttl_ms : Z)
  : Store -> Store * sres AuthorizationOutcome :=
  transaction (now ← tx_lift (sql_integer now_ms); authorize_tx uuid request now now_ms ttl_ms).

Definition authorize_audited_tx (uuid : string) (request : AuthorizationRequest)
    (audit : AuthorizationAudit) (now_ms ttl_ms : Z) : Tx AuthorizationOutcome :=
  now ← tx_lift (sql_integer now_ms);
  outcome ← authorize_tx uuid request now now_ms ttl_ms;
  _ ← append_audit_event_tx (audit_of audit (az_caller_id request) (az_project_id request)
                               (authorization_audit_outcome outcome) now_ms);
  mret outcome.
Definition authorize_audited (uuid : string) (request : AuthorizationRequest)
    (audit : AuthorizationAudit) (now_ms ttl_ms : Z) : Store -> Store * sres AuthorizationOutcome :=
  transaction (authorize_audited_tx uuid request audit now_ms ttl_ms).

(** The policy part of [consume_effect_approval_audited]. *)
Definition consume_effect_outcome (request : AuthorizationRequest) (now now_ms : Z)
  : Tx AuthorizationOutcome :=
  active ← caller_is_active (az_caller_id request);
  if negb active then mret AuthDenied
  else
    grants ← load_grants request;
    match evaluate_request grants request now_ms with
    | Denied => mret AuthDenied
    | _ =>
      match az_approval_id request with
      | None => tx_err (InvalidState "connector effect capability is missing its approval receipt")
      | Some approval_id => resolve_approval approval_id request now now_ms
      end
    end.

Definition consume_effect_approval_audited_tx (request : AuthorizationRequest)
    (audit : AuthorizationAudit) (now_ms : Z) : Tx AuthorizationOutcome :=
  now ← tx_lift (sql_integer now_ms);
  outcome ← consume_effect_outcome request now now_ms;
  _ ← append_audit_event_tx (audit_of audit (az_caller_id request) (az_project_id request)
                               (authorization_audit_outcome outcome) now_ms);
  mret outcome.
Definition consume_effect_approval_audited (request : AuthorizationRequest)
    (audit : AuthorizationAudit) (now_ms : Z) : Store -> Store * sres AuthorizationOutcome :=
  transaction (consume_effect_approval_audited_tx request audit now_ms).

(** ** Flow runs *)

Definition accept_outcome_request_id (outcome : AcceptOutcome) : RequestId :=
  match outcome with Created id _ | Existing id _ => id end.

Definition flow_authorization_audit_outcome (outcome : FlowAuthorizationOutcome) : string * string :=
  match outcome with
  | FlowAccepted _ => ("allow", "authorized")
  | FlowDenied => ("deny", "forbidden")
  | FlowApprovalRequired _ _ => ("challenge", "approval_required")
  | FlowApprovalDenied => ("deny", "approval_denied")
  | FlowApprovalExpired => ("deny", "approval_expired")
  end.

(** [unreachable!] on [Allowed]. *)
Definition flow_authorization_outcome (outcome : AuthorizationOutcome) : sres FlowAuthorizationOutcome :=
  match outcome with
  | AuthAllowed => Panic
  | AuthDenied => Ok FlowDenied
  | AuthApprovalRequired id expires => Ok (FlowApprovalRequired id expires)
  | AuthApprovalDenied => Ok FlowApprovalDenied
  | AuthApprovalExpired => Ok FlowApprovalExpired
  end.

(** [CapabilityName::parse(FLOW_CAPABILITY_NAME).expect(..)]. *)
Definition flow_capability : sres CapabilityName :=
  match capability_parse FLOW_CAPABILITY_NAME with Ok c => Ok c | _ => Panic end.

Definition flow_authorization_check (f : FlowAuthorizationRow) : bool :=
  bounded_text (fa_capability f) 128 && bounded_text (fa_resource f) 1024
  && (len (fa_effect_fingerprint f) =? 32)
  && existsb (String.eqb (fa_authorization_kind f)) ["unconditional"; "approved"]
  && (0 <=? fa_authorized_at_ms f)
  && (String.eqb (fa_authorization_kind f) "unconditional" && bool_decide (fa_approval_id f = None)
      || String.eqb (fa_authorization_kind f) "approved" && bool_decide (is_Some (fa_approval_id f)))
  && (negb (fa_schema_approval_required f) || String.eqb (fa_authorization_kind f) "approved").

(** [INSERT INTO flow_authorizations ..]: primary key, CHECKs, the UNIQUE
    approval and the foreign keys. *)
Definition insert_flow_authorization_row (id : RequestId) (f : FlowAuthorizationRow) : Tx unit :=
  fun s =>
    if flow_authorization_check f && bool_decide (flow_authorizations s !! id = None)
       && existsb (by_id id) (requests s)
       && is_none_or (fa_approval_id f) (fun a =>
            bool_decide (is_Some (approvals s !! a))
            && negb (existsb (fun x => opt_eqb (fa_approval_id x.2) a)
                       (map_to_list (flow_authorizations s))))
    then Ok (set_flow_authorizations s (<[id := f]> (flow_authorizations s)), tt)
    else Err Sqlite.

Definition flow_authorization_row (request : AuthorizeFlowRun) (capability : CapabilityName)
    (approval_id : option ApprovalId) (now : Z) : FlowAuthorizationRow :=
  {| fa_capability := capability; fa_resource := af_resource request;
     fa_effect_fingerprint := fingerprint_compute (ar_caller_id (af_accept request))
                                (ar_project_id (af_accept request)) capability (af_resource request);
     fa_authorization_kind := match approval_id with Some _ => "approved" | None => "unconditional" end;
     fa_approval_id := approval_id;
     fa_schema_approval_required := af_schema_approval_required request;
     fa_authorized_at_ms := now |}.

Definition insert_flow_authorization (request_id : RequestId) (request : AuthorizeFlowRun)
    (capability : CapabilityName) (approval_id : option ApprovalId) (now : Z) : Tx unit :=
  insert_flow_authorization_row request_id (flow_authorization_row request capability approval_id now).

Definition policy_request (request : AuthorizeFlowRun) (capability : CapabilityName)
  : AuthorizationRequest :=
  unit_request (ar_caller_id (af_accept request)) (ar_project_id (af_accept request)) capability
    (af_resource request) (af_approval_id request).

(** The tail of [authorize_new_flow_run]: accept and store the proof. *)
Definition accept_authorized (request : AuthorizeFlowRun) (capability : CapabilityName)
    (approval_required : bool) (now : Z) : Tx FlowAuthorizationOutcome :=
  accepted ← accept_tx (af_accept request) now;
  approval_id ← tx_lift
    (if approval_required then
       let? id := ok_or (af_approval_id request)
                    (InvalidState "approved flow omitted its consumed receipt") in Ok (Some id)
     else Ok None);
  _ ← insert_flow_authorization (accept_outcome_request_id accepted) request capability approval_id now;
  mret (FlowAccepted accepted).

Definition authorize_new_flow_run (uuid : string) (request : AuthorizeFlowRun)
    (now now_ms ttl_ms : Z) : Tx FlowAuthorizationOutcome :=
  active ← caller_is_active (ar_caller_id (af_accept request));
  if negb active then mret FlowDenied
  else
    capability ← tx_lift flow_capability;
    let policy := policy_request request capability in
    grants ← load_grants policy;
    match evaluate_request grants policy now_ms with
    | Denied => mret FlowDenied
    | decision =>
      let approval_required := af_schema_approval_required request
                               || match decision with ApprovalRequired => true | _ => false end in
      if approval_required then
        approval ← authorize_flow_with_approval uuid policy (ar_request_id (af_accept request))
                     now now_ms ttl_ms;
        if bool_decide (approval = AuthAllowed)
        then accept_authorized request capability true now
        else tx_lift (flow_authorization_outcome approval)
      else accept_authorized request capability false now
    end.

(** The fresh policy evaluation of a stored proof. *)
Definition proof_allowed (approval : option ApprovalId) (schema_approval_required : bool)
    (decision : Decision) : bool :=
  match approval, decision with
  | _, Denied | None, ApprovalRequired => false
  | None, Allowed => negb schema_approval_required
  | Some _, (Allowed | ApprovalRequired) => true
  end.

Definition validate_loaded_flow_authorization (request_id : RequestId)
    (proof : StoredFlowAuthorization) (now_ms : Z) : Tx FlowEffectAuthorization :=
  _ ← (match sa_approval_id proof with
       | Some approval_id => validate_consumed_flow_receipt request_id proof approval_id
       | None => mret tt
       end);
  active ← caller_is_active (sa_caller_id proof);
  if negb active then mret EffectDenied
  else
    let policy := unit_request (sa_caller_id proof) (sa_project_id proof) (sa_capability proof)
                    (sa_resource proof) (sa_approval_id proof) in
    grants ← load_grants policy;
    mret (if proof_allowed (sa_approval_id proof) (sa_schema_approval_required proof)
               (evaluate_request grants policy now_ms)
          then EffectAllowed else EffectDenied).

Definition terminal_existing (existing : AcceptOutcome) : bool :=
  match existing with Existing _ state => is_terminal_state state | Created _ _ => false end.

(** The repetition of an accepted flow: its proof is checked again. *)
Definition authorize_existing_flow_run (request : AuthorizeFlowRun) (capability : CapabilityName)
    (existing : AcceptOutcome) (now_ms : Z) : Tx FlowAuthorizationOutcome :=
  let request_id := accept_outcome_request_id existing in
  if negb (String.eqb request_id (ar_request_id (af_accept request)))
  then tx_err (RequestIdConflict (ar_request_id (af_accept request)))
  else fun s =>
    match validate_flow_authorization_integrity request_id s with
    | Err (CorruptFlowAuthorization id) =>
      if terminal_existing existing then Ok (s, FlowAccepted existing)
      else Err (CorruptFlowAuthorization id)
    | Err e => Err e
    | Panic => Panic
    | Ok (s, proof) =>
      if String.eqb (sa_capability proof) capability && String.eqb (sa_resource proof) (af_resource request)
         && Bool.eqb (sa_schema_approval_required proof) (af_schema_approval_required request)
      then
        (allowed ← validate_loaded_flow_authorization request_id proof now_ms;
         mret (if bool_decide (allowed = EffectAllowed) then FlowAccepted existing else FlowDenied)) s
      else Ok (s, FlowDenied)
    end.

Definition authorize_flow_run_tx (uuid : string) (request : AuthorizeFlowRun) (now_ms ttl_ms : Z)
  : Tx FlowAuthorizationOutcome :=
  if negb (String.eqb (ar_operation_kind (af_accept request)) FLOW_OPERATION_KIND)
  then tx_err (InvalidState "flow authorization requires an exact flow operation")
  else
    now ← tx_lift (sql_integer now_ms);
    capability ← tx_lift flow_capability;
    existing ← existing_acceptance_tx (af_accept request);
    outcome ← (match existing with
               | Some existing => authorize_existing_flow_run request capability existing now_ms
               | None => authorize_new_flow_run uuid request now now_ms ttl_ms
               end);
    _ ← append_audit_event_tx (audit_of (af_audit request) (ar_caller_id (af_accept request))
                                 (ar_project_id (af_accept request))
                                 (flow_authorization_audit_outcome outcome) now_ms);
    mret outcome.
Definition authorize_flow_run (uuid : string) (request : AuthorizeFlowRun) (now_ms ttl_ms : Z)
  : Store -> Store * sres FlowAuthorizationOutcome :=
  transaction (authorize_flow_run_tx uuid request now_ms ttl_ms).

(** ** Effect boundaries of a flow *)

Definition validate_flow_effect_authorization_tx (lease : Lease) (now_ms : Z)
  : Tx FlowEffectAuthorization :=
  now ← tx_lift (sql_integer now_ms);
  state ← ensure_live_flow_lease lease now;
  if negb (state_is state ReqLeased) then tx_err (StaleLease (le_request_id lease))
  else
    proof ← validate_flow_authorization_integrity (le_request_id lease);
    if negb (String.eqb (sa_project_id proof) (le_project_id lease))
    then tx_err (StaleLease (le_request_id lease))
    else validate_loaded_flow_authorization (le_request_id lease) proof now_ms.
Definition validate_flow_effect_authorization (lease : Lease) (now_ms : Z)
  : Store -> Store * sres FlowEffectAuthorization :=
  transaction (validate_flow_effect_authorization_tx lease now_ms).

Definition validate_flow_operation_resource_tx (lease : Lease) (resource : ResourceName) (now_ms : Z)
  : Tx unit :=
  now ← tx_lift (sql_integer now_ms);
  state ← ensure_live_flow_lease lease now;
  if negb (is_active_state state) then tx_err (StaleLease (le_request_id lease))
  else
    proof ← validate_flow_authorization_integrity (le_request_id lease);
    if negb (String.eqb (sa_project_id proof) (le_project_id lease))
       || negb (String.eqb (sa_resource proof) resource)
    then tx_err (CorruptFlowAuthorization (le_request_id lease))
    else mret tt.
Definition validate_flow_operation_resource (lease : Lease) (resource : ResourceName) (now_ms : Z)
  : Store -> Store * sres unit :=
  transaction (validate_flow_operation_resource_tx lease resource now_ms).

End authorization.

(** ** Deciding an approval *)

(** [approval_id = ?1 AND (?2 IS NULL OR (project_id = ?2 AND caller_id = ?3))]. *)
Definition decidable_by (project_id : option ProjectId) (approver_id : CallerId) (a : ApprovalRow) : bool :=
  match project_id with
  | None => true
  | Some p => String.eqb (ap_project_id a) p && String.eqb (ap_caller_id a) approver_id
  end.

(** The [match] that answers without writing, or lets a requested approval through. *)
Definition earlier_decision (a : ApprovalRow) (approver_id : CallerId)
    (decision : StoreApprovalDecision) : sres (option ApprovalDecisionOutcome) :=
  let by_approver := opt_eqb (ap_decided_by a) approver_id in
  match decision with
  | DecideApprove =>
    if String.eqb (ap_state a) "approved" && by_approver then Ok (Some DecisionApproved)
    else if String.eqb (ap_state a) "expired" then Ok (Some DecisionExpired)
    else if String.eqb (ap_state a) "requested" && bool_decide (ap_decided_by a = None) then Ok None
    else Err InvalidApprovalState
  | DecideDeny =>
    if String.eqb (ap_state a) "denied" && by_approver then Ok (Some DecisionDenied)
    else if String.eqb (ap_state a) "expired" then Ok (Some DecisionExpired)
    else if String.eqb (ap_state a) "requested" && bool_decide (ap_decided_by a = None) then Ok None
    else Err InvalidApprovalState
  end.

Definition decide_approval_tx (approval_id : ApprovalId) (project_id : option ProjectId)
    (approver_id : CallerId) (decision : StoreApprovalDecision) (now_ms : Z)
  : Tx ApprovalDecisionOutcome :=
  now ← tx_lift (sql_integer now_ms);
  active ← caller_is_active approver_id;
  if negb active then tx_err InvalidApprovalState
  else
    approval ← tx_read (fun s =>
      match approvals s !! approval_id with
      | Some a => if decidable_by project_id approver_id a then Some a else None
      | None => None
      end);
    match approval with
    | None => tx_err (ApprovalNotFound approval_id)
    | Some a =>
      answered ← tx_lift (earlier_decision a approver_id decision);
      match answered with
      | Some outcome => mret outcome
      | None =>
        expires_at_ms ← tx_lift (unsigned_integer (ap_expires_at_ms a));
        if expires_at_ms <=? now_ms
        then _ ← expire_approval approval_id; mret DecisionExpired
        else
          let '(state, outcome) := match decision with
                                   | DecideApprove => ("approved", DecisionApproved)
                                   | DecideDeny => ("denied", DecisionDenied)
                                   end in
          _ ← update_approval approval_id (fun x => String.eqb (ap_state x) "requested")
                (set_decided state approver_id now);
          mret outcome
      end
    end.
Definition decide_approval (approval_id : ApprovalId) (project_id : option ProjectId)
    (approver_id : CallerId) (decision : StoreApprovalDecision) (now_ms : Z)
  : Store -> Store * sres ApprovalDecisionOutcome :=
  transaction (decide_approval_tx approval_id project_id approver_id decision now_ms).
