(* ===== verification/StoreView.v ===== *)
(** * Project reads, remembered roots and resets ([pam_store/src/store.rs])

    The bounded read of a project's queue, the history of flow runs, the root
    the daemon has learned for a project, and the two resets that delete the
    access tables and the history. *)

From S2P Require Import Prelude Core Policy FlowDef FlowData FlowSnapshot StoreDef.
From S2P Require Import StoreFlow StoreQueue StoreAudit StoreAccess.

Local Open Scope Z_scope.

Definition MAX_PROJECT_CURRENT_QUEUED : nat := 64.
Definition MAX_FLOW_RUN_HISTORY : Z := 50.
Definition MAX_PROJECT_ROOT_BYTES : Z := 4 * 1024.

Record ProjectRequestSummary := {
  ps_request_id : RequestId;
  ps_operation_kind : string;
  ps_state : RequestState;
  ps_queue_sequence : Z;
  ps_accepted_at_ms : Z;
  ps_completed_at_ms : option Z
}.

Record ProjectCurrent := {
  pc_queued : list ProjectRequestSummary;
  pc_queued_truncated : bool;
  pc_active : option ProjectRequestSummary;
  pc_latest_terminal : option ProjectRequestSummary
}.

Record FlowRunSummary := {
  fs_request_id : RequestId;
  fs_project_id : ProjectId;
  fs_project_root : option string;
  fs_state : RequestState;
  fs_definition_digest : string;
  fs_outcome : option RunOutcome;
  fs_accepted_at_ms : Z;
  fs_updated_at_ms : Z;
  fs_completed_at_ms : option Z
}.

(** ** The current state of a project *)

(** The columns of the row come with its state, which [parse_state] reads back. *)
Definition decode_project_request (r : RequestRow) : sres ProjectRequestSummary :=
  let? state := parse_state (as_str (q_state r)) in
  let? completed_at := opt_unsigned_integer (q_completed_at_ms r) in
  let? _ := match state, completed_at with
            | (ReqQueued | ReqLeased | ReqCancellationRequested), None
            | (ReqSucceeded | ReqFailed | ReqCancelled), Some _ => Ok tt
            | _, _ => Err (InvalidState "request summary completion does not match state")
            end in
  let? sequence := unsigned_integer (q_queue_sequence r) in
  let? accepted_at := unsigned_integer (q_accepted_at_ms r) in
  Ok {| ps_request_id := q_request_id r; ps_operation_kind := q_operation_kind r;
        ps_state := state; ps_queue_sequence := sequence; ps_accepted_at_ms := accepted_at;
        ps_completed_at_ms := completed_at |}.

(** [ORDER BY], from the comparison of the rows. *)
Fixpoint insert_row {A} (before : A -> A -> bool) (x : A) (l : list A) : list A :=
  match l with
  | [] => [x]
  | y :: l' => if before x y then x :: l else y :: insert_row before x l'
  end.
Definition sort_rows {A} (before : A -> A -> bool) (l : list A) : list A :=
  foldr (insert_row before) [] l.

(** [queue_sequence ASC, request_id ASC]. *)
Definition queue_order (x y : RequestRow) : bool :=
  (q_queue_sequence x <? q_queue_sequence y)
  || ((q_queue_sequence x =? q_queue_sequence y) && String.leb (q_request_id x) (q_request_id y)).

(** [completed_at_ms DESC, queue_sequence DESC, request_id DESC]; a NULL sorts
    last in descending order. *)
Definition latest_order (x y : RequestRow) : bool :=
  let completed r := default (-1) (q_completed_at_ms r) in
  (completed y <? completed x)
  || ((completed x =? completed y)
      && ((q_queue_sequence y <? q_queue_sequence x)
          || ((q_queue_sequence x =? q_queue_sequence y)
              && String.leb (q_request_id y) (q_request_id x)))).

Definition project_rows (s : Store) (project_id : ProjectId) (p : RequestState -> bool)
  : list RequestRow :=
  List.filter (fun r => String.eqb (q_project_id r) project_id
                        && negb (is_status_kind (q_operation_kind r)) && p (q_state r))
    (requests s).

Definition opt_res {A B} (f : A -> sres B) (o : option A) : sres (option B) :=
  match o with None => Ok None | Some a => let? b := f a in Ok (Some b) end.

Definition project_current (s : Store) (project_id : ProjectId) : sres ProjectCurrent :=
  let? queued := collect_res decode_project_request
    (take 65 (sort_rows queue_order (project_rows s project_id (fun st => state_is st ReqQueued)))) in
  let? active := opt_res decode_project_request
    (head (sort_rows queue_order (project_rows s project_id is_active_state))) in
  let? latest_terminal := opt_res decode_project_request
    (head (sort_rows latest_order (project_rows s project_id is_terminal_state))) in
  Ok {| pc_queued := take MAX_PROJECT_CURRENT_QUEUED queued;
        pc_queued_truncated := (MAX_PROJECT_CURRENT_QUEUED <? length queued)%nat;
        pc_active := active; pc_latest_terminal := latest_terminal |}.

(** ** The history of flow runs *)

(** [accepted_at_ms DESC, request_id DESC]. *)
Definition run_order (x y : RequestRow * FlowRunRow) : bool :=
  (q_accepted_at_ms y.1 <? q_accepted_at_ms x.1)
  || ((q_accepted_at_ms x.1 =? q_accepted_at_ms y.1)
      && String.leb (q_request_id y.1) (q_request_id x.1)).

Definition flow_run_summary (s : Store) (x : RequestRow * FlowRunRow) : sres FlowRunSummary :=
  let '(r, f) := x in
  let corrupt := CorruptFlowCheckpoint (q_request_id r) in
  if negb (len (f_definition_digest f) =? 32) then Err corrupt
  else
    let? outcome := opt_res (fun o => ok_or (parse_flow_outcome o) corrupt) (f_terminal_outcome f) in
    let? state := parse_state (as_str (q_state r)) in
    let? accepted_at := unsigned_integer (q_accepted_at_ms r) in
    let? updated_at := unsigned_integer (f_updated_at_ms f) in
    let? completed_at := opt_unsigned_integer (q_completed_at_ms r) in
    Ok {| fs_request_id := q_request_id r; fs_project_id := q_project_id r;
          fs_project_root := project_roots s !! q_project_id r; fs_state := state;
          fs_definition_digest := f_definition_digest f; fs_outcome := outcome;
          fs_accepted_at_ms := accepted_at; fs_updated_at_ms := updated_at;
          fs_completed_at_ms := completed_at |}.

(** The join of [flow_runs] with [requests]. *)
Definition joined_runs (s : Store) : list (RequestRow * FlowRunRow) :=
  omap (fun r => f ← flow_runs s !! q_request_id r; Some (r, f)) (requests s).

Definition recent_flow_runs (s : Store) (limit : Z) : sres (list FlowRunSummary) :=
  let limit := if limit =? 0 then MAX_FLOW_RUN_HISTORY else Z.min limit MAX_FLOW_RUN_HISTORY in
  collect_res (flow_run_summary s) (limit_rows limit (sort_rows run_order (joined_runs s))).

(** ** Remembered roots *)

(** [UPDATE projects SET root = ?2 WHERE project_id = ?1 AND root IS NOT ?2]. *)
Definition update_root (project_id : ProjectId) (root : string) : Tx unit :=
  fun s => Ok (set_project_roots s (<[project_id := root]> (project_roots s)), tt).

Definition remember_project_root_tx (project_id : ProjectId) (root : string) : Tx unit :=
  if str_is_empty root || (len root >? MAX_PROJECT_ROOT_BYTES)
     || existsb is_unsafe_audit_character (chars root)
  then tx_err (InvalidProjectRoot "root")
  else
    _ ← insert_project project_id;
    update_root project_id root.
Definition remember_project_root (project_id : ProjectId) (root : string) : Store -> Store * sres unit :=
  transaction (remember_project_root_tx project_id root).

(** ** Resets *)

Record AccessResetTally := { at_grants : Z; at_approvals : Z; at_flow_authorizations : Z }.
Record ResetTally := { rt_count : Z; rt_bytes : Z }.
Record HistoryResetTally := { ht_audit_events : ResetTally; ht_flow_runs : ResetTally }.

Definition access_reset_tally (s : Store) : AccessResetTally :=
  {| at_grants := Z.of_nat (length (capability_grants s));
     at_approvals := Z.of_nat (size (approvals s));
     at_flow_authorizations := Z.of_nat (size (flow_authorizations s)) |}.

(** Two [u64::saturating_add]s. *)
Definition access_total (t : AccessResetTally) : Z :=
  Z.min u64_max (Z.min u64_max (at_grants t + at_approvals t) + at_flow_authorizations t).

(** [DELETE FROM table]. *)
Definition delete_all {V} (set : Store -> V -> Store) (empty : V) : Tx unit :=
  fun s => Ok (set s empty, tt).

(** The authorizations name approvals, so they go first. *)
Definition reset_access_tx : Tx AccessResetTally :=
  tally ← tx_read access_reset_tally;
  _ ← delete_all set_flow_authorizations ∅;
  _ ← delete_all set_approvals ∅;
  _ ← delete_all set_capability_grants [];
  mret tally.
Definition reset_access : Store -> Store * sres AccessResetTally := transaction reset_access_tx.

Definition z_sum (l : list Z) : Z := foldr Z.add 0 l.

(** [COUNT] and [SUM], whose 64-bit overflow is an error. *)
Definition tally_query (lengths : list Z) : Tx ResetTally :=
  bytes ← sqlite_integer (z_sum lengths);
  mret {| rt_count := Z.of_nat (length lengths); rt_bytes := bytes |}.

(** [length] counts the characters of a TEXT and the bytes of a BLOB. *)
Definition audit_bytes (s : Store) : list Z :=
  (fun row => sql_length (au_redacted_detail row)) <$> audit_events (audit s).
Definition flow_run_bytes (s : Store) : list Z :=
  (fun x => len (f_snapshot x.2) + match f_terminal_result x.2 with Some r => len r | None => 0 end)
  <$> map_to_list (flow_runs s).

Definition history_reset_tally_tx : Tx HistoryResetTally :=
  audit_lengths ← tx_read audit_bytes;
  audit_tally ← tally_query audit_lengths;
  run_lengths ← tx_read flow_run_bytes;
  run_tally ← tally_query run_lengths;
  mret {| ht_audit_events := audit_tally; ht_flow_runs := run_tally |}.

Definition reset_history_tx : Tx HistoryResetTally :=
  tally ← history_reset_tally_tx;
  _ ← delete_all set_flow_runs ∅;
  _ ← delete_all set_audit_events [];
  mret tally.
Definition reset_history : Store -> Store * sres HistoryResetTally := transaction reset_history_tx.
