(* ===== verification/Inventory.v ===== *)
(** * The skill inventory of the store

    Observations of a project's agent artifacts
    ([pam_store/src/store.rs], [inventory.rs], migrations 0010 and 0011):
    a rescan compares the observed artifacts with the recorded ones, writes the
    difference and reports it as drift; removed artifacts stay as tombstones, a
    bounded number of them. *)

From S2P Require Import Prelude Core Policy FlowDef FlowData StoreDef StoreQueue StoreAudit StoreAccess.
From S2P Require Import StoreView Artifact.

Local Open Scope Z_scope.

Definition MAX_SKILL_INVENTORY_TOMBSTONES_PER_PROJECT : Z := 4096.

Record StoredAgentArtifact := {
  st_id : AgentArtifactId;
  st_artifact : AgentArtifact;
  st_first_seen_at_ms : Z;
  st_last_changed_at_ms : Z;
  st_removed_at_ms : option Z
}.

#[export] Instance StoredAgentArtifact_eq_dec : EqDecision StoredAgentArtifact.
Proof. solve_decision. Defined.

Record SkillInventoryDrift := {
  dr_added : list StoredAgentArtifact;
  dr_changed : list StoredAgentArtifact;
  dr_removed : list StoredAgentArtifact;
  dr_resurrected : list StoredAgentArtifact
}.
Definition drift_default : SkillInventoryDrift :=
  {| dr_added := []; dr_changed := []; dr_removed := []; dr_resurrected := [] |}.
Definition drift_is_empty (d : SkillInventoryDrift) : bool :=
  bool_decide (dr_added d = []) && bool_decide (dr_changed d = []) && bool_decide (dr_removed d = [])
  && bool_decide (dr_resurrected d = []).

Definition push_added (d : SkillInventoryDrift) (x : StoredAgentArtifact) : SkillInventoryDrift :=
  {| dr_added := dr_added d ++ [x]; dr_changed := dr_changed d; dr_removed := dr_removed d;
     dr_resurrected := dr_resurrected d |}.
Definition push_changed (d : SkillInventoryDrift) (x : StoredAgentArtifact) : SkillInventoryDrift :=
  {| dr_added := dr_added d; dr_changed := dr_changed d ++ [x]; dr_removed := dr_removed d;
     dr_resurrected := dr_resurrected d |}.
Definition push_removed (d : SkillInventoryDrift) (x : StoredAgentArtifact) : SkillInventoryDrift :=
  {| dr_added := dr_added d; dr_changed := dr_changed d; dr_removed := dr_removed d ++ [x];
     dr_resurrected := dr_resurrected d |}.
Definition push_resurrected (d : SkillInventoryDrift) (x : StoredAgentArtifact) : SkillInventoryDrift :=
  {| dr_added := dr_added d; dr_changed := dr_changed d; dr_removed := dr_removed d;
     dr_resurrected := dr_resurrected d ++ [x] |}.

(** ** The tables *)

#[export] Instance ArtifactRow_eq_dec : EqDecision ArtifactRow.
Proof. solve_decision. Defined.

Definition project_artifacts (s : Store) (p : ProjectId) : gmap AgentArtifactId ArtifactRow :=
  default ∅ (agent_artifacts (skills s) !! p).
Definition set_artifacts (s : Store) (p : ProjectId) (rows : gmap AgentArtifactId ArtifactRow) : Store :=
  set_skills s {| agent_artifacts := <[p := rows]> (agent_artifacts (skills s));
                  artifact_inventory := artifact_inventory (skills s) |}.

(** [sha256:] and 64 lowercase hexadecimal characters after a prefix. *)
Definition hex_after (prefix value : string) : bool :=
  match strip_prefix prefix value with
  | Some hex => (len hex =? 64) && all_bytes is_lower_hex hex
  | None => false
  end.

(** The CHECKs of [agent_artifacts]. *)
Definition artifact_check (id : AgentArtifactId) (r : ArtifactRow) : bool :=
  hex_after ARTIFACT_ID_PREFIX id
  && (1 <=? len (sk_name r)) && (len (sk_name r) <=? 256)
  && (1 <=? len (sk_logical_path r)) && (len (sk_logical_path r) <=? 4096)
  && existsb (String.eqb (sk_kind r)) (kind_as_str <$> artifact_kinds)
  && existsb (String.eqb (sk_scope r)) (artifact_scope_as_str <$> artifact_scopes)
  && existsb (String.eqb (sk_origin r)) (origin_as_str <$> origin_agents)
  && existsb (String.eqb (sk_load_semantics r)) (semantics_as_str <$> load_semantics_values)
  && hex_after SHA256_PREFIX (sk_content_hash r)
  && (0 <=? sk_first_seen_at_ms r) && (sk_first_seen_at_ms r <=? sk_last_changed_at_ms r)
  && is_none_or (sk_removed_at_ms r) (Z.leb (sk_last_changed_at_ms r)).

(** The columns of the UNIQUE constraint beside the project. *)
Definition artifact_columns (r : ArtifactRow) : string * (string * (string * string)) :=
  (sk_origin r, (sk_kind r, (sk_scope r, sk_logical_path r))).

(** [INSERT INTO agent_artifacts ..]: CHECKs, primary key, UNIQUE and foreign key. *)
Definition insert_artifact (p : ProjectId) (id : AgentArtifactId) (r : ArtifactRow) : Tx unit :=
  fun s =>
    if artifact_check id r && bool_decide (project_artifacts s p !! id = None)
       && forallb (fun x => negb (bool_decide (artifact_columns x.2 = artifact_columns r)))
            (map_to_list (project_artifacts s p))
       && bool_decide (is_Some (projects s !! p))
    then Ok (set_artifacts s p (<[id := r]> (project_artifacts s p)), tt)
    else Err Sqlite.

(** [UPDATE agent_artifacts SET .. WHERE project_id = ?1 AND artifact_id = ?2 AND q]. *)
Definition update_artifact (p : ProjectId) (id : AgentArtifactId) (q : ArtifactRow -> bool)
    (f : ArtifactRow -> ArtifactRow) : Tx unit :=
  fun s =>
    match project_artifacts s p !! id with
    | Some r =>
      if q r then
        if artifact_check id (f r)
        then Ok (set_artifacts s p (<[id := f r]> (project_artifacts s p)), tt)
        else Err Sqlite
      else Ok (s, tt)
    | None => Ok (s, tt)
    end.

(** ** Reading *)

Definition inventory_integer (value : Z) : sres Z :=
  if 0 <=? value then Ok value else Err CorruptSkillArtifact.
Definition opt_inventory_integer (o : option Z) : sres (option Z) :=
  match o with None => Ok None | Some v => let? v := inventory_integer v in Ok (Some v) end.

Section inventory.
Context `{Sha256}.

Definition decode_skill_artifact (x : AgentArtifactId * ArtifactRow) : sres StoredAgentArtifact :=
  let '(id, r) := x in
  let? id := ok_or (artifact_id_parse id) CorruptSkillArtifact in
  let? kind := ok_or (from_str kind_as_str artifact_kinds (sk_kind r)) CorruptSkillArtifact in
  let? scope := ok_or (from_str artifact_scope_as_str artifact_scopes (sk_scope r)) CorruptSkillArtifact in
  let? origin := ok_or (from_str origin_as_str origin_agents (sk_origin r)) CorruptSkillArtifact in
  let? semantics := ok_or (from_str semantics_as_str load_semantics_values (sk_load_semantics r))
                      CorruptSkillArtifact in
  let? hash := map_err (fun _ => CorruptSkillArtifact) (digest_parse (sk_content_hash r)) in
  let? artifact := map_err (fun _ => CorruptSkillArtifact)
                     (artifact_new (sk_name r) (sk_logical_path r) kind scope origin semantics hash) in
  if negb (String.eqb (artifact_id artifact) id) then Err CorruptSkillArtifact
  else
    let? first_seen := inventory_integer (sk_first_seen_at_ms r) in
    let? last_changed := inventory_integer (sk_last_changed_at_ms r) in
    let? removed := opt_inventory_integer (sk_removed_at_ms r) in
    if (last_changed <? first_seen)
       || match removed with Some removed => removed <? last_changed | None => false end
    then Err CorruptSkillArtifact
    else Ok {| st_id := id; st_artifact := artifact; st_first_seen_at_ms := first_seen;
               st_last_changed_at_ms := last_changed; st_removed_at_ms := removed |}.

(** [ORDER BY artifact_id]. *)
Definition id_order {A} (x y : AgentArtifactId * A) : bool := String.leb x.1 y.1.
Definition all_skill_artifacts (p : ProjectId) : Tx (list StoredAgentArtifact) :=
  rows ← tx_read (fun s => sort_rows id_order (map_to_list (project_artifacts s p)));
  tx_lift (collect_res decode_skill_artifact rows).

(** [ORDER BY origin, scope, kind, logical_path]. *)
Definition lex (c : comparison) (d : comparison) : comparison := match c with Eq => d | _ => c end.
Definition listing_order (x y : AgentArtifactId * ArtifactRow) : bool :=
  match lex (String.compare (sk_origin x.2) (sk_origin y.2))
         (lex (String.compare (sk_scope x.2) (sk_scope y.2))
            (lex (String.compare (sk_kind x.2) (sk_kind y.2))
               (String.compare (sk_logical_path x.2) (sk_logical_path y.2)))) with
  | Gt => false
  | _ => true
  end.
Definition is_active_artifact (r : ArtifactRow) : bool := bool_decide (sk_removed_at_ms r = None).
Definition list_skill_artifacts (p : ProjectId) : Tx (list StoredAgentArtifact) :=
  rows ← tx_read (fun s =>
    sort_rows listing_order
      (List.filter (fun x => is_active_artifact x.2) (map_to_list (project_artifacts s p))));
  tx_lift (collect_res decode_skill_artifact rows).

Definition get_skill_artifact (s : Store) (p : ProjectId) (id : AgentArtifactId)
  : sres StoredAgentArtifact :=
  match project_artifacts s p !! id with
  | Some r =>
    if is_active_artifact r then decode_skill_artifact (id, r) else Err (SkillArtifactNotFound p id)
  | None => Err (SkillArtifactNotFound p id)
  end.

Definition skill_inventory_observation (p : ProjectId) : Tx (option Z) :=
  row ← tx_read (fun s => artifact_inventory (skills s) !! p);
  tx_lift (opt_inventory_integer row).

(** ** Writing *)

Definition artifact_row (a : AgentArtifact) (first_seen last_changed : Z) (removed : option Z) : ArtifactRow :=
  {| sk_name := aar_name a; sk_logical_path := aar_logical_path a;
     sk_kind := kind_as_str (aar_kind a); sk_scope := artifact_scope_as_str (aar_scope a);
     sk_origin := origin_as_str (aar_origin a);
     sk_load_semantics := semantics_as_str (aar_load_semantics a);
     sk_content_hash := digest_str (aar_content_hash a); sk_first_seen_at_ms := first_seen;
     sk_last_changed_at_ms := last_changed; sk_removed_at_ms := removed |}.

Definition add_skill_artifact (p : ProjectId) (id : AgentArtifactId) (artifact : AgentArtifact)
    (observed_at observed_at_ms : Z) (drift : SkillInventoryDrift) : Tx SkillInventoryDrift :=
  _ ← insert_artifact p id (artifact_row artifact observed_at observed_at None);
  mret (push_added drift
          {| st_id := id; st_artifact := artifact; st_first_seen_at_ms := observed_at_ms;
             st_last_changed_at_ms := observed_at_ms; st_removed_at_ms := None |}).

(** The columns [update_skill_artifact] sets. *)
Definition refresh_row (artifact : AgentArtifact) (last_changed : Z) (removed : option Z) (r : ArtifactRow)
  : ArtifactRow :=
  {| sk_name := aar_name artifact; sk_logical_path := sk_logical_path r; sk_kind := sk_kind r;
     sk_scope := sk_scope r; sk_origin := sk_origin r;
     sk_load_semantics := semantics_as_str (aar_load_semantics artifact);
     sk_content_hash := digest_str (aar_content_hash artifact);
     sk_first_seen_at_ms := sk_first_seen_at_ms r; sk_last_changed_at_ms := last_changed;
     sk_removed_at_ms := removed |}.
Definition update_skill_artifact (p : ProjectId) (id : AgentArtifactId) (artifact : AgentArtifact)
    (last_changed : Z) (removed : option Z) : Tx unit :=
  update_artifact p id (fun _ => true) (refresh_row artifact last_changed removed).

Definition ensure_inventory_time (id : AgentArtifactId) (observed_at_ms stored_at_ms : Z) : sres unit :=
  if observed_at_ms <? stored_at_ms
  then Err (SkillInventoryTimestampRegression id observed_at_ms stored_at_ms) else Ok tt.

Definition with_artifact (st : StoredAgentArtifact) (artifact : AgentArtifact) (last_changed : Z)
    (removed : option Z) : StoredAgentArtifact :=
  {| st_id := st_id st; st_artifact := artifact; st_first_seen_at_ms := st_first_seen_at_ms st;
     st_last_changed_at_ms := last_changed; st_removed_at_ms := removed |}.

Definition reconcile_skill_artifact (p : ProjectId) (artifact : AgentArtifact)
    (stored : StoredAgentArtifact) (observed_at observed_at_ms : Z) (drift : SkillInventoryDrift)
  : Tx SkillInventoryDrift :=
  match st_removed_at_ms stored with
  | Some removed_at_ms =>
    _ ← tx_lift (ensure_inventory_time (st_id stored) observed_at_ms removed_at_ms);
    let changed := negb (bool_decide (st_artifact stored = artifact)) in
    _ ← tx_lift (if changed
                 then ensure_inventory_time (st_id stored) observed_at_ms (st_last_changed_at_ms stored)
                 else Ok tt);
    let last_changed_at_ms := if changed then observed_at_ms else st_last_changed_at_ms stored in
    last_changed ← tx_lift (if changed then Ok observed_at else sql_integer last_changed_at_ms);
    _ ← update_skill_artifact p (st_id stored) artifact last_changed None;
    mret (push_resurrected drift (with_artifact stored artifact last_changed_at_ms None))
  | None =>
    if negb (bool_decide (st_artifact stored = artifact)) then
      _ ← tx_lift (ensure_inventory_time (st_id stored) observed_at_ms (st_last_changed_at_ms stored));
      _ ← update_skill_artifact p (st_id stored) artifact observed_at None;
      mret (push_changed drift (with_artifact stored artifact observed_at_ms None))
    else mret drift
  end.

Definition set_artifact_removed (observed_at : Z) (r : ArtifactRow) : ArtifactRow :=
  {| sk_name := sk_name r; sk_logical_path := sk_logical_path r; sk_kind := sk_kind r;
     sk_scope := sk_scope r; sk_origin := sk_origin r; sk_load_semantics := sk_load_semantics r;
     sk_content_hash := sk_content_hash r; sk_first_seen_at_ms := sk_first_seen_at_ms r;
     sk_last_changed_at_ms := sk_last_changed_at_ms r; sk_removed_at_ms := Some observed_at |}.
Definition remove_skill_artifact (p : ProjectId) (stored : StoredAgentArtifact)
    (observed_at observed_at_ms : Z) (drift : SkillInventoryDrift) : Tx SkillInventoryDrift :=
  _ ← tx_lift (ensure_inventory_time (st_id stored) observed_at_ms (st_last_changed_at_ms stored));
  _ ← update_artifact p (st_id stored) is_active_artifact (set_artifact_removed observed_at);
  mret (push_removed drift
          (with_artifact stored (st_artifact stored) (st_last_changed_at_ms stored) (Some observed_at_ms))).

(** [ORDER BY removed_at_ms DESC, artifact_id] among the tombstones. *)
Definition tombstone_order (x y : AgentArtifactId * Z) : bool :=
  (y.2 <? x.2) || ((x.2 =? y.2) && String.leb x.1 y.1).
Definition tombstones (rows : gmap AgentArtifactId ArtifactRow) : list (AgentArtifactId * Z) :=
  omap (fun x => removed ← sk_removed_at_ms x.2; Some (x.1, removed)) (map_to_list rows).
Definition retained_tombstones (rows : gmap AgentArtifactId ArtifactRow) : list AgentArtifactId :=
  fst <$> limit_rows MAX_SKILL_INVENTORY_TOMBSTONES_PER_PROJECT (sort_rows tombstone_order (tombstones rows)).
Definition prune_rows (rows : gmap AgentArtifactId ArtifactRow) : gmap AgentArtifactId ArtifactRow :=
  let retained := retained_tombstones rows in
  filter (fun x => is_active_artifact x.2 = true \/ x.1 ∈ retained) rows.
Definition prune_skill_inventory_tombstones (p : ProjectId) : Tx unit :=
  fun s =>
    let rows := prune_rows (project_artifacts s p) in
    if bool_decide (rows = project_artifacts s p) then Ok (s, tt) else Ok (set_artifacts s p rows, tt).

(** ** A rescan *)

(** The observed artifacts by identifier, in the order of a [BTreeMap]. *)
Definition current_skill_artifacts (artifacts : list AgentArtifact)
  : sres (list (AgentArtifactId * AgentArtifact)) :=
  let keyed := (fun a => (artifact_id a, a)) <$> artifacts in
  if bool_decide (NoDup keyed.*1) then Ok (sort_rows id_order keyed)
  else Err (InvalidSkillInventory "snapshot contains a duplicate artifact identity").

Definition find_stored (id : AgentArtifactId) (l : list StoredAgentArtifact) : option StoredAgentArtifact :=
  List.find (fun st => String.eqb (st_id st) id) l.
Definition drop_stored (id : AgentArtifactId) (l : list StoredAgentArtifact) : list StoredAgentArtifact :=
  List.filter (fun st => negb (String.eqb (st_id st) id)) l.

(** The loop over the observed artifacts; [existing] keeps those not met yet. *)
Fixpoint reconcile_loop (p : ProjectId) (observed_at observed_at_ms : Z)
    (current : list (AgentArtifactId * AgentArtifact)) (existing : list StoredAgentArtifact)
    (drift : SkillInventoryDrift) : Tx (list StoredAgentArtifact * SkillInventoryDrift) :=
  match current with
  | [] => mret (existing, drift)
  | (id, artifact) :: current =>
    drift ← (match find_stored id existing with
             | None => add_skill_artifact p id artifact observed_at observed_at_ms drift
             | Some stored => reconcile_skill_artifact p artifact stored observed_at observed_at_ms drift
             end);
    reconcile_loop p observed_at observed_at_ms current (drop_stored id existing) drift
  end.

(** The loop over the artifacts not observed any more. *)
Fixpoint remove_loop (p : ProjectId) (observed_at observed_at_ms : Z) (gone : list StoredAgentArtifact)
    (drift : SkillInventoryDrift) : Tx SkillInventoryDrift :=
  match gone with
  | [] => mret drift
  | stored :: gone =>
    drift ← remove_skill_artifact p stored observed_at observed_at_ms drift;
    remove_loop p observed_at observed_at_ms gone drift
  end.

Definition stored_order (x y : StoredAgentArtifact) : bool := String.leb (st_id x) (st_id y).
Definition sort_inventory_drift (d : SkillInventoryDrift) : SkillInventoryDrift :=
  {| dr_added := sort_rows stored_order (dr_added d); dr_changed := sort_rows stored_order (dr_changed d);
     dr_removed := sort_rows stored_order (dr_removed d);
     dr_resurrected := sort_rows stored_order (dr_resurrected d) |}.

(** [INSERT INTO agent_artifact_inventory .. ON CONFLICT DO UPDATE]. *)
Definition set_observation (p : ProjectId) (observed_at : Z) : Tx unit :=
  fun s =>
    if (0 <=? observed_at) && bool_decide (is_Some (projects s !! p))
    then Ok (set_skills s {| agent_artifacts := agent_artifacts (skills s);
                             artifact_inventory := <[p := observed_at]> (artifact_inventory (skills s)) |}, tt)
    else Err Sqlite.

Definition active_skill_inventory_matches (p : ProjectId) (current : list (AgentArtifactId * AgentArtifact))
  : Tx bool :=
  active ← list_skill_artifacts p;
  mret ((length active =? length current)%nat
        && forallb (fun st => match List.find (fun x => String.eqb x.1 (st_id st)) current with
                              | Some (_, artifact) => bool_decide (artifact = st_artifact st)
                              | None => false
                              end) active).

(** The part after the comparison of the observation times. *)
Definition apply_rescan (p : ProjectId) (current : list (AgentArtifactId * AgentArtifact))
    (observed_at observed_at_ms : Z) : Tx SkillInventoryDrift :=
  _ ← insert_project p;
  _ ← prune_skill_inventory_tombstones p;
  existing ← all_skill_artifacts p;
  result ← reconcile_loop p observed_at observed_at_ms current existing drift_default;
  let '(existing, drift) := result in
  drift ← remove_loop p observed_at observed_at_ms
            (List.filter (fun st => bool_decide (st_removed_at_ms st = None)) existing) drift;
  _ ← set_observation p observed_at;
  _ ← prune_skill_inventory_tombstones p;
  mret (sort_inventory_drift drift).

Definition rescan_skill_inventory_in_transaction (p : ProjectId)
    (current : list (AgentArtifactId * AgentArtifact)) (observed_at observed_at_ms : Z)
  : Tx SkillInventoryDrift :=
  stored ← skill_inventory_observation p;
  match stored with
  | Some stored_at_ms =>
    if observed_at_ms <? stored_at_ms
    then tx_err (SkillInventoryObservationRegression p observed_at_ms stored_at_ms)
    else if observed_at_ms =? stored_at_ms then
      matches ← active_skill_inventory_matches p current;
      if (matches : bool)
      then _ ← prune_skill_inventory_tombstones p; mret drift_default
      else tx_err (SkillInventoryObservationConflict p observed_at_ms)
    else apply_rescan p current observed_at observed_at_ms
  | None => apply_rescan p current observed_at observed_at_ms
  end.

Definition rescan_tx (p : ProjectId) (artifacts : list AgentArtifact) (observed_at_ms : Z)
  : Tx SkillInventoryDrift :=
  observed_at ← tx_lift (sql_integer observed_at_ms);
  current ← tx_lift (current_skill_artifacts artifacts);
  rescan_skill_inventory_in_transaction p current observed_at observed_at_ms.
Definition rescan_skill_inventory (p : ProjectId) (artifacts : list AgentArtifact) (observed_at_ms : Z)
  : Store -> Store * sres SkillInventoryDrift := transaction (rescan_tx p artifacts observed_at_ms).

End inventory.
