(* ===== verification/StoreStep.v ===== *)
(** * The store as a transition system

    Every operation of the queue and of the flow checkpoints is a sequence of
    primitive steps: a request is accepted, one row moves along the request
    state machine [row_step] with at most one event, an event is appended to
    an active request, a project is created, or a table outside the queue
    changes. This file states
    the state machine, inverts the transaction monad and the SQL statements,
    and reduces each operation to its steps; the invariants and the safety
    theorems are then inductions over steps. *)

From S2P Require Import Prelude Core Policy FlowDef FlowData FlowSnapshot StoreDef.
From S2P Require Import StoreFlow StoreQueue.

Local Open Scope Z_scope.

(** ** The request state machine *)

(** What the moves of a history are known of: the lease tokens a claim may hand
    out, and the states and results with which a terminal checkpoint may end a
    request that is in cancellation. *)
Record Moves := {
  hands_token : string -> Prop;
  overrides_with : RequestId -> RequestState -> string -> Prop
}.

Definition any_moves : Moves := {| hands_token _ := True; overrides_with _ _ _ := True |}.

(** One move of a request row, with the kind of the event it records. *)
Inductive row_step (T : Moves) (r : RequestRow) : option string -> RequestRow -> Prop :=
| row_claim owner token expires :
    q_state r = ReqQueued -> hands_token T token ->
    row_step T r (Some "started")
      (set_lease (set_attempt (set_req_state r ReqLeased) (q_attempt r + 1))
         (Some owner) (Some token) (Some expires))
| row_renew expires :
    is_active_state (q_state r) = true ->
    row_step T r None (set_lease r (q_lease_owner r) (q_lease_token r) (Some expires))
| row_release :
    q_state r = ReqLeased ->
    row_step T r (Some "lease_expired") (clear_lease (set_req_state r ReqQueued))
| row_complete state kind now result :
    q_state r = ReqLeased ->
    (state, kind) ∈ [(ReqSucceeded, "completed"); (ReqFailed, "failed"); (ReqCancelled, "cancelled")] ->
    (state = ReqCancelled -> q_operation_kind r = FLOW_OPERATION_KIND) ->
    row_step T r (Some kind) (finish_row state now (Some result) r)
| row_cancelled now :
    q_state r = ReqCancellationRequested ->
    row_step T r (Some "cancelled") (finish_row ReqCancelled now (q_result r) r)
| row_override state kind now result :
    q_state r = ReqCancellationRequested -> q_operation_kind r = FLOW_OPERATION_KIND ->
    (state, kind) ∈ [(ReqFailed, "failed"); (ReqCancelled, "cancelled")] ->
    overrides_with T (q_request_id r) state result ->
    row_step T r (Some kind) (finish_row state now (Some result) r)
| row_cancel_queued now result :
    q_state r = ReqQueued ->
    row_step T r (Some "cancelled")
      (set_result (set_completed (set_req_state r ReqCancelled) now) (Some result))
| row_request_cancel result :
    q_state r = ReqLeased ->
    row_step T r (Some "cancellation_requested")
      (set_result (set_req_state r ReqCancellationRequested) (Some result))
| row_corrupt now result :
    q_state r = ReqQueued -> q_operation_kind r = FLOW_OPERATION_KIND ->
    row_step T r (Some "failed") (finish_row ReqFailed now (Some result) r).

(** The store with one more event of a request. *)
Definition with_event (s : Store) (id : RequestId) (now : Z) (kind payload : string) : Store :=
  set_events s (events s ++
    [{| e_request_id := id; e_sequence := max_sequence id (events s) + 1; e_kind := kind;
        e_payload := payload; e_recorded_at_ms := now |}]).

(** The store after [accept_tx] creates a request. *)
Definition accepted_store (s : Store) (a : AcceptRequest) (now : Z) : Store :=
  let next := default 1 (projects s !! ar_project_id a) in
  with_event
    (set_requests (set_projects s (<[ar_project_id a := next + 1]> (projects s)))
       (requests s ++ [queued_row a next now]))
    (ar_request_id a) now "accepted" "".

(** One primitive step of the store. *)
Inductive store_step (T : Moves) (s : Store) : Store -> Prop :=
| step_accept a now :
    0 <= now -> requests_schema (requests (accepted_store s a now)) ->
    default 1 (projects s !! ar_project_id a) < i64_max ->
    store_step T s (accepted_store s a now)
| step_row i r r' kind now :
    0 <= now -> requests s !! i = Some r -> row_step T r (Some kind) r' ->
    requests_schema (<[i := r']> (requests s)) ->
    store_step T s (with_event (set_requests s (<[i := r']> (requests s)))
                    (q_request_id r) now kind "")
| step_quiet i r r' :
    requests s !! i = Some r -> row_step T r None r' ->
    requests_schema (<[i := r']> (requests s)) ->
    store_step T s (set_requests s (<[i := r']> (requests s)))
| step_event i r now kind payload :
    0 <= now -> requests s !! i = Some r -> is_active_state (q_state r) = true ->
    store_step T s (with_event s (q_request_id r) now kind payload)
| step_project p :
    projects s !! p = None ->
    store_step T s (set_projects s (<[p := 1]> (projects s)))
| step_tables s' :
    projects s' = projects s -> requests s' = requests s -> events s' = events s ->
    store_step T s s'.

(** ** Inverting transactions *)

Lemma tx_bind_Ok {A B} (m : Tx A) (k : A -> Tx B) s r :
  mbind k m s = Ok r -> exists s1 a, m s = Ok (s1, a) /\ k a s1 = Ok r.
Proof. unfold mbind, tx_bind. destruct (m s) as [[s1 a]|e|]; try done. eauto. Qed.

Lemma collect_res_map {A B} (f : A -> sres B) (g : A -> B) l :
  (forall x, x ∈ l -> f x = Ok (g x)) -> collect_res f l = Ok (g <$> l).
Proof.
  induction l as [|x l IH]; intros Hf; simpl; [done|]. rewrite (Hf x) by by left.
  by rewrite IH by (intros y Hy; apply Hf; by right).
Qed.

Lemma bind_Ok {A B} (m : Tx A) (k : A -> Tx B) s s' a :
  m s = Ok (s', a) -> mbind k m s = k a s'.
Proof. unfold mbind, tx_bind. by intros ->. Qed.

Lemma tx_lift_Ok {A} (r : sres A) s s' a : tx_lift r s = Ok (s', a) -> s' = s /\ r = Ok a.
Proof. unfold tx_lift. destruct r; try done. by intros [= -> ->]. Qed.

Lemma tx_ret_Ok {A} (x : A) s s' a : (mret x : Tx A) s = Ok (s', a) -> s' = s /\ a = x.
Proof. by intros [= -> ->]. Qed.

Lemma tx_read_Ok {A} (f : Store -> A) s s' a : tx_read f s = Ok (s', a) -> s' = s /\ a = f s.
Proof. by intros [= -> ->]. Qed.

Lemma tx_err_Ok {A} e s (r : Store * A) : tx_err e s = Ok r -> False.
Proof. done. Qed.

Lemma ok_or_Ok {A} (o : option A) (e : StoreError) a : ok_or o e = Ok a -> o = Some a.
Proof. destruct o; [by intros [= ->]|done]. Qed.

Lemma transaction_Ok {A} (m : Tx A) s s' a :
  transaction m s = (s', Ok a) <-> m s = Ok (s', a).
Proof.
  unfold transaction. destruct (m s) as [[s1 b]|e|]; split; intros Heq; try done;
    by injection Heq as <- <-.
Qed.

Lemma transaction_not_Ok {A} (m : Tx A) s s' r :
  transaction m s = (s', r) -> is_ok r = false -> s' = s.
Proof.
  unfold transaction. destruct (m s) as [[s1 b]|e|]; intros [= <- <-]; done.
Qed.

(** Decompose [H : m s = Ok (s', a)] along the binds of [m]: [tx_leaf] inverts
    the statements that are not binds, [tx_inv] the binds and conditionals too. *)
Ltac tx_leaf1 :=
  match goal with
  | H : tx_lift _ _ = Ok (_, _) |- _ => apply tx_lift_Ok in H as [-> H]
  | H : mret _ _ = Ok (_, _) |- _ =>
      first [apply tx_ret_Ok in H as [-> ?] | apply tx_ret_Ok in H as [_ ?]]
  | H : tx_read _ _ = Ok (_, _) |- _ => apply tx_read_Ok in H as [-> ?]
  | H : select_request _ _ = Ok (_, _) |- _ => apply tx_read_Ok in H as [-> ?]
  | H : tx_err _ _ = Ok _ |- _ => destruct (tx_err_Ok _ _ _ H)
  | H : ok_or _ _ = Ok _ |- _ => apply ok_or_Ok in H
  | H : Ok _ = Ok _ |- _ => injection H as H
  | H : Err _ = Ok _ |- _ => discriminate H
  end.
Ltac tx_leaf := repeat tx_leaf1; simplify_eq/=.
Ltac tx_inv1 :=
  first
  [ tx_leaf1
  | match goal with
    | H : mbind _ _ _ = Ok _ |- _ => apply tx_bind_Ok in H as (? & ? & ? & H)
    | H : (if ?b then _ else _) _ = Ok _ |- _ => destruct b eqn:?
    end ].
Ltac tx_inv := repeat tx_inv1; simplify_eq/=.

(** ** Statements *)

Lemma sqlite_integer_Ok v s s' a : sqlite_integer v s = Ok (s', a) -> s' = s /\ a = v /\ v <= i64_max.
Proof. unfold sqlite_integer. destruct (v <=? i64_max) eqn:E; intros Hv; tx_inv; split_and!; lia || done. Qed.

Lemma append_event_Ok id now kind payload s s' a :
  append_event_tx id now kind payload s = Ok (s', a) ->
  s' = with_event s id now kind payload /\ a = max_sequence id (events s) + 1
  /\ 0 <= now /\ a <= i64_max /\ exists r, r ∈ requests s /\ q_request_id r = id.
Proof.
  unfold append_event_tx. intros He. tx_inv.
  match goal with H : sqlite_integer _ _ = _ |- _ => apply sqlite_integer_Ok in H as (-> & -> & Hle) end.
  match goal with H : insert_event _ _ = _ |- _ => unfold insert_event in H end.
  destruct (_ && _) eqn:Ec; [|done]. simplify_eq/=.
  match goal with H : unsigned_integer _ = _ |- _ => unfold unsigned_integer in H end.
  destruct (0 <=? _) eqn:E0; [|done]. simplify_eq.
  rewrite !andb_true_iff in Ec. destruct Ec as (((_ & Hnow) & _) & Hrow).
  apply existsb_true_elem in Hrow as (r & Hr & Hid). apply String.eqb_eq in Hid.
  split_and!; [done|done|lia|lia|eauto].
Qed.

(** An UPDATE whose WHERE clause fixes the primary key changes at most one row. *)
Lemma filter_one (p : RequestRow -> bool) id rows :
  NoDup (q_request_id <$> rows) -> (forall r, p r = true -> q_request_id r = id) ->
  List.filter p rows = []
  \/ exists i r, rows !! i = Some r /\ p r = true /\ List.filter p rows = [r]
     /\ forall f, (fun x => if p x then f x else x) <$> rows = <[i := f r]> rows.
Proof.
  intros Hnd Hp. induction rows as [|x rows IH]; [by left|].
  apply NoDup_cons in Hnd as [Hx Hnd]. simpl.
  destruct (p x) eqn:Ex.
  - right. exists 0%nat, x.
    assert (Hnone : forall y, y ∈ rows -> p y = false).
    { intros y Hy. destruct (p y) eqn:Ey; [|done]. exfalso. apply Hx.
      change (q_request_id x ∈ q_request_id <$> rows).
      rewrite (Hp x Ex), <-(Hp y Ey). apply list_elem_of_fmap. eauto. }
    assert (Hf : List.filter p rows = []).
    { clear -Hnone. induction rows as [|y rows IH]; simpl; [done|].
      rewrite (Hnone y) by set_solver. apply IH. set_solver. }
    rewrite Hf. split_and!; try done. intros f. simpl. f_equal.
    clear -Hnone. induction rows as [|y rows IH]; simpl; [done|].
    rewrite (Hnone y) by set_solver. f_equal. apply IH. set_solver.
  - destruct (IH Hnd) as [Hnil|(i & r & Hi & Hpr & Hf & Hmap)]; [by left|].
    right. exists (S i), r. split_and!; try done.
    intros f. simpl. f_equal. apply Hmap.
Qed.

Lemma update_requests_Ok p f id s s' n :
  NoDup (q_request_id <$> requests s) -> update_requests p f s = Ok (s', n) ->
  (forall r, p r = true -> q_request_id r = id) ->
  (n = 0%nat /\ s' = set_requests s (requests s))
  \/ (n = 1%nat /\ exists i r, requests s !! i = Some r /\ p r = true
        /\ s' = set_requests s (<[i := f r]> (requests s))
        /\ requests_schema (<[i := f r]> (requests s))).
Proof.
  intros Hnd Hup Hp. unfold update_requests in Hup.
  destruct (bool_decide _) eqn:Hs; [|done]. apply bool_decide_eq_true in Hs.
  injection Hup as <- <-. destruct (filter_one p id (requests s) Hnd Hp)
    as [Hnil|(i & r & Hi & Hpr & Hf & Hmap)].
  - left. rewrite Hnil. split; [done|]. f_equal.
    assert (Hnone : forall y, y ∈ requests s -> p y = false).
    { intros y Hy. destruct (p y) eqn:Ey; [|done].
      assert (Hin : List.In y (List.filter p (requests s)))
        by (apply filter_In; split; [by apply list_elem_of_In|done]).
      by rewrite Hnil in Hin. }
    clear -Hnone. induction (requests s) as [|y rows IH]; simpl; [done|].
    rewrite (Hnone y) by set_solver. f_equal. apply IH. set_solver.
  - right. rewrite Hf. split; [done|]. exists i, r. rewrite Hmap in Hs |- *. eauto.
Qed.

Lemma set_requests_id s : set_requests s (requests s) = s.
Proof. by destruct s. Qed.

Lemma find_Some {A} (p : A -> bool) rows r : List.find p rows = Some r -> p r = true /\ r ∈ rows.
Proof. intros Hf. apply find_some in Hf as [Hin Hp]. by apply list_elem_of_In in Hin. Qed.

Lemma parse_state_as_str st : parse_state (as_str st) = Ok st.
Proof. by destruct st. Qed.
#[export] Hint Rewrite parse_state_as_str : store.

Lemma live_lease_spec lease now r :
  live_lease lease now r = true <->
  q_request_id r = le_request_id lease /\ is_active_state (q_state r) = true
  /\ q_lease_owner r = Some (le_owner lease) /\ q_lease_token r = Some (le_token lease)
  /\ exists t, q_lease_expires_at_ms r = Some t /\ now < t.
Proof.
  unfold live_lease, by_id, opt_eqb, opt_gt. rewrite !andb_true_iff, String.eqb_eq.
  destruct (q_lease_owner r) as [o|], (q_lease_token r) as [t|], (q_lease_expires_at_ms r) as [x|];
    rewrite ?String.eqb_eq, ?Z.ltb_lt; split; intros; destruct_and?; subst; split_and!; try done;
    try (match goal with H : exists _, _ |- _ => destruct H as (? & ? & ?) end); try congruence; eauto.
Qed.

(** ** Transactions that only read *)

Definition read_only {A} (m : Tx A) : Prop := forall s s' a, m s = Ok (s', a) -> s' = s.

Create HintDb ro.

Lemma ro_bind {A B} (m : Tx A) (k : A -> Tx B) :
  read_only m -> (forall a, read_only (k a)) -> read_only (mbind k m).
Proof.
  intros Hm Hk s s' b Hb. apply tx_bind_Ok in Hb as (s1 & a & H1 & H2).
  apply Hm in H1 as ->. by apply Hk in H2.
Qed.
Lemma ro_ret {A} (a : A) : read_only (mret a : Tx A).
Proof. intros s s' b Hb. by tx_inv. Qed.
Lemma ro_lift {A} (r : sres A) : read_only (tx_lift r).
Proof. intros s s' b Hb. by tx_inv. Qed.
Lemma ro_read {A} (f : Store -> A) : read_only (tx_read f).
Proof. intros s s' b Hb. by tx_inv. Qed.
Lemma ro_err {A} e : read_only (tx_err e : Tx A).
Proof. intros s s' b Hb. by tx_inv. Qed.
Lemma ro_if {A} (b : bool) (m1 m2 : Tx A) :
  read_only m1 -> read_only m2 -> read_only (if b then m1 else m2).
Proof. by destruct b. Qed.
#[export] Hint Resolve ro_bind ro_ret ro_lift ro_read ro_err ro_if : ro.

Ltac solve_ro :=
  repeat first
    [ progress intros
    | solve [eauto 2 with ro]
    | apply ro_bind
    | apply ro_if
    | match goal with |- read_only (match ?x with _ => _ end) => destruct x end ].

Section reads.
Context `{Sha256} `{FlowCodec}.

Lemma ro_ensure_live_flow_lease lease now : read_only (ensure_live_flow_lease lease now).
Proof. unfold ensure_live_flow_lease, select_request. solve_ro. Qed.

Lemma ro_ensure_live_lease lease now : read_only (ensure_live_lease lease now).
Proof. unfold ensure_live_lease. solve_ro. Qed.

Lemma ro_read_flow_checkpoint id : read_only (read_flow_checkpoint id).
Proof. unfold read_flow_checkpoint. solve_ro. Qed.

Lemma ro_decode_and_validate id stored : read_only (decode_and_validate_flow_checkpoint id stored).
Proof. unfold decode_and_validate_flow_checkpoint. solve_ro. Qed.

Lemma ro_validate_integrity id : read_only (validate_flow_authorization_integrity id).
Proof.
  unfold validate_flow_authorization_integrity, load_flow_authorization,
    validate_consumed_flow_receipt. solve_ro.
Qed.

Lemma ro_validated_terminal id kind : read_only (validated_terminal_flow_result id kind).
Proof.
  unfold validated_terminal_flow_result. solve_ro.
Qed.

Lemma ro_exact_replay id t b : read_only (validate_exact_flow_replay id t b).
Proof. unfold validate_exact_flow_replay. solve_ro. Qed.

Lemma ro_authorization_is_corrupt id : read_only (authorization_is_corrupt id).
Proof.
  intros s s' b. unfold authorization_is_corrupt.
  destruct (validate_flow_authorization_integrity id s) as [|e|]; [|destruct e; try done|done].
  - by intros [= -> _].
  - destruct (String.eqb _ _); [by intros [= -> _]|done].
Qed.

Lemma ro_terminal_before_cancel id kind st : read_only (terminal_before_cancel id kind st).
Proof. unfold terminal_before_cancel. solve_ro. Qed.

Lemma ro_recovered_cancellation active : read_only (recovered_cancellation_flow_result active).
Proof. unfold recovered_cancellation_flow_result. solve_ro. Qed.

Lemma ro_active_leases now recovery : read_only (active_leases now recovery).
Proof. unfold active_leases. solve_ro. Qed.

(** A terminal flow result is only ever found for a flow request. *)
Lemma validated_terminal_kind id kind s s' t :
  validated_terminal_flow_result id kind s = Ok (s', Some t) -> kind = FLOW_OPERATION_KIND.
Proof.
  unfold validated_terminal_flow_result. destruct (String.eqb_spec kind FLOW_OPERATION_KIND); [done|].
  simpl. intros Hx. by tx_inv.
Qed.
End reads.
#[export] Hint Resolve ro_ensure_live_flow_lease ro_ensure_live_lease ro_read_flow_checkpoint
  ro_decode_and_validate ro_validate_integrity ro_validated_terminal ro_exact_replay
  ro_authorization_is_corrupt ro_terminal_before_cancel ro_recovered_cancellation
  ro_active_leases : ro.

(** Replace the store after a read-only transaction by the one before. *)
Ltac ro_inv :=
  repeat match goal with
  | H : ?m ?s = Ok (?s', _) |- _ =>
      is_var s'; assert_fails (constr_eq s s');
      let E := fresh in
      assert (E : read_only m) by (solve [eauto 2 with ro]);
      let E' := fresh in
      pose proof (E _ _ _ H) as E'; clear E; subst s'
  end.
