(* ===== verification/StoreEffect.v ===== *)
(** * What each store operation does

    For every operation that returns [Ok], the exact store it leaves: one
    lemma per operation, from which the reduction to the primitive steps of
    [StoreStep] follows. *)

From S2P Require Import Prelude Core Policy FlowDef FlowData FlowSnapshot StoreDef.
From S2P Require Import StoreFlow StoreQueue StoreStep.

Local Open Scope Z_scope.

Definition unique_ids (s : Store) : Prop := NoDup (q_request_id <$> requests s).

(** One row that satisfies [p] becomes [f] of it, and one event is recorded. *)
Definition row_effect (s : Store) (p : RequestRow -> bool) (f : RequestRow -> RequestRow)
    (now : Z) (kind : string) (s' : Store) : Prop :=
  exists i r, requests s !! i = Some r /\ p r = true /\ 0 <= now
    /\ requests_schema (<[i := f r]> (requests s))
    /\ s' = with_event (set_requests s (<[i := f r]> (requests s))) (q_request_id r) now kind "".

Lemma update_then_event p f id now kind s s1 n s2 seq :
  unique_ids s -> update_requests p f s = Ok (s1, n) -> n = 1%nat ->
  append_event_tx id now kind "" s1 = Ok (s2, seq) ->
  (forall r, p r = true -> q_request_id r = id) ->
  row_effect s p f now kind s2.
Proof.
  intros Hu Hup -> Hev Hp.
  destruct (update_requests_Ok p f id s s1 1 Hu Hup Hp) as [[? _]|[_ (i & r & Hi & Hpr & -> & Hs)]];
    [done|].
  apply append_event_Ok in Hev as (-> & _ & Hnow & _).
  exists i, r. rewrite (Hp r Hpr). done.
Qed.

Lemma by_id_eq id r : by_id id r = true <-> q_request_id r = id.
Proof. apply String.eqb_eq. Qed.

Lemma state_is_true a b : state_is a b = true <-> a = b.
Proof. apply bool_decide_eq_true. Qed.

Lemma sql_integer_Ok v a : sql_integer v = Ok a -> a = v /\ v <= i64_max.
Proof. unfold sql_integer. destruct (v <=? i64_max) eqn:E; intros; simplify_eq. split; [done|lia]. Qed.

Lemma lease_expiry_Ok now d e : lease_expiry now d = Ok e -> e = now + d /\ d <> 0 /\ e <= u64_max.
Proof.
  unfold lease_expiry, checked_add64. destruct (d =? 0) eqn:E; [done|].
  destruct (_ <=? _) eqn:E2; intros; simplify_eq/=. split_and!; lia || done.
Qed.

(** Solves [forall r, p r = true -> q_request_id r = id] for the WHERE clauses
    of this development. *)
Ltac where_id :=
  let r := fresh "r" in let H := fresh in
  intros r H; cbn beta in H; rewrite ?andb_true_iff in H; destruct_and?;
  repeat match goal with
  | H : live_lease _ _ _ = true |- _ => apply live_lease_spec in H as (H & _)
  | H : by_id _ _ = true |- _ => apply by_id_eq in H
  end; done.

(** Facts about the selected row, from [p r = true]. *)
Ltac where_facts H :=
  cbn beta in H; rewrite ?andb_true_iff in H; destruct_and?;
  repeat match goal with
  | H : by_id _ _ = true |- _ => apply by_id_eq in H
  | H : state_is _ _ = true |- _ => apply state_is_true in H
  end.

(** Read results and leftover conversions. *)
Ltac tx_facts :=
  repeat match goal with
  | H : sql_integer _ = Ok _ |- _ => apply sql_integer_Ok in H as [-> H]
  | H : lease_expiry _ _ = Ok _ |- _ => apply lease_expiry_Ok in H as (-> & ? & ?)
  | H : parse_state (as_str _) = Ok _ |- _ => rewrite parse_state_as_str in H; injection H as <-
  | H : negb (_ =? 1)%nat = false |- _ => apply negb_false_iff, Nat.eqb_eq in H
  | H : negb _ = false |- _ => apply negb_false_iff in H
  | H : negb _ = true |- _ => apply negb_true_iff in H
  end.

(** ** Acceptance *)

Lemma existing_acceptance_Ok a s s' o :
  existing_acceptance_tx a s = Ok (s', o) ->
  s' = s /\
  match List.find (same_acceptance a) (requests s) with
  | None => o = None
  | Some r => o = Some (Existing (q_request_id r) (q_state r))
              /\ q_operation_kind r = ar_operation_kind a /\ q_operation r = ar_operation a
  end.
Proof.
  unfold existing_acceptance_tx. intros Hx. apply tx_bind_Ok in Hx as (s1 & o1 & Hs & Hx).
  apply tx_read_Ok in Hs as [-> ->].
  destruct (List.find (same_acceptance a) (requests s)) as [r|].
  - destruct (_ && _) eqn:Ek; [|by tx_inv]. apply andb_true_iff in Ek as [E1 E2].
    apply String.eqb_eq in E1, E2. tx_inv. tx_facts. done.
  - by tx_inv.
Qed.

Lemma accept_tx_Ok a now s s' out :
  accept_tx a now s = Ok (s', out) ->
  (exists r, List.find (same_acceptance a) (requests s) = Some r
     /\ q_operation_kind r = ar_operation_kind a /\ q_operation r = ar_operation a
     /\ s' = s /\ out = Existing (q_request_id r) (q_state r))
  \/ (List.find (same_acceptance a) (requests s) = None
     /\ List.find (by_id (ar_request_id a)) (requests s) = None
     /\ s' = accepted_store s a now /\ 0 <= now
     /\ out = Created (ar_request_id a) (default 1 (projects s !! ar_project_id a))
     /\ default 1 (projects s !! ar_project_id a) < i64_max
     /\ requests_schema (requests s')).
Proof.
  unfold accept_tx. intros Hx. apply tx_bind_Ok in Hx as (s1 & o & He & Hx).
  apply existing_acceptance_Ok in He as [-> He].
  destruct (List.find (same_acceptance a) (requests s)) as [r|].
  { destruct He as (-> & Hk & Ho). left. exists r. by tx_inv. }
  subst o. right. apply tx_bind_Ok in Hx as (s1 & o & Hs & Hx). apply tx_read_Ok in Hs as [-> ->].
  destruct (List.find (by_id _) (requests s)) as [r|]; [by tx_inv|].
  apply tx_bind_Ok in Hx as (s1 & [] & Hp & Hx). apply tx_bind_Ok in Hx as (s2 & q & Ha & Hx).
  assert (Hs2 : q = default 1 (projects s !! ar_project_id a) /\ q < i64_max
    /\ s2 = set_projects s (<[ar_project_id a := q + 1]> (projects s))).
  { unfold insert_project in Hp. unfold advance_project in Ha.
    destruct (projects s !! ar_project_id a) as [n|] eqn:En; simplify_eq/=.
    - rewrite En in Ha. destruct (_ <=? _) eqn:E; simplify_eq. split_and!; try done. lia.
    - rewrite lookup_insert_eq in Ha. destruct (_ <=? _) eqn:E; simplify_eq.
      split_and!; [done|lia|]. unfold set_projects; simpl. by rewrite insert_insert_eq. }
  destruct Hs2 as (-> & Hlt & ->).
  apply tx_bind_Ok in Hx as (s3 & [] & Hi & Hx). unfold insert_request in Hi.
  destruct (_ && _) eqn:Es; simplify_eq/=. apply andb_true_iff in Es as [Es _].
  apply bool_decide_eq_true in Es.
  apply tx_bind_Ok in Hx as (s4 & n & Hev & Hx). apply append_event_Ok in Hev as (-> & _ & Hnow & _).
  tx_inv. match goal with H : unsigned_integer _ = _ |- _ => unfold unsigned_integer in H end.
  destruct (0 <=? _); simplify_eq. split_and!; done.
Qed.

(** ** Ordered selections *)

Lemma insert_by_perm {A} (key : A -> Z) x l : insert_by key x l ≡ₚ x :: l.
Proof.
  induction l as [|y l IH]; simpl; [done|]. destruct (_ <=? _); [done|].
  rewrite IH. by constructor.
Qed.

Lemma order_by_perm {A} (key : A -> Z) l : order_by key l ≡ₚ l.
Proof. induction l as [|x l IH]; simpl; [done|]. by rewrite insert_by_perm, IH. Qed.

Lemma claim_candidate_Some s c :
  claim_candidate s = Some c ->
  c ∈ requests s /\ claimable (requests s) c = true.
Proof.
  unfold claim_candidate. intros Hc. apply head_Some_elem_of in Hc.
  rewrite order_by_perm in Hc. apply list_elem_of_In, filter_In in Hc as [Hin Hp].
  by apply list_elem_of_In in Hin.
Qed.

Lemma claimable_queued rows c : claimable rows c = true -> q_state c = ReqQueued.
Proof. unfold claimable. rewrite !andb_true_iff. intros [[Hq _] _]. by apply state_is_true. Qed.

Section effects.
Context `{Sha256} `{FlowCodec}.

(** ** Claiming *)

Definition claimed_row (owner token : string) (expires : Z) (r : RequestRow) : RequestRow :=
  set_lease (set_attempt (set_req_state r ReqLeased) (q_attempt r + 1))
    (Some owner) (Some token) (Some expires).

(** The proof a claimed flow request must carry. *)
Definition authorized_claim (s : Store) (c : RequestRow) : Prop :=
  q_operation_kind c = FLOW_OPERATION_KIND ->
  exists proof, validate_flow_authorization_integrity (q_request_id c) s = Ok (s, proof).

(** A queued request can be served: its authorization proof is intact when it
    is a flow run, and its counters have room. *)
Definition serviceable (s : Store) (r : RequestRow) : Prop :=
  authorized_claim s r /\ q_attempt r < i64_max
  /\ max_sequence (q_request_id r) (events s) < i64_max.

Lemma claim_tx_Ok owner token now d s s' o :
  unique_ids s -> claim_tx owner token now d s = Ok (s', o) ->
  (claim_candidate s = None /\ o = None /\ s' = s)
  \/ exists i c, claim_candidate s = Some c /\ requests s !! i = Some c
     /\ o = Some (c, q_attempt c + 1, now + d) /\ q_state c = ReqQueued
     /\ serviceable s c /\ 0 <= now
     /\ requests_schema (<[i := claimed_row owner token (now + d) c]> (requests s))
     /\ s' = with_event (set_requests s (<[i := claimed_row owner token (now + d) c]> (requests s)))
               (q_request_id c) now "started" "".
Proof.
  unfold claim_tx. intros Hu Hx.
  do 4 (apply tx_bind_Ok in Hx as (? & ? & ? & Hx)). tx_leaf. tx_facts.
  destruct (claim_candidate s) as [c|] eqn:Ec; [|left; by tx_inv].
  right. apply claim_candidate_Some in Ec as Hc. destruct Hc as [Hin Hcl].
  apply tx_bind_Ok in Hx as (s1 & [] & Hauth & Hx).
  assert (Ha : s1 = s /\ authorized_claim s c).
  { unfold authorized_claim. destruct (String.eqb_spec (q_operation_kind c) FLOW_OPERATION_KIND).
    - apply tx_bind_Ok in Hauth as (s2 & proof & Hv & Hauth). tx_inv.
      pose proof (ro_validate_integrity _ _ _ _ Hv) as ->. eauto.
    - by tx_inv. }
  clear Hauth. destruct Ha as [-> Ha].
  apply tx_bind_Ok in Hx as (? & attempt & Hat & Hx). apply tx_lift_Ok in Hat as [-> Hat].
  destruct (_ <=? _) eqn:Ea; [|done]. injection Hat as <-.
  apply tx_bind_Ok in Hx as (s2 & n & Hup & Hx).
  destruct (negb (n =? 1)%nat) eqn:En; [by tx_inv|].
  apply negb_false_iff, Nat.eqb_eq in En.
  apply tx_bind_Ok in Hx as (s3 & seq & Hev & Hx). tx_inv.
  assert (Hmax : max_sequence (q_request_id c) (events s) < i64_max).
  { pose proof Hev as Hev'. apply append_event_Ok in Hev' as (_ & -> & _ & Hle & _).
    assert (Heq : events s2 = events s).
    { by destruct (update_requests_Ok _ _ (q_request_id c) _ _ _ Hu Hup ltac:(where_id))
        as [[_ ->]|[_ (? & ? & _ & _ & -> & _)]]. }
    rewrite Heq in Hle. lia. }
  destruct (update_then_event _ _ (q_request_id c) _ _ _ _ _ _ _ Hu Hup eq_refl Hev ltac:(where_id))
    as (i & r & Hi & Hpr & Hnow & Hs & ->).
  where_facts Hpr.
  assert (r = c) as ->.
  { apply list_elem_of_lookup in Hin as [j Hj].
    assert (i = j) as ->.
    { eapply (NoDup_lookup _ _ _ (q_request_id c) Hu); rewrite list_lookup_fmap;
        [rewrite Hi|rewrite Hj]; simpl; congruence. }
    congruence. }
  exists i, c. split_and!; try done. split_and!; [done|lia|done].
Qed.

(** ** Renewal and events under a lease *)

Lemma renew_tx_Ok lease now d s s' l :
  unique_ids s -> renew_tx lease now d s = Ok (s', l) ->
  exists i r, requests s !! i = Some r /\ live_lease lease now r = true
    /\ l = with_expiry lease (now + d)
    /\ requests_schema (<[i := set_lease r (q_lease_owner r) (q_lease_token r) (Some (now + d))]> (requests s))
    /\ s' = set_requests s
              (<[i := set_lease r (q_lease_owner r) (q_lease_token r) (Some (now + d))]> (requests s)).
Proof.
  unfold renew_tx. intros Hu Hx.
  do 3 (apply tx_bind_Ok in Hx as (? & ? & ? & Hx)). tx_leaf. tx_facts.
  apply tx_bind_Ok in Hx as (s1 & n & Hup & Hx).
  destruct (negb (n =? 1)%nat) eqn:En; [by tx_inv|]. tx_facts. subst n. tx_inv.
  destruct (update_requests_Ok _ _ (le_request_id lease) _ _ _ Hu Hup ltac:(where_id))
    as [[? _]|[_ (i & r & Hi & Hp & -> & Hs)]]; [done|].
  exists i, r. done.
Qed.

Lemma ensure_live_lease_Ok lease now s s' :
  ensure_live_lease lease now s = Ok (s', tt) ->
  s' = s /\ exists i r, requests s !! i = Some r /\ live_lease lease now r = true.
Proof.
  unfold ensure_live_lease. intros Hx. apply tx_bind_Ok in Hx as (s1 & b & Hr & Hx).
  apply tx_read_Ok in Hr as [-> ->]. destruct (existsb _ _) eqn:E; [|by tx_inv]. tx_inv.
  split; [done|]. apply existsb_true_elem in E as (r & Hin & Hr).
  apply list_elem_of_lookup in Hin as [i Hi]. eauto.
Qed.

Lemma append_leased_event_tx_Ok lease now kind payload s s' e :
  append_leased_event_tx lease now kind payload s = Ok (s', e) ->
  exists i r, requests s !! i = Some r /\ live_lease lease now r = true /\ 0 <= now
    /\ s' = with_event s (le_request_id lease) now kind payload
    /\ ev_sequence e = max_sequence (le_request_id lease) (events s) + 1.
Proof.
  unfold append_leased_event_tx. intros Hx.
  apply tx_bind_Ok in Hx as (? & ? & ? & Hx). tx_inv. tx_facts.
  match goal with H : ensure_live_lease _ _ _ = _ |- _ => rename H into Hl end.
  match goal with x : () |- _ => destruct x end.
  apply ensure_live_lease_Ok in Hl as (-> & i & r & Hi & Hr).
  match goal with H : append_event_tx _ _ _ _ _ = _ |- _ => apply append_event_Ok in H as (-> & -> & ? & _) end.
  exists i, r. done.
Qed.

(** ** Completion *)

(** The row of an id is unique. *)
Lemma same_row s i j r r' :
  unique_ids s -> requests s !! i = Some r -> requests s !! j = Some r' ->
  q_request_id r = q_request_id r' -> i = j /\ r = r'.
Proof.
  intros Hu Hi Hj Hid.
  assert (i = j) as ->.
  { eapply (NoDup_lookup _ _ _ (q_request_id r) Hu); rewrite list_lookup_fmap;
      [rewrite Hi|rewrite Hj]; simpl; congruence. }
  split; congruence.
Qed.

Lemma found_row s p r :
  List.find p (requests s) = Some r -> p r = true /\ exists i, requests s !! i = Some r.
Proof.
  intros Hf. apply find_Some in Hf as [Hp Hin]. split; [done|]. by apply list_elem_of_lookup.
Qed.

(** The effect on the row that was read, when the UPDATE names its id. *)
Lemma row_effect_at s p f now kind s' i r :
  unique_ids s -> row_effect s p f now kind s' -> requests s !! i = Some r ->
  (forall r', p r' = true -> q_request_id r' = q_request_id r) ->
  p r = true /\ 0 <= now /\ requests_schema (<[i := f r]> (requests s))
  /\ s' = with_event (set_requests s (<[i := f r]> (requests s))) (q_request_id r) now kind "".
Proof.
  intros Hu (j & r' & Hj & Hp & Hnow & Hs & ->) Hi Hid.
  destruct (same_row s j i r' r Hu Hj Hi (Hid _ Hp)) as [-> ->]. done.
Qed.

Definition finished_at (s s' : Store) (i : nat) (r : RequestRow) (state : RequestState)
    (now : Z) (payload kind : string) : Prop :=
  s' = with_event
         (set_requests s (<[i := finish_row state now (Some payload) r]> (requests s)))
         (q_request_id r) now kind ""
  /\ 0 <= now /\ requests_schema (<[i := finish_row state now (Some payload) r]> (requests s)).

Lemma finish_tx_Ok lease now ts result s s' out :
  unique_ids s -> finish_tx lease now ts result s = Ok (s', out) ->
  exists i r, requests s !! i = Some r /\ live_lease lease now r = true
    /\ st_completed_at_ms out = now
    /\ ((q_state r = ReqLeased /\ ts <> TermCancelled
         /\ st_state out = terminal_request_state ts /\ st_payload out = result
         /\ finished_at s s' i r (terminal_request_state ts) now result (terminal_event_kind ts))
        \/ (q_state r = ReqCancellationRequested /\ st_state out = ReqCancelled
            /\ q_result r = Some (st_payload out)
            /\ finished_at s s' i r ReqCancelled now (st_payload out) "cancelled")).
Proof.
  unfold finish_tx. intros Hu Hx.
  do 4 (apply tx_bind_Ok in Hx as (? & ? & ? & Hx)). tx_leaf. tx_facts.
  match goal with H : List.find _ _ = Some ?r |- _ => rename r into live; rename H into Hf end.
  apply found_row in Hf as [Hl [i Hi]]. exists i, live. split; [done|]. split; [done|].
  apply live_lease_spec in Hl as Hid. destruct Hid as [Hid _].
  apply tx_bind_Ok in Hx as (s1 & [[[st pl] k] n] & Hm & Hx).
  destruct (negb (n =? 1)%nat) eqn:En; [by tx_leaf|]. tx_facts. subst n.
  apply tx_bind_Ok in Hx as (s2 & seq & Hev & Hx). tx_leaf.
  destruct (q_state live) eqn:Est; try (by destruct (q_result live); tx_leaf).
  - destruct (q_result live); [by tx_leaf|].
    destruct ts; [| |by tx_leaf];
      (apply tx_bind_Ok in Hm as (s1' & n & Hup & Hm); tx_leaf;
       pose proof (update_then_event _ _ _ _ _ _ _ _ _ _ Hu Hup eq_refl Hev ltac:(where_id)) as He;
       apply (row_effect_at _ _ _ _ _ _ i live Hu) in He as (_ & Hnow & Hs & ->);
       [|done|rewrite Hid; where_id];
       split; [done|]; left; split_and!; try done; by rewrite Hid).
  - destruct (q_result live) as [cr|] eqn:Er; [|by tx_leaf].
    apply tx_bind_Ok in Hm as (s1' & n & Hup & Hm). tx_leaf.
    pose proof (update_then_event _ _ _ _ _ _ _ _ _ _ Hu Hup eq_refl Hev ltac:(where_id)) as He.
    apply (row_effect_at _ _ _ _ _ _ i live Hu) in He as (_ & Hnow & Hs & ->);
      [|done|rewrite Hid; where_id].
    rewrite Er in Hs |- *. split; [done|]. right. split_and!; done.
Qed.

Lemma finish_terminal_flow_tx_Ok lease now result s s' out :
  unique_ids s -> finish_terminal_flow_tx lease now result s = Ok (s', out) ->
  exists i r cached, requests s !! i = Some r /\ live_lease lease now r = true
    /\ q_operation_kind r = FLOW_OPERATION_KIND
    /\ validated_terminal_flow_result (le_request_id lease) (q_operation_kind r) s = Ok (s, Some cached)
    /\ completion_allowed (q_state r) (q_result r) cached result = true
    /\ st_payload out = result /\ st_completed_at_ms out = now
    /\ st_state out = (terminal_request_resolution (ft_outcome (vt_terminal cached))).1.1
    /\ finished_at s s' i r (st_state out) now result
         (terminal_request_resolution (ft_outcome (vt_terminal cached))).1.2.
Proof.
  unfold finish_terminal_flow_tx. intros Hu Hx.
  do 4 (apply tx_bind_Ok in Hx as (? & ? & ? & Hx)). tx_leaf. tx_facts.
  match goal with H : List.find _ _ = Some ?r |- _ => rename r into live; rename H into Hf end.
  apply found_row in Hf as [Hl [i Hi]]. exists i, live.
  apply live_lease_spec in Hl as Hid. destruct Hid as [Hid _].
  destruct (negb _) eqn:Ek; [by tx_leaf|]. tx_facts. apply String.eqb_eq in Ek.
  do 2 (apply tx_bind_Ok in Hx as (? & ? & ? & Hx)). tx_leaf. ro_inv.
  match goal with H : validated_terminal_flow_result _ _ _ = Ok (_, Some ?c) |- _ =>
    rename c into cached; rename H into Hv end.
  exists cached. destruct (negb _) eqn:Ea in Hx; [by tx_leaf|]. tx_facts.
  destruct (terminal_request_resolution _) as [[st k] co] eqn:Et.
  apply tx_bind_Ok in Hx as (s1 & n & Hup & Hx).
  destruct (negb (n =? 1)%nat) eqn:En; [by tx_leaf|]. tx_facts. subst n.
  apply tx_bind_Ok in Hx as (s2 & seq & Hev & Hx). tx_leaf.
  pose proof (update_then_event _ _ _ _ _ _ _ _ _ _ Hu Hup eq_refl Hev ltac:(where_id)) as He.
  apply (row_effect_at _ _ _ _ _ _ i live Hu) in He as (_ & Hnow & Hs & ->);
    [|done|rewrite Hid; where_id].
  rewrite ?Hid. unfold finished_at. rewrite ?Hid. split_and!; done.
Qed.

Lemma fail_corrupt_tx_Ok id now result s s' out :
  unique_ids s -> fail_corrupt_flow_authorization_tx id now result s = Ok (s', out) ->
  exists i r, requests s !! i = Some r /\ q_request_id r = id
    /\ q_operation_kind r = FLOW_OPERATION_KIND
    /\ ((s' = s /\ (is_terminal_state (q_state r) = true
                    /\ (exists st, out = RecoveryAlreadyTerminal st /\ st_state st = q_state r
                          /\ q_result r = Some (st_payload st))
                    \/ is_terminal_state (q_state r) = false /\ out = NoLongerEligible))
        \/ (q_state r = ReqQueued /\ authorization_is_corrupt id s = Ok (s, true)
            /\ out = RecoveryFailed {| st_state := ReqFailed; st_payload := result;
                                       st_completed_at_ms := now |}
            /\ finished_at s s' i r ReqFailed now result "failed")).
Proof.
  unfold fail_corrupt_flow_authorization_tx. intros Hu Hx.
  do 3 (apply tx_bind_Ok in Hx as (? & ? & ? & Hx)). tx_leaf. tx_facts.
  match goal with H : List.find _ _ = Some ?r |- _ => rename r into live; rename H into Hf end.
  apply found_row in Hf as [Hl [i Hi]]. apply by_id_eq in Hl. exists i, live.
  destruct (negb _) eqn:Ek; [by tx_leaf|]. tx_facts. apply String.eqb_eq in Ek.
  do 3 (split; [done|]).
  apply tx_bind_Ok in Hx as (? & ? & ? & Hx). tx_leaf. tx_facts.
  destruct (is_terminal_state (q_state live)) eqn:Et.
  { left. destruct (q_result live) as [pl|], (q_completed_at_ms live) as [t|]; try by tx_leaf.
    apply tx_bind_Ok in Hx as (? & ? & ? & Hx). tx_leaf. split; [done|]. left.
    split; [done|]. eexists. split_and!; done. }
  destruct (negb (state_is _ _)) eqn:Eq; [left; tx_leaf; auto|]. tx_facts.
  apply state_is_true in Eq.
  apply tx_bind_Ok in Hx as (s1 & b & Hb & Hx).
  pose proof (ro_authorization_is_corrupt _ _ _ _ Hb) as ->.
  destruct b; simpl in Hx; [|left; tx_leaf; auto].
  apply tx_bind_Ok in Hx as (s1 & n & Hup & Hx).
  destruct (negb (n =? 1)%nat) eqn:En; [by tx_leaf|]. tx_facts. subst n.
  apply tx_bind_Ok in Hx as (s2 & seq & Hev & Hx). tx_leaf.
  pose proof (update_then_event _ _ _ _ _ _ _ _ _ _ Hu Hup eq_refl Hev ltac:(where_id)) as He.
  apply (row_effect_at _ _ _ _ _ _ i live Hu) in He as (_ & Hnow & Hs & ->); [|done|where_id].
  right. split_and!; done.
Qed.

(** ** Cancellation *)

(** What a cancellation leaves, by the state it finds. *)
Definition cancel_effect (s s' : Store) (i : nat) (r : RequestRow) (now : Z) (result : string)
    (out : CancelOutcome) : Prop :=
  match q_state r with
  | ReqQueued =>
    out = OutcomeCancelled /\ 0 <= now
    /\ let r' := set_result (set_completed (set_req_state r ReqCancelled) now) (Some result) in
       requests_schema (<[i := r']> (requests s))
       /\ s' = with_event (set_requests s (<[i := r']> (requests s))) (q_request_id r) now
                 "cancelled" ""
  | ReqLeased =>
    out = OutcomeCancellationRequested /\ 0 <= now
    /\ let r' := set_result (set_req_state r ReqCancellationRequested) (Some result) in
       requests_schema (<[i := r']> (requests s))
       /\ s' = with_event (set_requests s (<[i := r']> (requests s))) (q_request_id r) now
                 "cancellation_requested" ""
  | ReqCancellationRequested => out = OutcomeAlreadyRequested /\ s' = s
  | state => out = OutcomeAlreadyTerminal state /\ s' = s
  end.

Lemma terminal_before_cancel_Some id kind st s s' t :
  terminal_before_cancel id kind st s = Ok (s', Some t) ->
  s' = s /\ validated_terminal_flow_result id kind s = Ok (s, Some t)
  /\ (st = ReqLeased
      \/ st = ReqCancellationRequested /\ terminal_may_override_cancellation t = true).
Proof.
  unfold terminal_before_cancel. destruct (is_active_state st) eqn:Ea; [|intros; by tx_leaf].
  intros Hx. apply tx_bind_Ok in Hx as (s1 & o & Hv & Hx). tx_leaf. ro_inv.
  destruct o as [t'|]; simplify_eq/=.
  destruct (_ || _) eqn:Eo; [|done]. simplify_eq/=. split_and!; [done|done|].
  apply orb_true_iff in Eo as [Eo|Eo]; [left; by apply state_is_true|].
  destruct st; try done; [by left|by right].
Qed.

Lemma cancel_tx_Ok id now result expected s s' out :
  unique_ids s -> cancel_tx id now result expected s = Ok (s', out) ->
  exists i r, requests s !! i = Some r /\ q_request_id r = id
    /\ ensure_expected_target_kind id (q_operation_kind r) expected = Ok tt
    /\ ((terminal_before_cancel id (q_operation_kind r) (q_state r) s = Ok (s, None)
         /\ cancel_effect s s' i r now result out)
        \/ exists t, terminal_before_cancel id (q_operation_kind r) (q_state r) s = Ok (s, Some t)
           /\ out = (terminal_request_resolution (ft_outcome (vt_terminal t))).2
           /\ finished_at s s' i r (terminal_request_resolution (ft_outcome (vt_terminal t))).1.1
                now (ft_encoded_result (vt_terminal t))
                (terminal_request_resolution (ft_outcome (vt_terminal t))).1.2).
Proof.
  unfold cancel_tx. intros Hu Hx.
  do 6 (apply tx_bind_Ok in Hx as (? & ? & ? & Hx)). tx_leaf. tx_facts.
  match goal with H : List.find _ _ = Some ?r |- _ => rename r into live; rename H into Hf end.
  apply found_row in Hf as [Hl [i Hi]]. apply by_id_eq in Hl. exists i, live.
  match goal with H : terminal_before_cancel _ _ _ _ = Ok (?s1, ?o) |- _ => rename H into Ht;
    pose proof (ro_terminal_before_cancel _ _ _ _ _ _ Ht) as ->; rename o into terminal end.
  match goal with u : () |- _ => destruct u end. do 3 (split; [done|]).
  destruct terminal as [t|].
  { right. exists t. split; [done|].
    destruct (terminal_request_resolution _) as [[st k] co] eqn:Et.
    apply tx_bind_Ok in Hx as (s1 & n & Hup & Hx).
    destruct (negb (n =? 1)%nat) eqn:En; [by tx_leaf|]. tx_facts. subst n.
    apply tx_bind_Ok in Hx as (s2 & seq & Hev & Hx). tx_leaf.
    pose proof (update_then_event _ _ _ _ _ _ _ _ _ _ Hu Hup eq_refl Hev ltac:(where_id)) as He.
    apply (row_effect_at _ _ _ _ _ _ i live Hu) in He as (_ & Hnow & Hs & ->); [|done|where_id].
    split_and!; done. }
  left. split; [done|]. unfold cancel_effect.
  destruct (q_state live) eqn:Est; try by tx_leaf.
  all: apply tx_bind_Ok in Hx as (s1 & n & Hup & Hx);
    destruct (negb (n =? 1)%nat) eqn:En; [by tx_leaf|]; tx_facts; subst n;
    apply tx_bind_Ok in Hx as (s2 & seq & Hev & Hx); tx_leaf;
    pose proof (update_then_event _ _ _ _ _ _ _ _ _ _ Hu Hup eq_refl Hev ltac:(where_id)) as He;
    apply (row_effect_at _ _ _ _ _ _ i live Hu) in He as (_ & Hnow & Hs & ->); [|done|where_id];
    split_and!; done.
Qed.

(** ** Recovery *)

(** The row a recovered lease leaves, and the event it records. *)
Definition recovered_row (s : Store) (active : ActiveLease) (now : Z) (r r' : RequestRow)
    (kind : string) : Prop :=
  match al_state active with
  | ReqLeased =>
    exists terminal,
      validated_terminal_flow_result (al_request_id active) (al_operation_kind active) s
      = Ok (s, terminal)
      /\ match terminal with
         | None => r' = clear_lease (set_req_state r ReqQueued) /\ kind = "lease_expired"
         | Some t =>
           let res := terminal_request_resolution (ft_outcome (vt_terminal t)) in
           r' = finish_row res.1.1 now (Some (ft_encoded_result (vt_terminal t))) r
           /\ kind = res.1.2
         end
  | ReqCancellationRequested =>
    exists terminal,
      recovered_cancellation_flow_result active s = Ok (s, terminal)
      /\ match terminal with
         | None => r' = finish_row ReqCancelled now (q_result r) r /\ kind = "cancelled"
         | Some t =>
           let res := terminal_request_resolution (ft_outcome (vt_terminal t)) in
           r' = finish_row res.1.1 now (Some (ft_encoded_result (vt_terminal t))) r
           /\ kind = res.1.2
         end
  | _ => False
  end.

Definition recover_effect (s s' : Store) (active : ActiveLease) (now : Z)
    (recovery : LeaseRecovery) : Prop :=
  exists i r r' kind, requests s !! i = Some r /\ q_request_id r = al_request_id active
    /\ q_state r = al_state active /\ recoverable recovery now r = true /\ 0 <= now
    /\ recovered_row s active now r r' kind
    /\ requests_schema (<[i := r']> (requests s))
    /\ s' = with_event (set_requests s (<[i := r']> (requests s))) (q_request_id r) now kind "".

Lemma update_append_if_changed p f id now kind s s1 n s2 :
  unique_ids s -> update_requests p f s = Ok (s1, n) ->
  append_if_changed n id now kind s1 = Ok (s2, tt) ->
  (forall r, p r = true -> q_request_id r = id) ->
  (n = 0%nat /\ s2 = s) \/ (n = 1%nat /\ row_effect s p f now kind s2).
Proof.
  intros Hu Hup Ha Hp. destruct (update_requests_Ok p f id s s1 n Hu Hup Hp) as [[-> ->]|[-> _]].
  - left. unfold append_if_changed in Ha. simpl in Ha. tx_leaf. by rewrite set_requests_id.
  - right. split; [done|]. unfold append_if_changed in Ha. simpl in Ha.
    apply tx_bind_Ok in Ha as (s3 & seq & Hev & Ha). tx_leaf.
    by eapply (update_then_event p f id).
Qed.

Lemma recovered_cancellation_Some active s t :
  recovered_cancellation_flow_result active s = Ok (s, Some t) ->
  validated_terminal_flow_result (al_request_id active) (al_operation_kind active) s
    = Ok (s, Some t)
  /\ terminal_may_override_cancellation t = true.
Proof.
  unfold recovered_cancellation_flow_result. intros Hx.
  apply tx_bind_Ok in Hx as (s1 & o & Hv & Hx). tx_leaf. ro_inv.
  destruct o as [t'|]; simplify_eq/=. destruct (terminal_may_override_cancellation t') eqn:E;
    [|done]. by simplify_eq.
Qed.

Lemma recover_one_Ok now recovery active s s' n :
  unique_ids s -> recover_one now recovery active s = Ok (s', n) ->
  (n = 0%nat /\ s' = s) \/ (n = 1%nat /\ recover_effect s s' active now recovery).
Proof.
  unfold recover_one. intros Hu Hx.
  assert (Hfin : forall p f kind s1 n0 s2,
    update_requests p f s = Ok (s1, n0) -> append_if_changed n0 (al_request_id active) now kind s1 = Ok (s2, tt) ->
    (forall r, p r = true -> q_request_id r = al_request_id active /\ q_state r = al_state active
       /\ recoverable recovery now r = true) ->
    (forall r, q_request_id r = al_request_id active -> recovered_row s active now r (f r) kind) ->
    (n0 = 0%nat /\ s2 = s) \/ (n0 = 1%nat /\ recover_effect s s2 active now recovery)).
  { intros p f kind s1 n0 s2 Hup Ha Hp Hr.
    destruct (update_append_if_changed _ _ _ _ _ _ _ _ _ Hu Hup Ha ltac:(intros; by apply Hp))
      as [?|[-> (i & r & Hi & Hpr & Hnow & Hs & ->)]]; [by left|right; split; [done|]].
    destruct (Hp r Hpr) as (? & ? & ?). exists i, r, (f r), kind. split_and!; auto. }
  destruct (al_state active) eqn:Est; try (by tx_leaf).
  - apply tx_bind_Ok in Hx as (s1 & terminal & Hv & Hx). pose proof (ro_validated_terminal _ _ _ _ _ Hv) as ->.
    apply tx_bind_Ok in Hx as (s1 & [n0 kind] & Hm & Hx). apply tx_bind_Ok in Hx as (s2 & [] & Ha & Hx).
    tx_leaf. destruct terminal as [t|].
    + unfold finalize_recovered_terminal_flow in Hm.
      destruct (terminal_request_resolution _) as [[st k] co] eqn:Et.
      apply tx_bind_Ok in Hm as (s3 & n1 & Hup & Hm). tx_leaf.
      eapply Hfin; [done|done| |].
      * intros r Hr. where_facts Hr. done.
      * intros r _. unfold recovered_row. rewrite Est. exists (Some t). rewrite Et. done.
    + apply tx_bind_Ok in Hm as (s3 & n1 & Hup & Hm). tx_leaf.
      eapply Hfin; [done|done| |].
      * intros r Hr. where_facts Hr. done.
      * intros r _. unfold recovered_row. rewrite Est. by exists None.
  - apply tx_bind_Ok in Hx as (s1 & terminal & Hv & Hx). pose proof (ro_recovered_cancellation _ _ _ _ Hv) as ->.
    apply tx_bind_Ok in Hx as (s1 & [n0 kind] & Hm & Hx). apply tx_bind_Ok in Hx as (s2 & [] & Ha & Hx).
    tx_leaf. unfold finalize_recovered_cancellation in Hm. destruct terminal as [t|].
    + destruct (terminal_request_resolution _) as [[st k] co] eqn:Et.
      apply tx_bind_Ok in Hm as (s3 & n1 & Hup & Hm). tx_leaf.
      eapply Hfin; [done|done| |].
      * intros r Hr. where_facts Hr. done.
      * intros r _. unfold recovered_row. rewrite Est. exists (Some t). rewrite Et. done.
    + apply tx_bind_Ok in Hm as (s3 & n1 & Hup & Hm). tx_leaf.
      eapply Hfin; [done|done| |].
      * intros r Hr. where_facts Hr. done.
      * intros r _. unfold recovered_row. rewrite Est. by exists None.
Qed.

(** ** Flow checkpoints *)

(** The store after a checkpoint is written at [revision] with its transition. *)
Definition saved_store (s : Store) (save : SaveFlowCheckpoint) (bytes : string) (revision : Z)
    (override : bool) (transition_bytes : option string) : Store :=
  let id := le_request_id (sv_lease save) in
  let s1 := set_flow_runs s (<[id := checkpoint_row save bytes revision (sv_updated_at_ms save)
                                       override]> (flow_runs s)) in
  match sv_transition save, transition_bytes with
  | Some t, Some payload =>
    with_event s1 id (sv_updated_at_ms save) (flow_event_kind (tr_kind t)) payload
  | _, _ => s1
  end.

Lemma append_flow_transition_Ok id now t tb s s' e :
  append_flow_transition id now t tb s = Ok (s', e) ->
  s' = match t, tb with
       | Some t, Some payload => with_event s id now (flow_event_kind (tr_kind t)) payload
       | _, _ => s
       end
  /\ (is_Some t -> is_Some tb /\ 0 <= now).
Proof.
  unfold append_flow_transition. destruct t as [t|]; intros Hx; [|tx_leaf; split; [done|intros []; done]].
  apply tx_bind_Ok in Hx as (? & payload & Hp & Hx). tx_leaf.
  apply tx_bind_Ok in Hx as (s1 & seq & Hev & Hx). apply append_event_Ok in Hev as (-> & _ & Hnow & _).
  apply tx_bind_Ok in Hx as (? & ? & ? & Hx). tx_leaf. eauto.
Qed.

(** An event is never recorded at a negative time. *)
Definition recorded_in_time (save : SaveFlowCheckpoint) : Prop :=
  is_Some (sv_transition save) -> 0 <= sv_updated_at_ms save.

(** What a successful save established about the stored and the new checkpoint. *)
Definition save_effect (s s' : Store) (save : SaveFlowCheckpoint) (bytes : string)
    (tb : option string) (override : bool) (existing : option StoredFlowCheckpoint)
    (outcome : FlowPersistenceOutcome) : Prop :=
  let id := le_request_id (sv_lease save) in
  match existing, outcome with
  | None, (revision, updated, CheckpointCreated, _) =>
    revision = 1 /\ updated = sv_updated_at_ms save /\ sv_expected_revision save = 0
    /\ validate_snapshot_successor None (sv_snapshot save) (sv_transition save) = Ok tt
    /\ flow_runs s !! id = None /\ recorded_in_time save
    /\ flow_run_check (checkpoint_row save bytes 1 (sv_updated_at_ms save) override) = true
    /\ s' = saved_store s save bytes 1 override tb
  | Some stored, (revision, updated, CheckpointUpdated, _) =>
    sc_checkpoint_revision stored = sv_expected_revision save
    /\ updated = sv_updated_at_ms save
    /\ revision = sv_expected_revision save + 1 /\ revision <= i64_max
    /\ sc_definition_digest stored = sn_digest (sv_snapshot save)
    /\ (exists previous, decode_flow_checkpoint id stored = Ok previous
        /\ (validate_snapshot_successor (Some (fc_snapshot previous)) (sv_snapshot save)
              (sv_transition save) = Ok tt
            \/ sv_transition save = None
               /\ validate_snapshot_upgrade (fc_snapshot previous) (sv_snapshot save) = Ok tt))
    /\ recorded_in_time save
    /\ flow_run_check (checkpoint_row save bytes revision (sv_updated_at_ms save) override) = true
    /\ s' = saved_store s save bytes revision override tb
  | Some stored, (revision, updated, CheckpointUnchanged, None) =>
    sc_snapshot_bytes stored = bytes /\ revision = sc_checkpoint_revision stored
    /\ updated = sc_updated_at_ms stored
    /\ sc_terminal_result stored = sv_terminal_result save
    /\ (exists previous, decode_and_validate_flow_checkpoint id stored s = Ok (s, previous)
        /\ validate_snapshot_successor (Some (fc_snapshot previous)) (sv_snapshot save) None = Ok tt)
    /\ s' = s
  | _, _ => False
  end.

Lemma map_err_Ok {A} (f : FlowEngineError -> StoreError) (r : eres A) a :
  map_err f r = Ok a -> r = Ok a.
Proof. destruct r; simpl; intros; by simplify_eq. Qed.

Lemma create_checkpoint_Ok save bytes tb override s s' o :
  create_checkpoint save bytes tb (sv_updated_at_ms save) override s = Ok (s', o) ->
  save_effect s s' save bytes tb override None o.
Proof.
  unfold create_checkpoint. intros Hx. destruct (negb _) eqn:Er; [by tx_leaf|]. tx_facts.
  apply tx_bind_Ok in Hx as (? & [] & Hv & Hx). tx_leaf. apply map_err_Ok in Hv.
  apply tx_bind_Ok in Hx as (s1 & [] & Hi & Hx).
  unfold insert_flow_checkpoint in Hi. apply tx_bind_Ok in Hi as (? & ? & Hsq & Hi). tx_leaf. tx_facts.
  unfold insert_flow_run in Hi. destruct (_ && _) eqn:Ec; simplify_eq/=.
  rewrite !andb_true_iff, bool_decide_eq_true in Ec. destruct Ec as [[Hck Hnone] _].
  apply tx_bind_Ok in Hx as (s2 & e & Ha & Hx). apply append_flow_transition_Ok in Ha as [-> Ht].
  tx_leaf. unfold save_effect, saved_store. split_and!; try done; [lia|]. intros Hs. by apply Ht.
Qed.

Lemma advance_checkpoint_Ok save stored previous bytes tb override s s' o :
  sc_definition_digest stored = sn_digest (sv_snapshot save) ->
  decode_flow_checkpoint (le_request_id (sv_lease save)) stored = Ok previous ->
  advance_checkpoint save stored previous bytes tb (sv_updated_at_ms save) override s = Ok (s', o) ->
  save_effect s s' save bytes tb override (Some stored) o.
Proof.
  unfold advance_checkpoint. intros Hd Hprev Hx. destruct (negb _) eqn:Er; [by tx_leaf|]. tx_facts.
  apply tx_bind_Ok in Hx as (? & [] & Hv & Hx). tx_leaf.
  apply tx_bind_Ok in Hx as (? & revision & Hrev & Hx). tx_leaf.
  unfold checked_add64 in Hrev. destruct (_ <=? u64_max) in Hrev; [|done]. injection Hrev as <-.
  apply tx_bind_Ok in Hx as (s1 & [] & Hup & Hx).
  apply tx_bind_Ok in Hx as (s2 & e & Ha & Hx). apply append_flow_transition_Ok in Ha as [-> Ht].
  tx_leaf. unfold update_flow_checkpoint in Hup.
  do 3 (apply tx_bind_Ok in Hup as (? & ? & ? & Hup)). tx_leaf. tx_facts.
  apply tx_bind_Ok in Hup as (s3 & n & Hf & Hup).
  assert (Hs1 : s3 = set_flow_runs s (<[le_request_id (sv_lease save) :=
    checkpoint_row save bytes (sv_expected_revision save + 1) (sv_updated_at_ms save) override]>
    (flow_runs s)) /\ s1 = s3 /\ flow_run_check (checkpoint_row save bytes
      (sv_expected_revision save + 1) (sv_updated_at_ms save) override) = true).
  { unfold update_flow_run in Hf. destruct (n =? 1)%nat eqn:En; [|by tx_leaf]. tx_leaf.
    destruct (flow_runs s !! _); [|by simplify_eq]. destruct (_ && _) in Hf; [|by simplify_eq].
    destruct (flow_run_check _) eqn:Eck; by simplify_eq. }
  destruct Hs1 as (-> & -> & Hck). clear Hup Hf. unfold save_effect.
  split_and!; try done; [lia| |by intros Hs; apply Ht]. exists previous. split; [done|].
  destruct (is_legacy_upgrade save previous) eqn:El.
  - right. unfold is_legacy_upgrade in El. rewrite !andb_true_iff, bool_decide_eq_true in El.
    destruct (terminal_columns_differ _ _ _) in Hv; [done|]. apply map_err_Ok in Hv. tauto.
  - left. by apply map_err_Ok in Hv.
Qed.

Lemma replay_checkpoint_Ok save stored previous tb override s s' o :
  decode_and_validate_flow_checkpoint (le_request_id (sv_lease save)) stored s = Ok (s, previous) ->
  replay_checkpoint save stored previous tb override s = Ok (s', o) ->
  save_effect s s' save (sc_snapshot_bytes stored) tb override (Some stored) o.
Proof.
  unfold replay_checkpoint. intros Hprev Hx.
  destruct (terminal_columns_differ _ _ _) eqn:Et; [by tx_leaf|].
  destruct (_ && _) in Hx; [by tx_leaf|].
  apply tx_bind_Ok in Hx as (s1 & [] & Hv & Hx). apply tx_lift_Ok in Hv as [-> Hv]. apply map_err_Ok in Hv.
  do 2 (apply tx_bind_Ok in Hx as (? & [] & ? & Hx)). tx_leaf. ro_inv.
  unfold terminal_columns_differ in Et. apply orb_false_iff in Et as [Et _].
  apply negb_false_iff, bool_decide_eq_true in Et. unfold save_effect. eauto 10.
Qed.

Lemma ensure_live_flow_lease_Ok lease now s s' st :
  ensure_live_flow_lease lease now s = Ok (s', st) ->
  s' = s /\ exists i r, requests s !! i = Some r /\ live_lease lease now r = true
    /\ q_operation_kind r = FLOW_OPERATION_KIND /\ st = q_state r.
Proof.
  unfold ensure_live_flow_lease. intros Hx. apply tx_bind_Ok in Hx as (? & o & ? & Hx). tx_leaf.
  destruct (List.find _ _) as [r|] eqn:Hf; [|by tx_leaf]. apply found_row in Hf as [Hl [i Hi]].
  destruct (negb _) eqn:Ek; [by tx_leaf|]. tx_facts. tx_leaf. tx_facts.
  apply String.eqb_eq in Ek. split; [done|]. exists i, r. done.
Qed.

(** Everything a successful [save_flow_checkpoint] went through: the row [r] of
    its live lease, the encodings, the override flag and the checkpoint that
    was stored before. *)
Record saved (s s' : Store) (save : SaveFlowCheckpoint) (out : FlowCheckpointSaveOutcome)
    (i : nat) (r : RequestRow) (bytes : string) (tb : option string) (override : bool)
    (existing : option StoredFlowCheckpoint) : Prop := {
  saved_row : requests s !! i = Some r;
  saved_live : live_lease (sv_lease save) (sv_updated_at_ms save) r = true;
  saved_kind : q_operation_kind r = FLOW_OPERATION_KIND;
  saved_start : q_state r = ReqCancellationRequested ->
    forall t, sv_transition save = Some t -> is_effect_started (tr_kind t) = false;
  saved_time : sv_updated_at_ms save <= i64_max;
  saved_identity : sn_run_id (sv_snapshot save) = le_request_id (sv_lease save);
  saved_terminal : validate_flow_terminal_result (sv_snapshot save) (sv_transition save)
                     (sv_terminal_result save) = Ok tt;
  saved_bytes : encode_snapshot (sv_snapshot save) = Ok bytes;
  saved_transition :
    match sv_transition save with
    | None => tb = None
    | Some t => exists payload, tb = Some payload /\ encode_transition t = Ok payload
    end;
  saved_override : terminal_cancellation_override save (q_state r) = Ok override;
  saved_existing : read_flow_checkpoint (le_request_id (sv_lease save)) s = Ok (s, existing);
  saved_checkpoint : so_checkpoint out =
    {| fc_request_id := le_request_id (sv_lease save); fc_snapshot := sv_snapshot save;
       fc_checkpoint_revision := fc_checkpoint_revision (so_checkpoint out);
       fc_updated_at_ms := fc_updated_at_ms (so_checkpoint out);
       fc_terminal_result := sv_terminal_result save |};
  saved_effect : save_effect s s' save bytes tb override existing
    (fc_checkpoint_revision (so_checkpoint out), fc_updated_at_ms (so_checkpoint out),
     so_disposition out, so_event out)
}.

Lemma persist_flow_checkpoint_Ok save bytes tb existing override s s' o :
  persist_flow_checkpoint save bytes tb (sv_updated_at_ms save) existing override s = Ok (s', o) ->
  save_effect s s' save bytes tb override existing o.
Proof.
  unfold persist_flow_checkpoint. destruct existing as [stored|]; [|apply create_checkpoint_Ok].
  intros Hx. apply tx_bind_Ok in Hx as (? & [] & Hd & Hx). tx_leaf.
  unfold validate_stored_digest in Hd. destruct (String.eqb _ _) eqn:Ed in Hd; [|done].
  apply String.eqb_eq in Ed.
  apply tx_bind_Ok in Hx as (s1 & previous & Hp & Hx).
  pose proof (ro_decode_and_validate _ _ _ _ _ Hp) as ->.
  assert (Hdec : decode_flow_checkpoint (le_request_id (sv_lease save)) stored = Ok previous).
  { unfold decode_and_validate_flow_checkpoint in Hp.
    apply tx_bind_Ok in Hp as (s1 & cp & Hc & Hp). apply tx_lift_Ok in Hc as [-> Hc].
    rewrite Hc. f_equal. clear -Hp. by tx_inv. }
  destruct (String.eqb (sc_snapshot_bytes stored) bytes) eqn:Eb in Hx.
  - apply String.eqb_eq in Eb as <-. by eapply replay_checkpoint_Ok.
  - by eapply advance_checkpoint_Ok.
Qed.

Lemma save_flow_checkpoint_tx_Ok save s s' out :
  save_flow_checkpoint_tx save s = Ok (s', out) ->
  exists i r bytes tb override existing, saved s s' save out i r bytes tb override existing.
Proof.
  unfold save_flow_checkpoint_tx. intros Hx.
  apply tx_bind_Ok in Hx as (? & [] & Hid & Hx). apply tx_bind_Ok in Hx as (? & [] & Hv & Hx).
  apply tx_bind_Ok in Hx as (? & bytes & Hb & Hx). apply tx_bind_Ok in Hx as (? & tb & Htb & Hx).
  apply tx_bind_Ok in Hx as (? & now & Hn & Hx). apply tx_bind_Ok in Hx as (s1 & st & Hl & Hx).
  apply tx_lift_Ok in Hid as [-> Hid]. apply tx_lift_Ok in Hv as [-> Hv]. apply tx_lift_Ok in Hb as [-> Hb].
  apply tx_lift_Ok in Htb as [-> Htb]. apply tx_lift_Ok in Hn as [-> Hn]. tx_facts.
  apply ensure_live_flow_lease_Ok in Hl as (-> & i & r & Hi & Hl & Hk & ->).
  destruct (_ && _) eqn:Ec in Hx; [by tx_leaf|].
  apply tx_bind_Ok in Hx as (? & override & Ho & Hx). apply tx_lift_Ok in Ho as [-> Ho].
  apply tx_bind_Ok in Hx as (s1 & existing & He & Hx).
  pose proof (ro_read_flow_checkpoint _ _ _ _ He) as ->.
  apply tx_bind_Ok in Hx as (s2 & [[[rev upd] disp] ev] & Hp & Hx). tx_leaf.
  apply persist_flow_checkpoint_Ok in Hp. unfold validate_flow_request_identity in Hid.
  destruct (String.eqb _ _) eqn:Eid in Hid; [|done]. apply String.eqb_eq in Eid.
  exists i, r, bytes, tb, override, existing. split; try done.
  - intros Hst t Ht. rewrite Hst, Ht in Ec. done.
  - destruct (sv_transition save) as [t|]; [|by injection Htb].
    destruct (encode_transition t) as [payload| |] eqn:Et; try done. injection Htb as <-. eauto.
Qed.

End effects.
