(* ===== verification/StoreFrame.v ===== *)
(** * Frames of the store's transactions

    [respects R m]: a transaction that succeeds leaves a store related by [R]
    to the one it started from. With a preorder the judgement composes along
    binds, so a property of every call follows from the statements that write;
    the [Frame] class says which columns a statement's setter leaves alone. *)

From S2P Require Import Prelude Core Policy FlowDef FlowData FlowSnapshot Artifact StoreDef StoreFlow.
From S2P Require Import StoreQueue StoreAudit StoreAccess StoreAuth StoreView Inventory StoreStep.

Local Open Scope Z_scope.

Definition respects (R : relation Store) {A} (m : Tx A) : Prop :=
  forall s s' a, m s = Ok (s', a) -> R s s'.

(** The two stores agree on [π]. *)
Definition same {X} (π : Store -> X) : relation Store := fun s s' => π s' = π s.

#[export] Instance same_preorder {X} (π : Store -> X) : PreOrder (same π).
Proof. split; [by intros s|]. intros s1 s2 s3 H1 H2. unfold same in *. by rewrite H2. Qed.

#[export] Instance both_preorder (R Q : relation Store) :
  PreOrder R -> PreOrder Q -> PreOrder (fun s s' => R s s' /\ Q s s').
Proof.
  intros HR HQ. split; [by intros s|]. intros s1 s2 s3 [H1 H2] [H3 H4]. split; by etrans.
Qed.

Section respects.
Context (R : relation Store) `{!PreOrder R}.

Lemma respects_ro {A} (m : Tx A) : read_only m -> respects R m.
Proof. intros Hm s s' a Hx. by rewrite (Hm _ _ _ Hx). Qed.

Lemma respects_bind {A B} (m : Tx A) (k : A -> Tx B) :
  respects R m -> (forall a, respects R (k a)) -> respects R (mbind k m).
Proof.
  intros Hm Hk s s' b Hx. apply tx_bind_Ok in Hx as (s1 & a & H1 & H2). etrans; [by eapply Hm|by eapply Hk].
Qed.

Lemma respects_transaction {A} (m : Tx A) s : respects R m -> R s (transaction m s).1.
Proof. unfold transaction. intros Hm. destruct (m s) as [[s' a]|e|] eqn:E; cbn; [by eapply Hm|done|done]. Qed.

Lemma respects_both (Q : relation Store) {A} (m : Tx A) :
  respects R m -> respects Q m -> respects (fun s s' => R s s' /\ Q s s') m.
Proof. intros HR HQ s s' a Hx. split; [by eapply HR|by eapply HQ]. Qed.

End respects.

(** ** Statements that write one table *)

Definition writes {V} (set : Store -> V -> Store) {A} (m : Tx A) : Prop :=
  forall s s' a, m s = Ok (s', a) -> s' = s \/ exists v, s' = set s v.

Class Frame {X V} (π : Store -> X) (set : Store -> V -> Store) : Prop :=
  frame_eq : forall s v, π (set s v) = π s.
#[export] Hint Extern 0 (Frame _ _) => (intros ? ?; reflexivity) : typeclass_instances.

Lemma writes_keeps {X V} (π : Store -> X) (set : Store -> V -> Store) `{!Frame π set} {A} (m : Tx A) :
  writes set m -> respects (same π) m.
Proof. intros Hm s s' a Hx. destruct (Hm _ _ _ Hx) as [->|[v ->]]; [done|apply frame_eq]. Qed.

Create HintDb writes.

Lemma writes_update_requests p f : writes set_requests (update_requests p f).
Proof. intros s s' a. unfold update_requests. destruct (bool_decide _); [|done]. intros [= <- _]. eauto. Qed.
Lemma writes_insert_request r : writes set_requests (insert_request r).
Proof. intros s s' a. unfold insert_request. destruct (_ && _); [|done]. intros [= <- _]. eauto. Qed.
Lemma writes_insert_event e : writes set_events (insert_event e).
Proof. intros s s' a. unfold insert_event. destruct (_ && _); [|done]. intros [= <- _]. eauto. Qed.
Lemma writes_append id now kind payload : writes set_events (append_event_tx id now kind payload).
Proof. intros s s' n Hx. apply append_event_Ok in Hx as (-> & _). right. by eexists. Qed.
Lemma writes_insert_project p : writes set_projects (insert_project p).
Proof. intros s s' a. unfold insert_project. destruct (_ !! _); intros [= <- _]; eauto. Qed.
Lemma writes_advance_project p : writes set_projects (advance_project p).
Proof.
  intros s s' a. unfold advance_project. destruct (_ !! _); [|done]. destruct (_ <=? _); [|done].
  intros [= <- _]. eauto.
Qed.
Lemma writes_write_caller id c : writes set_callers (write_caller id c).
Proof. intros s s' a. unfold write_caller. destruct (caller_check _ _); [|done]. intros [= <- _]. eauto. Qed.
Lemma writes_insert_grant g : writes set_capability_grants (insert_grant g).
Proof. intros s s' a. unfold insert_grant. destruct (_ && _); [|done]. intros [= <- _]. eauto. Qed.
Lemma writes_bump_policy p now : writes set_project_policies (bump_policy p now).
Proof. intros s s' a. unfold bump_policy. destruct (_ && _); [|done]. intros [= <- _]. eauto. Qed.
Lemma writes_insert_approval id a : writes set_approvals (insert_approval id a).
Proof. intros s s' x. unfold insert_approval. destruct (_ && _); [|done]. intros [= <- _]. eauto. Qed.
Lemma writes_update_approval id p f : writes set_approvals (update_approval id p f).
Proof.
  intros s s' n. unfold update_approval. destruct (_ !! _); [|intros [= <- _]; eauto].
  destruct (p _); [|intros [= <- _]; eauto]. destruct (_ && _); [|done]. intros [= <- _]. eauto.
Qed.
Lemma writes_insert_audit_event e o r : writes set_audit (insert_audit_event e o r).
Proof. intros s s' a. unfold insert_audit_event. destruct (_ && _); [|done]. intros [= <- _]. eauto. Qed.
Lemma writes_count_activity_day d : writes set_audit (count_activity_day d).
Proof. intros s s' a. unfold count_activity_day. destruct (_ <=? _); [|done]. intros [= <- _]. eauto. Qed.
Lemma writes_insert_flow_authorization_row id f :
  writes set_flow_authorizations (insert_flow_authorization_row id f).
Proof.
  intros s s' a. unfold insert_flow_authorization_row. destruct (_ && _); [|done].
  intros [= <- _]. eauto.
Qed.
Lemma writes_update_revoked id t : writes set_capability_grants (update_revoked id t).
Proof. intros s s' a. unfold update_revoked. destruct (_ <=? _); [|done]. intros [= <- _]. eauto. Qed.
Lemma writes_delete_audit_rows doomed : writes set_audit (delete_audit_rows doomed).
Proof. intros s s' a [= <- _]. right. by eexists. Qed.
Lemma writes_update_root p root : writes set_project_roots (update_root p root).
Proof. intros s s' a [= <- _]. eauto. Qed.
Lemma writes_delete_all {V} (set : Store -> V -> Store) v : writes set (delete_all set v).
Proof. intros s s' a [= <- _]. eauto. Qed.
Lemma writes_insert_flow_run id row : writes set_flow_runs (insert_flow_run id row).
Proof. intros s s' a. unfold insert_flow_run. destruct (_ && _); [|done]. intros [= <- _]. eauto. Qed.
Lemma writes_update_flow_run id p row : writes set_flow_runs (update_flow_run id p row).
Proof.
  intros s s' n. unfold update_flow_run. destruct (_ !! _); [|intros [= <- _]; eauto].
  destruct (p _); [|intros [= <- _]; eauto]. destruct (flow_run_check _); [|done]. intros [= <- _]. eauto.
Qed.

#[export] Hint Resolve writes_update_requests writes_insert_request writes_insert_event writes_append
  writes_insert_project writes_advance_project writes_write_caller writes_insert_grant
  writes_bump_policy writes_insert_approval writes_update_approval writes_insert_audit_event
  writes_count_activity_day writes_update_revoked writes_delete_audit_rows writes_update_root
  writes_delete_all writes_insert_flow_run writes_update_flow_run writes_insert_flow_authorization_row : writes.

(** ** Automation

    [solve_frame] follows the binds and matches of a transaction down to its
    statements: a read-only one is trivial, one that writes is framed away or
    left to the hints of [frame]. *)

Create HintDb frame.

Ltac frame_write :=
  eapply writes_keeps; [|solve [eauto 2 with writes]]; intros ? ?; solve [reflexivity | auto 2].

Ltac solve_frame :=
  repeat first
    [ progress intros
    | apply respects_both; [apply _| |]
    | solve [eauto 2 with frame]
    | solve [apply respects_ro; [apply _ | eauto 2 with ro]]
    | solve [frame_write]
    | apply respects_bind; [apply _| |]
    | match goal with
      | |- respects _ (match ?x with _ => _ end) => destruct x
      | |- respects _ (let '(_, _) := ?x in _) => destruct x
      end ].

(** ** The audit ledger and the project table *)

Section frames.
Context {X : Type} (π : Store -> X).

Lemma frame_append_audit event :
  (forall s v, π (set_audit s v) = π s) -> respects (same π) (append_audit_event_tx event).
Proof. intros Hf. unfold append_audit_event_tx. solve_frame. Qed.

Lemma frame_prune_audit project now limit :
  (forall s v, π (set_audit s v) = π s) -> respects (same π) (prune_audit_events_tx project now limit).
Proof. intros Hf. unfold prune_audit_events_tx. solve_frame. Qed.

End frames.
#[export] Hint Extern 1 (respects (same _) (append_audit_event_tx _)) =>
  (apply frame_append_audit; intros ? ?; solve [reflexivity | auto 2]) : frame.

(** ** What a rescan writes

    A rescan creates the project and writes the two inventory tables: a relation
    that both kinds of statement respect holds across it. *)

Lemma writes_insert_artifact p id r : writes set_skills (insert_artifact p id r).
Proof. intros s s' a. unfold insert_artifact, set_artifacts. destruct (_ && _); [|done]. intros [= <- _]. eauto. Qed.
Lemma writes_update_artifact p id q f : writes set_skills (update_artifact p id q f).
Proof.
  intros s s' a. unfold update_artifact, set_artifacts. destruct (_ !! _); [|intros [= <- _]; eauto].
  destruct (q _); [|intros [= <- _]; eauto]. destruct (artifact_check _ _); [|done]. intros [= <- _]. eauto.
Qed.
Lemma writes_prune_tombstones p : writes set_skills (prune_skill_inventory_tombstones p).
Proof.
  intros s s' a. unfold prune_skill_inventory_tombstones, set_artifacts.
  destruct (bool_decide _); intros [= <- _]; eauto.
Qed.
Lemma writes_set_observation p at_ : writes set_skills (set_observation p at_).
Proof. intros s s' a. unfold set_observation. destruct (_ && _); [|done]. intros [= <- _]. eauto. Qed.

#[local] Hint Resolve writes_insert_artifact writes_update_artifact writes_prune_tombstones writes_set_observation : writes.

Section rescan.
Context `{Sha256} (R : relation Store) `{!PreOrder R} (p : ProjectId).
Context (Hskills : forall A (m : Tx A), writes set_skills m -> respects R m) (Hproject : respects R (insert_project p)).

#[local] Hint Resolve Hproject : frame.
#[local] Hint Extern 1 (respects R _) => (apply Hskills; solve [eauto 2 with writes]) : frame.

Lemma respects_add id a t ms d : respects R (add_skill_artifact p id a t ms d).
Proof using Hskills PreOrder0. unfold add_skill_artifact. solve_frame. Qed.

Lemma respects_reconcile a st t ms d : respects R (reconcile_skill_artifact p a st t ms d).
Proof using Hskills PreOrder0. unfold reconcile_skill_artifact, update_skill_artifact. solve_frame. Qed.

Lemma respects_remove st t ms d : respects R (remove_skill_artifact p st t ms d).
Proof using Hskills PreOrder0. unfold remove_skill_artifact. solve_frame. Qed.

#[local] Hint Resolve respects_add respects_reconcile respects_remove : frame.

Lemma respects_reconcile_loop t ms current existing d : respects R (reconcile_loop p t ms current existing d).
Proof using Hskills PreOrder0.
  revert existing d. induction current as [|[id a] current IH]; intros existing d; cbn [reconcile_loop]; [solve_frame|].
  apply respects_bind; [done| |by intros]. solve_frame.
Qed.

Lemma respects_remove_loop t ms gone d : respects R (remove_loop p t ms gone d).
Proof using Hskills PreOrder0.
  revert d. induction gone as [|st gone IH]; intros d; cbn [remove_loop]; [solve_frame|].
  apply respects_bind; [done| |by intros]. solve_frame.
Qed.

Lemma ro_all_artifacts : read_only (all_skill_artifacts p).
Proof. unfold all_skill_artifacts. solve_ro. Qed.
Lemma ro_observation : read_only (skill_inventory_observation p).
Proof. unfold skill_inventory_observation. solve_ro. Qed.
Lemma ro_matches current : read_only (active_skill_inventory_matches p current).
Proof. unfold active_skill_inventory_matches, list_skill_artifacts. solve_ro. Qed.

#[local] Hint Resolve respects_reconcile_loop respects_remove_loop : frame.
#[local] Hint Resolve ro_all_artifacts ro_observation ro_matches : ro.

Lemma respects_rescan artifacts ms : respects R (rescan_tx p artifacts ms).
Proof using Hskills Hproject PreOrder0.
  unfold rescan_tx, rescan_skill_inventory_in_transaction, apply_rescan. solve_frame.
Qed.

End rescan.

#[export] Hint Extern 1 (respects _ (rescan_tx _ _ _)) =>
  (apply respects_rescan; [apply _ | intros ? ? ?; solve [eauto 2 with frame | frame_write] | solve [eauto 2 with frame | frame_write]]) : frame.
