(* ===== verification/StoreApproval.v ===== *)
(** * The life of a stored approval

    The moves a row of [approvals] can make, the exact effect of every
    statement sequence that asks for, resolves or decides an approval, and the
    simulation of the rows by the approval state machine of [pam_policy]
    ([Policy.Approval]): a stored approval is moved only the way [approve],
    [deny] and [consume] move the in-memory one. *)

From S2P Require Import Prelude Core Policy FlowDef FlowData FlowSnapshot StoreDef.
From S2P Require Import StoreFlow StoreQueue StoreAudit StoreAccess StoreAuth.
From S2P Require Import StoreStep StoreEffect StoreFrame.

Local Open Scope Z_scope.

(** ** Moves of a row *)

(** The columns no statement changes after the INSERT. *)
Definition approval_identity (a : ApprovalRow) :=
  (ap_caller_id a, ap_project_id a, ap_capability a, ap_resource a, ap_effect_fingerprint a,
   ap_requested_at_ms a, ap_expires_at_ms a, ap_flow_request_id a).

Inductive approval_move (now : Z) (a : ApprovalRow) : ApprovalRow -> Prop :=
| move_expire :
    is_pending_state (ap_state a) = true -> ap_expires_at_ms a <= now ->
    approval_move now a (set_ap_state a "expired")
| move_decide state approver :
    ap_state a = "requested" -> now < ap_expires_at_ms a -> state ∈ ["approved"; "denied"] ->
    approval_move now a (set_decided state approver now a)
| move_consume :
    ap_state a = "approved" -> now < ap_expires_at_ms a ->
    approval_move now a (set_consumed now a).

Lemma approval_move_identity now a a' :
  approval_move now a a' -> approval_identity a' = approval_identity a.
Proof. by destruct 1. Qed.

Section moves.
Context `{Sha256}.

(** A fresh row, as [request_approval] writes it. *)
Definition fresh_approval (now : Z) (a : ApprovalRow) : Prop :=
  ap_state a = "requested" /\ ap_requested_at_ms a = now /\ ap_decided_at_ms a = None
  /\ ap_effect_fingerprint a
     = fingerprint_compute (ap_caller_id a) (ap_project_id a) (ap_capability a) (ap_resource a).

Inductive approvals_step (now : Z) (m : gmap ApprovalId ApprovalRow)
  : gmap ApprovalId ApprovalRow -> Prop :=
| step_request id a :
    m !! id = None -> fresh_approval now a -> approval_check a = true ->
    approvals_step now m (<[id := a]> m)
| step_move id a a' :
    m !! id = Some a -> approval_move now a a' -> approval_check a' = true ->
    approvals_step now m (<[id := a']> m).

Definition approvals_moved (now : Z) : relation Store :=
  fun s s' => rtc (approvals_step now) (approvals s) (approvals s').

#[export] Instance approvals_moved_preorder now : PreOrder (approvals_moved now).
Proof.
  split; [intros s; apply rtc_refl|]. intros s1 s2 s3 H1 H2. by eapply rtc_trans.
Qed.

Lemma same_approvals_moved now s s' : same approvals s s' -> approvals_moved now s s'.
Proof. unfold same, approvals_moved. by intros ->. Qed.

Lemma respects_same_moved now {A} (m : Tx A) :
  respects (same approvals) m -> respects (approvals_moved now) m.
Proof. intros Hm s s' a Hx. eapply same_approvals_moved, Hm, Hx. Qed.

(** ** Statements *)

Lemma insert_approval_Ok id a s s' u :
  insert_approval id a s = Ok (s', u) ->
  s' = set_approvals s (<[id := a]> (approvals s)) /\ approvals s !! id = None
  /\ approval_check a = true.
Proof.
  unfold insert_approval. destruct (_ && _) eqn:E; [|done]. intros [= <- _].
  rewrite !andb_true_iff in E. destruct E as (((Hc & Hn) & _) & _).
  apply bool_decide_eq_true in Hn. done.
Qed.

Lemma update_approval_Ok id p f s s' n :
  update_approval id p f s = Ok (s', n) ->
  (s' = s /\ n = 0%nat /\ forall a, approvals s !! id = Some a -> p a = false)
  \/ exists a, approvals s !! id = Some a /\ p a = true /\ n = 1%nat
       /\ s' = set_approvals s (<[id := f a]> (approvals s)) /\ approval_check (f a) = true.
Proof.
  unfold update_approval. destruct (approvals s !! id) as [a|]; [|intros [= <- <-]; by left].
  destruct (p a) eqn:Ep; [|intros [= <- <-]; left; split_and!; try done; by intros ? [= <-]].
  destruct (_ && _) eqn:Ec; [|done]. intros [= <- <-]. apply andb_true_iff in Ec as [Hc _].
  right. eauto 10.
Qed.

Lemma unsigned_integer_Ok v a : unsigned_integer v = Ok a -> a = v /\ 0 <= v.
Proof. unfold unsigned_integer. destruct (0 <=? v) eqn:E; [|done]. intros [= <-]. split; [done|lia]. Qed.

(** ** Asking for an approval and resolving one *)

Lemma request_approval_Ok uuid req now ttl flow s s' out :
  request_approval uuid req now now ttl flow s = Ok (s', out) ->
  let a := requested_row req now (now + ttl) flow in
  out = AuthApprovalRequired uuid (now + ttl) /\ approvals s !! uuid = None
  /\ approval_check a = true /\ s' = set_approvals s (<[uuid := a]> (approvals s)).
Proof.
  unfold request_approval, checked_add64. destruct (ttl =? 0); intros Hx; [by tx_inv|].
  apply tx_bind_Ok in Hx as (? & e & He & Hx). tx_leaf.
  destruct (now + ttl <=? u64_max); [|done]. tx_leaf.
  apply tx_bind_Ok in Hx as (? & e' & He & Hx). tx_leaf. tx_facts.
  apply tx_bind_Ok in Hx as (s1 & u & Hi & Hx). tx_leaf.
  apply insert_approval_Ok in Hi as (-> & Hn & Hc). done.
Qed.

(** What a resolved approval's row and the answer are, when the row changes. *)
Definition resolution (a a' : ApprovalRow) (now : Z) (out : AuthorizationOutcome) : Prop :=
  (out = AuthApprovalExpired /\ is_pending_state (ap_state a) = true
   /\ ap_expires_at_ms a <= now /\ a' = set_ap_state a "expired")
  \/ (out = AuthAllowed /\ ap_state a = "approved" /\ now < ap_expires_at_ms a
      /\ a' = set_consumed now a).

Lemma resolve_bound_Ok id req flow now s s' out :
  resolve_bound_approval id req flow now now s = Ok (s', out) ->
  (s' = s /\ out <> AuthAllowed)
  \/ exists a a', approvals s !! id = Some a /\ approval_matches a req flow = true
       /\ resolution a a' now out /\ approval_check a' = true
       /\ s' = set_approvals s (<[id := a']> (approvals s)).
Proof.
  unfold resolve_bound_approval. intros Hx. apply tx_bind_Ok in Hx as (? & o & Hr & Hx).
  apply tx_read_Ok in Hr as [-> ->].
  destruct (approvals s !! id) as [a|] eqn:Ea; [|left; by tx_inv].
  destruct (negb (approval_matches _ _ _)) eqn:Em; [left; by tx_inv|]. apply negb_false_iff in Em.
  apply tx_bind_Ok in Hx as (? & e & He & Hx). tx_leaf. apply unsigned_integer_Ok in He as [-> _].
  destruct (_ && _) eqn:Ed.
  - apply andb_true_iff in Ed as [Hle Hp]. apply Z.leb_le in Hle.
    apply tx_bind_Ok in Hx as (s1 & n & Hu & Hx). tx_leaf.
    apply update_approval_Ok in Hu as [(-> & _)|(a0 & Ha & _ & _ & -> & Hc)]; [by left|].
    assert (a0 = a) as -> by congruence. right. exists a, (set_ap_state a "expired").
    split_and!; try done. by left.
  - destruct (String.eqb (ap_state a) "requested"); [left; by tx_inv|].
    destruct (String.eqb (ap_state a) "approved") eqn:Eap.
    + apply tx_bind_Ok in Hx as (s1 & n & Hu & Hx). tx_leaf.
      apply update_approval_Ok in Hu as [(-> & -> & _)|(a0 & Ha & _ & -> & -> & Hc)]; [by left|].
      assert (a0 = a) as -> by congruence. right. exists a, (set_consumed now a).
      apply String.eqb_eq in Eap.
      unfold is_pending_state in Ed. rewrite Eap in Ed. cbn in Ed.
      split_and!; try done. right. split_and!; try done. lia.
    + left. repeat match type of Hx with context [String.eqb ?x ?y] => destruct (String.eqb x y) end;
        by tx_inv.
Qed.

Lemma resolution_move a a' now out : resolution a a' now out -> approval_move now a a'.
Proof. intros [(_ & Hp & He & ->)|(_ & Hs & He & ->)]; by constructor. Qed.

Lemma moves_request uuid req now ttl flow :
  respects (approvals_moved now) (request_approval uuid req now now ttl flow).
Proof.
  intros s s' out Hx. apply request_approval_Ok in Hx as (_ & Hn & Hc & ->).
  apply rtc_once. by apply step_request.
Qed.

Lemma moves_resolve id req flow now :
  respects (approvals_moved now) (resolve_bound_approval id req flow now now).
Proof.
  intros s s' out Hx. apply resolve_bound_Ok in Hx as [[-> _]|(a & a' & Ha & _ & Hr & Hc & ->)]; [done|].
  apply rtc_once. cbn. eapply step_move; [done|by eapply resolution_move|done].
Qed.

Lemma earlier_decision_None a approver d :
  earlier_decision a approver d = Ok None -> ap_state a = "requested" /\ ap_decided_by a = None.
Proof.
  unfold earlier_decision. destruct d.
  all: destruct (String.eqb (ap_state a) _ && opt_eqb _ _); [done|].
  all: destruct (String.eqb (ap_state a) "expired"); [done|].
  all: destruct (_ && _) eqn:E; [|done]; intros _.
  all: apply andb_true_iff in E as [E1 E2]; apply String.eqb_eq in E1;
    by apply bool_decide_eq_true in E2.
Qed.

(** The row and the answer of a decision on a requested approval. *)
Definition decided (a a' : ApprovalRow) (approver : CallerId) (d : StoreApprovalDecision) (now : Z)
    (out : ApprovalDecisionOutcome) : Prop :=
  (out = DecisionExpired /\ ap_expires_at_ms a <= now /\ a' = set_ap_state a "expired")
  \/ (now < ap_expires_at_ms a
      /\ match d with
         | DecideApprove => out = DecisionApproved /\ a' = set_decided "approved" approver now a
         | DecideDeny => out = DecisionDenied /\ a' = set_decided "denied" approver now a
         end).

Lemma decide_approval_Ok id project approver d now s s' out :
  decide_approval_tx id project approver d now s = Ok (s', out) ->
  caller_active s approver = true
  /\ exists a, approvals s !! id = Some a /\ decidable_by project approver a = true
     /\ ((s' = s /\ earlier_decision a approver d = Ok (Some out))
         \/ exists a', earlier_decision a approver d = Ok None /\ decided a a' approver d now out
              /\ approval_check a' = true /\ s' = set_approvals s (<[id := a']> (approvals s))).
Proof.
  unfold decide_approval_tx. intros Hx. apply tx_bind_Ok in Hx as (? & n & Hn & Hx). tx_leaf. tx_facts.
  apply tx_bind_Ok in Hx as (? & active & Hact & Hx). apply tx_read_Ok in Hact as [-> ->].
  destruct (caller_active s approver); [|by tx_inv]. split; [done|]. cbn [negb] in Hx.
  apply tx_bind_Ok in Hx as (? & o & Hr & Hx). apply tx_read_Ok in Hr as [-> ->].
  destruct (approvals s !! id) as [a|] eqn:Ea; [|by tx_inv].
  destruct (decidable_by project approver a) eqn:Eb; [|by tx_inv].
  exists a. do 2 (split; [done|]).
  apply tx_bind_Ok in Hx as (? & o & Hd & Hx). tx_leaf.
  destruct o as [o|]; [left; by tx_leaf|]. right.
  apply tx_bind_Ok in Hx as (? & e & He & Hx). tx_leaf. apply unsigned_integer_Ok in He as [-> _].
  destruct (earlier_decision_None _ _ _ Hd) as [Hst _]. destruct (_ <=? now) eqn:Ele.
  - apply Z.leb_le in Ele. apply tx_bind_Ok in Hx as (s1 & k & Hu & Hx). tx_leaf.
    apply update_approval_Ok in Hu as [(_ & _ & Hf)|(a0 & Ha & _ & _ & -> & Hc)].
    + specialize (Hf a Ea). done.
    + assert (a0 = a) as -> by congruence. exists (set_ap_state a "expired").
      split_and!; try done. by left.
  - apply Z.leb_gt in Ele. destruct d; apply tx_bind_Ok in Hx as (s1 & k & Hu & Hx); tx_leaf;
      (apply update_approval_Ok in Hu as [(_ & _ & Hf)|(a0 & Ha & _ & _ & -> & Hc)];
        [specialize (Hf a Ea); cbn beta in Hf; by rewrite Hst in Hf
        |assert (a0 = a) as -> by congruence; eexists; split_and!; try done; by right]).
Qed.

Lemma decided_move a a' approver d now out :
  ap_state a = "requested" -> decided a a' approver d now out -> approval_move now a a'.
Proof.
  intros Hs [(_ & He & ->)|[He Hd]].
  - apply move_expire; [by rewrite Hs|done].
  - destruct d; destruct Hd as [_ ->]; (apply move_decide; [done|done|set_solver]).
Qed.

Lemma moves_decide id project approver d now :
  respects (approvals_moved now) (decide_approval_tx id project approver d now).
Proof.
  intros s s' out Hx. apply decide_approval_Ok in Hx as (_ & a & Ha & _ & [[-> _]|(a' & Hn & Hd & Hc & ->)]);
    [done|].
  apply earlier_decision_None in Hn as [Hs _]. apply rtc_once. cbn.
  eapply step_move; [done|by eapply decided_move|done].
Qed.

End moves.
#[export] Hint Resolve moves_request moves_resolve moves_decide : frame.
#[export] Hint Extern 1 (respects (approvals_moved _) _) =>
  (apply respects_same_moved; solve [frame_write | eauto 2 with frame]) : frame.

(** ** Whole transactions *)

Section reads.
Context `{Sha256} `{FlowCodec}.

Lemma ro_select_request p : read_only (select_request p).
Proof. apply ro_read. Qed.
Lemma ro_caller_is_active id : read_only (caller_is_active id).
Proof. apply ro_read. Qed.
Lemma ro_load_grants req : read_only (load_grants req).
Proof. unfold load_grants. solve_ro. Qed.
Lemma ro_reusable req id now : read_only (reusable_flow_approval req id now).
Proof. unfold reusable_flow_approval. solve_ro. Qed.
Lemma ro_existing_acceptance a : read_only (existing_acceptance_tx a).
Proof. intros s s' o Hx. by apply existing_acceptance_Ok in Hx as [-> _]. Qed.
Lemma ro_receipt id proof a : read_only (validate_consumed_flow_receipt id proof a).
Proof. unfold validate_consumed_flow_receipt. solve_ro. Qed.
End reads.
#[export] Hint Resolve ro_select_request ro_caller_is_active ro_load_grants ro_reusable
  ro_existing_acceptance ro_receipt : ro.

Section reads2.
Context `{Sha256} `{FlowCodec}.
Lemma ro_loaded_authorization id proof now : read_only (validate_loaded_flow_authorization id proof now).
Proof. unfold validate_loaded_flow_authorization. solve_ro. Qed.
End reads2.
#[export] Hint Resolve ro_loaded_authorization : ro.

Section transactions.
Context `{Sha256} `{FlowCodec}.

Lemma ro_existing_flow_run req capability existing now :
  read_only (authorize_existing_flow_run req capability existing now).
Proof.
  unfold authorize_existing_flow_run. apply ro_if; [apply ro_err|]. intros s s' out.
  destruct (validate_flow_authorization_integrity _ s) as [[s1 proof]|e|] eqn:Ev; [| |done].
  - apply ro_validate_integrity in Ev as ->. destruct (_ && _); [|by intros [= -> _]].
    apply (ro_bind _ _ (ro_loaded_authorization _ _ _) (fun _ => ro_ret _)).
  - destruct e; try done. destruct (terminal_existing existing); [by intros [= -> _]|done].
Qed.

(** A conversion of the time, after which both times are the same. *)
Lemma respects_sql_integer (R : relation Store) {A} v (k : Z -> Tx A) :
  respects R (k v) -> respects R (mbind k (tx_lift (sql_integer v))).
Proof.
  intros Hk s s' a Hx. apply tx_bind_Ok in Hx as (? & n & Hn & Hx). tx_leaf. tx_facts. by eapply Hk.
Qed.

Lemma moves_authorize_tx uuid req now ttl :
  respects (approvals_moved now) (authorize_tx uuid req now now ttl).
Proof. unfold authorize_tx, authorize_with_approval, resolve_approval. solve_frame. Qed.

Lemma moves_consume_effect req now :
  respects (approvals_moved now) (consume_effect_outcome req now now).
Proof. unfold consume_effect_outcome, resolve_approval. solve_frame. Qed.

Lemma moves_accept_tx a now t : respects (approvals_moved t) (accept_tx a now).
Proof.
  intros s s' out Hx. apply same_approvals_moved.
  by apply accept_tx_Ok in Hx as [(r & _ & _ & _ & -> & _)|(_ & _ & -> & _)].
Qed.

Lemma moves_append_audit now event : respects (approvals_moved now) (append_audit_event_tx event).
Proof. apply respects_same_moved, frame_append_audit. done. Qed.

End transactions.
#[export] Hint Resolve ro_existing_flow_run : ro.
#[export] Hint Resolve moves_authorize_tx moves_consume_effect moves_accept_tx moves_append_audit : frame.

Section calls.
Context `{Sha256} `{FlowCodec}.

Lemma moves_new_flow_run uuid req now ttl :
  respects (approvals_moved now) (authorize_new_flow_run uuid req now now ttl).
Proof.
  unfold authorize_new_flow_run, authorize_flow_with_approval, resolve_flow_approval, accept_authorized,
    insert_flow_authorization. solve_frame.
Qed.
#[local] Hint Resolve moves_new_flow_run : frame.

Lemma moves_authorize_audited uuid req audit now ttl :
  respects (approvals_moved now) (authorize_audited_tx uuid req audit now ttl).
Proof. unfold authorize_audited_tx. apply respects_sql_integer. solve_frame. Qed.

Lemma moves_consume_audited req audit now :
  respects (approvals_moved now) (consume_effect_approval_audited_tx req audit now).
Proof. unfold consume_effect_approval_audited_tx. apply respects_sql_integer. solve_frame. Qed.

Lemma moves_authorize_flow uuid req now ttl :
  respects (approvals_moved now) (authorize_flow_run_tx uuid req now ttl).
Proof.
  unfold authorize_flow_run_tx. destruct (negb _); [solve_frame|]. apply respects_sql_integer.
  solve_frame.
Qed.

End calls.
#[export] Hint Resolve moves_authorize_audited moves_consume_audited moves_authorize_flow : frame.
