(* ===== verification/StoreInv.v ===== *)
(** * Invariants of the store

    The calls of the store as one transition function, the reduction of every
    call to primitive steps, and what every step preserves: the schema, the
    order of the queue, the contiguous append-only event logs and the history
    of each row along the request state machine. *)

From S2P Require Import Prelude Core Policy FlowDef FlowData FlowSnapshot Artifact StoreDef StoreFlow.
From S2P Require Import StoreQueue StoreAudit StoreAccess StoreAuth StoreView Inventory StoreStep StoreEffect.
From S2P Require Import StoreFrame StoreApproval.

Local Open Scope Z_scope.

(** ** The invariant *)

Definition event_log (s : Store) (id : RequestId) : list EventRow :=
  List.filter (event_of id) (events s).

Record store_inv (s : Store) : Prop := {
  inv_schema : requests_schema (requests s);
  (** every project of a request is known, and its next sequence is above
      every sequence it handed out *)
  inv_queue : forall r, r ∈ requests s ->
    exists next, projects s !! q_project_id r = Some next /\ q_queue_sequence r < next;
  inv_projects : forall p next, projects s !! p = Some next -> 1 <= next <= i64_max;
  (** the events of a request are numbered 1, 2, 3, .. in the order they were
      recorded, and start with its acceptance *)
  inv_log : forall id, e_sequence <$> event_log s id = seqZ 1 (Z.of_nat (length (event_log s id)));
  inv_accepted : forall r, r ∈ requests s ->
    e_kind <$> head (event_log s (q_request_id r)) = Some "accepted";
  inv_events : forall e, e ∈ events s ->
    0 <= e_recorded_at_ms e /\ exists r, r ∈ requests s /\ q_request_id r = e_request_id e
}.

(** ** Rows *)

(** The columns no operation changes. *)
Definition identity_of (r : RequestRow) :=
  (q_request_id r, q_caller_id r, q_project_id r, q_idempotency_key r, q_operation_kind r,
   q_operation r, q_queue_sequence r, q_accepted_at_ms r).

Section steps.
Context {T : Moves}.

Lemma row_step_identity r k r' : row_step T r k r' -> identity_of r' = identity_of r.
Proof. by destruct 1. Qed.

Definition row_move (r r' : RequestRow) : Prop := exists k, row_step T r k r'.

Lemma row_moves_identity r r' : rtc row_move r r' -> identity_of r' = identity_of r.
Proof.
  induction 1 as [|r r1 r2 [k Hk] _ IH]; [done|]. by rewrite IH, (row_step_identity _ _ _ Hk).
Qed.

Lemma insert_fmap_same {A B} (f : A -> B) (l : list A) i x y :
  l !! i = Some x -> f y = f x -> f <$> <[i := y]> l = f <$> l.
Proof.
  intros Hi Hf. rewrite list_fmap_insert, Hf. apply list_insert_id. by rewrite list_lookup_fmap, Hi.
Qed.

(** ** Event logs *)

Lemma event_log_with_event s id id' now kind payload :
  event_log (with_event s id now kind payload) id' =
  event_log s id' ++
    (if String.eqb id id' then
       [{| e_request_id := id; e_sequence := max_sequence id (events s) + 1; e_kind := kind;
           e_payload := payload; e_recorded_at_ms := now |}] else []).
Proof. unfold event_log, with_event; simpl. by rewrite List.filter_app. Qed.

Lemma max_sequence_log s id :
  e_sequence <$> event_log s id = seqZ 1 (Z.of_nat (length (event_log s id))) ->
  max_sequence id (events s) = Z.of_nat (length (event_log s id)).
Proof.
  unfold max_sequence. fold (event_log s id). generalize (event_log s id) as l. intros l.
  assert (Hgen : forall m, 0 <= m -> e_sequence <$> l = seqZ (m + 1) (Z.of_nat (length l)) ->
    foldr (fun e => Z.max (e_sequence e)) 0 l = (if bool_decide (l = []) then 0 else m + Z.of_nat (length l))).
  { induction l as [|e l IH]; intros m Hm; [done|].
    rewrite length_cons, seqZ_cons by lia. cbn [fmap list_fmap foldr]. intros [= He Hl].
    rewrite (IH (m + 1)) by (first [lia | rewrite Hl; f_equal; lia]).
    rewrite He. destruct l; cbn [bool_decide decide_rel length]; simpl; lia. }
  intros Hl. rewrite (Hgen 0) by done. destruct l; simpl; lia.
Qed.

Lemma log_with_event s id id' now kind payload :
  (forall x, e_sequence <$> event_log s x = seqZ 1 (Z.of_nat (length (event_log s x)))) ->
  let l := event_log (with_event s id now kind payload) id' in
  e_sequence <$> l = seqZ 1 (Z.of_nat (length l)).
Proof.
  intros Hl. cbn zeta. rewrite event_log_with_event. destruct (String.eqb_spec id id') as [<-|Hne].
  - rewrite fmap_app, Hl, length_app, (max_sequence_log s id (Hl id)). simpl.
    replace (Z.of_nat (length (event_log s id) + 1)) with (Z.of_nat (length (event_log s id)) + 1) by lia.
    rewrite seqZ_app by lia. f_equal. rewrite seqZ_cons by lia. simpl. f_equal. lia.
  - rewrite app_nil_r. apply Hl.
Qed.

Lemma head_app_Some {A} (l k : list A) x : head l = Some x -> head (l ++ k) = Some x.
Proof. by destruct l. Qed.

Lemma accepted_with_event s id id' now kind payload :
  e_kind <$> head (event_log s id') = Some "accepted" ->
  e_kind <$> head (event_log (with_event s id now kind payload) id') = Some "accepted".
Proof.
  rewrite event_log_with_event. destruct (event_log s id'); [done|]. done.
Qed.

(** ** Every step keeps the invariant *)

Lemma inv_with_event s i r now kind payload :
  store_inv s -> requests s !! i = Some r -> 0 <= now ->
  store_inv (with_event s (q_request_id r) now kind payload).
Proof.
  intros Hinv Hi Hnow. split; try apply Hinv.
  - intros id. apply log_with_event, Hinv.
  - intros x Hx. by apply accepted_with_event, (inv_accepted s Hinv).
  - intros e. unfold with_event; simpl. rewrite elem_of_app, list_elem_of_singleton.
    intros [He| ->]; [by apply Hinv|]. split; [done|]. exists r.
    split; [by eapply list_elem_of_lookup_2|done].
Qed.

(** Every row of an updated table has the identity of a row that was there. *)
Lemma insert_identity s i r r' x :
  requests s !! i = Some r -> identity_of r' = identity_of r ->
  x ∈ <[i := r']> (requests s) -> exists y, y ∈ requests s /\ identity_of x = identity_of y.
Proof.
  intros Hi Hid Hx. apply list_elem_of_lookup in Hx as [j Hj].
  apply list_lookup_insert_Some in Hj as [(-> & -> & _)|[_ Hj]];
    eexists; (split; [by eapply list_elem_of_lookup_2|done]).
Qed.

Lemma inv_set_row s i r r' :
  store_inv s -> requests s !! i = Some r -> identity_of r' = identity_of r ->
  requests_schema (<[i := r']> (requests s)) ->
  store_inv (set_requests s (<[i := r']> (requests s))).
Proof.
  intros Hinv Hi Hid Hs.
  split; [done| |apply Hinv|apply Hinv| |].
  - intros x Hx. destruct (insert_identity s i r r' x Hi Hid Hx) as (y & Hy & Heq).
    injection Heq as _ _ -> _ _ _ -> _. by apply (inv_queue s Hinv).
  - intros x Hx. destruct (insert_identity s i r r' x Hi Hid Hx) as (y & Hy & Heq).
    injection Heq as -> _ _ _ _ _ _ _. by apply (inv_accepted s Hinv).
  - intros e He. destruct (inv_events s Hinv e He) as [Hrec (x & Hx & Hxid)]. split; [done|].
    apply list_elem_of_lookup in Hx as [j Hj].
    destruct (decide (i = j)) as [<-|Hne].
    + exists r'. split; [|injection Hid; congruence].
      apply list_elem_of_lookup. exists i. cbn [requests set_requests].
      apply list_lookup_insert_eq. by eapply lookup_lt_Some.
    + exists x. split; [|done]. apply list_elem_of_lookup. exists j. cbn [requests set_requests].
      by rewrite list_lookup_insert_ne.
Qed.

Lemma fresh_log s id :
  store_inv s -> (forall r, r ∈ requests s -> q_request_id r <> id) -> event_log s id = [].
Proof.
  intros Hinv Hfresh. destruct (event_log s id) as [|e l] eqn:El; [done|]. exfalso.
  assert (He : List.In e (event_log s id)) by (rewrite El; by left).
  apply filter_In in He as [He Hid]. apply list_elem_of_In in He. apply String.eqb_eq in Hid.
  destruct (inv_events s Hinv e He) as [_ (r & Hr & Hrid)]. apply (Hfresh r Hr). congruence.
Qed.

Lemma inv_accept s a now :
  store_inv s -> 0 <= now -> requests_schema (requests (accepted_store s a now)) ->
  default 1 (projects s !! ar_project_id a) < i64_max ->
  store_inv (accepted_store s a now).
Proof.
  intros Hinv Hnow Hs Hmax.
  assert (Hfresh : forall r, r ∈ requests s -> q_request_id r <> ar_request_id a).
  { intros r Hr Heq. destruct Hs as (_ & Hnd & _). cbn in Hnd. rewrite fmap_app in Hnd.
    apply NoDup_app in Hnd as (_ & Hd & _). apply (Hd (q_request_id r)).
    - apply list_elem_of_fmap. eauto.
    - rewrite Heq. simpl. by apply list_elem_of_singleton. }
  unfold accepted_store in *. set (next := default 1 (projects s !! ar_project_id a)) in *.
  split.
  - exact Hs.
  - intros r. cbn. rewrite elem_of_app, list_elem_of_singleton. intros [Hr| ->].
    + destruct (inv_queue s Hinv r Hr) as (n & Hn & Hlt).
      destruct (decide (ar_project_id a = q_project_id r)) as [Heq|Hne].
      * exists (next + 1). rewrite Heq, lookup_insert_eq. split; [done|].
        unfold next. rewrite Heq, Hn. simpl. lia.
      * exists n. by rewrite lookup_insert_ne.
    + exists (next + 1). cbn. rewrite lookup_insert_eq. split; [done|lia].
  - intros p n. cbn. rewrite lookup_insert_Some. intros [[<- <-]|[_ Hn]].
    + unfold next in *. destruct (projects s !! ar_project_id a) as [m|] eqn:Em; simpl in *; [|lia].
      pose proof (inv_projects s Hinv _ _ Em). lia.
    + by apply (inv_projects s Hinv) in Hn.
  - intros id. apply log_with_event. apply Hinv.
  - intros r. cbn [with_event set_events requests set_requests].
    rewrite elem_of_app, list_elem_of_singleton. intros [Hr| ->].
    + apply accepted_with_event. by apply (inv_accepted s Hinv).
    + rewrite event_log_with_event. cbn [q_request_id queued_row]. rewrite String.eqb_refl.
      change (event_log (set_requests _ _) ?id) with (event_log s id).
      by rewrite (fresh_log s _ Hinv Hfresh).
  - intros e. cbn. rewrite elem_of_app, list_elem_of_singleton. intros [He| ->].
    + destruct (inv_events s Hinv e He) as [Hrec (r & Hr & Hid)]. split; [done|].
      exists r. rewrite elem_of_app. auto.
    + split; [done|]. exists (queued_row a next now). rewrite elem_of_app, list_elem_of_singleton. auto.
Qed.

Lemma inv_same_tables s s' :
  store_inv s -> projects s' = projects s -> requests s' = requests s -> events s' = events s ->
  store_inv s'.
Proof.
  intros [H1 H2 H3 H4 H5 H6] Hp Hr He.
  split; unfold event_log in *; rewrite ?Hr, ?Hp, ?He; done.
Qed.

Lemma inv_new_project s p :
  store_inv s -> projects s !! p = None -> store_inv (set_projects s (<[p := 1]> (projects s))).
Proof.
  intros Hinv Hp. split; try apply Hinv.
  - intros r Hr. destruct (inv_queue s Hinv r Hr) as (n & Hn & Hlt). exists n.
    cbn. rewrite lookup_insert_ne by congruence. done.
  - intros q n. cbn. rewrite lookup_insert_Some. unfold i64_max.
    intros [[_ <-]|[_ Hn]]; [lia|by apply (inv_projects s Hinv) in Hn].
Qed.

Theorem store_step_inv s s' : store_inv s -> store_step T s s' -> store_inv s'.
Proof.
  intros Hinv Hstep. destruct Hstep as [a now|i r r' kind now Hnow Hi Hr Hs|i r r' Hi Hr Hs|i r|p Hp|s'].
  - by apply inv_accept.
  - assert (Hid := row_step_identity _ _ _ Hr).
    assert (q_request_id r = q_request_id r') as -> by (injection Hid; congruence).
    apply (inv_with_event _ i); [by apply (inv_set_row s i r)| |done].
    cbn. apply list_lookup_insert_eq. by eapply lookup_lt_Some.
  - apply (inv_set_row s i r); try done. by eapply row_step_identity.
  - by eapply inv_with_event.
  - by apply inv_new_project.
  - by eapply inv_same_tables.
Qed.

Lemma store_steps_inv s s' : rtc (store_step T) s s' -> store_inv s -> store_inv s'.
Proof. induction 1; [done|]. intros Hinv. eauto using store_step_inv. Qed.

Lemma empty_store_inv : store_inv empty_store.
Proof.
  split; try done.
  - split_and!; by constructor.
  - intros r Hr. by apply not_elem_of_nil in Hr.
  - intros r Hr. by apply not_elem_of_nil in Hr.
  - intros r Hr. by apply not_elem_of_nil in Hr.
Qed.

(** ** What every step keeps of the past *)

(** Each row is still there, moved along the state machine; the events are
    still there, in the same order. *)
Definition extends (s s' : Store) : Prop :=
  (forall i r, requests s !! i = Some r ->
     exists r', requests s' !! i = Some r' /\ rtc row_move r r')
  /\ events s `prefix_of` events s'.

Lemma extends_refl s : extends s s.
Proof. split; [|done]. intros i r Hi. exists r. split; [done|]. constructor. Qed.

Lemma extends_trans s1 s2 s3 : extends s1 s2 -> extends s2 s3 -> extends s1 s3.
Proof.
  intros [H1 E1] [H2 E2]. split; [|by etrans].
  intros i r Hi. destruct (H1 i r Hi) as (r1 & Hi1 & Hr1).
  destruct (H2 i r1 Hi1) as (r2 & Hi2 & Hr2). exists r2. split; [done|]. by etrans.
Qed.

Lemma extends_insert s i r r' k :
  requests s !! i = Some r -> row_step T r k r' ->
  forall j x, requests s !! j = Some x ->
    exists x', <[i := r']> (requests s) !! j = Some x' /\ rtc row_move x x'.
Proof.
  intros Hi Hr j x Hj. destruct (decide (i = j)) as [<-|Hne].
  - exists r'. split; [apply list_lookup_insert_eq; by eapply lookup_lt_Some|].
    simplify_eq. apply rtc_once. by exists k.
  - exists x. split; [by rewrite list_lookup_insert_ne|constructor].
Qed.

Lemma store_step_extends s s' : store_step T s s' -> extends s s'.
Proof.
  destruct 1 as [a now|i r r' kind now Hnow Hi Hr Hs|i r r' Hi Hr Hs|i r|p Hp|s' Hp Hr He].
  - split; [|cbn; by apply prefix_app_r].
    intros i r Hi. exists r. cbn. split; [by apply lookup_app_l_Some|constructor].
  - split; [|cbn; by apply prefix_app_r]. cbn. by eapply extends_insert.
  - split; [|done]. cbn. by eapply extends_insert.
  - split; [|cbn; by apply prefix_app_r]. intros j x Hj. exists x. split; [done|constructor].
  - split; [|done]. intros j x Hj. exists x. split; [done|constructor].
  - split; rewrite ?Hr, ?He; [|done]. intros j x Hj. exists x. split; [done|constructor].
Qed.

Lemma store_steps_extends s s' : rtc (store_step T) s s' -> extends s s'.
Proof.
  induction 1; [apply extends_refl|]. eauto using extends_trans, store_step_extends.
Qed.

End steps.
Arguments row_move T r r' : clear implicits.
Arguments extends T s s' : clear implicits.

(** ** Calls *)

Inductive StoreCall : Type :=
| CallAccept (a : AcceptRequest) (now_ms : Z)
| CallClaim (owner token : string) (now_ms lease_duration_ms : Z)
| CallRenew (lease : Lease) (now_ms lease_duration_ms : Z)
| CallAppendEvent (lease : Lease) (now_ms : Z) (kind payload : string)
| CallRecover (now_ms : Z) (recovery : LeaseRecovery)
| CallFinish (lease : Lease) (now_ms : Z) (terminal_state : TerminalState) (result : string)
| CallFinishFlow (lease : Lease) (now_ms : Z) (result : string)
| CallFailCorrupt (id : RequestId) (now_ms : Z) (result : string)
| CallCancel (id : RequestId) (now_ms : Z) (result : string)
    (expected : option ExpectedOperationKind)
| CallSaveCheckpoint (save : SaveFlowCheckpoint)
| CallRegisterCaller (id : CallerId) (credential : string) (kind : option string) (now_ms : Z)
| CallRevokeCaller (id : CallerId) (now_ms : Z)
| CallPutGrant (put : PutGrant)
| CallRevokeGrant (id : GrantId) (now_ms : Z)
| CallAuthorize (uuid : string) (request : AuthorizationRequest)
    (audit : option AuthorizationAudit) (now_ms ttl_ms : Z)
| CallConsumeEffect (request : AuthorizationRequest) (audit : AuthorizationAudit) (now_ms : Z)
| CallAuthorizeFlow (uuid : string) (request : AuthorizeFlowRun) (now_ms ttl_ms : Z)
| CallDecide (id : ApprovalId) (project : option ProjectId) (approver : CallerId)
    (decision : StoreApprovalDecision) (now_ms : Z)
| CallAppendAudit (event : AppendAuditEvent)
| CallPruneAudit (project : ProjectId) (now_ms limit : Z)
| CallRememberRoot (project : ProjectId) (root : string)
| CallResetAccess
| CallResetHistory
| CallRescanSkills (project : ProjectId) (artifacts : list AgentArtifact) (observed_at_ms : Z).

(** The cases of a call, an audited authorization apart from a plain one. *)
Ltac destruct_call c :=
  destruct c; try match goal with audit : option AuthorizationAudit |- _ => destruct audit end.

Section calls.
Context `{Sha256} `{FlowCodec}.

(** The store a call leaves, whatever it returns. *)
Definition run_call (c : StoreCall) (s : Store) : Store :=
  match c with
  | CallAccept a now => (accept a now s).1
  | CallClaim owner token now d => (claim owner token now d s).1
  | CallRenew lease now d => (renew lease now d s).1
  | CallAppendEvent lease now kind payload => (append_leased_event lease now kind payload s).1
  | CallRecover now recovery => (recover_leases now recovery s).1
  | CallFinish lease now ts result => (finish lease now ts result s).1
  | CallFinishFlow lease now result => (finish_terminal_flow lease now result s).1
  | CallFailCorrupt id now result => (fail_corrupt_flow_authorization id now result s).1
  | CallCancel id now result expected => (cancel id now result expected s).1
  | CallSaveCheckpoint save => (save_flow_checkpoint save s).1
  | CallRegisterCaller id credential kind now => (register_caller id credential kind now s).1
  | CallRevokeCaller id now => (revoke_caller id now s).1
  | CallPutGrant put => (put_grant put s).1
  | CallRevokeGrant id now => (revoke_grant id now s).1
  | CallAuthorize uuid req None now ttl => (authorize uuid req now ttl s).1
  | CallAuthorize uuid req (Some audit) now ttl => (authorize_audited uuid req audit now ttl s).1
  | CallConsumeEffect req audit now => (consume_effect_approval_audited req audit now s).1
  | CallAuthorizeFlow uuid req now ttl => (authorize_flow_run uuid req now ttl s).1
  | CallDecide id project approver d now => (decide_approval id project approver d now s).1
  | CallAppendAudit event => (append_audit_event event s).1
  | CallPruneAudit project now limit => (prune_audit_events project now limit s).1
  | CallRememberRoot project root => (remember_project_root project root s).1
  | CallResetAccess => (reset_access s).1
  | CallResetHistory => (reset_history s).1
  | CallRescanSkills project artifacts ms => (rescan_skill_inventory project artifacts ms s).1
  end.

Definition run_calls (calls : list StoreCall) (s : Store) : Store :=
  foldl (fun s c => run_call c s) s calls.

(** The lease token a call hands out satisfies [T]. *)
Definition hands_out (T : string -> Prop) (c : StoreCall) : Prop :=
  match c with CallClaim _ token _ _ => T token | _ => True end.

Context {T : Moves}.

Lemma schema_unique s : requests_schema (requests s) -> unique_ids s.
Proof. by intros (_ & Hu & _). Qed.

(** A transaction whose successes are steps is a sequence of steps. *)
Lemma transaction_steps {A} (m : Tx A) s :
  (forall s' a, m s = Ok (s', a) -> rtc (store_step T) s s') ->
  rtc (store_step T) s (transaction m s).1.
Proof.
  unfold transaction. intros Hm. destruct (m s) as [[s' a]|e|]; simpl; [by eapply Hm|constructor..].
Qed.

Lemma resolution_kind o :
  ((terminal_request_resolution o).1.1, (terminal_request_resolution o).1.2)
  ∈ [(ReqSucceeded, "completed"); (ReqFailed, "failed"); (ReqCancelled, "cancelled")].
Proof. destruct o; simpl; set_solver. Qed.

Lemma override_kind t :
  terminal_may_override_cancellation t = true ->
  ((terminal_request_resolution (ft_outcome (vt_terminal t))).1.1,
   (terminal_request_resolution (ft_outcome (vt_terminal t))).1.2)
  ∈ [(ReqFailed, "failed"); (ReqCancelled, "cancelled")].
Proof. unfold terminal_may_override_cancellation. destruct (ft_outcome _); simpl; try done; set_solver. Qed.

Lemma finished_step s s' i r state now payload kind :
  requests s !! i = Some r -> finished_at s s' i r state now payload kind ->
  row_step T r (Some kind) (finish_row state now (Some payload) r) -> store_step T s s'.
Proof. intros Hi (-> & Hnow & Hs) Hr. by apply step_row. Qed.

Lemma claim_steps owner token now d s :
  requests_schema (requests s) -> hands_token T token -> rtc (store_step T) s (claim owner token now d s).1.
Proof.
  intros Hs Htok. unfold claim. destruct (transaction _ s) as [s1 r] eqn:Et. simpl.
  change s1 with (s1, r).1. rewrite <-Et. apply transaction_steps. intros s' o Hc.
  apply claim_tx_Ok in Hc as [(_ & _ & ->)|(i & c & _ & Hi & _ & Hq & _ & Hnow & Hs' & ->)];
    [constructor| |by apply schema_unique].
  apply rtc_once, step_row; try done. by apply row_claim.
Qed.

Lemma accept_tx_steps a now s s' out :
  accept_tx a now s = Ok (s', out) -> rtc (store_step T) s s'.
Proof.
  intros Ha. apply accept_tx_Ok in Ha as [(r & _ & _ & _ & -> & _)|(_ & _ & -> & Hnow & _ & Hmax & Hs)];
    [constructor|]. by apply rtc_once, step_accept.
Qed.

Lemma finish_row_step lease now ts result s s' out :
  unique_ids s -> finish_tx lease now ts result s = Ok (s', out) -> store_step T s s'.
Proof.
  intros Hu Hf. apply finish_tx_Ok in Hf as (i & r & Hi & _ & _ & Hc); [|done].
  destruct Hc as [(Hst & Hts & _ & _ & Hfin)|(Hst & _ & Hr & Hfin)];
    eapply (finished_step _ _ i r); try done.
  - apply row_complete; [done| |by destruct ts]. destruct ts; simpl; set_solver.
  - rewrite <-Hr. by apply row_cancelled.
Qed.

(** The terminal checkpoint [s] holds for [id] allows the end [state] of a request
    in cancellation: the run was cancelled, or the cancellation left it blocked. *)
Definition overriding (s : Store) (id : RequestId) (state : RequestState) (result : string) : Prop :=
  exists row, flow_runs s !! id = Some row /\ f_terminal_result row = Some result
    /\ (state = ReqCancelled /\ f_terminal_outcome row = Some "cancelled"
        \/ state = ReqFailed /\ f_terminal_outcome row = Some "blocked"
           /\ f_terminal_cancellation_override row = true).

(** [T] admits the ends that the checkpoints of [s] allow. *)
Definition covers (s : Store) : Prop :=
  forall id state result, overriding s id state result -> overrides_with T id state result.

Lemma covers_runs s s' : flow_runs s' = flow_runs s -> covers s -> covers s'.
Proof. unfold covers, overriding. by intros ->. Qed.

Lemma parse_flow_outcome_name value o :
  parse_flow_outcome value = Some o -> value = flow_outcome_name o.
Proof.
  unfold parse_flow_outcome.
  repeat (match goal with |- context [String.eqb value ?n] => destruct (String.eqb_spec value n) end;
          [by subst; intros [= <-]|]). done.
Qed.

Lemma terminal_overrides id kind s s' t :
  validated_terminal_flow_result id kind s = Ok (s', Some t) ->
  terminal_may_override_cancellation t = true ->
  overriding s id (terminal_request_resolution (ft_outcome (vt_terminal t))).1.1
    (ft_encoded_result (vt_terminal t)).
Proof.
  unfold validated_terminal_flow_result, read_flow_checkpoint. intros Hv Hov.
  destruct (negb _); [by tx_leaf|]. apply tx_bind_Ok in Hv as (s1 & existing & Hr & Hv).
  apply tx_bind_Ok in Hr as (s2 & o & Ho & Hr). apply tx_read_Ok in Ho as [-> ->].
  destruct (flow_runs s !! id) as [row|] eqn:Hrow; [|by tx_leaf].
  apply tx_bind_Ok in Hr as (s2 & stored & Hst & Hr). apply tx_lift_Ok in Hst as [-> Hst]. tx_leaf.
  apply tx_bind_Ok in Hv as (s2 & checkpoint & _ & Hv). tx_leaf.
  match goal with H : Some _ = _ <$> _ |- _ => symmetry in H; apply fmap_Some in H as (terminal & Hterm & ->) end.
  unfold stored_of_row in Hst.
  destruct (unsigned_integer (f_checkpoint_revision row)); [|done..].
  destruct (unsigned_integer (f_updated_at_ms row)); [|done..]. cbn in Hst.
  unfold decode_stored_terminal_result in Hst.
  destruct (f_terminal_outcome row) as [name|] eqn:Hname, (f_terminal_result row) as [encoded|] eqn:Henc;
    try done; [|by injection Hst as <-].
  destruct (parse_flow_outcome name) as [outcome|] eqn:Hp; [|done]. apply parse_flow_outcome_name in Hp as ->.
  cbn in Hst. injection Hst as <-. cbn in Hterm. injection Hterm as <-.
  exists row. split; [done|]. split; [done|]. unfold terminal_may_override_cancellation in Hov. cbn in Hov |- *.
  destruct outcome; try done; [by right|by left].
Qed.

(** A terminal checkpoint moves an active row of a flow request. *)
Lemma terminal_row_step s s' r t now :
  covers s -> validated_terminal_flow_result (q_request_id r) (q_operation_kind r) s = Ok (s', Some t) ->
  (q_state r = ReqLeased
   \/ q_state r = ReqCancellationRequested /\ terminal_may_override_cancellation t = true) ->
  let res := terminal_request_resolution (ft_outcome (vt_terminal t)) in
  row_step T r (Some res.1.2) (finish_row res.1.1 now (Some (ft_encoded_result (vt_terminal t))) r).
Proof.
  intros Hcov Hv Hst. pose proof (validated_terminal_kind _ _ _ _ _ Hv) as Hkind. destruct Hst as [Hst|[Hst Hov]].
  - apply row_complete; [done|apply resolution_kind|done].
  - apply row_override; [done|done|by apply override_kind|]. eapply Hcov, terminal_overrides; done.
Qed.

Lemma finish_flow_step lease now result s s' out :
  covers s -> unique_ids s -> finish_terminal_flow_tx lease now result s = Ok (s', out) -> store_step T s s'.
Proof.
  intros Hcov Hu Hf. apply finish_terminal_flow_tx_Ok in Hf
    as (i & r & t & Hi & Hl & Hk & Hv & Ha & _ & _ & Hst & Hfin); [|done].
  eapply (finished_step _ _ i r); try done. rewrite Hst.
  apply live_lease_spec in Hl as [Hid _]. rewrite <-Hid in Hv.
  unfold completion_allowed in Ha. rewrite !andb_true_iff, orb_true_iff, andb_true_iff,
    !state_is_true, String.eqb_eq in Ha. destruct Ha as [[Ha _] <-].
  eapply terminal_row_step; [done..|]. tauto.
Qed.

Lemma fail_corrupt_steps id now result s s' out :
  unique_ids s -> fail_corrupt_flow_authorization_tx id now result s = Ok (s', out) ->
  rtc (store_step T) s s'.
Proof.
  intros Hu Hf. apply fail_corrupt_tx_Ok in Hf as (i & r & Hi & _ & Hk & Hc); [|done].
  destruct Hc as [[-> _]|(Hst & _ & _ & Hfin)]; [constructor|].
  apply rtc_once. eapply (finished_step _ _ i r); try done. by apply row_corrupt.
Qed.

Lemma cancel_steps id now result expected s s' out :
  covers s -> unique_ids s -> cancel_tx id now result expected s = Ok (s', out) -> rtc (store_step T) s s'.
Proof.
  intros Hcov Hu Hf. apply cancel_tx_Ok in Hf as (i & r & Hi & Hid & _ & Hc); [|done].
  destruct Hc as [[_ Hc]|(t & Ht & _ & Hfin)].
  - unfold cancel_effect in Hc. destruct (q_state r) eqn:Est;
      try (destruct Hc as [_ ->]; constructor);
      destruct Hc as (_ & Hnow & Hs & ->); apply rtc_once, step_row; try done.
    + by apply row_cancel_queued.
    + by apply row_request_cancel.
  - apply terminal_before_cancel_Some in Ht as (_ & Hv & Hst). subst id.
    apply rtc_once. eapply (finished_step _ _ i r); try done. by eapply terminal_row_step.
Qed.

Lemma recover_effect_step s s' active now recovery :
  covers s -> (forall r, r ∈ requests s -> q_request_id r = al_request_id active ->
     q_operation_kind r = al_operation_kind active) ->
  recover_effect s s' active now recovery -> store_step T s s'.
Proof.
  intros Hcov Hkind (i & r & r' & kind & Hi & Hid & Hst & _ & Hnow & Hrow & Hs & ->).
  apply step_row; try done.
  assert (Hk : al_operation_kind active = q_operation_kind r).
  { symmetry. apply Hkind; [by eapply list_elem_of_lookup_2|done]. }
  unfold recovered_row in Hrow. rewrite Hk in Hrow. rewrite <-Hst in Hrow.
  destruct (q_state r) eqn:Est; try done.
  - destruct Hrow as ([t|] & Hv & -> & ->); [|by apply row_release]. rewrite <-Hid in Hv.
    eapply terminal_row_step; [done..|by left].
  - destruct Hrow as ([t|] & Hv & -> & ->); [|by apply row_cancelled].
    apply recovered_cancellation_Some in Hv as [Hv Hov]. rewrite Hk, <-Hid in Hv.
    eapply terminal_row_step; [done..|by right].
Qed.

(** The operation kinds the recovery loop read are those of the rows. *)
Definition kinds_agree (s : Store) (actives : list ActiveLease) : Prop :=
  forall active r, active ∈ actives -> r ∈ requests s ->
    q_request_id r = al_request_id active -> q_operation_kind r = al_operation_kind active.

Lemma kinds_agree_extends s s' actives :
  (forall r, r ∈ requests s' -> exists r0, r0 ∈ requests s /\ identity_of r = identity_of r0) ->
  kinds_agree s actives -> kinds_agree s' actives.
Proof.
  intros Hid Hk active r Ha Hr Hri. destruct (Hid r Hr) as (r0 & Hr0 & Heq).
  injection Heq as H1 _ _ _ -> _ _ _. apply (Hk active r0); congruence.
Qed.

Lemma recover_effect_identity s s' active now recovery r :
  recover_effect s s' active now recovery -> store_step T s s' ->
  r ∈ requests s' -> exists r0, r0 ∈ requests s /\ identity_of r = identity_of r0.
Proof.
  intros (i & x & x' & kind & Hi & _ & _ & _ & _ & Hrow & _ & ->) Hstep Hr. cbn in Hr.
  eapply (insert_identity s i x x'); [done| |done].
  unfold recovered_row in Hrow. destruct (al_state active); try done;
    destruct Hrow as ([t|] & _ & -> & _); done.
Qed.

Lemma recover_loop_steps now recovery actives :
  forall s acc s' out, covers s -> requests_schema (requests s) -> kinds_agree s actives ->
  recover_loop now recovery actives acc s = Ok (s', out) -> rtc (store_step T) s s'.
Proof.
  induction actives as [|active rest IH]; intros s acc s' out Hcov Hs Hk Hx; simpl in Hx.
  - tx_leaf. constructor.
  - apply tx_bind_Ok in Hx as (s1 & n & Hone & Hx).
    apply recover_one_Ok in Hone as [[-> ->]|[-> He]]; [| |by apply schema_unique].
    + eapply IH; [done|done| |exact Hx]. intros a r Ha. apply Hk. by right.
    + assert (Hstep : store_step T s s1).
      { eapply recover_effect_step; [done| |exact He]. intros r Hr. apply Hk; [by left|done]. }
      assert (Hs1 : requests_schema (requests s1)).
      { by destruct He as (i & r & r' & k & _ & _ & _ & _ & _ & _ & Hs' & ->). }
      eapply rtc_l; [exact Hstep|]. eapply IH; [|done| |exact Hx].
      { eapply covers_runs; [|exact Hcov]. by destruct He as (i & r & r' & k & _ & _ & _ & _ & _ & _ & _ & ->). }
      eapply kinds_agree_extends; [intros r; by eapply recover_effect_identity|].
      intros a r Ha. apply Hk. by right.
Qed.

Lemma collect_res_elem {A B} (f : A -> sres B) l l' y :
  collect_res f l = Ok l' -> y ∈ l' -> exists x, x ∈ l /\ f x = Ok y.
Proof.
  revert l'. induction l as [|x l IH]; intros l'; simpl.
  - intros [= <-] Hy. by apply not_elem_of_nil in Hy.
  - destruct (f x) as [b| |] eqn:Ef; try done. destruct (collect_res f l) as [bs| |]; try done.
    intros [= <-] Hy. apply elem_of_cons in Hy as [->|Hy].
    + exists x. split; [by left|done].
    + destruct (IH bs eq_refl Hy) as (z & Hz & Hfz). exists z. split; [by right|done].
Qed.

(** The leases a recovery works on are rows of the table. *)
Lemma active_leases_rows now recovery s s' actives active :
  active_leases now recovery s = Ok (s', actives) -> active ∈ actives ->
  exists r, r ∈ requests s /\ active_row r = true /\ recoverable recovery now r = true
    /\ active = {| al_request_id := q_request_id r; al_state := q_state r;
                   al_operation_kind := q_operation_kind r |}.
Proof.
  unfold active_leases. intros Hx Ha. apply tx_bind_Ok in Hx as (s1 & rows & Hr & Hx). tx_leaf.
  destruct (collect_res_elem _ _ _ _ Hx Ha) as (r & Hr & Hf).
  rewrite order_by_perm in Hr. apply list_elem_of_In, filter_In in Hr as [Hr Hp].
  apply andb_true_iff in Hp as [Hp1 Hp2]. apply list_elem_of_In in Hr.
  exists r. rewrite parse_state_as_str in Hf. split_and!; try done. by injection Hf.
Qed.

Lemma recover_leases_steps now recovery s s' out :
  covers s -> requests_schema (requests s) -> recover_leases_tx now recovery s = Ok (s', out) ->
  rtc (store_step T) s s'.
Proof.
  intros Hcov Hs Hx. unfold recover_leases_tx in Hx.
  apply tx_bind_Ok in Hx as (? & now' & Hn & Hx). tx_leaf. tx_facts.
  apply tx_bind_Ok in Hx as (s1 & actives & Ha & Hx).
  pose proof (ro_active_leases _ _ _ _ _ Ha) as ->.
  eapply recover_loop_steps; [done|done| |exact Hx].
  intros active r Hin Hr Hid. destruct (active_leases_rows _ _ _ _ _ _ Ha Hin) as (r0 & Hr0 & _ & _ & ->).
  cbn in Hid |- *. apply list_elem_of_lookup in Hr as [i Hi]. apply list_elem_of_lookup in Hr0 as [j Hj].
  destruct (same_row s i j r r0 (schema_unique _ Hs) Hi Hj Hid) as [_ ->]. done.
Qed.

Lemma saved_store_steps s save bytes revision override tb i r :
  requests s !! i = Some r -> q_request_id r = le_request_id (sv_lease save) ->
  is_active_state (q_state r) = true ->
  recorded_in_time save ->
  rtc (store_step T) s (saved_store s save bytes revision override tb).
Proof.
  intros Hi Hid Hact Hnow. unfold saved_store.
  set (s1 := set_flow_runs s _).
  assert (H1 : store_step T s s1) by by apply step_tables.
  destruct (sv_transition save) as [t|] eqn:Et; [|by apply rtc_once].
  destruct tb as [payload|]; [|by apply rtc_once].
  eapply rtc_l; [exact H1|]. apply rtc_once. rewrite <-Hid.
  apply (step_event T s1 i r); [apply Hnow; rewrite Et; by eexists|done|done].
Qed.

Lemma saved_steps s s' save out i r bytes tb override existing :
  saved s s' save out i r bytes tb override existing -> rtc (store_step T) s s'.
Proof.
  intros [Hi Hl _ _ _ _ _ _ _ _ _ _ He].
  apply live_lease_spec in Hl as (Hid & Hact & _). unfold save_effect in He.
  destruct existing as [stored|], (so_disposition out); try done.
  - destruct He as (_ & _ & _ & _ & _ & _ & Ht & _ & ->). by eapply saved_store_steps.
  - destruct (so_event out); [done|]. destruct He as (_ & _ & _ & _ & _ & ->). constructor.
  - destruct He as (_ & _ & _ & _ & _ & Ht & _ & ->). by eapply saved_store_steps.
Qed.

(** ** Calls outside the queue *)

Definition queue_tables (s : Store) := (projects s, requests s, events s).

Lemma tables_steps {A} (m : Tx A) :
  respects (same queue_tables) m -> respects (rtc (store_step T)) m.
Proof.
  intros Hm s s' a Hx. specialize (Hm s s' a Hx). injection Hm as Hp Hr He.
  by apply rtc_once, step_tables.
Qed.

Lemma steps_insert_project p : respects (rtc (store_step T)) (insert_project p).
Proof.
  intros s s' a. unfold insert_project. destruct (projects s !! p) eqn:E; intros [= <- _]; [done|].
  by apply rtc_once, step_project.
Qed.

Lemma steps_accept_tx a now : respects (rtc (store_step T)) (accept_tx a now).
Proof. intros s s' out. apply accept_tx_steps. Qed.

#[local] Hint Resolve steps_insert_project steps_accept_tx : frame.
#[local] Hint Extern 1 (respects (rtc (store_step _)) _) =>
  (apply tables_steps; solve [frame_write | apply frame_append_audit; reflexivity]) : frame.

Lemma store_steps_resolve id req flow now now_ms :
  respects (rtc (store_step T)) (resolve_bound_approval id req flow now now_ms).
Proof. unfold resolve_bound_approval, expire_approval. solve_frame. Qed.

Lemma steps_request uuid req now now_ms ttl flow :
  respects (rtc (store_step T)) (request_approval uuid req now now_ms ttl flow).
Proof. unfold request_approval. solve_frame. Qed.
#[local] Hint Resolve store_steps_resolve steps_request : frame.

Lemma steps_authorize_tx uuid req now now_ms ttl :
  respects (rtc (store_step T)) (authorize_tx uuid req now now_ms ttl).
Proof.
  unfold authorize_tx, authorize_with_approval, resolve_approval. solve_frame.
Qed.
#[local] Hint Resolve steps_authorize_tx : frame.

(** The calls of the queue and the checkpoints; the others only create projects
    and change the tables outside the queue. *)
Definition is_queue_call (c : StoreCall) : bool :=
  match c with
  | CallAccept _ _ | CallClaim _ _ _ _ | CallRenew _ _ _ | CallAppendEvent _ _ _ _
  | CallRecover _ _ | CallFinish _ _ _ _ | CallFinishFlow _ _ _ | CallFailCorrupt _ _ _
  | CallCancel _ _ _ _ | CallSaveCheckpoint _ => true
  | _ => false
  end.

Lemma side_call_steps c s : is_queue_call c = false -> rtc (store_step T) s (run_call c s).
Proof.
  intros Hc. destruct_call c;
    try done; cbn [run_call]; refine (respects_transaction (rtc (store_step T)) _ s _).
  - unfold register_caller_tx. solve_frame.
  - unfold revoke_caller_tx. solve_frame.
  - unfold put_grant_tx, policy_version. solve_frame.
  - unfold revoke_grant_tx, update_policy. solve_frame.
  - unfold authorize_audited_tx. solve_frame.
  - solve_frame.
  - unfold consume_effect_approval_audited_tx, consume_effect_outcome, resolve_approval. solve_frame.
  - unfold authorize_flow_run_tx, authorize_new_flow_run, authorize_flow_with_approval, accept_authorized,
      insert_flow_authorization. solve_frame.
  - unfold decide_approval_tx, expire_approval. solve_frame.
  - solve_frame.
  - unfold prune_audit_events_tx. solve_frame.
  - unfold remember_project_root_tx. solve_frame.
  - unfold reset_access_tx. solve_frame.
  - unfold reset_history_tx, history_reset_tally_tx, tally_query. solve_frame.
  - solve_frame.
Qed.

(** Every call is a sequence of primitive steps. *)
Lemma run_call_steps c s :
  covers s -> requests_schema (requests s) -> hands_out (hands_token T) c ->
  rtc (store_step T) s (run_call c s).
Proof.
  intros Hcov Hs Htok. pose proof (schema_unique s Hs) as Hu.
  destruct (is_queue_call c) eqn:Hq; [|by apply side_call_steps].
  destruct c; try done; simpl; try (apply transaction_steps; intros s' out Hx).
  - unfold accept in *. destruct (String.eqb _ _); [by tx_leaf|].
    apply tx_bind_Ok in Hx as (? & ? & ? & Hx). tx_leaf. by eapply accept_tx_steps.
  - by apply claim_steps.
  - apply renew_tx_Ok in Hx as (i & r & Hi & Hl & _ & Hs' & ->); [|done].
    apply live_lease_spec in Hl as (_ & Ha & _). apply rtc_once, (step_quiet T s i r); try done.
    by apply row_renew.
  - apply append_leased_event_tx_Ok in Hx as (i & r & Hi & Hl & Hnow & -> & _).
    apply live_lease_spec in Hl as (<- & Ha & _). by eapply rtc_once, step_event.
  - by eapply recover_leases_steps.
  - by eapply rtc_once, finish_row_step.
  - by eapply rtc_once, finish_flow_step.
  - by eapply fail_corrupt_steps.
  - by eapply cancel_steps.
  - apply save_flow_checkpoint_tx_Ok in Hx as (i & r & b & tb & o & e & Hx). by eapply saved_steps.
Qed.

End calls.

Section traces.
Context `{Sha256} `{FlowCodec}.

(** Histories whose claims hand out the tokens of [P]. *)
Definition tokens (P : string -> Prop) : Moves := {| hands_token := P; overrides_with _ _ _ := True |}.

Lemma run_call_inv c s : store_inv s -> store_inv (run_call c s).
Proof.
  intros Hinv. eapply store_steps_inv; [|done].
  apply (run_call_steps (T := any_moves)); [done|apply Hinv|by destruct c].
Qed.

Lemma run_calls_inv calls s : store_inv s -> store_inv (run_calls calls s).
Proof.
  revert s. induction calls as [|c calls IH]; intros s Hinv; simpl; [done|].
  by apply IH, run_call_inv.
Qed.

Lemma run_calls_extends P calls s :
  store_inv s -> Forall (hands_out P) calls -> extends (tokens P) s (run_calls calls s).
Proof.
  intros Hinv Ht. revert s Hinv. induction Ht as [|c calls Hc _ IH]; intros s Hinv; simpl;
    [apply extends_refl|].
  eapply extends_trans; [|apply IH, run_call_inv, Hinv].
  apply store_steps_extends, run_call_steps; [done|apply Hinv|done].
Qed.

Lemma any_token calls : Forall (hands_out (fun _ => True)) calls.
Proof. apply Forall_true. by intros []. Qed.

End traces.

(** ** What the calls leave alone

    For a column or a combination of columns [π] of the store, which calls keep
    it: the calls of the queue do not touch the access tables and the ledger,
    only a checkpoint save or a reset of the history writes [flow_runs], and the
    calls outside the queue do not touch it. *)

(** The calls outside the queue, unfolded to their statements. *)
Ltac solve_side :=
  unfold register_caller_tx, revoke_caller_tx, put_grant_tx, policy_version, revoke_grant_tx,
    update_policy, authorize_audited_tx, authorize, authorize_tx, authorize_with_approval,
    consume_effect_approval_audited_tx, consume_effect_outcome, authorize_flow_run_tx,
    authorize_new_flow_run, authorize_flow_with_approval, resolve_approval, resolve_flow_approval,
    resolve_bound_approval, request_approval, accept_authorized, insert_flow_authorization,
    decide_approval_tx, expire_approval, prune_audit_events_tx,
    remember_project_root_tx, reset_access_tx, reset_history_tx, history_reset_tally_tx, tally_query;
  solve_frame.

(** The calls of the queue. *)
Ltac solve_queue :=
  unfold claim_tx, renew_tx, append_leased_event_tx, recover_leases_tx, finish_tx,
    finish_terminal_flow_tx, fail_corrupt_flow_authorization_tx, cancel_tx, save_flow_checkpoint_tx,
    persist_flow_checkpoint, create_checkpoint, replay_checkpoint, advance_checkpoint,
    insert_flow_checkpoint, update_flow_checkpoint, append_flow_transition, recover_one,
    finalize_recovered_terminal_flow, finalize_recovered_cancellation, release_lease, append_if_changed;
  solve_frame.

Section frames.
Context `{Sha256} `{FlowCodec} {X : Type} (π : Store -> X).
Context (Hevents : forall s v, π (set_events s v) = π s)
  (Hupdate : forall p f, respects (same π) (update_requests p f)).

#[local] Hint Resolve Hupdate : frame.

Lemma frame_recover_loop now recovery actives acc :
  respects (same π) (recover_loop now recovery actives acc).
Proof.
  revert acc. induction actives as [|a l IH]; intros acc; simpl; [solve_frame|].
  apply respects_bind; [apply _|solve_queue|done].
Qed.
#[local] Hint Resolve frame_recover_loop : frame.

Lemma queue_call_updates c s :
  is_queue_call c = true ->
  match c with
  | CallAccept _ _ => False
  | CallSaveCheckpoint _ => forall s v, π (set_flow_runs s v) = π s
  | _ => True
  end ->
  π (run_call c s) = π s.
Proof.
  intros Hc Hsave. destruct c; try done; cbn [run_call].
  1: { unfold claim. destruct (transaction _ s) as [s1 o] eqn:Et. change s1 with (s1, o).1. rewrite <-Et.
       refine (respects_transaction (same π) _ s _). solve_queue. }
  all: refine (respects_transaction (same π) _ s _); solve_queue.
Qed.

End frames.

Section queue_frames.
Context `{Sha256} `{FlowCodec} {X : Type} (π : Store -> X).
Context (Hprojects : forall s v, π (set_projects s v) = π s)
  (Hrequests : forall s v, π (set_requests s v) = π s)
  (Hevents : forall s v, π (set_events s v) = π s).

Lemma frame_accept a now : respects (same π) (accept_tx a now).
Proof. unfold accept_tx. solve_frame. Qed.
#[local] Hint Resolve frame_accept : frame.

Lemma queue_call_keeps c s :
  is_queue_call c = true ->
  match c with CallSaveCheckpoint _ => forall s v, π (set_flow_runs s v) = π s | _ => True end ->
  π (run_call c s) = π s.
Proof.
  intros Hc Hsave. destruct c; try done.
  1: cbn [run_call]; refine (respects_transaction (same π) _ s _); solve_frame.
  all: apply queue_call_updates; try done; intros p f; frame_write.
Qed.

End queue_frames.

Section runs.
Context `{Sha256} `{FlowCodec}.

(** A checkpoint save and a reset of the history write [flow_runs]. *)
Definition writes_runs (c : StoreCall) : bool :=
  match c with CallSaveCheckpoint _ | CallResetHistory => true | _ => false end.

Lemma call_keeps_runs c s : writes_runs c = false -> flow_runs (run_call c s) = flow_runs s.
Proof.
  intros Hc. destruct (is_queue_call c) eqn:Hq.
  - by apply queue_call_keeps; destruct c.
  - destruct_call c;
      try done; cbn [run_call]; refine (respects_transaction (same flow_runs) _ s _); solve_side.
Qed.

End runs.
