(* ===== verification/StoreConsent.v ===== *)
(** * Approvals over the history of a store

    Over any sequence of calls the stored approvals move the way the approval
    state machine of [pam_policy] does, and a consumed approval has authorized
    exactly one effect: the one it names. *)

From S2P Require Import Prelude Core Policy FlowDef FlowData FlowSnapshot StoreDef.
From S2P Require Import StoreFlow StoreQueue StoreAudit StoreAccess StoreAuth StoreView.
From S2P Require Import StoreStep StoreEffect StoreFrame StoreApproval StoreInv.

Local Open Scope Z_scope.

(** ** The in-memory machine *)

Definition approval_state_text (s : ApprovalState) : string :=
  match s with
  | StRequested => "requested" | StApproved => "approved" | StDenied => "denied"
  | StConsumed => "consumed" | StExpired => "expired"
  end.

(** The in-memory approval of a row in the state [st]. *)
Definition approval_of (id : ApprovalId) (row : ApprovalRow) (st : ApprovalState) : Approval :=
  {| a_id := id; a_caller := ap_caller_id row; a_project := ap_project_id row;
     a_capability := ap_capability row; a_resource := ap_resource row;
     a_fingerprint := ap_effect_fingerprint row; a_expires_at_ms := ap_expires_at_ms row;
     a_state := st |}.

(** The row [row] of the approval [id] holds the in-memory approval [a]. *)
Definition represents (id : ApprovalId) (row : ApprovalRow) (a : Approval) : Prop :=
  exists st, a = approval_of id row st /\ ap_state row = approval_state_text st.

Lemma approval_state_text_inj s t : approval_state_text s = approval_state_text t -> s = t.
Proof. by destruct s, t. Qed.

Lemma approval_trace_app a1 a2 a3 t1 t2 :
  approval_trace a1 t1 a2 -> approval_trace a2 t2 a3 -> approval_trace a1 (t1 ++ t2) a3.
Proof.
  intros H1. induction 1 as [|t2 a c a' r _ IH Hc]; [by rewrite app_nil_r|].
  rewrite app_assoc. by eapply trace_snoc.
Qed.

(** A move of the row is a call of the in-memory approval. *)
Lemma move_simulated now id row row' a :
  approval_move now row row' -> represents id row a ->
  exists c a', apply_call a c = (a', Ok (a_state a')) /\ represents id row' a'.
Proof.
  intros Hm (st & -> & Hs). destruct Hm as [Hp He|state approver Hst He Hin|Hst He].
  - exists (CallApprove now), (approval_of id row StExpired). cbn. unfold approve, expire_if_due. cbn.
    rewrite Hs in Hp. destruct (_ <=? now) eqn:E; [|lia].
    split; [by destruct st|by exists StExpired].
  - assert (st = StRequested) as -> by (apply approval_state_text_inj; by rewrite <-Hs).
    assert (Hc : exists c st', apply_call (approval_of id row StRequested) c
                   = (approval_of id row st', Ok st') /\ state = approval_state_text st').
    { repeat (apply elem_of_cons in Hin as [->|Hin]); [| |by apply not_elem_of_nil in Hin].
      - exists (CallApprove now), StApproved. cbn. unfold approve, expire_if_due. cbn.
        by destruct (_ <=? now) eqn:E; [lia|].
      - exists (CallDeny now), StDenied. cbn. unfold deny, expire_if_due. cbn.
        by destruct (_ <=? now) eqn:E; [lia|]. }
    destruct Hc as (c & st' & Hc & ->). exists c, (approval_of id row st'). split; [done|by exists st'].
  - assert (st = StApproved) as -> by (apply approval_state_text_inj; by rewrite <-Hs).
    exists (CallConsume (ap_effect_fingerprint row) now), (approval_of id row StConsumed).
    cbn. unfold consume, expire_if_due. cbn.
    destruct (_ <=? now) eqn:E; [lia|]. rewrite String.eqb_refl. split; [done|by exists StConsumed].
Qed.

Section history.
Context `{Sha256} `{FlowCodec}.

(** ** Every call moves the approvals *)

Definition call_time (c : StoreCall) : Z :=
  match c with
  | CallAccept _ now | CallClaim _ _ now _ | CallRenew _ now _ | CallAppendEvent _ now _ _
  | CallRecover now _ | CallFinish _ now _ _ | CallFinishFlow _ now _ | CallFailCorrupt _ now _
  | CallCancel _ now _ _ | CallRegisterCaller _ _ _ now | CallRevokeCaller _ now
  | CallRevokeGrant _ now | CallAuthorize _ _ _ now _ | CallConsumeEffect _ _ now
  | CallAuthorizeFlow _ _ now _ | CallDecide _ _ _ _ now | CallPruneAudit _ now _ => now
  | CallSaveCheckpoint save => sv_updated_at_ms save
  | CallPutGrant put => pg_created_at_ms put
  | CallAppendAudit event => ae_occurred_at_ms event
  | CallRememberRoot _ _ | CallResetAccess | CallResetHistory => 0
  | CallRescanSkills _ _ observed_at_ms => observed_at_ms
  end.

Lemma call_moves c s : c <> CallResetAccess -> approvals_moved (call_time c) s (run_call c s).
Proof.
  intros Hc. destruct (is_queue_call c) eqn:Hq.
  { apply same_approvals_moved. by apply queue_call_keeps; destruct c. }
  destruct_call c;
    try done; cbn [run_call call_time]; refine (respects_transaction (approvals_moved _) _ s _).
  6: apply respects_sql_integer, moves_authorize_tx.
  all: try solve [eauto 2 with frame].
  all: apply respects_same_moved; solve_side.
Qed.

(** ** Refinement of the machine *)

(** The in-memory approval [request] makes of a row. *)
Definition requested_as (id : ApprovalId) (row : ApprovalRow) : Approval :=
  requested id (ap_caller_id row) (ap_project_id row) (ap_capability row) (ap_resource row)
    (ap_expires_at_ms row).

(** From [before] to [after] the approval [id] made only calls of the machine;
    one that is new was requested for the effect its columns name. *)
Definition approval_progress (id : ApprovalId) (before after : option ApprovalRow) : Prop :=
  match before, after with
  | Some row, Some row' =>
    approval_identity row' = approval_identity row
    /\ forall a, represents id row a ->
         exists trace a', approval_trace a trace a' /\ represents id row' a'
  | None, Some row' =>
    exists trace a', approval_trace (requested_as id row') trace a' /\ represents id row' a'
  | None, None => True
  | Some _, None => False
  end.

#[export] Instance approval_progress_preorder id : PreOrder (approval_progress id).
Proof.
  split.
  - intros [row|]; [|done]. split; [done|]. intros a Ha. exists [], a. split; [constructor|done].
  - intros [x|] [y|] [z|]; cbn; try done.
    + intros [I1 H1] [I2 H2]. split; [congruence|]. intros a Ha.
      destruct (H1 a Ha) as (t1 & b & T1 & Hb). destruct (H2 b Hb) as (t2 & c & T2 & Hcz).
      exists (t1 ++ t2), c. split; [by eapply approval_trace_app|done].
    + intros (t1 & b & T1 & Hb) [I2 H2]. destruct (H2 b Hb) as (t2 & c & T2 & Hcz).
      exists (t1 ++ t2), c. split; [|done]. eapply approval_trace_app; [|done].
      unfold requested_as in *. injection I2 as -> -> -> -> _ _ -> _. done.
Qed.

Lemma step_progress now m m' id : approvals_step now m m' -> approval_progress id (m !! id) (m' !! id).
Proof.
  destruct 1 as [i a Hn (Hs & _ & _ & Hf) _|i a a' Hi Hm _]; destruct (decide (i = id)) as [->|Hne].
  - rewrite Hn, lookup_insert_eq. exists [], (requested_as id a). split; [constructor|].
    exists StRequested. split; [|done]. unfold requested_as, requested, approval_of. by rewrite Hf.
  - by rewrite lookup_insert_ne.
  - rewrite Hi, lookup_insert_eq. split; [by eapply approval_move_identity|]. intros x Hx.
    destruct (move_simulated _ _ _ _ _ Hm Hx) as (c & x' & Hcall & Hx').
    exists [(c, Ok (a_state x'))], x'. split; [|done]. apply (trace_snoc _ [] x); [constructor|done].
  - by rewrite lookup_insert_ne.
Qed.

Lemma moved_progress now s s' id :
  approvals_moved now s s' -> approval_progress id (approvals s !! id) (approvals s' !! id).
Proof.
  unfold approvals_moved. induction 1 as [|m1 m2 m3 Hstep _ IH]; [done|].
  etrans; [by eapply step_progress|done].
Qed.

Lemma calls_progress calls s id :
  Forall (fun c => c <> CallResetAccess) calls ->
  approval_progress id (approvals s !! id) (approvals (run_calls calls s) !! id).
Proof.
  intros Hcalls. revert s. induction Hcalls as [|c calls Hc _ IH]; intros s; simpl; [done|].
  etrans; [by eapply moved_progress, call_moves|apply IH].
Qed.

(** C25: over any history without an access reset, the stored approvals refine the
    approval machine of the policy crate: no approval disappears or changes the
    effect it names, each row moves only as [approve], [deny] and [consume] move
    the in-memory approval, and a new row was requested for its effect. *)
Theorem stored_approvals_refine calls s id :
  Forall (fun c => c <> CallResetAccess) calls ->
  approval_progress id (approvals s !! id) (approvals (run_calls calls s) !! id).
Proof. apply calls_progress. Qed.

(** A consumed approval stays as it is. *)
Lemma consumed_is_final calls s id row :
  Forall (fun c => c <> CallResetAccess) calls ->
  approvals s !! id = Some row -> ap_state row = "consumed" ->
  exists row', approvals (run_calls calls s) !! id = Some row' /\ ap_state row' = "consumed".
Proof.
  intros Hcalls Hid Hst. pose proof (calls_progress calls s id Hcalls) as Hp.
  rewrite Hid in Hp. destruct (approvals (run_calls calls s) !! id) as [row'|]; [|done].
  exists row'. split; [done|]. destruct Hp as [_ Hp].
  destruct (Hp (approval_of id row StConsumed)) as (tr & a' & Ht & st & -> & Hs); [by exists StConsumed|].
  rewrite Hs. enough (a_state (approval_of id row' st) = StConsumed) as Hc by (cbn in Hc; by subst).
  clear -Ht. remember (approval_of id row StConsumed) as a0 eqn:E. induction Ht as [|t a c a' r _ IH Hcall].
  - by subst.
  - apply apply_call_states in Hcall as [[-> _]|[_ Hcase]]; [done|].
    by rewrite IH in Hcase.
Qed.

(** ** What an allowed call rests on *)

(** The request a call asks the policy for, the flow run it names and whether
    an approval is needed whatever the grants say. *)
Definition effect_request (c : StoreCall) : option (AuthorizationRequest * option RequestId * bool) :=
  match c with
  | CallAuthorize _ req _ _ _ => Some (req, None, false)
  | CallConsumeEffect req _ _ => Some (req, None, true)
  | CallAuthorizeFlow _ req _ _ =>
    Some (policy_request req FLOW_CAPABILITY_NAME, Some (ar_request_id (af_accept req)),
          af_schema_approval_required req)
  | _ => None
  end.

(** The call lets a new effect happen. *)
Definition allows (c : StoreCall) (s : Store) : Prop :=
  match c with
  | CallAuthorize uuid req None now ttl => (authorize uuid req now ttl s).2 = Ok AuthAllowed
  | CallAuthorize uuid req (Some audit) now ttl =>
    (authorize_audited uuid req audit now ttl s).2 = Ok AuthAllowed
  | CallConsumeEffect req audit now =>
    (consume_effect_approval_audited req audit now s).2 = Ok AuthAllowed
  | CallAuthorizeFlow uuid req now ttl =>
    exists id sequence, (authorize_flow_run uuid req now ttl s).2 = Ok (FlowAccepted (Created id sequence))
  | _ => False
  end.

(** The approval [id] of the request is the one consumed: approved, unexpired
    and bound to exactly this effect. *)
Definition consumes_approval (s s' : Store) (req : AuthorizationRequest) (flow : option RequestId)
    (now : Z) (id : ApprovalId) (row : ApprovalRow) : Prop :=
  az_approval_id req = Some id /\ approvals s !! id = Some row
  /\ approval_matches row req flow = true /\ ap_state row = "approved"
  /\ now < ap_expires_at_ms row
  /\ approvals s' = <[id := set_consumed now row]> (approvals s).

(** The policy's answer and the approval behind an allowed effect. *)
Definition allowed_by (s s' : Store) (req : AuthorizationRequest) (flow : option RequestId)
    (must : bool) (now : Z) : Prop :=
  caller_active s (az_caller_id req) = true
  /\ exists grants, load_grants req s = Ok (s, grants)
     /\ ((must = false /\ evaluate_request grants req now = Allowed /\ approvals s' = approvals s)
         \/ ((must = true \/ evaluate_request grants req now = ApprovalRequired)
             /\ evaluate_request grants req now <> Denied
             /\ exists id row, consumes_approval s s' req flow now id row)).

Lemma load_grants_store req s s' grants : load_grants req s = Ok (s', grants) -> s' = s.
Proof. apply ro_load_grants. Qed.

Lemma resolve_allowed id req flow now s s' :
  resolve_bound_approval id req flow now now s = Ok (s', AuthAllowed) -> az_approval_id req = Some id ->
  exists row, consumes_approval s s' req flow now id row.
Proof.
  intros Hx Hid. apply resolve_bound_Ok in Hx as [[_ ?]|(a & a' & Ha & Hm & Hr & _ & ->)]; [done|].
  destruct Hr as [(? & _)|(_ & Hs & He & ->)]; [done|]. by exists a.
Qed.

Lemma request_not_allowed uuid req now ttl flow s s' :
  request_approval uuid req now now ttl flow s = Ok (s', AuthAllowed) -> False.
Proof. intros Hx. by apply request_approval_Ok in Hx as [? _]. Qed.

Lemma authorize_tx_allowed uuid req now ttl s s' :
  authorize_tx uuid req now now ttl s = Ok (s', AuthAllowed) -> allowed_by s s' req None false now.
Proof.
  unfold authorize_tx. intros Hx. apply tx_bind_Ok in Hx as (? & act & Ha & Hx).
  apply tx_read_Ok in Ha as [-> ->]. destruct (caller_active s _) eqn:Eact; [|by tx_inv].
  cbn [negb] in Hx. apply tx_bind_Ok in Hx as (s1 & grants & Hg & Hx).
  pose proof (load_grants_store _ _ _ _ Hg) as ->. split; [done|]. exists grants. split; [done|].
  destruct (evaluate_request grants req now) eqn:Ed; [left; by tx_inv|by tx_inv|].
  right. split; [by right|]. split; [done|]. unfold authorize_with_approval in Hx.
  destruct (az_approval_id req) as [id|] eqn:Eid; [|by apply request_not_allowed in Hx].
  exists id. by apply resolve_allowed.
Qed.

Lemma consume_effect_allowed req now s s' :
  consume_effect_outcome req now now s = Ok (s', AuthAllowed) -> allowed_by s s' req None true now.
Proof.
  unfold consume_effect_outcome. intros Hx. apply tx_bind_Ok in Hx as (? & act & Ha & Hx).
  apply tx_read_Ok in Ha as [-> ->]. destruct (caller_active s _) eqn:Eact; [|by tx_inv].
  cbn [negb] in Hx. apply tx_bind_Ok in Hx as (s1 & grants & Hg & Hx).
  pose proof (load_grants_store _ _ _ _ Hg) as ->. split; [done|]. exists grants. split; [done|].
  right. split; [by left|].
  destruct (evaluate_request grants req now) eqn:Ed; [|by tx_inv|]; (split; [done|]);
    (destruct (az_approval_id req) as [id|] eqn:Eid; [|by tx_inv]);
    exists id; by apply resolve_allowed.
Qed.

(** ** Flow runs *)

Lemma insert_flow_authorization_Ok id f s s' u :
  insert_flow_authorization_row id f s = Ok (s', u) ->
  s' = set_flow_authorizations s (<[id := f]> (flow_authorizations s))
  /\ flow_authorizations s !! id = None /\ flow_authorization_check f = true.
Proof.
  unfold insert_flow_authorization_row. destruct (_ && _) eqn:E; [|done]. intros [= <- _].
  rewrite !andb_true_iff in E. destruct E as (((Hc & Hn) & _) & _).
  apply bool_decide_eq_true in Hn. done.
Qed.

(** The approval a new proof names. *)
Definition proof_approval (req : AuthorizeFlowRun) (required : bool) : option ApprovalId :=
  if required then af_approval_id req else None.

Lemma accept_authorized_Ok req cap required now s s' out :
  accept_authorized req cap required now s = Ok (s', out) ->
  exists s1 o, accept_tx (af_accept req) now s = Ok (s1, o) /\ out = FlowAccepted o
    /\ (required = true -> is_Some (af_approval_id req))
    /\ flow_authorizations s1 !! accept_outcome_request_id o = None
    /\ s' = set_flow_authorizations s1
         (<[accept_outcome_request_id o := flow_authorization_row req cap (proof_approval req required) now]>
            (flow_authorizations s1)).
Proof.
  unfold accept_authorized, proof_approval. intros Hx. apply tx_bind_Ok in Hx as (s1 & o & Ha & Hx).
  apply tx_bind_Ok in Hx as (? & ap & Hap & Hx). tx_leaf.
  apply tx_bind_Ok in Hx as (s2 & u & Hi & Hx). tx_leaf.
  apply insert_flow_authorization_Ok in Hi as (-> & Hn & _).
  exists s1, o. split_and!; try done.
  - intros ->. destruct (af_approval_id req); [done|done].
  - destruct required; [|by simplify_eq].
    destruct (af_approval_id req); [|done]. by simplify_eq/=.
Qed.

Lemma resolve_writes id req flow now : writes set_approvals (resolve_bound_approval id req flow now now).
Proof.
  intros s s' out Hx. apply resolve_bound_Ok in Hx as [[-> _]|(a & a' & _ & _ & _ & _ & ->)]; eauto.
Qed.

Lemma flow_approval_allowed uuid req id now ttl s s' :
  authorize_flow_with_approval uuid req id now now ttl s = Ok (s', AuthAllowed) ->
  (s' = s \/ exists v, s' = set_approvals s v)
  /\ exists ap row, consumes_approval s s' req (Some id) now ap row.
Proof.
  unfold authorize_flow_with_approval. destruct (az_approval_id req) as [ap|] eqn:Eid; intros Hx.
  - split; [exact (resolve_writes _ _ _ _ _ _ _ Hx)|]. exists ap. by eapply resolve_allowed.
  - apply tx_bind_Ok in Hx as (? & o & Hr & Hx). destruct o as [[? ?]|]; [by tx_inv|].
    by apply request_not_allowed in Hx.
Qed.

(** A new run is accepted after its authorization, in a store that differs from
    the first one by the consumed approval only. *)
Lemma new_flow_run_Ok uuid req now ttl s s' o :
  authorize_new_flow_run uuid req now now ttl s = Ok (s', FlowAccepted o) ->
  let policy := policy_request req FLOW_CAPABILITY_NAME in
  exists s1 required,
    (s1 = s \/ exists v, s1 = set_approvals s v)
    /\ allowed_by s s1 policy (Some (ar_request_id (af_accept req)))
         (af_schema_approval_required req) now
    /\ (required = true -> exists id row,
         consumes_approval s s1 policy (Some (ar_request_id (af_accept req))) now id row)
    /\ (af_schema_approval_required req = true -> required = true)
    /\ accept_authorized req FLOW_CAPABILITY_NAME required now s1 = Ok (s', FlowAccepted o).
Proof.
  unfold authorize_new_flow_run. intros Hx. apply tx_bind_Ok in Hx as (? & act & Ha & Hx).
  apply tx_read_Ok in Ha as [-> ->]. destruct (caller_active s _) eqn:Eact; [|by tx_inv].
  cbn [negb] in Hx. apply tx_bind_Ok in Hx as (? & cap & Hc & Hx). tx_leaf.
  change (flow_capability = Ok cap) in Hc. injection Hc as <-.
  apply tx_bind_Ok in Hx as (s1 & grants & Hg & Hx). pose proof (load_grants_store _ _ _ _ Hg) as ->.
  set (policy := policy_request req _) in *.
  set (decision := evaluate_request grants policy now) in *.
  assert (Hd : decision <> Denied) by (intros E; rewrite E in Hx; by tx_inv).
  set (required := af_schema_approval_required req
                   || match decision with ApprovalRequired => true | _ => false end).
  assert (Hx' : (if required then
            approval ← authorize_flow_with_approval uuid policy (ar_request_id (af_accept req)) now now ttl;
            if bool_decide (approval = AuthAllowed)
            then accept_authorized req FLOW_CAPABILITY_NAME true now
            else tx_lift (flow_authorization_outcome approval)
          else accept_authorized req FLOW_CAPABILITY_NAME false now) s = Ok (s', FlowAccepted o))
    by (unfold required; destruct decision; done).
  clear Hx. destruct required eqn:Er.
  - apply tx_bind_Ok in Hx' as (s1 & ap & Hap & Hx). case_bool_decide as Eap.
    2:{ apply tx_lift_Ok in Hx as [_ Hx]. by destruct ap. }
    subst ap. apply flow_approval_allowed in Hap as [Hw (id & row & Hrow)].
    exists s1, true. split; [done|]. split; [|by eauto]. split; [done|]. exists grants.
    split; [done|]. right. split; [|split; [done|by exists id, row]].
    unfold required in Er. apply orb_true_iff in Er as [Er|Er]; [by left|right].
    fold decision. by destruct decision.
  - unfold required in Er. apply orb_false_iff in Er as [Ef Er].
    exists s, false. split; [by left|]. split; [|by rewrite Ef]. split; [done|]. exists grants.
    split; [done|]. left. rewrite Ef. split_and!; try done. fold decision. by destruct decision.
Qed.

Lemma existing_flow_run_Ok req cap existing now s s' o :
  authorize_existing_flow_run req cap existing now s = Ok (s', FlowAccepted o) -> s' = s /\ o = existing.
Proof.
  intros Hx. pose proof (ro_existing_flow_run req cap existing now _ _ _ Hx) as ->. split; [done|].
  unfold authorize_existing_flow_run in Hx. destruct (negb _); [by tx_inv|].
  destruct (validate_flow_authorization_integrity _ s) as [[s1 proof]|e|]; [| |done].
  - destruct (_ && _); [|done]. apply tx_bind_Ok in Hx as (s2 & al & _ & Hx).
    apply tx_ret_Ok in Hx as [_ Hx]. case_bool_decide; congruence.
  - destruct e; try done. destruct (terminal_existing existing); [congruence|done].
Qed.

(** The accepted flow run is the existing one or a new one; the audit event
    follows. *)
Lemma authorize_flow_run_Ok uuid req now ttl s s' out :
  authorize_flow_run_tx uuid req now ttl s = Ok (s', out) ->
  ar_operation_kind (af_accept req) = FLOW_OPERATION_KIND
  /\ exists s1 rec, append_audit_event_tx
       (audit_of (af_audit req) (ar_caller_id (af_accept req)) (ar_project_id (af_accept req))
          (flow_authorization_audit_outcome out) now) s1 = Ok (s', rec)
     /\ ((exists r, List.find (same_acceptance (af_accept req)) (requests s) = Some r
            /\ s1 = s /\ forall o, out = FlowAccepted o -> o = Existing (q_request_id r) (q_state r))
         \/ (List.find (same_acceptance (af_accept req)) (requests s) = None
             /\ authorize_new_flow_run uuid req now now ttl s = Ok (s1, out))).
Proof.
  unfold authorize_flow_run_tx. destruct (String.eqb_spec (ar_operation_kind (af_accept req)) FLOW_OPERATION_KIND)
    as [Hk|]; [|intros; by tx_inv]. intros Hx. cbn [negb] in Hx. split; [done|].
  apply tx_bind_Ok in Hx as (? & n & Hn & Hx). tx_leaf. tx_facts.
  apply tx_bind_Ok in Hx as (? & cap & Hc & Hx). tx_leaf. change (flow_capability = Ok cap) in Hc. injection Hc as <-.
  apply tx_bind_Ok in Hx as (? & ex & He & Hx). apply existing_acceptance_Ok in He as [-> He].
  apply tx_bind_Ok in Hx as (s1 & out' & Ho & Hx). apply tx_bind_Ok in Hx as (s2 & rec & Hap & Hx). tx_leaf.
  exists s1, rec. split; [done|]. destruct (List.find _ (requests s)) as [r|].
  - destruct He as (-> & _). left. exists r. split; [done|].
    split; [by apply ro_existing_flow_run in Ho|]. intros o ->. by apply existing_flow_run_Ok in Ho as [_ ->].
  - subst ex. by right.
Qed.

(** ** Effects are authorized *)

Lemma allowed_by_approvals s s1 s2 req flow must now :
  approvals s2 = approvals s1 -> allowed_by s s1 req flow must now -> allowed_by s s2 req flow must now.
Proof. unfold allowed_by, consumes_approval. by intros ->. Qed.

Lemma append_keeps_approvals event s s' r :
  append_audit_event_tx event s = Ok (s', r) -> approvals s' = approvals s.
Proof. apply (frame_append_audit approvals). done. Qed.

(** The statements of an audited transaction: the time, the answer, the event. *)
Lemma audited_Ok {A} (m : Z -> Tx A) (event : A -> AppendAuditEvent) now s s' out :
  (n ← tx_lift (sql_integer now); out ← m n; _ ← append_audit_event_tx (event out); mret out) s
    = Ok (s', out) ->
  exists s1 r, m now s = Ok (s1, out) /\ append_audit_event_tx (event out) s1 = Ok (s', r).
Proof.
  intros Hx. apply tx_bind_Ok in Hx as (? & n & Hn & Hx). tx_leaf. tx_facts.
  apply tx_bind_Ok in Hx as (s1 & o & Hm & Hx). apply tx_bind_Ok in Hx as (s2 & r & Ha & Hx). tx_leaf. eauto.
Qed.

Lemma transaction_snd {A} (m : Tx A) s a :
  (transaction m s).2 = Ok a -> m s = Ok ((transaction m s).1, a).
Proof. unfold transaction. destruct (m s) as [[s' b]|e|]; cbn; [by intros [= ->]|done|done]. Qed.

Lemma allows_allowed_by c s req flow must :
  effect_request c = Some (req, flow, must) -> allows c s ->
  allowed_by s (run_call c s) req flow must (call_time c).
Proof.
  destruct c as [| | | | | | | | | | | | | |uuid r [audit|] now ttl|r audit now|uuid r now ttl| | | | | | | ];
    try done; intros [= <- <- <-]; cbn [allows run_call call_time].
  - intros Hx. apply transaction_snd, audited_Ok in Hx as (s1 & rec & Hm & Ha).
    eapply allowed_by_approvals; [by eapply append_keeps_approvals|by eapply authorize_tx_allowed].
  - intros Hx. apply transaction_snd in Hx. apply tx_bind_Ok in Hx as (? & n & Hn & Hx). tx_leaf. tx_facts.
    by eapply authorize_tx_allowed.
  - intros Hx. apply transaction_snd, audited_Ok in Hx as (s1 & rec & Hm & Ha).
    eapply allowed_by_approvals; [by eapply append_keeps_approvals|by eapply consume_effect_allowed].
  - intros (id & sequence & Hx). apply transaction_snd, authorize_flow_run_Ok in Hx
      as (_ & s1 & rec & Ha & [(row & _ & _ & Ho)|(_ & Hn)]); [by discriminate (Ho _ eq_refl)|].
    eapply allowed_by_approvals; [by eapply append_keeps_approvals|].
    apply new_flow_run_Ok in Hn as (s2 & required & _ & Hal & _ & _ & Hacc).
    eapply allowed_by_approvals; [|exact Hal].
    apply accept_authorized_Ok in Hacc as (s3 & o & Hacc & _ & _ & _ & ->). cbn.
    by apply accept_tx_Ok in Hacc as [(? & _ & _ & _ & -> & _)|(_ & _ & -> & _)].
Qed.

(** C23: an effect or a new flow run is allowed only to a registered, unrevoked
    caller whose stored grants do not deny it, and either the grants allow it
    unconditionally (a matching allow grant without approval, or a baseline
    capability no grant mentions) or an approval is consumed with it, one that
    was approved for exactly this caller, project, capability, resource and flow
    run and has not expired. For an effect outside a flow
    "exactly" is the approval comparison of the code, [approval_matches]. *)
Theorem effects_authorized c s req flow must :
  effect_request c = Some (req, flow, must) -> allows c s ->
  caller_active s (az_caller_id req) = true
  /\ exists grants, load_grants req s = Ok (s, grants)
     /\ let matching := matching_grants grants (az_caller_id req) (az_project_id req)
                          (az_capability req) (az_resource req) (call_time c) in
        (forall g, g ∈ matching -> g_effect g <> Deny)
        /\ ((must = false
             /\ ((exists g, g ∈ matching /\ g_approval g = ApprovalNone)
                 \/ matching = [] /\ is_baseline (az_capability req) = true)
             /\ approvals (run_call c s) = approvals s)
            \/ exists id row, consumes_approval s (run_call c s) req flow (call_time c) id row).
Proof.
  intros Hreq Hall. destruct (allows_allowed_by _ _ _ _ _ Hreq Hall) as (Hact & grants & Hg & Hcase).
  split; [done|]. exists grants. split; [done|]. cbn zeta.
  set (m := matching_grants _ _ _ _ _ _).
  assert (Hspec := evaluate_satisfies grants (az_caller_id req) (az_project_id req) (az_capability req)
                     (az_resource req) (call_time c)).
  fold m in Hspec. unfold evaluate_request in Hcase.
  set (d := evaluate _ _ _ _ _ _) in *. clearbody d m.
  assert (Hnd : d <> Denied) by (destruct Hcase as [(_ & -> & _)|(_ & ? & _)]; done).
  split.
  - intros g Hm Hd. destruct d; [|done|]; destruct Hspec as [Hn _]; eauto.
  - destruct Hcase as [(Hm & -> & Ha)|(_ & _ & Hc)]; [left|by right]. destruct Hspec as [_ Hs].
    split_and!; [done|tauto|done].
Qed.

(** The call is allowed by the approval [id]. *)
Definition spends (c : StoreCall) (s : Store) (id : ApprovalId) : Prop :=
  exists req flow must grants,
    effect_request c = Some (req, flow, must) /\ allows c s /\ az_approval_id req = Some id
    /\ load_grants req s = Ok (s, grants)
    /\ (must = true \/ evaluate_request grants req (call_time c) = ApprovalRequired).

Lemma spends_consumes c s id :
  spends c s id -> exists row now, approvals s !! id = Some row /\ ap_state row = "approved"
    /\ approvals (run_call c s) !! id = Some (set_consumed now row).
Proof.
  intros (req & flow & must & grants & Hreq & Hall & Hid & Hg & Hmust).
  destruct (allows_allowed_by _ _ _ _ _ Hreq Hall) as (_ & grants' & Hg' & Hcase).
  assert (grants' = grants) as -> by congruence.
  destruct Hcase as [(Hm & He & _)|(_ & _ & id' & row & Hid' & Hrow & _ & Hs & _ & Ha)].
  - destruct Hmust; congruence.
  - assert (id' = id) as -> by congruence. exists row, (call_time c). split_and!; [done|done|].
    rewrite Ha. apply lookup_insert_eq.
Qed.

(** C24: an approval authorizes once: after a call was allowed by it, no later
    call of any history (without an access reset) is allowed by it again. *)
Theorem approval_spent_once c1 calls c2 s id :
  Forall (fun c => c <> CallResetAccess) calls -> spends c1 s id ->
  ~ spends c2 (run_calls calls (run_call c1 s)) id.
Proof.
  intros Hcalls H1 H2. apply spends_consumes in H1 as (row & now & _ & _ & Hc).
  destruct (consumed_is_final calls _ id _ Hcalls Hc eq_refl) as (row' & Hrow' & Hst).
  apply spends_consumes in H2 as (row2 & _ & Hrow2 & Hst2 & _). congruence.
Qed.

End history.
