(* ===== verification/StoreFlowAuth.v ===== *)
(** * The stored authorization of every flow run stands

    Over any history in which the clock does not run backwards between the
    calls that decide and consume approvals, every flow request of the store has
    an authorization proof that passes the integrity check of the claim: the
    recovery of corrupt authorizations never fires. *)

From S2P Require Import Prelude Core Policy FlowDef FlowData FlowSnapshot StoreDef.
From S2P Require Import StoreFlow StoreQueue StoreAudit StoreAccess StoreAuth StoreView.
From S2P Require Import StoreStep StoreEffect StoreFrame StoreApproval StoreInv StoreConsent.

Local Open Scope Z_scope.

Section proofs.
Context `{Sha256} `{FlowCodec}.

(** ** Sound proofs *)

(** The consumed approval a proof names. *)
Definition receipt_sound (s : Store) (r : RequestRow) (fa : FlowAuthorizationRow) (id : ApprovalId) : Prop :=
  exists a, approvals s !! id = Some a
    /\ ap_caller_id a = q_caller_id r /\ ap_project_id a = q_project_id r
    /\ ap_capability a = FLOW_CAPABILITY_NAME /\ ap_resource a = fa_resource fa
    /\ ap_effect_fingerprint a = fa_effect_fingerprint fa
    /\ ap_state a = "consumed" /\ ap_flow_request_id a = Some (q_request_id r)
    /\ consumed_in_time a = true.

(** The proof stored for a flow request. *)
Definition flow_proved (s : Store) (r : RequestRow) : Prop :=
  exists fa, flow_authorizations s !! q_request_id r = Some fa
    /\ fa_capability fa = FLOW_CAPABILITY_NAME
    /\ resource_parse (fa_resource fa) = Ok (fa_resource fa)
    /\ fa_effect_fingerprint fa
       = fingerprint_compute (q_caller_id r) (q_project_id r) FLOW_CAPABILITY_NAME (fa_resource fa)
    /\ kind_matches (fa_authorization_kind fa) (fa_approval_id fa) = true
    /\ (fa_schema_approval_required fa = true -> fa_approval_id fa <> None)
    /\ fa_authorized_at_ms fa = q_accepted_at_ms r
    /\ forall id, fa_approval_id fa = Some id -> receipt_sound s r fa id.

Definition is_flow (r : RequestRow) : Prop := q_operation_kind r = FLOW_OPERATION_KIND.

(** [now] is the clock: no decision lies ahead of it. *)
Record flow_auth_inv (now : Z) (s : Store) : Prop := {
  fai_flows : forall r, r ∈ requests s -> is_flow r -> flow_proved s r;
  fai_checks : forall id a, approvals s !! id = Some a -> approval_check a = true;
  fai_decided : forall id a t, approvals s !! id = Some a -> ap_decided_at_ms a = Some t -> t <= now
}.

(** ** The check passes on a sound proof *)

Definition proof_of (r : RequestRow) (fa : FlowAuthorizationRow) : StoredFlowAuthorization :=
  {| sa_caller_id := q_caller_id r; sa_project_id := q_project_id r;
     sa_capability := FLOW_CAPABILITY_NAME; sa_resource := fa_resource fa;
     sa_fingerprint := fa_effect_fingerprint fa; sa_approval_id := fa_approval_id fa;
     sa_schema_approval_required := fa_schema_approval_required fa |}.

Lemma find_flow_row s r :
  unique_ids s -> r ∈ requests s -> is_flow r ->
  List.find (fun x => by_id (q_request_id r) x && String.eqb (q_operation_kind x) FLOW_OPERATION_KIND)
    (requests s) = Some r.
Proof.
  unfold unique_ids. intros Hu Hr Hf. induction (requests s) as [|x l IH]; [by apply not_elem_of_nil in Hr|].
  cbn [fmap list_fmap] in Hu. apply NoDup_cons in Hu as [Hx Hu]. cbn [List.find]. destruct (_ && _) eqn:E.
  - apply andb_true_iff in E as [E _]. apply by_id_eq in E. f_equal.
    apply elem_of_cons in Hr as [->|Hr]; [done|]. exfalso. apply Hx. rewrite E.
    apply list_elem_of_fmap. eauto.
  - apply elem_of_cons in Hr as [->|Hr]; [|by apply IH]. unfold by_id in E.
    by rewrite Hf, !String.eqb_refl in E.
Qed.

Lemma sound_proof_loads s r fa :
  unique_ids s -> r ∈ requests s -> is_flow r -> flow_authorizations s !! q_request_id r = Some fa ->
  flow_proved s r ->
  validate_flow_authorization_integrity (q_request_id r) s = Ok (s, proof_of r fa).
Proof.
  intros Hu Hr Hf Hfa (fa' & Hfa' & Hcap & Hres & Hfp & Hkind & Hschema & Hat & Hrec).
  assert (fa' = fa) as -> by congruence. clear Hfa'.
  assert (Hload : load_flow_authorization (q_request_id r) s = Ok (s, proof_of r fa)).
  { unfold load_flow_authorization, mbind, tx_bind, tx_read, joined_authorization.
    rewrite (find_flow_row s r Hu Hr Hf). cbn. rewrite Hfa, Hcap. unfold tx_lift.
    change (capability_parse FLOW_CAPABILITY_NAME) with (Ok FLOW_CAPABILITY_NAME : res InvalidName _).
    rewrite Hres. cbn -[FLOW_CAPABILITY_NAME]. rewrite String.eqb_refl, Hkind, Hat, Z.eqb_refl.
    rewrite (proj2 (constant_time_equal_spec _ _)) by done. cbn [negb orb].
    assert (Hs : fa_schema_approval_required fa && bool_decide (fa_approval_id fa = None) = false).
    { destruct (fa_schema_approval_required fa); [|done]. cbn. by apply bool_decide_eq_false, Hschema. }
    rewrite Hs. reflexivity. }
  unfold validate_flow_authorization_integrity. rewrite (bind_Ok _ _ _ _ _ Hload). cbn.
  destruct (fa_approval_id fa) as [id|] eqn:Eid; [|reflexivity].
  destruct (Hrec id eq_refl) as (a & Ha & Hc & Hp & Hk & Hrs & Hfe & Hst & Hflow & Htime).
  unfold validate_consumed_flow_receipt, mbind, tx_bind, tx_read. rewrite Ha.
  unfold receipt_matches. cbn -[FLOW_CAPABILITY_NAME]. rewrite Hc, Hp, Hk, Hrs, Hst, Hflow, Htime.
  unfold opt_eqb. rewrite !String.eqb_refl, (proj2 (constant_time_equal_spec _ _)) by done. reflexivity.
Qed.

(** ** What approval moves keep *)

Lemma step_keeps_consumed now m m' id a :
  approvals_step now m m' -> m !! id = Some a -> ap_state a = "consumed" -> m' !! id = Some a.
Proof.
  intros Hstep Ha Hs. destruct Hstep as [i x Hn _ _|i x x' Hi Hm _];
    (destruct (decide (i = id)) as [->|Hne]; [|by rewrite lookup_insert_ne]); [congruence|].
  assert (x = a) as -> by congruence.
  destruct Hm as [Hp|state ap Hst|Hst]; [|congruence..]. by rewrite Hs in Hp.
Qed.

Lemma moved_keeps_consumed now s s' id a :
  approvals_moved now s s' -> approvals s !! id = Some a -> ap_state a = "consumed" ->
  approvals s' !! id = Some a.
Proof.
  unfold approvals_moved. intros Hm Ha Hs. induction Hm as [|m1 m2 m3 Hstep _ IH]; [done|].
  apply IH. by eapply step_keeps_consumed.
Qed.

Lemma step_keeps_checks now m m' :
  approvals_step now m m' -> (forall id a, m !! id = Some a -> approval_check a = true) ->
  forall id a, m' !! id = Some a -> approval_check a = true.
Proof.
  intros Hstep Hm id a. destruct Hstep as [i x _ _ Hc|i x x' _ _ Hc]; rewrite lookup_insert_Some;
    (intros [[_ <-]|[_ Ha]]; [done|by eapply Hm]).
Qed.

Lemma step_keeps_decided t now m m' :
  approvals_step now m m' -> t <= now ->
  (forall id a d, m !! id = Some a -> ap_decided_at_ms a = Some d -> d <= t) ->
  forall id a d, m' !! id = Some a -> ap_decided_at_ms a = Some d -> d <= now.
Proof.
  intros Hstep Ht Hm id a d. destruct Hstep as [i x _ (_ & _ & Hd & _) _|i x x' Hi Hmv _];
    rewrite lookup_insert_Some; intros [[_ <-]|[_ Ha]] Hda.
  - congruence.
  - specialize (Hm _ _ _ Ha Hda). lia.
  - destruct Hmv; cbn in Hda; [specialize (Hm _ _ _ Hi Hda); lia|by simplify_eq|specialize (Hm _ _ _ Hi Hda); lia].
  - specialize (Hm _ _ _ Ha Hda). lia.
Qed.

(** The two properties of the approvals, over the moves of a call at [now]. *)
Lemma moved_keeps_rows t now s s' :
  approvals_moved now s s' -> t <= now -> flow_auth_inv t s ->
  (forall id a, approvals s' !! id = Some a -> approval_check a = true)
  /\ forall id a d, approvals s' !! id = Some a -> ap_decided_at_ms a = Some d -> d <= now.
Proof.
  intros Hm Ht [_ Hc Hd].
  assert (Hd' : forall id a d, approvals s !! id = Some a -> ap_decided_at_ms a = Some d -> d <= now).
  { intros id a d Ha Hda. specialize (Hd _ _ _ Ha Hda). lia. }
  clear Hd Ht. unfold approvals_moved in Hm. induction Hm as [m|m1 m2 m3 Hstep _ IH]; [done|].
  apply IH; [by eapply step_keeps_checks|eapply (step_keeps_decided now); [done|done|exact Hd']].
Qed.

Lemma identity_flow r r' : identity_of r' = identity_of r -> is_flow r' -> is_flow r.
Proof. unfold is_flow, identity_of. intros [=]. congruence. Qed.

Lemma flow_proved_moves now s s' r r' :
  approvals_moved now s s' -> identity_of r' = identity_of r ->
  flow_authorizations s' !! q_request_id r = flow_authorizations s !! q_request_id r ->
  flow_proved s r -> flow_proved s' r'.
Proof.
  intros Hm [=Hid Hca Hpr _ _ _ _ Hat] Hfa (fa & Hf & Hcap & Hres & Hfp & Hk & Hsc & Hau & Hrec).
  exists fa. rewrite Hid, Hfa, Hca, Hpr, Hat. split_and!; try done.
  intros id Hi. destruct (Hrec id Hi) as (a & Ha & Hc & Hp & Hcp & Hrs & Hfe & Hst & Hfl & Ht).
  exists a. rewrite Hid, Hca, Hpr. split_and!; try done. by eapply moved_keeps_consumed.
Qed.

(** Every flow request of [s'] was a request of [s]. *)
Definition flows_from (s s' : Store) : Prop :=
  forall r', r' ∈ requests s' -> is_flow r' -> exists r, r ∈ requests s /\ identity_of r' = identity_of r.

Lemma inv_of_old_flows t now s s' :
  flow_auth_inv t s -> t <= now -> approvals_moved now s s' ->
  flow_authorizations s' = flow_authorizations s -> flows_from s s' -> flow_auth_inv now s'.
Proof.
  intros Hinv Ht Hm Hfa Hfrom. destruct (moved_keeps_rows _ _ _ _ Hm Ht Hinv) as [Hc Hd].
  split; [|done|done]. intros r' Hr' Hf. destruct (Hfrom r' Hr' Hf) as (r & Hr & Hid).
  eapply flow_proved_moves; [done|done|by rewrite Hfa|].
  apply (fai_flows _ _ Hinv); [done|by eapply identity_flow].
Qed.

(** ** Calls that accept no flow run *)

Lemma length_update_requests p f : respects (same (fun s => length (requests s))) (update_requests p f).
Proof.
  intros s s' n. unfold update_requests. destruct (bool_decide _); [|done]. intros [= <- _].
  unfold same. cbn. by rewrite length_fmap.
Qed.

Lemma flows_from_extends T s s' :
  extends T s s' -> length (requests s') = length (requests s) -> flows_from s s'.
Proof.
  intros [Hrows _] Hlen r' Hr' _. apply list_elem_of_lookup in Hr' as [i Hi].
  destruct (lookup_lt_is_Some_2 (requests s) i) as [r Hr].
  { rewrite <-Hlen. by eapply lookup_lt_Some. }
  destruct (Hrows i r Hr) as (r'' & Hi'' & Hmv). assert (r'' = r') as -> by congruence.
  exists r. split; [by eapply list_elem_of_lookup_2|]. by eapply row_moves_identity.
Qed.

Lemma call_keeps_length c s :
  match c with CallAccept _ _ | CallAuthorizeFlow _ _ _ _ => False | _ => True end ->
  length (requests (run_call c s)) = length (requests s).
Proof.
  intros Hc. destruct (is_queue_call c) eqn:Hq.
  - apply (queue_call_updates (fun s => length (requests s))); try done;
      [apply length_update_requests|by destruct c].
  - destruct_call c; try done;
      cbn [run_call]; refine (respects_transaction (same (fun s => length (requests s))) _ s _); solve_side.
Qed.

Lemma accept_flows_from a now s : store_inv s -> flows_from s (run_call (CallAccept a now) s).
Proof.
  intros Hinv. cbn [run_call]. unfold accept.
  destruct (String.eqb_spec (ar_operation_kind a) FLOW_OPERATION_KIND) as [|Hk]; [by intros r Hr _; eauto|].
  unfold transaction. match goal with |- context [match ?m with _ => _ end] => destruct m as [[s' out]|e|] eqn:Hx end;
    [|by intros r Hr _; eauto..]. cbn [fst].
  apply tx_bind_Ok in Hx as (? & n & Hn & Hx). tx_leaf.
  apply accept_tx_Ok in Hx as [(r & _ & _ & _ & -> & _)|(_ & _ & -> & _)]; [by intros r0 Hr _; eauto|].
  intros r Hr Hf. cbn in Hr. apply elem_of_app in Hr as [Hr|Hr]; [by eauto|].
  apply list_elem_of_singleton in Hr as ->. done.
Qed.

Lemma call_flows_from c s :
  store_inv s -> match c with CallAuthorizeFlow _ _ _ _ => False | _ => True end ->
  flows_from s (run_call c s).
Proof.
  intros Hinv Hc. destruct (match c with CallAccept _ _ => true | _ => false end) eqn:Ea.
  - destruct c; try done. by apply accept_flows_from.
  - eapply (flows_from_extends any_moves).
    + apply store_steps_extends, run_call_steps; [done|apply Hinv|by destruct c].
    + apply call_keeps_length. by destruct c.
Qed.

Lemma call_keeps_proofs c s :
  match c with CallAuthorizeFlow _ _ _ _ | CallResetAccess => False | _ => True end ->
  flow_authorizations (run_call c s) = flow_authorizations s.
Proof.
  intros Hc. destruct (is_queue_call c) eqn:Hq.
  - by apply queue_call_keeps; destruct c.
  - destruct_call c; try done;
      cbn [run_call]; refine (respects_transaction (same flow_authorizations) _ s _); solve_side.
Qed.

(** ** Acceptance of a flow run *)

Lemma approved_is_decided a :
  approval_check a = true -> ap_state a = "approved" -> is_Some (ap_decided_at_ms a).
Proof.
  unfold approval_check, approval_shape. intros Hc Hs. rewrite Hs in Hc. cbn in Hc.
  rewrite !andb_true_iff, !orb_false_r in Hc. destruct Hc as ((_ & Hc) & _).
  rewrite !andb_true_iff in Hc. destruct Hc as ((_ & Hc) & _). by apply bool_decide_eq_true in Hc.
Qed.

(** The consumed approval is a sound receipt of the new proof. *)
Lemma consumed_receipt t now s s1 req seq id row :
  flow_auth_inv t s -> t <= now ->
  consumes_approval s s1 (policy_request req FLOW_CAPABILITY_NAME)
    (Some (ar_request_id (af_accept req))) now id row ->
  receipt_sound s1 (queued_row (af_accept req) seq now)
    (flow_authorization_row req FLOW_CAPABILITY_NAME (Some id) now) id.
Proof.
  intros Hinv Ht (_ & Hrow & Hm & Hs & He & Ha). exists (set_consumed now row).
  rewrite Ha, lookup_insert_eq. split; [done|].
  unfold approval_matches in Hm. rewrite !andb_true_iff, !String.eqb_eq, bool_decide_eq_true,
    constant_time_equal_spec in Hm. destruct Hm as (((((Hc & Hp) & Hk) & Hr) & Hf) & Hfp).
  split_and!; try done. unfold consumed_in_time. cbn.
  destruct (approved_is_decided row) as [d Hd]; [by eapply fai_checks|done|]. rewrite Hd.
  pose proof (fai_decided _ _ Hinv _ _ _ Hrow Hd). apply andb_true_iff. split; lia.
Qed.

Lemma append_keeps event s s' rec :
  append_audit_event_tx event s = Ok (s', rec) ->
  requests s' = requests s /\ flow_authorizations s' = flow_authorizations s
  /\ approvals s' = approvals s.
Proof.
  intros Hx. pose proof (frame_append_audit (fun s => (requests s, flow_authorizations s, approvals s))
    event ltac:(done) _ _ _ Hx) as E. by injection E as -> -> ->.
Qed.

Lemma flow_approval_keeps {X} (π : Store -> X) uuid req id now ttl :
  (forall s v, π (set_approvals s v) = π s) ->
  respects (same π) (authorize_flow_with_approval uuid req id now now ttl).
Proof.
  intros Hf. unfold authorize_flow_with_approval, resolve_flow_approval, resolve_bound_approval,
    request_approval, expire_approval. solve_frame.
Qed.

(** A refused run leaves the requests and the proofs. *)
Lemma refused_keeps uuid req now ttl s s' out :
  authorize_new_flow_run uuid req now now ttl s = Ok (s', out) ->
  (forall o, out <> FlowAccepted o) ->
  requests s' = requests s /\ flow_authorizations s' = flow_authorizations s.
Proof.
  intros Hx Hout. set (π := fun s => (requests s, flow_authorizations s)).
  enough (E : same π s s') by (unfold same, π in E; by injection E as -> ->).
  assert (Hacc : forall cap required s1 s2, accept_authorized req cap required now s1 = Ok (s2, out) -> False).
  { intros cap required s1 s2 Ha. apply accept_authorized_Ok in Ha as (? & o & _ & -> & _). by eapply Hout. }
  unfold authorize_new_flow_run in Hx.
  apply tx_bind_Ok in Hx as (? & act & Ha & Hx). apply tx_read_Ok in Ha as [-> ->].
  destruct (negb _); [by tx_inv|]. apply tx_bind_Ok in Hx as (? & cap & Hc & Hx). tx_leaf.
  apply tx_bind_Ok in Hx as (? & grants & Hg & Hx). apply load_grants_store in Hg as ->.
  destruct (evaluate_request _ _ _); [| by tx_inv|].
  all: destruct (_ || _); [|by apply Hacc in Hx].
  all: apply tx_bind_Ok in Hx as (s1 & ap & Hap & Hx); case_bool_decide; [by apply Hacc in Hx|].
  all: apply tx_lift_Ok in Hx as [-> _]; by eapply flow_approval_keeps.
Qed.

(** The proof written for an accepted run. *)
Lemma new_flow_proved t now s s1 s' req required seq :
  flow_auth_inv t s -> t <= now -> resource_parse (af_resource req) = Ok (af_resource req) ->
  (required = true -> exists id row, consumes_approval s s1 (policy_request req FLOW_CAPABILITY_NAME)
     (Some (ar_request_id (af_accept req))) now id row) ->
  (af_schema_approval_required req = true -> required = true) ->
  approvals s' = approvals s1 ->
  flow_authorizations s' !! ar_request_id (af_accept req)
    = Some (flow_authorization_row req FLOW_CAPABILITY_NAME (proof_approval req required) now) ->
  flow_proved s' (queued_row (af_accept req) seq now).
Proof.
  intros Hinv Ht Hres Hcons Hschema Hap Hfa.
  assert (Hreq : required = true -> exists id, af_approval_id req = Some id
            /\ receipt_sound s1 (queued_row (af_accept req) seq now)
                 (flow_authorization_row req FLOW_CAPABILITY_NAME (Some id) now) id).
  { intros Hr. destruct (Hcons Hr) as (id & row & Hc). exists id. split; [by destruct Hc|].
    by eapply consumed_receipt. }
  eexists. split; [exact Hfa|]. split; [done|]. split; [done|]. split; [done|].
  unfold proof_approval. cbn [fa_authorization_kind fa_approval_id fa_schema_approval_required
    fa_authorized_at_ms flow_authorization_row q_accepted_at_ms queued_row].
  split; [by destruct required, (af_approval_id req)|].
  split; [intros Hs; rewrite (Hschema Hs); destruct (Hreq (Hschema Hs)) as (id & -> & _); done|].
  split; [done|]. intros id Hid. destruct required; [|done].
  destruct (Hreq eq_refl) as (id' & Hid' & Hrec). assert (id' = id) as -> by congruence.
  rewrite Hid. unfold receipt_sound in *. by rewrite Hap.
Qed.

Lemma accepted_inv t uuid req now ttl s s' o :
  flow_auth_inv t s -> t <= now -> resource_parse (af_resource req) = Ok (af_resource req) ->
  List.find (same_acceptance (af_accept req)) (requests s) = None ->
  authorize_new_flow_run uuid req now now ttl s = Ok (s', FlowAccepted o) -> flow_auth_inv now s'.
Proof.
  intros Hinv Ht Hres Hfind Hx.
  pose proof (moves_new_flow_run _ _ _ _ _ _ _ Hx) as Hmv.
  destruct (moved_keeps_rows _ _ _ _ Hmv Ht Hinv) as [Hc Hd]. split; [|done|done].
  destruct (new_flow_run_Ok _ _ _ _ _ _ _ Hx) as (s1 & required & Hs1 & _ & Hcons & Hschema & Hacc).
  assert (Htab : requests s1 = requests s /\ flow_authorizations s1 = flow_authorizations s)
    by by destruct Hs1 as [->|[v ->]].
  destruct Htab as [Hr1 Hf1].
  apply accept_authorized_Ok in Hacc as (s2 & o' & Hacc & [= <-] & _ & Hnone & ->).
  apply accept_tx_Ok in Hacc as [(r & Hf & _)|(_ & _ & -> & _ & -> & _)]; [by rewrite Hr1, Hfind in Hf|].
  cbn in Hnone |- *. intros r Hr Hf. rewrite Hr1 in Hr. apply elem_of_app in Hr as [Hr|Hr].
  - pose proof (fai_flows _ _ Hinv r Hr Hf) as Hp. eapply flow_proved_moves; [exact Hmv|done| |exact Hp].
    destruct Hp as (fa & Hfa & _). cbn. rewrite lookup_insert_ne, Hf1; [done|].
    intros E. rewrite E, Hf1 in Hnone. congruence.
  - apply list_elem_of_singleton in Hr as ->. eapply new_flow_proved; try done.
    cbn. by rewrite lookup_insert_eq.
Qed.

Lemma authorize_flow_inv t uuid req now ttl s :
  flow_auth_inv t s -> t <= now -> resource_parse (af_resource req) = Ok (af_resource req) ->
  flow_auth_inv now (run_call (CallAuthorizeFlow uuid req now ttl) s).
Proof.
  intros Hinv Ht Hres. cbn [run_call]. unfold authorize_flow_run, transaction.
  assert (Hsame : flow_auth_inv now s).
  { split; [apply Hinv|apply Hinv|]. intros id a d Ha Hda. pose proof (fai_decided _ _ Hinv _ _ _ Ha Hda). lia. }
  destruct (authorize_flow_run_tx uuid req now ttl s) as [[s' out]|e|] eqn:Hx; [|done|done]. cbn [fst].
  apply authorize_flow_run_Ok in Hx as (_ & s1 & rec & Hap & Hcase).
  apply append_keeps in Hap as (Hr & Hfa & Ha).
  enough (flow_auth_inv now s1) as [H1 H2 H3].
  { split; rewrite ?Hr, ?Ha; [|done|done]. intros r Hin Hf. destruct (H1 r Hin Hf) as (fa & Hrow & Hrest).
    exists fa. unfold receipt_sound in *. by rewrite Hfa, Ha. }
  destruct Hcase as [(r & _ & -> & _)|[Hfind Hnew]]; [done|].
  destruct out as [o| | | |]; [by eapply accepted_inv|..].
  all: assert (Hk : requests s1 = requests s /\ flow_authorizations s1 = flow_authorizations s)
    by by eapply refused_keeps.
  all: destruct Hk as [Hk1 Hk2]; eapply (inv_of_old_flows t); [done|done|by eapply moves_new_flow_run|done|].
  all: intros r Hr' _; rewrite Hk1 in Hr'; eauto.
Qed.

(** ** Histories *)

(** The calls that read or write approvals at a time. *)
Definition timed (c : StoreCall) : bool :=
  match c with
  | CallAuthorize _ _ _ _ _ | CallConsumeEffect _ _ _ | CallAuthorizeFlow _ _ _ _ | CallDecide _ _ _ _ _ => true
  | _ => false
  end.

(** The access tables are not reset, the clock of the approvals does not run
    backwards, and the resource of a flow run is a parsed [ResourceName]. *)
Definition admissible (now : Z) (c : StoreCall) : Prop :=
  c <> CallResetAccess /\ (timed c = true -> now <= call_time c)
  /\ match c with
     | CallAuthorizeFlow _ req _ _ => resource_parse (af_resource req) = Ok (af_resource req)
     | _ => True
     end.

Fixpoint admissible_calls (now : Z) (calls : list StoreCall) : Prop :=
  match calls with
  | [] => True
  | c :: calls => admissible now c /\ admissible_calls (if timed c then call_time c else now) calls
  end.

Lemma untimed_keeps_approvals c s :
  timed c = false -> c <> CallResetAccess -> approvals (run_call c s) = approvals s.
Proof.
  intros Hc Hne. destruct (is_queue_call c) eqn:Hq.
  - by apply queue_call_keeps; destruct c.
  - destruct_call c; try done;
      cbn [run_call]; refine (respects_transaction (same approvals) _ s _); solve_side.
Qed.

Lemma call_keeps_auth now c s :
  store_inv s -> flow_auth_inv now s -> admissible now c ->
  flow_auth_inv (if timed c then call_time c else now) (run_call c s).
Proof.
  intros Hs Hinv (Hne & Ht & Hres).
  destruct (match c with CallAuthorizeFlow _ _ _ _ => true | _ => false end) eqn:Ea.
  { destruct c; try done. cbn [timed call_time]. eapply authorize_flow_inv; [done|by apply Ht|done]. }
  assert (Hfa : flow_authorizations (run_call c s) = flow_authorizations s)
    by (apply call_keeps_proofs; by destruct c).
  assert (Hfrom : flows_from s (run_call c s)) by (apply call_flows_from; [done|by destruct c]).
  destruct (timed c) eqn:Et; (eapply (inv_of_old_flows now); [done| | |done|done]).
  - by apply Ht.
  - by apply call_moves.
  - done.
  - by apply same_approvals_moved, untimed_keeps_approvals.
Qed.

Lemma calls_keep_auth calls : forall now s,
  store_inv s -> flow_auth_inv now s -> admissible_calls now calls ->
  exists now', flow_auth_inv now' (run_calls calls s).
Proof.
  induction calls as [|c calls IH]; intros now s Hs Hinv Hc; simpl; [by exists now|].
  destruct Hc as [Hc Hcs]. eapply IH; [by apply run_call_inv|by eapply call_keeps_auth|done].
Qed.

Lemma empty_auth_inv now : flow_auth_inv now empty_store.
Proof.
  split; [intros r Hr; by apply not_elem_of_nil in Hr|..]; intros id a; cbn; by rewrite lookup_empty.
Qed.

Lemma sound_not_corrupt id now result s proof :
  unique_ids s -> validate_flow_authorization_integrity id s = Ok (s, proof) ->
  (fail_corrupt_flow_authorization id now result s).1 = s.
Proof.
  intros Hu Hv. unfold fail_corrupt_flow_authorization, transaction.
  destruct (fail_corrupt_flow_authorization_tx id now result s) as [[s' out]|e|] eqn:Hx; [|done|done].
  cbn [fst]. apply fail_corrupt_tx_Ok in Hx as (i & r & _ & _ & _ & Hc); [|done].
  destruct Hc as [[-> _]|(_ & Hcor & _)]; [done|]. unfold authorization_is_corrupt in Hcor.
  by rewrite Hv in Hcor.
Qed.

(** C26: over any history without an access reset in which the clock does not run
    backwards between the calls on approvals, the stored authorization of every
    flow request passes the integrity check [claim] makes: it is bound to the
    request's caller and project, to the capability [flow.run] and to the
    fingerprint of the effect, and the approval it names was consumed for it in
    time. So the recovery of corrupt authorizations never changes the store. *)
Theorem flow_authorizations_stand calls now r :
  admissible_calls now calls -> r ∈ requests (run_calls calls empty_store) ->
  q_operation_kind r = FLOW_OPERATION_KIND ->
  let s := run_calls calls empty_store in
  (exists proof, validate_flow_authorization_integrity (q_request_id r) s = Ok (s, proof)
     /\ sa_caller_id proof = q_caller_id r /\ sa_project_id proof = q_project_id r
     /\ sa_capability proof = FLOW_CAPABILITY_NAME
     /\ sa_fingerprint proof = fingerprint_compute (q_caller_id r) (q_project_id r)
                                 FLOW_CAPABILITY_NAME (sa_resource proof))
  /\ forall now result, (fail_corrupt_flow_authorization (q_request_id r) now result s).1 = s.
Proof.
  intros Hadm Hr Hf s.
  assert (Hs : store_inv s) by apply run_calls_inv, empty_store_inv.
  destruct (calls_keep_auth calls now empty_store empty_store_inv (empty_auth_inv now) Hadm) as [t Hinv].
  fold s in Hinv, Hr. pose proof (schema_unique s (inv_schema s Hs)) as Hu.
  pose proof (fai_flows _ _ Hinv r Hr Hf) as Hp. destruct (id Hp) as (fa & Hfa & _ & _ & Hfp & _).
  pose proof (sound_proof_loads s r fa Hu Hr Hf Hfa Hp) as Hv. split.
  - exists (proof_of r fa). split_and!; try done.
  - intros t' result. by eapply sound_not_corrupt.
Qed.

End proofs.
