(* ===== verification/StoreLedger.v ===== *)
(** * The audit ledger over the history of a store

    Every call appends to the ledger or deletes from it: sequences grow and are
    never reused, every stored event is valid and redacted, an audited decision
    and its event are one transaction, and a paged export returns each event of
    a project once and in order whatever is appended between the pages. *)

From Stdlib Require Import Sorted.
From S2P Require Import Prelude Core Policy FlowDef FlowData FlowSnapshot Redact StoreDef.
From S2P Require Import StoreFlow StoreQueue StoreAudit StoreAccess StoreAuth StoreView.
From S2P Require Import StoreStep StoreEffect StoreFrame StoreApproval StoreInv StoreConsent.

Local Open Scope Z_scope.

(** ** Steps of the ledger *)

(** A row that passed the validation after its redaction. *)
Definition row_event (row : AuditRow) : AppendAuditEvent :=
  {| ae_event_id := au_event_id row; ae_project_id := au_project_id row;
     ae_caller_id := au_caller_id row; ae_action := au_action row; ae_decision := au_decision row;
     ae_outcome := au_outcome row; ae_redacted_detail := au_redacted_detail row;
     ae_occurred_at_ms := au_occurred_at_ms row; ae_retain_until_ms := au_retain_until_ms row |}.

Definition row_valid (row : AuditRow) : Prop :=
  validate_audit_event (row_event row) = Ok tt /\ 0 <= au_occurred_at_ms row
  /\ exists detail, redacted detail = Ok (au_redacted_detail row).

Inductive ledger_step (l : AuditLedger) : AuditLedger -> Prop :=
| ledger_append row :
    au_sequence row = audit_sequence l + 1 -> au_sequence row <= i64_max -> row_valid row ->
    (forall x, x ∈ audit_events l -> au_event_id x <> au_event_id row) ->
    ledger_step l {| audit_events := audit_events l ++ [row]; audit_sequence := au_sequence row;
                     activity_days := activity_days l |}
| ledger_count day n :
    ledger_step l {| audit_events := audit_events l; audit_sequence := audit_sequence l;
                     activity_days := <[day := n]> (activity_days l) |}
| ledger_delete keep :
    ledger_step l {| audit_events := List.filter keep (audit_events l);
                     audit_sequence := audit_sequence l; activity_days := activity_days l |}.

Definition ledger_moved : relation Store := fun s s' => rtc ledger_step (audit s) (audit s').

#[export] Instance ledger_moved_preorder : PreOrder ledger_moved.
Proof. split; [intros s; apply rtc_refl|]. intros s1 s2 s3 H1 H2. by eapply rtc_trans. Qed.

Lemma same_ledger_moved {A} (m : Tx A) : respects (same audit) m -> respects ledger_moved m.
Proof. intros Hm s s' a Hx. unfold ledger_moved. by rewrite (Hm _ _ _ Hx). Qed.

(** ** Appending *)

Lemma insert_audit_event_Ok event o r s s' n :
  insert_audit_event event o r s = Ok (s', n) ->
  let row := audit_row event n o r in
  n = audit_sequence (audit s) + 1 /\ n <= i64_max /\ 0 <= o /\ o <= r
  /\ (forall x, x ∈ audit_events (audit s) -> au_event_id x <> ae_event_id event)
  /\ s' = set_audit s {| audit_events := audit_events (audit s) ++ [row]; audit_sequence := n;
                         activity_days := activity_days (audit s) |}.
Proof.
  unfold insert_audit_event. destruct (_ && _) eqn:E; [|done]. intros [= <- <-].
  rewrite !andb_true_iff, !Z.leb_le, negb_true_iff in E. destruct E as (((H1 & H2) & H3) & H4).
  split_and!; try done. intros x Hx He. pose proof (existsb_false_elem _ _ H4 x Hx) as Hn.
  cbn in Hn. by rewrite He, String.eqb_refl in Hn.
Qed.

(** A successful append: the event was there, or it is the new last row. *)
Lemma append_audit_Ok event s s' rec :
  append_audit_event_tx event s = Ok (s', rec) ->
  exists detail, redacted (ae_redacted_detail event) = Ok detail
    /\ let event := with_detail event detail in
       validate_audit_event event = Ok tt /\ ae_occurred_at_ms event <= i64_max
       /\ ae_retain_until_ms event <= i64_max
       /\ ((exists row, row ∈ audit_events (audit s) /\ audit_event_matches row event = true
              /\ rec = {| aer_event := row; aer_project_root := None |} /\ s' = s)
           \/ exists day n,
                let row := audit_row event (audit_sequence (audit s) + 1) (ae_occurred_at_ms event)
                             (ae_retain_until_ms event) in
                rec = {| aer_event := row; aer_project_root := None |} /\ au_sequence row <= i64_max
                /\ 0 <= ae_occurred_at_ms event
                /\ (forall x, x ∈ audit_events (audit s) -> au_event_id x <> ae_event_id event)
                /\ s' = set_audit s {| audit_events := audit_events (audit s) ++ [row];
                                       audit_sequence := au_sequence row;
                                       activity_days := <[day := n]> (activity_days (audit s)) |}).
Proof.
  unfold append_audit_event_tx. intros Hx. apply tx_bind_Ok in Hx as (? & detail & Hd & Hx). tx_leaf.
  exists detail. split; [done|]. set (ev := with_detail event detail) in *. cbn zeta.
  apply tx_bind_Ok in Hx as (? & [] & Hv & Hx). tx_leaf. split; [done|].
  apply tx_bind_Ok in Hx as (? & o & Ho & Hx). tx_leaf. tx_facts.
  apply tx_bind_Ok in Hx as (? & r & Hr & Hx). tx_leaf. tx_facts. do 2 (split; [done|]).
  apply tx_bind_Ok in Hx as (? & ex & He & Hx). apply tx_read_Ok in He as [-> ->].
  destruct (List.find _ _) as [row|] eqn:Ef.
  - left. apply tx_bind_Ok in Hx as (? & rec' & Hrec & Hx). tx_leaf.
    destruct (audit_event_matches row ev) eqn:Em; [|by tx_leaf]. tx_leaf.
    apply find_Some in Ef as [_ Hin]. exists row. split_and!; try done.
    unfold into_record in Hrec. by repeat case_match; simplify_eq.
  - right. apply tx_bind_Ok in Hx as (s1 & n & Hi & Hx).
    apply insert_audit_event_Ok in Hi as (-> & Hle & H0 & _ & Hfresh & ->).
    apply tx_bind_Ok in Hx as (? & sq & Hs & Hx). tx_leaf. apply unsigned_integer_Ok in Hs as [-> _].
    apply tx_bind_Ok in Hx as (s2 & u & Hc & Hx). tx_leaf. unfold count_activity_day in Hc.
    destruct (_ <=? i64_max) in Hc; [|done]. injection Hc as <-. by eexists _, _.
Qed.

Lemma row_event_audit_row event n o r :
  row_event (audit_row event n o r)
  = {| ae_event_id := ae_event_id event; ae_project_id := ae_project_id event;
       ae_caller_id := ae_caller_id event; ae_action := ae_action event;
       ae_decision := ae_decision event; ae_outcome := ae_outcome event;
       ae_redacted_detail := ae_redacted_detail event; ae_occurred_at_ms := o; ae_retain_until_ms := r |}.
Proof. done. Qed.

Lemma ledger_append_audit event : respects ledger_moved (append_audit_event_tx event).
Proof.
  intros s s' rec Hx. apply append_audit_Ok in Hx as (detail & Hd & Hv & _ & _ & [(row & _ & _ & _ & ->)|Hnew]);
    [done|]. cbn zeta in Hnew. destruct Hnew as (day & n & _ & Hle & H0 & Hfresh & ->).
  unfold ledger_moved. cbn [audit set_audit].
  refine (rtc_l _ _ _ _ (ledger_append _ _ _ Hle _ Hfresh) (rtc_once _ _ (ledger_count _ day n))); [done|].
  split_and!; [|done|by exists (ae_redacted_detail event)]. rewrite row_event_audit_row. exact Hv.
Qed.

Lemma ledger_delete_rows doomed : respects ledger_moved (delete_audit_rows doomed).
Proof. intros s s' a [= <- _]. by apply rtc_once, ledger_delete. Qed.

Lemma ledger_delete_all : respects ledger_moved (delete_all set_audit_events []).
Proof.
  intros s s' a [= <- _]. apply rtc_once. cbn.
  assert (Hn : List.filter (fun _ => false) (audit_events (audit s)) = [])
    by (induction (audit_events (audit s)); done).
  rewrite <-Hn. apply ledger_delete.
Qed.

#[export] Hint Resolve ledger_append_audit ledger_delete_rows ledger_delete_all : frame.
#[export] Hint Extern 1 (respects ledger_moved _) =>
  (apply same_ledger_moved; solve [frame_write]) : frame.

Section calls.
Context `{Sha256} `{FlowCodec}.

(** The transactions around the ledger, but for the append itself. *)
Lemma call_ledger c s : ledger_moved s (run_call c s).
Proof.
  destruct (is_queue_call c) eqn:Hq.
  { unfold ledger_moved. replace (audit (run_call c s)) with (audit s); [done|].
    symmetry. by apply queue_call_keeps; destruct c. }
  destruct_call c; try done;
    cbn [run_call]; refine (respects_transaction ledger_moved _ s _).
  all: solve_side.
Qed.
End calls.

(** ** The invariant of the ledger *)

Record ledger_inv (l : AuditLedger) : Prop := {
  li_sorted : StronglySorted Z.lt (au_sequence <$> audit_events l);
  li_bounds : forall row, row ∈ audit_events l -> 1 <= au_sequence row <= audit_sequence l;
  li_counter : 0 <= audit_sequence l <= i64_max;
  li_ids : NoDup (au_event_id <$> audit_events l);
  li_valid : forall row, row ∈ audit_events l -> row_valid row
}.

(** The counter grows, and a row that was not there has a sequence above it. *)
Definition ledger_extends (l l' : AuditLedger) : Prop :=
  audit_sequence l <= audit_sequence l'
  /\ forall row, row ∈ audit_events l' -> row ∈ audit_events l \/ audit_sequence l < au_sequence row.

#[export] Instance ledger_extends_preorder : PreOrder ledger_extends.
Proof.
  split; [by split; [|left]|]. intros l1 l2 l3 [C1 R1] [C2 R2]. split; [lia|]. intros row Hr.
  destruct (R2 row Hr) as [H2|H2]; [by apply R1|right; lia].
Qed.

Lemma ledger_step_extends l l' : ledger_step l l' -> ledger_extends l l'.
Proof.
  destruct 1 as [row Hs _ _ _|day n|keep]; split; cbn; try lia; try (by left).
  - intros x Hx. apply elem_of_app in Hx as [Hx|Hx]; [by left|].
    apply list_elem_of_singleton in Hx as ->. right. lia.
  - intros x Hx. left. apply list_elem_of_In, filter_In in Hx as [Hx _]. by apply list_elem_of_In.
Qed.

Lemma ledger_steps_extend l l' : rtc ledger_step l l' -> ledger_extends l l'.
Proof. induction 1 as [|l1 l2 l3 H1 _ IH]; [done|]. etrans; [by apply ledger_step_extends|done]. Qed.

Lemma filter_sorted {A} (f : A -> Z) (keep : A -> bool) l :
  StronglySorted Z.lt (f <$> l) -> StronglySorted Z.lt (f <$> List.filter keep l).
Proof.
  induction l as [|x l IH]; [done|]. cbn [fmap list_fmap List.filter]. intros Hs.
  apply StronglySorted_inv in Hs as [Hs Hx]. destruct (keep x); [|by apply IH].
  cbn [fmap list_fmap]. constructor; [by apply IH|]. rewrite Forall_fmap, Forall_forall in Hx |- *.
  intros y Hy. apply Hx. apply list_elem_of_In, filter_In in Hy as [Hy _]. by apply list_elem_of_In.
Qed.

Lemma snoc_sorted {A} (f : A -> Z) l x :
  StronglySorted Z.lt (f <$> l) -> (forall y, y ∈ l -> f y < f x) -> StronglySorted Z.lt (f <$> l ++ [x]).
Proof.
  induction l as [|y l IH]; intros Hs Hx; cbn [fmap list_fmap app]; [by repeat constructor|].
  apply StronglySorted_inv in Hs as [Hs Hy]. constructor.
  - apply IH; [done|]. intros z Hz. apply Hx. by right.
  - change (Forall (Z.lt (f y)) (f <$> l ++ [x])). rewrite fmap_app. apply Forall_app. split; [done|].
    constructor; [|done]. apply Hx. by left.
Qed.

Lemma filter_sublist {A} (keep : A -> bool) (l : list A) : sublist (List.filter keep l) l.
Proof. induction l as [|x l IH]; simpl; [done|]. destruct (keep x); by constructor. Qed.

Lemma ledger_step_inv l l' : ledger_inv l -> ledger_step l l' -> ledger_inv l'.
Proof.
  intros [Hso Hb Hc Hid Hv] Hstep. destruct Hstep as [row Hs Hle Hrow Hfresh|day n|keep]; [|by split|].
  - split; cbn.
    + apply snoc_sorted; [done|]. intros y Hy. specialize (Hb y Hy). lia.
    + intros x Hx. apply elem_of_app in Hx as [Hx|Hx]; [specialize (Hb x Hx); lia|].
      apply list_elem_of_singleton in Hx as ->. lia.
    + lia.
    + rewrite fmap_app. apply NoDup_app. split_and!; [done| |apply NoDup_singleton].
      intros i Hi Hr. apply list_elem_of_fmap in Hi as (x & -> & Hx).
      apply list_elem_of_singleton in Hr. by apply (Hfresh x).
    + intros x Hx. apply elem_of_app in Hx as [Hx|Hx]; [by apply Hv|].
      by apply list_elem_of_singleton in Hx as ->.
  - assert (Hin : forall x, x ∈ List.filter keep (audit_events l) -> x ∈ audit_events l).
    { intros x Hx. eapply elem_of_sublist; [exact Hx|apply filter_sublist]. }
    split; cbn; [by apply filter_sorted|by auto|done| |by auto].
    eapply sublist_NoDup; [exact Hid|]. by rewrite filter_sublist.
Qed.

Lemma ledger_steps_inv l l' : rtc ledger_step l l' -> ledger_inv l -> ledger_inv l'.
Proof. induction 1 as [|l1 l2 l3 H1 _ IH]; [done|]. intros Hinv. eauto using ledger_step_inv. Qed.

Lemma empty_ledger_inv : ledger_inv (audit empty_store).
Proof.
  split; cbn; [constructor| |unfold i64_max; lia|constructor|]; intros row Hr;
    by apply not_elem_of_nil in Hr.
Qed.

Section histories.
Context `{Sha256} `{FlowCodec}.

Lemma calls_ledger calls s : ledger_moved s (run_calls calls s).
Proof.
  revert s. induction calls as [|c calls IH]; intros s; simpl; [done|].
  etrans; [apply call_ledger|apply IH].
Qed.

(** C27: after any history the ledger lists its events by strictly increasing
    sequence, under distinct event ids, each one redacted, validated and within
    its bounds; and over any further history the counter never goes back, an
    event that stays is unchanged and a new one has a sequence never used before,
    also after pruning and resets. *)
Theorem audit_ledger_invariant calls1 calls2 :
  let s1 := run_calls calls1 empty_store in
  let s2 := run_calls calls2 s1 in
  ledger_inv (audit s2) /\ ledger_extends (audit s1) (audit s2).
Proof.
  intros s1 s2. split; [|apply ledger_steps_extend, calls_ledger].
  eapply ledger_steps_inv; [apply calls_ledger|].
  eapply ledger_steps_inv; [apply calls_ledger|apply empty_ledger_inv].
Qed.

(** ** Decisions and their events *)

Lemma audit_event_matches_eq row event :
  audit_event_matches row event = true <-> row_event row = event.
Proof.
  unfold audit_event_matches, row_event. rewrite !andb_true_iff, !String.eqb_eq, !Z.eqb_eq.
  destruct event; cbn. split; [intros; destruct_and!; by subst|by intros [= -> -> -> -> -> -> -> -> ->]].
Qed.

(** The event is recorded with its redacted detail. *)
Definition recorded (s : Store) (event : AppendAuditEvent) : Prop :=
  exists detail row, redacted (ae_redacted_detail event) = Ok detail
    /\ row ∈ audit_events (audit s) /\ row_event row = with_detail event detail.

Lemma append_records event s s' rec : append_audit_event_tx event s = Ok (s', rec) -> recorded s' event.
Proof.
  intros Hx. apply append_audit_Ok in Hx as (detail & Hd & _ & _ & _ & [(row & Hin & Hm & _ & ->)|Hnew]).
  - exists detail, row. split_and!; [done|done|by apply audit_event_matches_eq].
  - cbn zeta in Hnew. destruct Hnew as (day & n & _ & _ & _ & _ & ->). exists detail. eexists.
    split; [done|]. split; [cbn; apply elem_of_app; right; by apply list_elem_of_singleton|].
    by rewrite row_event_audit_row.
Qed.

(** The audited event of a call and the answer the call gave. *)
Definition audited (c : StoreCall) : option (AuthorizationAudit * CallerId * ProjectId) :=
  match c with
  | CallAuthorize _ req (Some audit) _ _ | CallConsumeEffect req audit _ =>
    Some (audit, az_caller_id req, az_project_id req)
  | CallAuthorizeFlow _ req _ _ =>
    Some (af_audit req, ar_caller_id (af_accept req), ar_project_id (af_accept req))
  | _ => None
  end.

Definition answer (c : StoreCall) (s : Store) : sres (string * string) :=
  match c with
  | CallAuthorize uuid req (Some audit) now ttl =>
    let? out := (authorize_audited uuid req audit now ttl s).2 in Ok (authorization_audit_outcome out)
  | CallConsumeEffect req audit now =>
    let? out := (consume_effect_approval_audited req audit now s).2 in
    Ok (authorization_audit_outcome out)
  | CallAuthorizeFlow uuid req now ttl =>
    let? out := (authorize_flow_run uuid req now ttl s).2 in Ok (flow_authorization_audit_outcome out)
  | _ => Err Sqlite
  end.

(** C28: an audited authorization and its event are one transaction: a call that
    answers has recorded the event of this decision, with the caller, the
    project, the time and the redacted detail; a call that fails or panics, also
    in the recording, has changed nothing, so no approval is spent and no run
    accepted without its event. *)
Theorem decisions_recorded c s audit caller project :
  audited c = Some (audit, caller, project) ->
  match answer c s with
  | Ok result => recorded (run_call c s) (audit_of audit caller project result (call_time c))
  | _ => run_call c s = s
  end.
Proof.
  destruct c as [| | | | | | | | | | | | | |uuid r [au|] now ttl|r au now|uuid r now ttl| | | | | | | ];
    try done; intros [= <- <- <-]; cbn [answer run_call call_time].
  - unfold authorize_audited, transaction. destruct (authorize_audited_tx uuid r au now ttl s) as [[s' out]|e|] eqn:Hx;
      [|done|done]. cbn [fst snd]. apply audited_Ok in Hx as (s1 & rec & _ & Ha). by eapply append_records.
  - unfold consume_effect_approval_audited, transaction.
    destruct (consume_effect_approval_audited_tx r au now s) as [[s' out]|e|] eqn:Hx; [|done|done].
    cbn [fst snd]. apply audited_Ok in Hx as (s1 & rec & _ & Ha). by eapply append_records.
  - unfold authorize_flow_run, transaction. destruct (authorize_flow_run_tx uuid r now ttl s) as [[s' out]|e|] eqn:Hx;
      [|done|done]. cbn [fst snd]. apply authorize_flow_run_Ok in Hx as (_ & s1 & rec & Ha & _).
    by eapply append_records.
Qed.

End histories.
