(* ===== verification/StoreExport.v ===== *)
(** * Paged export of the audit ledger

    The pages of [export_audit_events] up to a high-water mark are together the
    events of the project, each once and in order, whatever other calls the
    store serves between the pages, as long as none of them deletes events. *)

From S2P Require Import Prelude Core Policy Redact FlowDef FlowData FlowSnapshot StoreDef StoreFlow StoreQueue.
From S2P Require Import StoreAudit StoreAccess StoreAuth StoreView StoreStep StoreEffect StoreFrame StoreApproval.
From S2P Require Import StoreInv StoreConsent StoreLedger.
From Stdlib Require Import Sorted.

Local Open Scope Z_scope.

(** ** Sorted lists *)

Lemma order_by_sorted {A} (key : A -> Z) l : StronglySorted Z.lt (key <$> l) -> order_by key l = l.
Proof.
  unfold order_by. induction l as [|x l IH]; [done|]. cbn [fmap list_fmap foldr]. intros Hs.
  apply StronglySorted_inv in Hs as [Hs Hx]. rewrite (IH Hs). destruct l as [|y l]; [done|].
  cbn [insert_by]. cbn [fmap list_fmap] in Hx. apply Forall_cons in Hx as [Hx _].
  destruct (key x <=? key y) eqn:E; [done|lia].
Qed.

Lemma filter_all {A} (p : A -> bool) l : (forall x, x ∈ l -> p x = true) -> List.filter p l = l.
Proof.
  induction l as [|x l IH]; intros Hp; simpl; [done|].
  rewrite (Hp x) by by left. f_equal. apply IH. intros y Hy. apply Hp. by right.
Qed.

Lemma filter_none {A} (p : A -> bool) l : (forall x, x ∈ l -> p x = false) -> List.filter p l = [].
Proof.
  induction l as [|x l IH]; intros Hp; simpl; [done|].
  rewrite (Hp x) by by left. apply IH. intros y Hy. apply Hp. by right.
Qed.

(** What lies above the last of the first [n] rows is the rest. *)
Lemma filter_above_last {A} (f : A -> Z) l n x :
  StronglySorted Z.lt (f <$> l) -> last (take n l) = Some x ->
  List.filter (fun y => f x <? f y) l = drop n l.
Proof.
  revert n. induction l as [|y l IH]; intros [|n] Hs Hl; try done.
  apply StronglySorted_inv in Hs as [Hs Hy].
  assert (Hy' : forall z, z ∈ l -> f y < f z).
  { intros z Hz. eapply Forall_forall; [exact Hy|]. apply list_elem_of_fmap. eauto. }
  clear Hy. rename Hy' into Hy. cbn [take drop List.filter] in Hl |- *. destruct (take n l) as [|z k] eqn:Et.
  - injection Hl as <-. rewrite Z.ltb_irrefl. assert (drop n l = l) as ->.
    { destruct n; [done|]. by destruct l. }
    apply filter_all. intros z Hz. apply Z.ltb_lt. by apply Hy.
  - cbn [last] in Hl. assert (Hx : x ∈ l).
    { apply (subseteq_take n). rewrite Et. by apply last_Some_elem_of in Hl. }
    specialize (Hy x Hx). cbn in Hy. destruct (f x <? f y) eqn:E; [lia|]. apply IH; [done|]. by rewrite Et.
Qed.

(** ** One page *)

Definition project_events (s : Store) (project_id : ProjectId) (after through : Z) : list AuditRow :=
  List.filter (fun row => String.eqb (au_project_id row) project_id
                          && (after <? au_sequence row) && (au_sequence row <=? through))
    (audit_events (audit s)).

Definition exported (row : AuditRow) : AuditEventRecord :=
  {| aer_event := row; aer_project_root := None |}.

Lemma row_valid_times row : row_valid row -> 0 <= au_occurred_at_ms row <= au_retain_until_ms row.
Proof.
  intros (Hv & H0 & _). split; [done|]. unfold validate_audit_event in Hv.
  repeat (match type of Hv with
          | (match ?m with _ => _ end) = _ => destruct m as [[]|e|]; try done
          end).
  destruct (_ || _) in Hv; [done|]. cbn [ae_retain_until_ms ae_occurred_at_ms row_event] in Hv.
  destruct (_ <? _) eqn:E; [done|lia].
Qed.

Lemma into_record_exported l row : ledger_inv l -> row ∈ audit_events l -> into_record row = Ok (exported row).
Proof.
  intros Hinv Hr. pose proof (li_bounds _ Hinv row Hr). pose proof (row_valid_times row (li_valid _ Hinv row Hr)).
  unfold into_record, unsigned_integer.
  repeat (match goal with |- context [0 <=? ?x] => destruct (0 <=? x) eqn:?; [|lia] end). done.
Qed.

Lemma max_sequence_bound l row : row ∈ l -> au_sequence row <= max_audit_sequence l.
Proof.
  induction l as [|x l IH]; [by intros ?%not_elem_of_nil|]. simpl.
  intros Hr. apply elem_of_cons in Hr as [->|Hr]; [lia|]. specialize (IH Hr). lia.
Qed.

Lemma max_sequence_le l : ledger_inv l -> 0 <= max_audit_sequence (audit_events l) <= audit_sequence l.
Proof.
  intros Hinv. pose proof (li_counter _ Hinv) as Hc. pose proof (li_bounds _ Hinv) as Hb.
  induction (audit_events l) as [|x rows IH]; simpl; [lia|].
  specialize (Hb x (list_elem_of_here _ _)) as Hx. specialize (IH ltac:(intros y Hy; apply Hb; by right)). lia.
Qed.

Lemma project_events_sorted s project after through :
  ledger_inv (audit s) -> StronglySorted Z.lt (au_sequence <$> project_events s project after through).
Proof. intros Hinv. apply filter_sorted, Hinv. Qed.

Lemma project_events_elem s project after through row :
  row ∈ project_events s project after through ->
  row ∈ audit_events (audit s) /\ after < au_sequence row <= through.
Proof.
  intros Hr. apply list_elem_of_In, filter_In in Hr as [Hr Hp]. apply list_elem_of_In in Hr.
  rewrite !andb_true_iff, Z.ltb_lt, Z.leb_le in Hp. tauto.
Qed.

Definition valid_project (project : ProjectId) : Prop :=
  validate_audit_identifier project MAX_AUDIT_PROJECT_ID_BYTES "project ID" = Ok tt.

Lemma export_page s project after through limit :
  ledger_inv (audit s) -> valid_project project -> 1 <= limit <= MAX_AUDIT_BATCH_SIZE ->
  0 <= after <= through -> through <= max_audit_sequence (audit_events (audit s)) ->
  let rows := project_events s project after through in
  let page := take (Z.to_nat limit) rows in
  export_audit_events s project after (Some through) limit
  = Ok {| ax_version := AUDIT_EXPORT_VERSION; ax_project_id := project; ax_after_sequence := after;
          ax_through_sequence := through;
          ax_next_after_sequence := match last page with Some row => au_sequence row | None => after end;
          ax_has_more := limit <? Z.of_nat (length rows); ax_events := exported <$> page |}.
Proof.
  intros Hinv Hp Hl Ha Ht rows page. pose proof (max_sequence_le _ Hinv) as Hmax.
  pose proof (li_counter _ Hinv) as Hc. unfold export_audit_events. rewrite Hp.
  assert (Hlim : validate_audit_limit limit = Ok tt).
  { unfold validate_audit_limit. replace (limit =? 0) with false by lia.
    by replace (limit >? MAX_AUDIT_BATCH_SIZE) with false by lia. }
  assert (Hcur : forall v, v <= i64_max -> cursor_integer v = Ok v).
  { intros v Hv. unfold cursor_integer. destruct (v <=? i64_max) eqn:E; [done|lia]. }
  assert (Hlt : through <? after = false) by lia.
  assert (Hum : unsigned_integer (max_audit_sequence (audit_events (audit s)))
                = Ok (max_audit_sequence (audit_events (audit s)))).
  { unfold unsigned_integer. destruct (0 <=? _) eqn:E; [done|lia]. }
  assert (Hgt : through >? max_audit_sequence (audit_events (audit s)) = false) by lia.
  rewrite Hlim, (Hcur after), Hlt, Hum, Hgt, (Hcur through), Hlt by lia.
  assert (Hpage : audit_page s project after through (limit + 1) = take (Z.to_nat (limit + 1)) rows).
  { unfold audit_page, limit_rows. f_equal. apply order_by_sorted. by apply project_events_sorted. }
  rewrite Hpage, (collect_res_map _ exported).
  2:{ intros row Hr. eapply into_record_exported; [done|]. apply subseteq_take in Hr.
      by apply project_events_elem in Hr as [Hr _]. }
  unfold limit_rows. rewrite <-fmap_take, take_take, length_fmap, length_take.
  replace (Z.to_nat limit `min` Z.to_nat (limit + 1))%nat with (Z.to_nat limit) by lia.
  assert (Hmore : (limit <? Z.of_nat (Z.to_nat (limit + 1) `min` length rows)%nat)
                  = (limit <? Z.of_nat (length rows))). { apply Bool.eq_iff_eq_true. rewrite !Z.ltb_lt. lia. }
  rewrite Hmore.
  fold page. rewrite fmap_last. by destruct (last page).
Qed.

(** ** Calls that only append *)

Definition deletes (c : StoreCall) : bool :=
  match c with CallPruneAudit _ _ _ | CallResetHistory => true | _ => false end.

(** The ledger has only grown, above its old counter. *)
Definition ledger_grown (s s' : Store) : Prop :=
  exists new, audit_events (audit s') = audit_events (audit s) ++ new
    /\ audit_sequence (audit s) <= audit_sequence (audit s')
    /\ Forall (fun row => audit_sequence (audit s) < au_sequence row) new.

#[export] Instance ledger_grown_preorder : PreOrder ledger_grown.
Proof.
  split; [intros s; exists []; rewrite app_nil_r; split_and!; done|].
  intros s1 s2 s3 (n1 & E1 & C1 & F1) (n2 & E2 & C2 & F2). exists (n1 ++ n2). split_and!.
  - by rewrite E2, E1, app_assoc.
  - lia.
  - apply Forall_app. split; [done|]. eapply Forall_impl; [exact F2|]. cbn. intros row Hr. lia.
Qed.

Lemma same_grown {A} (m : Tx A) : respects (same audit) m -> respects ledger_grown m.
Proof.
  intros Hm s s' a Hx. exists []. rewrite app_nil_r, (Hm _ _ _ Hx). by split_and!.
Qed.

Lemma grown_append_audit event : respects ledger_grown (append_audit_event_tx event).
Proof.
  intros s s' rec Hx. apply append_audit_Ok in Hx as (detail & _ & _ & _ & _ & [(row & _ & _ & _ & ->)|Hnew]);
    [done|]. cbn zeta in Hnew. destruct Hnew as (day & n & _ & _ & _ & _ & ->).
  eexists [_]. cbn. split_and!; [done|lia|]. constructor; [cbn; lia|done].
Qed.
#[local] Hint Resolve grown_append_audit : frame.
#[local] Hint Extern 1 (respects ledger_grown _) => (apply same_grown; solve [frame_write]) : frame.

Section export.
Context `{Sha256} `{FlowCodec}.

Lemma call_grown c s : deletes c = false -> ledger_grown s (run_call c s).
Proof.
  intros Hd. destruct (is_queue_call c) eqn:Hq.
  { exists []. rewrite app_nil_r. replace (audit (run_call c s)) with (audit s); [by split_and!|].
    symmetry. by apply queue_call_keeps; destruct c. }
  destruct_call c; try done;
    cbn [run_call]; refine (respects_transaction ledger_grown _ s _); solve_side.
Qed.

Lemma calls_grown calls s : Forall (fun c => deletes c = false) calls -> ledger_grown s (run_calls calls s).
Proof.
  intros Hd. revert s. induction Hd as [|c calls Hc _ IH]; intros s; simpl; [done|].
  etrans; [by apply call_grown|apply IH].
Qed.

(** A growing ledger keeps what an export up to an old mark reads. *)
Lemma grown_events s s' project after through :
  ledger_grown s s' -> through <= audit_sequence (audit s) ->
  project_events s' project after through = project_events s project after through.
Proof.
  intros (new & He & _ & Hn) Ht. unfold project_events. rewrite He, List.filter_app.
  rewrite (filter_none _ new), app_nil_r; [done|]. intros row Hr. rewrite Forall_forall in Hn.
  specialize (Hn row Hr). cbn in Hn. rewrite !andb_false_iff, Z.leb_gt. right. lia.
Qed.

Lemma project_events_from s project after after' through :
  after <= after' ->
  project_events s project after' through
  = List.filter (fun row => after' <? au_sequence row) (project_events s project after through).
Proof.
  intros Ha. unfold project_events. induction (audit_events (audit s)) as [|x l IH]; [done|].
  cbn [List.filter]. destruct (String.eqb (au_project_id x) project); cbn [andb]; [|done].
  destruct (after <? au_sequence x) eqn:E1, (after' <? au_sequence x) eqn:E2; cbn [andb]; [|..|lia|done].
  - destruct (_ <=? through); cbn [List.filter]; rewrite ?E2; [by f_equal|done].
  - destruct (_ <=? through); cbn [List.filter]; rewrite ?E2; done.
Qed.

(** ** All pages *)

(** A client's export: pages from [after] up to [through], with the calls of
    one gap served after each. *)
Fixpoint export_pages (gaps : list (list StoreCall)) (s : Store) (project_id : ProjectId)
    (after through limit : Z) : sres (list AuditEventRecord) :=
  match gaps with
  | [] => Err (InvalidState "the export has not ended")
  | gap :: gaps =>
    let? page := export_audit_events s project_id after (Some through) limit in
    if ax_has_more page then
      let? rest := export_pages gaps (run_calls gap s) project_id (ax_next_after_sequence page)
                     through limit in
      Ok (ax_events page ++ rest)
    else Ok (ax_events page)
  end.

Lemma max_sequence_app l k : max_audit_sequence l <= max_audit_sequence (l ++ k).
Proof.
  unfold max_audit_sequence. rewrite foldr_app. induction l as [|x l IH]; simpl; [|lia].
  induction k; simpl; lia.
Qed.

(** The store of the next page: what the export reads is unchanged. *)
Lemma next_page gap s project through :
  Forall (fun c => deletes c = false) gap -> ledger_inv (audit s) ->
  through <= max_audit_sequence (audit_events (audit s)) ->
  let s' := run_calls gap s in
  ledger_inv (audit s') /\ through <= max_audit_sequence (audit_events (audit s'))
  /\ forall after, project_events s' project after through = project_events s project after through.
Proof.
  intros Hgap Hinv Ht s'. pose proof (calls_grown gap s Hgap) as Hg. pose proof (max_sequence_le _ Hinv) as Hm.
  split; [eapply ledger_steps_inv; [apply calls_ledger|done]|]. split.
  - destruct Hg as (new & He & _). unfold s'. rewrite He. pose proof (max_sequence_app (audit_events (audit s)) new).
    lia.
  - intros after. apply grown_events; [done|lia].
Qed.

(** The export of a project's audit events, page by page from a cursor up to
    a high-water mark, ends after the expected number of pages and returns every
    event of the project between the two exactly once and in order, whatever
    calls the store serves between the pages, as long as they delete no events. *)
Theorem audit_export_complete gaps s project after through limit :
  ledger_inv (audit s) -> valid_project project -> 1 <= limit <= MAX_AUDIT_BATCH_SIZE ->
  0 <= after <= through -> through <= max_audit_sequence (audit_events (audit s)) ->
  Forall (Forall (fun c => deletes c = false)) gaps ->
  Z.of_nat (length (project_events s project after through)) < limit * Z.of_nat (length gaps) ->
  export_pages gaps s project after through limit
  = Ok (exported <$> project_events s project after through).
Proof.
  intros Hinv Hp Hl Ha Ht Hgaps. revert s after Hinv Ha Ht.
  induction Hgaps as [|gap gaps Hgap _ IH]; intros s after Hinv Ha Ht Hlen; [cbn in Hlen; lia|].
  cbn [export_pages]. rewrite export_page by done. cbn [ax_has_more ax_events ax_next_after_sequence].
  set (rows := project_events s project after through) in *.
  assert (Hsort : StronglySorted Z.lt (au_sequence <$> rows)) by by apply project_events_sorted.
  destruct (limit <? Z.of_nat (length rows)) eqn:Emore; cbn [ax_has_more].
  - destruct (last (take (Z.to_nat limit) rows)) as [x|] eqn:Elast.
    2:{ apply last_None in Elast. apply (f_equal length) in Elast. rewrite length_take in Elast.
        cbn in Elast. lia. }
    assert (Hx : x ∈ rows) by (apply (subseteq_take (Z.to_nat limit)); by apply last_Some_elem_of in Elast).
    apply project_events_elem in Hx as [_ Hx].
    destruct (next_page gap s project through Hgap Hinv Ht) as (Hinv' & Ht' & Hrows').
    assert (Hrest : project_events (run_calls gap s) project (au_sequence x) through
                    = drop (Z.to_nat limit) rows).
    { rewrite Hrows', (project_events_from s project after) by lia. by apply filter_above_last. }
    rewrite IH; [|done|lia|done|].
    + rewrite Hrest, <-fmap_app. by rewrite take_drop.
    + rewrite Hrest, length_drop. cbn [length] in Hlen. lia.
  - rewrite take_ge by lia. done.
Qed.

End export.

(** ** Callers over the history of a store

    A registered caller authenticates with its credential and no other until it
    is revoked; a revoked caller is locked out of authentication and of every
    authorization until it is registered again. *)

Section callers.
Context `{Sha256} `{FlowCodec}.

(** ** Writes of the table *)

Lemma write_caller_Ok id c s s' u :
  write_caller id c s = Ok (s', u) -> s' = set_callers s (<[id := c]> (callers s)).
Proof. unfold write_caller. destruct (caller_check id c); [|done]. by intros [= <- _]. Qed.

Lemma register_caller_Ok id credential kind now s s' r :
  register_caller_tx id credential kind now s = Ok (s', r) ->
  credential_is_valid credential = true /\ caller_active s id = false
  /\ s' = set_callers s
       (<[id := {| ca_credential_digest := credential_digest credential; ca_registered_at_ms := now;
                   ca_revoked_at_ms := None; ca_kind := kind |}]> (callers s)).
Proof.
  unfold register_caller_tx, caller_active. destruct (credential_is_valid credential); [|intros; by tx_inv].
  cbn [negb]. intros Hx. split; [done|]. apply tx_bind_Ok in Hx as (? & n & Hn & Hx). tx_leaf. tx_facts.
  apply tx_bind_Ok in Hx as (? & ex & He & Hx). apply tx_read_Ok in He as [-> ->].
  apply tx_bind_Ok in Hx as (s1 & u & Hw & Hx). tx_leaf.
  destruct (callers s !! id) as [c|]; cbn [fmap option_fmap option_map] in Hw.
  - destruct (ca_revoked_at_ms c); [|by tx_inv]. split; [done|by eapply write_caller_Ok].
  - split; [done|by eapply write_caller_Ok].
Qed.

Lemma revoke_caller_Ok id now s s' out :
  revoke_caller_tx id now s = Ok (s', out) ->
  (s' = s /\ out <> CallerRevoked)
  \/ exists c, callers s !! id = Some c /\ out = CallerRevoked
       /\ s' = set_callers s (<[id := set_revoked c now]> (callers s)).
Proof.
  unfold revoke_caller_tx. intros Hx. apply tx_bind_Ok in Hx as (? & n & Hn & Hx). tx_leaf. tx_facts.
  apply tx_bind_Ok in Hx as (? & ex & He & Hx). apply tx_read_Ok in He as [-> ->].
  destruct (callers s !! id) as [c|]; [|left; by tx_inv].
  destruct (ca_revoked_at_ms c); [left; by tx_inv|]. destruct (_ <? _); [by tx_inv|].
  apply tx_bind_Ok in Hx as (s1 & u & Hw & Hx). tx_leaf. apply write_caller_Ok in Hw as ->.
  right. by exists c.
Qed.

(** The calls that may write the row of [id]. *)
Definition writes_caller (id : CallerId) (c : StoreCall) : bool :=
  match c with
  | CallRegisterCaller id' _ _ _ | CallRevokeCaller id' _ => String.eqb id' id
  | _ => false
  end.

Lemma call_keeps_caller c s id :
  writes_caller id c = false -> callers (run_call c s) !! id = callers s !! id.
Proof.
  intros Hc. destruct (is_queue_call c) eqn:Hq.
  { apply (queue_call_keeps (fun s => callers s !! id)); by destruct c. }
  destruct c as [| | | | | | | | | |i cr k now|i now| | |uuid req [audit|] now ttl| | | | | | | | |]; try done;
    cbn [run_call]; refine (respects_transaction (same (fun s => callers s !! id)) _ s _).
  { intros s1 s2 r Hx. apply register_caller_Ok in Hx as (_ & _ & ->). apply String.eqb_neq in Hc.
    unfold same. cbn. by rewrite lookup_insert_ne. }
  { intros s1 s2 r Hx. apply revoke_caller_Ok in Hx as [[-> _]|(c & _ & _ & ->)]; [done|].
    apply String.eqb_neq in Hc. unfold same. cbn. by rewrite lookup_insert_ne. }
  all: solve_side.
Qed.

(** ** Credentials *)

Lemma authenticate_active s id credential c :
  callers s !! id = Some c -> ca_revoked_at_ms c = None ->
  authenticate_caller s id credential
  = Ok (if credential_is_valid credential
           && String.eqb (ca_credential_digest c) (credential_digest credential)
        then Authenticated else InvalidCredential).
Proof.
  intros Hc Hr. unfold authenticate_caller. destruct (credential_is_valid credential); [|done].
  cbn [negb andb]. rewrite Hc, Hr.
  destruct (String.eqb_spec (ca_credential_digest c) (credential_digest credential)) as [E|E].
  - by rewrite (proj2 (constant_time_equal_spec _ _) E).
  - destruct (constant_time_equal _ _) eqn:Et; [|done]. by apply constant_time_equal_spec in Et.
Qed.

Lemma register_active_fails s id credential kind now :
  caller_active s id = true -> run_call (CallRegisterCaller id credential kind now) s = s.
Proof.
  intros Ha. cbn [run_call]. unfold register_caller, transaction.
  destruct (register_caller_tx id credential kind now s) as [[s' r]|e|] eqn:Hx; [|done|done].
  apply register_caller_Ok in Hx as (_ & Hn & _). congruence.
Qed.

Lemma revoked_again s id now :
  caller_active s id = false -> run_call (CallRevokeCaller id now) s = s.
Proof.
  intros Ha. cbn [run_call]. unfold revoke_caller, transaction.
  destruct (revoke_caller_tx id now s) as [[s' out]|e|] eqn:Hx; [|done|done]. cbn [fst].
  unfold revoke_caller_tx in Hx. apply tx_bind_Ok in Hx as (? & n & Hn & Hx). tx_leaf.
  apply tx_bind_Ok in Hx as (? & ex & He & Hx). apply tx_read_Ok in He as [-> ->].
  unfold caller_active in Ha. destruct (callers s !! id) as [c|]; [|by tx_inv].
  destruct (ca_revoked_at_ms c); [by tx_inv|]. by apply bool_decide_eq_false in Ha.
Qed.

(** An active row stays while the caller is not revoked. *)
Lemma calls_keep_active calls s id c :
  Forall (fun x => forall now, x <> CallRevokeCaller id now) calls ->
  callers s !! id = Some c -> ca_revoked_at_ms c = None ->
  callers (run_calls calls s) !! id = Some c.
Proof.
  intros Hcalls. revert s. induction Hcalls as [|x calls Hx _ IH]; intros s Hc Hr; simpl; [done|].
  apply IH; [|done]. destruct (writes_caller id x) eqn:Ew; [|by rewrite call_keeps_caller].
  destruct x; try done; apply String.eqb_eq in Ew; subst; [|by destruct (Hx now_ms)].
  rewrite register_active_fails; [done|]. unfold caller_active. rewrite Hc. by apply bool_decide_eq_true.
Qed.

(** A caller that is not active stays so while it is not registered. *)
Lemma calls_keep_revoked calls s id :
  Forall (fun x => forall credential kind now, x <> CallRegisterCaller id credential kind now) calls ->
  caller_active s id = false -> callers (run_calls calls s) !! id = callers s !! id.
Proof.
  intros Hcalls. revert s. induction Hcalls as [|x calls Hx _ IH]; intros s Ha; simpl; [done|].
  assert (Hkeep : callers (run_call x s) !! id = callers s !! id).
  { destruct (writes_caller id x) eqn:Ew; [|by apply call_keeps_caller].
    destruct x; try done; apply String.eqb_eq in Ew; subst; [by destruct (Hx credential kind now_ms)|].
    by rewrite revoked_again. }
  rewrite IH; [done|]. unfold caller_active. by rewrite Hkeep.
Qed.

(** a caller registered with a credential authenticates with exactly the
    valid credentials of the same SHA-256 digest, over any history in which it is
    not revoked; no other call, an attempt to register it again included,
    replaces the stored credential. *)
Theorem registered_caller_authenticates s s1 id credential kind now r calls credential' :
  register_caller id credential kind now s = (s1, Ok r) ->
  Forall (fun x => forall now, x <> CallRevokeCaller id now) calls ->
  authenticate_caller (run_calls calls s1) id credential'
  = Ok (if credential_is_valid credential'
           && String.eqb (credential_digest credential) (credential_digest credential')
        then Authenticated else InvalidCredential).
Proof.
  intros Hr Hcalls. apply transaction_Ok, register_caller_Ok in Hr as (_ & _ & ->).
  set (row := {| ca_credential_digest := _ |}).
  apply (authenticate_active _ _ _ row); [|done]. apply calls_keep_active; [done| |done].
  cbn. by rewrite lookup_insert_eq.
Qed.

(** After its revocation a caller is locked out until it is registered again:
    it does not authenticate with any credential, and no authorization, consumed
    approval or new flow run is allowed to it. *)
Theorem revoked_caller_locked_out s s1 id now calls :
  revoke_caller id now s = (s1, Ok CallerRevoked) ->
  Forall (fun x => forall credential kind now, x <> CallRegisterCaller id credential kind now) calls ->
  let s2 := run_calls calls s1 in
  (forall credential, authenticate_caller s2 id credential
     = Ok (if credential_is_valid credential then RevokedCaller else InvalidCredential))
  /\ forall c req flow must, effect_request c = Some (req, flow, must) -> az_caller_id req = id ->
       ~ allows c s2.
Proof.
  intros Hr Hcalls s2. apply transaction_Ok, revoke_caller_Ok in Hr as [[_ ?]|(c & Hc & _ & ->)]; [done|].
  assert (Hrow : callers s2 !! id = Some (set_revoked c now)).
  { unfold s2. rewrite calls_keep_revoked; [cbn; by rewrite lookup_insert_eq|done|].
    unfold caller_active. cbn. rewrite lookup_insert_eq. by apply bool_decide_eq_false. }
  split.
  - intros credential. unfold authenticate_caller. rewrite Hrow. by destruct (credential_is_valid credential).
  - intros x req flow must Hreq <- Hall. destruct (allows_allowed_by _ _ _ _ _ Hreq Hall) as (Ha & _).
    unfold caller_active in Ha. rewrite Hrow in Ha. by apply bool_decide_eq_true in Ha.
Qed.

End callers.
