(* ===== verification/InventorySpec.v ===== *)
(** * What a rescan records

    The abstract inventory of a project is a map from identifiers to stored
    artifacts. [next_stored] is what an observation makes of one identifier;
    the loops of a rescan compute it for all of them, whatever their order. *)

From S2P Require Import Prelude Core Policy FlowDef FlowData StoreDef StoreQueue StoreAudit StoreAccess.
From S2P Require Import StoreView Artifact Inventory.
From Stdlib Require Import Sorted.

Local Open Scope Z_scope.

(** ** Sorting rows *)

Section sorting.
Context {A : Type} (before : A -> A -> bool).

Lemma insert_row_perm x l : insert_row before x l ≡ₚ x :: l.
Proof.
  induction l as [|y l IH]; cbn; [done|]. destruct (before x y); [done|]. rewrite IH. apply Permutation_swap.
Qed.

Lemma sort_rows_perm l : sort_rows before l ≡ₚ l.
Proof.
  unfold sort_rows. induction l as [|x l IH]; cbn; [done|]. by rewrite insert_row_perm, IH.
Qed.

Lemma elem_of_sort_rows x l : x ∈ sort_rows before l <-> x ∈ l.
Proof. by rewrite sort_rows_perm. Qed.

Context (Htrans : forall x y z, before x y = true -> before y z = true -> before x z = true).
Context (Htotal : forall x y, before x y = false -> before y x = true).

Lemma insert_row_sorted x l :
  StronglySorted (fun a b => before a b = true) l ->
  StronglySorted (fun a b => before a b = true) (insert_row before x l).
Proof using Htrans Htotal.
  induction 1 as [|y l Hl IH Hy]; cbn; [repeat constructor|].
  destruct (before x y) eqn:E.
  - constructor; [by constructor|]. constructor; [done|]. eapply Forall_impl; [exact Hy|]. eauto.
  - constructor; [done|]. rewrite insert_row_perm. constructor; [by apply Htotal|done].
Qed.

Lemma sort_rows_sorted l : StronglySorted (fun a b => before a b = true) (sort_rows before l).
Proof using Htrans Htotal.
  unfold sort_rows. induction l as [|x l IH]; cbn; [constructor|]. by apply insert_row_sorted.
Qed.

End sorting.

Lemma sort_rows_fmap {A B} (f : A -> B) (before : B -> B -> bool) (before' : A -> A -> bool) l :
  (forall x y, before (f x) (f y) = before' x y) -> sort_rows before (f <$> l) = f <$> sort_rows before' l.
Proof.
  intros Hf. unfold sort_rows. induction l as [|x l IH]; cbn; [done|]. change (list_fmap A B f l) with (f <$> l).
  rewrite IH. generalize (foldr (insert_row before') [] l). clear IH l. intros l.
  induction l as [|y l IH]; cbn; [done|]. rewrite Hf. destruct (before' x y); cbn; [done|]. by f_equal.
Qed.

(** ** Stored artifacts as rows *)

#[local] Arguments from_str : simpl never.
#[local] Arguments artifact_new : simpl never.
#[local] Arguments digest_parse : simpl never.
#[local] Arguments artifact_id_parse : simpl never.
#[local] Arguments inventory_integer : simpl never.
#[local] Arguments hex_after : simpl never.

Section rows.
Context `{Sha256} (sha256_bytes : forall x, String.length (sha256 x) = 32%nat).

Definition stored_ok (st : StoredAgentArtifact) : Prop :=
  artifact_ok (st_artifact st) /\ st_id st = artifact_id (st_artifact st)
  /\ 0 <= st_first_seen_at_ms st <= st_last_changed_at_ms st /\ st_last_changed_at_ms st <= i64_max
  /\ match st_removed_at_ms st with
     | Some removed => st_last_changed_at_ms st <= removed <= i64_max
     | None => True
     end.

(** The last time the record changed. *)
Definition stored_last (st : StoredAgentArtifact) : Z :=
  default (st_last_changed_at_ms st) (st_removed_at_ms st).

Definition row_of (st : StoredAgentArtifact) : ArtifactRow :=
  artifact_row (st_artifact st) (st_first_seen_at_ms st) (st_last_changed_at_ms st) (st_removed_at_ms st).

Lemma inventory_integer_Ok v : 0 <= v -> inventory_integer v = Ok v.
Proof. intros Hv. unfold inventory_integer. by rewrite (proj2 (Z.leb_le 0 v)). Qed.

(** What is written is read back. *)
Lemma decode_row_of st : stored_ok st -> decode_skill_artifact (st_id st, row_of st) = Ok st.
Proof using sha256_bytes.
  intros ((Hnew & Hdig) & Hid & Hf & _ & Hr). unfold decode_skill_artifact, row_of. cbn.
  rewrite Hid, artifact_id_canonical by done. cbn.
  rewrite kind_round_trip, scope_round_trip, origin_round_trip, semantics_round_trip. cbn.
  rewrite Hdig. cbn. rewrite Hnew. cbn. rewrite String.eqb_refl. cbn.
  rewrite !inventory_integer_Ok by lia. cbn.
  destruct st as [id art first changed removed]; cbn in *. subst id.
  destruct removed as [removed|]; cbn.
  - rewrite inventory_integer_Ok by lia. cbn.
    rewrite (proj2 (Z.ltb_ge _ _)), (proj2 (Z.ltb_ge removed changed)) by lia. done.
  - rewrite (proj2 (Z.ltb_ge _ _)) by lia. done.
Qed.

Lemma hex_after_id a : hex_after ARTIFACT_ID_PREFIX (artifact_id a) = true.
Proof using sha256_bytes.
  unfold hex_after. rewrite (proj2 (strip_prefix_Some _ _ (hex_string (sha256 (identity_input (identity a)))))) by done.
  rewrite hex_string_lower. unfold len. by rewrite hex_string_length, sha256_bytes.
Qed.

Lemma hex_after_digest d : digest_parse (digest_str d) = Ok d -> hex_after SHA256_PREFIX (digest_str d) = true.
Proof.
  intros (_ & hex & Hd & Hl & Hb)%digest_parse_canonical. unfold hex_after.
  rewrite (proj2 (strip_prefix_Some _ _ hex)) by done. by rewrite Hl, Hb.
Qed.

Lemma check_row_of st : stored_ok st -> artifact_check (st_id st) (row_of st) = true.
Proof using sha256_bytes.
  intros (Hok & Hid & Hf & _ & Hr). pose proof (artifact_ok_bounds _ Hok) as (Hn & Hp & _).
  unfold MAX_ARTIFACT_NAME_BYTES, MAX_ARTIFACT_LOGICAL_PATH_BYTES in *.
  unfold artifact_check. rewrite Hid, hex_after_id. cbn -[existsb fmap artifact_kinds artifact_scopes origin_agents load_semantics_values].
  rewrite hex_after_digest by apply Hok.
  assert (existsb (String.eqb (kind_as_str (aar_kind (st_artifact st)))) (kind_as_str <$> artifact_kinds) = true) as ->
    by (by destruct (aar_kind _)).
  assert (existsb (String.eqb (artifact_scope_as_str (aar_scope (st_artifact st))))
            (artifact_scope_as_str <$> artifact_scopes) = true) as -> by (by destruct (aar_scope _)).
  assert (existsb (String.eqb (origin_as_str (aar_origin (st_artifact st)))) (origin_as_str <$> origin_agents) = true)
    as -> by (by destruct (aar_origin _)).
  assert (existsb (String.eqb (semantics_as_str (aar_load_semantics (st_artifact st))))
            (semantics_as_str <$> load_semantics_values) = true) as -> by (by destruct (aar_load_semantics _)).
  rewrite !andb_true_r, !andb_true_iff, !Z.leb_le. split_and!; try lia.
  destruct (st_removed_at_ms st) as [t|]; cbn; [|done]. apply Z.leb_le. lia.
Qed.

(** Equal UNIQUE columns: equal identities. *)
Lemma columns_identity st st' :
  artifact_columns (row_of st) = artifact_columns (row_of st') ->
  identity (st_artifact st) = identity (st_artifact st').
Proof.
  unfold artifact_columns, row_of, identity. cbn. intros [= Ho Hk Hs Hp].
  apply (f_equal (from_str origin_as_str origin_agents)) in Ho.
  apply (f_equal (from_str kind_as_str artifact_kinds)) in Hk.
  apply (f_equal (from_str artifact_scope_as_str artifact_scopes)) in Hs.
  rewrite !origin_round_trip in Ho. rewrite !kind_round_trip in Hk. rewrite !scope_round_trip in Hs. congruence.
Qed.

End rows.

(** ** The abstract inventory *)

Section spec.
Context `{Sha256}.

(** The record of an artifact that is observed. *)
Definition observe (ms : Z) (old : option StoredAgentArtifact) (a : AgentArtifact) : StoredAgentArtifact :=
  match old with
  | None => {| st_id := artifact_id a; st_artifact := a; st_first_seen_at_ms := ms;
               st_last_changed_at_ms := ms; st_removed_at_ms := None |}
  | Some st =>
    with_artifact st a (if bool_decide (st_artifact st = a) then st_last_changed_at_ms st else ms) None
  end.

(** The record of an artifact that is not observed. *)
Definition bury (ms : Z) (st : StoredAgentArtifact) : StoredAgentArtifact :=
  match st_removed_at_ms st with
  | Some _ => st
  | None => with_artifact st (st_artifact st) (st_last_changed_at_ms st) (Some ms)
  end.

Definition next_stored (ms : Z) (old : option StoredAgentArtifact) (new : option AgentArtifact)
  : option StoredAgentArtifact :=
  match new with
  | Some a => Some (observe ms old a)
  | None => bury ms <$> old
  end.

(** The observed artifacts by identifier. *)
Definition observed_map (artifacts : list AgentArtifact) : gmap AgentArtifactId AgentArtifact :=
  list_to_map ((fun a => (artifact_id a, a)) <$> artifacts).

#[local] Notation Inventory := (gmap AgentArtifactId StoredAgentArtifact).

(** Each record is well formed, under its own identifier, and no younger than
    the observation [last]. *)
Definition inventory_ok (last : Z) (inv : Inventory) : Prop :=
  map_Forall (fun id st => st_id st = id /\ stored_ok st /\ stored_last st <= last) inv.

(** No two artifacts share an identifier without sharing an identity. *)
Definition no_collision (inv : Inventory) (artifacts : list AgentArtifact) : Prop :=
  forall id st a, inv !! id = Some st -> a ∈ artifacts -> artifact_id a = id ->
    identity (st_artifact st) = identity a.

Lemma observe_ok last ms old a :
  artifact_ok a -> 0 <= ms <= i64_max -> last <= ms ->
  (forall st, old = Some st -> stored_ok st /\ st_id st = artifact_id a /\ stored_last st <= last) ->
  st_id (observe ms old a) = artifact_id a /\ stored_ok (observe ms old a)
  /\ stored_last (observe ms old a) <= ms /\ st_artifact (observe ms old a) = a
  /\ st_removed_at_ms (observe ms old a) = None.
Proof.
  intros Ha Hms Hl Hold. destruct old as [st|]; cbn.
  - destruct (Hold st eq_refl) as ((_ & Hid & Hf & Hc & Hr) & Hk & Hlast).
    unfold stored_ok, stored_last in *. cbn. case_bool_decide; destruct (st_removed_at_ms st); cbn in *;
      split_and!; try done; lia.
  - unfold stored_ok, stored_last. cbn. split_and!; try done; lia.
Qed.

Lemma bury_ok last ms st :
  stored_ok st -> 0 <= ms <= i64_max -> last <= ms -> stored_last st <= last ->
  st_id (bury ms st) = st_id st /\ stored_ok (bury ms st) /\ stored_last (bury ms st) <= ms
  /\ is_Some (st_removed_at_ms (bury ms st)).
Proof.
  intros (Hok & Hid & Hf & Hc & Hr) Hms Hl Hlast. unfold bury, stored_ok, stored_last in *.
  destruct (st_removed_at_ms st) as [t|] eqn:E; cbn in *; rewrite ?E; cbn; split_and!; try done; lia.
Qed.

(** ** The loops as functions of the abstract inventory *)

Definition step_drift (ms : Z) (old : option StoredAgentArtifact) (a : AgentArtifact)
    (drift : SkillInventoryDrift) : SkillInventoryDrift :=
  match old with
  | None => push_added drift (observe ms old a)
  | Some st =>
    match st_removed_at_ms st with
    | Some _ => push_resurrected drift (observe ms old a)
    | None => if bool_decide (st_artifact st = a) then drift else push_changed drift (observe ms old a)
    end
  end.

Fixpoint observe_all (ms : Z) (current : list (AgentArtifactId * AgentArtifact)) (inv : Inventory) : Inventory :=
  match current with
  | [] => inv
  | (id, a) :: current => observe_all ms current (<[id := observe ms (inv !! id) a]> inv)
  end.

Fixpoint drift_all (ms : Z) (current : list (AgentArtifactId * AgentArtifact)) (inv : Inventory)
    (drift : SkillInventoryDrift) : SkillInventoryDrift :=
  match current with
  | [] => drift
  | (id, a) :: current => drift_all ms current inv (step_drift ms (inv !! id) a drift)
  end.

Fixpoint bury_all (ms : Z) (gone : list StoredAgentArtifact) (inv : Inventory) : Inventory :=
  match gone with
  | [] => inv
  | st :: gone => bury_all ms gone (<[st_id st := bury ms st]> inv)
  end.

Lemma observe_all_lookup ms current inv id :
  NoDup current.*1 ->
  observe_all ms current inv !! id
  = match List.find (fun x => String.eqb x.1 id) current with
    | Some (_, a) => Some (observe ms (inv !! id) a)
    | None => inv !! id
    end.
Proof.
  revert inv. induction current as [|[id' a] current IH]; intros inv Hnd; cbn; [done|].
  apply NoDup_cons in Hnd as [Hnin Hnd]. rewrite IH by done.
  destruct (String.eqb_spec id' id) as [->|Hne].
  - replace (List.find _ current) with (@None (AgentArtifactId * AgentArtifact)); [by rewrite lookup_insert_eq|].
    destruct (List.find _ current) as [[i b]|] eqn:E; [|done].
    apply List.find_some in E as [Hin Hi]. apply String.eqb_eq in Hi. cbn in Hi. subst i.
    destruct Hnin. apply list_elem_of_fmap. exists (id, b). split; [done|by apply list_elem_of_In].
  - by rewrite lookup_insert_ne.
Qed.

Lemma bury_all_lookup ms gone inv id :
  NoDup (st_id <$> gone) ->
  bury_all ms gone inv !! id
  = match find_stored id gone with Some st => Some (bury ms st) | None => inv !! id end.
Proof.
  revert inv. induction gone as [|st gone IH]; intros inv Hnd; cbn; [done|].
  cbn in Hnd. apply NoDup_cons in Hnd as [Hnin Hnd]. rewrite IH by done.
  destruct (String.eqb_spec (st_id st) id) as [<-|Hne].
  - replace (find_stored (st_id st) gone) with (@None StoredAgentArtifact); [by rewrite lookup_insert_eq|].
    unfold find_stored. destruct (List.find _ gone) as [x|] eqn:E; [|done].
    apply List.find_some in E as [Hin Hi]. apply String.eqb_eq in Hi.
    destruct Hnin. apply list_elem_of_fmap. exists x. split; [done|by apply list_elem_of_In].
  - by rewrite lookup_insert_ne.
Qed.

(** The drift lists of the first loop. *)
Definition drift_of (keep : option StoredAgentArtifact -> AgentArtifact -> bool) (ms : Z)
    (current : list (AgentArtifactId * AgentArtifact)) (inv : Inventory) : list StoredAgentArtifact :=
  omap (fun x => if keep (inv !! x.1) x.2 then Some (observe ms (inv !! x.1) x.2) else None) current.

Definition is_new (old : option StoredAgentArtifact) (a : AgentArtifact) : bool := bool_decide (old = None).
Definition is_changed (old : option StoredAgentArtifact) (a : AgentArtifact) : bool :=
  match old with
  | Some st => bool_decide (st_removed_at_ms st = None) && negb (bool_decide (st_artifact st = a))
  | None => false
  end.
Definition is_back (old : option StoredAgentArtifact) (a : AgentArtifact) : bool :=
  match old with Some st => bool_decide (is_Some (st_removed_at_ms st)) | None => false end.

Lemma drift_all_lists ms current inv drift :
  dr_added (drift_all ms current inv drift) = dr_added drift ++ drift_of is_new ms current inv
  /\ dr_changed (drift_all ms current inv drift) = dr_changed drift ++ drift_of is_changed ms current inv
  /\ dr_resurrected (drift_all ms current inv drift) = dr_resurrected drift ++ drift_of is_back ms current inv
  /\ dr_removed (drift_all ms current inv drift) = dr_removed drift.
Proof.
  revert drift. induction current as [|[id a] current IH]; intros drift; cbn.
  { by rewrite !app_nil_r. }
  destruct (IH (step_drift ms (inv !! id) a drift)) as (-> & -> & -> & ->). unfold step_drift, is_new, is_changed, is_back.
  destruct (inv !! id) as [st|]; cbn.
  - destruct (st_removed_at_ms st); cbn; [by rewrite <-!app_assoc|].
    case_bool_decide; cbn; by rewrite <-?app_assoc.
  - by rewrite <-!app_assoc.
Qed.

End spec.
