(* ===== verification/InventoryProof.v ===== *)
(** * A rescan computes the next inventory

    The transactions of a rescan, followed on the abstract inventory of the
    project: none of the statements can fail on well-formed records, the
    listing and the drift report are the ones [next_stored] describes, and the
    tombstones stay bounded. *)

From stdpp Require Import sorting.
From S2P Require Import Prelude Core Policy FlowDef FlowData Artifact StoreDef StoreQueue StoreAudit StoreAccess.
From S2P Require Import StoreView Inventory StoreStep InventorySpec.
From Stdlib Require Import Sorted.

Local Open Scope Z_scope.
#[local] Notation Inventory := (gmap AgentArtifactId StoredAgentArtifact).

(** Only the artifacts of the project differ. *)
Definition rows_moved (p : ProjectId) (s s' : Store) : Prop :=
  (exists t, s' = set_skills s t) /\ artifact_inventory (skills s') = artifact_inventory (skills s)
  /\ forall q, q <> p -> agent_artifacts (skills s') !! q = agent_artifacts (skills s) !! q.

#[export] Instance rows_moved_preorder p : PreOrder (rows_moved p).
Proof.
  split.
  - intros s. split; [exists (skills s); by destruct s|done].
  - intros s1 s2 s3 ([t ->] & E1 & H1) ([t' ->] & E2 & H2). split; [by exists t'|].
    split; [by rewrite E2|]. intros q Hq. by rewrite H2, H1.
Qed.

Lemma set_artifacts_moved s p rows : rows_moved p s (set_artifacts s p rows).
Proof.
  split; [by eexists|]. split; [done|]. intros q Hq. cbn. by rewrite lookup_insert_ne.
Qed.

Lemma project_set_artifacts s p rows : project_artifacts (set_artifacts s p rows) p = rows.
Proof. unfold project_artifacts. cbn. by rewrite lookup_insert_eq. Qed.

Lemma rows_moved_projects p s s' : rows_moved p s s' -> projects s' = projects s.
Proof. by intros ([t ->] & _). Qed.

Section rescan.
Context `{Sha256} (sha256_bytes : forall x, String.length (sha256 x) = 32%nat).

(** ** Statements *)

(** The store holds the inventory [inv] of the project. *)
Definition holds (p : ProjectId) (inv : Inventory) (s : Store) : Prop :=
  project_artifacts s p = row_of <$> inv.

Lemma insert_artifact_holds p inv st s :
  is_Some (projects s !! p) -> holds p inv s -> map_Forall (fun id x => st_id x = id /\ stored_ok x) inv ->
  stored_ok st -> inv !! st_id st = None ->
  exists s', insert_artifact p (st_id st) (row_of st) s = Ok (s', tt)
    /\ holds p (<[st_id st := st]> inv) s' /\ rows_moved p s s'.
Proof using sha256_bytes.
  intros Hp Hinv Hok Hst Hfresh. unfold insert_artifact. rewrite Hinv, (check_row_of sha256_bytes) by done.
  rewrite lookup_fmap, Hfresh, (bool_decide_eq_true_2 _ Hp).
  replace (forallb _ _) with true.
  - eexists. split; [done|]. split; [|apply set_artifacts_moved].
    unfold holds. rewrite project_set_artifacts. by rewrite fmap_insert.
  - symmetry. apply forallb_true_elem. intros [id r] Hin. apply elem_of_map_to_list in Hin.
    rewrite lookup_fmap in Hin. destruct (inv !! id) as [x|] eqn:E; [|done]. injection Hin as <-.
    apply negb_true_iff, bool_decide_eq_false. intros Hcol. apply columns_identity in Hcol.
    destruct (Hok id x E) as (<- & _ & Hid & _). destruct Hst as (_ & Hid' & _).
    assert (st_id x = st_id st) as Heq by (rewrite Hid, Hid'; unfold artifact_id; by rewrite Hcol).
    rewrite Heq in E. congruence.
Qed.

Lemma update_artifact_holds p inv id st st' q f s :
  holds p inv s -> inv !! id = Some st -> q (row_of st) = true -> f (row_of st) = row_of st' ->
  st_id st' = id -> stored_ok st' ->
  exists s', update_artifact p id q f s = Ok (s', tt) /\ holds p (<[id := st']> inv) s' /\ rows_moved p s s'.
Proof using sha256_bytes.
  intros Hinv Hid Hq Hf <- Hst. unfold update_artifact. rewrite Hinv, lookup_fmap, Hid. cbn. rewrite Hq, Hf.
  rewrite (check_row_of sha256_bytes) by done. eexists. split; [done|]. split; [|apply set_artifacts_moved].
  unfold holds. rewrite project_set_artifacts. by rewrite fmap_insert.
Qed.

Lemma ensure_time id ms t : t <= ms -> ensure_inventory_time id ms t = Ok tt.
Proof. intros Ht. unfold ensure_inventory_time. by rewrite (proj2 (Z.ltb_ge ms t)). Qed.

(** ** One observed artifact *)

Lemma refresh_row_of st a t :
  identity (st_artifact st) = identity a ->
  refresh_row a t None (row_of st) = row_of (with_artifact st a t None).
Proof.
  unfold identity. intros [= Ho Hk Hs Hp]. unfold refresh_row, row_of, artifact_row. cbn.
  by rewrite Ho, Hk, Hs, Hp.
Qed.

Lemma update_holds p inv ms a st s :
  0 <= ms <= i64_max -> holds p inv s -> inventory_ok ms inv -> inv !! artifact_id a = Some st ->
  artifact_ok a -> identity (st_artifact st) = identity a ->
  exists s', update_skill_artifact p (st_id st) a
      (if bool_decide (st_artifact st = a) then st_last_changed_at_ms st else ms) None s = Ok (s', tt)
    /\ holds p (<[artifact_id a := observe ms (Some st) a]> inv) s' /\ rows_moved p s s'.
Proof using sha256_bytes.
  intros Hms Hinv Hok Hst Ha Hident. destruct (Hok _ _ Hst) as (Hid & Hsok & Hlast).
  destruct (observe_ok ms ms (Some st) a) as (Hid' & Hok' & _); [done|done|lia|by intros ? [= <-]|].
  rewrite Hid. eapply update_artifact_holds; [done|done|done| |done|done]. by apply refresh_row_of.
Qed.

Lemma reconcile_holds p inv ms a st drift s :
  0 <= ms <= i64_max -> holds p inv s -> inventory_ok ms inv -> inv !! artifact_id a = Some st ->
  artifact_ok a -> identity (st_artifact st) = identity a ->
  exists s', reconcile_skill_artifact p a st ms ms drift s = Ok (s', step_drift ms (Some st) a drift)
    /\ holds p (<[artifact_id a := observe ms (Some st) a]> inv) s' /\ rows_moved p s s'.
Proof using sha256_bytes.
  intros Hms Hinv Hok Hst Ha Hident. destruct (Hok _ _ Hst) as (Hid & Hsok & Hlast).
  destruct (update_holds p inv ms a st s) as (s' & Hu & Hs'); [done..|].
  pose proof Hsok as (_ & _ & Hf & Hc & Hr). unfold stored_last in Hlast.
  unfold reconcile_skill_artifact, step_drift.
  destruct (st_removed_at_ms st) as [t|] eqn:Erem; cbn in Hlast.
  - exists s'. split; [|done]. cbn zeta. rewrite !ensure_time by lia. cbn [observe].
    case_bool_decide; cbn [negb]; cbn [negb] in *; unfold mbind, tx_bind, tx_lift; cbn beta iota zeta.
    + unfold sql_integer. rewrite (proj2 (Z.leb_le _ i64_max)) by lia. cbn beta iota zeta. by rewrite Hu.
    + cbn. by rewrite Hu.
  - case_bool_decide as Hsame; cbn [negb].
    + exists s. split; [done|]. split; [|done]. unfold holds. rewrite Hinv. f_equal. symmetry.
      apply insert_id. rewrite Hst. f_equal. cbn. rewrite bool_decide_eq_true_2 by done.
      destruct st; cbn in *. by subst.
    + exists s'. split; [|done]. rewrite ensure_time by lia. rewrite (bind_Ok _ _ s s tt) by done.
      rewrite (bind_Ok _ _ _ _ _ Hu). cbn [observe]. by rewrite bool_decide_eq_false_2.
Qed.

(** ** The loops *)

Lemma add_holds p inv ms a drift s :
  0 <= ms <= i64_max -> is_Some (projects s !! p) -> holds p inv s -> inventory_ok ms inv ->
  inv !! artifact_id a = None -> artifact_ok a ->
  exists s', add_skill_artifact p (artifact_id a) a ms ms drift s = Ok (s', step_drift ms None a drift)
    /\ holds p (<[artifact_id a := observe ms None a]> inv) s' /\ rows_moved p s s'.
Proof using sha256_bytes.
  intros Hms Hp Hinv Hok Hnone Ha.
  destruct (observe_ok ms ms None a) as (Hid' & Hok' & _); [done|done|lia|done|].
  destruct (insert_artifact_holds p inv (observe ms None a) s) as (s' & Hi & Hs'); [done|done| |done|done|].
  { intros id st Hst. destruct (Hok _ _ Hst) as (? & ? & _). done. }
  exists s'. split; [|done]. unfold add_skill_artifact. by rewrite (bind_Ok _ _ _ _ _ Hi).
Qed.

Lemma drift_all_agree ms current inv inv' drift :
  (forall id, id ∈ current.*1 -> inv !! id = inv' !! id) ->
  drift_all ms current inv drift = drift_all ms current inv' drift.
Proof.
  revert drift. induction current as [|[id a] current IH]; intros drift Hag; [done|]. cbn [drift_all].
  rewrite (Hag id) by (cbn; by left). apply IH. intros id' Hid'. apply Hag. cbn. by right.
Qed.

Lemma find_drop_stored id id' l : id <> id' -> find_stored id (drop_stored id' l) = find_stored id l.
Proof.
  intros Hne. unfold find_stored, drop_stored. induction l as [|st l IH]; cbn; [done|].
  destruct (String.eqb_spec (st_id st) id'); cbn.
  - rewrite IH. by destruct (String.eqb_spec (st_id st) id); [congruence|].
  - by rewrite IH.
Qed.

Definition drop_all (current : list (AgentArtifactId * AgentArtifact)) (l : list StoredAgentArtifact)
  : list StoredAgentArtifact :=
  foldl (fun l x => drop_stored x.1 l) l current.

Lemma drop_all_filter current l :
  drop_all current l = List.filter (fun st => negb (existsb (String.eqb (st_id st)) current.*1)) l.
Proof.
  unfold drop_all. revert l. induction current as [|[id a] current IH]; intros l; cbn.
  - symmetry. by apply List.filter_true.
  - rewrite IH. unfold drop_stored. induction l as [|st l IHl]; cbn; [done|].
    destruct (String.eqb_spec (st_id st) id); cbn; [done|]. by rewrite IHl.
Qed.

(** The observed artifacts, each once and under its identifier. *)
Definition current_ok (current : list (AgentArtifactId * AgentArtifact)) : Prop :=
  NoDup current.*1 /\ Forall (fun x => x.1 = artifact_id x.2 /\ artifact_ok x.2) current.

Lemma reconcile_loop_holds p ms current existing inv drift s :
  0 <= ms <= i64_max -> is_Some (projects s !! p) -> current_ok current ->
  holds p inv s -> inventory_ok ms inv ->
  (forall id, id ∈ current.*1 -> find_stored id existing = inv !! id) ->
  no_collision inv (current.*2) ->
  exists s', reconcile_loop p ms ms current existing drift s
             = Ok (s', (drop_all current existing, drift_all ms current inv drift))
    /\ holds p (observe_all ms current inv) s' /\ inventory_ok ms (observe_all ms current inv)
    /\ rows_moved p s s'.
Proof using sha256_bytes.
  intros Hms Hp [Hnd Hall]. revert existing inv drift s Hp Hnd.
  induction Hall as [|[id a] current [Hid Ha] Hall IH]; intros existing inv drift s Hp Hnd Hinv Hok Hfind Hcoll.
  { by exists s. }
  cbn in Hid, Ha. subst id. cbn in Hnd. apply NoDup_cons in Hnd as [Hnin Hnd].
  pose (inv' := <[artifact_id a := observe ms (inv !! artifact_id a) a]> inv).
  assert (Hag : forall id, id ∈ current.*1 -> inv !! id = inv' !! id).
  { intros id Hin. unfold inv'. rewrite lookup_insert_ne; [done|]. by intros <-. }
  assert (Hstep : exists s', match find_stored (artifact_id a) existing with
      | None => add_skill_artifact p (artifact_id a) a ms ms drift
      | Some stored => reconcile_skill_artifact p a stored ms ms drift
      end s = Ok (s', step_drift ms (inv !! artifact_id a) a drift) /\ holds p inv' s' /\ rows_moved p s s').
  { rewrite (Hfind (artifact_id a)) by (cbn; by left). unfold inv'. destruct (inv !! artifact_id a) as [st|] eqn:Est.
    - apply reconcile_holds; try done. eapply (Hcoll _ _ _ Est); [cbn; by left|done].
    - by apply add_holds. }
  destruct Hstep as (s1 & Hs1 & Hinv1 & Hmoved).
  assert (Hok' : inventory_ok ms inv').
  { apply map_Forall_insert_2; [|done].
    destruct (observe_ok ms ms (inv !! artifact_id a) a) as (Hi & Hst & Hl & _); [done|done|lia| |done].
    intros st Hst. destruct (Hok _ _ Hst) as (? & ? & ?). done. }
  destruct (IH (drop_stored (artifact_id a) existing) inv' (step_drift ms (inv !! artifact_id a) a drift) s1)
    as (s' & Hs' & Hinv' & Hok2 & Hmoved'); try done.
  - by rewrite (rows_moved_projects _ _ _ Hmoved).
  - intros id Hin. rewrite find_drop_stored by (by intros ->). rewrite <-Hag by done.
    apply Hfind. cbn. by right.
  - intros id st b Hst Hb Hbid. rewrite <-Hag in Hst.
    + apply (Hcoll id); [done|cbn; by right|done].
    + subst id. apply list_elem_of_fmap in Hb as ([i c] & -> & Hc). apply list_elem_of_fmap.
      exists (i, c). split; [|done]. by destruct (proj1 (Forall_forall _ _) Hall _ Hc) as [-> _].
  - exists s'. split_and!; [|done|done|by etrans]. cbn [reconcile_loop]. rewrite (bind_Ok _ _ _ _ _ Hs1). cbn beta. rewrite Hs'.
    cbn [drift_all drop_all foldl]. unfold inv' in *. rewrite (drift_all_agree ms current inv _ _ Hag). done.
Qed.

Lemma remove_loop_holds p ms gone inv drift s :
  0 <= ms <= i64_max -> holds p inv s -> inventory_ok ms inv -> NoDup (st_id <$> gone) ->
  Forall (fun st => inv !! st_id st = Some st /\ st_removed_at_ms st = None) gone ->
  exists s', remove_loop p ms ms gone drift s
             = Ok (s', {| dr_added := dr_added drift; dr_changed := dr_changed drift;
                          dr_removed := dr_removed drift ++ (bury ms <$> gone);
                          dr_resurrected := dr_resurrected drift |})
    /\ holds p (bury_all ms gone inv) s' /\ inventory_ok ms (bury_all ms gone inv) /\ rows_moved p s s'.
Proof using sha256_bytes.
  intros Hms. revert inv drift s. induction gone as [|st gone IH]; intros inv drift s Hinv Hok Hnd Hall.
  { exists s. cbn. rewrite app_nil_r. by destruct drift. }
  cbn in Hnd. apply NoDup_cons in Hnd as [Hnin Hnd]. apply Forall_cons in Hall as [[Hst Hrem] Hall].
  destruct (Hok _ _ Hst) as (_ & Hsok & Hlast). pose proof Hsok as (_ & _ & Hf & Hc & _).
  destruct (bury_ok ms ms st) as (Hid' & Hok' & Hl' & _); [done|done|lia|done|].
  destruct (update_artifact_holds p inv (st_id st) st (bury ms st) is_active_artifact
    (set_artifact_removed ms) s) as (s1 & Hs1 & Hinv1 & Hmoved); try done.
  { unfold is_active_artifact. cbn. by apply bool_decide_eq_true. }
  { unfold bury. by rewrite Hrem. }
  destruct (IH (<[st_id st := bury ms st]> inv) (push_removed drift (bury ms st)) s1)
    as (s' & Hs' & Hinv' & Hok2 & Hmoved'); try done.
  - by apply map_Forall_insert_2.
  - apply Forall_forall. intros x Hin. destruct (proj1 (Forall_forall _ _) Hall _ Hin) as [Hx Hr].
    split; [|done]. rewrite lookup_insert_ne; [done|]. intros Heq. apply Hnin.
    rewrite Heq. by apply list_elem_of_fmap_2.
  - exists s'. split_and!; [|done|done|by etrans]. cbn [remove_loop]. unfold remove_skill_artifact.
    rewrite ensure_time by (unfold stored_last in Hlast; rewrite Hrem in Hlast; cbn in Hlast; lia).
    assert (Hone : (_ ← tx_lift (Ok tt); _ ← update_artifact p (st_id st) is_active_artifact (set_artifact_removed ms);
      mret (push_removed drift (with_artifact st (st_artifact st) (st_last_changed_at_ms st) (Some ms)))) s
      = Ok (s1, push_removed drift (bury ms st))).
    { rewrite (bind_Ok _ _ s s tt) by done. rewrite (bind_Ok _ _ _ _ _ Hs1). unfold bury. by rewrite Hrem. }
    rewrite (bind_Ok _ _ _ _ _ Hone). cbn beta. rewrite Hs'. cbn. by rewrite <-app_assoc.
Qed.

End rescan.

(** ** Tombstones stay bounded

    [pruned inv inv'] describes the statement that deletes the excess
    tombstones of a project: the active artifacts stay, and the tombstones that
    go are the oldest beyond the cap. *)

Definition tombs (inv : Inventory) : Inventory := filter (fun x => is_Some (st_removed_at_ms x.2)) inv.
Definition TOMBSTONE_CAP : nat := Z.to_nat MAX_SKILL_INVENTORY_TOMBSTONES_PER_PROJECT.

Record pruned (inv inv' : Inventory) : Prop := {
  pruned_sub : inv' ⊆ inv;
  pruned_active id st : inv !! id = Some st -> st_removed_at_ms st = None -> inv' !! id = Some st;
  pruned_size : size (tombs inv') = Nat.min TOMBSTONE_CAP (size (tombs inv));
  pruned_oldest (id : AgentArtifactId) st (id' : AgentArtifactId) st' t' :
    inv !! id = Some st -> inv' !! id = None -> inv' !! id' = Some st' -> st_removed_at_ms st' = Some t' ->
    exists t, st_removed_at_ms st = Some t /\ (t < t' \/ t = t' /\ String.leb id' id = true)
}.

Lemma sub_smaller (inv inv' : Inventory) : inv' ⊆ inv -> inv' = inv \/ (size inv' < size inv)%nat.
Proof.
  intros Hsub. destruct (decide (dom inv ⊆ dom inv')) as [Hd|Hd].
  - left. apply map_eq. intros id. destruct (inv !! id) as [st|] eqn:E.
    + assert (is_Some (inv' !! id)) as [st' E'] by (apply elem_of_dom, Hd, elem_of_dom; eauto).
      pose proof (lookup_weaken _ _ _ _ E' Hsub). congruence.
    + destruct (inv' !! id) as [st'|] eqn:E'; [|done]. pose proof (lookup_weaken _ _ _ _ E' Hsub). congruence.
  - right. apply dom_subset_size. split; [|done]. by apply subseteq_dom.
Qed.

(** Below the cap, nothing goes. *)
Lemma pruned_noop inv inv' : pruned inv inv' -> (size (tombs inv) <= TOMBSTONE_CAP)%nat -> inv' = inv.
Proof.
  intros [Hsub Hact Hsize _] Hcap. rewrite Nat.min_r in Hsize by lia.
  assert (Ht : tombs inv' ⊆ tombs inv) by by apply map_filter_subseteq_mono.
  destruct (sub_smaller _ _ Ht) as [Heq|Hlt]; [|lia].
  apply map_eq. intros id. destruct (inv !! id) as [st|] eqn:E.
  - destruct (st_removed_at_ms st) as [t|] eqn:Er; [|by apply Hact].
    assert (tombs inv !! id = Some st) as H by (apply map_lookup_filter_Some; cbn; rewrite Er; eauto).
    rewrite <-Heq in H. by apply map_lookup_filter_Some in H as [? _].
  - destruct (inv' !! id) as [st'|] eqn:E'; [|done]. pose proof (lookup_weaken _ _ _ _ E' Hsub). congruence.
Qed.

Lemma pruned_inventory_ok `{Sha256} last inv inv' : pruned inv inv' -> inventory_ok last inv -> inventory_ok last inv'.
Proof. intros Hp Hok id st Hst. apply Hok. by eapply lookup_weaken, pruned_sub. Qed.

(** ** The statement *)

Lemma tombstone_order_trans x y z :
  tombstone_order x y = true -> tombstone_order y z = true -> tombstone_order x z = true.
Proof.
  unfold tombstone_order. rewrite !orb_true_iff, !andb_true_iff, !Z.ltb_lt, !Z.eqb_eq.
  intros [?|[E1 L1]] [?|[E2 L2]]; [left; lia..|]. right. split; [lia|]. by eapply leb_trans.
Qed.

Lemma tombstone_order_total x y : tombstone_order x y = false -> tombstone_order y x = true.
Proof.
  unfold tombstone_order. rewrite orb_false_iff, andb_false_iff, Z.ltb_ge, Z.eqb_neq.
  intros [H1 H2]. apply orb_true_iff. rewrite andb_true_iff, Z.ltb_lt, Z.eqb_eq.
  destruct H2 as [H2|H2]; [left; lia|]. destruct (decide (x.2 = y.2)); [right|left; lia].
  split; [done|]. by apply leb_false.
Qed.

Section prune.
Context (inv : Inventory).

Let stones : list (AgentArtifactId * Z) := sort_rows tombstone_order (tombstones (row_of <$> inv)).
Let retained : list AgentArtifactId := fst <$> take TOMBSTONE_CAP stones.

Lemma elem_of_tombstones id t :
  (id, t) ∈ stones <-> exists st, inv !! id = Some st /\ st_removed_at_ms st = Some t.
Proof.
  unfold stones. rewrite elem_of_sort_rows. unfold tombstones. rewrite list_elem_of_omap. split.
  - intros ([i r] & Hin & Hx). apply elem_of_map_to_list in Hin. rewrite lookup_fmap in Hin.
    destruct (inv !! i) as [st|] eqn:E; [|done]. injection Hin as <-. cbn in Hx.
    destruct (st_removed_at_ms st) eqn:Er; [|done]. injection Hx as <- <-. eauto.
  - intros (st & Hst & Hr). exists (id, row_of st). split.
    + apply elem_of_map_to_list. by rewrite lookup_fmap, Hst.
    + cbn. by rewrite Hr.
Qed.

Lemma stones_nodup : NoDup stones.*1.
Proof.
  unfold stones. rewrite sort_rows_perm. unfold tombstones.
  pose proof (NoDup_fst_map_to_list (row_of <$> inv)) as Hnd.
  induction (map_to_list (row_of <$> inv)) as [|[i r] l IH]; [constructor|]. cbn in Hnd |- *.
  apply NoDup_cons in Hnd as [Hnin Hnd]. destruct (sk_removed_at_ms r) as [t|]; cbn; [|by apply IH].
  constructor; [|by apply IH]. intros Hin. apply Hnin. apply list_elem_of_fmap in Hin as ([j u] & -> & Hin).
  apply list_elem_of_omap in Hin as ([k r'] & Hin & Hx). cbn in Hx. destruct (sk_removed_at_ms r'); [|done].
  injection Hx as -> ->. apply list_elem_of_fmap. by exists (j, r').
Qed.

Definition prune : Inventory :=
  filter (fun x => st_removed_at_ms x.2 = None \/ x.1 ∈ retained) inv.

Lemma prune_rows_holds : prune_rows (row_of <$> inv) = row_of <$> prune.
Proof.
  unfold prune_rows. rewrite map_filter_fmap. f_equal. apply map_filter_ext. intros id st _. cbn.
  unfold is_active_artifact. cbn. rewrite bool_decide_eq_true. done.
Qed.

Lemma tombs_dom (kept : list (AgentArtifactId * Z)) (m : Inventory) :
  NoDup kept.*1 -> (forall id, is_Some (tombs m !! id) <-> id ∈ kept.*1) -> size (tombs m) = length kept.
Proof.
  intros Hnd Hm. rewrite <-(size_dom (D := gset AgentArtifactId)).
  replace (dom (tombs m)) with (list_to_set kept.*1 : gset AgentArtifactId).
  - rewrite size_list_to_set by done. by rewrite length_fmap.
  - apply set_eq. intros id. by rewrite elem_of_list_to_set, elem_of_dom, Hm.
Qed.

Lemma prune_pruned : pruned inv prune.
Proof.
  assert (Hfst : forall id, id ∈ stones.*1 <-> is_Some (tombs inv !! id)).
  { intros id. rewrite list_elem_of_fmap. split.
    - intros ([i t] & -> & Hin). apply elem_of_tombstones in Hin as (st & Hst & Hr). exists st.
      apply map_lookup_filter_Some. cbn. rewrite Hr. eauto.
    - intros [st Hst]. apply map_lookup_filter_Some in Hst as [Hst [t Hr]]. cbn in Hr. exists (id, t).
      split; [done|]. apply elem_of_tombstones. eauto. }
  split.
  - apply map_filter_subseteq.
  - intros id st Hst Hr. apply map_lookup_filter_Some. cbn. auto.
  - rewrite (tombs_dom (take TOMBSTONE_CAP stones)), (tombs_dom stones).
    + by rewrite length_take.
    + apply stones_nodup.
    + intros id. by rewrite Hfst.
    + rewrite fmap_take. pose proof stones_nodup as Hnd. rewrite <-(take_drop TOMBSTONE_CAP) in Hnd.
      by apply NoDup_app in Hnd as [? _].
    + intros id. fold retained. split.
      * intros [st Hst]. apply map_lookup_filter_Some in Hst as [Hst [t Hr]]. cbn in Hr.
        apply map_lookup_filter_Some in Hst as [_ [Hn|Hin]]; [|done]. cbn in Hn. congruence.
      * intros Hin. assert (is_Some (tombs inv !! id)) as [st Hst].
        { apply Hfst. unfold retained in Hin. rewrite fmap_take in Hin. by eapply subseteq_take. }
        apply map_lookup_filter_Some in Hst as [Hst Hr]. exists st. apply map_lookup_filter_Some.
        split; [|done]. apply map_lookup_filter_Some. auto.
  - intros id st id' st' t' Hst Hgone Hst' Hr'.
    apply map_lookup_filter_Some in Hst' as [Hst' [Hn|Hin]]; [cbn in Hn; congruence|]. cbn in Hin.
    apply map_lookup_filter_None in Hgone as [Hgone|Hgone]; [congruence|]. specialize (Hgone _ Hst). cbn in Hgone.
    destruct (st_removed_at_ms st) as [t|] eqn:Er; [|by destruct Hgone; left]. exists t. split; [done|].
    unfold retained in Hin. apply list_elem_of_fmap in Hin as ([i u] & -> & Hin). cbn in *.
    assert (Hu : (i, u) ∈ stones) by by eapply subseteq_take.
    apply elem_of_tombstones in Hu as (x & Hx & Hu). rewrite Hst' in Hx. injection Hx as <-. rewrite Hr' in Hu. injection Hu as <-.
    assert (Hdrop : (id, t) ∈ drop TOMBSTONE_CAP stones).
    { assert (Hs : (id, t) ∈ stones) by (apply elem_of_tombstones; eauto).
      rewrite <-(take_drop TOMBSTONE_CAP stones) in Hs. apply elem_of_app in Hs as [Hs|Hs]; [|done].
      destruct Hgone. right. apply list_elem_of_fmap. by exists (id, t). }
    assert (Hso : StronglySorted (fun a b => tombstone_order a b = true) stones).
    { apply sort_rows_sorted; [apply tombstone_order_trans|apply tombstone_order_total]. }
    rewrite <-(take_drop TOMBSTONE_CAP stones) in Hso.
    pose proof (StronglySorted_app_1_elem_of _ _ _ _ _ Hso Hin Hdrop) as Hle.
    unfold tombstone_order in Hle. cbn in Hle. rewrite orb_true_iff, andb_true_iff, Z.ltb_lt, Z.eqb_eq in Hle.
    destruct Hle as [?|[-> ?]]; auto.
Qed.

End prune.

Lemma prune_holds p (inv : Inventory) s :
  holds p inv s ->
  exists s' inv', prune_skill_inventory_tombstones p s = Ok (s', tt)
    /\ holds p inv' s' /\ pruned inv inv' /\ rows_moved p s s'.
Proof.
  intros Hinv. exists (if bool_decide (prune_rows (project_artifacts s p) = project_artifacts s p) then s
                       else set_artifacts s p (prune_rows (project_artifacts s p))), (prune inv).
  unfold prune_skill_inventory_tombstones. split_and!.
  - by destruct (bool_decide _).
  - unfold holds. rewrite <-prune_rows_holds, <-Hinv. case_bool_decide as E; [done|]. apply project_set_artifacts.
  - apply prune_pruned.
  - destruct (bool_decide _); [done|apply set_artifacts_moved].
Qed.

(** Below the cap the statement deletes nothing. *)
Lemma prune_below p (inv : Inventory) s :
  holds p inv s -> (size (tombs inv) <= TOMBSTONE_CAP)%nat -> prune_skill_inventory_tombstones p s = Ok (s, tt).
Proof.
  intros Hinv Hcap. unfold prune_skill_inventory_tombstones. rewrite bool_decide_eq_true_2; [done|].
  by rewrite Hinv, prune_rows_holds, (pruned_noop _ _ (prune_pruned inv) Hcap).
Qed.
