(* ===== verification/InventoryRescan.v ===== *)
(** * What the store holds after a rescan

    The listing, the pruned tombstones and the report of a whole rescan, from
    the loops of [InventoryProof]. *)

From S2P Require Import Prelude Core Policy FlowDef FlowData StoreDef StoreQueue StoreAudit StoreAccess.
From S2P Require Import StoreView StoreStep Artifact Inventory InventorySpec InventoryProof.
From Stdlib Require Import Sorted.

Local Open Scope Z_scope.

#[local] Notation Inventory := (gmap AgentArtifactId StoredAgentArtifact).

(** ** Reading the rows *)

Section listing.
Context `{Sha256} (sha256_bytes : forall x, String.length (sha256 x) = 32%nat).

Definition well_formed (inv : Inventory) : Prop := map_Forall (fun id st => st_id st = id /\ stored_ok st) inv.

Lemma inventory_well_formed last inv : inventory_ok last inv -> well_formed inv.
Proof. intros Hok id st Hst. by destruct (Hok id st Hst) as (? & ? & _). Qed.

Lemma decode_rows rows (l : list (AgentArtifactId * StoredAgentArtifact)) :
  rows ≡ₚ prod_map id row_of <$> l -> (forall x, x ∈ l -> st_id x.2 = x.1 /\ stored_ok x.2) ->
  exists l', l' ≡ₚ l /\ rows = (fun st => (st_id st, row_of st)) <$> l'.*2
    /\ collect_res decode_skill_artifact rows = Ok l'.*2.
Proof using sha256_bytes.
  intros Hp Hl. apply Permutation_map_inv in Hp as (l' & -> & Hp'). exists l'. split; [by symmetry|].
  assert (Hl' : forall x, x ∈ l' -> st_id x.2 = x.1 /\ stored_ok x.2) by (intros x Hx; apply Hl; by rewrite Hp').
  clear Hp' Hl. split.
  - induction l' as [|[i st] l' IH]; [done|]. cbn [fmap list_fmap map]. f_equal.
    + destruct (Hl' (i, st)) as [E _]; [by left|]. cbn in *. by rewrite <-E.
    + apply IH. intros x Hx. apply Hl'. by right.
  - induction l' as [|[i st] l' IH]; [done|]. destruct (Hl' (i, st)) as [E Hst]; [by left|]. cbn in E.
    cbn [map collect_res].
    assert (prod_map id row_of (i, st) = (st_id st, row_of st)) as -> by (unfold prod_map; cbn; by rewrite E).
    rewrite (decode_row_of sha256_bytes) by done. cbn.
    rewrite IH; [done|]. intros x Hx. apply Hl'. by right.
Qed.

Lemma find_stored_inventory (inv : Inventory) (l : list StoredAgentArtifact) id :
  well_formed inv -> l ≡ₚ (map_to_list inv).*2 -> find_stored id l = inv !! id.
Proof.
  intros Hwf Hp.
  assert (Hin : forall st, st ∈ l <-> inv !! st_id st = Some st).
  { intros st. rewrite Hp, list_elem_of_fmap. split.
    - intros ([i x] & -> & Hx). apply elem_of_map_to_list in Hx. cbn. by destruct (Hwf _ _ Hx) as [-> _].
    - intros Hst. exists (st_id st, st). split; [done|by apply elem_of_map_to_list]. }
  unfold find_stored. destruct (List.find _ l) as [st|] eqn:E.
  - apply List.find_some in E as [Hst Hid]. apply String.eqb_eq in Hid. subst id.
    symmetry. apply Hin. by apply list_elem_of_In.
  - destruct (inv !! id) as [st|] eqn:Est; [|done]. exfalso. destruct (Hwf _ _ Est) as [Hid _]. subst id.
    apply Hin, list_elem_of_In in Est. apply (List.find_none _ _ E) in Est. by rewrite String.eqb_refl in Est.
Qed.

Lemma all_skill_artifacts_holds p inv s :
  holds p inv s -> well_formed inv ->
  exists l, all_skill_artifacts p s = Ok (s, l) /\ l ≡ₚ (map_to_list inv).*2.
Proof using sha256_bytes.
  intros Hinv Hwf. unfold all_skill_artifacts. rewrite (bind_Ok _ _ s s _ eq_refl). cbn beta. rewrite Hinv.
  destruct (decode_rows (sort_rows id_order (map_to_list (row_of <$> inv))) (map_to_list inv))
    as (l & Hl & _ & Hd).
  - by rewrite sort_rows_perm, map_to_list_fmap.
  - intros [i st] Hx. by apply elem_of_map_to_list in Hx as Hx%Hwf.
  - exists l.*2. unfold tx_lift. rewrite Hd. split; [done|]. by rewrite Hl.
Qed.

(** The active records of the inventory. *)
Definition is_active_stored (st : StoredAgentArtifact) : bool := bool_decide (st_removed_at_ms st = None).
Definition active (inv : Inventory) : list StoredAgentArtifact := List.filter is_active_stored (map_to_list inv).*2.

Definition listed_before (x y : StoredAgentArtifact) : bool :=
  listing_order (st_id x, row_of x) (st_id y, row_of y).

Lemma lex_not_Gt s t c : lex (String.compare s t) c <> Gt <-> s <> t /\ String.leb s t = true \/ s = t /\ c <> Gt.
Proof.
  unfold lex, String.leb. destruct (String.compare s t) eqn:E.
  - apply String.compare_eq_iff in E. naive_solver.
  - split; [|done]. intros _. left. split; [|done]. intros ->.
    pose proof (String.compare_antisym t t) as Ha. rewrite E in Ha. done.
  - split; [done|]. intros [[_ ?]|[-> _]]; [done|].
    pose proof (String.compare_antisym t t) as Ha. rewrite E in Ha. done.
Qed.

(** The columns of the ORDER BY, compared one after the other. *)
Fixpoint lex_compare (l m : list string) : comparison :=
  match l, m with
  | x :: l, y :: m => lex (String.compare x y) (lex_compare l m)
  | _, _ => Eq
  end.

Lemma lex_compare_trans l m n :
  length l = length m -> length m = length n ->
  lex_compare l m <> Gt -> lex_compare m n <> Gt -> lex_compare l n <> Gt.
Proof.
  revert m n. induction l as [|x l IH]; intros [|y m] [|z n]; cbn [lex_compare length]; try done.
  intros [= Hl] [= Hm]. rewrite !lex_not_Gt. intros [[N1 L1]|[-> C1]] [[N2 L2]|[-> C2]].
  - left. split; [|by eapply leb_trans]. intros ->. by apply N1, String.leb_antisym.
  - by left.
  - by left.
  - right. eauto.
Qed.

Lemma lex_compare_antisym l m : length l = length m -> lex_compare l m = CompOpp (lex_compare m l).
Proof.
  revert m. induction l as [|x l IH]; intros [|y m]; cbn [lex_compare length]; try done.
  intros [= Hl]. rewrite (String.compare_antisym x y). destruct (String.compare y x); cbn; auto.
Qed.

Definition listing_keys (r : ArtifactRow) : list string :=
  [sk_origin r; sk_scope r; sk_kind r; sk_logical_path r].

Lemma listing_order_keys x y :
  listing_order x y = true <-> lex_compare (listing_keys x.2) (listing_keys y.2) <> Gt.
Proof.
  unfold listing_order, listing_keys. cbn [lex_compare]. unfold lex.
  repeat match goal with |- context [String.compare ?a ?b] => destruct (String.compare a b) end; done.
Qed.

Lemma listing_order_trans x y z :
  listing_order x y = true -> listing_order y z = true -> listing_order x z = true.
Proof. rewrite !listing_order_keys. by apply lex_compare_trans. Qed.

Lemma listing_order_total x y : listing_order x y = false -> listing_order y x = true.
Proof.
  intros H1. apply listing_order_keys. rewrite lex_compare_antisym by done. intros H2.
  rewrite (proj2 (listing_order_keys x y)) in H1; [done|]. by destruct (lex_compare _ _).
Qed.

Lemma list_skill_artifacts_holds p inv s :
  holds p inv s -> well_formed inv ->
  exists l, list_skill_artifacts p s = Ok (s, l) /\ l ≡ₚ active inv
    /\ StronglySorted (fun x y => listed_before x y = true) l.
Proof using sha256_bytes.
  intros Hinv Hwf. unfold list_skill_artifacts. rewrite (bind_Ok _ _ s s _ eq_refl). cbn beta. rewrite Hinv.
  set (rows := sort_rows listing_order _).
  destruct (decode_rows rows (List.filter (fun x => is_active_stored x.2) (map_to_list inv)))
    as (l & Hl & Hrows & Hd).
  - unfold rows. rewrite sort_rows_perm.
    assert (Hf : forall l : list (AgentArtifactId * StoredAgentArtifact),
      List.filter (fun x => is_active_artifact x.2) (prod_map id row_of <$> l)
      = prod_map id row_of <$> List.filter (fun x => is_active_stored x.2) l).
    { induction l as [|[i st] l IH]; [done|]. cbn. unfold is_active_artifact, is_active_stored. cbn.
      destruct (bool_decide _); cbn; [by f_equal|done]. }
    rewrite <-Hf. apply filter_bool_Permutation. by rewrite map_to_list_fmap.
  - intros [i st] Hx%list_elem_of_In. apply List.filter_In in Hx as [Hx%list_elem_of_In _].
    by apply elem_of_map_to_list in Hx as Hx%Hwf.
  - exists l.*2. unfold tx_lift. rewrite Hd. split; [done|]. split.
    + rewrite Hl. unfold active. generalize (map_to_list inv) as m. induction m as [|[i st] m IH]; [done|]. cbn.
      destruct (is_active_stored st); cbn; [by constructor|done].
    + assert (Hs : StronglySorted (fun x y => listing_order x y = true) rows).
      { apply sort_rows_sorted; [apply listing_order_trans|apply listing_order_total]. }
      rewrite Hrows in Hs. clear -Hs. induction (l.*2) as [|x m IH]; [constructor|]. cbn in Hs.
      apply StronglySorted_inv in Hs as [Hs Hx]. constructor; [by apply IH|]. by apply Forall_map in Hx.
Qed.

End listing.

Lemma fmap_filter_nodup {A B} (g : A -> B) (f : A -> bool) l : NoDup (g <$> l) -> NoDup (g <$> List.filter f l).
Proof.
  induction l as [|x l IH]; cbn; [done|]. intros [Hnin Hnd]%NoDup_cons. destruct (f x); cbn; [|by apply IH].
  constructor; [|by apply IH]. intros (y & Hy & Hin)%list_elem_of_fmap. apply Hnin. rewrite Hy.
  apply list_elem_of_fmap_2. apply list_elem_of_In, List.filter_In in Hin as [Hin _]. by apply list_elem_of_In.
Qed.

(** ** The whole rescan *)

Section outcome.
Context `{Sha256} (sha256_bytes : forall x, String.length (sha256 x) = 32%nat).

(** The inventory an observation leaves, before the tombstones are pruned. *)
Definition merged (ms : Z) (inv : Inventory) (artifacts : list AgentArtifact) : Inventory :=
  merge (next_stored ms) inv (observed_map artifacts).

Lemma merged_lookup ms inv artifacts id :
  merged ms inv artifacts !! id = next_stored ms (inv !! id) (observed_map artifacts !! id).
Proof. unfold merged. rewrite lookup_merge. by destruct (inv !! id), (observed_map artifacts !! id). Qed.

Lemma observed_lookup artifacts id a :
  NoDup (artifact_id <$> artifacts) -> observed_map artifacts !! id = Some a <-> a ∈ artifacts /\ artifact_id a = id.
Proof.
  intros Hnd. unfold observed_map. rewrite <-elem_of_list_to_map.
  - rewrite list_elem_of_fmap. split; [intros (b & [= -> ->] & ?); done|]. intros [Ha <-]. by exists a.
  - by rewrite <-list_fmap_compose.
Qed.

(** The observation as the code sorts it. *)
Definition sorted_current (artifacts : list AgentArtifact) : list (AgentArtifactId * AgentArtifact) :=
  sort_rows id_order ((fun a => (artifact_id a, a)) <$> artifacts).

Lemma current_Ok artifacts :
  NoDup (artifact_id <$> artifacts) -> current_skill_artifacts artifacts = Ok (sorted_current artifacts).
Proof.
  intros Hnd. unfold current_skill_artifacts. rewrite bool_decide_eq_true_2; [done|].
  by rewrite <-list_fmap_compose.
Qed.

Lemma sorted_current_perm artifacts :
  sorted_current artifacts ≡ₚ (fun a => (artifact_id a, a)) <$> artifacts.
Proof. apply sort_rows_perm. Qed.

Lemma sorted_current_keys artifacts : (sorted_current artifacts).*1 ≡ₚ artifact_id <$> artifacts.
Proof. by rewrite sorted_current_perm, <-list_fmap_compose. Qed.

Lemma elem_of_sorted_current artifacts id a :
  (id, a) ∈ sorted_current artifacts <-> a ∈ artifacts /\ id = artifact_id a.
Proof.
  rewrite sorted_current_perm, list_elem_of_fmap. split; [intros (b & [= -> ->] & ?); done|].
  intros [Ha ->]. by exists a.
Qed.

Lemma sorted_current_ok artifacts :
  NoDup (artifact_id <$> artifacts) -> Forall artifact_ok artifacts -> current_ok (sorted_current artifacts).
Proof.
  intros Hnd Hok. split; [by rewrite sorted_current_keys|]. apply Forall_forall. intros [id a] Hx.
  apply elem_of_sorted_current in Hx as [Ha ->]. split; [done|]. by apply (proj1 (Forall_forall _ _) Hok).
Qed.

Lemma find_current artifacts (id : AgentArtifactId) :
  NoDup (artifact_id <$> artifacts) ->
  List.find (fun x => String.eqb x.1 id) (sorted_current artifacts) = (id,.) <$> observed_map artifacts !! id.
Proof.
  intros Hnd. destruct (List.find _ _) as [[i a]|] eqn:E.
  - apply List.find_some in E as [Hin Hi]. apply String.eqb_eq in Hi. cbn in Hi. subst i.
    apply list_elem_of_In, elem_of_sorted_current in Hin as [Ha Hid].
    by rewrite (proj2 (observed_lookup artifacts id a Hnd)).
  - destruct (observed_map artifacts !! id) as [a|] eqn:Ea; [|done]. apply observed_lookup in Ea as [Ha Hid]; [|done].
    assert (Hin : (id, a) ∈ sorted_current artifacts) by (by apply elem_of_sorted_current).
    apply list_elem_of_In in Hin. apply (List.find_none _ _ E) in Hin. cbn in Hin. by rewrite String.eqb_refl in Hin.
Qed.

(** The records the second loop buries. *)
Definition not_observed (artifacts : list AgentArtifact) (existing : list StoredAgentArtifact)
  : list StoredAgentArtifact :=
  List.filter is_active_stored (drop_all (sorted_current artifacts) existing).

Lemma elem_of_not_observed artifacts existing (inv : Inventory) st :
  well_formed inv -> existing ≡ₚ (map_to_list inv).*2 -> NoDup (artifact_id <$> artifacts) ->
  st ∈ not_observed artifacts existing <->
  inv !! st_id st = Some st /\ st_removed_at_ms st = None /\ observed_map artifacts !! st_id st = None.
Proof.
  intros Hwf Hp Hnd. unfold not_observed.
  rewrite drop_all_filter, list_elem_of_In, !List.filter_In, <-list_elem_of_In.
  unfold is_active_stored. rewrite bool_decide_eq_true, negb_true_iff.
  assert (Hst : st ∈ existing <-> inv !! st_id st = Some st).
  { rewrite Hp, list_elem_of_fmap. split.
    - intros ([i x] & -> & Hx). apply elem_of_map_to_list in Hx. cbn. by destruct (Hwf _ _ Hx) as [-> _].
    - intros Hst. exists (st_id st, st). split; [done|by apply elem_of_map_to_list]. }
  assert (Hobs : existsb (String.eqb (st_id st)) (sorted_current artifacts).*1 = false
                 <-> observed_map artifacts !! st_id st = None).
  { rewrite <-not_true_iff_false, existsb_exists, eq_None_not_Some. apply not_iff_compat. split.
    - intros (i & Hin & Hi). apply String.eqb_eq in Hi. subst i. apply list_elem_of_In in Hin.
      rewrite sorted_current_keys in Hin. apply list_elem_of_fmap in Hin as (a & Ha & Hin). exists a.
      by apply observed_lookup.
    - intros [a Ha]. apply observed_lookup in Ha as [Ha Hid]; [|done]. exists (st_id st).
      split; [|apply String.eqb_refl]. apply list_elem_of_In. rewrite sorted_current_keys, <-Hid.
      by apply list_elem_of_fmap_2. }
  rewrite Hst, Hobs. tauto.
Qed.

Lemma not_observed_nodup artifacts existing (inv : Inventory) :
  well_formed inv -> existing ≡ₚ (map_to_list inv).*2 -> NoDup (st_id <$> not_observed artifacts existing).
Proof.
  intros Hwf Hp.
  assert (Hnd : NoDup (st_id <$> existing)).
  { rewrite Hp. assert (st_id <$> (map_to_list inv).*2 = (map_to_list inv).*1) as ->; [|apply NoDup_fst_map_to_list].
    rewrite <-list_fmap_compose. apply list_fmap_ext. intros ? [i st] Hx. cbn.
    apply list_elem_of_lookup_2, elem_of_map_to_list in Hx. by destruct (Hwf _ _ Hx) as [-> _]. }
  unfold not_observed. rewrite drop_all_filter. by do 2 apply fmap_filter_nodup.
Qed.

Lemma find_stored_list id (l : list StoredAgentArtifact) st :
  NoDup (st_id <$> l) -> find_stored id l = Some st <-> st ∈ l /\ st_id st = id.
Proof.
  intros Hnd. unfold find_stored. split.
  - intros Hx. apply List.find_some in Hx as [Hin Hid]. apply String.eqb_eq in Hid. by apply list_elem_of_In in Hin.
  - intros [Hin <-]. induction l as [|x l IH]; [by apply elem_of_nil in Hin|]. cbn in Hnd |- *.
    apply NoDup_cons in Hnd as [Hnin Hnd]. apply elem_of_cons in Hin as [<-|Hin]; [by rewrite String.eqb_refl|].
    destruct (String.eqb_spec (st_id x) (st_id st)) as [Heq|]; [|by apply IH].
    destruct Hnin. rewrite Heq. by apply list_elem_of_fmap_2.
Qed.

Lemma loops_merged ms (inv : Inventory) artifacts existing :
  well_formed inv -> existing ≡ₚ (map_to_list inv).*2 -> NoDup (artifact_id <$> artifacts) ->
  bury_all ms (not_observed artifacts existing) (observe_all ms (sorted_current artifacts) inv)
  = merged ms inv artifacts.
Proof.
  intros Hwf Hp Hnd. pose proof (not_observed_nodup artifacts _ _ Hwf Hp) as Hgone.
  apply map_eq. intros id. rewrite bury_all_lookup by done.
  rewrite observe_all_lookup by (by rewrite sorted_current_keys).
  rewrite (find_current artifacts id Hnd), merged_lookup.
  destruct (observed_map artifacts !! id) as [a|] eqn:Ea; cbn.
  - destruct (find_stored id _) as [st|] eqn:E; [|done]. apply find_stored_list in E as [Hst <-]; [|done].
    apply (elem_of_not_observed _ _ _ _ Hwf Hp Hnd) in Hst as (_ & _ & Hn). congruence.
  - destruct (inv !! id) as [st|] eqn:Est; cbn.
    + destruct (Hwf _ _ Est) as [Hid _]. destruct (st_removed_at_ms st) as [t|] eqn:Er.
      * assert (bury ms st = st) as -> by (unfold bury; by rewrite Er).
        destruct (find_stored id _) as [x|] eqn:E; [|done]. apply find_stored_list in E as [Hst <-]; [|done].
        apply (elem_of_not_observed _ _ _ _ Hwf Hp Hnd) in Hst as (Hx & Hr & _). congruence.
      * rewrite (proj2 (find_stored_list id _ st Hgone)); [done|]. split; [|done].
        apply (elem_of_not_observed _ _ _ _ Hwf Hp Hnd). by subst id.
    + destruct (find_stored id _) as [x|] eqn:E; [|done]. apply find_stored_list in E as [Hst <-]; [|done].
      apply (elem_of_not_observed _ _ _ _ Hwf Hp Hnd) in Hst as (Hx & _). congruence.
Qed.

(** ** The drift report *)

(** A list holds exactly the records that satisfy [P], by identifier. *)
Definition listed (P : StoredAgentArtifact -> Prop) (l : list StoredAgentArtifact) : Prop :=
  (forall x, x ∈ l <-> P x) /\ NoDup (st_id <$> l)
  /\ StronglySorted (fun x y => String.leb (st_id x) (st_id y) = true) l.

Record drift_exact (ms : Z) (inv : Inventory) (artifacts : list AgentArtifact) (d : SkillInventoryDrift) : Prop := {
  exact_added : listed (fun x => exists a, a ∈ artifacts /\ inv !! artifact_id a = None
                                  /\ x = observe ms None a) (dr_added d);
  exact_changed : listed (fun x => exists a st, a ∈ artifacts /\ inv !! artifact_id a = Some st
                                  /\ st_removed_at_ms st = None /\ st_artifact st <> a
                                  /\ x = observe ms (Some st) a) (dr_changed d);
  exact_resurrected : listed (fun x => exists a st, a ∈ artifacts /\ inv !! artifact_id a = Some st
                                  /\ is_Some (st_removed_at_ms st) /\ x = observe ms (Some st) a) (dr_resurrected d);
  exact_removed : listed (fun x => exists st, inv !! st_id st = Some st /\ st_removed_at_ms st = None
                                  /\ (forall a, a ∈ artifacts -> artifact_id a <> st_id st)
                                  /\ x = bury ms st) (dr_removed d)
}.

Lemma listed_sort P l :
  (forall x, x ∈ l <-> P x) -> NoDup (st_id <$> l) -> listed P (sort_rows stored_order l).
Proof.
  intros HP Hnd. split; [|split].
  - intros x. by rewrite elem_of_sort_rows.
  - by rewrite sort_rows_perm.
  - apply sort_rows_sorted; unfold stored_order; [intros x y z; apply leb_trans|intros x y; apply leb_false].
Qed.

Lemma elem_of_drift_of keep ms artifacts (inv : Inventory) x :
  x ∈ drift_of keep ms (sorted_current artifacts) inv <->
  exists a, a ∈ artifacts /\ keep (inv !! artifact_id a) a = true /\ x = observe ms (inv !! artifact_id a) a.
Proof.
  unfold drift_of. rewrite list_elem_of_omap. split.
  - intros ([i a] & Hin & Hx). apply elem_of_sorted_current in Hin as [Ha ->]. cbn in Hx.
    destruct (keep _ a) eqn:E; [|done]. injection Hx as <-. eauto.
  - intros (a & Ha & Hk & ->). exists (artifact_id a, a). split; [by apply elem_of_sorted_current|]. cbn. by rewrite Hk.
Qed.

Lemma observe_id ms (inv : Inventory) a :
  well_formed inv -> st_id (observe ms (inv !! artifact_id a) a) = artifact_id a.
Proof. intros Hwf. destruct (inv !! artifact_id a) as [st|] eqn:E; [|done]. cbn. by destruct (Hwf _ _ E). Qed.

Lemma drift_of_nodup keep ms artifacts (inv : Inventory) :
  well_formed inv -> NoDup (artifact_id <$> artifacts) ->
  NoDup (st_id <$> drift_of keep ms (sorted_current artifacts) inv).
Proof.
  intros Hwf Hnd. rewrite <-sorted_current_keys in Hnd.
  assert (Hk : forall x, x ∈ sorted_current artifacts -> x.1 = artifact_id x.2).
  { intros [i a] Hx. by apply elem_of_sorted_current in Hx as [_ ->]. }
  induction (sorted_current artifacts) as [|[i a] l IH]; [constructor|].
  cbn in Hnd. apply NoDup_cons in Hnd as [Hnin Hnd].
  assert (IH' : NoDup (st_id <$> drift_of keep ms l inv)) by (apply IH; [done|intros x Hx; apply Hk; by right]).
  unfold drift_of. cbn [omap list_omap]. cbn [fst snd]. destruct (keep (inv !! i) a); [|done]. cbn [fmap list_fmap].
  constructor; [|done]. assert (i = artifact_id a) as -> by (apply (Hk (i, a)); by left).
  rewrite observe_id by done. intros Hin. apply Hnin. apply list_elem_of_fmap in Hin as (x & Hx & Hin).
  apply list_elem_of_omap in Hin as ([j b] & Hin & Hb). cbn in Hb. destruct (keep _ b); [|done]. injection Hb as <-.
  assert (j = artifact_id b) as -> by (apply (Hk (j, b)); by right). rewrite observe_id in Hx by done.
  apply list_elem_of_fmap. exists (artifact_id b, b). done.
Qed.

Lemma drift_lists ms artifacts existing (inv : Inventory) :
  well_formed inv -> existing ≡ₚ (map_to_list inv).*2 -> NoDup (artifact_id <$> artifacts) ->
  let d := drift_all ms (sorted_current artifacts) inv drift_default in
  drift_exact ms inv artifacts (sort_inventory_drift
    {| dr_added := dr_added d; dr_changed := dr_changed d;
       dr_removed := dr_removed d ++ (bury ms <$> not_observed artifacts existing);
       dr_resurrected := dr_resurrected d |}).
Proof.
  intros Hwf Hp Hnd d. destruct (drift_all_lists ms (sorted_current artifacts) inv drift_default) as (Ea & Ec & Eb & Er).
  fold d in Ea, Ec, Eb, Er. unfold sort_inventory_drift. cbn in Ea, Ec, Eb, Er |- *. rewrite Ea, Ec, Eb, Er. split; cbn.
  - apply listed_sort; [|by apply drift_of_nodup]. intros x. rewrite elem_of_drift_of. unfold is_new.
    setoid_rewrite bool_decide_eq_true. split.
    + intros (a & Ha & Hn & ->). exists a. rewrite Hn. done.
    + intros (a & Ha & Hn & ->). exists a. rewrite Hn. done.
  - apply listed_sort; [|by apply drift_of_nodup]. intros x. rewrite elem_of_drift_of. unfold is_changed. split.
    + intros (a & Ha & Hn & ->). destruct (inv !! artifact_id a) as [st|] eqn:E; [|done].
      apply andb_true_iff in Hn as [Hr%bool_decide_eq_true Hne%negb_true_iff%bool_decide_eq_false]. by exists a, st.
    + intros (a & st & Ha & E & Hr & Hne & ->). exists a. rewrite E. split; [done|]. split; [|done].
      by rewrite bool_decide_eq_true_2, bool_decide_eq_false_2.
  - apply listed_sort; [|by apply drift_of_nodup]. intros x. rewrite elem_of_drift_of. unfold is_back. split.
    + intros (a & Ha & Hn & ->). destruct (inv !! artifact_id a) as [st|] eqn:E; [|done].
      apply bool_decide_eq_true in Hn. by exists a, st.
    + intros (a & st & Ha & E & Hr & ->). exists a. rewrite E. split; [done|]. split; [|done].
      by apply bool_decide_eq_true.
  - apply listed_sort.
    + intros x. rewrite list_elem_of_fmap. split.
      * intros (st & -> & Hst). apply (elem_of_not_observed _ _ _ _ Hwf Hp Hnd) in Hst as (Hi & Hr & Hn).
        exists st. split_and!; try done. intros a Ha Hid. rewrite (proj2 (observed_lookup artifacts _ a Hnd)) in Hn; done.
      * intros (st & Hi & Hr & Hn & ->). exists st. split; [done|].
        apply (elem_of_not_observed _ _ _ _ Hwf Hp Hnd). split_and!; try done.
        destruct (observed_map artifacts !! st_id st) as [a|] eqn:E; [|done].
        apply observed_lookup in E as [Ha Hid]; [|done]. by destruct (Hn a).
    + rewrite <-list_fmap_compose. erewrite list_fmap_ext; [by eapply not_observed_nodup|].
      intros ? st _. cbn. unfold bury. by destruct (st_removed_at_ms st).
Qed.

End outcome.
