(* ===== verification/InventoryState.v ===== *)
(** * Rescans of the store

    What [rescan_skill_inventory] leaves and returns, on every branch: the
    observation it accepts, the one it has seen, and the ones it refuses. *)

From S2P Require Import Prelude Core Policy FlowDef FlowData FlowSnapshot Artifact StoreDef StoreFlow.
From S2P Require Import StoreQueue StoreAudit StoreAccess StoreAuth StoreView Inventory StoreStep StoreEffect.
From S2P Require Import StoreFrame StoreApproval StoreInv InventorySpec InventoryProof InventoryRescan.
From Stdlib Require Import Sorted.

Local Open Scope Z_scope.
#[local] Notation Inventory := (gmap AgentArtifactId StoredAgentArtifact).

Definition observation (p : ProjectId) (s : Store) : option Z := artifact_inventory (skills s) !! p.

Section state.
Context `{Sha256}.

(** The tables hold the inventory [inv] of the project, no younger than its
    last observation, with a bounded number of tombstones. *)
Definition project_inventory (p : ProjectId) (inv : Inventory) (s : Store) : Prop :=
  holds p inv s /\ (size (tombs inv) <= TOMBSTONE_CAP)%nat
  /\ match observation p s with
     | Some last => 0 <= last <= i64_max /\ inventory_ok last inv
     | None => inv = ∅
     end.

Lemma project_inventory_ok p inv s ms :
  project_inventory p inv s -> (forall last, observation p s = Some last -> last < ms) -> inventory_ok ms inv.
Proof.
  intros (_ & _ & Hobs) Hlast. destruct (observation p s) as [last|].
  - destruct Hobs as [_ Hok]. specialize (Hlast _ eq_refl). intros id st Hst.
    destruct (Hok id st Hst) as (? & ? & ?). split_and!; [done|done|lia].
  - subst inv. apply map_Forall_empty.
Qed.

Lemma project_inventory_wf p inv s : project_inventory p inv s -> well_formed inv.
Proof.
  intros (_ & _ & Hobs). destruct (observation p s) as [last|].
  - destruct Hobs as [_ Hok]. by eapply inventory_well_formed.
  - subst inv. apply map_Forall_empty.
Qed.

(** A valid observation of the project's artifacts. *)
Record snapshot_ok (artifacts : list AgentArtifact) : Prop := {
  snapshot_artifacts : Forall artifact_ok artifacts;
  snapshot_distinct : NoDup (artifact_id <$> artifacts)
}.

Lemma merged_ok ms (inv : Inventory) artifacts :
  0 <= ms <= i64_max -> inventory_ok ms inv -> snapshot_ok artifacts -> inventory_ok ms (merged ms inv artifacts).
Proof.
  intros Hms Hok [Ha Hnd] id st. rewrite merged_lookup.
  destruct (observed_map artifacts !! id) as [a|] eqn:Ea; cbn [next_stored].
  - intros [= <-]. apply observed_lookup in Ea as [Hin <-]; [|done].
    destruct (observe_ok ms ms (inv !! artifact_id a) a) as (? & ? & ? & _); [|done|lia| |by split_and!].
    + by apply (proj1 (Forall_forall _ _) Ha).
    + intros x Hx. destruct (Hok _ _ Hx) as (? & ? & ?). by split_and!.
  - destruct (inv !! id) as [x|] eqn:Ex; [|done]. intros [= <-]. destruct (Hok _ _ Ex) as (Hid & Hsok & Hl).
    destruct (bury_ok ms ms x) as (Hb & ? & ? & _); [done|done|lia|done|]. by rewrite Hb.
Qed.

(** The part of the store a rescan may change. *)
Definition only_inventory (p : ProjectId) (s s' : Store) : Prop :=
  (exists ps t, s' = set_skills (set_projects s ps) t /\ (ps = projects s \/ projects s !! p = None /\ ps = <[p := 1]> (projects s)))
  /\ forall q, q <> p -> agent_artifacts (skills s') !! q = agent_artifacts (skills s) !! q
                      /\ observation q s' = observation q s.

Context (sha256_bytes : forall x, String.length (sha256 x) = 32%nat).

Lemma insert_project_skills p s :
  exists s1, insert_project p s = Ok (s1, tt) /\ is_Some (projects s1 !! p)
    /\ s1 = set_projects s (projects s1)
    /\ (projects s1 = projects s \/ projects s !! p = None /\ projects s1 = <[p := 1]> (projects s)).
Proof.
  unfold insert_project. destruct (projects s !! p) as [n|] eqn:E.
  - exists s. rewrite E. split; [done|]. split; [eauto|]. split; [by destruct s|by left].
  - eexists. split; [done|]. cbn. rewrite lookup_insert_eq. split; [eauto|]. split; [done|by right].
Qed.

(** The listing and the two loops. *)
Lemma loops_hold p (inv : Inventory) artifacts ms s :
  holds p inv s -> inventory_ok ms inv -> is_Some (projects s !! p) -> 0 <= ms <= i64_max ->
  snapshot_ok artifacts -> no_collision inv artifacts ->
  exists existing left_over d s1 d' s2,
    all_skill_artifacts p s = Ok (s, existing)
    /\ reconcile_loop p ms ms (sorted_current artifacts) existing drift_default s = Ok (s1, (left_over, d))
    /\ remove_loop p ms ms (List.filter (fun st => bool_decide (st_removed_at_ms st = None)) left_over) d s1
       = Ok (s2, d')
    /\ holds p (merged ms inv artifacts) s2 /\ drift_exact ms inv artifacts (sort_inventory_drift d')
    /\ rows_moved p s s2.
Proof using sha256_bytes.
  intros Hinv Hok Hp Hms [Hart Hnd] Hcoll. pose proof (inventory_well_formed _ _ Hok) as Hwf.
  destruct (all_skill_artifacts_holds sha256_bytes p inv s Hinv Hwf) as (existing & H3 & Hex).
  destruct (reconcile_loop_holds sha256_bytes p ms (sorted_current artifacts) existing inv drift_default s)
    as (s4 & H4 & Hinv4 & Hok4 & Hm4); try done.
  { by apply sorted_current_ok. }
  { intros id _. by apply find_stored_inventory. }
  { intros id st a Hst Ha Hid. eapply Hcoll; [done| |done]. apply list_elem_of_fmap in Ha as ([i b] & -> & Hb).
    by apply elem_of_sorted_current in Hb as [? _]. }
  set (d := drift_all _ _ _ _) in H4.
  destruct (remove_loop_holds sha256_bytes p ms (not_observed artifacts existing)
              (observe_all ms (sorted_current artifacts) inv) d s4) as (s5 & H5 & Hinv5 & _ & Hm5); try done.
  { by eapply not_observed_nodup. }
  { apply Forall_forall. intros st Hst.
    apply (elem_of_not_observed _ _ _ _ Hwf Hex Hnd) in Hst as (Hst & Hr & Hn). split; [|done].
    rewrite observe_all_lookup by (by rewrite sorted_current_keys). by rewrite (find_current _ _ Hnd), Hn. }
  rewrite (loops_merged ms inv artifacts existing) in Hinv5 by done.
  exists existing, (drop_all (sorted_current artifacts) existing), d, s4. eexists _, s5.
  split; [done|]. split; [done|]. split; [done|]. split; [done|]. split; [by apply drift_lists|by etrans].
Qed.

Lemma apply_rescan_holds p (inv : Inventory) artifacts ms s :
  project_inventory p inv s -> (forall last, observation p s = Some last -> last < ms) -> 0 <= ms <= i64_max ->
  snapshot_ok artifacts -> no_collision inv artifacts ->
  exists s' drift inv', apply_rescan p (sorted_current artifacts) ms ms s = Ok (s', drift)
    /\ holds p inv' s' /\ pruned (merged ms inv artifacts) inv' /\ observation p s' = Some ms
    /\ drift_exact ms inv artifacts drift /\ only_inventory p s s'.
Proof using sha256_bytes.
  intros Hpi Hlast Hms Hsnap Hcoll. pose proof Hpi as (Hinv & Hcap & _).
  pose proof (project_inventory_ok _ _ _ _ Hpi Hlast) as Hok.
  destruct (insert_project_skills p s) as (s1 & H1 & Hp & Es1 & Hps).
  assert (Hinv1 : holds p inv s1) by (rewrite Es1; exact Hinv).
  destruct (loops_hold p inv artifacts ms s1)
    as (existing & left_over & d & s2 & d' & s3 & H3 & H4 & H5 & Hinv3 & Hd & Hm3); try done.
  set (s4 := set_skills s3 {| agent_artifacts := agent_artifacts (skills s3);
                              artifact_inventory := <[p := ms]> (artifact_inventory (skills s3)) |}).
  assert (H6 : set_observation p ms s3 = Ok (s4, tt)).
  { unfold set_observation. rewrite (proj2 (Z.leb_le 0 ms)) by lia.
    by rewrite (rows_moved_projects _ _ _ Hm3), (bool_decide_eq_true_2 _ Hp). }
  destruct (prune_holds p (merged ms inv artifacts) s4 Hinv3) as (s5 & inv5 & H7 & Hinv5 & Hpr5 & Hm5).
  exists s5, (sort_inventory_drift d'), inv5. split.
  { unfold apply_rescan. rewrite (bind_Ok _ _ _ _ _ H1). cbn beta.
    rewrite (bind_Ok _ _ _ _ _ (prune_below p inv s1 Hinv1 Hcap)). cbn beta.
    rewrite (bind_Ok _ _ _ _ _ H3). cbn beta. rewrite (bind_Ok _ _ _ _ _ H4). cbn beta iota.
    rewrite (bind_Ok _ _ _ _ _ H5). cbn beta. rewrite (bind_Ok _ _ _ _ _ H6). cbn beta.
    by rewrite (bind_Ok _ _ _ _ _ H7). }
  destruct Hm3 as ([t3 E3] & Ho3 & Hq3), Hm5 as ([t5 E5] & Ho5 & Hq5).
  split; [done|]. split; [done|]. split.
  { unfold observation. rewrite Ho5. cbn. by rewrite lookup_insert_eq. }
  split; [done|]. split.
  - exists (projects s1), t5. split; [|done]. rewrite E5. unfold s4. rewrite E3, Es1. done.
  - intros q Hq. rewrite (Hq5 q Hq). unfold s4. cbn. rewrite (Hq3 q Hq), Es1. split; [done|].
    unfold observation. rewrite Ho5. cbn. rewrite lookup_insert_ne by done. by rewrite Ho3, Es1.
Qed.

(** ** The branches of a rescan *)

Lemma rescan_tx_unfold p artifacts ms s :
  ms <= i64_max -> NoDup (artifact_id <$> artifacts) ->
  rescan_tx p artifacts ms s = rescan_skill_inventory_in_transaction p (sorted_current artifacts) ms ms s.
Proof.
  intros Hms Hnd. unfold rescan_tx, sql_integer. rewrite (proj2 (Z.leb_le ms i64_max)) by done.
  rewrite (bind_Ok _ _ s s ms) by done. rewrite (current_Ok _ Hnd). by rewrite (bind_Ok _ _ s s (sorted_current artifacts)).
Qed.

Lemma observation_read p (inv : Inventory) s :
  project_inventory p inv s -> skill_inventory_observation p s = Ok (s, observation p s).
Proof.
  intros (_ & _ & Hobs). unfold skill_inventory_observation. rewrite (bind_Ok _ _ s s _ eq_refl).
  unfold observation in *. destruct (artifact_inventory (skills s) !! p) as [last|]; cbn; [|done].
  unfold inventory_integer. by rewrite (proj2 (Z.leb_le 0 last)) by lia.
Qed.

Lemma rescan_accepted p (inv : Inventory) artifacts ms s :
  project_inventory p inv s -> (forall last, observation p s = Some last -> last < ms) -> 0 <= ms <= i64_max ->
  snapshot_ok artifacts ->
  rescan_tx p artifacts ms s = apply_rescan p (sorted_current artifacts) ms ms s.
Proof.
  intros Hpi Hlast Hms [_ Hnd]. rewrite rescan_tx_unfold by (done || lia).
  unfold rescan_skill_inventory_in_transaction. rewrite (bind_Ok _ _ _ _ _ (observation_read _ _ _ Hpi)).
  destruct (observation p s) as [last|]; [|done]. specialize (Hlast _ eq_refl).
  by rewrite (proj2 (Z.ltb_ge ms last)), (proj2 (Z.eqb_neq ms last)) by lia.
Qed.

Lemma elem_of_active (inv : Inventory) st :
  well_formed inv -> st ∈ active inv <-> inv !! st_id st = Some st /\ st_removed_at_ms st = None.
Proof.
  intros Hwf. unfold active. rewrite list_elem_of_In, List.filter_In, <-list_elem_of_In.
  unfold is_active_stored. rewrite bool_decide_eq_true, list_elem_of_fmap. split.
  - intros [([i x] & -> & Hx) Hr]. apply elem_of_map_to_list in Hx. cbn in *. by destruct (Hwf _ _ Hx) as [-> _].
  - intros [Hst Hr]. split; [|done]. exists (st_id st, st). split; [done|by apply elem_of_map_to_list].
Qed.

Lemma active_ids (inv : Inventory) :
  well_formed inv -> st_id <$> active inv = artifact_id <$> (st_artifact <$> active inv).
Proof.
  intros Hwf. rewrite <-list_fmap_compose. apply list_fmap_ext. intros i st Hst. apply list_elem_of_lookup_2 in Hst.
  apply elem_of_active in Hst as [Hst _]; [|done]. by destruct (Hwf _ _ Hst) as (_ & _ & -> & _).
Qed.

Lemma active_nodup (inv : Inventory) : well_formed inv -> NoDup (st_id <$> active inv).
Proof.
  intros Hwf. unfold active. apply fmap_filter_nodup.
  assert (st_id <$> (map_to_list inv).*2 = (map_to_list inv).*1) as ->; [|apply NoDup_fst_map_to_list].
  rewrite <-list_fmap_compose. apply list_fmap_ext. intros ? [i st] Hx. cbn.
  apply list_elem_of_lookup_2, elem_of_map_to_list in Hx. by destruct (Hwf _ _ Hx) as [-> _].
Qed.

Lemma active_matches p (inv : Inventory) artifacts s :
  holds p inv s -> well_formed inv -> NoDup (artifact_id <$> artifacts) ->
  exists b, active_skill_inventory_matches p (sorted_current artifacts) s = Ok (s, b)
    /\ (b = true <-> st_artifact <$> active inv ≡ₚ artifacts).
Proof using sha256_bytes.
  intros Hinv Hwf Hnd. destruct (list_skill_artifacts_holds sha256_bytes p inv s Hinv Hwf) as (l & Hl & Hp & _).
  unfold active_skill_inventory_matches. rewrite (bind_Ok _ _ _ _ _ Hl). eexists. split; [done|].
  rewrite <-Hp. pose proof (active_nodup inv Hwf) as Hids. rewrite (active_ids inv Hwf), <-Hp in Hids.
  assert (Hst : forall st, st ∈ l -> st_id st = artifact_id (st_artifact st)).
  { intros st Hin. rewrite Hp in Hin. apply elem_of_active in Hin as [Hin _]; [|done].
    by destruct (Hwf _ _ Hin) as (_ & _ & Hid & _). }
  assert (Hlen : length (sorted_current artifacts) = length artifacts).
  { by rewrite (Permutation_length (sorted_current_perm artifacts)), length_fmap. }
  rewrite andb_true_iff, Nat.eqb_eq, forallb_forall, Hlen. split.
  - intros [Hl' Hall]. apply NoDup_Permutation_bis.
    + apply NoDup_ListNoDup. by apply NoDup_fmap_1 in Hids.
    + by rewrite length_fmap, Hl'.
    + intros a Ha. apply list_elem_of_In, list_elem_of_fmap in Ha as (st & -> & Hin).
      apply list_elem_of_In in Hin as Hin'. specialize (Hall st Hin'). rewrite (find_current _ _ Hnd) in Hall.
      destruct (observed_map artifacts !! st_id st) as [a|] eqn:Ea; [|done]. cbn in Hall.
      apply bool_decide_eq_true in Hall as <-. apply observed_lookup in Ea as [Ha _]; [|done].
      by apply list_elem_of_In.
  - intros Hperm. split; [by rewrite <-(Permutation_length Hperm), length_fmap|].
    intros st Hin%list_elem_of_In. rewrite (find_current _ _ Hnd).
    rewrite (proj2 (observed_lookup artifacts (st_id st) (st_artifact st) Hnd)).
    + cbn. by apply bool_decide_eq_true.
    + split; [|symmetry; by apply Hst]. rewrite <-Hperm. by apply list_elem_of_fmap_2.
Qed.

(** The same observation again changes nothing; another one at the same time is
    a conflict. *)
Lemma rescan_seen p (inv : Inventory) artifacts ms s :
  project_inventory p inv s -> observation p s = Some ms -> snapshot_ok artifacts ->
  rescan_skill_inventory p artifacts ms s
  = (s, if bool_decide (st_artifact <$> active inv ≡ₚ artifacts) then Ok drift_default
        else Err (SkillInventoryObservationConflict p ms)).
Proof using sha256_bytes.
  intros Hpi Hobs [_ Hnd]. pose proof Hpi as (Hinv & Hcap & Hlast). rewrite Hobs in Hlast.
  unfold rescan_skill_inventory, transaction. rewrite rescan_tx_unfold by (done || lia).
  unfold rescan_skill_inventory_in_transaction.
  rewrite (bind_Ok _ _ _ _ _ (observation_read _ _ _ Hpi)), Hobs. cbn beta iota.
  rewrite Z.ltb_irrefl, Z.eqb_refl.
  destruct (active_matches p inv artifacts s) as (b & Hb & Hiff); [done|by eapply project_inventory_wf|done|].
  rewrite (bind_Ok _ _ _ _ _ Hb). destruct b.
  - rewrite bool_decide_eq_true_2 by by apply Hiff. by rewrite (bind_Ok _ _ _ _ _ (prune_below _ _ _ Hinv Hcap)).
  - rewrite bool_decide_eq_false_2; [done|]. intros Hx. by apply Hiff in Hx.
Qed.

(** What a rescan refuses, leaving the store alone. *)
Lemma rescan_regression p (inv : Inventory) artifacts ms last s :
  project_inventory p inv s -> observation p s = Some last -> ms < last -> NoDup (artifact_id <$> artifacts) ->
  rescan_skill_inventory p artifacts ms s = (s, Err (SkillInventoryObservationRegression p ms last)).
Proof.
  intros Hpi Hobs Hlt Hnd. pose proof Hpi as (_ & _ & Hlast). rewrite Hobs in Hlast.
  unfold rescan_skill_inventory, transaction. rewrite rescan_tx_unfold by (done || lia).
  unfold rescan_skill_inventory_in_transaction.
  rewrite (bind_Ok _ _ _ _ _ (observation_read _ _ _ Hpi)), Hobs. cbn beta iota.
  by rewrite (proj2 (Z.ltb_lt ms last)).
Qed.

Lemma rescan_duplicate p artifacts ms s :
  ms <= i64_max -> ~ NoDup (artifact_id <$> artifacts) ->
  rescan_skill_inventory p artifacts ms s
  = (s, Err (InvalidSkillInventory "snapshot contains a duplicate artifact identity")).
Proof.
  intros Hms Hnd. unfold rescan_skill_inventory, transaction, rescan_tx, sql_integer.
  rewrite (proj2 (Z.leb_le ms i64_max)) by done. rewrite (bind_Ok _ _ s s ms) by done.
  unfold current_skill_artifacts. rewrite bool_decide_eq_false_2; [done|]. by rewrite <-list_fmap_compose.
Qed.

Lemma rescan_out_of_range p artifacts ms s :
  i64_max < ms -> rescan_skill_inventory p artifacts ms s = (s, Err (TimestampOutOfRange ms)).
Proof.
  intros Hms. unfold rescan_skill_inventory, transaction, rescan_tx, sql_integer.
  by rewrite (proj2 (Z.leb_gt ms i64_max)) by lia.
Qed.

(** ** An observation that is accepted *)

Lemma active_pruned (inv inv' : Inventory) st :
  well_formed inv -> pruned inv inv' -> st ∈ active inv' <-> st ∈ active inv.
Proof.
  intros Hwf Hp. assert (Hwf' : well_formed inv').
  { intros id x Hx. apply Hwf. by eapply lookup_weaken, pruned_sub. }
  rewrite !elem_of_active by done. split; intros [Hst Hr]; split; try done.
  - by eapply lookup_weaken, pruned_sub.
  - by eapply pruned_active.
Qed.

(** After the observation the active artifacts are the observed ones. *)
Lemma active_merged ms (inv inv' : Inventory) artifacts :
  well_formed (merged ms inv artifacts) -> pruned (merged ms inv artifacts) inv' -> snapshot_ok artifacts ->
  st_artifact <$> active inv' ≡ₚ artifacts.
Proof.
  intros Hwf Hp [_ Hnd]. assert (Hwf' : well_formed inv').
  { intros id x Hx. apply Hwf. by eapply lookup_weaken, pruned_sub. }
  pose proof (active_nodup _ Hwf') as Hids. rewrite (active_ids _ Hwf') in Hids.
  apply NoDup_Permutation; [by apply NoDup_fmap_1 in Hids|by apply NoDup_fmap_1 in Hnd|].
  intros a. rewrite list_elem_of_fmap. split.
  - intros (st & -> & Hst). apply (active_pruned _ _ _ Hwf Hp), elem_of_active in Hst as [Hst Hr]; [|done].
    rewrite merged_lookup in Hst. destruct (observed_map artifacts !! st_id st) as [b|] eqn:Eb; cbn in Hst.
    + apply observed_lookup in Eb as [Hb _]; [|done]. injection Hst as <-. by destruct (inv !! _).
    + destruct (inv !! st_id st) as [x|] eqn:Ex; [|done]. injection Hst as Hx. rewrite <-Hx in Hr.
      unfold bury in Hr. destruct (st_removed_at_ms x) eqn:Er; [congruence|done].
  - intros Ha. assert (Ho : observed_map artifacts !! artifact_id a = Some a) by (by apply observed_lookup).
    assert (Hm : merged ms inv artifacts !! artifact_id a = Some (observe ms (inv !! artifact_id a) a)).
    { by rewrite merged_lookup, Ho. }
    exists (observe ms (inv !! artifact_id a) a). split; [by destruct (inv !! _)|].
    apply (active_pruned _ _ _ Hwf Hp), elem_of_active; [done|]. destruct (Hwf _ _ Hm) as [Hid _].
    rewrite Hid. split; [done|]. by destruct (inv !! _).
Qed.

(** The listing holds the observed artifacts, in the order of the columns. *)
Definition lists (p : ProjectId) (artifacts : list AgentArtifact) (s : Store) : Prop :=
  exists l, list_skill_artifacts p s = Ok (s, l) /\ st_artifact <$> l ≡ₚ artifacts
            /\ StronglySorted (fun x y => listed_before x y = true) l.

Lemma active_lists p (inv : Inventory) artifacts s :
  holds p inv s -> well_formed inv -> st_artifact <$> active inv ≡ₚ artifacts -> lists p artifacts s.
Proof using sha256_bytes.
  intros Hinv Hwf Hact. destruct (list_skill_artifacts_holds sha256_bytes p inv s Hinv Hwf) as (l & Hl & Hp & Hs).
  exists l. split; [done|]. split; [|done]. by rewrite Hp.
Qed.

Lemma rescan_step p (inv : Inventory) artifacts ms s :
  project_inventory p inv s -> (forall last, observation p s = Some last -> last < ms) -> 0 <= ms <= i64_max ->
  snapshot_ok artifacts -> no_collision inv artifacts ->
  exists s' drift inv', rescan_skill_inventory p artifacts ms s = (s', Ok drift)
    /\ observation p s' = Some ms /\ project_inventory p inv' s' /\ pruned (merged ms inv artifacts) inv'
    /\ drift_exact ms inv artifacts drift /\ lists p artifacts s' /\ only_inventory p s s'.
Proof using sha256_bytes.
  intros Hpi Hlast Hms Hsnap Hcoll.
  destruct (apply_rescan_holds p inv artifacts ms s)
    as (s' & drift & inv' & Hx & Hinv' & Hpr & Hobs & Hd & Honly); try done.
  pose proof (merged_ok ms inv artifacts Hms (project_inventory_ok _ _ _ _ Hpi Hlast) Hsnap) as Hok.
  exists s', drift, inv'. split.
  { unfold rescan_skill_inventory, transaction. rewrite (rescan_accepted p inv) by done. by rewrite Hx. }
  split; [done|]. split.
  { split; [done|]. split; [rewrite (pruned_size _ _ Hpr); lia|]. rewrite Hobs.
    split; [done|]. by eapply pruned_inventory_ok. }
  split; [done|]. split; [done|]. split; [|done].
  eapply active_lists; [done|eapply inventory_well_formed, pruned_inventory_ok; done|].
  eapply active_merged; [eapply inventory_well_formed| |]; done.
Qed.

End state.

(** ** The skill inventory over a history of calls

    The inventory invariant holds after every sequence of calls of the store,
    and the listing of a project is its last accepted observation. *)

Section history.
Context `{Sha256} `{FlowCodec} (sha256_bytes : forall x, String.length (sha256 x) = 32%nat).

(** ** One rescan *)

(** C32: a rescan at a later time than the last observation of the project
    succeeds and is exact: the inventory becomes the old one with every observed
    artifact added, refreshed or brought back and every other one marked as
    removed, less the oldest tombstones beyond the cap; the four drift lists
    hold exactly the artifacts that are new, changed, back and gone, in order of
    their identifiers; the listing holds the observed artifacts; and nothing
    else of the store changes, but that the project now exists. The artifacts of one snapshot
    are distinct and valid, no two identifiers collide under the hash, and the
    time is within [i64]. *)
Theorem rescan_exact p (inv : Inventory) artifacts ms s :
  project_inventory p inv s -> (forall last, observation p s = Some last -> last < ms) -> 0 <= ms <= i64_max ->
  snapshot_ok artifacts -> no_collision inv artifacts ->
  exists s' drift inv', rescan_skill_inventory p artifacts ms s = (s', Ok drift)
    /\ observation p s' = Some ms /\ project_inventory p inv' s' /\ pruned (merged ms inv artifacts) inv'
    /\ drift_exact ms inv artifacts drift /\ lists p artifacts s' /\ only_inventory p s s'.
Proof using sha256_bytes. by apply rescan_step. Qed.

(** A rescan that does not observe anything new leaves the store as it is: the
    last observation again is answered with an empty drift, other artifacts at
    the same time are a conflict, an earlier time is a regression, an artifact
    observed twice makes the snapshot invalid, and a time beyond the integers of
    the database is out of range. *)
Theorem rescan_refusals p (inv : Inventory) artifacts ms s :
  project_inventory p inv s -> Forall artifact_ok artifacts ->
  (i64_max < ms \/ ~ NoDup (artifact_id <$> artifacts) \/ exists last, observation p s = Some last /\ ms <= last) ->
  rescan_skill_inventory p artifacts ms s
  = (s, if i64_max <? ms then Err (TimestampOutOfRange ms)
        else if bool_decide (NoDup (artifact_id <$> artifacts)) then
          match observation p s with
          | Some last =>
            if ms <? last then Err (SkillInventoryObservationRegression p ms last)
            else if bool_decide (st_artifact <$> active inv ≡ₚ artifacts) then Ok drift_default
            else Err (SkillInventoryObservationConflict p ms)
          | None => Ok drift_default
          end
        else Err (InvalidSkillInventory "snapshot contains a duplicate artifact identity")).
Proof using sha256_bytes.
  intros Hpi Hart Hcase. destruct (Z.ltb_spec i64_max ms) as [Hms|Hms]; [by apply rescan_out_of_range|].
  case_bool_decide as Hnd; [|by apply rescan_duplicate].
  destruct Hcase as [?|[?|(last & Hobs & Hle)]]; [lia|done|]. rewrite Hobs.
  destruct (Z.ltb_spec ms last); [by eapply rescan_regression|].
  assert (last = ms) as -> by lia. by apply (rescan_seen sha256_bytes).
Qed.

(** ** Every call *)

(** The artifacts the calls observe. *)
Definition observes (c : StoreCall) : list AgentArtifact :=
  match c with CallRescanSkills _ artifacts _ => artifacts | _ => [] end.
Definition all_observed (calls : list StoreCall) : list AgentArtifact := calls ≫= observes.

(** Among them, equal identifiers belong to equal identities. *)
Definition collision_free (known : list AgentArtifact) : Prop :=
  forall a b, a ∈ known -> b ∈ known -> artifact_id a = artifact_id b -> identity a = identity b.

(** The arguments a rescan can have: artifacts built by [new], an unsigned time. *)
Definition rescan_typed (c : StoreCall) : Prop :=
  match c with CallRescanSkills _ artifacts ms => Forall artifact_ok artifacts /\ 0 <= ms | _ => True end.

Definition inventory_inv (known : list AgentArtifact) (s : Store) : Prop :=
  forall p, exists inv, project_inventory p inv s
    /\ forall id st, inv !! id = Some st -> exists a, a ∈ known /\ identity (st_artifact st) = identity a.

Lemma inventory_inv_empty known : inventory_inv known empty_store.
Proof.
  intros p. exists ∅. split; [|intros id st; by rewrite lookup_empty].
  split; [|split; [|done]]; [|unfold tombs; rewrite map_filter_empty, map_size_empty; lia].
  unfold holds, project_artifacts. cbn. by rewrite lookup_empty, fmap_empty.
Qed.

Lemma known_no_collision known (inv : Inventory) artifacts last :
  collision_free known -> inventory_ok last inv -> (forall a, a ∈ artifacts -> a ∈ known) ->
  (forall id st, inv !! id = Some st -> exists a, a ∈ known /\ identity (st_artifact st) = identity a) ->
  no_collision inv artifacts.
Proof.
  intros Hfree Hok Hin Hknown id st a Hst Ha Hid. destruct (Hknown _ _ Hst) as (b & Hb & Heq). rewrite Heq.
  apply Hfree; [done|by apply Hin|]. destruct (Hok _ _ Hst) as (Hi & (_ & Hi' & _) & _).
  rewrite Hid, <-Hi, Hi'. unfold artifact_id. by rewrite Heq.
Qed.

(** What the records of an observation are about. *)
Lemma merged_identity ms (inv : Inventory) artifacts id st :
  snapshot_ok artifacts -> merged ms inv artifacts !! id = Some st ->
  st_artifact st ∈ artifacts
  \/ exists x, inv !! id = Some x /\ st_artifact st = st_artifact x.
Proof.
  intros [_ Hnd]. rewrite merged_lookup. destruct (observed_map artifacts !! id) as [a|] eqn:Ea; cbn.
  - intros [= <-]. left. apply observed_lookup in Ea as [Ha _]; [|done]. by destruct (inv !! id).
  - destruct (inv !! id) as [x|]; [|done]. intros [= <-]. right. exists x. split; [done|].
    unfold bury. by destruct (st_removed_at_ms x).
Qed.

(** A rescan is at a new time, or changes nothing. *)
Lemma rescan_cases p (inv : Inventory) artifacts ms s :
  project_inventory p inv s -> Forall artifact_ok artifacts ->
  (rescan_skill_inventory p artifacts ms s).1 = s
  /\ (forall d, (rescan_skill_inventory p artifacts ms s).2 = Ok d -> st_artifact <$> active inv ≡ₚ artifacts)
  \/ snapshot_ok artifacts /\ ms <= i64_max /\ forall last, observation p s = Some last -> last < ms.
Proof using sha256_bytes.
  intros Hpi Hart. destruct (decide (ms <= i64_max)) as [Hmax|Hmax];
    [|left; by rewrite rescan_out_of_range by lia].
  destruct (decide (NoDup (artifact_id <$> artifacts))) as [Hnd|Hnd]; [|left; by rewrite rescan_duplicate].
  assert (Hcase : (exists last, observation p s = Some last /\ ms <= last)
                  \/ forall last, observation p s = Some last -> last < ms).
  { destruct (observation p s) as [last|]; [|by right]. destruct (decide (ms <= last)); [left; eauto|].
    right. intros ? [= <-]. lia. }
  destruct Hcase as [(last & Hobs & Hle)|Hlast]; [left|by right].
  destruct (decide (ms = last)) as [->|].
  - rewrite (rescan_seen sha256_bytes p inv) by done. split; [done|]. intros d. cbn. by case_bool_decide.
  - by erewrite (rescan_regression p inv _ _ last) by (done || lia).
Qed.

Lemma project_no_collision known p (inv : Inventory) artifacts s :
  collision_free known -> artifacts ⊆ known -> project_inventory p inv s ->
  (forall id st, inv !! id = Some st -> exists a, a ∈ known /\ identity (st_artifact st) = identity a) ->
  no_collision inv artifacts.
Proof.
  intros Hfree Hin (_ & _ & Hobs) Hknown. destruct (observation p s) as [last|].
  - destruct Hobs as [_ Hok]. by eapply known_no_collision.
  - subst inv. intros id st a Hst. by rewrite lookup_empty in Hst.
Qed.

Lemma rescan_inv known p artifacts ms s :
  collision_free known -> artifacts ⊆ known -> Forall artifact_ok artifacts -> 0 <= ms ->
  inventory_inv known s ->
  inventory_inv known (rescan_skill_inventory p artifacts ms s).1
  /\ (forall q, q <> p -> agent_artifacts (skills (rescan_skill_inventory p artifacts ms s).1) !! q
                         = agent_artifacts (skills s) !! q)
  /\ forall d, (rescan_skill_inventory p artifacts ms s).2 = Ok d ->
       lists p artifacts (rescan_skill_inventory p artifacts ms s).1.
Proof using sha256_bytes.
  intros Hfree Hin Hart Hms Hinv. destruct (Hinv p) as (inv & Hpi & Hknown).
  destruct (rescan_cases p inv artifacts ms s Hpi Hart) as [[-> Hact]|(Hsnap & Hmax & Hlast)].
  { split; [done|]. split; [done|]. intros d Hd. eapply active_lists; [done|apply Hpi| |by eapply Hact].
    by eapply project_inventory_wf. }
  destruct (rescan_step sha256_bytes p inv artifacts ms s)
    as (s' & d & inv' & -> & Hobs & Hpi' & Hpr & _ & Hl & Honly); try done; [by eapply project_no_collision|].
  cbn [fst snd]. destruct Honly as [_ Hsame]. split; [|split; [intros q Hq; by apply Hsame|done]].
  intros q. destruct (decide (q = p)) as [->|Hq].
  - exists inv'. split; [done|]. intros id st Hst.
    assert (Hm : merged ms inv artifacts !! id = Some st) by (by eapply lookup_weaken, pruned_sub).
    destruct (merged_identity _ _ _ _ _ Hsnap Hm) as [Ha|(x & Hx & ->)]; [|by eapply Hknown].
    exists (st_artifact st). split; [by apply Hin|done].
  - destruct (Hinv q) as (invq & (Hh & Hc & Ho) & Hk). exists invq. split; [|done].
    destruct (Hsame q Hq) as [Hrows Hobsq]. split; [|split; [done|by rewrite Hobsq]].
    unfold holds, project_artifacts in *. by rewrite Hrows.
Qed.

Definition is_rescan (c : StoreCall) : bool := match c with CallRescanSkills _ _ _ => true | _ => false end.

Lemma is_rescan_inv c : is_rescan c = true -> exists p artifacts ms, c = CallRescanSkills p artifacts ms.
Proof. destruct c; try done. eauto. Qed.

(** No other call touches the inventory. *)
Lemma call_keeps_skills c s : is_rescan c = false -> skills (run_call c s) = skills s.
Proof.
  intros Hc. destruct (is_queue_call c) eqn:Hq.
  - by apply queue_call_keeps; destruct c.
  - destruct_call c; try done; cbn [run_call]; refine (respects_transaction (same skills) _ s _); solve_side.
Qed.

Lemma lists_same p artifacts s s' :
  agent_artifacts (skills s') !! p = agent_artifacts (skills s) !! p -> lists p artifacts s -> lists p artifacts s'.
Proof.
  intros Heq (l & Hl & Hp). exists l. split; [|done]. unfold list_skill_artifacts in *.
  rewrite (bind_Ok _ _ s' s' _ eq_refl). rewrite (bind_Ok _ _ s s _ eq_refl) in Hl. cbn beta in *.
  unfold project_artifacts in *. rewrite Heq. unfold tx_lift in *. by destruct (collect_res _ _); simplify_eq/=.
Qed.

Lemma run_calls_inventory known calls s :
  collision_free known -> Forall rescan_typed calls -> all_observed calls ⊆ known ->
  inventory_inv known s -> inventory_inv known (run_calls calls s).
Proof using sha256_bytes.
  intros Hfree Hty. revert s. induction Hty as [|c calls Hc _ IH]; intros s Hin Hinv; [done|].
  cbn [run_calls foldl]. apply IH.
  { intros a Ha. apply Hin. unfold all_observed. cbn. apply elem_of_app. by right. }
  assert (Hsub : observes c ⊆ known).
  { intros a Ha. apply Hin. unfold all_observed. cbn. apply elem_of_app. by left. }
  destruct (is_rescan c) eqn:E.
  - destruct (is_rescan_inv c E) as (p & arts & ms & ->). cbn in Hc, Hsub |- *.
    destruct Hc as [Hart Hms]. by apply rescan_inv.
  - intros p. destruct (Hinv p) as (inv & (Hh & Hcap & Ho) & Hk). exists inv. split; [|done].
    unfold project_inventory, holds, project_artifacts, observation in *. by rewrite (call_keeps_skills c s E).
Qed.

(** A call that is not a rescan of the project. *)
Definition spares (p : ProjectId) (c : StoreCall) : Prop :=
  match c with CallRescanSkills q _ _ => q <> p | _ => True end.

Lemma spared_lists known p artifacts calls s :
  collision_free known -> Forall rescan_typed calls -> all_observed calls ⊆ known -> Forall (spares p) calls ->
  inventory_inv known s -> lists p artifacts s -> lists p artifacts (run_calls calls s).
Proof using sha256_bytes.
  intros Hfree Hty Hin Hsp. revert s. induction Hsp as [|c calls Hc _ IH]; intros s Hinv Hl; [done|].
  apply Forall_cons in Hty as [Hcty Hty]. cbn [run_calls foldl].
  assert (Hsub : observes c ⊆ known).
  { intros a Ha. apply Hin. unfold all_observed. cbn. apply elem_of_app. by left. }
  apply IH; [done| | |].
  - intros a Ha. apply Hin. unfold all_observed. cbn. apply elem_of_app. by right.
  - change (inventory_inv known (run_calls [c] s)). apply run_calls_inventory; [done|by constructor| |done].
    unfold all_observed. cbn. by rewrite app_nil_r.
  - eapply lists_same; [|done]. destruct (is_rescan c) eqn:E; [|by rewrite call_keeps_skills].
    destruct (is_rescan_inv c E) as (q & arts & ms & ->). cbn in Hcty, Hsub, Hc |- *.
    destruct Hcty as [Hart Hms]. destruct (rescan_inv known q arts ms s) as (_ & Hsame & _); try done. by apply Hsame.
Qed.

(** Over any history of calls from an empty store whose observed artifacts
    have no colliding identifiers, the listing of a project after a rescan that
    was accepted holds exactly the artifacts of that observation, each once and
    in the order of the listing, until the project is rescanned; no other
    call, rescans of other projects and resets included, changes it. *)
Theorem listing_is_last_observation before p artifacts ms after d :
  let rescan := CallRescanSkills p artifacts ms in
  let s := run_calls before empty_store in
  Forall rescan_typed (before ++ rescan :: after) ->
  collision_free (all_observed (before ++ rescan :: after)) ->
  Forall (spares p) after ->
  (rescan_skill_inventory p artifacts ms s).2 = Ok d ->
  lists p artifacts (run_calls (before ++ rescan :: after) empty_store).
Proof using sha256_bytes.
  intros rescan s Hty Hfree Hsp Hd. set (known := all_observed _) in Hfree.
  apply Forall_app in Hty as [Hty1 Hty2]. apply Forall_cons in Hty2 as [[Hart Hms] Hty2].
  assert (Hk : known = all_observed before ++ artifacts ++ all_observed after).
  { unfold known, all_observed. by rewrite bind_app. }
  assert (Hinv : inventory_inv known s).
  { apply run_calls_inventory; [done|done|rewrite Hk; set_solver|apply inventory_inv_empty]. }
  destruct (rescan_inv known p artifacts ms s) as (Hinv' & _ & Hl); try done; [rewrite Hk; set_solver|].
  unfold run_calls. rewrite foldl_app. cbn [foldl]. fold (run_calls before empty_store). fold s.
  apply (spared_lists known); [done|done|rewrite Hk; set_solver|done|exact Hinv'|by eapply Hl].
Qed.

End history.
