(* ===== verification/StoreClaim.v ===== *)
(** * Claiming: first in, first out, one lease per project

    The schema of the requests table under a row update, the selection of the
    claim candidate, and the claims about leases: what [claim] serves, that two
    live leases of a project are the same lease, and that a lease that lost
    its row is dead for good. *)

From S2P Require Import Prelude Core Policy FlowDef FlowData FlowSnapshot StoreDef.
From S2P Require Import StoreFlow StoreQueue StoreStep StoreEffect StoreInv.

Local Open Scope Z_scope.

(** ** The schema under a row update *)

Lemma filter_insert_active rows i (r r' : RequestRow) :
  rows !! i = Some r -> active_row r' = false ->
  List.filter active_row (<[i := r']> rows) `sublist_of` List.filter active_row rows.
Proof.
  revert i. induction rows as [|x rows IH]; intros i Hi Hr'; [done|].
  destruct i as [|i]; simpl in *.
  - rewrite Hr'. destruct (active_row x); [by apply sublist_cons|done].
  - destruct (active_row x); [apply sublist_skip|]; by apply IH.
Qed.

Lemma filter_insert_same rows i (r r' : RequestRow) :
  rows !! i = Some r -> active_row r' = active_row r -> q_project_id r' = q_project_id r ->
  q_project_id <$> List.filter active_row (<[i := r']> rows)
  = q_project_id <$> List.filter active_row rows.
Proof.
  revert i. induction rows as [|x rows IH]; intros i Hi Ha Hp; [done|].
  destruct i as [|i]; simpl in *.
  - injection Hi as ->. rewrite Ha. destruct (active_row r); simpl; [by rewrite Hp|done].
  - destruct (active_row x); simpl; [f_equal|]; by apply IH.
Qed.

Lemma filter_insert_new rows i (r r' : RequestRow) :
  rows !! i = Some r -> active_row r = false -> active_row r' = true ->
  List.filter active_row (<[i := r']> rows) ≡ₚ r' :: List.filter active_row rows.
Proof.
  revert i. induction rows as [|x rows IH]; intros i Hi Ha Hr'; [done|].
  destruct i as [|i]; simpl in *.
  - injection Hi as ->. by rewrite Ha, Hr'.
  - destruct (active_row x); [|by apply IH]. rewrite (IH i Hi Ha Hr'). by constructor.
Qed.

(** Replacing a row keeps the schema when its identity is kept, its CHECKs
    hold, and it is not active unless it was or its project has no active row. *)
Lemma schema_insert rows i r r' :
  requests_schema rows -> rows !! i = Some r -> identity_of r' = identity_of r ->
  request_check r' = true ->
  (active_row r' = false \/ active_row r = true
   \/ forall a, a ∈ rows -> active_row a = true -> q_project_id a <> q_project_id r) ->
  requests_schema (<[i := r']> rows).
Proof.
  intros (Hc & H1 & H2 & H3 & H4) Hi Hid Hr' Hact. injection Hid as E1 E2 E3 E4 E5 E6 E7 E8.
  assert (Hfm : forall {B} (f : RequestRow -> B), f r' = f r -> f <$> <[i := r']> rows = f <$> rows)
    by (intros B f Hf; by apply (insert_fmap_same f rows i r)).
  split_and!.
  - by apply Forall_insert.
  - by rewrite Hfm.
  - rewrite Hfm; [done|]. unfold idempotency_columns. congruence.
  - rewrite Hfm; [done|]. unfold queue_columns. congruence.
  - destruct (active_row r') eqn:Ea'.
    + destruct (active_row r) eqn:Ea.
      * rewrite (filter_insert_same rows i r r'); congruence.
      * destruct Hact as [?|[?|Hact]]; [done|done|].
        rewrite (filter_insert_new rows i r r') by done. simpl. apply NoDup_cons. split; [|done].
        intros Hin. apply list_elem_of_fmap in Hin as (a & Hp & Ha).
        apply list_elem_of_In, filter_In in Ha as [Ha Haa]. apply list_elem_of_In in Ha.
        apply (Hact a Ha Haa). congruence.
    + eapply sublist_NoDup; [exact H4|]. apply fmap_sublist. by eapply filter_insert_active.
Qed.

(** ** The candidate *)

(** The head of an ordered selection is the first of the least. *)
Lemma order_by_head {A} (key : A -> Z) l x :
  head (order_by key l) = Some x ->
  exists l1 l2, l = l1 ++ x :: l2 /\ Forall (fun y => key x < key y) l1
    /\ Forall (fun y => key x <= key y) l2.
Proof.
  revert x. induction l as [|y l IH]; intros x; [done|]. simpl.
  destruct (order_by key l) as [|z k] eqn:Eo; simpl.
  - intros [= <-]. exists [], l. split_and!; [done|constructor|].
    pose proof (order_by_perm key l) as Hp. rewrite Eo in Hp. by apply Permutation_nil in Hp as ->.
  - destruct (IH z eq_refl) as (l1 & l2 & -> & H1 & H2).
    destruct (key y <=? key z) eqn:Ek; simpl; intros [= <-].
    + exists [], (l1 ++ z :: l2). split_and!; [done|constructor|].
      apply Forall_app. split; [|constructor; [lia|]];
        (eapply Forall_impl; [eassumption|]; simpl; lia).
    + exists (y :: l1), l2. split_and!; [done| |done]. constructor; [lia|done].
Qed.

(** [c] is the request the queue must serve: queued, the earliest unfinished of
    a project without an active lease, accepted no later than any other such
    request, and the first in the table among those accepted with it. *)
Definition next_in_line (s : Store) (c : RequestRow) : Prop :=
  q_state c = ReqQueued
  /\ (forall r, r ∈ requests s -> q_project_id r = q_project_id c ->
        is_unfinished_state (q_state r) = true -> q_queue_sequence c <= q_queue_sequence r)
  /\ (forall r, r ∈ requests s -> q_project_id r = q_project_id c -> active_row r = false)
  /\ exists before after,
       List.filter (claimable (requests s)) (requests s) = before ++ c :: after
       /\ Forall (fun r => q_accepted_at_ms c < q_accepted_at_ms r) before
       /\ Forall (fun r => q_accepted_at_ms c <= q_accepted_at_ms r) after.

Lemma claimable_spec rows c :
  claimable rows c = true <->
  q_state c = ReqQueued
  /\ (forall r, r ∈ rows -> q_project_id r = q_project_id c ->
        is_unfinished_state (q_state r) = true -> q_queue_sequence c <= q_queue_sequence r)
  /\ (forall r, r ∈ rows -> q_project_id r = q_project_id c -> active_row r = false).
Proof.
  unfold claimable. rewrite !andb_true_iff, !negb_true_iff, state_is_true. split.
  - intros ((Hq & He) & Ha). split_and!; [done| |]; intros r Hr Hp.
    + intros Hu. pose proof (existsb_false_elem _ _ He r Hr) as Hf. simpl in Hf.
      rewrite Hp, String.eqb_refl, Hu in Hf. simpl in Hf. lia.
    + pose proof (existsb_false_elem _ _ Ha r Hr) as Hf. simpl in Hf.
      by rewrite Hp, String.eqb_refl in Hf.
  - intros (Hq & He & Ha). split_and!; [done| |]; apply existsb_all_false, Forall_forall; intros r Hr;
      destruct (String.eqb_spec (q_project_id r) (q_project_id c)) as [Hp|]; simpl; try done.
    + destruct (is_unfinished_state (q_state r)) eqn:Hu; [|done]. simpl. specialize (He r Hr Hp Hu). lia.
    + by apply Ha.
Qed.

Lemma claim_candidate_next s c : claim_candidate s = Some c -> next_in_line s c.
Proof.
  intros Hc. pose proof (claim_candidate_Some s c Hc) as [_ Hcl]. apply claimable_spec in Hcl.
  destruct Hcl as (H1 & H2 & H3). split_and!; try done.
  destruct (order_by_head _ _ _ Hc) as (b & a & Hf & Hb & Ha). by exists b, a.
Qed.

(** A list with an element has one of least key. *)
Lemma least_elem {A} (key : A -> Z) (l : list A) (x : A) :
  x ∈ l -> exists y, y ∈ l /\ forall z, z ∈ l -> key y <= key z.
Proof.
  intros Hx. destruct (head (order_by key l)) as [y|] eqn:Eh.
  - destruct (order_by_head _ _ _ Eh) as (l1 & l2 & -> & H1 & H2). exists y. split; [set_solver|].
    intros z Hz. rewrite Forall_forall in H1, H2. apply elem_of_app in Hz as [Hz|Hz].
    + specialize (H1 z Hz). simpl in H1. lia.
    + apply elem_of_cons in Hz as [->|Hz]; [lia|by apply H2].
  - rewrite <-(order_by_perm key l) in Hx. destruct (order_by key l); [by apply not_elem_of_nil in Hx|done].
Qed.

(** No candidate: every project with a queued request has an active lease. *)
Lemma claim_candidate_none s r :
  claim_candidate s = None -> r ∈ requests s -> q_state r = ReqQueued ->
  exists a, a ∈ requests s /\ q_project_id a = q_project_id r /\ active_row a = true.
Proof.
  intros Hc Hr Hq.
  set (mine := List.filter (fun x => String.eqb (q_project_id x) (q_project_id r)
                                     && is_unfinished_state (q_state x)) (requests s)).
  assert (Hmine : forall x, x ∈ mine <-> x ∈ requests s /\ q_project_id x = q_project_id r
                                          /\ is_unfinished_state (q_state x) = true).
  { intros x. unfold mine. rewrite list_elem_of_In, filter_In, <-list_elem_of_In, andb_true_iff,
      String.eqb_eq. done. }
  destruct (least_elem q_queue_sequence mine r) as (y & Hy & Hmin); [by apply Hmine; rewrite Hq|].
  apply Hmine in Hy as (Hy & Hp & Hu).
  destruct (existsb (fun a => String.eqb (q_project_id a) (q_project_id r) && active_row a)
              (requests s)) eqn:Ea.
  { apply existsb_true_elem in Ea as (a & Ha & Hb). apply andb_true_iff in Hb as [Hb1 Hb2].
    apply String.eqb_eq in Hb1. eauto. }
  exfalso. assert (Hna : forall a, a ∈ requests s -> q_project_id a = q_project_id r -> active_row a = false).
  { intros a Ha Hap. pose proof (existsb_false_elem _ _ Ea a Ha) as Hf. simpl in Hf.
    by rewrite Hap, String.eqb_refl in Hf. }
  assert (Hcl : claimable (requests s) y = true).
  { apply claimable_spec. split_and!.
    - specialize (Hna y Hy Hp). unfold active_row in Hna. by destruct (q_state y).
    - intros x Hx Hxp Hxu. apply Hmin, Hmine. split_and!; congruence.
    - intros x Hx Hxp. apply Hna; congruence. }
  unfold claim_candidate in Hc.
  assert (Hin : y ∈ order_by q_accepted_at_ms (List.filter (claimable (requests s)) (requests s))).
  { rewrite order_by_perm. apply list_elem_of_In, filter_In. split; [by apply list_elem_of_In|done]. }
  destruct (order_by _ _); [by apply not_elem_of_nil in Hin|done].
Qed.

(** ** Statements that succeed *)

Lemma max_sequence_nonneg id l : 0 <= max_sequence id l.
Proof.
  unfold max_sequence. induction (List.filter (event_of id) l) as [|e k IH]; simpl; lia.
Qed.

Lemma max_sequence_ge id l e : e ∈ l -> event_of id e = true -> e_sequence e <= max_sequence id l.
Proof.
  intros He Hid. unfold max_sequence.
  assert (Hin : e ∈ List.filter (event_of id) l)
    by (apply list_elem_of_In, filter_In; split; [by apply list_elem_of_In|done]).
  clear He. induction (List.filter (event_of id) l) as [|x k IH]; [by apply not_elem_of_nil in Hin|].
  simpl. apply elem_of_cons in Hin as [->|Hin]; [lia|]. specialize (IH Hin). lia.
Qed.

Lemma append_event_succeeds s i r now kind payload :
  requests s !! i = Some r -> 0 <= now -> max_sequence (q_request_id r) (events s) < i64_max ->
  append_event_tx (q_request_id r) now kind payload s
  = Ok (with_event s (q_request_id r) now kind payload, max_sequence (q_request_id r) (events s) + 1).
Proof.
  intros Hi Hnow Hmax. set (id := q_request_id r) in *.
  pose proof (max_sequence_nonneg id (events s)) as Hpos.
  unfold append_event_tx, mbind, tx_bind, tx_read, sqlite_integer. cbv beta iota.
  replace (max_sequence id (events s) + 1 <=? i64_max) with true by (symmetry; lia).
  unfold mret, tx_ret, insert_event. cbn [e_sequence e_recorded_at_ms e_request_id].
  replace (0 <? max_sequence id (events s) + 1) with true by (symmetry; lia).
  replace (0 <=? now) with true by (symmetry; lia).
  assert (Hnew : existsb (fun x => event_of id x && (e_sequence x =? max_sequence id (events s) + 1))
                   (events s) = false).
  { apply existsb_all_false, Forall_forall. intros e He. destruct (event_of id e) eqn:Ee; [|done].
    pose proof (max_sequence_ge id _ e He Ee). simpl. lia. }
  rewrite Hnew.
  assert (Hrow : existsb (by_id id) (requests s) = true).
  { apply existsb_true_elem. exists r. split; [by eapply list_elem_of_lookup_2|by apply by_id_eq]. }
  rewrite Hrow. cbn [andb negb]. unfold tx_lift, unsigned_integer.
  replace (0 <=? max_sequence id (events s) + 1) with true by (symmetry; lia). done.
Qed.

Lemma update_requests_succeeds p f s i r :
  unique_ids s -> requests s !! i = Some r -> p r = true ->
  (forall x, p x = true -> q_request_id x = q_request_id r) ->
  requests_schema (<[i := f r]> (requests s)) ->
  update_requests p f s = Ok (set_requests s (<[i := f r]> (requests s)), 1%nat).
Proof.
  intros Hu Hi Hp Hid Hs. unfold update_requests.
  destruct (filter_one p (q_request_id r) (requests s) Hu Hid) as [Hnil|(j & x & Hj & Hpx & Hf & Hmap)].
  - exfalso. assert (Hin : List.In r (List.filter p (requests s))).
    { apply filter_In. split; [by apply list_elem_of_In; eapply list_elem_of_lookup_2|done]. }
    by rewrite Hnil in Hin.
  - destruct (same_row s j i x r Hu Hj Hi (Hid _ Hpx)) as [-> ->].
    rewrite Hmap, Hf, bool_decide_eq_true_2 by done. done.
Qed.

Lemma sql_integer_in v : v <= i64_max -> sql_integer v = Ok v.
Proof. intros Hv. unfold sql_integer. by replace (v <=? i64_max) with true by (symmetry; lia). Qed.

Lemma lease_expiry_in now d :
  0 < d -> now + d <= i64_max -> lease_expiry now d = Ok (now + d).
Proof.
  intros Hd Hm. unfold lease_expiry, checked_add64, u64_max.
  replace (d =? 0) with false by (symmetry; lia).
  replace (now + d <=? _) with true by (unfold i64_max in Hm; symmetry; lia). done.
Qed.

(** Evaluates a lifted computation at the head of a transaction. *)
Lemma bind_lift {A B} (r : sres A) (k : A -> Tx B) s a :
  r = Ok a -> mbind k (tx_lift r) s = k a s.
Proof. by intros ->. Qed.

Lemma schema_check rows r : requests_schema rows -> r ∈ rows -> request_check r = true.
Proof. intros (Hc & _) Hr. rewrite Forall_forall in Hc. by apply Hc. Qed.

Lemma request_check_spec r :
  request_check r = true <->
  0 < q_queue_sequence r /\ 0 <= q_accepted_at_ms r /\ 0 <= q_attempt r
  /\ is_none_or (q_lease_expires_at_ms r) (Z.leb 0) = true
  /\ is_none_or (q_completed_at_ms r) (Z.leb 0) = true
  /\ lease_shape r = true /\ result_shape r = true.
Proof. unfold request_check. rewrite !andb_true_iff, Z.ltb_lt, !Z.leb_le. tauto. Qed.

Lemma claimed_check owner token e c :
  request_check c = true -> q_state c = ReqQueued -> 0 <= e ->
  request_check (claimed_row owner token e c) = true.
Proof.
  rewrite !request_check_spec. unfold lease_shape, result_shape, claimed_row. cbn.
  intros (H1 & H2 & H3 & _ & H5 & _ & H7) Hq He. rewrite Hq in H7.
  split_and!; try done; lia.
Qed.

Section claims.
Context `{Sha256} `{FlowCodec}.

Lemma bind_validate_ok s c :
  authorized_claim s c ->
  (if String.eqb (q_operation_kind c) FLOW_OPERATION_KIND
   then _ ← validate_flow_authorization_integrity (q_request_id c); mret tt
   else mret tt : Tx unit) s = Ok (s, tt).
Proof.
  intros Ha. destruct (String.eqb_spec (q_operation_kind c) FLOW_OPERATION_KIND) as [Hk|]; [|done].
  destruct (Ha Hk) as [proof Hp]. by rewrite (bind_Ok _ _ _ _ _ Hp).
Qed.

(** The lease [claim] returns for the request [c]. *)
Definition leased_request (owner token : string) (now d : Z) (c : RequestRow) : LeasedRequest :=
  {| lr_lease := {| le_request_id := q_request_id c; le_project_id := q_project_id c;
                    le_owner := owner; le_token := token; le_attempt := q_attempt c + 1;
                    le_expires_at_ms := now + d |};
     lr_queue_sequence := q_queue_sequence c; lr_operation_kind := q_operation_kind c;
     lr_operation := q_operation c |}.

Lemma claim_evaluates owner token now d s i c :
  store_inv s -> 0 <= now -> 0 < d -> now + d <= i64_max ->
  claim_candidate s = Some c -> requests s !! i = Some c -> serviceable s c ->
  claim owner token now d s
  = (with_event (set_requests s (<[i := claimed_row owner token (now + d) c]> (requests s)))
       (q_request_id c) now "started" "", Ok (Some (leased_request owner token now d c))).
Proof.
  intros Hinv Hnow Hd Hm Hc Hi (Ha & Hat & Hmax).
  pose proof (inv_schema s Hinv) as Hs. pose proof (schema_unique s Hs) as Hu.
  pose proof (claim_candidate_next s c Hc) as (Hq & _ & Hna & _).
  assert (Hin : c ∈ requests s) by by eapply list_elem_of_lookup_2.
  pose proof (schema_check _ _ Hs Hin) as Hck.
  assert (Hs' : requests_schema (<[i := claimed_row owner token (now + d) c]> (requests s))).
  { apply (schema_insert _ i c); try done.
    - apply claimed_check; [done|done|lia].
    - right. right. intros a Haa Hact Hp. specialize (Hna a Haa Hp). congruence. }
  unfold claim, claim_tx, transaction.
  rewrite (bind_lift _ _ _ now) by (apply sql_integer_in; lia).
  rewrite (bind_lift _ _ _ (now + d)) by (by apply lease_expiry_in).
  rewrite (bind_lift _ _ _ (now + d)) by (by apply sql_integer_in).
  rewrite (bind_Ok _ _ _ s (Some c)) by (unfold tx_read; by rewrite Hc).
  rewrite (bind_Ok _ _ _ _ _ (bind_validate_ok s c Ha)).
  rewrite (bind_lift _ _ _ (q_attempt c + 1))
    by (by replace (q_attempt c + 1 <=? i64_max) with true by (symmetry; lia)).
  erewrite bind_Ok; [|apply (update_requests_succeeds _ _ s i c Hu Hi); [| |exact Hs']].
  - cbn [Nat.eqb negb].
    erewrite bind_Ok; [|apply (append_event_succeeds (set_requests s _) i (claimed_row owner token (now + d) c));
      [cbn; apply list_lookup_insert_eq; by eapply lookup_lt_Some|done|done]].
    apply request_check_spec in Hck as (Hseq & _ & Hatt & _). unfold mret, tx_ret.
    unfold unsigned_integer.
    replace (0 <=? q_attempt c + 1) with true by (symmetry; lia).
    replace (0 <=? q_queue_sequence c) with true by (symmetry; lia). done.
  - apply andb_true_iff. split; [by apply by_id_eq|by apply state_is_true].
  - intros x Hx. by where_facts Hx.
Qed.

(** A candidate that cannot be served makes [claim] fail without effect. *)
Lemma claim_refuses owner token now d s c :
  store_inv s -> claim_candidate s = Some c -> ~ serviceable s c ->
  (claim owner token now d s).1 = s /\ is_ok (claim owner token now d s).2 = false.
Proof.
  intros Hinv Hc Hserv. unfold claim, transaction.
  destruct (claim_tx owner token now d s) as [[s' o]|e|] eqn:Ht; [|done..]. exfalso.
  apply claim_tx_Ok in Ht as [(Hnone & _)|(i & c' & Hc' & _ & _ & _ & Hs & _)];
    [congruence| |apply schema_unique, Hinv]. congruence.
Qed.

Lemma serviceable_dec s c : serviceable s c \/ ~ serviceable s c.
Proof.
  unfold serviceable, authorized_claim.
  assert (Hauth : (exists proof, validate_flow_authorization_integrity (q_request_id c) s = Ok (s, proof))
                  \/ ~ exists proof, validate_flow_authorization_integrity (q_request_id c) s = Ok (s, proof)).
  { destruct (validate_flow_authorization_integrity _ s) as [[s' proof]|e|] eqn:Hv.
    - pose proof (ro_validate_integrity _ _ _ _ Hv) as ->. left. by exists proof.
    - right. by intros [].
    - right. by intros []. }
  destruct (decide (q_operation_kind c = FLOW_OPERATION_KIND)), (decide (q_attempt c < i64_max)),
    (decide (max_sequence (q_request_id c) (events s) < i64_max)); naive_solver.
Qed.

(** C17: [claim] serves each project first in, first out. At a time and with a
    positive duration whose sum is within the largest [i64], it does one of
    three things. It leases the next request in line (queued, the earliest
    unfinished request of a project with no active lease, and of those the one
    accepted first), whose row becomes leased under the new owner and token
    until [now + d] with one more attempt and one "started" event, every other
    row untouched; or it returns nothing, leaves the store as it was, and every
    project with a queued request has an active lease; or it fails and leaves
    the store as it was, which happens only when the next request in line
    cannot be served, because it is a flow run whose stored authorization does
    not pass its integrity check or because its attempt or event counter is
    exhausted. *)
Theorem claim_serves_fifo owner token now d s :
  store_inv s -> 0 <= now -> 0 < d -> now + d <= i64_max ->
  (exists i c, requests s !! i = Some c /\ next_in_line s c /\ serviceable s c
     /\ claim owner token now d s
        = (with_event (set_requests s (<[i := claimed_row owner token (now + d) c]> (requests s)))
             (q_request_id c) now "started" "",
           Ok (Some (leased_request owner token now d c))))
  \/ (claim owner token now d s = (s, Ok None)
      /\ forall r, r ∈ requests s -> q_state r = ReqQueued ->
         exists a, a ∈ requests s /\ q_project_id a = q_project_id r /\ active_row a = true)
  \/ (exists c, c ∈ requests s /\ next_in_line s c /\ ~ serviceable s c
      /\ (claim owner token now d s).1 = s /\ is_ok (claim owner token now d s).2 = false).
Proof.
  intros Hinv Hnow Hd Hm. destruct (claim_candidate s) as [c|] eqn:Ec.
  - pose proof (claim_candidate_Some s c Ec) as [Hin _]. pose proof (claim_candidate_next s c Ec) as Hnext.
    destruct (serviceable_dec s c) as [Hserv|Hserv].
    + left. apply list_elem_of_lookup in Hin as Hi. destruct Hi as [i Hi]. exists i, c.
      split_and!; [done..|]. by apply claim_evaluates.
    + right. right. exists c. split_and!; [done..| |]; by apply claim_refuses with c.
  - right. left. split; [|intros r; by apply claim_candidate_none].
    unfold claim, claim_tx, transaction.
    rewrite (bind_lift _ _ _ now) by (apply sql_integer_in; lia).
    rewrite (bind_lift _ _ _ (now + d)) by (by apply lease_expiry_in).
    rewrite (bind_lift _ _ _ (now + d)) by (by apply sql_integer_in).
    by rewrite (bind_Ok _ _ _ s None) by (unfold tx_read; by rewrite Ec).
Qed.

(** ** Leases *)

Lemma NoDup_filter_unique rows (r1 r2 : RequestRow) :
  NoDup (q_project_id <$> List.filter active_row rows) ->
  r1 ∈ rows -> r2 ∈ rows -> active_row r1 = true -> active_row r2 = true ->
  q_project_id r1 = q_project_id r2 -> r1 = r2.
Proof.
  intros Hnd H1 H2 A1 A2 Hp.
  assert (Hin : forall r, r ∈ rows -> active_row r = true -> r ∈ List.filter active_row rows).
  { intros r Hr Ha. apply list_elem_of_In, filter_In. split; [by apply list_elem_of_In|done]. }
  apply (Hin r1) in H1; [|done]. apply (Hin r2) in H2; [|done]. clear Hin A1 A2.
  apply list_elem_of_lookup in H1 as [i Hi]. apply list_elem_of_lookup in H2 as [j Hj].
  assert (i = j) as ->.
  { eapply (NoDup_lookup _ _ _ (q_project_id r1) Hnd); rewrite list_lookup_fmap;
      [rewrite Hi|rewrite Hj]; simpl; congruence. }
  congruence.
Qed.

(** Two leases that are live on requests of one project, at whatever times
    they are checked, are the same lease: the same request, owner and token. *)
Theorem live_lease_exclusive s l1 l2 now1 now2 r1 r2 :
  store_inv s -> r1 ∈ requests s -> r2 ∈ requests s ->
  live_lease l1 now1 r1 = true -> live_lease l2 now2 r2 = true ->
  q_project_id r1 = q_project_id r2 ->
  le_request_id l1 = le_request_id l2 /\ le_owner l1 = le_owner l2 /\ le_token l1 = le_token l2.
Proof.
  intros Hinv H1 H2 L1 L2 Hp. apply live_lease_spec in L1 as (I1 & A1 & O1 & T1 & _).
  apply live_lease_spec in L2 as (I2 & A2 & O2 & T2 & _).
  destruct (inv_schema s Hinv) as (_ & _ & _ & _ & Hnd).
  assert (r1 = r2) as -> by by eapply NoDup_filter_unique. split_and!; congruence.
Qed.

(** A token appears on a row only by a claim. *)
Lemma row_step_token T r k r' t :
  row_step T r k r' -> q_lease_token r' = Some t -> hands_token T t \/ q_lease_token r = Some t.
Proof. destruct 1; cbn; intros; simplify_eq; auto. Qed.

Lemma row_moves_token T r r' t :
  rtc (row_move T) r r' -> q_lease_token r' = Some t -> hands_token T t \/ q_lease_token r = Some t.
Proof.
  induction 1 as [r|r r1 r2 [k Hk] _ IH]; [auto|]. intros Ht.
  destruct (IH Ht) as [?|Ht1]; [auto|]. by eapply row_step_token.
Qed.

(** No row of the store carries the lease. *)
Definition lost_lease (s : Store) (lease : Lease) : Prop :=
  forall now r, r ∈ requests s -> live_lease lease now r = false.

Lemma find_none_of {A} (p : A -> bool) l : (forall x, x ∈ l -> p x = false) -> List.find p l = None.
Proof.
  intros Hp. induction l as [|x l IH]; simpl; [done|].
  rewrite (Hp x) by by left. apply IH. intros y Hy. apply Hp. by right.
Qed.

Lemma lost_select s lease now :
  lost_lease s lease -> select_request (live_lease lease now) s = Ok (s, None).
Proof.
  intros Hl. unfold select_request, tx_read. by rewrite find_none_of by (intros; by apply Hl).
Qed.

Lemma lost_update s lease now f :
  store_inv s -> lost_lease s lease -> update_requests (live_lease lease now) f s = Ok (s, 0%nat).
Proof.
  intros Hinv Hl. unfold update_requests.
  assert (Hsame : (fun r => if live_lease lease now r then f r else r) <$> requests s = requests s).
  { rewrite <-(list_fmap_id (requests s)) at 2. apply list_fmap_ext. intros i r Hi.
    rewrite (Hl now r) by by eapply list_elem_of_lookup_2. done. }
  assert (Hf : List.filter (live_lease lease now) (requests s) = []).
  { generalize (fun r => Hl now r). clear. induction (requests s) as [|x l IH]; intros Hx; simpl; [done|].
    rewrite (Hx x) by by left. apply IH. intros r Hr. apply Hx. by right. }
  rewrite Hsame, Hf, set_requests_id, bool_decide_eq_true_2 by apply Hinv. done.
Qed.

(** A lost lease is refused by every operation that takes one. *)
Definition lease_refused (s : Store) (lease : Lease) : Prop :=
  let stale := StaleLease (le_request_id lease) in
  (forall now ts result, now <= i64_max -> finish lease now ts result s = (s, Err stale))
  /\ (forall now result, now <= i64_max -> finish_terminal_flow lease now result s = (s, Err stale))
  /\ (forall now d, 0 < d -> now + d <= i64_max -> now <= i64_max ->
        renew lease now d s = (s, Err stale))
  /\ (forall now kind payload, now <= i64_max ->
        append_leased_event lease now kind payload s = (s, Err stale))
  /\ (forall save, sv_lease save = lease -> (save_flow_checkpoint save s).1 = s
        /\ is_ok (save_flow_checkpoint save s).2 = false).

Lemma lost_lease_refused s lease : store_inv s -> lost_lease s lease -> lease_refused s lease.
Proof.
  intros Hinv Hl. unfold lease_refused. split_and!; intros.
  - unfold finish, finish_tx, transaction. rewrite (bind_lift _ _ _ now) by by apply sql_integer_in.
    by rewrite (bind_Ok _ _ _ _ _ (lost_select s lease now Hl)).
  - unfold finish_terminal_flow, finish_terminal_flow_tx, transaction.
    rewrite (bind_lift _ _ _ now) by by apply sql_integer_in.
    by rewrite (bind_Ok _ _ _ _ _ (lost_select s lease now Hl)).
  - unfold renew, renew_tx, transaction. rewrite (bind_lift _ _ _ now) by by apply sql_integer_in.
    rewrite (bind_lift _ _ _ (now + d)) by by apply lease_expiry_in.
    rewrite (bind_lift _ _ _ (now + d)) by by apply sql_integer_in.
    by rewrite (bind_Ok _ _ _ _ _ (lost_update s lease now _ Hinv Hl)).
  - unfold append_leased_event, append_leased_event_tx, transaction.
    rewrite (bind_lift _ _ _ now) by by apply sql_integer_in.
    unfold ensure_live_lease, tx_read, mbind, tx_bind. cbv beta iota.
    by rewrite existsb_all_false by (apply Forall_forall; intros; by apply Hl).
  - subst lease. unfold save_flow_checkpoint, transaction.
    destruct (save_flow_checkpoint_tx save s) as [[s' out]|e|] eqn:Es; try done. exfalso.
    destruct (save_flow_checkpoint_tx_Ok _ _ _ _ Es) as (i & r & b & tb & o & ex & [Hi Hlive]).
    rewrite (Hl _ r) in Hlive; [done|by eapply list_elem_of_lookup_2].
Qed.

(** C18: fencing. A lease whose request no longer carries its token (it was
    finished, cancelled, recovered or claimed again) is dead for good: whatever
    calls follow, as long as no claim hands out the same token again, every
    operation that takes the lease is refused and leaves the store as it was. *)
Theorem stale_lease_fenced s r lease calls :
  store_inv s -> r ∈ requests s -> q_request_id r = le_request_id lease ->
  q_lease_token r <> Some (le_token lease) ->
  Forall (hands_out (fun token => token <> le_token lease)) calls ->
  lease_refused (run_calls calls s) lease.
Proof.
  intros Hinv Hr Hid Htok Hcalls. apply lost_lease_refused; [by apply run_calls_inv|].
  intros now x Hx. destruct (live_lease lease now x) eqn:El; [|done]. exfalso.
  apply live_lease_spec in El as (Hxid & _ & _ & Hxt & _).
  destruct (run_calls_extends _ calls s Hinv Hcalls) as [Hext _].
  apply list_elem_of_lookup in Hr as [i Hi]. destruct (Hext i r Hi) as (r' & Hi' & Hm).
  apply list_elem_of_lookup in Hx as [j Hj].
  pose proof (row_moves_identity _ _ Hm) as Heq. injection Heq as Heq _ _ _ _ _ _ _.
  destruct (same_row _ j i x r' (schema_unique _ (inv_schema _ (run_calls_inv calls s Hinv))) Hj Hi')
    as [_ ->]; [congruence|].
  by destruct (row_moves_token _ _ _ _ Hm Hxt) as [?|?].
Qed.

End claims.
