(* ===== verification/StoreSafety.v ===== *)
(** * Durability: what no sequence of calls undoes

    The claims about whole histories of the store: its invariant, the finality
    of results, the persistence of cancellations, idempotent acceptance and
    the exact replay of a request's event log. *)

From S2P Require Import Prelude Core Policy FlowDef FlowData FlowSnapshot StoreDef.
From S2P Require Import StoreFlow StoreQueue StoreStep StoreEffect StoreInv StoreClaim.

Local Open Scope Z_scope.

(** ** The history of a row *)

Lemma terminal_no_move T r r' :
  is_terminal_state (q_state r) = true -> rtc (row_move T) r r' -> r' = r.
Proof.
  intros Ht. induction 1 as [|r r1 r2 [k Hk] _ IH]; [done|]. exfalso.
  destruct Hk; repeat match goal with H : q_state _ = _ |- _ => rewrite H in Ht end; try done.
  by destruct (q_state r).
Qed.

(** The request [r] is in cancellation and answers with [result]. *)
Definition in_cancellation (result : string) (r : RequestRow) : Prop :=
  q_state r = ReqCancellationRequested /\ q_result r = Some result.

(** How the moves of a row leave a cancellation. *)
Lemma cancellation_moves T r r' result :
  rtc (row_move T) r r' -> in_cancellation result r ->
  in_cancellation result r'
  \/ q_state r' = ReqCancelled /\ q_result r' = Some result
  \/ q_operation_kind r' = FLOW_OPERATION_KIND
     /\ exists encoded, q_result r' = Some encoded /\ overrides_with T (q_request_id r') (q_state r') encoded.
Proof.
  induction 1 as [r|r r1 r2 [k Hk] Hmoves IH]; [by left|]. intros [Hst Hres].
  destruct Hk as [? ? ? Hq|?|Hq|? ? ? ? Hq|?|state k now encoded Hq Hk Hin Hov|? ? Hq|? Hq|? ? Hq]; try congruence.
  - by apply IH.
  - apply terminal_no_move in Hmoves as ->; [|done]. right. by left.
  - apply terminal_no_move in Hmoves as ->.
    + right. right. split; [done|]. by exists encoded.
    + rewrite !elem_of_cons in Hin. cbn. destruct Hin as [[= -> _]|[[= -> _]|Hin]]; [done..|].
      by apply not_elem_of_nil in Hin.
Qed.

(** ** Replaying a log *)

Definition record_of (e : EventRow) : EventRecord :=
  {| ev_sequence := e_sequence e; ev_kind := e_kind e; ev_payload := e_payload e;
     ev_recorded_at_ms := e_recorded_at_ms e |}.

Definition result_of (r : RequestRow) : option StoredResult :=
  if is_terminal_state (q_state r)
  then Some {| st_state := q_state r; st_payload := default "" (q_result r);
               st_completed_at_ms := default 0 (q_completed_at_ms r) |}
  else None.

Lemma stored_result_row r : request_check r = true -> stored_result r (q_state r) = Ok (result_of r).
Proof.
  rewrite request_check_spec. unfold result_shape, stored_result, result_of.
  intros (_ & _ & _ & _ & Hc & _ & Hs).
  destruct (q_state r), (q_result r) as [p|], (q_completed_at_ms r) as [t|]; simpl in *; try done;
    unfold unsigned_integer; by rewrite Hc.
Qed.

Lemma numbered_filter (l : list EventRow) m after :
  e_sequence <$> l = seqZ (m + 1) (Z.of_nat (length l)) ->
  List.filter (fun e => after <? e_sequence e) l = drop (Z.to_nat (after - m)) l.
Proof.
  revert m. induction l as [|e l IH]; intros m; [by rewrite drop_nil|].
  rewrite length_cons, seqZ_cons by lia. cbn [fmap list_fmap List.filter]. intros [= He Hl].
  rewrite (IH (m + 1)) by (rewrite Hl; f_equal; lia). rewrite He.
  destruct (after <? m + 1) eqn:E.
  - replace (Z.to_nat (after - m)) with 0%nat by lia.
    by replace (Z.to_nat (after - (m + 1))) with 0%nat by lia.
  - replace (Z.to_nat (after - m)) with (S (Z.to_nat (after - (m + 1)))) by lia. done.
Qed.

Lemma numbered_sorted (l : list EventRow) m n :
  e_sequence <$> l = seqZ m n -> order_by e_sequence l = l.
Proof.
  revert m n. induction l as [|e l IH]; intros m n Hl; [done|].
  destruct (decide (0 < n)); [|by rewrite seqZ_nil in Hl by lia].
  rewrite seqZ_cons in Hl by lia. injection Hl as He Hl. simpl. rewrite (IH _ _ Hl).
  destruct l as [|e' l']; [done|]. simpl.
  destruct (decide (0 < Z.pred n)); [|by rewrite seqZ_nil in Hl by lia].
  rewrite seqZ_cons in Hl by lia. injection Hl as He' _.
  by replace (e_sequence e <=? e_sequence e') with true by (symmetry; lia).
Qed.

Lemma numbered_drop (l : list EventRow) k :
  e_sequence <$> l = seqZ 1 (Z.of_nat (length l)) ->
  e_sequence <$> drop k l = seqZ (1 + Z.of_nat k) (Z.of_nat (length (drop k l))).
Proof.
  intros Hl. rewrite fmap_drop, Hl, length_drop.
  destruct (decide (k <= length l)%nat).
  - replace (Z.of_nat (length l)) with (Z.of_nat k + Z.of_nat (length l - k)) by lia.
    rewrite seqZ_app by lia.
    replace k with (length (seqZ 1 (Z.of_nat k))) at 1 by (rewrite length_seqZ; lia).
    by rewrite drop_app_length.
  - rewrite drop_ge by (rewrite length_seqZ; lia). by rewrite seqZ_nil by lia.
Qed.

Lemma collect_records l :
  Forall (fun e => 0 <= e_sequence e /\ 0 <= e_recorded_at_ms e) l ->
  collect_res event_record l = Ok (record_of <$> l).
Proof.
  induction 1 as [|e l [H1 H2] _ IH]; [done|]. simpl. rewrite IH. unfold event_record, unsigned_integer.
  by replace (0 <=? e_sequence e) with true by (symmetry; lia);
    replace (0 <=? e_recorded_at_ms e) with true by (symmetry; lia).
Qed.

Lemma event_log_elem s id e : e ∈ event_log s id <-> e ∈ events s /\ e_request_id e = id.
Proof.
  unfold event_log. rewrite list_elem_of_In, filter_In, <-list_elem_of_In. unfold event_of.
  by rewrite String.eqb_eq.
Qed.

Lemma log_positive s id e : store_inv s -> e ∈ event_log s id -> 1 <= e_sequence e.
Proof.
  intros Hinv He. assert (Hin : e_sequence e ∈ e_sequence <$> event_log s id)
    by (apply list_elem_of_fmap; eauto).
  rewrite (inv_log s Hinv), elem_of_seqZ in Hin. lia.
Qed.

Section safety.
Context `{Sha256} `{FlowCodec}.

(** The row of a request after any calls. *)
Lemma row_after calls s r :
  store_inv s -> r ∈ requests s ->
  exists r', r' ∈ requests (run_calls calls s)
    /\ rtc (row_move (tokens (fun _ => True))) r r' /\ identity_of r' = identity_of r
    /\ forall x, x ∈ requests (run_calls calls s) -> q_request_id x = q_request_id r -> x = r'.
Proof.
  intros Hinv Hr. destruct (run_calls_extends _ calls s Hinv (any_token calls)) as [Hext _].
  apply list_elem_of_lookup in Hr as [i Hi]. destruct (Hext i r Hi) as (r' & Hi' & Hm).
  pose proof (row_moves_identity _ _ Hm) as Heq.
  exists r'. split_and!; [by eapply list_elem_of_lookup_2|done|done|].
  intros x Hx Hid. apply list_elem_of_lookup in Hx as [j Hj]. injection Heq as Heq _ _ _ _ _ _ _.
  destruct (same_row _ j i x r' (schema_unique _ (inv_schema _ (run_calls_inv calls s Hinv))) Hj Hi')
    as [_ ->]; [congruence|done].
Qed.

Lemma find_row s r :
  store_inv s -> r ∈ requests s -> List.find (by_id (q_request_id r)) (requests s) = Some r.
Proof.
  intros Hinv Hr. destruct (List.find _ _) as [x|] eqn:Ef.
  - apply found_row in Ef as [Hx [j Hj]]. apply by_id_eq in Hx.
    apply list_elem_of_lookup in Hr as [i Hi].
    by destruct (same_row s j i x r (schema_unique _ (inv_schema _ Hinv)) Hj Hi Hx) as [_ ->].
  - apply list_elem_of_In in Hr. pose proof (List.find_none _ _ Ef r Hr) as Hn.
    unfold by_id in Hn. by rewrite String.eqb_refl in Hn.
Qed.

(** C16: every call keeps the store's invariant: the CHECKs, keys and the
    one-active-lease index of the requests table, queue sequences below the
    project's counter, per-request event logs numbered 1, 2, 3, .. that start
    with the acceptance; and the empty database satisfies it. *)
Theorem store_invariant calls s : s = empty_store \/ store_inv s -> store_inv (run_calls calls s).
Proof. intros [->|Hinv]; apply run_calls_inv; [apply empty_store_inv|done]. Qed.

(** The replay of a known request. *)
Lemma replay_row s r after expected :
  store_inv s -> r ∈ requests s -> 0 <= after <= i64_max ->
  ensure_expected_target_kind (q_request_id r) (q_operation_kind r) expected = Ok tt ->
  replay s (q_request_id r) after expected
  = Ok {| rp_events := record_of <$> drop (Z.to_nat after) (event_log s (q_request_id r));
          rp_result := result_of r |}.
Proof.
  intros Hinv Hr Hafter Hexp. unfold replay. rewrite (find_row s r Hinv Hr). cbn [ok_or].
  rewrite Hexp, parse_state_as_str, stored_result_row, sql_integer_in
    by (first [by eapply schema_check; [apply Hinv|] | lia]).
  set (id := q_request_id r).
  assert (Hf : List.filter (fun e => event_of id e && (after <? e_sequence e)) (events s)
    = drop (Z.to_nat after) (event_log s id)).
  { transitivity (List.filter (fun e => after <? e_sequence e) (event_log s id)).
    - unfold event_log. induction (events s) as [|e l IH]; simpl; [done|].
      destruct (event_of id e); simpl; [|done]. destruct (after <? e_sequence e); by rewrite IH.
    - rewrite (numbered_filter _ 0) by apply (inv_log s Hinv). f_equal. lia. }
  rewrite Hf, (numbered_sorted _ _ _ (numbered_drop _ _ (inv_log s Hinv id))), collect_records; [done|].
  apply Forall_forall. intros e He. apply list_elem_of_lookup in He as [k Hk].
  rewrite lookup_drop in Hk. apply list_elem_of_lookup_2 in Hk as He.
  pose proof (log_positive s id e Hinv He). apply event_log_elem in He as [He _].
  pose proof (inv_events s Hinv e He) as [? _]. lia.
Qed.

Lemma event_log_prefix calls s id :
  store_inv s -> event_log s id `prefix_of` event_log (run_calls calls s) id.
Proof.
  intros Hinv. destruct (run_calls_extends _ calls s Hinv (any_token calls)) as [_ [k Hk]].
  unfold event_log. rewrite Hk, List.filter_app. by apply prefix_app_r.
Qed.

Lemma drop_prefix {A} n (l k : list A) : l `prefix_of` k -> drop n l `prefix_of` drop n k.
Proof.
  intros [x ->]. destruct (decide (n <= length l)%nat).
  - rewrite drop_app_le by done. by apply prefix_app_r.
  - rewrite drop_ge by lia. apply prefix_nil.
Qed.

(** C19: a finished request is final: after any further calls its row is the
    same, it can be replayed, and every replay returns the same result. *)
Theorem terminal_requests_final calls s r after :
  store_inv s -> r ∈ requests s -> is_terminal_state (q_state r) = true ->
  0 <= after <= i64_max ->
  r ∈ requests (run_calls calls s)
  /\ exists payload completed evs1 evs2,
       q_result r = Some payload /\ q_completed_at_ms r = Some completed
       /\ let result := Some {| st_state := q_state r; st_payload := payload;
                                st_completed_at_ms := completed |} in
          replay s (q_request_id r) after None = Ok {| rp_events := evs1; rp_result := result |}
          /\ replay (run_calls calls s) (q_request_id r) after None
             = Ok {| rp_events := evs2; rp_result := result |}.
Proof.
  intros Hinv Hr Ht Hafter. destruct (row_after calls s r Hinv Hr) as (r' & Hr' & Hm & _ & _).
  apply terminal_no_move in Hm as ->; [|done]. split; [done|].
  pose proof (schema_check _ _ (inv_schema s Hinv) Hr) as Hck.
  apply request_check_spec in Hck as (_ & _ & _ & _ & _ & _ & Hs).
  pose proof (replay_row s r after None Hinv Hr Hafter eq_refl) as H1.
  pose proof (replay_row _ r after None (run_calls_inv calls s Hinv) Hr' Hafter eq_refl) as H2.
  unfold result_shape in Hs. unfold result_of in H1, H2. rewrite Ht in H1, H2.
  destruct (q_result r) as [payload|], (q_completed_at_ms r) as [t|];
    try (by destruct (q_state r)). eauto 10.
Qed.

(** Replaying a request's log after sequence [n] returns exactly its events
    [n + 1], [n + 2], .. in order, to the last; the log is never empty, starts
    with the acceptance, and later stores only extend it. *)
Theorem replay_exact calls s r after :
  store_inv s -> r ∈ requests s -> 0 <= after <= i64_max ->
  exists rp rp',
    replay s (q_request_id r) after None = Ok rp
    /\ rp_events rp = record_of <$> drop (Z.to_nat after) (event_log s (q_request_id r))
    /\ ev_sequence <$> rp_events rp = seqZ (after + 1) (Z.of_nat (length (rp_events rp)))
    /\ e_kind <$> head (event_log s (q_request_id r)) = Some "accepted"
    /\ replay (run_calls calls s) (q_request_id r) after None = Ok rp'
    /\ rp_events rp `prefix_of` rp_events rp'.
Proof.
  intros Hinv Hr Hafter. destruct (row_after calls s r Hinv Hr) as (r' & Hr' & _ & Heq & _).
  injection Heq as Heq _ _ _ _ _ _ _.
  pose proof (replay_row s r after None Hinv Hr Hafter eq_refl) as H1.
  pose proof (replay_row _ r' after None (run_calls_inv calls s Hinv) Hr' Hafter eq_refl) as H2.
  rewrite Heq in H2. eexists _, _. split_and!; [exact H1|done| | |exact H2|].
  - cbn [rp_events]. rewrite <-list_fmap_compose, length_fmap.
    change (ev_sequence ∘ record_of) with e_sequence.
    rewrite (numbered_drop _ _ (inv_log s Hinv _)). f_equal. lia.
  - by apply (inv_accepted s Hinv).
  - cbn [rp_events]. destruct (drop_prefix (Z.to_nat after) _ _ (event_log_prefix calls s (q_request_id r) Hinv))
      as [k ->]. rewrite fmap_app. by apply prefix_app_r.
Qed.

(** In [s] the request of [r'] was in cancellation with [result], and the
    terminal checkpoint stored for its flow run there had the outcome that
    allows the state of [r'], and its encoded result is the one of [r']. *)
Definition ended_by_checkpoint (s : Store) (result : string) (r' : RequestRow) : Prop :=
  (exists r, r ∈ requests s /\ q_request_id r = q_request_id r' /\ in_cancellation result r)
  /\ q_operation_kind r' = FLOW_OPERATION_KIND
  /\ exists encoded, q_result r' = Some encoded /\ overriding s (q_request_id r') (q_state r') encoded.

(** What a request that was in cancellation in [s] is after [calls]. *)
Definition cancellation_kept (calls : list StoreCall) (s : Store) (result : string) (r' : RequestRow) : Prop :=
  in_cancellation result r'
  \/ q_state r' = ReqCancelled /\ q_result r' = Some result
  \/ exists before c after, calls = before ++ c :: after
       /\ ended_by_checkpoint (run_calls before s) result r'
       /\ r' ∈ requests (run_calls (before ++ [c]) s).

Lemma run_calls_snoc calls c s : run_calls (calls ++ [c]) s = run_call c (run_calls calls s).
Proof. unfold run_calls. by rewrite foldl_app. Qed.

(** The row of a request after one more call. *)
Lemma row_after_call c s r :
  store_inv s -> r ∈ requests s ->
  exists r', r' ∈ requests (run_call c s) /\ identity_of r' = identity_of r
    /\ rtc (row_move {| hands_token _ := True; overrides_with := overriding s |}) r r'.
Proof.
  intros Hinv Hr. apply list_elem_of_lookup in Hr as [i Hi].
  assert (Hext : extends {| hands_token _ := True; overrides_with := overriding s |} s (run_call c s)).
  { apply store_steps_extends, run_call_steps; [by intros ???|apply Hinv|by destruct c]. }
  destruct Hext as [Hext _]. destruct (Hext i r Hi) as (r' & Hi' & Hm). exists r'.
  split; [by eapply list_elem_of_lookup_2|]. split; [by eapply row_moves_identity|done].
Qed.

(** C20: an accepted cancellation is never lost. Once a request is in
    cancellation with a result, after any calls it is still in cancellation with
    that result, or cancelled with that result, or it is a flow run that a
    single call ended while it was in cancellation with that result: its
    result is then the encoded result of the terminal checkpoint stored for it
    at that moment, and either that checkpoint's outcome is "cancelled" and the
    request is cancelled, or the outcome is "blocked" with the cancellation
    override flag set and the request is failed. It never returns to the queue
    or to work, and never succeeds. *)
Theorem cancellation_never_lost calls s r result :
  store_inv s -> r ∈ requests s -> q_state r = ReqCancellationRequested ->
  q_result r = Some result ->
  exists r', r' ∈ requests (run_calls calls s) /\ q_request_id r' = q_request_id r
    /\ cancellation_kept calls s result r'.
Proof.
  intros Hinv Hr Hst Hres. induction calls as [|c calls IH] using rev_ind.
  { exists r. split; [done|]. split; [done|]. by left. }
  destruct IH as (r1 & Hr1 & Hid1 & Hkept). rewrite run_calls_snoc.
  destruct (row_after_call c _ r1 (run_calls_inv calls s Hinv) Hr1) as (r2 & Hr2 & Heq & Hm).
  injection Heq as Hid _ _ _ _ _ _ _. exists r2. split; [done|]. split; [congruence|].
  destruct Hkept as [Hin|[Hend|(before & c' & after & -> & Hend & Hr')]].
  - destruct (cancellation_moves _ _ _ _ Hm Hin) as [?|[?|(Hk & encoded & Henc & Hov)]]; [by left|by right; left|].
    right. right. exists calls, c, []. split; [done|]. split; [|by rewrite run_calls_snoc].
    split; [by exists r1|]. split; [done|]. by exists encoded.
  - apply terminal_no_move in Hm as ->; [by right; left|]. by destruct Hend as [-> _].
  - apply terminal_no_move in Hm as ->.
    + right. right. exists before, c', (after ++ [c]). by rewrite <-app_assoc.
    + destruct Hend as (_ & _ & encoded & _ & row & _ & _ & [[-> _]|[-> _]]); done.
Qed.

(** ** Idempotent acceptance *)

Lemma find_acceptance s r a :
  store_inv s -> r ∈ requests s -> same_acceptance a r = true ->
  List.find (same_acceptance a) (requests s) = Some r.
Proof.
  intros Hinv Hr Ha. destruct (List.find _ _) as [x|] eqn:Ef.
  - apply found_row in Ef as [Hx [j Hj]]. apply list_elem_of_lookup in Hr as [i Hi].
    unfold same_acceptance in Ha, Hx. rewrite !andb_true_iff, !String.eqb_eq in Ha, Hx.
    destruct (inv_schema s Hinv) as (_ & _ & Hnd & _).
    assert (i = j) as ->.
    { eapply (NoDup_lookup _ _ _ (idempotency_columns r) Hnd); rewrite list_lookup_fmap;
        [by rewrite Hi|rewrite Hj]. unfold idempotency_columns. simpl. f_equal.
      destruct_and!. congruence. }
    congruence.
  - apply list_elem_of_In in Hr. by rewrite (List.find_none _ _ Ef r Hr) in Ha.
Qed.

(** C21: acceptance is idempotent over the whole life of a request. After
    [accept] created a request, and after any further calls, accepting a request
    of a kind other than a flow run again under the same caller, project and
    idempotency key, at a time within [i64], changes nothing: the same operation
    returns the original request with its current state, and a different
    operation is refused with the original request's id. Flow runs are accepted
    by [authorize_flow_run] instead. *)
Theorem accept_idempotent s s1 a b now now' id sequence calls :
  store_inv s -> accept a now s = (s1, Ok (Created id sequence)) ->
  ar_caller_id b = ar_caller_id a -> ar_project_id b = ar_project_id a ->
  ar_idempotency_key b = ar_idempotency_key a ->
  ar_operation_kind b <> FLOW_OPERATION_KIND -> now' <= i64_max ->
  let s2 := run_calls calls s1 in
  exists r, r ∈ requests s2 /\ q_request_id r = id /\ id = ar_request_id a
    /\ q_queue_sequence r = sequence
    /\ accept b now' s2
       = (s2, if String.eqb (ar_operation_kind a) (ar_operation_kind b)
                 && String.eqb (ar_operation a) (ar_operation b)
              then Ok (Existing id (q_state r)) else Err (IdempotencyConflict id)).
Proof.
  intros Hinv Hacc Hc Hp Hk Hkind Hnow. cbn zeta. unfold accept in Hacc. apply transaction_Ok in Hacc.
  destruct (String.eqb (ar_operation_kind a) FLOW_OPERATION_KIND); [by tx_leaf|].
  apply tx_bind_Ok in Hacc as (? & n & Hn & Hacc). tx_leaf. tx_facts.
  pose proof (accept_tx_steps (T := any_moves) _ _ _ _ _ Hacc) as Hsteps.
  pose proof (store_steps_inv _ _ Hsteps Hinv) as Hinv1.
  apply accept_tx_Ok in Hacc as [(r & _ & _ & _ & _ & ?)|(_ & _ & Hs1 & _ & Hout & _ & _)]; [done|].
  injection Hout as -> ->. set (next := default 1 (projects s !! ar_project_id a)).
  assert (Hr : queued_row a next now ∈ requests s1).
  { rewrite Hs1. cbn. apply elem_of_app. right. by apply list_elem_of_singleton. }
  destruct (row_after calls s1 _ Hinv1 Hr) as (r' & Hr' & _ & Heq & _).
  injection Heq as E1 E2 E3 E4 E5 E6 E7 _. cbn in *.
  exists r'. split_and!; [done|congruence|done|congruence|].
  assert (Hsame : same_acceptance b r' = true).
  { unfold same_acceptance. rewrite !andb_true_iff, !String.eqb_eq. split_and!; congruence. }
  unfold accept, transaction. replace (String.eqb (ar_operation_kind b) FLOW_OPERATION_KIND) with false
    by (symmetry; by apply String.eqb_neq).
  rewrite (bind_lift _ _ _ now') by by apply sql_integer_in.
  unfold accept_tx, existing_acceptance_tx.
  assert (Hsel : select_request (same_acceptance b) (run_calls calls s1) = Ok (run_calls calls s1, Some r')).
  { unfold select_request, tx_read. by rewrite (find_acceptance _ r' b (run_calls_inv _ _ Hinv1) Hr' Hsame). }
  unfold mbind at 1, tx_bind at 1. rewrite (bind_Ok _ _ _ _ _ Hsel), E5, E6, E1.
  destruct (_ && _); [|done]. by rewrite (bind_lift _ _ _ (q_state r')) by apply parse_state_as_str.
Qed.

End safety.
