(* ===== verification/StoreRecover.v ===== *)
(** * Recovery of leases

    What [recover_leases] does to the table, exactly: each lease it selects is
    released or turned into the cancellation it was waiting for, with one
    event, and nothing else changes. *)

From S2P Require Import Prelude Core Policy FlowDef FlowData FlowSnapshot StoreDef StoreFlow StoreQueue.
From S2P Require Import StoreStep StoreEffect StoreInv StoreClaim StoreSafety.

Local Open Scope Z_scope.

(** The row of a recovered request that is not a finished flow run: a working
    request returns to the queue, a cancellation takes effect. *)
Definition recovered (now : Z) (r : RequestRow) : RequestRow :=
  match q_state r with
  | ReqLeased => clear_lease (set_req_state r ReqQueued)
  | ReqCancellationRequested => finish_row ReqCancelled now (q_result r) r
  | _ => r
  end.

Definition recovery_event (r : RequestRow) : string :=
  match q_state r with ReqLeased => "lease_expired" | _ => "cancelled" end.

Definition lease_of (r : RequestRow) : ActiveLease :=
  {| al_request_id := q_request_id r; al_state := q_state r;
     al_operation_kind := q_operation_kind r |}.

Definition selected (recovery : LeaseRecovery) (now : Z) (r : RequestRow) : bool :=
  active_row r && recoverable recovery now r.

Lemma recovered_identity now r : identity_of (recovered now r) = identity_of r.
Proof. unfold recovered. by destruct (q_state r). Qed.

Lemma recovered_inactive now r : active_row r = true -> active_row (recovered now r) = false.
Proof. unfold active_row, recovered. by destruct (q_state r). Qed.

Lemma recovered_check now r :
  0 <= now -> active_row r = true -> request_check r = true -> request_check (recovered now r) = true.
Proof.
  intros Hnow Ha. rewrite !request_check_spec. unfold recovered, active_row in *.
  unfold lease_shape, result_shape. intros (H1 & H2 & H3 & H4 & H5 & H6 & H7).
  destruct (q_state r) eqn:Es; try done; cbn in *; split_and!; try done.
  - by apply Z.leb_le.
  - apply andb_true_iff in H7. by destruct H7.
Qed.

Lemma recovered_schema s i r now :
  store_inv s -> requests s !! i = Some r -> 0 <= now -> active_row r = true ->
  requests_schema (<[i := recovered now r]> (requests s)).
Proof.
  intros Hinv Hi Hnow Ha. pose proof (inv_schema s Hinv) as Hs.
  apply (schema_insert _ i r); [done|done|apply recovered_identity| |].
  - apply recovered_check; [done|done|]. eapply schema_check; [done|]. by eapply list_elem_of_lookup_2.
  - left. by apply recovered_inactive.
Qed.

Section recovery.
Context `{Sha256} `{FlowCodec}.

(** The store after one lease is recovered. *)
Definition recovered_store (now : Z) (i : nat) (r : RequestRow) (s : Store) : Store :=
  with_event (set_requests s (<[i := recovered now r]> (requests s)))
    (q_request_id r) now (recovery_event r) "".

Lemma no_terminal_flow id kind s :
  kind <> FLOW_OPERATION_KIND -> validated_terminal_flow_result id kind s = Ok (s, None).
Proof.
  intros Hk. unfold validated_terminal_flow_result. by apply String.eqb_neq in Hk as ->.
Qed.

Lemma recover_one_evaluates now recovery s i r :
  store_inv s -> requests s !! i = Some r -> 0 <= now -> selected recovery now r = true ->
  q_operation_kind r <> FLOW_OPERATION_KIND -> max_sequence (q_request_id r) (events s) < i64_max ->
  recover_one now recovery (lease_of r) s = Ok (recovered_store now i r s, 1%nat).
Proof.
  intros Hinv Hi Hnow Hsel Hk Hmax. apply andb_true_iff in Hsel as [Ha Hrec].
  pose proof (schema_unique s (inv_schema s Hinv)) as Hu.
  pose proof (recovered_schema s i r now Hinv Hi Hnow Ha) as Hs.
  pose proof (append_event_succeeds (set_requests s (<[i := recovered now r]> (requests s))) i
    (recovered now r) now (recovery_event r) ""
    (list_lookup_insert_eq _ _ _ (lookup_lt_Some _ _ _ Hi)) Hnow) as Hev.
  pose proof (recovered_identity now r) as Hid. injection Hid as Hid _ _ _ _ _ _ _.
  rewrite Hid in Hev. specialize (Hev Hmax).
  unfold recover_one, recovered_row, lease_of in *. cbn [al_state al_request_id al_operation_kind].
  unfold active_row in Ha. unfold recovered_store, recovered, recovery_event in *.
  destruct (q_state r) eqn:Es; try done.
  - rewrite (bind_Ok _ _ _ _ _ (no_terminal_flow (q_request_id r) _ s Hk)). unfold release_lease. cbv beta iota.
    erewrite bind_Ok; [|erewrite bind_Ok;
      [reflexivity|apply (update_requests_succeeds _ _ s i r Hu Hi); [| |exact Hs]]].
    + cbn [fst snd]. unfold append_if_changed. cbn [Nat.eqb].
      erewrite bind_Ok; [reflexivity|]. by rewrite (bind_Ok _ _ _ _ _ Hev).
    + rewrite !andb_true_iff. split_and!; [by apply by_id_eq|by apply state_is_true|done].
    + intros x Hx. by where_facts Hx.
  - rewrite (bind_Ok _ _ _ s None);
      [|unfold recovered_cancellation_flow_result; cbn [al_request_id al_operation_kind];
        by rewrite (bind_Ok _ _ _ _ _ (no_terminal_flow (q_request_id r) _ s Hk))].
    unfold finalize_recovered_cancellation. cbv beta iota.
    erewrite bind_Ok; [|erewrite bind_Ok;
      [reflexivity|apply (update_requests_succeeds _ _ s i r Hu Hi); [| |exact Hs]]].
    + cbn [fst snd]. unfold append_if_changed. cbn [Nat.eqb].
      erewrite bind_Ok; [reflexivity|]. by rewrite (bind_Ok _ _ _ _ _ Hev).
    + rewrite !andb_true_iff. split_and!; [by apply by_id_eq|by apply state_is_true|done].
    + intros x Hx. by where_facts Hx.
Qed.

(** The leases a recovery can settle by itself: no flow run, room in the log. *)
Definition settles (s : Store) (recovery : LeaseRecovery) (now : Z) (r : RequestRow) : Prop :=
  r ∈ requests s /\ selected recovery now r = true /\ q_operation_kind r <> FLOW_OPERATION_KIND
  /\ max_sequence (q_request_id r) (events s) < i64_max.

Lemma max_sequence_other s id id' now kind payload :
  id <> id' -> max_sequence id' (events (with_event s id now kind payload)) = max_sequence id' (events s).
Proof.
  intros Hne. unfold max_sequence, with_event. cbn [events set_events]. rewrite List.filter_app.
  cbn [List.filter]. unfold event_of at 2. cbn [e_request_id].
  apply String.eqb_neq in Hne as ->. by rewrite app_nil_r.
Qed.

Lemma recovered_step s i r recovery now :
  store_inv s -> requests s !! i = Some r -> selected recovery now r = true -> 0 <= now ->
  store_inv (recovered_store now i r s).
Proof.
  intros Hinv Hi Hsel Hnow. apply andb_true_iff in Hsel as [Ha _].
  pose proof (recovered_identity now r) as Hid. injection Hid as Hid _ _ _ _ _ _ _.
  unfold recovered_store. rewrite <-Hid. apply (inv_with_event _ i); [|cbn; apply list_lookup_insert_eq; by eapply lookup_lt_Some|done].
  apply (inv_set_row s i r); [done|done|apply recovered_identity|by apply recovered_schema].
Qed.

(** The other leases can still be settled after one was. *)
Lemma settles_after s i r x recovery now :
  store_inv s -> requests s !! i = Some r -> q_request_id x <> q_request_id r ->
  settles s recovery now x -> settles (recovered_store now i r s) recovery now x.
Proof.
  intros Hinv Hi Hne (Hx & Hsel & Hk & Hmax). split_and!; [|done|done|].
  - cbn. apply list_elem_of_lookup in Hx as [j Hj]. apply list_elem_of_lookup. exists j.
    rewrite list_lookup_insert_ne; [done|]. intros ->. congruence.
  - unfold recovered_store. rewrite max_sequence_other by done. done.
Qed.

(** The table after the leases of [todo] are recovered. *)
Definition recover_rows (now : Z) (todo : list RequestRow) (rows : list RequestRow)
  : list RequestRow :=
  (fun r => if existsb (fun x => by_id (q_request_id x) r) todo then recovered now r else r) <$> rows.

(** The kinds of the events of a request after the recovery. *)
Definition recovery_kinds (todo : list RequestRow) (id : RequestId) : list string :=
  recovery_event <$> List.filter (by_id id) todo.

Lemma recover_rows_cons s i r now todo :
  store_inv s -> requests s !! i = Some r -> q_request_id r ∉ q_request_id <$> todo ->
  recover_rows now todo (<[i := recovered now r]> (requests s)) = recover_rows now (r :: todo) (requests s).
Proof.
  intros Hinv Hi Hnin. apply list_eq. intros j. unfold recover_rows. rewrite !list_lookup_fmap.
  pose proof (recovered_identity now r) as Hid. injection Hid as Hid _ _ _ _ _ _ _.
  assert (Hno : existsb (fun x => by_id (q_request_id x) r) todo = false).
  { apply existsb_all_false, Forall_forall. intros x Hx. apply not_true_iff_false. rewrite by_id_eq.
    intros Heq. apply Hnin. rewrite Heq. apply list_elem_of_fmap. eauto. }
  destruct (decide (i = j)) as [<-|Hne].
  - rewrite list_lookup_insert_eq by (by eapply lookup_lt_Some). rewrite Hi. simpl.
    rewrite (proj2 (by_id_eq (q_request_id r) r) eq_refl). simpl.
    replace (existsb (fun x => by_id (q_request_id x) (recovered now r)) todo) with false; [done|].
    unfold by_id in Hno |- *. by rewrite Hid.
  - rewrite list_lookup_insert_ne by done. destruct (requests s !! j) as [x|] eqn:Hj; [|done]. simpl.
    destruct (by_id (q_request_id r) x) eqn:Eb; [|done]. exfalso. apply by_id_eq in Eb.
    destruct (same_row s i j r x (schema_unique _ (inv_schema _ Hinv)) Hi Hj) as [? _]; congruence.
Qed.

Lemma recover_loop_evaluates now recovery todo :
  0 <= now -> forall s acc, store_inv s -> NoDup (q_request_id <$> todo) ->
  (forall r, r ∈ todo -> settles s recovery now r) ->
  exists s', recover_loop now recovery (lease_of <$> todo) acc s = Ok (s', acc ++ (q_request_id <$> todo))
    /\ requests s' = recover_rows now todo (requests s)
    /\ (projects s', flow_runs s') = (projects s, flow_runs s)
    /\ forall id, e_kind <$> event_log s' id
                   = (e_kind <$> event_log s id) ++ recovery_kinds todo id.
Proof.
  intros Hnow. induction todo as [|r todo IH]; intros s acc Hinv Hnd Hall.
  - exists s. split_and!; [by rewrite app_nil_r| |done|intros id; by rewrite app_nil_r].
    unfold recover_rows. simpl. symmetry. apply list_fmap_id.
  - apply NoDup_cons in Hnd as [Hnin Hnd]. destruct (Hall r ltac:(by left)) as (Hr & Hsel & Hk & Hmax).
    apply list_elem_of_lookup in Hr as [i Hi].
    pose proof (recover_one_evaluates now recovery s i r Hinv Hi Hnow Hsel Hk Hmax) as Hone.
    destruct (IH (recovered_store now i r s) (acc ++ [q_request_id r])
                (recovered_step s i r recovery now Hinv Hi Hsel Hnow) Hnd)
      as (s' & Hloop & Hrows & Htab & Hev).
    { intros x Hx. apply settles_after; try done; [|by apply Hall; right].
      intros Heq. apply Hnin. change (q_request_id r ∈ q_request_id <$> todo).
      rewrite <-Heq. apply list_elem_of_fmap. eauto. }
    exists s'. split_and!.
    + cbn [fmap list_fmap recover_loop]. rewrite (bind_Ok _ _ _ _ _ Hone). cbn [Nat.eqb lease_of al_request_id].
      etrans; [exact Hloop|]. by rewrite <-app_assoc.
    + rewrite Hrows. by apply recover_rows_cons.
    + rewrite Htab. done.
    + intros id. rewrite Hev. unfold recovered_store. rewrite event_log_with_event, fmap_app, <-app_assoc.
      f_equal. unfold recovery_kinds. simpl. unfold by_id at 2.
      destruct (String.eqb (q_request_id r) id); done.
Qed.

Lemma active_leases_evaluates now recovery s :
  active_leases now recovery s
  = Ok (s, lease_of <$> order_by q_accepted_at_ms (List.filter (selected recovery now) (requests s))).
Proof.
  unfold active_leases. change (fun r => active_row r && recoverable recovery now r) with (selected recovery now).
  rewrite (bind_Ok _ _ _ s (order_by q_accepted_at_ms (List.filter (selected recovery now) (requests s)))) by done.
  unfold tx_lift. generalize (order_by q_accepted_at_ms (List.filter (selected recovery now) (requests s))) as l.
  intros l. assert (Hc : collect_res (fun r => let? state := parse_state (as_str (q_state r)) in
    Ok {| al_request_id := q_request_id r; al_state := state; al_operation_kind := q_operation_kind r |}) l
    = Ok (lease_of <$> l)).
  { induction l as [|r l IH]; [done|]. simpl. by rewrite parse_state_as_str, IH. }
  by rewrite Hc.
Qed.

(** [todo], the selected rows in whatever order, selects by id what the WHERE
    clause selects by column. *)
Lemma recover_rows_selected now recovery s todo :
  store_inv s -> todo ≡ₚ List.filter (selected recovery now) (requests s) ->
  recover_rows now todo (requests s)
  = (fun r => if selected recovery now r then recovered now r else r) <$> requests s.
Proof.
  intros Hinv Hp. apply list_fmap_ext. intros i r Hi.
  assert (Heq : existsb (fun x => by_id (q_request_id x) r) todo = selected recovery now r); [|by rewrite Heq].
  apply eq_true_iff_eq. rewrite existsb_true_elem. split.
  - intros (x & Hx & Hid). apply by_id_eq in Hid. rewrite Hp in Hx.
    apply list_elem_of_In, filter_In in Hx as [Hx Hsel]. apply list_elem_of_In, list_elem_of_lookup in Hx as [j Hj].
    by destruct (same_row s i j r x (schema_unique _ (inv_schema _ Hinv)) Hi Hj Hid) as [_ ->].
  - intros Hsel. exists r. split; [|by apply by_id_eq]. rewrite Hp. apply list_elem_of_In, filter_In.
    split; [apply list_elem_of_In; by eapply list_elem_of_lookup_2|done].
Qed.

(** Recovery settles exactly the selected leases (all of them, or those
    whose expiry has passed): a working request returns to the queue with its
    attempt count kept and its lease cleared, a request in cancellation becomes
    cancelled with its recorded result, each with one event; the ids come back
    in acceptance order and every other row, log and table is untouched. A
    recovery of all leases leaves no active request. *)
Theorem recovery_exact now recovery s :
  store_inv s -> 0 <= now <= i64_max ->
  (forall r, r ∈ requests s -> selected recovery now r = true ->
     q_operation_kind r <> FLOW_OPERATION_KIND
     /\ max_sequence (q_request_id r) (events s) < i64_max) ->
  let todo := order_by q_accepted_at_ms (List.filter (selected recovery now) (requests s)) in
  exists s', recover_leases now recovery s = (s', Ok (q_request_id <$> todo))
    /\ requests s' = (fun r => if selected recovery now r then recovered now r else r) <$> requests s
    /\ (projects s', flow_runs s') = (projects s, flow_runs s)
    /\ (forall id, e_kind <$> event_log s' id = (e_kind <$> event_log s id) ++ recovery_kinds todo id)
    /\ (recovery = RecoverAll -> forall r, r ∈ requests s' -> active_row r = false).
Proof.
  intros Hinv Hnow Hall. cbn zeta.
  set (todo := order_by q_accepted_at_ms (List.filter (selected recovery now) (requests s))).
  assert (Hp : todo ≡ₚ List.filter (selected recovery now) (requests s)) by apply order_by_perm.
  assert (Hin : forall r, r ∈ todo -> r ∈ requests s /\ selected recovery now r = true).
  { intros r. rewrite Hp. rewrite list_elem_of_In, filter_In, <-list_elem_of_In. done. }
  assert (Hnd : NoDup (q_request_id <$> todo)).
  { rewrite Hp. eapply sublist_NoDup; [apply (schema_unique s (inv_schema s Hinv))|].
    apply fmap_sublist. clear. induction (requests s) as [|x l IH]; simpl; [done|].
    destruct (selected _ _ x); [by apply sublist_skip|by apply sublist_cons]. }
  destruct (recover_loop_evaluates now recovery todo (proj1 Hnow) s [] Hinv Hnd)
    as (s' & Hloop & Hrows & Htab & Hev).
  { intros r Hr. destruct (Hin r Hr) as [H1 H2]. destruct (Hall r H1 H2) as [H3 H4]. by split_and!. }
  rewrite (recover_rows_selected now recovery s todo Hinv Hp) in Hrows.
  exists s'. split_and!; try done.
  - unfold recover_leases, recover_leases_tx, transaction.
    rewrite (bind_lift _ _ _ now) by (apply sql_integer_in; lia).
    rewrite (bind_Ok _ _ _ _ _ (active_leases_evaluates now recovery s)). fold todo. by rewrite Hloop.
  - intros -> r Hr. rewrite Hrows in Hr. apply list_elem_of_fmap in Hr as (x & -> & Hx).
    unfold selected. simpl. rewrite andb_true_r. destruct (active_row x) eqn:Ea; [|done].
    by apply recovered_inactive.
Qed.

End recovery.

(** ** Serving the queue

    Completion under a live lease always succeeds, and a server that claims
    and finishes empties the queue: every queued request is served. *)

Lemma finished_check state now result r :
  0 <= now -> is_terminal_state state = true -> request_check r = true ->
  request_check (finish_row state now (Some result) r) = true.
Proof.
  rewrite !request_check_spec. unfold lease_shape, result_shape, finish_row. cbn.
  intros Hnow Ht (H1 & H2 & H3 & _). destruct state; try done; cbn; split_and!; try done; by apply Z.leb_le.
Qed.

Lemma finished_schema s i r state now result :
  store_inv s -> requests s !! i = Some r -> 0 <= now -> is_terminal_state state = true ->
  requests_schema (<[i := finish_row state now (Some result) r]> (requests s)).
Proof.
  intros Hinv Hi Hnow Ht. pose proof (inv_schema s Hinv) as Hs.
  apply (schema_insert _ i r); [done|done|done| |].
  - apply finished_check; [done|done|]. eapply schema_check; [done|]. by eapply list_elem_of_lookup_2.
  - left. cbn. by destruct state.
Qed.

(** The store after the request at [i] finished. *)
Definition finished_store (state : RequestState) (now : Z) (payload kind : string) (i : nat)
    (r : RequestRow) (s : Store) : Store :=
  with_event (set_requests s (<[i := finish_row state now (Some payload) r]> (requests s)))
    (q_request_id r) now kind "".

Lemma find_live s i r lease now :
  store_inv s -> requests s !! i = Some r -> live_lease lease now r = true ->
  List.find (live_lease lease now) (requests s) = Some r.
Proof.
  intros Hinv Hi Hl. destruct (List.find _ _) as [x|] eqn:Ef.
  - apply found_row in Ef as [Hx [j Hj]]. apply live_lease_spec in Hx as [Hx _]. apply live_lease_spec in Hl as [Hl _].
    by destruct (same_row s j i x r (schema_unique _ (inv_schema _ Hinv)) Hj Hi) as [_ ->]; [congruence|].
  - pose proof (List.find_none _ _ Ef r (proj1 (list_elem_of_In _ _) (list_elem_of_lookup_2 _ _ _ Hi))).
    congruence.
Qed.

Lemma finish_event lease now s i r st pl k :
  requests s !! i = Some r -> q_request_id r = le_request_id lease -> 0 <= now <= i64_max ->
  max_sequence (q_request_id r) (events s) < i64_max ->
  append_event_tx (le_request_id lease) now k ""
    (set_requests s (<[i := finish_row st now (Some pl) r]> (requests s)))
  = Ok (finished_store st now pl k i r s, max_sequence (q_request_id r) (events s) + 1).
Proof.
  intros Hi Hid Hnow Hmax. rewrite <-Hid.
  apply (append_event_succeeds (set_requests s _) i (finish_row st now (Some pl) r)); [|lia|done].
  cbn. apply list_lookup_insert_eq. by eapply lookup_lt_Some.
Qed.

Lemma finish_update lease now s i r st pl f stored :
  store_inv s -> requests s !! i = Some r -> live_lease lease now r = true -> 0 <= now <= i64_max ->
  q_state r = stored -> is_terminal_state st = true -> f r = finish_row st now (Some pl) r ->
  update_requests (fun x => live_lease lease now x && state_is (q_state x) stored) f s
  = Ok (set_requests s (<[i := finish_row st now (Some pl) r]> (requests s)), 1%nat).
Proof.
  intros Hinv Hi Hl Hnow <- Hst Hf. rewrite <-Hf.
  pose proof (schema_unique s (inv_schema s Hinv)) as Hu.
  apply live_lease_spec in Hl as Hid. destruct Hid as [Hid _].
  apply (update_requests_succeeds _ _ s i r Hu Hi).
  - by rewrite Hl, (proj2 (state_is_true _ _) eq_refl).
  - rewrite Hid. where_id.
  - rewrite Hf. apply finished_schema; try done. lia.
Qed.

Section serve.
Context `{Sha256} `{FlowCodec}.

(** What [finish] returns and leaves, for the state of the leased row. *)
Definition finish_resolution (ts : TerminalState) (result : string) (r : RequestRow)
  : option (RequestState * string * string) :=
  match q_state r, ts with
  | ReqLeased, TermCancelled => None
  | ReqLeased, _ => Some (terminal_request_state ts, result, terminal_event_kind ts)
  | ReqCancellationRequested, _ => Some (ReqCancelled, default "" (q_result r), "cancelled")
  | _, _ => None
  end.

(** [finish] under a live lease: a working request takes the given terminal
    state and result, a request in cancellation becomes cancelled with its
    recorded result whatever the caller reports, the lease is cleared and one
    event is recorded; only reporting a cancellation nobody requested is
    refused, and leaves the store as it was. *)
Theorem finish_resolves lease now ts result s i r :
  store_inv s -> requests s !! i = Some r -> live_lease lease now r = true ->
  0 <= now <= i64_max -> max_sequence (q_request_id r) (events s) < i64_max ->
  finish lease now ts result s
  = match finish_resolution ts result r with
    | Some (state, payload, kind) =>
      (finished_store state now payload kind i r s,
       Ok {| st_state := state; st_payload := payload; st_completed_at_ms := now |})
    | None =>
      (s, Err (InvalidState
           "a leased request cannot finish cancelled without a durable cancellation request"))
    end.
Proof.
  intros Hinv Hi Hl Hnow Hmax. pose proof (inv_schema s Hinv) as Hs.
  pose proof (schema_unique s Hs) as Hu. pose proof (find_live s i r lease now Hinv Hi Hl) as Hf.
  pose proof (schema_check _ _ Hs (list_elem_of_lookup_2 _ _ _ Hi)) as Hck.
  apply request_check_spec in Hck as (_ & _ & _ & _ & _ & _ & Hres). unfold result_shape in Hres.
  apply live_lease_spec in Hl as Hls. destruct Hls as (Hid & Hact & _).
  unfold finish, finish_tx, transaction. rewrite (bind_lift _ _ _ now) by (apply sql_integer_in; lia).
  rewrite (bind_Ok _ _ _ s (Some r)) by (unfold select_request, tx_read; by rewrite Hf).
  rewrite (bind_lift _ _ _ r) by done. rewrite (bind_lift _ _ _ (q_state r)) by apply parse_state_as_str.
  unfold finish_resolution. destruct (q_state r) eqn:Es; try done.
  - apply andb_true_iff in Hres as [_ Hn]. apply bool_decide_eq_true in Hn. rewrite Hn.
    destruct ts; [| |done];
      (erewrite bind_Ok; [|erewrite bind_Ok;
         [reflexivity|eapply finish_update; [done|done|done|done|done| |reflexivity]; done]];
       cbn [Nat.eqb negb]; by rewrite (bind_Ok _ _ _ _ _ (finish_event lease now s i r _ _ _ Hi Hid Hnow Hmax))).
  - apply andb_true_iff in Hres as [_ Hn]. apply bool_decide_eq_true in Hn as [pl Hpl]. rewrite Hpl.
    erewrite bind_Ok; [|erewrite bind_Ok;
      [reflexivity|apply (finish_update lease now s i r ReqCancelled pl); try done; by rewrite Hpl]].
    cbn [Nat.eqb negb]. by rewrite (bind_Ok _ _ _ _ _ (finish_event lease now s i r _ _ _ Hi Hid Hnow Hmax)).
Qed.

(** ** A server that claims and finishes *)

(** [n] rounds of claiming with a fresh token and finishing what was claimed;
    it stops when nothing can be claimed. *)
Fixpoint serve (n : nat) (owner : string) (token : nat -> string) (now d : Z) (result : string)
    (s : Store) : Store :=
  match n with
  | O => s
  | S n =>
    match claim owner (token n) now d s with
    | (s1, Ok (Some lr)) =>
      serve n owner token now d result (finish (lr_lease lr) now TermSucceeded result s1).1
    | (s1, _) => s1
    end
  end.

(** No lease is held, and every queued request is plain work whose counters
    have room for one more round. *)
Definition idle (s : Store) : Prop :=
  store_inv s /\ forall r, r ∈ requests s ->
    active_row r = false
    /\ (q_state r = ReqQueued -> q_operation_kind r <> FLOW_OPERATION_KIND
        /\ q_attempt r < i64_max /\ max_sequence (q_request_id r) (events s) + 1 < i64_max).

Definition queued_count (s : Store) : nat :=
  length (List.filter (fun r => state_is (q_state r) ReqQueued) (requests s)).

Lemma filter_replace_queued rows i (r r' : RequestRow) :
  rows !! i = Some r -> q_state r = ReqQueued -> q_state r' <> ReqQueued ->
  S (length (List.filter (fun r => state_is (q_state r) ReqQueued) (<[i := r']> rows)))
  = length (List.filter (fun r => state_is (q_state r) ReqQueued) rows).
Proof.
  revert i. induction rows as [|x rows IH]; intros i Hi Hq Hq'; [done|].
  destruct i as [|i]; simpl in *.
  - injection Hi as ->. rewrite (proj2 (state_is_true _ _) Hq).
    assert (state_is (q_state r') ReqQueued = false) as -> by by apply bool_decide_eq_false. done.
  - destruct (state_is (q_state x) ReqQueued); simpl; [f_equal|]; by apply IH.
Qed.

(** Replacing a queued row by a finished one keeps the store idle. *)
Lemma idle_replace s s2 i c c2 :
  idle s -> store_inv s2 -> requests s !! i = Some c -> q_state c = ReqQueued ->
  requests s2 = <[i := c2]> (requests s) -> is_terminal_state (q_state c2) = true ->
  (forall id, q_request_id c <> id -> max_sequence id (events s2) = max_sequence id (events s)) ->
  idle s2 /\ S (queued_count s2) = queued_count s.
Proof.
  intros [Hinv Hrows] Hinv2 Hi Hq Hreq Hc2 Hseq. split; [split; [done|]|].
  - intros r Hr. rewrite Hreq in Hr. apply list_elem_of_lookup in Hr as [j Hj].
    apply list_lookup_insert_Some in Hj as [(<- & <- & _)|[Hne Hj]].
    { unfold active_row. by destruct (q_state c2). }
    destruct (Hrows r (list_elem_of_lookup_2 _ _ _ Hj)) as [Ha Hb]. split; [done|].
    intros Hrq. destruct (Hb Hrq) as (? & ? & ?). rewrite Hseq; [done|].
    intros Heq. by destruct (same_row s i j c r (schema_unique _ (inv_schema _ Hinv)) Hi Hj Heq).
  - unfold queued_count. rewrite Hreq. apply (filter_replace_queued _ i c); [done|done|].
    by destruct (q_state c2).
Qed.

(** One round on an idle store with a candidate: its request succeeds, and the
    store is idle again with one queued request less. *)
Lemma serve_round owner token now d result s c :
  idle s -> 0 <= now -> 0 < d -> now + d <= i64_max -> claim_candidate s = Some c ->
  exists s1, claim owner token now d s = (s1, Ok (Some (leased_request owner token now d c)))
    /\ let s2 := (finish (lr_lease (leased_request owner token now d c)) now TermSucceeded result s1).1 in
       idle s2 /\ S (queued_count s2) = queued_count s.
Proof.
  intros Hidle Hnow Hd Hm Hc. pose proof Hidle as [Hinv Hrows].
  pose proof (claim_candidate_Some s c Hc) as [Hin Hcl]. pose proof (claimable_queued _ _ Hcl) as Hq.
  destruct (Hrows c Hin) as [_ Hroom]. destruct (Hroom Hq) as (Hk & Hat & Hmax).
  apply list_elem_of_lookup in Hin as Hi. destruct Hi as [i Hi].
  pose proof (claim_evaluates owner token now d s i c Hinv Hnow Hd Hm Hc Hi) as Hclaim.
  assert (Hserv : serviceable s c) by (split_and!; [intros ?; done|done|lia]). specialize (Hclaim Hserv).
  set (c1 := claimed_row owner token (now + d) c) in *.
  set (s1 := with_event _ _ _ _ _) in Hclaim. exists s1. split; [done|]. cbn zeta.
  assert (Hinv1 : store_inv s1).
  { pose proof (run_call_inv (CallClaim owner token now d) s Hinv) as Hr. cbn in Hr. by rewrite Hclaim in Hr. }
  assert (Hi1 : requests s1 !! i = Some c1).
  { cbn. apply list_lookup_insert_eq. by eapply lookup_lt_Some. }
  assert (Hlog : max_sequence (q_request_id c) (events s1) = max_sequence (q_request_id c) (events s) + 1).
  { pose proof (max_sequence_log s1 (q_request_id c) (inv_log s1 Hinv1 _)) as H1.
    pose proof (max_sequence_log s (q_request_id c) (inv_log s Hinv _)) as H2. rewrite H1, H2.
    unfold s1. rewrite event_log_with_event, String.eqb_refl, length_app.
    change (event_log (set_requests s _) ?x) with (event_log s x). simpl. lia. }
  rewrite (finish_resolves _ now TermSucceeded result s1 i c1 Hinv1 Hi1);
    [|apply live_lease_spec; cbn; split_and!; try done; exists (now + d); split; [done|lia]|lia
     |change (q_request_id c1) with (q_request_id c); rewrite Hlog; lia].
  change (finish_resolution TermSucceeded result c1) with (Some (ReqSucceeded, result, "completed")).
  cbn [fst]. apply (idle_replace s _ i c (finish_row ReqSucceeded now (Some result) c1)); try done.
  - apply (store_step_inv (T := any_moves) s1); [done|]. apply step_row; try done.
    + apply row_complete; [done|simpl; set_solver|done].
    + by apply finished_schema.
  - cbn. by rewrite list_insert_insert_eq.
  - intros id Hid. unfold finished_store. rewrite max_sequence_other by done.
    change (events (set_requests s1 ?x)) with (events s1). unfold s1. by rewrite max_sequence_other by done.
Qed.

(** The queue drains. From a store that holds no lease and whose queued
    requests are plain work, serving as many rounds as there are queued
    requests leaves every request finished: none starves. *)
Theorem queue_drains owner token now d result s :
  idle s -> 0 <= now -> 0 < d -> now + d <= i64_max ->
  forall r, r ∈ requests (serve (queued_count s) owner token now d result s) ->
    is_terminal_state (q_state r) = true.
Proof.
  intros Hidle Hnow Hd Hm. remember (queued_count s) as n eqn:En.
  revert s Hidle En. induction n as [|n IH]; intros s Hidle En; simpl.
  - destruct Hidle as [_ Hrows]. intros r Hr. destruct (Hrows r Hr) as [Ha _].
    unfold active_row in Ha. destruct (q_state r) eqn:Eq; try done. exfalso.
    assert (Hin : List.In r (List.filter (fun r => state_is (q_state r) ReqQueued) (requests s))).
    { apply filter_In. split; [by apply list_elem_of_In|by rewrite Eq]. }
    unfold queued_count in En. by destruct (List.filter _ (requests s)).
  - destruct (claim_candidate s) as [c|] eqn:Ec.
    + destruct (serve_round owner (token n) now d result s c Hidle Hnow Hd Hm Ec) as (s1 & -> & Hidle2 & Hcnt).
      apply IH; [done|lia].
    + exfalso. unfold queued_count in En. destruct (List.filter _ (requests s)) as [|q l] eqn:Ef; [done|].
      assert (Hq : List.In q (List.filter (fun r => state_is (q_state r) ReqQueued) (requests s)))
        by (rewrite Ef; by left).
      apply filter_In in Hq as [Hq Hst]. apply list_elem_of_In in Hq. apply state_is_true in Hst.
      destruct (claim_candidate_none s q Ec Hq Hst) as (a & Ha & _ & Hact).
      destruct Hidle as [_ Hrows]. destruct (Hrows a Ha) as [Hna _]. congruence.
Qed.

End serve.
