(* ===== verification/StoreCheckpoint.v ===== *)
(** * Flow checkpoints: durable, replayable, one valid successor at a time

    The claims about [save_flow_checkpoint] and [load_flow_checkpoint]: what is
    saved is what is loaded, repeating a save changes nothing, and over any
    history the stored snapshots of a run form a chain of valid successors. *)

From S2P Require Import Prelude Core Policy FlowDef FlowData FlowSnapshot StoreDef.
From S2P Require Import StoreFlow StoreQueue StoreView StoreStep StoreEffect StoreInv.
From S2P Require Import StoreClaim StoreSafety StoreRecover.

Local Open Scope Z_scope.

Lemma flow_outcome_round_trip o : parse_flow_outcome (flow_outcome_name o) = Some o.
Proof. by destruct o. Qed.

Lemma last_order_by_snoc (l : list EventRow) e :
  Forall (fun x => e_sequence x < e_sequence e) l ->
  last (order_by e_sequence (l ++ [e])) = Some e.
Proof.
  intros Hl. induction Hl as [|x l Hx _ IH]; [done|]. cbn [app order_by foldr].
  change (foldr (insert_by e_sequence) [] (l ++ [e])) with (order_by e_sequence (l ++ [e])).
  assert (Hin : e ∈ order_by e_sequence (l ++ [e])) by (rewrite order_by_perm; set_solver).
  generalize dependent (order_by e_sequence (l ++ [e])). intros k Hk Hin. clear -Hk Hin Hx.
  induction k as [|y k IH]; [done|]. cbn [insert_by].
  destruct (e_sequence x <=? e_sequence y) eqn:E; [by rewrite last_cons_cons|].
  destruct k as [|z k]; [injection Hk as ->; lia|].
  rewrite last_cons_cons in Hk. destruct (insert_by e_sequence x (z :: k)) as [|w v] eqn:Ei.
  { simpl in Ei. by destruct (e_sequence x <=? e_sequence z). }
  rewrite last_cons_cons. apply IH; [done|].
  assert (Hlast : e ∈ z :: k) by by apply last_Some_elem_of. done.
Qed.

Section checkpoints.
Context `{Sha256} `{FlowCodec}.

(** ** Saving and loading *)

(** The stored checkpoint a save leaves. *)
Definition stored_checkpoint (save : SaveFlowCheckpoint) (bytes : string) (revision updated : Z)
    (override : bool) : StoredFlowCheckpoint :=
  {| sc_definition_digest := sn_digest (sv_snapshot save); sc_snapshot_bytes := bytes;
     sc_checkpoint_revision := revision; sc_updated_at_ms := updated;
     sc_terminal_result := sv_terminal_result save; sc_terminal_cancellation_override := override |}.

Lemma flow_run_check_times f :
  flow_run_check f = true -> 0 < f_checkpoint_revision f /\ 0 <= f_updated_at_ms f.
Proof. unfold flow_run_check. rewrite !andb_true_iff, !Z.ltb_lt, !Z.leb_le. intros. by destruct_and!. Qed.

Lemma stored_of_saved save id bytes revision updated override :
  0 < revision -> 0 <= updated ->
  stored_of_row id (checkpoint_row save bytes revision updated override)
  = Ok (stored_checkpoint save bytes revision updated override).
Proof.
  intros Hrev Hupd. unfold stored_of_row, unsigned_integer. cbn.
  replace (0 <=? revision) with true by (symmetry; lia).
  replace (0 <=? updated) with true by (symmetry; lia).
  unfold stored_checkpoint. destruct (sv_terminal_result save) as [[o e]|]; cbn; [|done].
  by rewrite flow_outcome_round_trip.
Qed.

Lemma encode_snapshot_Ok snapshot bytes :
  encode_snapshot snapshot = Ok bytes ->
  snapshot_from_slice bytes = Some snapshot
  /\ str_is_empty bytes || (len bytes >? MAX_FLOW_CHECKPOINT_BYTES) = false.
Proof.
  unfold encode_snapshot. destruct (snapshot_to_vec snapshot) as [b|]; cbn [ok_or]; [|done].
  destruct (_ || _) eqn:E; [done|]. destruct (snapshot_from_slice b) as [d|] eqn:Ed; cbn [ok_or]; [|done].
  case_bool_decide; [|done]. intros [= <-]. subst d. done.
Qed.

Lemma encode_transition_Ok t payload :
  encode_transition t = Ok payload -> transition_from_slice payload = Some t.
Proof.
  unfold encode_transition. destruct (transition_to_vec t) as [b|]; cbn [ok_or]; [|done].
  destruct (_ || _); [done|]. destruct (transition_from_slice b) as [d|] eqn:Ed; cbn [ok_or]; [|done].
  case_bool_decide; [|done]. intros [= <-]. by subst d.
Qed.

Lemma terminal_result_without_transition snapshot t terminal :
  validate_flow_terminal_result snapshot t terminal = Ok tt ->
  validate_flow_terminal_result snapshot None terminal = Ok tt.
Proof.
  unfold validate_flow_terminal_result.
  destruct (terminal_outcome_for_status _), terminal; cbn; repeat case_match; done.
Qed.

Lemma override_shape_Ok save st :
  terminal_cancellation_override save st = Ok true ->
  st = ReqCancellationRequested
  /\ override_shape (sv_snapshot save) (sv_terminal_result save) = true
  /\ exists t, sv_transition save = Some t /\ is_reconciliation_unknown (tr_kind t) = true.
Proof.
  unfold terminal_cancellation_override, override_shape.
  destruct (sv_terminal_result save) as [[o e]|]; [|done]. cbn.
  destruct st, o; try done. destruct (_ && _) eqn:E; [|done]. intros _.
  apply andb_true_iff in E as [-> Ht]. destruct (sv_transition save) as [t|]; [|done]. eauto.
Qed.

(** What was encoded and checked before a save decodes after it. *)
Lemma decode_saved s s' save out i r bytes tb override existing revision updated :
  saved s s' save out i r bytes tb override existing ->
  decode_flow_checkpoint (le_request_id (sv_lease save))
    (stored_checkpoint save bytes revision updated override)
  = Ok {| fc_request_id := le_request_id (sv_lease save); fc_snapshot := sv_snapshot save;
          fc_checkpoint_revision := revision; fc_updated_at_ms := updated;
          fc_terminal_result := sv_terminal_result save |}.
Proof.
  intros Hs. destruct (encode_snapshot_Ok _ _ (saved_bytes _ _ _ _ _ _ _ _ _ _ Hs)) as [Hdec Hlen].
  unfold decode_flow_checkpoint, stored_checkpoint. cbn [sc_snapshot_bytes sc_definition_digest
    sc_terminal_result sc_terminal_cancellation_override sc_checkpoint_revision sc_updated_at_ms].
  rewrite Hlen, Hdec. cbn [ok_or]. unfold validate_flow_request_identity.
  rewrite (saved_identity _ _ _ _ _ _ _ _ _ _ Hs), !String.eqb_refl. cbn [map_err negb].
  rewrite (terminal_result_without_transition _ _ _ (saved_terminal _ _ _ _ _ _ _ _ _ _ Hs)).
  cbn [map_err]. destruct override; [|done].
  by destruct (override_shape_Ok _ _ (saved_override _ _ _ _ _ _ _ _ _ _ Hs)) as (_ & -> & _).
Qed.

(** The transition a save records carries the sequence of its snapshot. *)
Lemma successor_sequence previous snapshot t :
  validate_snapshot_successor previous snapshot (Some t) = Ok tt -> tr_sequence t = sn_sequence snapshot.
Proof.
  unfold validate_snapshot_successor. destruct (validate_standalone_snapshot snapshot); try done.
  destruct previous as [p|].
  - destruct (validate_standalone_snapshot p); try done. destruct (validate_successor_identity p snapshot); try done.
    destruct (checked_add64 _ _) as [n|]; cbn [ok_or]; [|done]. destruct (_ || _) eqn:E; [done|].
    intros _. rewrite orb_false_iff, !negb_false_iff, !Z.eqb_eq in E. lia.
  - done.
Qed.

Lemma latest_after_event s id now kind payload :
  latest_event (fun e => event_of id e && String.eqb (e_kind e) kind)
    (with_event s id now kind payload)
  = Some {| e_request_id := id; e_sequence := max_sequence id (events s) + 1; e_kind := kind;
            e_payload := payload; e_recorded_at_ms := now |}.
Proof.
  unfold latest_event, with_event. cbn [events set_events]. rewrite List.filter_app. cbn [List.filter].
  unfold event_of at 2. cbn [e_request_id e_kind]. rewrite !String.eqb_refl. cbn [andb].
  apply last_order_by_snoc, Forall_forall. intros e He.
  apply list_elem_of_In, filter_In in He as [He Hp]. apply list_elem_of_In in He.
  apply andb_true_iff in Hp as [Hp _]. pose proof (max_sequence_ge id _ e He Hp). cbn. lia.
Qed.

(** The checkpoint row of a saved store, and its decoding there. *)
Lemma validate_saved s s' save out i r bytes tb override existing revision :
  saved s s' save out i r bytes tb override existing ->
  (forall t, sv_transition save = Some t -> tr_sequence t = sn_sequence (sv_snapshot save)) ->
  let s1 := saved_store s save bytes revision override tb in
  decode_and_validate_flow_checkpoint (le_request_id (sv_lease save))
    (stored_checkpoint save bytes revision (sv_updated_at_ms save) override) s1
  = Ok (s1, {| fc_request_id := le_request_id (sv_lease save); fc_snapshot := sv_snapshot save;
               fc_checkpoint_revision := revision; fc_updated_at_ms := sv_updated_at_ms save;
               fc_terminal_result := sv_terminal_result save |}).
Proof.
  intros Hs Hseq. cbn zeta. unfold decode_and_validate_flow_checkpoint.
  rewrite (bind_lift _ _ _ _ (decode_saved _ _ _ _ _ _ _ _ _ _ revision (sv_updated_at_ms save) Hs)).
  destruct override; [|done]. cbn [stored_checkpoint sc_terminal_cancellation_override negb].
  destruct (override_shape_Ok _ _ (saved_override _ _ _ _ _ _ _ _ _ _ Hs)) as (_ & _ & t & Ht & Hk).
  pose proof (saved_transition _ _ _ _ _ _ _ _ _ _ Hs) as Htb. rewrite Ht in Htb.
  destruct Htb as (payload & -> & Henc). unfold saved_store. rewrite Ht.
  destruct (tr_kind t) eqn:Ekind; try done. cbn [flow_event_kind].
  erewrite bind_Ok; [|unfold tx_read; rewrite latest_after_event; reflexivity].
  rewrite (bind_lift _ _ _ payload) by done.
  rewrite (bind_lift _ _ _ t) by (by rewrite (encode_transition_Ok _ _ Henc)).
  rewrite (Hseq t Ht), Z.eqb_refl, Ekind. done.
Qed.

Lemma saved_store_tables s save bytes revision override tb :
  let s1 := saved_store s save bytes revision override tb in
  requests s1 = requests s
  /\ flow_runs s1 !! le_request_id (sv_lease save)
     = Some (checkpoint_row save bytes revision (sv_updated_at_ms save) override).
Proof.
  cbn zeta. unfold saved_store. destruct (sv_transition save), tb; cbn; by rewrite lookup_insert_eq.
Qed.

Lemma load_live s i r lease now :
  store_inv s -> requests s !! i = Some r -> live_lease lease now r = true ->
  q_operation_kind r = FLOW_OPERATION_KIND ->
  ensure_live_flow_lease lease now s = Ok (s, q_state r).
Proof.
  intros Hinv Hi Hl Hk. unfold ensure_live_flow_lease.
  rewrite (bind_Ok _ _ _ s (Some r)) by (unfold select_request, tx_read; by rewrite (find_live s i r)).
  rewrite Hk. unfold tx_lift. by rewrite parse_state_as_str.
Qed.

(** A store whose checkpoint row decodes loads it. *)
Lemma load_evaluates s i r lease now row stored checkpoint :
  store_inv s -> requests s !! i = Some r -> live_lease lease now r = true ->
  q_operation_kind r = FLOW_OPERATION_KIND -> now <= i64_max ->
  flow_runs s !! le_request_id lease = Some row ->
  stored_of_row (le_request_id lease) row = Ok stored ->
  decode_and_validate_flow_checkpoint (le_request_id lease) stored s = Ok (s, checkpoint) ->
  load_flow_checkpoint lease now s = (s, Ok (Some checkpoint)).
Proof.
  intros Hinv Hi Hl Hk Hnow Hrow Hst Hdec. unfold load_flow_checkpoint, load_flow_checkpoint_tx, transaction.
  rewrite (bind_lift _ _ _ now) by by apply sql_integer_in.
  rewrite (bind_Ok _ _ _ _ _ (load_live s i r lease now Hinv Hi Hl Hk)).
  rewrite (bind_Ok _ _ _ s (Some stored)).
  - by rewrite (bind_Ok _ _ _ _ _ Hdec).
  - unfold read_flow_checkpoint. rewrite (bind_Ok _ _ _ s (Some row)) by (unfold tx_read; by rewrite Hrow).
    by rewrite (bind_lift _ _ _ _ Hst).
Qed.

Lemma read_checkpoint_row id s existing :
  read_flow_checkpoint id s = Ok (s, existing) ->
  match existing with
  | None => flow_runs s !! id = None
  | Some stored => exists row, flow_runs s !! id = Some row /\ stored_of_row id row = Ok stored
  end.
Proof.
  unfold read_flow_checkpoint. intros Hx. apply tx_bind_Ok in Hx as (s1 & o & Hr & Hx). tx_leaf.
  destruct (flow_runs s !! id) as [row|] eqn:Er; [|by tx_leaf].
  apply tx_bind_Ok in Hx as (s1 & stored & Hst & Hx). apply tx_lift_Ok in Hst as [-> Hst]. tx_leaf. eauto.
Qed.

Lemma decode_fields id stored checkpoint :
  decode_flow_checkpoint id stored = Ok checkpoint ->
  checkpoint = {| fc_request_id := id; fc_snapshot := fc_snapshot checkpoint;
                  fc_checkpoint_revision := sc_checkpoint_revision stored;
                  fc_updated_at_ms := sc_updated_at_ms stored;
                  fc_terminal_result := sc_terminal_result stored |}
  /\ snapshot_from_slice (sc_snapshot_bytes stored) = Some (fc_snapshot checkpoint)
  /\ sn_run_id (fc_snapshot checkpoint) = id
  /\ sc_definition_digest stored = sn_digest (fc_snapshot checkpoint).
Proof.
  unfold decode_flow_checkpoint. destruct (_ || _); [done|].
  destruct (snapshot_from_slice _) as [snap|]; cbn [ok_or]; [|done].
  unfold validate_flow_request_identity. destruct (String.eqb_spec (sn_run_id snap) id); cbn [map_err]; [|done].
  destruct (String.eqb_spec (sc_definition_digest stored) (sn_digest snap)); cbn [negb]; [|done].
  destruct (validate_flow_terminal_result _ _ _); cbn [map_err]; try done.
  destruct (_ && _); [done|]. by intros [= <-].
Qed.

Lemma decode_validate_fields id stored checkpoint s :
  decode_and_validate_flow_checkpoint id stored s = Ok (s, checkpoint) ->
  decode_flow_checkpoint id stored = Ok checkpoint.
Proof.
  unfold decode_and_validate_flow_checkpoint. intros Hx.
  apply tx_bind_Ok in Hx as (s1 & cp & Hc & Hx). apply tx_lift_Ok in Hc as [-> Hc].
  rewrite Hc. f_equal. clear -Hx. by tx_inv.
Qed.

(** Without a transition, the only successor of a snapshot is itself. *)
Lemma successor_none_same previous snapshot :
  validate_snapshot_successor (Some previous) snapshot None = Ok tt -> previous = snapshot.
Proof.
  unfold validate_snapshot_successor. destruct (validate_standalone_snapshot snapshot); try done.
  destruct (validate_standalone_snapshot previous); try done.
  destruct (validate_successor_identity previous snapshot); try done. by case_bool_decide.
Qed.

(** The transition of a save agrees with its snapshot. *)
Lemma saved_sequence s s' save out i r bytes tb override existing t :
  saved s s' save out i r bytes tb override existing -> so_disposition out <> CheckpointUnchanged ->
  sv_transition save = Some t -> tr_sequence t = sn_sequence (sv_snapshot save).
Proof.
  intros Hs Hd Ht. pose proof (saved_effect _ _ _ _ _ _ _ _ _ _ Hs) as He. unfold save_effect in He.
  rewrite Ht in He. destruct existing as [stored|], (so_disposition out); try done.
  - destruct He as (_ & _ & _ & _ & _ & (p & _ & [Hv|[? _]]) & _); [|done]. by eapply successor_sequence.
  - destruct He as (_ & _ & _ & Hv & _). by eapply successor_sequence.
Qed.

(** A save that wrote leaves its row in the saved store, at its revision. *)
Lemma saved_written s s' save out i r bytes tb override existing :
  saved s s' save out i r bytes tb override existing -> so_disposition out <> CheckpointUnchanged ->
  let revision := fc_checkpoint_revision (so_checkpoint out) in
  s' = saved_store s save bytes revision override tb /\ 0 < revision /\ 0 <= sv_updated_at_ms save
  /\ fc_updated_at_ms (so_checkpoint out) = sv_updated_at_ms save
  /\ revision = sv_expected_revision save + 1.
Proof.
  intros Hs Hd. pose proof (saved_effect _ _ _ _ _ _ _ _ _ _ Hs) as He. unfold save_effect in He. cbn zeta.
  destruct existing as [stored|], (so_disposition out); try done.
  - destruct He as (_ & Hu & Hrev & _ & _ & _ & _ & Hck & ->). apply flow_run_check_times in Hck. cbn in Hck.
    split_and!; try done; lia.
  - destruct He as (-> & Hu & Hrev & _ & _ & _ & Hck & ->). apply flow_run_check_times in Hck. cbn in Hck.
    split_and!; try done; lia.
Qed.

(** A checkpoint that was saved is the one that is loaded: right after
    [save_flow_checkpoint] succeeds, [load_flow_checkpoint] under the same lease
    returns exactly the checkpoint it reported, snapshot, revision and terminal
    result included, whatever the MessagePack codec does (the encoder checks
    its own output). *)
Theorem checkpoint_round_trip save s s1 out :
  store_inv s -> save_flow_checkpoint save s = (s1, Ok out) ->
  load_flow_checkpoint (sv_lease save) (sv_updated_at_ms save) s1 = (s1, Ok (Some (so_checkpoint out)))
  /\ fc_snapshot (so_checkpoint out) = sv_snapshot save
  /\ fc_terminal_result (so_checkpoint out) = sv_terminal_result save.
Proof.
  intros Hinv Hsave. apply transaction_Ok in Hsave.
  destruct (save_flow_checkpoint_tx_Ok _ _ _ _ Hsave) as (i & r & bytes & tb & override & existing & Hs).
  pose proof (saved_steps (T := any_moves) _ _ _ _ _ _ _ _ _ _ Hs) as Hsteps.
  pose proof (store_steps_inv _ _ Hsteps Hinv) as Hinv1.
  pose proof (saved_checkpoint _ _ _ _ _ _ _ _ _ _ Hs) as Hcp.
  split; [|rewrite Hcp; done].
  destruct (decide (so_disposition out = CheckpointUnchanged)) as [Hd|Hd].
  - pose proof (saved_effect _ _ _ _ _ _ _ _ _ _ Hs) as He. unfold save_effect in He. rewrite Hd in He.
    pose proof (read_checkpoint_row _ _ _ (saved_existing _ _ _ _ _ _ _ _ _ _ Hs)) as Hrow.
    destruct existing as [stored|]; [|done]. destruct (so_event out); [done|].
    destruct He as (_ & Hrev & Hupd & Hter & (previous & Hdec & Hsucc) & ->).
    destruct Hrow as (row & Hrow & Hst).
    pose proof (decode_fields _ _ _ (decode_validate_fields _ _ _ _ Hdec)) as (Hf & _).
    apply successor_none_same in Hsucc.
    assert (previous = so_checkpoint out) as ->.
    { rewrite Hf, Hcp, Hsucc, Hrev, Hupd, Hter. done. }
    by eapply (load_evaluates s i r); try apply Hs.
  - pose proof (saved_written _ _ _ _ _ _ _ _ _ _ Hs Hd) as (Hs1 & Hrev & Hupd & Hu & _).
    destruct (saved_store_tables s save bytes (fc_checkpoint_revision (so_checkpoint out)) override tb)
      as [Hreq Hrow]. rewrite <-Hs1 in Hreq, Hrow.
    eapply (load_evaluates s1 i r); try apply Hs; [done|by rewrite Hreq; apply Hs|done|by apply stored_of_saved|].
    rewrite Hcp, Hu, Hs1. cbn [fc_checkpoint_revision fc_updated_at_ms].
    apply (validate_saved _ _ _ _ _ _ _ _ _ _ _ Hs). intros t Ht. by eapply saved_sequence.
Qed.

(** ** Repeating a save *)

Lemma successor_standalone previous snapshot t :
  validate_snapshot_successor previous snapshot t = Ok tt ->
  validate_standalone_snapshot snapshot = Ok tt.
Proof. unfold validate_snapshot_successor. by destruct (validate_standalone_snapshot snapshot) as [[]| |]. Qed.

Lemma upgrade_standalone previous snapshot :
  validate_snapshot_upgrade previous snapshot = Ok tt ->
  validate_standalone_snapshot snapshot = Ok tt.
Proof.
  unfold validate_snapshot_upgrade. destruct (_ || _); [done|]. destruct (_ || _); [done|].
  by destruct (validate_standalone_snapshot snapshot) as [[]| |].
Qed.

Lemma successor_identity_refl snapshot : validate_successor_identity snapshot snapshot = Ok tt.
Proof.
  unfold validate_successor_identity. rewrite Z.eqb_refl, !String.eqb_refl, Nat.eqb_refl. cbn [negb orb].
  assert (Hn : existsb (fun '(before, after) =>
                   negb (String.eqb (ss_id before) (ss_id after))
                   || negb (String.eqb (ss_idempotency_identity before)
                              (ss_idempotency_identity after))
                   || negb (bool_decide (ss_semantic_role before = ss_semantic_role after)))
          (combine (sn_steps snapshot) (sn_steps snapshot)) = false); [|by rewrite Hn].
  induction (sn_steps snapshot) as [|x l IH]; [done|]. simpl.
  by rewrite !String.eqb_refl, bool_decide_eq_true_2, IH.
Qed.

Lemma successor_refl snapshot :
  validate_standalone_snapshot snapshot = Ok tt ->
  validate_flow_successor (Some snapshot) snapshot None = Ok tt.
Proof.
  intros Hs. unfold validate_flow_successor, validate_snapshot_successor.
  by rewrite Hs, successor_identity_refl, bool_decide_eq_true_2.
Qed.

Lemma saved_standalone s s' save out i r bytes tb override existing :
  saved s s' save out i r bytes tb override existing -> so_disposition out <> CheckpointUnchanged ->
  validate_standalone_snapshot (sv_snapshot save) = Ok tt /\ sv_expected_revision save < i64_max.
Proof.
  intros Hs Hd. pose proof (saved_effect _ _ _ _ _ _ _ _ _ _ Hs) as He. unfold save_effect in He.
  destruct existing as [stored|], (so_disposition out); try done.
  - destruct He as (_ & _ & Hr & Hm & _ & (p & _ & [Hv|[_ Hv]]) & _); (split; [|lia]);
      [by eapply successor_standalone|by eapply upgrade_standalone].
  - destruct He as (_ & _ & Hr & Hv & _). split; [by eapply successor_standalone|].
    rewrite Hr. by unfold i64_max.
Qed.

(** The event a save recorded is found by the exact-replay check. *)
Lemma replay_saved s s' save out i r bytes tb override existing revision :
  saved s s' save out i r bytes tb override existing ->
  let s1 := saved_store s save bytes revision override tb in
  validate_exact_flow_replay (le_request_id (sv_lease save)) (sv_transition save) tb s1 = Ok (s1, tt).
Proof.
  intros Hs. cbn zeta. pose proof (saved_transition _ _ _ _ _ _ _ _ _ _ Hs) as Htb.
  unfold validate_exact_flow_replay, saved_store.
  destruct (sv_transition save) as [t|]; [|done]. destruct Htb as (payload & -> & _).
  rewrite (bind_lift _ _ _ payload) by done. erewrite bind_Ok; [|reflexivity]. cbv beta.
  match goal with |- (if ?b then _ else _) _ = _ => assert (Hb : b = true); [|by rewrite Hb] end.
  apply existsb_true_elem. eexists. split; [apply elem_of_app; right; by apply list_elem_of_singleton|].
  cbn. unfold event_of. cbn. by rewrite !String.eqb_refl.
Qed.

Lemma repeat_persist s s' save out i r bytes tb override existing :
  saved s s' save out i r bytes tb override existing -> so_disposition out <> CheckpointUnchanged ->
  let revision := fc_checkpoint_revision (so_checkpoint out) in
  persist_flow_checkpoint save bytes tb (sv_updated_at_ms save)
    (Some (stored_checkpoint save bytes revision (sv_updated_at_ms save) override)) override s'
  = Ok (s', (revision, sv_updated_at_ms save, CheckpointUnchanged, None)).
Proof.
  intros Hs Hd. cbn zeta. pose proof (saved_written _ _ _ _ _ _ _ _ _ _ Hs Hd) as (Hs1 & _ & _ & _ & Hrev).
  destruct (saved_standalone _ _ _ _ _ _ _ _ _ _ Hs Hd) as [Hsa Hmax].
  set (revision := fc_checkpoint_revision (so_checkpoint out)) in *. rewrite Hs1.
  unfold persist_flow_checkpoint. rewrite (bind_lift _ _ _ tt)
    by (unfold validate_stored_digest; cbn; by rewrite String.eqb_refl).
  rewrite (bind_Ok _ _ _ _ _ (validate_saved _ _ _ _ _ _ _ _ _ _ revision Hs
             ltac:(intros t Ht; by eapply saved_sequence))).
  cbn [stored_checkpoint sc_snapshot_bytes]. rewrite String.eqb_refl. unfold replay_checkpoint.
  unfold terminal_columns_differ. cbn [stored_checkpoint sc_terminal_result sc_terminal_cancellation_override].
  rewrite bool_decide_eq_true_2, Bool.eqb_reflx by done. cbn [negb orb].
  unfold repeats_last_write. cbn [stored_checkpoint sc_checkpoint_revision].
  rewrite (bool_decide_eq_true_2 (checked_add64 _ _ = _)).
  2:{ unfold checked_add64, u64_max. rewrite Hrev. unfold i64_max in Hmax.
      by replace (_ <=? _) with true by (symmetry; lia). }
  rewrite andb_false_r. cbn [fc_snapshot]. rewrite (bind_lift _ _ _ tt) by by apply successor_refl.
  rewrite (bind_lift _ _ _ tt).
  2:{ unfold validate_transition_alignment. destruct (sv_transition save) as [t|] eqn:Ht; [|done].
      by rewrite (saved_sequence _ _ _ _ _ _ _ _ _ _ t Hs Hd Ht), Z.eqb_refl. }
  by rewrite (bind_Ok _ _ _ _ _ (replay_saved _ _ _ _ _ _ _ _ _ _ revision Hs)).
Qed.

(** Repeating a save is harmless. After [save_flow_checkpoint] succeeds, the
    same call again (a retry after a lost acknowledgement) succeeds, reports
    the same checkpoint as unchanged, records no event and leaves the store as
    it was. *)
Theorem checkpoint_save_idempotent save s s1 out :
  store_inv s -> save_flow_checkpoint save s = (s1, Ok out) ->
  save_flow_checkpoint save s1
  = (s1, Ok {| so_checkpoint := so_checkpoint out; so_disposition := CheckpointUnchanged;
               so_event := None |}).
Proof.
  intros Hinv Hsave. apply transaction_Ok in Hsave as Htx.
  destruct (save_flow_checkpoint_tx_Ok _ _ _ _ Htx) as (i & r & bytes & tb & override & existing & Hs).
  pose proof (saved_checkpoint _ _ _ _ _ _ _ _ _ _ Hs) as Hcp.
  destruct (decide (so_disposition out = CheckpointUnchanged)) as [Hd|Hd].
  { pose proof (saved_effect _ _ _ _ _ _ _ _ _ _ Hs) as He. unfold save_effect in He. rewrite Hd in He.
    destruct existing as [stored|]; [|done]. destruct (so_event out) eqn:Ee; [done|].
    destruct He as (_ & _ & _ & _ & _ & ->). rewrite Hsave. do 2 f_equal. destruct out; cbn in *. congruence. }
  pose proof (store_steps_inv _ _ (saved_steps (T := any_moves) _ _ _ _ _ _ _ _ _ _ Hs) Hinv) as Hinv1.
  pose proof (saved_written _ _ _ _ _ _ _ _ _ _ Hs Hd) as (Hs1 & Hrev & Hupd & Hu & _).
  destruct (saved_store_tables s save bytes (fc_checkpoint_revision (so_checkpoint out)) override tb)
    as [Hreq Hrow]. rewrite <-Hs1 in Hreq, Hrow.
  unfold save_flow_checkpoint, save_flow_checkpoint_tx, transaction.
  rewrite (bind_lift _ _ _ tt) by (unfold validate_flow_request_identity;
    by rewrite (saved_identity _ _ _ _ _ _ _ _ _ _ Hs), String.eqb_refl).
  rewrite (bind_lift _ _ _ tt) by apply Hs. rewrite (bind_lift _ _ _ bytes) by apply Hs.
  rewrite (bind_lift _ _ _ tb).
  2:{ pose proof (saved_transition _ _ _ _ _ _ _ _ _ _ Hs) as Htb.
      destruct (sv_transition save); [|by rewrite Htb]. by destruct Htb as (payload & -> & ->). }
  rewrite (bind_lift _ _ _ (sv_updated_at_ms save)) by (apply sql_integer_in, Hs).
  rewrite (bind_Ok _ _ _ s1 (q_state r)) by
    (apply (load_live s1 i r); [done|rewrite Hreq; apply Hs|apply Hs|apply Hs]).
  match goal with |- context [if ?b then tx_err _ else _] => assert (Hb : b = false) end.
  { case_bool_decide as Hst; [|done]. destruct (sv_transition save) as [t|] eqn:Ht; [|done].
    by apply (saved_start _ _ _ _ _ _ _ _ _ _ Hs Hst t). }
  rewrite Hb. rewrite (bind_lift _ _ _ override) by apply Hs.
  rewrite (bind_Ok _ _ _ s1 (Some (stored_checkpoint save bytes (fc_checkpoint_revision (so_checkpoint out))
             (sv_updated_at_ms save) override))).
  2:{ unfold read_flow_checkpoint. erewrite bind_Ok; [|unfold tx_read; by rewrite Hrow].
      cbv beta iota. by rewrite (bind_lift _ _ _ _ (stored_of_saved save _ _ _ _ _ Hrev Hupd)). }
  rewrite (bind_Ok _ _ _ _ _ (repeat_persist _ _ _ _ _ _ _ _ _ _ Hs Hd)).
  cbn. do 3 f_equal. rewrite Hcp at 2. by rewrite Hu.
Qed.

(** ** The history of a checkpoint *)

(** The stored snapshot of a run with its revision. *)
Definition stored_snapshot (s : Store) (id : RequestId) : option (Z * FlowSnapshot) :=
  row ← flow_runs s !! id;
  snapshot ← snapshot_from_slice (f_snapshot row);
  Some (f_checkpoint_revision row, snapshot).

(** [b] may replace [a]: a semantic successor, or the lossless upgrade of a
    version 1 snapshot. *)
Definition checkpoint_link (a b : FlowSnapshot) : Prop :=
  (exists t, validate_snapshot_successor (Some a) b t = Ok tt)
  \/ validate_snapshot_upgrade a b = Ok tt.

Lemma link_identity a b : checkpoint_link a b -> sn_run_id b = sn_run_id a /\ sn_digest b = sn_digest a.
Proof.
  intros [[t Hv]|Hv].
  - unfold validate_snapshot_successor in Hv. destruct (validate_standalone_snapshot b); try done.
    destruct (validate_standalone_snapshot a); try done. unfold validate_successor_identity in Hv.
    destruct (_ || _ || _ || _ || _) eqn:E in Hv; [done|].
    rewrite !orb_false_iff, !negb_false_iff, !String.eqb_eq in E. by destruct_and!.
  - unfold validate_snapshot_upgrade in Hv. destruct (_ || _) in Hv; [done|].
    destruct (_ || _) in Hv; [done|]. destruct (validate_standalone_snapshot b); try done.
    case_bool_decide as Hb; [|done]. by rewrite <-Hb.
Qed.

Lemma save_link save s id n a :
  stored_snapshot s id = Some (n, a) ->
  exists m b, stored_snapshot (save_flow_checkpoint save s).1 id = Some (m, b)
    /\ ((m = n /\ b = a) \/ (m = n + 1 /\ checkpoint_link a b)).
Proof.
  intros Hst. unfold save_flow_checkpoint, transaction.
  destruct (save_flow_checkpoint_tx save s) as [[s1 out]|e|] eqn:Es; cbn [fst]; [|by eauto 10..].
  destruct (save_flow_checkpoint_tx_Ok _ _ _ _ Es) as (i & r & bytes & tb & override & existing & Hs).
  destruct (decide (so_disposition out = CheckpointUnchanged)) as [Hd|Hd].
  { pose proof (saved_effect _ _ _ _ _ _ _ _ _ _ Hs) as He. unfold save_effect in He. rewrite Hd in He.
    destruct existing as [stored|]; [|done]. destruct (so_event out); [done|].
    destruct He as (_ & _ & _ & _ & _ & ->). eauto 10. }
  pose proof (saved_written _ _ _ _ _ _ _ _ _ _ Hs Hd) as (Hs1 & _ & _ & _ & Hrev).
  destruct (decide (id = le_request_id (sv_lease save))) as [->|Hne].
  - destruct (saved_store_tables s save bytes (fc_checkpoint_revision (so_checkpoint out)) override tb)
      as [_ Hrow]. rewrite <-Hs1 in Hrow. destruct (encode_snapshot_Ok _ _ (saved_bytes _ _ _ _ _ _ _ _ _ _ Hs)) as [Hdec _].
    exists (fc_checkpoint_revision (so_checkpoint out)), (sv_snapshot save). split.
    { unfold stored_snapshot. rewrite Hrow. cbn. by rewrite Hdec. }
    right. pose proof (read_checkpoint_row _ _ _ (saved_existing _ _ _ _ _ _ _ _ _ _ Hs)) as Hold.
    pose proof (saved_effect _ _ _ _ _ _ _ _ _ _ Hs) as He. unfold save_effect in He.
    unfold stored_snapshot in Hst. destruct (flow_runs s !! _) as [row|] eqn:Er; [|done]. cbn in Hst.
    destruct (snapshot_from_slice (f_snapshot row)) as [old|] eqn:Eo; [|done]. injection Hst as <- <-.
    destruct existing as [stored|]; [|done]. destruct Hold as (row' & [= <-] & Hrow').
    destruct (so_disposition out); try done.
    destruct He as (Hexp & _ & -> & _ & _ & (previous & Hprev & Hlink) & _).
    pose proof (decode_fields _ _ _ Hprev) as (_ & Hsl & _).
    unfold stored_of_row in Hrow'. destruct (unsigned_integer (f_checkpoint_revision row)) eqn:Eu; try done.
    destruct (unsigned_integer (f_updated_at_ms row)); try done.
    destruct (decode_stored_terminal_result _ _ _); try done. injection Hrow' as <-. cbn in *.
    unfold unsigned_integer in Eu. destruct (0 <=? _) in Eu; [|done]. injection Eu as <-.
    rewrite Eo in Hsl. injection Hsl as ->. split; [lia|].
    destruct Hlink as [Hv|[_ Hv]]; [left; eauto|by right].
  - exists n, a. split; [|by left]. unfold stored_snapshot in *. rewrite Hs1. unfold saved_store.
    destruct (sv_transition save), tb; cbn; by rewrite lookup_insert_ne.
Qed.

(** C22: over any history without a reset, the stored checkpoint of a run only moves along valid
    successors: it is never dropped or rewound, each revision is one semantic
    successor (or the version upgrade) of the one before, and the run identity
    and the definition digest never change. *)
Theorem checkpoint_history calls s id n a :
  Forall (fun c => c <> CallResetHistory) calls -> stored_snapshot s id = Some (n, a) ->
  exists m b, stored_snapshot (run_calls calls s) id = Some (m, b) /\ n <= m
    /\ nsteps checkpoint_link (Z.to_nat (m - n)) a b
    /\ sn_run_id b = sn_run_id a /\ sn_digest b = sn_digest a.
Proof.
  intros Hcalls. revert s n a. induction Hcalls as [|c calls Hc Hcalls IH]; intros s n a Hst; simpl.
  - exists n, a. rewrite Z.sub_diag. split_and!; try done. constructor.
  - assert (Hone : exists m b, stored_snapshot (run_call c s) id = Some (m, b)
      /\ ((m = n /\ b = a) \/ (m = n + 1 /\ checkpoint_link a b))).
    { destruct (writes_runs c) eqn:Ec.
      - destruct c; try done. by apply save_link.
      - unfold stored_snapshot. rewrite (call_keeps_runs c s Ec). eauto 10. }
    destruct Hone as (m & b & Hm & Hcase). destruct (IH _ _ _ Hm) as (m' & b' & Hm' & Hle & Hn & Hr & Hdg).
    exists m', b'. destruct Hcase as [[-> ->]|[-> Hl]]; [done|].
    destruct (link_identity _ _ Hl) as [Hl1 Hl2]. split_and!; [done|lia| |congruence|congruence].
    replace (Z.to_nat (m' - n)) with (S (Z.to_nat (m' - (n + 1)))) by lia. by eapply nsteps_l.
Qed.

End checkpoints.
