(* ===== verification/StoreWitness.v ===== *)
(** * The store theorems on a concrete database

    A small history of one project's queue: two requests accepted, the first
    claimed, cancelled while it runs, recovered; a third served to its end; and
    a flow run whose first two checkpoints are saved. Each theorem of the store
    is applied at a point of it. The hash is that of [FlowSamples], and the
    codec knows the two sample snapshots and the transition between them. *)

From S2P Require Import Prelude Core Policy FlowDef FlowData FlowSnapshot FlowEngine FlowSamples.
From S2P Require Import StoreDef StoreFlow StoreQueue StoreStep StoreEffect StoreInv.
From S2P Require Import StoreClaim StoreSafety StoreRecover StoreCheckpoint.

Local Open Scope Z_scope.

#[local] Existing Instance sample_hash.

(** ** The sample codec *)

Definition snapshot0 : FlowSnapshot := fr_snapshot (sample_start sample_flow).
Definition first_update : res FlowEngineError EngineUpdate :=
  (next_decision 1000 (sample_start sample_flow)).2.
Definition snapshot1 : FlowSnapshot :=
  match first_update with Ok u => up_snapshot u | _ => snapshot0 end.
Definition transition1 : RunTransition :=
  match first_update with
  | Ok {| up_transition := Some t |} => t
  | _ => {| tr_sequence := 0; tr_kind := CancellationRequested; tr_semantic_events := [] |}
  end.

Definition sample_codec : FlowCodec :=
  {| snapshot_to_vec := fun s =>
       if decide (s = snapshot0) then Some "snapshot-0"
       else if decide (s = snapshot1) then Some "snapshot-1" else None;
     snapshot_from_slice := fun b =>
       if String.eqb b "snapshot-0" then Some snapshot0
       else if String.eqb b "snapshot-1" then Some snapshot1 else None;
     transition_to_vec := fun t => if decide (t = transition1) then Some "transition-1" else None;
     transition_raw_from_slice := fun b =>
       if String.eqb b "transition-1" then Some transition1 else None |}.

#[local] Existing Instance sample_codec.

(** ** The queue *)

Definition sample_request (id key operation : string) : AcceptRequest :=
  {| ar_request_id := id; ar_caller_id := "caller-1"; ar_project_id := "project-1";
     ar_idempotency_key := key; ar_operation_kind := "agent_task"; ar_operation := operation |}.

Definition sample_lease (id token : string) (attempt expires : Z) : Lease :=
  {| le_request_id := id; le_project_id := "project-1"; le_owner := "daemon";
     le_token := token; le_attempt := attempt; le_expires_at_ms := expires |}.

Definition queue_calls : list StoreCall :=
  [CallAccept (sample_request "req-1" "key-1" "build") 1000;
   CallAccept (sample_request "req-2" "key-2" "test") 1001;
   CallClaim "daemon" "token-1" 1002 50;
   CallCancel "req-1" 1010 "stopped" None;
   CallRecover 1100 RecoverExpired;
   CallClaim "daemon" "token-2" 1101 50;
   CallFinish (sample_lease "req-2" "token-2" 1 1151) 1110 TermSucceeded "done"].

(** The store after the first [n] calls. *)
Definition queue_at (n : nat) : Store := run_calls (take n queue_calls) empty_store.

Lemma queue_at_inv n : store_inv (queue_at n).
Proof. unfold queue_at. apply run_calls_inv, empty_store_inv. Defined.

(** The [i]-th request of a store. *)
Definition row_at (i : nat) (s : Store) : RequestRow :=
  default (queued_row (sample_request "" "" "") 1 0) (requests s !! i).

Lemma row_at_elem i s : is_Some (requests s !! i) -> row_at i s ∈ requests s.
Proof.
  unfold row_at. destruct (requests s !! i) as [r|] eqn:E; [|by intros []].
  intros _. by eapply list_elem_of_lookup_2.
Defined.

(** A property of all rows, by evaluation. *)
Lemma all_rows (p : RequestRow -> bool) s :
  forallb p (requests s) = true -> forall r, r ∈ requests s -> p r = true.
Proof. intros Hp r Hr. eapply forallb_forall; [exact Hp|]. by apply list_elem_of_In. Defined.

Definition serviceable_plain (s : Store) (r : RequestRow) : bool :=
  negb (String.eqb (q_operation_kind r) FLOW_OPERATION_KIND) && (q_attempt r <? i64_max)
  && (max_sequence (q_request_id r) (events s) + 1 <? i64_max).

Lemma serviceable_plain_spec s r :
  serviceable_plain s r = true ->
  q_operation_kind r <> FLOW_OPERATION_KIND /\ q_attempt r < i64_max
  /\ max_sequence (q_request_id r) (events s) + 1 < i64_max.
Proof.
  unfold serviceable_plain. rewrite !andb_true_iff, negb_true_iff, !Z.ltb_lt.
  intros [[Hk Ha] Hm]. split_and!; [|done|done]. intros E. by rewrite E, String.eqb_refl in Hk.
Defined.

Lemma serviceable_of_plain s r : serviceable_plain s r = true -> serviceable s r.
Proof.
  intros Hp. apply serviceable_plain_spec in Hp as (Hk & Ha & Hm).
  split_and!; [|done|lia]. by intros E.
Defined.

Lemma claim_serves_fifo_witness :
  (exists i c, requests (queue_at 2) !! i = Some c /\ next_in_line (queue_at 2) c /\ serviceable (queue_at 2) c
     /\ claim "daemon" "token-1" 1002 50 (queue_at 2)
        = (with_event (set_requests (queue_at 2)
             (<[i := claimed_row "daemon" "token-1" (1002 + 50) c]> (requests (queue_at 2))))
             (q_request_id c) 1002 "started" "",
           Ok (Some (leased_request "daemon" "token-1" 1002 50 c))))
  \/ (claim "daemon" "token-1" 1002 50 (queue_at 2) = (queue_at 2, Ok None)
      /\ forall r, r ∈ requests (queue_at 2) -> q_state r = ReqQueued ->
         exists a, a ∈ requests (queue_at 2) /\ q_project_id a = q_project_id r
           /\ active_row a = true)
  \/ (exists c, c ∈ requests (queue_at 2) /\ next_in_line (queue_at 2) c /\ ~ serviceable (queue_at 2) c
      /\ (claim "daemon" "token-1" 1002 50 (queue_at 2)).1 = queue_at 2
      /\ is_ok (claim "daemon" "token-1" 1002 50 (queue_at 2)).2 = false).
Proof. apply claim_serves_fifo; [apply queue_at_inv|lia|lia|unfold i64_max; lia]. Defined.

Lemma live_lease_exclusive_witness :
  let l := sample_lease "req-1" "token-1" 1 1052 in
  le_request_id l = le_request_id l /\ le_owner l = le_owner l /\ le_token l = le_token l.
Proof.
  apply (live_lease_exclusive (queue_at 3) (sample_lease "req-1" "token-1" 1 1052)
           (sample_lease "req-1" "token-1" 1 1052) 1003 1004
           (row_at 0 (queue_at 3)) (row_at 0 (queue_at 3)));
    [apply queue_at_inv | apply row_at_elem; vm_compute; eauto
    | apply row_at_elem; vm_compute; eauto | vm_compute; reflexivity
    | vm_compute; reflexivity | reflexivity].
Defined.

Lemma stale_lease_fenced_witness :
  lease_refused (run_calls (drop 5 queue_calls) (queue_at 5)) (sample_lease "req-1" "token-1" 1 1052).
Proof.
  apply (stale_lease_fenced (queue_at 5) (row_at 0 (queue_at 5)));
    [apply queue_at_inv|apply row_at_elem; vm_compute; eauto|vm_compute; reflexivity
    |vm_compute; discriminate|].
  repeat constructor; vm_compute; discriminate.
Defined.

Lemma store_invariant_witness : store_inv (run_calls queue_calls empty_store).
Proof. apply store_invariant. by left. Defined.

(** The second request is finished and stays so under the cancellation of it. *)
Lemma terminal_requests_final_witness :
  let s := queue_at 7 in
  let calls := [CallCancel "req-2" 1200 "late" None; CallRecover 1300 RecoverAll] in
  row_at 1 s ∈ requests (run_calls calls s)
  /\ exists payload completed evs1 evs2,
       q_result (row_at 1 s) = Some payload /\ q_completed_at_ms (row_at 1 s) = Some completed
       /\ let result := Some {| st_state := q_state (row_at 1 s); st_payload := payload;
                                st_completed_at_ms := completed |} in
          replay s (q_request_id (row_at 1 s)) 0 None
          = Ok {| rp_events := evs1; rp_result := result |}
          /\ replay (run_calls calls s) (q_request_id (row_at 1 s)) 0 None
             = Ok {| rp_events := evs2; rp_result := result |}.
Proof.
  apply terminal_requests_final;
    [apply queue_at_inv|apply row_at_elem; vm_compute; eauto|vm_compute; reflexivity
    |unfold i64_max; lia].
Defined.

Lemma replay_exact_witness :
  let s := queue_at 3 in
  exists rp rp',
    replay s (q_request_id (row_at 0 s)) 1 None = Ok rp
    /\ rp_events rp = record_of <$> drop (Z.to_nat 1) (event_log s (q_request_id (row_at 0 s)))
    /\ ev_sequence <$> rp_events rp = seqZ (1 + 1) (Z.of_nat (length (rp_events rp)))
    /\ e_kind <$> head (event_log s (q_request_id (row_at 0 s))) = Some "accepted"
    /\ replay (run_calls (drop 3 queue_calls) s) (q_request_id (row_at 0 s)) 1 None = Ok rp'
    /\ rp_events rp `prefix_of` rp_events rp'.
Proof.
  apply replay_exact;
    [apply queue_at_inv|apply row_at_elem; vm_compute; eauto|unfold i64_max; lia].
Defined.

Lemma cancellation_never_lost_witness :
  exists r', r' ∈ requests (run_calls (drop 4 queue_calls) (queue_at 4))
    /\ q_request_id r' = q_request_id (row_at 0 (queue_at 4)) /\
    cancellation_kept (drop 4 queue_calls) (queue_at 4) "stopped" r'.
Proof.
  apply cancellation_never_lost;
    [apply queue_at_inv|apply row_at_elem; vm_compute; eauto|vm_compute; reflexivity
    |vm_compute; reflexivity].
Defined.

Lemma accept_idempotent_witness :
  let a := sample_request "req-1" "key-1" "build" in
  let s2 := run_calls (tail queue_calls) (queue_at 1) in
  exists r, r ∈ requests s2 /\ q_request_id r = "req-1" /\ "req-1" = ar_request_id a
    /\ q_queue_sequence r = 1
    /\ accept (sample_request "req-9" "key-1" "build") 2000 s2
       = (s2, if String.eqb (ar_operation_kind a) "agent_task"
                 && String.eqb (ar_operation a) "build"
              then Ok (Existing "req-1" (q_state r)) else Err (IdempotencyConflict "req-1")).
Proof.
  apply (accept_idempotent empty_store (queue_at 1) (sample_request "req-1" "key-1" "build")
           (sample_request "req-9" "key-1" "build") 1000 2000);
    [apply empty_store_inv|vm_compute; reflexivity|reflexivity|reflexivity|reflexivity
    |discriminate|unfold i64_max; lia].
Defined.

Lemma recovery_exact_witness :
  let s := queue_at 4 in
  let todo := order_by q_accepted_at_ms (List.filter (selected RecoverExpired 1100) (requests s)) in
  exists s', recover_leases 1100 RecoverExpired s = (s', Ok (q_request_id <$> todo))
    /\ requests s' = (fun r => if selected RecoverExpired 1100 r then recovered 1100 r else r) <$> requests s
    /\ (projects s', flow_runs s') = (projects s, flow_runs s)
    /\ (forall id, e_kind <$> event_log s' id = (e_kind <$> event_log s id) ++ recovery_kinds todo id)
    /\ (RecoverExpired = RecoverAll -> forall r, r ∈ requests s' -> active_row r = false).
Proof.
  apply recovery_exact; [apply queue_at_inv|unfold i64_max; lia|].
  intros r Hr _. assert (Hp : serviceable_plain (queue_at 4) r = true).
  { revert r Hr. apply all_rows. vm_compute. reflexivity. }
  apply serviceable_plain_spec in Hp as (Hk & _ & Hm). split; [done|lia].
Defined.

Lemma finish_resolves_witness :
  let lease := sample_lease "req-1" "token-1" 1 1052 in
  finish lease 1020 TermSucceeded "done" (queue_at 4)
  = match finish_resolution TermSucceeded "done" (row_at 0 (queue_at 4)) with
    | Some (state, payload, kind) =>
      (finished_store state 1020 payload kind 0 (row_at 0 (queue_at 4)) (queue_at 4),
       Ok {| st_state := state; st_payload := payload; st_completed_at_ms := 1020 |})
    | None =>
      (queue_at 4, Err (InvalidState
           "a leased request cannot finish cancelled without a durable cancellation request"))
    end.
Proof.
  apply finish_resolves;
    [apply queue_at_inv|vm_compute; reflexivity|vm_compute; reflexivity
    |unfold i64_max; lia|vm_compute; reflexivity].
Defined.

Lemma queue_drains_witness :
  Forall (fun r => is_terminal_state (q_state r) = true)
    (requests (serve (queued_count (queue_at 2)) "daemon" pretty 1200 50 "done" (queue_at 2))).
Proof.
  apply Forall_forall, queue_drains; [|lia|lia|unfold i64_max; lia].
  split; [apply queue_at_inv|]. intros r Hr. split.
  - apply negb_true_iff. revert r Hr. apply (all_rows (fun r => negb (active_row r))).
    vm_compute. reflexivity.
  - intros _. apply serviceable_plain_spec. revert r Hr. apply all_rows. vm_compute. reflexivity.
Defined.

(** ** Checkpoints of a flow run *)

Definition flow_request : AcceptRequest :=
  {| ar_request_id := "run-1"; ar_caller_id := "caller-1"; ar_project_id := "project-1";
     ar_idempotency_key := "key-flow"; ar_operation_kind := FLOW_OPERATION_KIND;
     ar_operation := "release-check" |}.

Definition accepted_flow : Store := (transaction (accept_tx flow_request 1000) empty_store).1.

(** The accepted flow request with its unconditional authorization proof. *)
Definition authorized_flow : Store :=
  set_flow_authorizations accepted_flow
    {["run-1" := {| fa_capability := FLOW_CAPABILITY_NAME; fa_resource := "release-check";
                    fa_effect_fingerprint := fingerprint_compute "caller-1" "project-1"
                                               FLOW_CAPABILITY_NAME "release-check";
                    fa_authorization_kind := "unconditional"; fa_approval_id := None;
                    fa_schema_approval_required := false; fa_authorized_at_ms := 1000 |} ]}.

Definition flow_lease : Lease := sample_lease "run-1" "token-f" 1 6001.

Definition save0 : SaveFlowCheckpoint :=
  {| sv_lease := flow_lease; sv_expected_revision := 0; sv_snapshot := snapshot0;
     sv_transition := None; sv_terminal_result := None; sv_updated_at_ms := 1002 |}.
Definition save1 : SaveFlowCheckpoint :=
  {| sv_lease := flow_lease; sv_expected_revision := 1; sv_snapshot := snapshot1;
     sv_transition := Some transition1; sv_terminal_result := None; sv_updated_at_ms := 1003 |}.

Definition flow_calls : list StoreCall :=
  [CallClaim "daemon" "token-f" 1001 5000; CallSaveCheckpoint save0; CallSaveCheckpoint save1].
Definition flow_at (n : nat) : Store := run_calls (take n flow_calls) authorized_flow.

Definition save1_outcome : FlowCheckpointSaveOutcome :=
  {| so_checkpoint := {| fc_request_id := "run-1"; fc_snapshot := snapshot1;
                         fc_checkpoint_revision := 2; fc_updated_at_ms := 1003;
                         fc_terminal_result := None |};
     so_disposition := CheckpointUpdated;
     so_event := Some {| ev_sequence := 3; ev_kind := "flow_effect_evaluation_required";
                         ev_payload := "transition-1"; ev_recorded_at_ms := 1003 |} |}.

Lemma accepted_flow_inv : store_inv accepted_flow.
Proof.
  assert (Ha : accept_tx flow_request 1000 empty_store = Ok (accepted_flow, Created "run-1" 1))
    by (vm_compute; reflexivity).
  exact (store_steps_inv (T := any_moves) _ _ (accept_tx_steps _ _ _ _ _ Ha) empty_store_inv).
Defined.

Lemma flow_at_inv n : store_inv (flow_at n).
Proof.
  unfold flow_at. apply run_calls_inv. by apply (inv_same_tables accepted_flow); [apply accepted_flow_inv|..].
Defined.

Lemma save1_succeeds : save_flow_checkpoint save1 (flow_at 2) = (flow_at 3, Ok save1_outcome).
Proof. vm_compute. reflexivity. Defined.

Lemma checkpoint_round_trip_witness :
  load_flow_checkpoint flow_lease 1003 (flow_at 3) = (flow_at 3, Ok (Some (so_checkpoint save1_outcome)))
  /\ fc_snapshot (so_checkpoint save1_outcome) = snapshot1
  /\ fc_terminal_result (so_checkpoint save1_outcome) = None.
Proof. exact (checkpoint_round_trip save1 (flow_at 2) (flow_at 3) _ (flow_at_inv 2) save1_succeeds). Defined.

Lemma checkpoint_save_idempotent_witness :
  save_flow_checkpoint save1 (flow_at 3)
  = (flow_at 3, Ok {| so_checkpoint := so_checkpoint save1_outcome;
                      so_disposition := CheckpointUnchanged; so_event := None |}).
Proof. exact (checkpoint_save_idempotent save1 (flow_at 2) (flow_at 3) _ (flow_at_inv 2) save1_succeeds). Defined.

Lemma checkpoint_history_witness :
  exists m b, stored_snapshot (run_calls [CallSaveCheckpoint save1] (flow_at 2)) "run-1" = Some (m, b)
    /\ 1 <= m /\ nsteps checkpoint_link (Z.to_nat (m - 1)) snapshot0 b
    /\ sn_run_id b = sn_run_id snapshot0 /\ sn_digest b = sn_digest snapshot0.
Proof. apply checkpoint_history; [by repeat constructor|vm_compute; reflexivity]. Defined.
