(* ===== verification/StoreAccessWitness.v ===== *)
(** * The access theorems on a concrete database

    Two callers, their grants, an approval that is requested, approved and
    consumed by one effect, and a flow run accepted with another. The last
    section shows what a clock that runs backwards does to a flow run. *)

From S2P Require Import Prelude Core Policy Redact FlowDef FlowData FlowSnapshot FlowSamples Artifact StoreDef.
From S2P Require Import StoreFlow StoreQueue StoreAudit StoreAccess StoreAuth StoreView Inventory StoreStep StoreEffect.
From S2P Require Import StoreFrame StoreApproval StoreInv StoreConsent StoreFlowAuth StoreLedger StoreExport.
From S2P Require Import InventorySpec InventoryProof InventoryRescan InventoryState StoreWitness.

Local Open Scope Z_scope.

#[local] Existing Instance sample_hash.
#[local] Existing Instance sample_codec.

(** ** A history *)

Definition sample_event (id : string) : AuthorizationAudit :=
  {| aa_event_id := id; aa_action := "effect.authorize"; aa_redacted_detail := "comment on PAM-1";
     aa_retain_until_ms := 100000 |}.

Definition sample_put (id : string) (capability : CapabilityName) (scope : ResourceScope) : PutGrant :=
  {| pg_grant := {| g_id := id; g_caller := "alice"; g_project := "project-1"; g_capability := capability;
                    g_resource := scope; g_effect := Allow; g_approval := ApprovalOnce;
                    g_expires_at_ms := None; g_revoked_at_ms := None |};
     pg_created_at_ms := 110 |}.

Definition sample_effect (approval : option ApprovalId) : AuthorizationRequest :=
  unit_request "alice" "project-1" "jira.comment" "PAM-1" approval.

Definition sample_flow_run (event : string) (approval : option ApprovalId) : AuthorizeFlowRun :=
  {| af_accept := {| ar_request_id := "run-1"; ar_caller_id := "alice"; ar_project_id := "project-1";
                     ar_idempotency_key := "key-1"; ar_operation_kind := FLOW_OPERATION_KIND;
                     ar_operation := "deploy" |};
     af_resource := "deploy"; af_approval_id := approval; af_audit := sample_event event;
     af_schema_approval_required := false |}.

Definition access_calls : list StoreCall :=
  [CallRegisterCaller "alice" "secret-a" None 100;
   CallRegisterCaller "bob" "secret-b" (Some "cli") 101;
   CallPutGrant (sample_put "g-1" "jira.comment" Any);
   CallPutGrant (sample_put "g-2" "flow.run" (Exact "deploy"));
   CallAuthorize "ap-1" (sample_effect None) (Some (sample_event "ev-1")) 200 1000;
   CallDecide "ap-1" None "bob" DecideApprove 300;
   CallAuthorize "ap-x" (sample_effect (Some "ap-1")) (Some (sample_event "ev-2")) 400 1000;
   CallAuthorizeFlow "ap-2" (sample_flow_run "ev-3" None) 500 1000;
   CallDecide "ap-2" None "bob" DecideApprove 600;
   CallAuthorizeFlow "ap-y" (sample_flow_run "ev-4" (Some "ap-2")) 700 1000].

(** The store after the first [n] calls. *)
Definition access_at (n : nat) : Store := run_calls (take n access_calls) empty_store.
Definition effect_call : StoreCall :=
  CallAuthorize "ap-x" (sample_effect (Some "ap-1")) (Some (sample_event "ev-2")) 400 1000.

Example effect_allowed : allows effect_call (access_at 6).
Proof. vm_compute. reflexivity. Qed.
Example run_accepted :
  (authorize_flow_run "ap-y" (sample_flow_run "ev-4" (Some "ap-2")) 700 1000 (access_at 9)).2
  = Ok (FlowAccepted (Created "run-1" 1)).
Proof. vm_compute. reflexivity. Qed.

Ltac no_resets := repeat (constructor; [discriminate|]); constructor.

Lemma stored_approvals_refine_witness :
  approval_progress "ap-1" (approvals (access_at 5) !! "ap-1")
    (approvals (run_calls (drop 5 access_calls) (access_at 5)) !! "ap-1")
  /\ ap_state <$> approvals (access_at 5) !! "ap-1" = Some "requested"
  /\ ap_state <$> approvals (run_calls (drop 5 access_calls) (access_at 5)) !! "ap-1" = Some "consumed".
Proof.
  split; [apply stored_approvals_refine; no_resets|]. split; vm_compute; reflexivity.
Defined.

Lemma effects_authorized_witness :
  let s := access_at 6 in
  let req := sample_effect (Some "ap-1") in
  caller_active s (az_caller_id req) = true
  /\ exists grants, load_grants req s = Ok (s, grants)
     /\ let matching := matching_grants grants (az_caller_id req) (az_project_id req)
                          (az_capability req) (az_resource req) (call_time effect_call) in
        (forall g, g ∈ matching -> g_effect g <> Deny)
        /\ ((false = false
             /\ ((exists g, g ∈ matching /\ g_approval g = ApprovalNone)
                 \/ matching = [] /\ is_baseline (az_capability req) = true)
             /\ approvals (run_call effect_call s) = approvals s)
            \/ exists id row,
                 consumes_approval s (run_call effect_call s) req None (call_time effect_call) id row).
Proof. apply (effects_authorized effect_call); [reflexivity|vm_compute; reflexivity]. Defined.

Lemma effect_spends : spends effect_call (access_at 6) "ap-1".
Proof.
  exists (sample_effect (Some "ap-1")), None, false.
  exists (match load_grants (sample_effect (Some "ap-1")) (access_at 6) with Ok (_, g) => g | _ => [] end).
  split; [reflexivity|]. split; [vm_compute; reflexivity|]. split; [reflexivity|].
  split; [vm_compute; reflexivity|]. right. vm_compute. reflexivity.
Defined.

Lemma approval_spent_once_witness :
  ~ spends effect_call
      (run_calls [CallDecide "ap-1" None "bob" DecideApprove 500] (run_call effect_call (access_at 6))) "ap-1".
Proof. apply approval_spent_once; [no_resets|apply effect_spends]. Defined.

(** The flow request of the history. *)
Definition flow_row : RequestRow := row_at 0 (access_at 10).

Lemma flow_authorizations_stand_witness :
  let s := run_calls access_calls empty_store in
  (exists proof, validate_flow_authorization_integrity (q_request_id flow_row) s = Ok (s, proof)
     /\ sa_caller_id proof = q_caller_id flow_row /\ sa_project_id proof = q_project_id flow_row
     /\ sa_capability proof = FLOW_CAPABILITY_NAME
     /\ sa_fingerprint proof = fingerprint_compute (q_caller_id flow_row) (q_project_id flow_row)
                                 FLOW_CAPABILITY_NAME (sa_resource proof))
  /\ forall now result, (fail_corrupt_flow_authorization (q_request_id flow_row) now result s).1 = s.
Proof.
  apply (flow_authorizations_stand access_calls 0).
  - cbn [access_calls admissible_calls]. unfold admissible. cbn [timed call_time].
    repeat split; try discriminate; try lia; vm_compute; reflexivity.
  - apply row_at_elem. vm_compute. eauto.
  - vm_compute. reflexivity.
Defined.

Lemma decisions_recorded_witness :
  recorded (run_call effect_call (access_at 6))
    (audit_of (sample_event "ev-2") "alice" "project-1" ("allow", "authorized") 400).
Proof.
  assert (Ha : answer effect_call (access_at 6) = Ok ("allow", "authorized")) by (vm_compute; reflexivity).
  pose proof (decisions_recorded effect_call (access_at 6) (sample_event "ev-2") "alice" "project-1" eq_refl)
    as Hr. rewrite Ha in Hr. exact Hr.
Defined.

(** Four events, two to a page, with other calls between the pages. *)
Definition export_gaps : list (list StoreCall) :=
  [[CallAuthorize "ap-3" (sample_effect None) (Some (sample_event "ev-5")) 800 1000]; []; []].

Lemma audit_export_complete_witness :
  export_pages export_gaps (access_at 10) "project-1" 0 4 2
  = Ok (exported <$> project_events (access_at 10) "project-1" 0 4).
Proof.
  apply audit_export_complete.
  - apply (ledger_steps_inv (audit empty_store)); [unfold access_at; apply calls_ledger|apply empty_ledger_inv].
  - vm_compute. reflexivity.
  - unfold MAX_AUDIT_BATCH_SIZE. lia.
  - lia.
  - vm_compute. discriminate.
  - repeat constructor.
  - vm_compute. reflexivity.
Defined.

Lemma registered_caller_authenticates_witness :
  authenticate_caller (run_calls (tail access_calls) (access_at 1)) "alice" "secret-b"
  = Ok (if credential_is_valid "secret-b"
           && String.eqb (credential_digest "secret-a") (credential_digest "secret-b")
        then Authenticated else InvalidCredential).
Proof.
  apply (registered_caller_authenticates empty_store (access_at 1) "alice" "secret-a" None 100
           {| cr_caller_id := "alice"; cr_registered_at_ms := 100; cr_revoked_at_ms := None;
              cr_caller_kind := None |}).
  - vm_compute. reflexivity.
  - repeat (constructor; [intros ?; discriminate|]). constructor.
Defined.

Lemma revoked_caller_locked_out_witness :
  let s2 := run_calls [effect_call] (run_call (CallRevokeCaller "alice" 350) (access_at 6)) in
  (forall credential, authenticate_caller s2 "alice" credential
     = Ok (if credential_is_valid credential then RevokedCaller else InvalidCredential))
  /\ forall c req flow must, effect_request c = Some (req, flow, must) -> az_caller_id req = "alice" ->
       ~ allows c s2.
Proof.
  apply (revoked_caller_locked_out (access_at 6) _ "alice" 350 [effect_call]).
  - vm_compute. reflexivity.
  - constructor; [discriminate|constructor].
Defined.

(** ** A clock that runs backwards *)

(** The approval of the flow run is decided at 600 and consumed at 550: the run
    is accepted, but its receipt counts as corrupt, and the recovery fails it. *)
Definition rewound_calls : list StoreCall :=
  take 9 access_calls ++ [CallAuthorizeFlow "ap-y" (sample_flow_run "ev-4" (Some "ap-2")) 550 1000].
Definition rewound : Store := run_calls rewound_calls empty_store.

(** A flow run accepted with an approved, unexpired approval is not served when
    the wall clock was set back between the decision and the acceptance: the
    claim refuses the run as corrupt, and the recovery ends it as failed. *)
Theorem clock_step_back_fails_flow :
  (authorize_flow_run "ap-y" (sample_flow_run "ev-4" (Some "ap-2")) 550 1000 (access_at 9)).2
    = Ok (FlowAccepted (Created "run-1" 1))
  /\ (claim "daemon" "token-1" 700 50 rewound).2 = Err (CorruptFlowAuthorization "run-1")
  /\ (fail_corrupt_flow_authorization "run-1" 710 "corrupt" rewound).2
     = Ok (RecoveryFailed {| st_state := ReqFailed; st_payload := "corrupt"; st_completed_at_ms := 710 |}).
Proof. split; [|split]; vm_compute; reflexivity. Qed.

(** ** The inventory theorems on a concrete history

    A project is scanned three times: two artifacts appear, then one changes and
    the other goes, then it comes back. A second project is scanned in between. *)

#[local] Existing Instance sample_hash.
#[local] Existing Instance sample_codec.

Lemma sample_hash_bytes x : String.length (sha256 x) = 32%nat.
Proof. done. Defined.

Definition sample_digest (c : ascii) : ContentDigest :=
  {| digest_str := "sha256:" +:+ of_bytes (repeat c 64) |}.
Definition sample_artifact (name path : string) (digest : ContentDigest) : AgentArtifact :=
  {| aar_name := name; aar_logical_path := path; aar_kind := KindSkill; aar_scope := ScopeProject;
     aar_origin := OriginClaudeCode; aar_load_semantics := LoadModelSelected; aar_content_hash := digest |}.

Definition build_skill : AgentArtifact := sample_artifact "build" "skills/build/SKILL.md" (sample_digest "a").
Definition build_skill_2 : AgentArtifact := sample_artifact "build" "skills/build/SKILL.md" (sample_digest "b").
Definition deploy_skill : AgentArtifact := sample_artifact "deploy" "skills/deploy/SKILL.md" (sample_digest "c").

Lemma sample_artifacts_ok : Forall artifact_ok [build_skill; build_skill_2; deploy_skill].
Proof. repeat constructor. Defined.

Definition scan_calls : list StoreCall :=
  [CallRescanSkills "project-1" [deploy_skill; build_skill] 100;
   CallRescanSkills "project-2" [build_skill] 150;
   CallRescanSkills "project-1" [build_skill_2] 200;
   CallResetHistory].

(** The store after the first [n] scans. *)
Definition scanned (n : nat) : Store := run_calls (take n scan_calls) empty_store.

(** What the project holds then. *)
Definition stored (a : AgentArtifact) (first changed : Z) (removed : option Z) : StoredAgentArtifact :=
  {| st_id := artifact_id a; st_artifact := a; st_first_seen_at_ms := first;
     st_last_changed_at_ms := changed; st_removed_at_ms := removed |}.
Definition inventory_3 : gmap AgentArtifactId StoredAgentArtifact :=
  <[artifact_id build_skill_2 := stored build_skill_2 100 200 None]>
    {[artifact_id deploy_skill := stored deploy_skill 100 100 (Some 200)]}.

Lemma scanned_rows : holds "project-1" inventory_3 (scanned 3).
Proof. unfold holds. apply (bool_decide_unpack _). vm_compute. exact I. Qed.

Lemma scanned_tombs : (size (tombs inventory_3) <= TOMBSTONE_CAP)%nat.
Proof. apply Nat.leb_le. vm_compute. reflexivity. Qed.

Lemma scanned_observation : observation "project-1" (scanned 3) = Some 200.
Proof. vm_compute. reflexivity. Qed.

Lemma scanned_inventory : project_inventory "project-1" inventory_3 (scanned 3).
Proof.
  split; [exact scanned_rows|]. split; [exact scanned_tombs|]. rewrite scanned_observation.
  split; [unfold i64_max; lia|]. unfold inventory_ok, inventory_3.
  assert (Hok : forall a first changed removed, artifact_ok a -> 0 <= first <= changed -> changed <= i64_max ->
    match removed with Some removed => changed <= removed <= i64_max | None => True end ->
    default changed removed <= 200 ->
    st_id (stored a first changed removed) = artifact_id a
    /\ stored_ok (stored a first changed removed) /\ stored_last (stored a first changed removed) <= 200).
  { intros. unfold stored_ok. cbn. done. }
  pose proof sample_artifacts_ok as Ha. inversion_clear Ha as [|? ? _ Ha']. inversion_clear Ha' as [|? ? H2 Ha].
  inversion_clear Ha as [|? ? H3 _].
  apply map_Forall_insert_2; [|apply map_Forall_singleton].
  - apply Hok; try done; cbn; unfold i64_max; lia.
  - apply Hok; try done; cbn; unfold i64_max; lia.
Defined.

Lemma rescan_exact_witness :
  exists s' drift inv', rescan_skill_inventory "project-1" [deploy_skill; build_skill] 300 (scanned 3) = (s', Ok drift)
    /\ observation "project-1" s' = Some 300 /\ project_inventory "project-1" inv' s'
    /\ pruned (merged 300 inventory_3 [deploy_skill; build_skill]) inv'
    /\ drift_exact 300 inventory_3 [deploy_skill; build_skill] drift
    /\ lists "project-1" [deploy_skill; build_skill] s' /\ only_inventory "project-1" (scanned 3) s'.
Proof.
  apply (rescan_exact sample_hash_bytes).
  - apply scanned_inventory.
  - rewrite scanned_observation. intros last [= <-]. lia.
  - unfold i64_max. lia.
  - split; [repeat constructor|]. vm_compute. repeat constructor; set_solver.
  - assert (Hid : artifact_id build_skill_2 <> artifact_id deploy_skill) by (vm_compute; discriminate).
    unfold inventory_3. intros id st a Hst Ha Heq. rewrite !elem_of_cons, elem_of_nil in Ha.
    apply lookup_insert_Some in Hst as [[Hi Hs]|[_ Hst]].
    + subst st. destruct Ha as [Ha|[Ha|[]]]; subst a; [|reflexivity]. destruct Hid. by rewrite Hi.
    + apply lookup_singleton_Some in Hst as [Hi Hs]. subst st. destruct Ha as [Ha|[Ha|[]]]; subst a; [reflexivity|].
      destruct Hid. by rewrite Hi.
Defined.

(** The drift of the third scan. *)
Example third_scan_drift :
  (rescan_skill_inventory "project-1" [build_skill_2] 200 (scanned 2)).2
  = Ok {| dr_added := []; dr_changed := [stored build_skill_2 100 200 None];
          dr_removed := [stored deploy_skill 100 100 (Some 200)]; dr_resurrected := [] |}.
Proof. vm_compute. reflexivity. Qed.

Lemma rescan_refusals_witness :
  rescan_skill_inventory "project-1" [deploy_skill] 200 (scanned 3)
  = (scanned 3, Err (SkillInventoryObservationConflict "project-1" 200))
  /\ rescan_skill_inventory "project-1" [deploy_skill] 199 (scanned 3)
     = (scanned 3, Err (SkillInventoryObservationRegression "project-1" 199 200))
  /\ rescan_skill_inventory "project-1" [build_skill_2] 200 (scanned 3) = (scanned 3, Ok drift_default).
Proof.
  pose proof scanned_observation as Ho.
  pose proof sample_artifacts_ok as Ha. inversion_clear Ha as [|? ? _ Ha']. inversion_clear Ha' as [|? ? H2 Ha].
  inversion_clear Ha as [|? ? H3 _].
  split; [|split].
  - rewrite (rescan_refusals sample_hash_bytes "project-1" inventory_3); [|apply scanned_inventory|by constructor|].
    + rewrite Ho. f_equal.
    + right. right. exists 200. split; [exact Ho|lia].
  - rewrite (rescan_refusals sample_hash_bytes "project-1" inventory_3); [|apply scanned_inventory|by constructor|].
    + rewrite Ho. f_equal.
    + right. right. exists 200. split; [exact Ho|lia].
  - rewrite (rescan_refusals sample_hash_bytes "project-1" inventory_3); [|apply scanned_inventory|by constructor|].
    + rewrite Ho. f_equal.
    + right. right. exists 200. split; [exact Ho|lia].
Defined.

Lemma listing_is_last_observation_witness :
  lists "project-1" [build_skill_2]
    (run_calls (take 2 scan_calls ++ CallRescanSkills "project-1" [build_skill_2] 200 :: drop 3 scan_calls) empty_store).
Proof.
  apply (listing_is_last_observation sample_hash_bytes (take 2 scan_calls) "project-1" [build_skill_2] 200
           (drop 3 scan_calls)
           {| dr_added := []; dr_changed := [stored build_skill_2 100 200 None];
              dr_removed := [stored deploy_skill 100 100 (Some 200)]; dr_resurrected := [] |}).
  - repeat constructor; cbn; lia.
  - assert (Hid : artifact_id build_skill <> artifact_id deploy_skill) by (vm_compute; discriminate).
    intros a b Ha Hb. cbn in Ha, Hb. rewrite !elem_of_cons, elem_of_nil in Ha, Hb.
    change (artifact_id build_skill) with (artifact_id build_skill_2) in Hid.
    assert (Hone : forall x, x = deploy_skill \/ x = build_skill \/ x = build_skill \/ x = build_skill_2 \/ False ->
      x = deploy_skill \/ identity x = identity build_skill_2).
    { intros x [->|[->|[->|[->|[]]]]]; [left; reflexivity|right; reflexivity..]. }
    intros Heq. apply Hone in Ha, Hb. unfold artifact_id in *. destruct Ha as [Ha|Ha], Hb as [Hb|Hb].
    + by rewrite Ha, Hb.
    + destruct Hid. rewrite <-Hb, <-Ha. symmetry. exact Heq.
    + destruct Hid. rewrite <-Ha, <-Hb. exact Heq.
    + by rewrite Ha, Hb.
  - repeat constructor.
  - vm_compute. reflexivity.
Defined.
