(* ===== verification/Exec.v ===== *)
(** * Processes of the daemon

    The daemon executes a leased request as an asynchronous task: it calls the
    store, reads the clock and the file system, starts child processes and
    waits, and other tasks run at every [await]. A task is an interaction tree
    over two kinds of events: a call of the store, which is one transaction of
    the store model, and a question to the operating system, whose answer
    nothing here determines. *)

From ITree Require Import Core.ITreeDefinition Indexed.Sum.
From S2P Require Import Prelude Core Policy FlowDef FlowData StoreDef StoreFlow StoreQueue StoreAudit StoreAccess StoreAuth.
From S2P Require Import StoreView Protocol FlowOperation.

Local Open Scope Z_scope.

(** ** Calls of the store *)

Inductive StoreE : Type -> Type :=
| LoadFlowCheckpoint (lease : Lease) (now_ms : Z) : StoreE (sres (option FlowCheckpoint))
| ValidateFlowOperationResource (lease : Lease) (resource : ResourceName) (now_ms : Z) : StoreE (sres unit)
| SaveCheckpoint (save : SaveFlowCheckpoint) : StoreE (sres FlowCheckpointSaveOutcome)
| ValidateFlowEffectAuthorization (lease : Lease) (now_ms : Z) : StoreE (sres FlowEffectAuthorization)
| SnapshotRequest (id : RequestId) : StoreE (sres RequestSnapshot)
| RenewLease (lease : Lease) (now_ms lease_duration_ms : Z) : StoreE (sres Lease)
| QueuedBehind (id : RequestId) : StoreE (sres Z)
| FinishRequest (lease : Lease) (now_ms : Z) (state : TerminalState) (result : string)
  : StoreE (sres StoredResult)
| FinishTerminalFlow (lease : Lease) (now_ms : Z) (result : string) : StoreE (sres StoredResult)
| ReplayRequest (id : RequestId) (after_sequence : Z) : StoreE (sres Replay)
| ClaimRequest (owner token : string) (now_ms lease_duration_ms : Z) : StoreE (sres (option LeasedRequest))
| RecoverExpiredRequests (now_ms : Z) : StoreE (sres (list RequestId))
| FailCorruptFlowAuthorization (id : RequestId) (now_ms : Z) (result : string)
  : StoreE (sres FlowAuthorizationRecoveryOutcome)
| AuthenticateCaller (caller_id : CallerId) (credential : string) : StoreE (sres CallerAuthentication)
| AuthorizeAudited (uuid : string) (request : AuthorizationRequest) (audit : AuthorizationAudit)
    (now_ms ttl_ms : Z) : StoreE (sres AuthorizationOutcome)
| AuthorizeFlow (uuid : string) (request : AuthorizeFlowRun) (now_ms ttl_ms : Z)
  : StoreE (sres FlowAuthorizationOutcome)
| DecideApproval (approval_id : ApprovalId) (project_id : ProjectId) (approver_id : CallerId)
    (decision : StoreApprovalDecision) (now_ms : Z) : StoreE (sres ApprovalDecisionOutcome)
| AppendAudit (event : AppendAuditEvent) : StoreE (sres AuditEventRecord)
| RememberProjectRoot (project_id : ProjectId) (root : string) : StoreE (sres unit)
| AcceptWork (request : AcceptRequest) (now_ms : Z) : StoreE (sres AcceptOutcome)
| SnapshotTarget (id : RequestId) (expected : option ExpectedOperationKind) : StoreE (sres RequestSnapshot)
| ReplayTarget (id : RequestId) (after_sequence : Z) (expected : option ExpectedOperationKind)
  : StoreE (sres Replay)
| CancelTarget (id : RequestId) (now_ms : Z) (result : string) (expected : option ExpectedOperationKind)
  : StoreE (sres CancelOutcome)
| WorkloadOf (project_id : ProjectId) : StoreE (sres ProjectWorkload)
| CurrentOf (project_id : ProjectId) : StoreE (sres StoreView.ProjectCurrent)
| RecentAudit (limit : Z) : StoreE (sres RecentAuditEvents)
| ActiveGrants (caller_id : CallerId) (project_id : ProjectId) (now_ms : Z) : StoreE (sres (list Grant))
| RevokeGrant (grant_id : GrantId) (now_ms : Z) : StoreE (sres GrantRevocation).

Section store.
Context `{Sha256} `{FlowCodec}.

(** What the store does and answers: each call is one transaction. *)
Definition store_step {A} (e : StoreE A) : Store -> Store * A :=
  match e in StoreE A return Store -> Store * A with
  | LoadFlowCheckpoint lease now => load_flow_checkpoint lease now
  | ValidateFlowOperationResource lease resource now => validate_flow_operation_resource lease resource now
  | SaveCheckpoint save => save_flow_checkpoint save
  | ValidateFlowEffectAuthorization lease now => validate_flow_effect_authorization lease now
  | SnapshotRequest id => fun s => (s, snapshot s id None)
  | RenewLease lease now duration => renew lease now duration
  | QueuedBehind id => fun s => (s, queued_behind s id)
  | FinishRequest lease now state result => finish lease now state result
  | FinishTerminalFlow lease now result => finish_terminal_flow lease now result
  | ReplayRequest id after => fun s => (s, replay s id after None)
  | ClaimRequest owner token now duration => claim owner token now duration
  | RecoverExpiredRequests now => recover_expired_requests now
  | FailCorruptFlowAuthorization id now result => fail_corrupt_flow_authorization id now result
  | AuthenticateCaller caller credential => fun s => (s, authenticate_caller s caller credential)
  | AuthorizeAudited uuid request audit now ttl => authorize_audited uuid request audit now ttl
  | AuthorizeFlow uuid request now ttl => authorize_flow_run uuid request now ttl
  | DecideApproval id project approver decision now => decide_approval id (Some project) approver decision now
  | AppendAudit event => append_audit_event event
  | RememberProjectRoot project root => remember_project_root project root
  | AcceptWork request now => accept request now
  | SnapshotTarget id expected => fun s => (s, snapshot s id expected)
  | ReplayTarget id after expected => fun s => (s, replay s id after expected)
  | CancelTarget id now result expected => StoreQueue.cancel id now result expected
  | WorkloadOf project => fun s => (s, project_workload s project)
  | CurrentOf project => fun s => (s, StoreView.project_current s project)
  | RecentAudit limit => fun s => (s, recent_audit_events s limit)
  | ActiveGrants caller project now => fun s => (s, active_grants s caller project now)
  | RevokeGrant id now => revoke_grant id now
  end.

End store.

(** ** Questions to the operating system *)

(** Device and inode of a directory. *)
Record DirectoryIdentity := { di_first : Z; di_second : Z }.

#[export] Instance DirectoryIdentity_eq_dec : EqDecision DirectoryIdentity.
Proof. solve_decision. Defined.

(** What [symlink_metadata] tells about a path. *)
Record PathMetadata := {
  md_is_symlink : bool;
  md_is_dir : bool;
  md_identity : DirectoryIdentity
}.

(** An open worktree. The two directory handles themselves are only used while
    it is fingerprinted. *)
Record WorkspaceAuthority := {
  canonical_root : string;
  root_identity : DirectoryIdentity;
  git_identity : DirectoryIdentity
}.

Record FingerprintedWorkspace := {
  fw_fingerprint : WorkspaceFingerprint;
  fw_authority : WorkspaceAuthority
}.

(** A project as [pam_platform::discover_project] finds it. *)
Record DiscoveredProject := { dp_root : string; dp_id : ProjectId }.

Record ChildProcess := {
  ch_program : string;
  ch_args : list string;
  ch_working_directory : string;
  ch_environment : gmap string string
}.

Definition ChildId := Z.

(** [ExitStatus], of which only [success] is asked. *)
Record ExitStatus := { success : bool }.

(** The arm of the [select!] of [execute_command_raw] that is ready. *)
Inductive SelectArm : Type :=
| ArmData (chunk : string)
| ArmReadFailed
| ArmClosed
| ArmDeadline
| ArmHeartbeat.

(** [timeout(POST_KILL_WAIT, child.wait())]. *)
Inductive WaitOutcome : Type := Waited | WaitFailed | WaitTimedOut.

(** One [recv] under the timeout of the drain. *)
Inductive DrainOutcome : Type :=
| DrainData (chunk : string)
| DrainReadFailed
| DrainClosed
| DrainTimedOut.

Record ConnectorRecord := {
  co_connector_id : string;
  co_enabled : bool;
  co_base_url : option string
}.

Record PreparedConnectorStep := {
  ps_connector : string;
  ps_capability : string;
  ps_resource_kind : string;
  ps_resource_id : string
}.

Record ConnectorCallSuccess := {
  cs_summary : string;
  cs_partial_reason : option string;
  cs_response_json : option string;
  cs_artifacts : list string
}.

(** A failed connector call: the [Debug] of its kind, its message and whether
    it says to retry after a backoff. *)
Record ConnectorCallFailure := {
  cf_kind : string;
  cf_message : string;
  cf_retry_after_backoff : bool
}.

Inductive EvidenceRetention : Type := RetainSession | RetainProject | RetainPersistent.
Inductive EvidenceRedaction : Type := Unredacted | Redacted.

Record PutEvidence := {
  pe_handle : EvidenceHandle;
  pe_project_id : ProjectId;
  pe_media_type : string;
  pe_retention : EvidenceRetention;
  pe_redaction : EvidenceRedaction;
  pe_bytes : string
}.

(** The connection a request came in on, and [respond] to it. *)
Definition ClientId := Z.
Inductive RespondOutcome : Type := Responded | ClientDisconnected | TransportFailed.

(** What the connection loop needs to keep a client informed of a request. *)
Record SubscriptionRequest := {
  sub_canonical_request_id : RequestId;
  sub_event_request_id : RequestId;
  sub_observer_request_id : RequestId;
  sub_project_id : ProjectId;
  sub_last_sequence : Z
}.

Inductive OsE : Type -> Type :=
| OsNow : OsE Z
| OsDelayOrHeartbeat (remaining_ms : Z) : OsE bool
| OsCanonicalize (path : string) : OsE (option string)
| OsIsDir (path : string) : OsE bool
| OsIsFile (path : string) : OsE bool
| OsSymlinkMetadata (path : string) : OsE (option PathMetadata)
| OsSearchPath : OsE (option string)
| OsEnvironment : OsE (list (string * string))
| OsDiscoverProject (path : string) : OsE (option DiscoveredProject)
| OsPollFingerprint (root : string) : OsE (option (res FlowSubmissionError FingerprintedWorkspace))
| OsSpawn (child : ChildProcess) : OsE (option ChildId)
| OsTryWait (child : ChildId) : OsE (option (option ExitStatus))
| OsSelect (child : ChildId) : OsE SelectArm
| OsTerminate (child : ChildId) : OsE unit
| OsWait (child : ChildId) : OsE WaitOutcome
| OsDrain (child : ChildId) : OsE DrainOutcome
| OsJoinReaders (child : ChildId) : OsE bool
| OsPutEvidence (put : PutEvidence) (now_ms : Z) : OsE (sres unit)
| OsListConnectors : OsE (sres (list ConnectorRecord))
| OsParseConnectorCall (step : PreparedConnectorStep) : OsE (res string unit)
| OsLoadCredential (connector : string) : OsE (res string (option string))
| OsBuildConnectorCall (step : PreparedConnectorStep) (record : ConnectorRecord)
    (credential : option string) : OsE (res string unit)
| OsPollConnectorCall (step : PreparedConnectorStep) (timeout_seconds attempt : Z)
  : OsE (option (res FlowSubmissionError (res ConnectorCallFailure ConnectorCallSuccess)))
| OsSend (id : RequestId) (messages : list ServerMessage) (terminal : bool) : OsE unit
| OsLeaseToken : OsE string
| OsStartWorker (leased : LeasedRequest) : OsE unit
| OsRoute (messages : list ServerMessage) : OsE unit
| OsRouteRegistered (messages : list ServerMessage) (subscribe : SubscriptionRequest) : OsE bool
| OsStop (result : ResultEnvelope) : OsE unit
| OsWakeScheduler : OsE unit
| OsAdmitPreflight : OsE bool
| OsSleep (duration_ms : Z) : OsE unit
| OsFingerprint (root : string) : OsE (res FlowSubmissionError FingerprintedWorkspace)
| OsUuid : OsE string
| OsEventNonce : OsE (Z * Z * Z)
| OsRecentLogs (limit : Z) : OsE (list DaemonLogEntry)
| OsBrief (project_id : ProjectId) : OsE BriefResult
| OsNetworkDiagnostics : OsE (option (OperationTruth * NetworkDiagnosticsResult))
| OsServe (request : RequestEnvelope) : OsE (sres unit)
| OsRespond (client : ClientId) (payload : string) : OsE RespondOutcome.

(** ** Tasks *)

Definition DaemonE : Type -> Type := StoreE +' OsE.

(** A task that ends with a value, an error or a panic. *)
Definition Task (X A : Type) : Type := itree DaemonE (res X A).
Abbreviation Exec := (Task StoreError).

Definition done {X A} (a : A) : Task X A := Ret (Ok a).
Definition exec_bind {X A B} (m : Task X A) (k : A -> Task X B) : Task X B :=
  ITree.bind m (fun r => match r with Ok a => k a | Err e => Ret (Err e) | Panic => Ret Panic end).

Notation "'await!' x ':=' m 'in' k" := (exec_bind m (fun x => k))
  (at level 10, x pattern, m at level 100, k at level 200) : pam_scope.

(** A result as a task that does nothing: [?] on a [Result]. *)
Definition exec_lift {X A} (r : res X A) : Task X A := Ret r.
Definition exec_err {X A} (e : X) : Task X A := Ret (Err e).

(** [match m.await { Ok(a) => k, Err(e) => h }]. *)
Definition exec_match {X Y A B} (m : Task X A) (k : A -> Task Y B) (h : X -> Task Y B) : Task Y B :=
  ITree.bind m (fun r => match r with Ok a => k a | Err e => h e | Panic => Ret Panic end).

(** [m.await.map_err(f)]: the conversions of [?]. *)
Definition exec_map_err {X Y A} (f : X -> Y) (m : Task X A) : Task Y A :=
  ITree.bind m (fun r => Ret (map_err f r)).

(** [loop]: [inl] starts the next iteration, [inr] leaves the loop. *)
Definition exec_loop {X I A} (body : I -> Task X (I + A)) (i : I) : Task X A :=
  ITree.iter (fun i => ITree.bind (body i) (fun r =>
    Ret match r with
        | Ok (inl i) => inl i
        | Ok (inr a) => inr (Ok a)
        | Err e => inr (Err e)
        | Panic => inr Panic
        end)) i.

(** A call of the store: its error is the error of the task. *)
Definition store {A} (e : StoreE (sres A)) : Exec A := ITree.trigger (inl1 e : DaemonE (sres A)).

(** A question to the operating system. *)
Definition os {X A} (e : OsE A) : Task X A :=
  ITree.bind (ITree.trigger (inr1 e : DaemonE A)) (fun a => Ret (Ok a)).

(** A question whose answer is itself a result of the store. *)
Definition os_res {A} (e : OsE (sres A)) : Exec A := ITree.trigger (inr1 e : DaemonE (sres A)).

Definition now_ms {X} : Task X Z := os OsNow.
