(* ===== verification/FlowCommand.v ===== *)
(** * The commands of a flow ([pam_daemon/src/flow.rs])

    Which steps the daemon executes and with what: the allowlist of git
    commands and their arguments, the resolution of the program and of the
    working directory, the check of the project root, and the environment a
    child process gets. *)

From ITree Require Import Core.ITreeDefinition.
From S2P Require Import Prelude Core Compact Paths FlowDef FlowData StoreDef Protocol FlowOperation Exec.

Local Open Scope Z_scope.

Inductive CommandRejection : Type :=
| Unsupported | UnsafeWorkingDirectory | WorkspaceChanged | StatefulConnector.

Record PreparedCommand := {
  pc_program : string;
  pc_args : list string;
  pc_working_directory : string;
  pc_execution_root : string
}.

Inductive PreparedEffect : Type :=
| PreparedCommandEffect (command : PreparedCommand)
| PreparedConnectorEffect (step : PreparedConnectorStep).

(** A check that rejects a command, as a result of a task that goes on. *)
Definition Checked (A : Type) : Type := Exec (res CommandRejection A).

Definition ck_ret {A} (a : A) : Checked A := done (Ok a).
Definition ck_err {A} (e : CommandRejection) : Checked A := done (Err e).
Definition ck_bind {A B} (m : Checked A) (k : A -> Checked B) : Checked B :=
  await! r := m in
  match r with Ok a => k a | Err e => ck_err e | Panic => exec_lift Panic end.

Notation "'try*' x ':=' m 'in' k" := (ck_bind m (fun x => k))
  (at level 10, x pattern, m at level 100, k at level 200) : pam_scope.

(** ** The allowlist *)

Definition null_device : string := "/dev/null".

Definition safe_git_config_args : list string :=
  ["-c"; "core.fsmonitor=false"; "-c"; "core.untrackedCache=false";
   "-c"; "core.excludesFile=" +:+ null_device; "--no-pager"].

Definition git_args_with_safe_config (args : list string) : list string :=
  safe_git_config_args ++ args.

Definition is_one_of (values : list string) (s : string) : bool := existsb (String.eqb s) values.

Definition safe_git_status_argument (argument : string) : bool :=
  is_one_of ["--short"; "-s"; "--porcelain"; "--no-renames"; "--find-renames"] argument
  || String.prefix "--porcelain=" argument
  || String.prefix "--untracked-files=" argument
  || String.prefix "--find-renames=" argument.

Definition safe_git_revision_argument (argument : string) : bool :=
  is_one_of ["HEAD"; "--verify"; "--quiet"; "-q"; "--short"; "--show-toplevel"; "--show-prefix";
             "--show-cdup"; "--git-dir"; "--absolute-git-dir"; "--is-inside-work-tree"] argument
  || match strip_prefix "--short=" argument with
     | Some length => negb (str_is_empty length) && all_bytes is_ascii_digit length
     | None => false
     end.

Definition safe_git_diff_argument (argument : string) : bool := String.eqb argument "--quiet".

Definition validated_git_args (args : list string) : res CommandRejection (list string) :=
  match args with
  | [] => Err Unsupported
  | command :: rest =>
    if String.eqb command "status" && forallb safe_git_status_argument rest
    then Ok (git_args_with_safe_config args)
    else if String.eqb command "rev-parse" && (1 <? length args)%nat && forallb safe_git_revision_argument rest
    then Ok (git_args_with_safe_config args)
    else if String.eqb command "diff" && existsb (String.eqb "--quiet") args && forallb safe_git_diff_argument rest
    then Ok (safe_git_config_args ++ ["diff"; "--no-ext-diff"; "--no-textconv"] ++ rest)
    else Err Unsupported
  end.

Definition validate_git_semantic_role (args : list string) (role : StepSemanticRole) (schema_version : Z)
  : res CommandRejection unit :=
  match args with
  | [] => Err Unsupported
  | command :: _ =>
    match role with
    | Verify => if String.eqb command "diff" then Ok tt else Err Unsupported
    | Observe =>
      if is_one_of ["status"; "rev-parse"] command then Ok tt
      else if String.eqb command "diff" && (schema_version =? 1) then Ok tt
      else Err Unsupported
    | _ => Err Unsupported
    end
  end.

(** ** Programs and directories *)

Definition is_colon (a : ascii) : bool := Ascii.eqb a ":"%char.

(** [std::env::split_paths] and [join_paths] on Unix. *)
Definition split_paths (s : string) : list string := split_on is_colon s.
Definition join_paths (l : list string) : option string :=
  if existsb (fun p => str_contains ":" p) l then None else Some (str_join ":" l).

(** The directories of the search path in order, until the first usable file. *)
Fixpoint find_executable (program execution_root : string) (directories : list string) : Checked string :=
  match directories with
  | [] => ck_err Unsupported
  | directory :: rest =>
    if negb (is_absolute directory) then find_executable program execution_root rest
    else
      await! candidate := os (OsCanonicalize (path_join directory program)) in
      match candidate with
      | None => find_executable program execution_root rest
      | Some candidate =>
        await! is_file := os (OsIsFile candidate) in
        if is_file && negb (path_starts_with candidate execution_root) then ck_ret candidate
        else find_executable program execution_root rest
      end
  end.

Definition resolve_executable (program execution_root : string) : Checked string :=
  await! inherited := os OsSearchPath in
  match inherited with
  | None => ck_err Unsupported
  | Some inherited => find_executable program execution_root (split_paths inherited)
  end.

Definition canonical_working_directory (execution_root relative : string) : Checked string :=
  if negb (is_one_of [EmptyString; "."] relative) then ck_err UnsafeWorkingDirectory
  else
    await! canonical := os (OsCanonicalize (path_join execution_root relative)) in
    match canonical with
    | None => ck_err UnsafeWorkingDirectory
    | Some canonical =>
      await! is_dir := os (OsIsDir canonical) in
      if is_dir && path_starts_with canonical execution_root then ck_ret canonical
      else ck_err UnsafeWorkingDirectory
    end.

(** ** Definitions and effects the daemon executes *)

Definition reject {A} (r : res CommandRejection A) : Checked A := done r.

Definition validate_supported_step (execution_root : string) (definition : FlowDefinition) (step : FlowStep)
  : Checked unit :=
  match fs_action step with
  | Connector _ _ _ =>
    if bool_decide (fs_effect step = ReadOnly) then ck_ret tt else ck_err StatefulConnector
  | Command program args working_directory =>
    try* _ := canonical_working_directory execution_root working_directory in
    try* _ :=
      (if String.eqb program "git" then
         try* _ := reject (validated_git_args args) in
         if negb (bool_decide (fs_effect step = ReadOnly)) || negb (bool_decide (fs_approval step = ModeNone))
         then ck_err Unsupported
         else reject (validate_git_semantic_role args (semantic_role step) (fd_schema_version definition))
       else ck_err Unsupported) in
    try* _ := resolve_executable program execution_root in
    ck_ret tt
  end.

Fixpoint validate_supported_steps (execution_root : string) (definition : FlowDefinition)
    (steps : list FlowStep) : Checked unit :=
  match steps with
  | [] => ck_ret tt
  | step :: rest =>
    try* _ := validate_supported_step execution_root definition step in
    validate_supported_steps execution_root definition rest
  end.

Definition validate_supported_definition (execution_root : string) (definition : FlowDefinition)
  : Checked unit :=
  validate_supported_steps execution_root definition (fd_steps definition).

(** [definition.steps().get(index).filter(|step| step.id() == effect.step_id())]. *)
Definition effect_step (definition : FlowDefinition) (effect : EffectAttempt) : option FlowStep :=
  step ← fd_steps definition !! ea_step_index effect;
  if String.eqb (fs_id step) (ea_step_id effect) then Some step else None.

(** The arguments of a command the daemon executes. *)
Definition command_args (definition : FlowDefinition) (step : FlowStep) (effect : EffectAttempt)
    (program : string) (args : list string) : res CommandRejection (list string) :=
  if String.eqb program "git" && bool_decide (ea_effect effect = ReadOnly)
     && bool_decide (fs_approval step = ModeNone)
  then
    let? _ := validate_git_semantic_role args (semantic_role step) (fd_schema_version definition) in
    validated_git_args args
  else Err Unsupported.

Definition prepare_command (execution_root : string) (definition : FlowDefinition) (effect : EffectAttempt)
  : Checked PreparedCommand :=
  match effect_step definition effect with
  | None => ck_err Unsupported
  | Some step =>
    match fs_action step with
    | Connector _ _ _ => ck_err Unsupported
    | Command program args working_directory =>
      try* working_directory := canonical_working_directory execution_root working_directory in
      try* args := reject (command_args definition step effect program args) in
      try* program := resolve_executable program execution_root in
      ck_ret {| pc_program := program; pc_args := args; pc_working_directory := working_directory;
                pc_execution_root := execution_root |}
    end
  end.

Definition prepare_effect (execution_root : string) (definition : FlowDefinition) (effect : EffectAttempt)
  : Checked PreparedEffect :=
  match effect_step definition effect with
  | None => ck_err Unsupported
  | Some step =>
    match fs_action step with
    | Connector connector capability resource =>
      if negb (bool_decide (ea_effect effect = ReadOnly)) || negb (bool_decide (fs_effect step = ReadOnly))
      then ck_err StatefulConnector
      else ck_ret (PreparedConnectorEffect
                     {| ps_connector := connector; ps_capability := capability;
                        ps_resource_kind := cr_kind resource; ps_resource_id := cr_id resource |})
    | Command _ _ _ =>
      try* command := prepare_command execution_root definition effect in
      ck_ret (PreparedCommandEffect command)
    end
  end.

(** ** The project root of a run *)

Definition verify_flow_project_root (requested_root : string) (expected_project_id : ProjectId)
  : Exec (res FlowSubmissionError string) :=
  if negb (is_absolute requested_root) then done (Err WorkspaceUnavailable)
  else
    await! canonical_root := os (OsCanonicalize requested_root) in
    match canonical_root with
    | None => done (Err WorkspaceUnavailable)
    | Some canonical_root =>
      if negb (path_eqb canonical_root requested_root) then done (Err WorkspaceUnavailable)
      else
        await! project := os (OsDiscoverProject canonical_root) in
        match project with
        | None => done (Err WorkspaceUnavailable)
        | Some project =>
          await! discovered_root := os (OsCanonicalize (dp_root project)) in
          match discovered_root with
          | None => done (Err WorkspaceUnavailable)
          | Some discovered_root =>
            if negb (path_eqb discovered_root canonical_root)
               || negb (String.eqb (dp_id project) expected_project_id)
            then done (Err WorkspaceUnavailable)
            else done (Ok canonical_root)
          end
        end
    end.

(** ** The environment of a child *)

Definition to_string_lossy (s : string) : string :=
  foldr (fun c out => push_char c +:+ out) EmptyString (from_utf8_lossy (bytes s)).

Definition to_ascii_uppercase_byte (a : ascii) : ascii :=
  if is_ascii_lowercase a then ascii_of_N (N_of_ascii a - 32) else a.
Definition to_ascii_uppercase (s : string) : string := of_bytes (to_ascii_uppercase_byte <$> bytes s).

Definition safe_names : list string :=
  ["LANG"; "LC_ALL"; "LC_CTYPE"; "PATH"; "TEMP"; "TMP"; "TMPDIR"].

Definition safe_environment_name (name : string) : bool :=
  is_one_of safe_names (to_ascii_uppercase (to_string_lossy name)).

(** The canonical directories of the search path outside the project. *)
Fixpoint safe_directories (execution_root : string) (directories : list string) : Exec (list string) :=
  match directories with
  | [] => done []
  | directory :: rest =>
    if negb (is_absolute directory) then safe_directories execution_root rest
    else
      await! canonical := os (OsCanonicalize directory) in
      match canonical with
      | None => safe_directories execution_root rest
      | Some canonical =>
        await! is_dir := os (OsIsDir canonical) in
        await! paths := safe_directories execution_root rest in
        done (if is_dir && negb (path_starts_with canonical execution_root) then canonical :: paths else paths)
      end
  end.

Definition safe_search_path (execution_root : string) : Exec (option string) :=
  await! inherited := os OsSearchPath in
  match inherited with
  | None => done None
  | Some inherited =>
    await! paths := safe_directories execution_root (split_paths inherited) in
    done (join_paths paths)
  end.

Definition fixed_environment : list (string * string) :=
  [("GIT_TERMINAL_PROMPT", "0"); ("GIT_ASKPASS", "/usr/bin/false"); ("SSH_ASKPASS", "/usr/bin/false");
   ("GIT_OPTIONAL_LOCKS", "0"); ("GIT_CONFIG_NOSYSTEM", "1"); ("GIT_ATTR_NOSYSTEM", "1");
   ("GIT_CONFIG_GLOBAL", null_device)].

(** [Command::envs]: later pairs replace earlier ones. *)
Definition set_variables (pairs : list (string * string)) (environment : gmap string string)
  : gmap string string :=
  foldl (fun e '(name, value) => <[name := value]> e) environment pairs.

Definition apply_safe_environment (execution_root : string) : Exec (gmap string string) :=
  await! inherited := os OsEnvironment in
  await! path := safe_search_path execution_root in
  let environment := set_variables (List.filter (fun '(name, _) => safe_environment_name name) inherited) ∅ in
  let environment := match path with Some path => <["PATH" := path]> environment | None => environment end in
  done (set_variables fixed_environment environment).
