(* ===== verification/FlowExecute.v ===== *)
(** * Executing one effect ([pam_daemon/src/flow.rs])

    The lease is renewed and the cancellation polled while a child process
    runs, a workspace is fingerprinted, a connector is called or a retry waits;
    the output of a child is collected within its bound; what it printed is
    retained as evidence. [leased] is passed on because renewing replaces the
    lease. *)

From ITree Require Import Core.ITreeDefinition.
From S2P Require Import Prelude Core Redact Paths FlowDef FlowData StoreDef StoreQueue Protocol FlowOperation Exec FlowCommand.

Local Open Scope Z_scope.

Definition MAX_COMMAND_OUTPUT_BYTES : Z := 256 * 1024.
Definition COMMAND_OUTPUT_MEDIA_TYPE : string := "application/vnd.pam.flow-command-output".
Definition CONNECTOR_OUTPUT_MEDIA_TYPE : string := "application/vnd.pam.connector-output".
Definition CONNECTOR_RECOVERY_SURFACES : string :=
  "use the pam connector CLI or the GUI Connectors surface, then retry the flow".

(** ** Errors of the engine as errors of the task *)

(** [Display] of a validation error and of an engine error. *)
Definition validation_error_display (e : FlowValidationError) : string :=
  "flow validation failed at " +:+ ve_path e +:+ ": " +:+ ve_message e.

Definition engine_error_display (e : FlowEngineError) : string :=
  match e with
  | InvalidValue path message => "invalid flow engine value at " +:+ path +:+ ": " +:+ message
  | InvalidDefinition error => validation_error_display error
  | UnsupportedSnapshotVersion version =>
    "unsupported flow snapshot version " +:+ pretty version +:+ "; only version "
      +:+ pretty FLOW_SNAPSHOT_VERSION +:+ " is supported"
  | InvalidInitialSnapshot => "initial flow snapshot shape is invalid"
  | RunIdMismatch => "flow snapshot run identity does not match"
  | DefinitionDigestMismatch => "flow snapshot definition digest does not match"
  | SnapshotShapeMismatch => "flow snapshot step shape or state is invalid"
  | SnapshotStatusMismatch => "flow snapshot status does not match its step states"
  | SnapshotIdentityMismatch => "flow snapshot successor changed immutable run or step identity"
  | SnapshotSequenceMismatch => "flow snapshot successor did not advance exactly one transition"
  | SnapshotTransitionMismatch => "flow snapshot mutation does not match its semantic transition"
  | EffectIdentityMismatch => "effect attempt identity does not match the run"
  | ApprovalTokenMismatch => "approval token does not match the pending exact effect"
  | NoApprovalPending => "no flow approval is pending"
  | UnexpectedStepState => "flow step is not in the state required for this operation"
  | StatefulReplayRequiresReconcile => "an in-flight stateful effect must be reconciled before retry"
  | ConflictingEffectResult step_id attempt =>
    "conflicting duplicate result for step `" +:+ step_id +:+ "` attempt " +:+ pretty attempt
  | TimestampOverflow => "flow retry timestamp overflowed"
  | TransitionSequenceOverflow => "flow transition sequence overflowed"
  | SchedulerStalled => "validated flow scheduler stalled"
  end.

Definition flow_engine_error (e : FlowEngineError) : StoreError :=
  InvalidState ("flow engine rejected durable state: " +:+ engine_error_display e).

(** ** The lease *)

Definition with_lease (leased : LeasedRequest) (lease : Lease) : LeasedRequest :=
  {| lr_lease := lease; lr_queue_sequence := lr_queue_sequence leased;
     lr_operation_kind := lr_operation_kind leased; lr_operation := lr_operation leased |}.

Inductive LeaseWait : Type := LeaseReady | LeaseCancelled | LeaseStale.

Definition request_is_cancelled (leased : LeasedRequest) : Exec bool :=
  await! request := store (SnapshotRequest (le_request_id (lr_lease leased))) in
  done (bool_decide (rs_state request = ReqCancellationRequested)).

Section lease.
Context (lease_duration_ms : Z).

Definition renew_and_poll_cancellation (leased : LeasedRequest) : Exec (LeasedRequest * LeaseWait) :=
  await! now := now_ms in
  exec_match (store (RenewLease (lr_lease leased) now lease_duration_ms))
    (fun lease =>
       let leased := with_lease leased lease in
       await! cancelled := request_is_cancelled leased in
       done (leased, if cancelled then LeaseCancelled else LeaseReady))
    (fun error => match error with
                  | StaleLease _ => done (leased, LeaseStale)
                  | _ => exec_err error
                  end).

(** [WorkspaceFingerprintLease<T>]. *)
Inductive LeaseCall (T : Type) : Type :=
| CallCompleted (result : res FlowSubmissionError T)
| CallCancelled
| CallStale.
Arguments CallCompleted {T}. Arguments CallCancelled {T}. Arguments CallStale {T}.

(** [poll] answers the result of the future or that the heartbeat was first. *)
Definition await_workspace_fingerprint_with_lease {T}
    (poll : Exec (option (res FlowSubmissionError T))) (leased : LeasedRequest)
  : Exec (LeasedRequest * LeaseCall T) :=
  await! (leased, state) := renew_and_poll_cancellation leased in
  match state with
  | LeaseCancelled => done (leased, CallCancelled)
  | LeaseStale => done (leased, CallStale)
  | LeaseReady =>
    exec_loop (fun leased =>
      await! answer := poll in
      match answer with
      | Some result => done (inr (leased, CallCompleted result))
      | None =>
        await! (leased, state) := renew_and_poll_cancellation leased in
        done (match state with
              | LeaseReady => inl leased
              | LeaseCancelled => inr (leased, CallCancelled)
              | LeaseStale => inr (leased, CallStale)
              end)
      end) leased
  end.

Definition wait_for_retry (leased : LeasedRequest) (not_before_ms : Z) : Exec (LeasedRequest * LeaseWait) :=
  await! now := now_ms in
  let remaining := Z.max 0 (not_before_ms - now) in
  exec_loop (fun leased =>
    await! elapsed := os (OsDelayOrHeartbeat remaining) in
    if elapsed : bool then done (inr (leased, LeaseReady))
    else
      await! (leased, state) := renew_and_poll_cancellation leased in
      done (match state with LeaseReady => inl leased | other => inr (leased, other) end)) leased.

(** ** Collecting output *)

Inductive OutputCollectionError : Type := CollectIo | CollectOverflow | CollectIncomplete.

Definition append_output (output chunk : string) (output_limit : Z)
  : string * res OutputCollectionError unit :=
  let remaining := Z.max 0 (output_limit - len output) in
  (output +:+ String.substring 0 (Z.to_nat (Z.min (len chunk) remaining)) chunk,
   if len chunk >? remaining then Err CollectOverflow else Ok tt).

Definition drain_output (child : ChildId) (output : string)
  : Exec (string * res OutputCollectionError unit) :=
  exec_loop (fun output =>
    await! message := os (OsDrain child) in
    done (match message with
          | DrainData chunk =>
            match append_output output chunk MAX_COMMAND_OUTPUT_BYTES with
            | (output, Ok _) => inl output
            | (output, error) => inr (output, error)
            end
          | DrainReadFailed | DrainTimedOut => inr (output, Err CollectIncomplete)
          | DrainClosed => inr (output, Ok tt)
          end)) output.

(** [a.and(b)]. *)
Definition res_and {E A B} (a : res E A) (b : res E B) : res E B := let? _ := a in b.

Definition terminate_and_collect (child : ChildId) (output : string)
  : Exec (string * res OutputCollectionError unit) :=
  await! _ := os (OsTerminate child) in
  await! waited := os (OsWait child) in
  let wait_result :=
    match waited with
    | Waited => Ok tt
    | WaitFailed => Err CollectIo
    | WaitTimedOut => Err CollectIncomplete
    end in
  await! (output, drain_result) := drain_output child output in
  await! joined := os (OsJoinReaders child) in
  let readers_result := if joined : bool then Ok tt else Err CollectIncomplete in
  done (output, res_and (res_and drain_result readers_result) wait_result).

(** ** Running a command *)

Inductive CommandExecution : Type :=
| Completed (status : ExitStatus) (output : string)
| LaunchFailed
| TimedOut (output : string)
| OutputLimit
| CaptureFailed
| ExecWorkspaceChanged
| ExecCancelled
| ExecStale.

(** The result of a collection whose success is [execution]. *)
Definition collected (result : res OutputCollectionError unit) (execution : CommandExecution)
  : Exec CommandExecution :=
  match result with
  | Ok _ => done execution
  | Err CollectOverflow => done OutputLimit
  | Err CollectIncomplete => done CaptureFailed
  | Err CollectIo => exec_err Io
  | Panic => exec_lift Panic
  end.

(** One iteration of the loop of [execute_command_raw]. *)
Definition command_iteration (child : ChildId) (state : LeasedRequest * string)
  : Exec (LeasedRequest * string + LeasedRequest * CommandExecution) :=
  let '(leased, output) := state in
  let stop (execution : CommandExecution) :=
    await! _ := terminate_and_collect child output in
    done (inr (leased, execution)) in
  await! status := os (OsTryWait child) in
  match status with
  | None => await! _ := terminate_and_collect child output in exec_err Io
  | Some (Some status) =>
    await! (output, result) := terminate_and_collect child output in
    await! execution := collected result (Completed status output) in
    done (inr (leased, execution))
  | Some None =>
    await! arm := os (OsSelect child) in
    match arm with
    | ArmData chunk =>
      match append_output output chunk MAX_COMMAND_OUTPUT_BYTES with
      | (output, Ok _) => done (inl (leased, output))
      | (output, _) =>
        await! _ := terminate_and_collect child output in
        done (inr (leased, OutputLimit))
      end
    | ArmReadFailed => stop CaptureFailed
    | ArmClosed => done (inl (leased, output))
    | ArmDeadline =>
      await! (output, result) := terminate_and_collect child output in
      await! execution := collected result (TimedOut output) in
      done (inr (leased, execution))
    | ArmHeartbeat =>
      exec_match (renew_and_poll_cancellation leased)
        (fun '(leased, state) =>
           match state with
           | LeaseReady => done (inl (leased, output))
           | LeaseCancelled =>
             await! _ := terminate_and_collect child output in
             done (inr (leased, ExecCancelled))
           | LeaseStale =>
             await! _ := terminate_and_collect child output in
             done (inr (leased, ExecStale))
           end)
        (fun error => await! _ := terminate_and_collect child output in exec_err error)
    end
  end.

Definition execute_command_raw (prepared : PreparedCommand) (leased : LeasedRequest)
  : Exec (LeasedRequest * CommandExecution) :=
  await! environment := apply_safe_environment (pc_execution_root prepared) in
  await! child := os (OsSpawn {| ch_program := pc_program prepared; ch_args := pc_args prepared;
                                 ch_working_directory := pc_working_directory prepared;
                                 ch_environment := environment |}) in
  match child with
  | None => done (leased, LaunchFailed)
  | Some child => exec_loop (command_iteration child) (leased, EmptyString)
  end.

(** [WorkspaceAuthority::verify_path_identity(..).is_ok()]. *)
Definition verify_path_identity (authority : WorkspaceAuthority) : Exec bool :=
  await! root := os (OsSymlinkMetadata (canonical_root authority)) in
  match root with
  | None => done false
  | Some root =>
    await! git := os (OsSymlinkMetadata (path_join (canonical_root authority) ".git")) in
    match git with
    | None => done false
    | Some git =>
      done (negb (md_is_symlink root || md_is_symlink git || negb (md_is_dir root) || negb (md_is_dir git)
                  || negb (bool_decide (md_identity root = root_identity authority))
                  || negb (bool_decide (md_identity git = git_identity authority))))
    end
  end.

(** [fingerprint_workspace(root)] and [workspace_fingerprint(root)]. *)
Definition fingerprint_workspace (root : string)
  : Exec (option (res FlowSubmissionError FingerprintedWorkspace)) :=
  os (OsPollFingerprint root).
Definition workspace_fingerprint (root : string)
  : Exec (option (res FlowSubmissionError WorkspaceFingerprint)) :=
  await! answer := fingerprint_workspace root in
  done ((fun result => let? workspace := result in Ok (fw_fingerprint workspace)) <$> answer).

Definition execute_command_in_workspace (prepared : PreparedCommand) (authority : WorkspaceAuthority)
    (accepted_workspace : WorkspaceFingerprint) (leased : LeasedRequest)
  : Exec (LeasedRequest * CommandExecution) :=
  await! bound := (if path_eqb (pc_working_directory prepared) (canonical_root authority)
                   then verify_path_identity authority else done false) in
  if negb bound then done (leased, ExecWorkspaceChanged)
  else
    await! (leased, outcome) := execute_command_raw prepared leased in
    match outcome with
    | Completed _ _ =>
      await! unchanged := verify_path_identity authority in
      if negb unchanged then done (leased, ExecWorkspaceChanged)
      else
        await! (leased, call) :=
          await_workspace_fingerprint_with_lease (workspace_fingerprint (pc_execution_root prepared)) leased in
        match call with
        | CallCompleted (Ok fingerprint) =>
          await! same := (if String.eqb fingerprint accepted_workspace
                          then verify_path_identity authority else done false) in
          done (leased, if same then outcome else ExecWorkspaceChanged)
        | CallCancelled => done (leased, ExecCancelled)
        | CallStale => done (leased, ExecStale)
        | CallCompleted _ => done (leased, ExecWorkspaceChanged)
        end
    | _ => done (leased, outcome)
    end.

(** ** Retaining evidence *)

Section evidence.
Context `{Sha256}.

(** [retain_output] and [retain_connector_evidence]: the same steps under
    another name and media type. *)
Definition retain_bytes (kind media_type invalid : string) (leased : LeasedRequest) (bytes : string)
  : Exec FlowEvidenceHandle :=
  let digest := from_sha256 (sha256 bytes) in
  await! handle := exec_lift (map_err (fun _ => InvalidState invalid)
                                (handle_parse ("evidence://" +:+ kind +:+ "/" +:+ sha256_hex digest))) in
  await! now := now_ms in
  await! _ := os_res (OsPutEvidence {| pe_handle := handle; pe_project_id := le_project_id (lr_lease leased);
                                       pe_media_type := media_type; pe_retention := RetainProject;
                                       pe_redaction := Unredacted; pe_bytes := bytes |} now) in
  exec_lift (map_err flow_engine_error (flow_handle_parse (handle_str handle))).

Definition retain_output (leased : LeasedRequest) (output : string) : Exec FlowEvidenceHandle :=
  retain_bytes "flow-output" COMMAND_OUTPUT_MEDIA_TYPE "flow evidence handle is invalid" leased output.
Definition retain_connector_evidence (leased : LeasedRequest) (payload : string)
  : Exec FlowEvidenceHandle :=
  retain_bytes "connector-output" CONNECTOR_OUTPUT_MEDIA_TYPE "connector evidence handle is invalid"
    leased payload.

Definition retain_command_result (leased : LeasedRequest) (status : ExitStatus) (output : string)
    (retryable : bool) : Exec EffectResult :=
  await! evidence := retain_output leased output in
  exec_lift (map_err flow_engine_error
    (if success status then result_succeeded "command completed successfully" [evidence]
     else result_failed "command exited unsuccessfully" retryable [evidence])).

Definition retain_failed_command_result (leased : LeasedRequest) (summary : string) (retryable : bool)
    (output : string) : Exec EffectResult :=
  await! evidence := retain_output leased output in
  exec_lift (map_err flow_engine_error (result_failed summary retryable [evidence])).

(** ** Connector steps *)

Inductive ConnectorStepOutcome : Type :=
| StepResult (result : EffectResult)
| StepCancelled
| StepStale.

(** [String::truncate] to the longest prefix that fits and ends a character. *)
Definition bounded_effect_summary (summary : string) : string :=
  String.substring 0
    (floor_boundary (bytes summary)
       (Nat.min (String.length summary) (Z.to_nat MAX_EFFECT_SUMMARY_BYTES))) summary.

Definition failed_connector_outcome (summary : string) (retryable : bool)
  : Exec ConnectorStepOutcome :=
  await! result := exec_lift (map_err flow_engine_error
                                (result_failed (bounded_effect_summary summary) retryable [])) in
  done (StepResult result).

Definition CONNECTORS : list string :=
  ["github-actions"; "jenkins"; "sonarqube"; "jira"; "confluence"; "sharepoint"; "aws"].

(** The loop over the response and the artifacts: each is retained, and a
    handle that is already listed is not repeated. *)
Fixpoint retain_payloads (leased : LeasedRequest) (payloads : list string)
    (evidence : list FlowEvidenceHandle) : Exec (list FlowEvidenceHandle) :=
  match payloads with
  | [] => done evidence
  | payload :: rest =>
    await! handle := retain_connector_evidence leased payload in
    retain_payloads leased rest
      (if existsb (String.eqb handle) evidence then evidence else evidence ++ [handle])
  end.

Definition connector_success (leased : LeasedRequest) (success : ConnectorCallSuccess)
  : Exec ConnectorStepOutcome :=
  await! evidence := retain_payloads leased (option_list (cs_response_json success) ++ cs_artifacts success) [] in
  let evidence := take (Z.to_nat MAX_EVIDENCE_HANDLES) evidence in
  let summary := match cs_partial_reason success with
                 | Some reason => cs_summary success +:+ "; partial: " +:+ reason
                 | None => cs_summary success
                 end in
  await! result := exec_lift (map_err flow_engine_error
                                (result_succeeded (bounded_effect_summary summary) evidence)) in
  done (StepResult result).

Definition connector_failure_summary (step : PreparedConnectorStep) (failure : ConnectorCallFailure) : string :=
  "connector " +:+ ps_connector step +:+ " failed (" +:+ cf_kind failure +:+ "): " +:+ cf_message failure.

(** The call under the lease, once its connector is built. Its context is only
    refused for an attempt of zero, and the attempt is at least one here. *)
Definition invoke_connector (step : PreparedConnectorStep) (leased : LeasedRequest)
    (timeout_seconds attempt : Z) : Exec (LeasedRequest * ConnectorStepOutcome) :=
  await! (leased, call) :=
    await_workspace_fingerprint_with_lease
      (os (OsPollConnectorCall step (Z.max timeout_seconds 1) (Z.max attempt 1))) leased in
  match call with
  | CallCompleted (Ok (Ok success)) =>
    await! outcome := connector_success leased success in done (leased, outcome)
  | CallCompleted (Ok (Err failure)) =>
    await! outcome := failed_connector_outcome (connector_failure_summary step failure)
                        (cf_retry_after_backoff failure) in
    done (leased, outcome)
  | CallCompleted (Ok Panic) | CallCompleted Panic => exec_lift Panic
  | CallCompleted (Err _) =>
    await! outcome := failed_connector_outcome "connector invocation ended without a result" false in
    done (leased, outcome)
  | CallCancelled => done (leased, StepCancelled)
  | CallStale => done (leased, StepStale)
  end.

(** [match call { PreparedCall::Aws(..) => .., call => .. }]: only AWS runs
    without a stored credential. *)
Definition build_connector_call (step : PreparedConnectorStep) (record : ConnectorRecord)
    (credential : option string) : Exec (res string unit) :=
  if negb (String.eqb (ps_connector step) "aws") && bool_decide (credential = None)
  then done (Err ("connector " +:+ ps_connector step +:+ " has no stored credential; store one — "
                  +:+ CONNECTOR_RECOVERY_SURFACES))
  else os (OsBuildConnectorCall step record credential).

Definition execute_connector_step (step : PreparedConnectorStep) (leased : LeasedRequest)
    (timeout_seconds attempt : Z) : Exec (LeasedRequest * ConnectorStepOutcome) :=
  let failed (summary : string) (retryable : bool) :=
    await! outcome := failed_connector_outcome summary retryable in done (leased, outcome) in
  if negb (is_one_of CONNECTORS (ps_connector step)) then
    failed ("connector " +:+ ps_connector step +:+ " is not built into this daemon; "
            +:+ CONNECTOR_RECOVERY_SURFACES) false
  else
    await! call := os (OsParseConnectorCall step) in
    match call with
    | Panic => exec_lift Panic
    | Err message => failed message false
    | Ok _ =>
      await! records := os_res OsListConnectors in
      match List.find (fun record => String.eqb (co_connector_id record) (ps_connector step)) records with
      | Some record =>
        if negb (co_enabled record) then
          failed ("connector " +:+ ps_connector step +:+ " is not enabled; enable it and store its credential — "
                  +:+ CONNECTOR_RECOVERY_SURFACES) false
        else
          await! credential := os (OsLoadCredential (ps_connector step)) in
          match credential with
          | Panic => exec_lift Panic
          | Err message => failed message true
          | Ok credential =>
            await! built := build_connector_call step record credential in
            match built with
            | Panic => exec_lift Panic
            | Err message => failed message false
            | Ok _ => invoke_connector step leased timeout_seconds attempt
            end
          end
      | None =>
        failed ("connector " +:+ ps_connector step +:+ " is not enabled; enable it and store its credential — "
                +:+ CONNECTOR_RECOVERY_SURFACES) false
      end
    end.

End evidence.
End lease.

Arguments CallCompleted {T}.
Arguments CallCancelled {T}.
Arguments CallStale {T}.
