(* ===== verification/FlowProcess.v ===== *)
(** * Executing a flow request ([pam_daemon/src/flow.rs], [lifecycle.rs])

    [process_flow] drives a run of the engine from its stored checkpoint to its
    end: it asks the engine for the next decision, persists every update before
    it acts on it, evaluates effects and records their results. [process_leased]
    finishes the request with what [process_flow] returns. *)

From ITree Require Import Core.ITreeDefinition.
From S2P Require Import Prelude Core Policy Paths FlowDef FlowData FlowSnapshot FlowEngine StoreDef StoreFlow StoreQueue StoreAuth Protocol ProtocolRequest ProtocolCodec FlowOperation Exec FlowCommand FlowExecute.

Local Open Scope Z_scope.

Inductive FlowProcessing : Type :=
| ProcTerminal (terminal_state : TerminalState) (result : ResultEnvelope) (encoded_result : string)
| ProcStaleLease.

#[export] Instance StepRunResult_eq_dec : EqDecision StepRunResult.
Proof. solve_decision. Defined.
#[export] Instance FlowRunResult_eq_dec : EqDecision FlowRunResult.
Proof. solve_decision. Defined.

(** ** Results *)

Definition terminal_state (result : FlowRunResult) : TerminalState :=
  match rr_outcome result with
  | OutSolved => TermSucceeded
  | OutUnresolved | OutBlocked => TermFailed
  | OutCancelled => TermCancelled
  end.

Definition flow_result_truth (result : FlowRunResult) : OperationTruth :=
  match rr_outcome result with
  | OutSolved =>
    if os_satisfied (or_verified (rr_report result)) then TruthVerified
    else if os_satisfied (or_changed (rr_report result)) then TruthChanged
    else TruthObserved
  | OutUnresolved | OutCancelled => TruthUnresolved
  | OutBlocked => TruthBlocked
  end.

(** The envelope of [terminal_result]. *)
Definition flow_result_envelope (leased : LeasedRequest) (result : FlowRunResult) : ResultEnvelope :=
  {| re_protocol_version := PROTOCOL_VERSION;
     re_request_id := le_request_id (lr_lease leased);
     re_project_id := le_project_id (lr_lease leased);
     re_body := BodySuccess (flow_result_truth result) (GotFlowRun result) |}.

Definition terminal_result (leased : LeasedRequest) (result : FlowRunResult) (encoded_result : string)
  : FlowProcessing :=
  ProcTerminal (terminal_state result) (flow_result_envelope leased result) encoded_result.

Definition unsupported_failure (leased : LeasedRequest) (code : FailureCode) (message : string)
  : FlowProcessing :=
  ProcTerminal TermFailed
    {| re_protocol_version := PROTOCOL_VERSION;
       re_request_id := le_request_id (lr_lease leased);
       re_project_id := le_project_id (lr_lease leased);
       re_body := BodyFailure {| fa_code := code; fa_message := message;
                                 fa_recovery := None; fa_approval := None |} |}
    EmptyString.

Definition internal_failure (leased : LeasedRequest) (message : string) : FlowProcessing :=
  unsupported_failure leased CodeInternal message.

Definition legacy_flow_result_matches (stored expected : FlowRunResult) : bool :=
  String.eqb (rr_run_id stored) (rr_run_id expected)
  && String.eqb (rr_digest stored) (rr_digest expected)
  && bool_decide (rr_outcome stored = rr_outcome expected)
  && (length (rr_steps stored) =? length (rr_steps expected))%nat
  && forallb (fun '(a, b) =>
       String.eqb (sr_step_id a) (sr_step_id b)
       && bool_decide (sr_kind a = sr_kind b)
       && bool_decide (sr_result a = sr_result b)
       && bool_decide (sr_blocked_report a = sr_blocked_report b))
     (zip (rr_steps stored) (rr_steps expected)).

Definition corrupt_cached_terminal_result : StoreError :=
  InvalidState "terminal flow checkpoint result does not match its snapshot".

Section process.
Context `{Sha256} `{FlowCodec} `{WireCodec} `{TomlParser}.

Definition encode_flow_result (leased : LeasedRequest) (result : FlowRunResult) : sres string :=
  map_err (fun _ => InvalidState "terminal flow result exceeded the protocol frame")
    (encode_message (MessageResult (flow_result_envelope leased result))).

Definition cached_terminal_result (leased : LeasedRequest) (expected : FlowRunResult)
    (cached : FlowTerminalResult) : sres FlowProcessing :=
  let corrupt := Err corrupt_cached_terminal_result in
  if negb (bool_decide (ft_outcome cached = rr_outcome expected)) then corrupt
  else
    match decode_server_message_envelope (ft_encoded_result cached) with
    | Panic => Panic
    | Ok (MessageResult envelope) =>
      if negb (String.eqb (re_request_id envelope) (le_request_id (lr_lease leased)))
         || negb (String.eqb (re_project_id envelope) (le_project_id (lr_lease leased)))
      then corrupt
      else
        match re_body envelope with
        | BodySuccess _ (GotFlowRun stored) =>
          let? matches_snapshot :=
            if re_protocol_version envelope =? PROTOCOL_VERSION
            then if bool_decide (stored = expected)
                 then let? encoded := encode_flow_result leased expected in
                      Ok (String.eqb (ft_encoded_result cached) encoded)
                 else Ok false
            else if re_protocol_version envelope =? 4
                 then Ok (legacy_flow_result_matches stored expected)
                 else Ok false in
          if negb matches_snapshot then corrupt
          else Ok (ProcTerminal (terminal_state stored)
                     {| re_protocol_version := PROTOCOL_VERSION;
                        re_request_id := re_request_id envelope;
                        re_project_id := re_project_id envelope;
                        re_body := BodySuccess (flow_result_truth stored) (GotFlowRun stored) |}
                     (ft_encoded_result cached))
        | _ => corrupt
        end
    | _ => corrupt
    end.

(** ** The durable run *)

(** The locals of the loop of [process_flow]. A pending decision comes with the
    encoded result of the checkpoint it was saved in. *)
Record Loop := {
  lp_leased : LeasedRequest;
  lp_run : FlowRun;
  lp_revision : Z;
  lp_pending : option (RunDecision * option string)
}.

(** An engine call on the run: its error ends the task. *)
Definition engine {A} (m : M A) (run : FlowRun) : Exec (FlowRun * A) :=
  match m run with
  | (run, Ok a) => done (run, a)
  | (_, Err e) => exec_err (flow_engine_error e)
  | (_, Panic) => exec_lift Panic
  end.

Definition persist_update (leased : LeasedRequest) (revision : Z) (update : EngineUpdate)
  : Exec (RunDecision * Z * option string) :=
  await! terminal_result := exec_lift
    match up_decision update with
    | Terminal result =>
      let? encoded := encode_flow_result leased result in
      Ok (Some {| ft_outcome := rr_outcome result; ft_encoded_result := encoded |})
    | _ => Ok None
    end in
  await! now := now_ms in
  await! saved := store (SaveCheckpoint
    {| sv_lease := lr_lease leased; sv_expected_revision := revision;
       sv_snapshot := up_snapshot update; sv_transition := up_transition update;
       sv_terminal_result := terminal_result; sv_updated_at_ms := now |}) in
  done (up_decision update, fc_checkpoint_revision (so_checkpoint saved),
        ft_encoded_result <$> terminal_result).

(** A terminal update that is not the cancelled one, and one that starts an
    effect: the two that lose against a cancellation. *)
Definition terminal_non_cancelled (update : EngineUpdate) : bool :=
  match up_decision update with
  | Terminal result => negb (bool_decide (rr_outcome result = OutCancelled))
  | _ => false
  end.
Definition effect_start (update : EngineUpdate) : bool :=
  match up_transition update with
  | Some t => match tr_kind t with EffectStarted _ _ _ => true | _ => false end
  | None => false
  end.

Definition lost_to_cancellation (update : EngineUpdate) (error : StoreError) : bool :=
  match error with
  | FlowTerminalOutcomeConflict _ => terminal_non_cancelled update
  | FlowEffectStartConflict _ => effect_start update
  | _ => false
  end.

Definition persist_update_reconciling_cancellation (leased : LeasedRequest) (revision : Z)
    (run : FlowRun) (previous_snapshot : FlowSnapshot) (update : EngineUpdate)
  : Exec (FlowRun * (RunDecision * Z * option string)) :=
  exec_match (persist_update leased revision update)
    (fun saved => done (run, saved))
    (fun error =>
       if lost_to_cancellation update error then
         await! cancelled := request_is_cancelled leased in
         if negb cancelled then exec_err error
         else
           await! run := exec_lift (map_err flow_engine_error
             (resume (sn_run_id previous_snapshot) (fr_definition run) previous_snapshot)) in
           await! (run, cancelled) := engine FlowEngine.cancel run in
           await! saved := persist_update leased revision cancelled in
           done (run, saved)
       else exec_err error).

Definition set_loop (l : Loop) (run : FlowRun) (revision : Z)
    (pending : option (RunDecision * option string)) : Loop :=
  {| lp_leased := lp_leased l; lp_run := run; lp_revision := revision; lp_pending := pending |}.
Definition set_leased (l : Loop) (leased : LeasedRequest) : Loop :=
  {| lp_leased := leased; lp_run := lp_run l; lp_revision := lp_revision l; lp_pending := lp_pending l |}.

(** [let update = run.cancel()?; .. persist_update(..); pending_decision = ..]. *)
Definition cancel_run (l : Loop) : Exec Loop :=
  await! (run, update) := engine FlowEngine.cancel (lp_run l) in
  await! (decision, revision, terminal) := persist_update (lp_leased l) (lp_revision l) update in
  done (set_loop l run revision (Some (decision, terminal))).

(** An engine call whose update is saved, reconciled with a cancellation. *)
Definition persist_call (l : Loop) (call : M EngineUpdate)
  : Exec (FlowRun * (RunDecision * Z * option string)) :=
  let previous_snapshot := fr_snapshot (lp_run l) in
  await! (run, update) := engine call (lp_run l) in
  persist_update_reconciling_cancellation (lp_leased l) (lp_revision l) run previous_snapshot update.

(** The same, with the decision left pending for the next iteration. *)
Definition settle (l : Loop) (call : M EngineUpdate) : Exec Loop :=
  await! (run, (decision, revision, terminal)) := persist_call l call in
  done (set_loop l run revision (Some (decision, terminal))).

(** [run.record_reconciliation(effect, Unknown(report), now_ms())]. *)
Definition unknown_reconciliation (l : Loop) (effect : EffectAttempt) (evidence : list FlowEvidenceHandle)
    (summary : string) : Exec Loop :=
  await! report := exec_lift (map_err flow_engine_error (report_new summary evidence)) in
  await! now := now_ms in
  settle l (record_reconciliation effect (Unknown report) now).

Inductive EffectBoundaryAuthorization : Type := BoundaryAllowed | BoundaryDenied | BoundaryCancelled.

Definition effect_boundary_authorization (leased : LeasedRequest) : Exec EffectBoundaryAuthorization :=
  await! now := now_ms in
  exec_match (store (ValidateFlowEffectAuthorization (lr_lease leased) now))
    (fun authorization => done match authorization with
                               | EffectAllowed => BoundaryAllowed
                               | EffectDenied => BoundaryDenied
                               end)
    (fun error => match error with
                  | StaleLease _ =>
                    await! cancelled := request_is_cancelled leased in
                    if cancelled : bool then done BoundaryCancelled else exec_err error
                  | _ => exec_err error
                  end).

(** ** The loop *)

Section loop.
Context (lease_duration_ms : Z) (accepted_workspace : WorkspaceFingerprint) (execution_root : string).

(** What an iteration does next: another iteration or the end. *)
Definition Next : Type := (Loop + LeasedRequest * FlowProcessing)%type.

Definition again (l : Loop) : Exec Next := done (inl l).
Definition finish_with (l : Loop) (p : FlowProcessing) : Exec Next := done (inr (lp_leased l, p)).

Definition again_with (m : Exec Loop) : Exec Next := await! l := m in again l.

(** The result of the effect is recorded and saved. *)
Definition record_result (l : Loop) (effect : EffectAttempt) (result : EffectResult)
  : Exec Next :=
  await! now := now_ms in
  again_with (settle l (record_effect_result effect result now)).

Definition record_failure (l : Loop) (effect : EffectAttempt) (summary : string)
  : Exec Next :=
  await! result := exec_lift (map_err flow_engine_error (result_failed summary false [])) in
  record_result l effect result.

(** The arms of the match on [execute_command_in_workspace(..)]. *)
Definition command_outcome (l : Loop) (effect : EffectAttempt) (execution : CommandExecution)
  : Exec Next :=
  let stateful := bool_decide (ea_effect effect = Stateful) in
  let capture_unknown :=
    again_with (unknown_reconciliation l effect []
                  "stateful command outcome is unknown after output capture failed") in
  match execution with
  | Completed status output =>
    await! result := retain_command_result (lp_leased l) status output
                       (bool_decide (ea_effect effect = ReadOnly)) in
    record_result l effect result
  | LaunchFailed => record_failure l effect "command could not be started"
  | ExecWorkspaceChanged => record_failure l effect "workspace changed while the command was running"
  | ExecCancelled => again_with (cancel_run l)
  | ExecStale => finish_with l ProcStaleLease
  | TimedOut output =>
    if stateful then
      await! evidence := retain_output (lp_leased l) output in
      again_with (unknown_reconciliation l effect [evidence]
                    "stateful command outcome is unknown after timeout")
    else
      await! result := retain_failed_command_result (lp_leased l) "command timed out" true output in
      record_result l effect result
  | OutputLimit =>
    if stateful then capture_unknown
    else record_failure l effect "command output exceeded the limit"
  | CaptureFailed =>
    if stateful then capture_unknown
    else record_failure l effect "command output could not be captured exactly"
  end.

(** [match prepared { .. }]: the effect itself. *)
Definition perform_effect (l : Loop) (effect : EffectAttempt)
    (prepared : res CommandRejection PreparedEffect) (authority : option WorkspaceAuthority)
  : Exec Next :=
  match prepared with
  | Ok (PreparedConnectorEffect step) =>
    await! (leased, outcome) :=
      execute_connector_step lease_duration_ms step (lp_leased l) (ea_timeout_seconds effect)
        (ea_attempt effect) in
    let l := set_leased l leased in
    match outcome with
    | StepResult result => record_result l effect result
    | StepCancelled => again_with (cancel_run l)
    | StepStale => finish_with l ProcStaleLease
    end
  | Ok (PreparedCommandEffect command) =>
    match authority with
    | None => exec_err (InvalidState "flow execution omitted its pinned workspace authority")
    | Some authority =>
      await! (leased, execution) :=
        execute_command_in_workspace lease_duration_ms command authority accepted_workspace (lp_leased l) in
      command_outcome (set_leased l leased) effect execution
    end
  | Err StatefulConnector => record_failure l effect "stateful connector steps are not yet executable"
  | Err _ => record_failure l effect "command action is unsupported by this daemon"
  | Panic => exec_lift Panic
  end.

(** The check of the authorization right before the effect. *)
Definition authorize_effect (l : Loop) (effect : EffectAttempt)
    (prepared : res CommandRejection PreparedEffect) (authority : option WorkspaceAuthority)
  : Exec Next :=
  if is_ok prepared then
    await! boundary := effect_boundary_authorization (lp_leased l) in
    match boundary with
    | BoundaryAllowed => perform_effect l effect prepared authority
    | BoundaryDenied => again_with (settle l (deny_effect_authorization effect))
    | BoundaryCancelled => again_with (cancel_run l)
    end
  else perform_effect l effect prepared authority.

(** The workspace of a command is fingerprinted again as late as possible. *)
Definition pin_workspace (l : Loop) (effect : EffectAttempt)
    (prepared : res CommandRejection PreparedEffect) : Exec Next :=
  match prepared with
  | Ok (PreparedCommandEffect _) =>
    await! (leased, call) :=
      await_workspace_fingerprint_with_lease lease_duration_ms (fingerprint_workspace execution_root)
        (lp_leased l) in
    let l := set_leased l leased in
    match call with
    | CallCompleted (Ok workspace) =>
      if String.eqb (fw_fingerprint workspace) accepted_workspace
      then authorize_effect l effect prepared (Some (fw_authority workspace))
      else authorize_effect l effect (Err WorkspaceChanged) None
    | CallCompleted Panic => exec_lift Panic
    | CallCompleted (Err _) => authorize_effect l effect (Err WorkspaceChanged) None
    | CallCancelled => again_with (cancel_run l)
    | CallStale => finish_with l ProcStaleLease
    end
  | _ => authorize_effect l effect prepared None
  end.

(** The start of the effect is saved before anything is executed. *)
Definition start_effect (l : Loop) (effect : EffectAttempt) : Exec Next :=
  await! root := verify_flow_project_root execution_root (le_project_id (lr_lease (lp_leased l))) in
  await! prepared :=
    (if is_ok root then prepare_effect execution_root (fr_definition (lp_run l)) effect
     else done (Err WorkspaceChanged)) in
  await! now := now_ms in
  await! (run, (execute, revision, terminal)) := persist_call l (FlowEngine.prepare_effect effect now) in
  match execute with
  | Execute _ _ => pin_workspace (set_loop l run revision None) effect prepared
  | Terminal _ =>
    match terminal with
    | Some _ => again (set_loop l run revision (Some (execute, terminal)))
    | None => exec_err (InvalidState "flow effect preparation did not yield execution")
    end
  | _ => exec_err (InvalidState "flow effect preparation did not yield execution")
  end.

Definition evaluate_effect (l : Loop) (effect : EffectAttempt) : Exec Next :=
  await! boundary := effect_boundary_authorization (lp_leased l) in
  match boundary with
  | BoundaryAllowed => start_effect l effect
  | BoundaryDenied => again_with (settle l (deny_effect_authorization effect))
  | BoundaryCancelled => again_with (cancel_run l)
  end.

(** [match decision { .. }]. *)
Definition act (l : Loop) (decision : RunDecision) (encoded_terminal_result : option string)
  : Exec Next :=
  match decision with
  | Continue => again l
  | AwaitApproval _ _ => exec_err (InvalidState "approval-required flow reached a read-only executor")
  | EvaluateEffect effect _ => evaluate_effect l effect
  | Execute _ _ | AwaitResult _ =>
    exec_err (InvalidState "flow executor observed an unowned in-flight effect")
  | Reconcile effect =>
    again_with (unknown_reconciliation l effect []
                  "stateful command outcome is unknown after execution was interrupted")
  | WaitRetry _ not_before_ms =>
    await! (leased, state) := wait_for_retry lease_duration_ms (lp_leased l) not_before_ms in
    let l := set_leased l leased in
    match state with
    | LeaseReady => again l
    | LeaseCancelled => again_with (cancel_run l)
    | LeaseStale => finish_with l ProcStaleLease
    end
  | Terminal result =>
    match encoded_terminal_result with
    | Some encoded => finish_with l (terminal_result (lp_leased l) result encoded)
    | None => exec_err (InvalidState "terminal flow checkpoint omitted its encoded result")
    end
  end.

Definition iteration (l : Loop) : Exec Next :=
  await! l :=
    match lp_pending l with
    | None =>
      await! cancelled := request_is_cancelled (lp_leased l) in
      if cancelled : bool then cancel_run l else done l
    | Some _ => done l
    end in
  match lp_pending l with
  | Some (decision, terminal) => act (set_loop l (lp_run l) (lp_revision l) None) decision terminal
  | None =>
    await! now := now_ms in
    await! (run, (decision, revision, terminal)) := persist_call l (next_decision now) in
    act (set_loop l run revision None) decision terminal
  end.

Definition process_loop (l : Loop) : Exec (LeasedRequest * FlowProcessing) :=
  exec_loop iteration l.

End loop.

(** ** A flow request *)

(** A store call that ends the task when the lease is stale. *)
Definition unless_stale {A B} (m : Exec A) (stale : Exec B) (k : A -> Exec B) : Exec B :=
  exec_match m k (fun error => match error with StaleLease _ => stale | _ => exec_err error end).

(** [save_flow_checkpoint] of the snapshot as it is: the first checkpoint of a
    run and the upgrade of an old one. *)
Definition save_snapshot (leased : LeasedRequest) (revision : Z) (run : FlowRun) : Exec FlowCheckpointSaveOutcome :=
  await! now := now_ms in
  store (SaveCheckpoint {| sv_lease := lr_lease leased; sv_expected_revision := revision;
                           sv_snapshot := fr_snapshot run; sv_transition := None;
                           sv_terminal_result := None; sv_updated_at_ms := now |}).

(** Where a run starts: a new one, a checkpoint, possibly of an old version, or
    one that is over. *)
Inductive Opened : Type :=
| OpenedOver (processing : FlowProcessing)
| OpenedRun (run : FlowRun) (revision : Z) (needs_initial_save needs_snapshot_upgrade : bool).

Definition open_checkpoint (leased : LeasedRequest) (run_id : RunId) (definition : FlowDefinition)
    (checkpoint : option FlowCheckpoint) : sres Opened :=
  match checkpoint with
  | None =>
    let? run := map_err flow_engine_error (start run_id definition) in
    Ok (OpenedRun run 0 true false)
  | Some checkpoint =>
    let legacy_snapshot := sn_version (fc_snapshot checkpoint) <? FLOW_SNAPSHOT_VERSION in
    let? run := map_err flow_engine_error (resume run_id definition (fc_snapshot checkpoint)) in
    match run_result run with
    | Some result =>
      let? cached := ok_or (fc_terminal_result checkpoint)
                       (InvalidState "terminal flow checkpoint omitted its encoded result") in
      let? processing := cached_terminal_result leased result cached in
      Ok (OpenedOver processing)
    | None =>
      match fc_terminal_result checkpoint with
      | Some _ => Err (InvalidState "non-terminal flow checkpoint contains a terminal result")
      | None => Ok (OpenedRun run (fc_checkpoint_revision checkpoint) false legacy_snapshot)
      end
    end
  end.

Section flow.
Context (lease_duration_ms : Z).

(** The checks and saves between the checkpoint and the loop. *)
Definition enter_loop (leased : LeasedRequest) (accepted_workspace : WorkspaceFingerprint)
    (execution_root : string) (run : FlowRun) (revision : Z)
    (needs_initial_save needs_snapshot_upgrade : bool) : Exec (LeasedRequest * FlowProcessing) :=
  let stale := done (leased, ProcStaleLease) in
  let run_from revision :=
    process_loop lease_duration_ms accepted_workspace execution_root
      {| lp_leased := leased; lp_run := run; lp_revision := revision; lp_pending := None |} in
  await! root := verify_flow_project_root execution_root (le_project_id (lr_lease leased)) in
  if negb (is_ok root) then
    done (leased, unsupported_failure leased CodeInvalidRequest
            "stored flow project root is unavailable or does not match its project")
  else if needs_snapshot_upgrade then
    unless_stale (save_snapshot leased revision run) stale
      (fun saved => run_from (fc_checkpoint_revision (so_checkpoint saved)))
  else if needs_initial_save then
    unless_stale (save_snapshot leased 0 run) stale
      (fun saved => run_from (fc_checkpoint_revision (so_checkpoint saved)))
  else run_from revision.

Definition process_flow (leased : LeasedRequest) : Exec (LeasedRequest * FlowProcessing) :=
  let invalid := done (leased, internal_failure leased "stored flow operation is invalid") in
  let stale := done (leased, ProcStaleLease) in
  match decode_flow_operation (lr_operation leased) with
  | None => invalid
  | Some (definition, accepted_workspace, execution_root) =>
    match flow_policy_resource definition accepted_workspace with
    | Panic => exec_lift Panic
    | Err _ => invalid
    | Ok resource =>
      match resource_parse resource with
      | Ok operation_resource =>
        match run_id_parse (le_request_id (lr_lease leased)) with
        | Ok run_id =>
          await! now := now_ms in
          unless_stale (store (LoadFlowCheckpoint (lr_lease leased) now)) stale (fun checkpoint =>
          await! opened := exec_lift (open_checkpoint leased run_id definition checkpoint) in
          match opened with
          | OpenedOver processing => done (leased, processing)
          | OpenedRun run revision needs_initial_save needs_snapshot_upgrade =>
            await! now := now_ms in
            exec_match (store (ValidateFlowOperationResource (lr_lease leased) operation_resource now))
              (fun _ => enter_loop leased accepted_workspace execution_root run revision
                          needs_initial_save needs_snapshot_upgrade)
              (fun error => match error with
                            | StaleLease _ => stale
                            | CorruptFlowAuthorization _ =>
                              done (leased, internal_failure leased
                                      "stored flow operation does not match its authorization")
                            | _ => exec_err error
                            end)
          end)
        | _ => done (leased, internal_failure leased "flow run identity is invalid")
        end
      | _ => invalid
      end
    end
  end.

End flow.
End process.
