(* ===== verification/Scheduler.v ===== *)
(** * The worker of a leased request and the scheduler ([pam_daemon/src/lifecycle.rs])

    A pass of the scheduler recovers expired leases, claims every request that
    can be served and starts a worker for each; a worker executes its request,
    finishes it in the store and sends the stored events and result to whoever
    waits for them. *)

From ITree Require Import Core.ITreeDefinition.
From S2P Require Import Prelude Core FlowDef FlowData FlowEngine StoreDef StoreFlow StoreQueue StoreAuth Protocol ProtocolRequest ProtocolCodec FlowOperation Exec FlowCommand FlowExecute FlowProcess.

Local Open Scope Z_scope.

(** [DaemonError], as far as the modelled functions return it. *)
Inductive DaemonError : Type :=
| DaemonHandler
| DaemonStore (error : StoreError)
| DaemonProtocol (error : CodecError)
| DaemonTransport.

Definition LEASE_DURATION_MS : Z := 3000.

(** [?] on a [StoreError]. *)
Definition from_store {A} (m : Exec A) : Task DaemonError A := exec_map_err DaemonStore m.
Definition daemon_lift {A} (r : res DaemonError A) : Task DaemonError A := exec_lift r.

Section scheduler.
Context `{Sha256} `{FlowCodec} `{WireCodec} `{TomlParser}.
Context (application_version : string).

(** ** Stored events and results as messages *)

Definition decode_flow_transition (payload : string) : res DaemonError RunTransition :=
  let corrupt := Err (DaemonStore (InvalidState "stored flow transition is corrupt")) in
  match transition_raw_from_slice payload with
  | Some t =>
    if forallb event_reports_ok (tr_semantic_events t)
    then match transition_deserialize t with Ok t => Ok t | Err _ => corrupt | Panic => Panic end
    else corrupt
  | None => corrupt
  end.

Definition stored_event (record : EventRecord) : res DaemonError Event :=
  if String.prefix "flow_" (ev_kind record) then
    let? transition := decode_flow_transition (ev_payload record) in Ok (EvFlowTransition transition)
  else if String.eqb (ev_kind record) "accepted" then Ok EvAccepted
  else if String.eqb (ev_kind record) "started" then Ok EvStarted
  else if String.eqb (ev_kind record) "lease_expired" then Ok EvLeaseExpired
  else if String.eqb (ev_kind record) "cancellation_requested" then Ok EvCancellationRequested
  else if String.eqb (ev_kind record) "cancelled" then Ok EvCancelled
  else if String.eqb (ev_kind record) "completed" then Ok EvCompleted
  else if String.eqb (ev_kind record) "failed" then Ok EvFailed
  else Err (DaemonStore (InvalidState ("unknown event kind " +:+ ev_kind record))).

Definition is_flow_success (body : ResultBody) : bool :=
  match body with BodySuccess _ (GotFlowRun _) => true | _ => false end.

(** The body of a durable result as the current protocol shows it. *)
Definition restamped_body (version : Z) (body : ResultBody) : ResultBody :=
  match body with
  | BodySuccess _ (GotFlowRun flow) =>
    if version <? PROTOCOL_VERSION then BodySuccess (flow_result_truth flow) (GotFlowRun flow) else body
  | _ => body
  end.

Definition decode_stored_result (payload : string) : res DaemonError ServerMessage :=
  let? message := map_err DaemonProtocol (decode_server_message_envelope payload) in
  match message with
  | MessageResult result =>
    let version := re_protocol_version result in
    if (version =? 0) || (version >? PROTOCOL_VERSION) then
      Err (DaemonStore (InvalidState "stored result uses an unsupported protocol version"))
    else if is_flow_success (re_body result) && (version <? 4) then
      Err (DaemonStore (InvalidState "stored flow result predates the flow protocol"))
    else Ok (MessageResult {| re_protocol_version := PROTOCOL_VERSION;
                              re_request_id := re_request_id result;
                              re_project_id := re_project_id result;
                              re_body := restamped_body version (re_body result) |})
  | MessageEvent _ => Err (DaemonStore (InvalidState "stored result is not a result envelope"))
  end.

Fixpoint replay_messages_without_result (project_id : ProjectId) (request_id : RequestId)
    (events : list EventRecord) : res DaemonError (list ServerMessage) :=
  match events with
  | [] => Ok []
  | record :: rest =>
    let? event := stored_event record in
    let? messages := replay_messages_without_result project_id request_id rest in
    Ok (MessageEvent {| ee_protocol_version := PROTOCOL_VERSION; ee_request_id := request_id;
                        ee_project_id := project_id; ee_sequence := ev_sequence record;
                        ee_event := event |} :: messages)
  end.

Definition replay_messages (project_id : ProjectId) (request_id : RequestId) (replayed : Replay)
  : res DaemonError (list ServerMessage) :=
  let? messages := replay_messages_without_result project_id request_id (rp_events replayed) in
  match rp_result replayed with
  | None => Ok messages
  | Some result =>
    let? message := decode_stored_result (st_payload result) in
    match message with
    | MessageResult envelope =>
      if negb (String.eqb (re_request_id envelope) request_id)
         || negb (String.eqb (re_project_id envelope) project_id)
      then Err (DaemonStore (InvalidState "stored result correlation does not match its request"))
      else Ok (messages ++ [message])
    | MessageEvent _ => Panic
    end
  end.

(** ** A worker *)

Section worker.
Context (processing_delay_ms lease_duration_ms : Z).

(** The artificial delay; [None] says that the lease was lost meanwhile. *)
Definition delay (leased : LeasedRequest) : Task DaemonError (option LeasedRequest) :=
  if processing_delay_ms =? 0 then done (Some leased)
  else
    exec_loop (fun leased =>
      await! elapsed := os (OsDelayOrHeartbeat processing_delay_ms) in
      if elapsed : bool then done (inr (Some leased))
      else
        await! now := now_ms in
        exec_match (store (RenewLease (lr_lease leased) now lease_duration_ms))
          (fun lease =>
             let leased := with_lease leased lease in
             await! cancelled := from_store (request_is_cancelled leased) in
             done (if cancelled : bool then inr (Some leased) else inl leased))
          (fun error => match error with
                        | StaleLease _ => done (inr None)
                        | _ => exec_err (DaemonStore error)
                        end)) leased.

Definition status_envelope (leased : LeasedRequest) (queue_depth : Z) : ResultEnvelope :=
  {| re_protocol_version := PROTOCOL_VERSION;
     re_request_id := le_request_id (lr_lease leased);
     re_project_id := le_project_id (lr_lease leased);
     re_body := BodySuccess TruthObserved
                  (GotStatus {| st_ready := true; st_healthy := true;
                                st_daemon_version := application_version;
                                st_protocol_version := PROTOCOL_VERSION;
                                st_queue_depth := queue_depth |}) |}.

Definition unknown_operation (leased : LeasedRequest) : ResultEnvelope :=
  {| re_protocol_version := PROTOCOL_VERSION;
     re_request_id := le_request_id (lr_lease leased);
     re_project_id := le_project_id (lr_lease leased);
     re_body := BodyFailure {| fa_code := CodeInvalidRequest;
                               fa_message := "unknown durable operation " +:+ lr_operation_kind leased;
                               fa_recovery := None; fa_approval := None |} |}.

(** The terminal state, the result and, for a flow that is over, its encoded
    result; [None] when the lease was lost. *)
Definition execute_operation (leased : LeasedRequest) (queue_depth : Z)
  : Task DaemonError (option (LeasedRequest * (TerminalState * ResultEnvelope * option string))) :=
  if is_status_kind (lr_operation_kind leased) then
    done (Some (leased, (TermSucceeded, status_envelope leased queue_depth, None)))
  else if String.eqb (lr_operation_kind leased) FLOW_OPERATION_KIND then
    exec_match (process_flow lease_duration_ms leased)
      (fun '(leased, processing) =>
         match processing with
         | ProcStaleLease => done None
         | ProcTerminal state result encoded =>
           done (Some (leased, (state, result, if str_is_empty encoded then None else Some encoded)))
         end)
      (fun error => match error with
                    | StaleLease _ => done None
                    | _ => exec_err (DaemonStore error)
                    end)
  else done (Some (leased, (TermFailed, unknown_operation leased, None))).

(** The request is finished and its events and result are sent. *)
Definition finish_operation (leased : LeasedRequest) (state : TerminalState) (result : ResultEnvelope)
    (encoded_flow_result : option string) : Task DaemonError unit :=
  let id := le_request_id (lr_lease leased) in
  await! stored := daemon_lift
    match encoded_flow_result with
    | Some encoded => Ok encoded
    | None => map_err DaemonProtocol (encode_message (MessageResult result))
    end in
  await! now := now_ms in
  exec_match (store match encoded_flow_result with
                    | Some _ => FinishTerminalFlow (lr_lease leased) now stored
                    | None => FinishRequest (lr_lease leased) now state stored
                    end)
    (fun _ =>
       await! replayed := from_store (store (ReplayRequest id 0)) in
       await! messages := daemon_lift (replay_messages (le_project_id (lr_lease leased)) id replayed) in
       os (OsSend id messages true))
    (fun error => match error with
                  | StaleLease _ => done tt
                  | _ => exec_err (DaemonStore error)
                  end).

Definition process_leased (leased : LeasedRequest) : Task DaemonError unit :=
  await! delayed := delay leased in
  match delayed with
  | None => done tt
  | Some leased =>
    await! queue_depth := from_store (store (QueuedBehind (le_request_id (lr_lease leased)))) in
    await! executed := execute_operation leased queue_depth in
    match executed with
    | None => done tt
    | Some (leased, (state, result, encoded)) => finish_operation leased state result encoded
    end
  end.

End worker.

(** ** A pass of the scheduler *)

Definition quarantine_corrupt_flow_authorization (request_id : RequestId) : Task DaemonError unit :=
  await! request := from_store (store (SnapshotRequest request_id)) in
  let result := MessageResult
    {| re_protocol_version := PROTOCOL_VERSION; re_request_id := request_id;
       re_project_id := rs_project_id request;
       re_body := BodyFailure {| fa_code := CodeInternal;
                                 fa_message := "stored flow authorization is invalid";
                                 fa_recovery := None; fa_approval := None |} |} in
  await! now := now_ms in
  await! encoded := daemon_lift (map_err DaemonProtocol (encode_message result)) in
  await! recovery := from_store (store (FailCorruptFlowAuthorization request_id now encoded)) in
  match recovery with
  | NoLongerEligible => done tt
  | _ =>
    await! replayed := from_store (store (ReplayRequest request_id 0)) in
    await! messages := daemon_lift (replay_messages (rs_project_id request) request_id replayed) in
    os (OsSend request_id messages true)
  end.

(** The recovered requests are announced one by one. *)
Fixpoint announce_recovered (recovered : list RequestId) : Task DaemonError unit :=
  match recovered with
  | [] => done tt
  | request_id :: rest =>
    await! request := from_store (store (SnapshotRequest request_id)) in
    await! replayed := from_store (store (ReplayRequest request_id 0)) in
    let terminal := bool_decide (rp_result replayed <> None) in
    await! messages := daemon_lift (replay_messages (rs_project_id request) request_id replayed) in
    await! _ := os (OsSend request_id messages terminal) in
    announce_recovered rest
  end.

(** One claim: a worker is started for what it leases. *)
Definition claim_iteration (owner : string) : Task DaemonError (unit + unit) :=
  await! token := os OsLeaseToken in
  await! now := now_ms in
  exec_match (store (ClaimRequest owner token now LEASE_DURATION_MS))
    (fun claimed =>
       match claimed with
       | Some leased => await! _ := os (OsStartWorker leased) in done (inl tt)
       | None => done (inr tt)
       end)
    (fun error => match error with
                  | CorruptFlowAuthorization request_id =>
                    await! _ := quarantine_corrupt_flow_authorization request_id in done (inl tt)
                  | _ => exec_err (DaemonStore error)
                  end).

Definition scheduler_pass (owner : string) : Task DaemonError unit :=
  await! now := now_ms in
  await! recovered := from_store (store (RecoverExpiredRequests now)) in
  await! _ := announce_recovered recovered in
  exec_loop (fun _ => claim_iteration owner) tt.

End scheduler.
