(* ===== verification/ExecLogic.v ===== *)
(** * Reasoning about tasks

    [safe n t Q w]: within [n] steps, whatever is answered, every event of the
    task [t] is allowed in the state it occurs in, and if [t] ends then [Q]
    holds. The state and what an event needs and does to it are parameters, so
    that the same rules serve for traces and for the store. A loop is safe when
    its body keeps an invariant: the number of steps is the fuel of the
    induction, not of the program. *)

From ITree Require Import Core.ITreeDefinition Indexed.Sum.
From S2P Require Import Prelude Core Policy FlowData StoreDef StoreFlow StoreQueue StoreAudit StoreAccess StoreAuth StoreView Protocol FlowOperation.
From S2P Require Import Exec.

Lemma observe_bind {E : Type -> Type} {R U} (t : itree E R) (k : R -> itree E U) :
  observe (ITree.bind t k)
  = match observe t with
    | RetF r => observe (k r)
    | TauF t => TauF (ITree.bind t k)
    | VisF e h => VisF e (fun x => ITree.bind (h x) k)
    end.
Proof. unfold ITree.bind. unfold observe at 1. simpl. by destruct (observe t). Qed.

Section logic.
Context {E : Type -> Type} {W : Type}.
Context (needs : forall A, E A -> W -> Prop) (answers : forall A, E A -> W -> A -> W -> Prop).

Fixpoint safe {R} (n : nat) (t : itree E R) (Q : R -> W -> Prop) (w : W) : Prop :=
  match n with
  | O => True
  | S n =>
    match observe t with
    | RetF r => Q r w
    | TauF t => safe n t Q w
    | VisF e k => needs _ e w /\ forall a w', answers _ e w a w' -> safe n (k a) Q w'
    end
  end.

Lemma safe_mono {R} n m (t : itree E R) (Q Q' : R -> W -> Prop) w :
  m <= n -> (forall r w, Q r w -> Q' r w) -> safe n t Q w -> safe m t Q' w.
Proof.
  intros Hm HQ. revert n t w Hm. induction m as [|m IH]; intros [|n] t w Hm; cbn [safe]; try done; [lia|].
  destruct (observe t) as [r|t'|A e k].
  - apply HQ.
  - apply IH. lia.
  - intros [Hn Hk]. split; [done|]. intros a w' Ha. apply (IH n); [lia|]. by apply Hk.
Qed.

Lemma safe_post {R} n (t : itree E R) (Q Q' : R -> W -> Prop) w :
  safe n t Q w -> (forall r w, Q r w -> Q' r w) -> safe n t Q' w.
Proof. intros Hs HQ. by eapply safe_mono; [|exact HQ|exact Hs]. Qed.

Lemma safe_ret {R} n (r : R) (Q : R -> W -> Prop) w : Q r w -> safe n (Ret r) Q w.
Proof. by destruct n. Qed.

Lemma safe_bind {R U} n (t : itree E R) (k : R -> itree E U) (Q : U -> W -> Prop) w :
  safe n t (fun r w => safe n (k r) Q w) w -> safe n (ITree.bind t k) Q w.
Proof.
  assert (forall m, m <= n -> safe m t (fun r w => safe n (k r) Q w) w -> safe m (ITree.bind t k) Q w) as H;
    [|by apply H].
  intros m. revert n t w. induction m as [|m IH]; intros n t w Hm Hs; [done|].
  cbn [safe] in *. rewrite observe_bind. destruct (observe t) as [r|t'|A e h].
  - apply (safe_mono n (S m) _ Q Q w Hm ltac:(done)) in Hs. exact Hs.
  - apply (IH n); [lia|]. exact Hs.
  - destruct Hs as [Hn Hk]. split; [done|]. intros a w' Ha. apply (IH n); [lia|]. by apply Hk.
Qed.

Lemma safe_trigger {R} n (e : E R) (Q : R -> W -> Prop) w :
  needs _ e w -> (forall a w', answers _ e w a w' -> Q a w') -> safe n (ITree.trigger e) Q w.
Proof.
  destruct n as [|n]; [done|]. intros Hn HQ. cbn. split; [done|]. intros a w' Ha. apply safe_ret. by apply HQ.
Qed.

Lemma safe_iter {I R} n (body : I -> itree E (I + R)) (J : I -> W -> Prop) (Q : R -> W -> Prop) i w :
  (forall m i w, m <= n -> J i w ->
     safe m (body i) (fun next w => match next with inl i => J i w | inr r => Q r w end) w) ->
  J i w -> safe n (ITree.iter body i) Q w.
Proof.
  intros Hbody. revert i w. induction n as [|n IH]; intros i w HJ; [done|].
  change (safe (S n) (ITree.bind (body i) (fun next =>
            match next with inl i => Tau (ITree.iter body i) | inr r => Ret r end)) Q w).
  apply safe_bind. eapply safe_post; [by apply (Hbody (S n) i w)|].
  intros [i'|r] w' Hr; [|by apply safe_ret]. cbn. apply IH; [|done].
  intros m i'' w'' Hm. apply Hbody. lia.
Qed.

End logic.

(** ** The events of a task

    What a task may do whatever it is answered: the store answers what it can
    answer in some state, since other tasks run between any two calls, and the
    operating system answers anything. *)

(** An event and its answer. *)
Inductive Observed : Type :=
| SawLoadFlowCheckpoint (lease : Lease) (now_ms : Z) (answer : sres (option FlowCheckpoint))
| SawValidateFlowOperationResource (lease : Lease) (resource : ResourceName) (now_ms : Z)
    (answer : sres unit)
| SawSaveCheckpoint (save : SaveFlowCheckpoint) (answer : sres FlowCheckpointSaveOutcome)
| SawValidateFlowEffectAuthorization (lease : Lease) (now_ms : Z) (answer : sres FlowEffectAuthorization)
| SawSnapshotRequest (id : RequestId) (answer : sres RequestSnapshot)
| SawRenewLease (lease : Lease) (now_ms lease_duration_ms : Z) (answer : sres Lease)
| SawQueuedBehind (id : RequestId) (answer : sres Z)
| SawFinishRequest (lease : Lease) (now_ms : Z) (state : TerminalState) (result : string)
    (answer : sres StoredResult)
| SawFinishTerminalFlow (lease : Lease) (now_ms : Z) (result : string) (answer : sres StoredResult)
| SawReplayRequest (id : RequestId) (after_sequence : Z) (answer : sres Replay)
| SawClaimRequest (owner token : string) (now_ms lease_duration_ms : Z)
    (answer : sres (option LeasedRequest))
| SawRecoverExpiredRequests (now_ms : Z) (answer : sres (list RequestId))
| SawFailCorruptFlowAuthorization (id : RequestId) (now_ms : Z) (result : string)
    (answer : sres FlowAuthorizationRecoveryOutcome)
| SawAuthenticateCaller (caller_id : CallerId) (credential : string) (answer : sres CallerAuthentication)
| SawAuthorizeAudited (uuid : string) (request : AuthorizationRequest) (audit : AuthorizationAudit) (now_ms ttl_ms : Z)
    (answer : sres AuthorizationOutcome)
| SawAuthorizeFlow (uuid : string) (request : AuthorizeFlowRun) (now_ms ttl_ms : Z)
    (answer : sres FlowAuthorizationOutcome)
| SawDecideApproval (approval_id : ApprovalId) (project_id : ProjectId) (approver_id : CallerId) (decision : StoreApprovalDecision) (now_ms : Z)
    (answer : sres ApprovalDecisionOutcome)
| SawAppendAudit (event : AppendAuditEvent) (answer : sres AuditEventRecord)
| SawRememberProjectRoot (project_id : ProjectId) (root : string) (answer : sres unit)
| SawAcceptWork (request : AcceptRequest) (now_ms : Z) (answer : sres AcceptOutcome)
| SawSnapshotTarget (id : RequestId) (expected : option ExpectedOperationKind) (answer : sres RequestSnapshot)
| SawReplayTarget (id : RequestId) (after_sequence : Z) (expected : option ExpectedOperationKind)
    (answer : sres Replay)
| SawCancelTarget (id : RequestId) (now_ms : Z) (result : string) (expected : option ExpectedOperationKind)
    (answer : sres CancelOutcome)
| SawWorkloadOf (project_id : ProjectId) (answer : sres ProjectWorkload)
| SawCurrentOf (project_id : ProjectId) (answer : sres StoreView.ProjectCurrent)
| SawRecentAudit (limit : Z) (answer : sres RecentAuditEvents)
| SawActiveGrants (caller_id : CallerId) (project_id : ProjectId) (now_ms : Z) (answer : sres (list Grant))
| SawRevokeGrant (grant_id : GrantId) (now_ms : Z) (answer : sres GrantRevocation)
| SawNow (answer : Z)
| SawDelayOrHeartbeat (remaining_ms : Z) (answer : bool)
| SawCanonicalize (path : string) (answer : option string)
| SawIsDir (path : string) (answer : bool)
| SawIsFile (path : string) (answer : bool)
| SawSymlinkMetadata (path : string) (answer : option PathMetadata)
| SawSearchPath (answer : option string)
| SawEnvironment (answer : list (string * string))
| SawDiscoverProject (path : string) (answer : option DiscoveredProject)
| SawPollFingerprint (root : string) (answer : option (res FlowSubmissionError FingerprintedWorkspace))
| SawSpawn (child : ChildProcess) (answer : option ChildId)
| SawTryWait (child : ChildId) (answer : option (option ExitStatus))
| SawSelect (child : ChildId) (answer : SelectArm)
| SawTerminate (child : ChildId) (answer : unit)
| SawWait (child : ChildId) (answer : WaitOutcome)
| SawDrain (child : ChildId) (answer : DrainOutcome)
| SawJoinReaders (child : ChildId) (answer : bool)
| SawPutEvidence (put : PutEvidence) (now_ms : Z) (answer : sres unit)
| SawListConnectors (answer : sres (list ConnectorRecord))
| SawParseConnectorCall (step : PreparedConnectorStep) (answer : res string unit)
| SawLoadCredential (connector : string) (answer : res string (option string))
| SawBuildConnectorCall (step : PreparedConnectorStep) (record : ConnectorRecord) (credential : option string)
    (answer : res string unit)
| SawPollConnectorCall (step : PreparedConnectorStep) (timeout_seconds attempt : Z)
    (answer : option (res FlowSubmissionError (res ConnectorCallFailure ConnectorCallSuccess)))
| SawSend (id : RequestId) (messages : list ServerMessage) (terminal : bool) (answer : unit)
| SawLeaseToken (answer : string)
| SawStartWorker (leased : LeasedRequest) (answer : unit)
| SawRoute (messages : list ServerMessage) (answer : unit)
| SawRouteRegistered (messages : list ServerMessage) (subscribe : SubscriptionRequest) (answer : bool)
| SawStop (result : ResultEnvelope) (answer : unit)
| SawWakeScheduler (answer : unit)
| SawAdmitPreflight (answer : bool)
| SawSleep (duration_ms : Z) (answer : unit)
| SawFingerprint (root : string) (answer : res FlowSubmissionError FingerprintedWorkspace)
| SawUuid (answer : string)
| SawEventNonce (answer : Z * Z * Z)
| SawRecentLogs (limit : Z) (answer : list DaemonLogEntry)
| SawBrief (project_id : ProjectId) (answer : BriefResult)
| SawNetworkDiagnostics (answer : option (OperationTruth * NetworkDiagnosticsResult))
| SawServe (request : RequestEnvelope) (answer : sres unit)
| SawRespond (client : ClientId) (payload : string) (answer : RespondOutcome).

Definition store_observed {A} (e : StoreE A) : A -> Observed :=
  match e in StoreE A return A -> Observed with
  | LoadFlowCheckpoint lease now_ms => SawLoadFlowCheckpoint lease now_ms
  | ValidateFlowOperationResource lease resource now_ms => SawValidateFlowOperationResource lease resource now_ms
  | SaveCheckpoint save => SawSaveCheckpoint save
  | ValidateFlowEffectAuthorization lease now_ms => SawValidateFlowEffectAuthorization lease now_ms
  | SnapshotRequest id => SawSnapshotRequest id
  | RenewLease lease now_ms lease_duration_ms => SawRenewLease lease now_ms lease_duration_ms
  | QueuedBehind id => SawQueuedBehind id
  | FinishRequest lease now_ms state result => SawFinishRequest lease now_ms state result
  | FinishTerminalFlow lease now_ms result => SawFinishTerminalFlow lease now_ms result
  | ReplayRequest id after_sequence => SawReplayRequest id after_sequence
  | ClaimRequest owner token now_ms lease_duration_ms => SawClaimRequest owner token now_ms lease_duration_ms
  | RecoverExpiredRequests now_ms => SawRecoverExpiredRequests now_ms
  | FailCorruptFlowAuthorization id now_ms result => SawFailCorruptFlowAuthorization id now_ms result
  | AuthenticateCaller caller_id credential => SawAuthenticateCaller caller_id credential
  | AuthorizeAudited uuid request audit now_ms ttl_ms => SawAuthorizeAudited uuid request audit now_ms ttl_ms
  | AuthorizeFlow uuid request now_ms ttl_ms => SawAuthorizeFlow uuid request now_ms ttl_ms
  | DecideApproval approval_id project_id approver_id decision now_ms => SawDecideApproval approval_id project_id approver_id decision now_ms
  | AppendAudit event => SawAppendAudit event
  | RememberProjectRoot project_id root => SawRememberProjectRoot project_id root
  | AcceptWork request now_ms => SawAcceptWork request now_ms
  | SnapshotTarget id expected => SawSnapshotTarget id expected
  | ReplayTarget id after_sequence expected => SawReplayTarget id after_sequence expected
  | CancelTarget id now_ms result expected => SawCancelTarget id now_ms result expected
  | WorkloadOf project_id => SawWorkloadOf project_id
  | CurrentOf project_id => SawCurrentOf project_id
  | RecentAudit limit => SawRecentAudit limit
  | ActiveGrants caller_id project_id now_ms => SawActiveGrants caller_id project_id now_ms
  | RevokeGrant grant_id now_ms => SawRevokeGrant grant_id now_ms
  end.

Definition os_observed {A} (e : OsE A) : A -> Observed :=
  match e in OsE A return A -> Observed with
  | OsNow => SawNow
  | OsDelayOrHeartbeat remaining_ms => SawDelayOrHeartbeat remaining_ms
  | OsCanonicalize path => SawCanonicalize path
  | OsIsDir path => SawIsDir path
  | OsIsFile path => SawIsFile path
  | OsSymlinkMetadata path => SawSymlinkMetadata path
  | OsSearchPath => SawSearchPath
  | OsEnvironment => SawEnvironment
  | OsDiscoverProject path => SawDiscoverProject path
  | OsPollFingerprint root => SawPollFingerprint root
  | OsSpawn child => SawSpawn child
  | OsTryWait child => SawTryWait child
  | OsSelect child => SawSelect child
  | OsTerminate child => SawTerminate child
  | OsWait child => SawWait child
  | OsDrain child => SawDrain child
  | OsJoinReaders child => SawJoinReaders child
  | OsPutEvidence put now_ms => SawPutEvidence put now_ms
  | OsListConnectors => SawListConnectors
  | OsParseConnectorCall step => SawParseConnectorCall step
  | OsLoadCredential connector => SawLoadCredential connector
  | OsBuildConnectorCall step record credential => SawBuildConnectorCall step record credential
  | OsPollConnectorCall step timeout_seconds attempt => SawPollConnectorCall step timeout_seconds attempt
  | OsSend id messages terminal => SawSend id messages terminal
  | OsLeaseToken => SawLeaseToken
  | OsStartWorker leased => SawStartWorker leased
  | OsRoute messages => SawRoute messages
  | OsRouteRegistered messages subscribe => SawRouteRegistered messages subscribe
  | OsStop result => SawStop result
  | OsWakeScheduler => SawWakeScheduler
  | OsAdmitPreflight => SawAdmitPreflight
  | OsSleep duration_ms => SawSleep duration_ms
  | OsFingerprint root => SawFingerprint root
  | OsUuid => SawUuid
  | OsEventNonce => SawEventNonce
  | OsRecentLogs limit => SawRecentLogs limit
  | OsBrief project_id => SawBrief project_id
  | OsNetworkDiagnostics => SawNetworkDiagnostics
  | OsServe request => SawServe request
  | OsRespond client payload => SawRespond client payload
  end.

Definition observed_event {A} (e : DaemonE A) : A -> Observed :=
  match e with inl1 e => store_observed e | inr1 e => os_observed e end.

Section trace.
Context `{Sha256} `{FlowCodec}.

(** A call of the store is answered as in some state of the store. *)
Definition plausible {A} (e : DaemonE A) : A -> Prop :=
  match e with
  | inl1 e => fun a => exists s, (store_step e s).2 = a
  | inr1 _ => fun _ => True
  end.

(** [runs t tr t']: the task [t] can come to [t'] with the events [tr]. *)
Inductive runs {R} (t : itree DaemonE R) : list Observed -> itree DaemonE R -> Prop :=
| runs_here : runs t [] t
| runs_tau tr t1 t2 : runs t tr t1 -> observe t1 = TauF t2 -> runs t tr t2
| runs_vis tr t1 A (e : DaemonE A) k a :
    runs t tr t1 -> observe t1 = VisF e k -> plausible e a -> runs t (tr ++ [observed_event e a]) (k a).

Section allowed.
(** What an event needs of the events before it, whatever its answer. *)
Context (allowed : Observed -> list Observed -> Prop).

Definition needs A (e : DaemonE A) (tr : list Observed) : Prop :=
  forall a, allowed (observed_event e a) tr.

Definition happens A (e : DaemonE A) (tr : list Observed) (a : A) (tr' : list Observed) : Prop :=
  plausible e a /\ tr' = tr ++ [observed_event e a].

Abbreviation safe_trace := (safe needs happens).

Lemma runs_safe {R} (t t' : itree DaemonE R) tr Q :
  (forall n, safe_trace n t Q []) -> runs t tr t' -> forall n, safe_trace n t' Q tr.
Proof.
  intros Hs. induction 1 as [|tr t1 t2 _ IH Ho|tr t1 A e k a _ IH Ho Ha]; intros n; [by apply Hs|..];
    specialize (IH (S n)); cbn [safe] in IH; rewrite Ho in IH; [done|].
  destruct IH as [_ IH]. by apply IH.
Qed.

(** Every event of a safe task was allowed when it happened. *)
Lemma runs_allowed {R} (t t' : itree DaemonE R) tr Q :
  (forall n, safe_trace n t Q []) -> runs t tr t' ->
  forall before o after, tr = before ++ o :: after -> allowed o before.
Proof.
  intros Hs Hr. induction Hr as [|tr t1 t2 Hr IH Ho|tr t1 A e k a Hr IH Ho Ha];
    intros before o after Heq; [by destruct before|by eapply IH|].
  destruct after as [|o' after _] using rev_ind.
  - apply app_inj_tail in Heq as [<- <-].
    pose proof (runs_safe t t1 tr Q Hs Hr 1) as Hsafe. cbn [safe] in Hsafe. rewrite Ho in Hsafe.
    exact (proj1 Hsafe a).
  - rewrite app_comm_cons, app_assoc in Heq. apply app_inj_tail in Heq as [Heq _]. by eapply IH.
Qed.

(** What a task that ended leaves behind. *)
Lemma runs_ends {R} (t t' : itree DaemonE R) tr Q r :
  (forall n, safe_trace n t Q []) -> runs t tr t' -> observe t' = RetF r -> Q r tr.
Proof.
  intros Hs Hr Ho. pose proof (runs_safe t t' tr Q Hs Hr 1) as Hsafe. cbn [safe] in Hsafe.
  by rewrite Ho in Hsafe.
Qed.

(** ** Specifications of the events a task adds

    [emits n K R m Q]: whatever happened before, the events of [m] satisfy [K];
    if [m] ends with [a] after the events [new] then [Q a new], and if it ends
    with an error then [R new]. *)
Definition emits {X A} (n : nat) (K : Observed -> Prop) (R : list Observed -> Prop)
    (m : Task X A) (Q : A -> list Observed -> Prop) : Prop :=
  forall tr, safe_trace n m (fun r tr' => exists new, tr' = tr ++ new /\ Forall K new /\
                              match r with Ok a => Q a new | Err _ => R new | Panic => True end) tr.

Lemma emits_weaken {X A} n (K K' : Observed -> Prop) (R R' : list Observed -> Prop)
    (m : Task X A) (Q Q' : A -> list Observed -> Prop) :
  emits n K R m Q -> (forall o, K o -> K' o) -> (forall new, Forall K new -> R new -> R' new) ->
  (forall a new, Forall K new -> Q a new -> Q' a new) -> emits n K' R' m Q'.
Proof.
  intros Hm HK HR HQ tr. eapply safe_post; [apply Hm|]. intros r w (new & -> & Hnew & Hr).
  exists new. split; [done|]. split; [by eapply Forall_impl|].
  destruct r; [by apply HQ|by apply HR|done].
Qed.

Lemma emits_le {X A} n n' K R (m : Task X A) Q : n' <= n -> emits n K R m Q -> emits n' K R m Q.
Proof. intros Hn Hm tr. eapply safe_mono; [exact Hn| |apply Hm]. done. Qed.

Lemma emits_done {X A} n K R (a : A) (Q : A -> list Observed -> Prop) :
  Q a [] -> emits n K R (done a : Task X A) Q.
Proof. intros HQ tr. apply safe_ret. exists []. by rewrite app_nil_r. Qed.

Lemma emits_lift {X A} n K (R : list Observed -> Prop) (r : res X A) (Q : A -> list Observed -> Prop) :
  match r with Ok a => Q a [] | Err _ => R [] | Panic => True end -> emits n K R (exec_lift r) Q.
Proof. intros HQ tr. apply safe_ret. exists []. by rewrite app_nil_r. Qed.

Lemma emits_bind_lift {X A B} n K (R : list Observed -> Prop) (r : res X A) (k : A -> Task X B) Q :
  (forall a, r = Ok a -> emits n K R (k a) Q) -> (forall e, r = Err e -> R []) ->
  emits n K R (exec_bind (exec_lift r) k) Q.
Proof.
  intros Hk HR tr. apply safe_bind, safe_ret. destruct r as [a|e|]; [by apply Hk|..]; apply safe_ret;
    exists []; rewrite app_nil_r; (split; [done|]; split; [constructor|]); [by eapply HR|done].
Qed.

(** Sequencing, where [new] has happened before. *)
Lemma emits_after {X A} n K R (m : Task X A) Q (new : list Observed) tr :
  Forall K new -> emits n K (fun new' => R (new ++ new')) m (fun a new' => Q a (new ++ new')) ->
  safe_trace n m (fun r tr' => exists all, tr' = tr ++ all /\ Forall K all /\
                   match r with Ok a => Q a all | Err _ => R all | Panic => True end) (tr ++ new).
Proof.
  intros Hnew Hm. eapply safe_post; [apply Hm|]. intros r w (new' & -> & Hnew' & Hr).
  exists (new ++ new'). rewrite app_assoc. split; [done|]. split; [by apply Forall_app|]. by destruct r.
Qed.

Lemma emits_match {X Y A B} n K R (m : Task X A) (k : A -> Task Y B) h Q R1 Q1 :
  emits n K R1 m Q1 ->
  (forall a new, Forall K new -> Q1 a new ->
     emits n K (fun new' => R (new ++ new')) (k a) (fun b new' => Q b (new ++ new'))) ->
  (forall e new, Forall K new -> R1 new ->
     emits n K (fun new' => R (new ++ new')) (h e) (fun b new' => Q b (new ++ new'))) ->
  emits n K R (exec_match m k h) Q.
Proof.
  intros Hm Hk Hh tr. apply safe_bind. eapply safe_post; [apply Hm|].
  intros r w (new & -> & Hnew & Hr). destruct r as [a|e|].
  - apply emits_after; auto.
  - apply emits_after; auto.
  - apply safe_ret. exists new. auto.
Qed.

Lemma emits_bind {X A B} n K R (m : Task X A) (k : A -> Task X B) Q Q1 :
  emits n K R m Q1 ->
  (forall a new, Forall K new -> Q1 a new ->
     emits n K (fun new' => R (new ++ new')) (k a) (fun b new' => Q b (new ++ new'))) ->
  emits n K R (exec_bind m k) Q.
Proof.
  intros Hm Hk tr. apply safe_bind. eapply safe_post; [apply Hm|].
  intros r w (new & -> & Hnew & Hr). destruct r as [a|e|]; [|apply safe_ret; by exists new..].
  apply emits_after; auto.
Qed.

Lemma emits_map_err {X Y A} n K R (f : X -> Y) (m : Task X A) Q :
  emits n K R m Q -> emits n K R (exec_map_err f m) Q.
Proof.
  intros Hm tr. apply safe_bind. eapply safe_post; [apply Hm|]. intros r w (new & -> & Hnew & Hr).
  apply safe_ret. exists new. by destruct r.
Qed.

Lemma emits_os {X A} n (K : Observed -> Prop) R (e : OsE A) (Q : A -> list Observed -> Prop) :
  (forall a tr, allowed (os_observed e a) tr) -> (forall a, K (os_observed e a)) ->
  (forall a, Q a [os_observed e a]) -> emits n K R (os e : Task X A) Q.
Proof.
  intros Ha HK HQ tr. apply safe_bind. apply safe_trigger; [intros a; exact (Ha a _)|]. intros a w [_ ->]. apply safe_ret.
  exists [os_observed e a]. split; [done|]. split; [by constructor|apply HQ].
Qed.

Lemma emits_os_res {A} n (K : Observed -> Prop) R (e : OsE (sres A)) (Q : A -> list Observed -> Prop) :
  (forall a tr, allowed (os_observed e a) tr) -> (forall a, K (os_observed e a)) ->
  (forall r, match r with Ok a => Q a [os_observed e r] | Err _ => R [os_observed e r] | Panic => True end) ->
  emits n K R (os_res e) Q.
Proof.
  intros Ha HK HQ tr. apply safe_trigger; [intros a; exact (Ha a _)|]. intros a w [_ ->].
  exists [os_observed e a]. split; [done|]. split; [by constructor|apply HQ].
Qed.

Lemma emits_store {A} n (K : Observed -> Prop) R (e : StoreE (sres A)) (Q : A -> list Observed -> Prop) :
  (forall a tr, allowed (store_observed e a) tr) -> (forall a, K (store_observed e a)) ->
  (forall r s, (store_step e s).2 = r ->
     match r with Ok a => Q a [store_observed e r] | Err _ => R [store_observed e r] | Panic => True end) ->
  emits n K R (store e) Q.
Proof.
  intros Ha HK HQ tr. apply safe_trigger; [intros a; exact (Ha a _)|]. intros a w [[s Hs] ->].
  exists [store_observed e a]. split; [done|]. split; [by constructor|by eapply HQ].
Qed.

(** A store call whose errors are handled. *)
Lemma emits_match_store {Y A B} n (K : Observed -> Prop) R (e : StoreE (sres A)) (k : A -> Task Y B) h Q :
  (forall a tr, allowed (store_observed e a) tr) -> (forall a, K (store_observed e a)) ->
  (forall a s, (store_step e s).2 = Ok a -> let o := store_observed e (Ok a) in
     emits n K (fun new => R (o :: new)) (k a) (fun b new => Q b (o :: new))) ->
  (forall x, let o := store_observed e (Err x) in
     emits n K (fun new => R (o :: new)) (h x) (fun b new => Q b (o :: new))) ->
  emits n K R (exec_match (store e) k h) Q.
Proof.
  intros Ha HK Hk Hh tr. apply safe_bind, safe_trigger; [intros a; exact (Ha a _)|]. intros r w [[s Hs] ->].
  set (o := store_observed e r).
  assert (Forall K [o]) by (constructor; [apply HK|done]). destruct r as [a|x|].
  - apply (emits_after n K R (k a) Q [o] tr); [done|]. by eapply Hk.
  - apply (emits_after n K R (h x) Q [o] tr); [done|]. apply Hh.
  - apply safe_ret. by exists [o].
Qed.

(** A loop: [J i done] holds at the start of every iteration, after the events
    [done] of the loop so far. *)
Lemma emits_loop {X I A} n K R (body : I -> Task X (I + A)) i (J : I -> list Observed -> Prop) Q :
  (forall m i new, m <= n -> J i new -> emits m K (fun new' => R (new ++ new')) (body i) (fun next new' =>
     match next with inl i => J i (new ++ new') | inr a => Q a (new ++ new') end)) ->
  J i [] -> emits n K R (exec_loop body i) Q.
Proof.
  intros Hbody HJ tr.
  apply (safe_iter _ _ n _ (fun i tr' => exists new, tr' = tr ++ new /\ Forall K new /\ J i new)).
  - intros m j w Hm (new & -> & Hnew & Hj). apply safe_bind.
    eapply safe_post; [by apply (Hbody m j new Hm Hj)|]. intros r w (new' & -> & Hnew' & Hr). apply safe_ret.
    assert (Hall : Forall K (new ++ new')) by by apply Forall_app.
    destruct r as [[j'|a]|e|]; exists (new ++ new'); by rewrite app_assoc.
  - exists []. by rewrite app_nil_r.
Qed.

End allowed.
End trace.
