(* ===== verification/ExecSpec.v ===== *)
(** * What each part of the executor does

    For every helper of the executor the events it can cause, and what it knows
    when it lets the executor go on: that the lease was still held and the
    request not cancelled. *)

From ITree Require Import Core.ITreeDefinition.
From S2P Require Import Prelude Core Policy Redact Paths FlowDef FlowData FlowSnapshot FlowEngine StoreDef StoreFlow StoreQueue StoreAuth StoreStep Protocol ProtocolRequest ProtocolCodec FlowOperation Exec ExecLogic FlowCommand FlowExecute FlowProcess.

Local Open Scope Z_scope.

(** ** Kinds of events *)

(** An effect on the outside world. *)
Definition is_effect (o : Observed) : Prop :=
  match o with SawSpawn _ _ | SawPollConnectorCall _ _ _ _ => True | _ => False end.

(** Neither a call of a request handler that serves or authorizes something nor
    an answer to a client: the executor of a flow makes none of them. *)
Definition handles_nothing (o : Observed) : Prop :=
  match o with
  | SawAuthorizeAudited _ _ _ _ _ _ | SawAuthorizeFlow _ _ _ _ _ | SawDecideApproval _ _ _ _ _ _
  | SawRememberProjectRoot _ _ _ | SawAcceptWork _ _ _ | SawSnapshotTarget _ _ _ | SawReplayTarget _ _ _ _
  | SawCancelTarget _ _ _ _ _ | SawWorkloadOf _ _ | SawCurrentOf _ _ | SawRecentAudit _ _
  | SawActiveGrants _ _ _ _ | SawRevokeGrant _ _ _
  | SawRoute _ _ | SawRouteRegistered _ _ _ | SawStop _ _ | SawWakeScheduler _ | SawServe _ _ | SawRespond _ _ _
  | SawRecentLogs _ _ | SawBrief _ _ | SawNetworkDiagnostics _ => False
  | _ => True
  end.

(** Neither an effect nor something that is stored. *)
Definition quiet (o : Observed) : Prop :=
  match o with
  | SawSpawn _ _ | SawPollConnectorCall _ _ _ _ | SawPutEvidence _ _ _ | SawSaveCheckpoint _ _
  | SawSend _ _ _ _ | SawStartWorker _ _ => False
  | o => handles_nothing o
  end.

(** Only the operating system is asked. *)
Definition asks_os (o : Observed) : Prop :=
  match o with
  | SawSpawn _ _ | SawPollConnectorCall _ _ _ _ | SawPutEvidence _ _ _ | SawSend _ _ _ _
  | SawStartWorker _ _ => False
  | SawLoadFlowCheckpoint _ _ _ | SawValidateFlowOperationResource _ _ _ _ | SawSaveCheckpoint _ _
  | SawValidateFlowEffectAuthorization _ _ _ | SawSnapshotRequest _ _ | SawRenewLease _ _ _ _
  | SawQueuedBehind _ _ | SawFinishRequest _ _ _ _ _ | SawFinishTerminalFlow _ _ _ _
  | SawReplayRequest _ _ _ | SawClaimRequest _ _ _ _ _ | SawRecoverExpiredRequests _ _
  | SawFailCorruptFlowAuthorization _ _ _ _ | SawAuthenticateCaller _ _ _ | SawAppendAudit _ _ => False
  | o => handles_nothing o
  end.

(** Neither an effect, retained evidence nor a message. *)
Definition harmless (o : Observed) : Prop :=
  match o with
  | SawSpawn _ _ | SawPollConnectorCall _ _ _ _ | SawPutEvidence _ _ _ | SawSend _ _ _ _ | SawStartWorker _ _ => False
  | o => handles_nothing o
  end.

Definition is_stale {A} (r : sres A) : Prop :=
  match r with Err (StaleLease _) => True | _ => False end.

(** The executor learns that it must stop: the request is in cancellation or
    the lease is lost. *)
Definition halting (o : Observed) : Prop :=
  match o with
  | SawSnapshotRequest _ (Ok request) => rs_state request = ReqCancellationRequested
  | SawLoadFlowCheckpoint _ _ r => is_stale r
  | SawValidateFlowOperationResource _ _ _ r => is_stale r
  | SawSaveCheckpoint _ r => is_stale r
  | SawValidateFlowEffectAuthorization _ _ r => is_stale r
  | SawRenewLease _ _ _ r => is_stale r
  | _ => False
  end.

(** Nothing of that kind has happened. *)
Definition live (tr : list Observed) : Prop := Forall (fun o => ~ halting o) tr.

Lemma live_nil : live [].
Proof. constructor. Qed.
Lemma live_cons o tr : live (o :: tr) <-> ~ halting o /\ live tr.
Proof. unfold live. by rewrite Forall_cons. Qed.
Lemma live_app a b : live (a ++ b) <-> live a /\ live b.
Proof. unfold live. by rewrite Forall_app. Qed.

Lemma asks_os_live tr : Forall asks_os tr -> live tr.
Proof. unfold live. intros Hos. eapply Forall_impl; [exact Hos|]. intros [] Ho; cbn in *; tauto. Qed.

Lemma quiet_harmless o : quiet o -> harmless o.
Proof. destruct o; cbn; tauto. Qed.
Lemma asks_os_quiet o : asks_os o -> quiet o.
Proof. destruct o; cbn; tauto. Qed.

(** ** Engine calls *)

(** A call keeps the definition, and if it succeeds its value satisfies [P]. *)
Definition returns_at {A} (r : FlowRun) (P : A -> Prop) (m : M A) : Prop :=
  forall r' a, m r = (r', Ok a) -> fr_definition r' = fr_definition r /\ P a.
Definition returns {A} (P : A -> Prop) (m : M A) : Prop := forall r, returns_at r P m.

Section returns.
Context `{Sha256}.

Lemma returns_bind {A B} (P : A -> Prop) (Q : B -> Prop) m k :
  returns P m -> (forall a, P a -> returns Q (k a)) -> returns Q (st_bind m k).
Proof.
  intros Hm Hk r r' b Hb. unfold st_bind in Hb. destruct (m r) as [r1 [a|e|]] eqn:E; [|done..].
  destruct (Hm r r1 a E) as [Hd Ha]. destruct (Hk a Ha r1 r' b Hb) as [Hd' HQ]. by rewrite Hd', Hd.
Qed.

Lemma returns_weaken {A} (P Q : A -> Prop) m : returns P m -> (forall a, P a -> Q a) -> returns Q m.
Proof. intros Hm HPQ r r' a Ha. destruct (Hm r r' a Ha). auto. Qed.

Lemma returns_ret {A} (P : A -> Prop) a : P a -> returns P (st_ret a).
Proof. by intros HP r r' b [= -> ->]. Qed.
Lemma returns_err {A} (P : A -> Prop) e : returns P (st_err e : M A).
Proof. by intros r r' b [=]. Qed.
Lemma returns_lift {A} (P : A -> Prop) m : (forall a, m = Ok a -> P a) -> returns P (st_lift m).
Proof. intros HP r r' a [= -> Ha]. auto. Qed.
Lemma returns_get : returns (fun _ => True) st_get.
Proof. by intros r r' a [= -> ->]. Qed.
Lemma returns_put_snapshot s : returns (fun _ => True) (put_snapshot s).
Proof. by intros r r' a [= <- <-]. Qed.
Lemma returns_put_issued a : returns (fun _ => True) (put_issued a).
Proof. by intros r r' x [= <- <-]. Qed.
Lemma returns_put_status v : returns (fun _ => True) (put_status v).
Proof. by intros r r' x [= <- <-]. Qed.
Lemma returns_put_cancel v : returns (fun _ => True) (put_cancel v).
Proof. by intros r r' x [= <- <-]. Qed.
Lemma returns_get_step i : returns (fun _ => True) (get_step i).
Proof. by intros r r' x [= <- _]. Qed.
Lemma returns_modify_step i f : returns (fun _ => True) (modify_step i f).
Proof. intros r r' x. unfold modify_step. by destruct (_ !! i); intros [= <- <-]. Qed.
Lemma returns_can_change : returns (fun _ => True) ensure_can_change.
Proof. by intros r r' x [= <- _]. Qed.

Lemma returns_changed (P : EngineUpdate -> Prop) kind decision :
  (forall u, up_decision u = decision -> tr_kind <$> up_transition u = Some kind -> P u) ->
  returns P (changed kind decision).
Proof.
  intros HP r r' u. unfold changed. destruct (checked_add64 _ _) as [n|]; [|done].
  intros [= <- Hu]. split; [done|]. destruct (semantic_events_for_transition _ _); [|done..].
  injection Hu as <-. by apply HP.
Qed.
Lemma returns_changed_terminal (P : EngineUpdate -> Prop) kind :
  (forall u result, up_decision u = Terminal result -> P u) -> returns P (changed_terminal kind).
Proof.
  intros HP r r' u Hu. apply (returns_changed P kind (Terminal (build_result r)) ltac:(eauto) r r' u Hu).
Qed.
Lemma returns_observe (P : EngineUpdate -> Prop) decision :
  (forall u, up_decision u = decision -> P u) -> returns P (observe decision).
Proof. intros HP r r' u [= <- <-]. split; [done|]. by apply HP. Qed.
Lemma returns_observe_terminal (P : EngineUpdate -> Prop) :
  (forall u result, up_decision u = Terminal result -> P u) -> returns P observe_terminal.
Proof. intros HP r r' u [= <- <-]. split; [done|]. by eapply HP. Qed.

End returns.

Create HintDb engine_calls.
#[export] Hint Resolve returns_ret returns_err returns_get returns_put_snapshot returns_put_issued
  returns_put_status returns_put_cancel returns_get_step returns_modify_step returns_can_change
  : engine_calls.

(** One step of a [returns] goal. *)
Ltac engine_step :=
  match goal with
  | |- returns _ (st_bind _ _) =>
    eapply returns_bind; [solve [eauto with engine_calls]|intros ? _]
  | |- returns _ (st_bind (st_lift _) _) =>
    eapply returns_bind; [apply (returns_lift (fun _ => True)); done|intros ? _]
  | |- returns _ (st_bind (match _ with _ => _ end) _) =>
    apply (returns_bind (fun _ => True)); [|intros ? _]
  | |- returns _ (st_bind (if _ then _ else _) _) =>
    apply (returns_bind (fun _ => True)); [|intros ? _]
  | |- returns _ (match ?x with _ => _ end) => destruct x
  | |- returns _ (changed _ _) => apply returns_changed
  | |- returns _ (changed_terminal _) => apply returns_changed_terminal
  | |- returns _ (observe _) => apply returns_observe
  | |- returns _ observe_terminal => apply returns_observe_terminal
  | |- returns _ (st_err _) => apply returns_err
  | |- returns _ (st_ret _) => apply returns_ret
  | |- returns _ (st_lift _) => apply returns_lift
  end.

(** A decision after which nothing is executed. *)
Definition closing (decision : RunDecision) : Prop :=
  match decision with Terminal _ | Reconcile _ => True | _ => False end.

Section engine.
Context `{Sha256}.

Lemma finish_cancelled_returns : returns (fun u => closing (up_decision u)) finish_cancelled.
Proof. unfold finish_cancelled. repeat engine_step. by intros u result ->. Qed.

Lemma continue_cancellation_returns : returns (fun u => closing (up_decision u)) continue_cancellation.
Proof.
  unfold continue_cancellation. repeat engine_step; try apply finish_cancelled_returns. by intros u ->.
Qed.

Lemma cancel_returns : returns (fun u => closing (up_decision u)) FlowEngine.cancel.
Proof.
  unfold FlowEngine.cancel.
  repeat engine_step; try apply finish_cancelled_returns; try apply continue_cancellation_returns.
  - by intros u result ->.
  - by intros u -> _.
Qed.

Lemma unknown_returns effect report now :
  returns (fun u => closing (up_decision u)) (record_reconciliation effect (Unknown report) now).
Proof. unfold record_reconciliation. repeat engine_step. by intros u result ->. Qed.

Lemma deny_returns effect : returns (fun _ => True) (deny_effect_authorization effect).
Proof.
  unfold deny_effect_authorization. repeat engine_step; try done.
Qed.

Lemma prepare_returns effect now :
  returns (fun u => up_decision u = Execute effect true \/ up_decision u = Execute effect false)
    (FlowEngine.prepare_effect effect now).
Proof.
  unfold FlowEngine.prepare_effect. repeat engine_step; try done. intros u -> _. destruct a3; auto.
Qed.

(** The transition that starts an effect. *)
Definition starts (effect : EffectAttempt) (t : option RunTransition) : Prop :=
  exists replay, tr_kind <$> t = Some (EffectStarted (ea_step_id effect) (ea_attempt effect) replay).

Lemma prepare_transition effect now :
  returns (fun u => starts effect (up_transition u)) (FlowEngine.prepare_effect effect now).
Proof.
  unfold FlowEngine.prepare_effect. repeat engine_step; try done. intros u _ Ht. by eexists.
Qed.

(** The kind of [effect] is the one its step declares. *)
Definition declared_effect (definition : FlowDefinition) (effect : EffectAttempt) : Prop :=
  exists declared, fd_steps definition !! ea_step_index effect = Some declared
    /\ ea_effect effect = fs_effect declared.

Lemma prepare_declares effect now r r' u :
  FlowEngine.prepare_effect effect now r = (r', Ok u) -> declared_effect (fr_definition r) effect.
Proof.
  unfold FlowEngine.prepare_effect, st_bind, st_get, st_lift.
  destruct (validate_effect r effect) as [[]|e|] eqn:Hv; [intros _|done..].
  unfold validate_effect in Hv. case_match; [|done].
  unfold declared_step in Hv. destruct (fd_steps (fr_definition r) !! ea_step_index effect) as [declared|] eqn:Hd; [|done].
  cbn in Hv. case_match eqn:Hc; [done|]. exists declared. split; [done|].
  rewrite !orb_false_iff, !negb_false_iff, bool_decide_eq_true in Hc. tauto.
Qed.

Lemma next_decision_returns now : returns (fun _ => True) (next_decision now).
Proof.
  unfold next_decision, decision_for_active, schedule_step, skip_step, complete_run.
  repeat engine_step; try done; (eapply returns_weaken; [apply continue_cancellation_returns|done]).
Qed.

Lemma record_effect_result_returns effect result now :
  returns (fun _ => True) (record_effect_result effect result now).
Proof.
  unfold record_effect_result, record_fresh_result, settle_cancelling, settle_running.
  repeat engine_step; done.
Qed.

End engine.

(** ** Quiet parts *)

(** [leased] with a renewed lease. *)
Definition same_request (a b : LeasedRequest) : Prop :=
  le_request_id (lr_lease b) = le_request_id (lr_lease a)
  /\ le_project_id (lr_lease b) = le_project_id (lr_lease a)
  /\ lr_operation_kind b = lr_operation_kind a /\ lr_operation b = lr_operation a.

#[export] Instance same_request_preorder : PreOrder same_request.
Proof. split; [by repeat split|]. intros a b c (?&?&?&?) (?&?&?&?). repeat split; congruence. Qed.

Definition anyway : list Observed -> Prop := fun _ => True.

(** The side conditions on the kind of an event, and on failures. *)
Ltac events := solve [assumption | intros; cbn; unfold anyway; tauto].

Lemma renew_answer lease now d s l :
  (renew lease now d s).2 = Ok l -> exists e, l = with_expiry lease e.
Proof.
  unfold renew, transaction. destruct (renew_tx lease now d s) as [[s' l']| |] eqn:E; [|done..].
  intros [= <-]. unfold renew_tx in E.
  repeat (apply tx_bind_Ok in E as (? & ? & ? & E)). case_match; tx_inv; eauto.
Qed.

Section quiet.
Context `{Sha256} `{FlowCodec}.
Context (allowed : Observed -> list Observed -> Prop).
Context (harmless_allowed : forall o tr, harmless o -> allowed o tr).

(** Whatever happened before, [m] only causes events in [K]. *)
Abbreviation does K n m Q := (emits allowed n K anyway m Q).

Lemma bind_os {X A B} n K R (e : OsE A) (k : A -> Task X B) Q :
  (forall a, harmless (os_observed e a)) -> (forall a, K (os_observed e a)) ->
  (forall a, emits allowed n K (fun new => R (os_observed e a :: new)) (k a)
               (fun b new => Q b (os_observed e a :: new))) ->
  emits allowed n K R (exec_bind (os e) k) Q.
Proof.
  intros Hh HK Hk. eapply emits_bind.
  - apply (emits_os allowed n K R e (fun a new => new = [os_observed e a])); [|done|done].
    intros a tr. by apply harmless_allowed.
  - intros a new _ ->. apply Hk.
Qed.

Lemma bind_store {A B} n K (R : list Observed -> Prop) (e : StoreE (sres A)) (k : A -> Exec B) Q :
  (forall a, harmless (store_observed e a)) -> (forall a, K (store_observed e a)) ->
  (forall a s, (store_step e s).2 = Ok a ->
     emits allowed n K (fun new => R (store_observed e (Ok a) :: new)) (k a)
       (fun b new => Q b (store_observed e (Ok a) :: new))) ->
  (forall x, R [store_observed e (Err x)]) ->
  emits allowed n K R (exec_bind (store e) k) Q.
Proof.
  intros Hh HK Hk Hx. eapply emits_bind.
  - apply (emits_store allowed n K R e (fun a new => (exists s, (store_step e s).2 = Ok a)
                                          /\ new = [store_observed e (Ok a)])); [|done|].
    + intros a tr. by apply harmless_allowed.
    + intros [a|x|] s Hs; eauto.
  - intros a new _ [[s Hs] ->]. by eapply Hk.
Qed.

Lemma match_store {Y A B} n K (R : list Observed -> Prop) (e : StoreE (sres A)) (k : A -> Task Y B) h Q :
  (forall a, harmless (store_observed e a)) -> (forall a, K (store_observed e a)) ->
  (forall a s, (store_step e s).2 = Ok a ->
     emits allowed n K (fun new => R (store_observed e (Ok a) :: new)) (k a)
       (fun b new => Q b (store_observed e (Ok a) :: new))) ->
  (forall x, emits allowed n K (fun new => R (store_observed e (Err x) :: new)) (h x)
               (fun b new => Q b (store_observed e (Err x) :: new))) ->
  emits allowed n K R (exec_match (store e) k h) Q.
Proof.
  intros Hh HK Hk Hx. apply emits_match_store; [|done|exact Hk|exact Hx].
  intros a tr. by apply harmless_allowed.
Qed.

(** A call of a part whose events are described. *)
Lemma bind_does {X A B} n (K K' : Observed -> Prop) R R' (m : Task X A) (k : A -> Task X B) Q Q1 :
  emits allowed n K' R' m Q1 -> (forall o, K' o -> K o) ->
  (forall new, Forall K' new -> R' new -> R new) ->
  (forall a new, Forall K' new -> Q1 a new ->
     emits allowed n K (fun new' => R (new ++ new')) (k a) (fun b new' => Q b (new ++ new'))) ->
  emits allowed n K R (exec_bind m k) Q.
Proof.
  intros Hm HK HR Hk. eapply emits_bind.
  - eapply (emits_weaken allowed n K' K R' R m Q1 (fun a new => Forall K' new /\ Q1 a new)); auto.
  - intros a new _ [Hnew Ha]. by apply Hk.
Qed.

Lemma request_is_cancelled_does n leased :
  does quiet n (request_is_cancelled leased) (fun cancelled new => cancelled = false -> live new).
Proof.
  apply bind_store; try events. intros request s _. apply emits_done. intros Hc. apply live_cons.
  split; [|apply live_nil]. cbn. by apply bool_decide_eq_false in Hc.
Qed.

Lemma renew_and_poll_does n d leased :
  does quiet n (renew_and_poll_cancellation d leased)
    (fun '(leased', state) new => same_request leased leased' /\ (state = LeaseReady -> live new)).
Proof.
  apply bind_os; try events. intros now. apply match_store; try events.
  - intros lease s Hs. eapply bind_does; [apply request_is_cancelled_does|done|events|].
    intros cancelled new _ Hc. apply emits_done. cbn. split.
    + apply renew_answer in Hs as [e ->]. by repeat split.
    + destruct cancelled; [done|]. intros _. rewrite app_nil_r, !live_cons. cbn. auto.
  - intros x. destruct x; try (by apply emits_lift); apply emits_done; cbn; split; done.
Qed.

(** The answer of the poll is the last event before the call completes. *)
Lemma await_does {T} n d (poll : Exec (option (res FlowSubmissionError T))) leased
    (P : option (res FlowSubmissionError T) -> list Observed -> Prop) :
  (forall m, does quiet m poll (fun answer new => live new /\ P answer new)) ->
  does quiet n (await_workspace_fingerprint_with_lease d poll leased)
    (fun '(leased', call) new => same_request leased leased' /\
       match call with
       | CallCompleted r => live new /\ exists before last, new = before ++ last /\ P (Some r) last
       | _ => True
       end).
Proof.
  intros Hpoll. eapply bind_does; [apply renew_and_poll_does|done|events|].
  intros [l1 state] new _ [Hl Hlive]. destruct state; try (apply emits_done; cbn; done).
  apply (emits_loop allowed n quiet _ _ _ (fun l' done => same_request leased l' /\ live (new ++ done))).
  - intros m l' done Hm [Hl' Hd]. eapply bind_does; [apply Hpoll|done|events|].
    intros [r|] new' _ [Hlive' HP].
    + apply emits_done. rewrite !app_nil_r, app_assoc. split; [done|]. split; [by apply live_app|].
      by exists (new ++ done), new'.
    + eapply bind_does; [apply renew_and_poll_does|done|events|].
      intros [l2 st] new2 _ [Hl2 Hst]. apply emits_done. cbn. rewrite app_nil_r.
      destruct st; cbn; [|split; [by etrans|done]..]. split; [by etrans|].
      rewrite !live_app in *. naive_solver.
  - split; [done|]. rewrite app_nil_r. auto.
Qed.

Lemma wait_for_retry_does n d leased not_before :
  does quiet n (wait_for_retry d leased not_before)
    (fun '(leased', state) new => same_request leased leased' /\ (state = LeaseReady -> live new)).
Proof.
  apply bind_os; try events. intros now.
  apply (emits_loop allowed n quiet _ _ _ (fun l' done => same_request leased l' /\ live done)); [|split; [done|apply live_nil]].
  intros m l' done Hm [Hl' Hd]. apply bind_os; try events. intros [].
  - apply emits_done. split; [done|]. intros _. rewrite live_cons, live_app, live_cons. cbn. auto using live_nil.
  - eapply bind_does; [apply renew_and_poll_does|done|events|].
    intros [l2 st] new2 _ [Hl2 Hst]. apply emits_done. rewrite app_nil_r.
    destruct st; cbn; (split; [by etrans|]); try done.
    rewrite live_app, live_cons. cbn. auto.
Qed.

Lemma effect_boundary_does n leased :
  does quiet n (effect_boundary_authorization leased)
    (fun boundary new =>
       match boundary with
       | BoundaryAllowed => exists now, new = [SawNow now;
           SawValidateFlowEffectAuthorization (lr_lease leased) now (Ok EffectAllowed)]
       | BoundaryDenied => live new
       | BoundaryCancelled => True
       end).
Proof.
  apply bind_os; try events. intros now. apply match_store; try events.
  - intros [] s _; apply emits_done; [by exists now|]. rewrite !live_cons. cbn. auto using live_nil.
  - intros x. destruct x; try (by apply emits_lift).
    eapply bind_does; [apply request_is_cancelled_does|done|events|].
    intros [] new _ _; [by apply emits_done|by apply emits_lift].
Qed.

End quiet.
