(* ===== verification/ExecParts.v ===== *)
(** * Commands, connectors and checkpoints in the executor

    The events of the parts that prepare an effect, run a child process, call a
    connector, retain evidence and save a checkpoint. *)

From ITree Require Import Core.ITreeDefinition.
From S2P Require Import Prelude Core Policy Redact FlowDef FlowData FlowSnapshot FlowEngine Paths Protocol.
From S2P Require Import ProtocolRequest ProtocolCodec FlowOperation StoreDef StoreFlow StoreQueue StoreAuth Exec.
From S2P Require Import FlowCommand FlowExecute FlowProcess ExecLogic ExecSpec.

Local Open Scope Z_scope.

(** ** Bounded output *)

Lemma len_substring n s : len (String.substring 0 n s) <= Z.of_nat n.
Proof.
  revert n. induction s as [|a s IH]; intros [|n]; cbn [String.substring]; unfold len in *; cbn [String.length]; try lia.
  specialize (IH n). lia.
Qed.

Lemma len_append a b : len (a +:+ b) = len a + len b.
Proof. unfold len. induction a as [|x a IH]; [done|]. cbn [String.append String.length]. lia. Qed.

Lemma append_output_bounded output chunk limit :
  len output <= limit -> len (append_output output chunk limit).1 <= limit.
Proof.
  intros Ho. unfold append_output. cbn. rewrite len_append.
  pose proof (len_substring (Z.to_nat (Z.min (len chunk) (Z.max 0 (limit - len output)))) chunk).
  assert (0 <= len chunk) by (unfold len; lia). lia.
Qed.

Section parts.
Context `{Sha256} `{FlowCodec}.
Context (allowed : Observed -> list Observed -> Prop).
Context (harmless_allowed : forall o tr, harmless o -> allowed o tr).

Abbreviation does K n m Q := (emits allowed n K anyway m Q).
Abbreviation collects n m Q := (emits allowed n asks_os (fun _ => False) m Q).

Definition bounded_output (output : string) : Prop := len output <= MAX_COMMAND_OUTPUT_BYTES.

Lemma drain_output_does n child output :
  bounded_output output ->
  collects n (drain_output child output) (fun '(out, _) _ => bounded_output out).
Proof.
  intros Ho. apply (emits_loop allowed n asks_os _ _ _ (fun out _ => bounded_output out)); [|done].
  intros m out new Hm Hout. apply bind_os; try events. intros [chunk| | |]; apply emits_done; try done.
  pose proof (append_output_bounded out chunk _ Hout).
  destruct (append_output out chunk MAX_COMMAND_OUTPUT_BYTES) as [out' [|e|]]; done.
Qed.

(** The child is terminated and waited for first, and what is collected is bounded. *)
Lemma terminate_and_collect_does n child output :
  bounded_output output ->
  collects n (terminate_and_collect child output)
    (fun '(out, _) new => bounded_output out /\
       exists waited rest, new = SawTerminate child tt :: SawWait child waited :: rest).
Proof.
  intros Ho. apply bind_os; try events. intros []. apply bind_os; try events. intros waited.
  eapply bind_does; [by apply drain_output_does|done|by intros|].
  intros [out r] new _ Hout. apply bind_os; try events. intros joined. apply emits_done. split; [done|].
  by do 2 eexists.
Qed.

(** ** The loop around a child process *)

Definition execution_output (e : CommandExecution) : option string :=
  match e with Completed _ output | TimedOut output => Some output | _ => None end.

(** What an ended execution guarantees. *)
Definition execution_ok (e : CommandExecution) (new : list Observed) : Prop :=
  match e with
  | ExecCancelled | ExecStale => True
  | Completed _ output | TimedOut output => live new /\ bounded_output output
  | _ => live new
  end.

Lemma execution_ok_app e a b : live a -> execution_ok e b -> execution_ok e (a ++ b).
Proof. intros Ha. unfold execution_ok. destruct e; rewrite ?live_app; tauto. Qed.

(** The child has been terminated and then waited for. *)
Definition terminated (child : ChildId) (new : list Observed) : Prop :=
  exists before waited after, new = before ++ SawTerminate child tt :: SawWait child waited :: after.

Lemma collected_does n result execution K (R : list Observed -> Prop)
    (Q : CommandExecution -> list Observed -> Prop) :
  R [] -> Q execution [] -> Q OutputLimit [] -> Q CaptureFailed [] ->
  emits allowed n K R (collected result execution) Q.
Proof. intros HR Hd Ho Hc. destruct result as [[]|[]|]; first [by apply emits_done | by apply emits_lift]. Qed.

Lemma terminated_app_r child a b : terminated child b -> terminated child (a ++ b).
Proof. intros (before & waited & after & ->). exists (a ++ before), waited, after. by rewrite <-app_assoc. Qed.
Lemma terminated_app_l child a b : terminated child a -> terminated child (a ++ b).
Proof.
  intros (before & waited & after & ->). exists before, waited, (after ++ b). by rewrite <-app_assoc.
Qed.

Lemma collect_then {B} n child out R (m : string * res OutputCollectionError unit -> Exec B) Q :
  bounded_output out ->
  (forall out' r new, bounded_output out' -> live new -> terminated child new ->
     emits allowed n quiet (fun new' => R (new ++ new')) (m (out', r)) (fun b new' => Q b (new ++ new'))) ->
  emits allowed n quiet R (exec_bind (terminate_and_collect child out) m) Q.
Proof.
  intros Hout Hm. eapply bind_does; [by apply terminate_and_collect_does|apply asks_os_quiet|done|].
  intros [out' r] new Hnew (Hout' & waited & rest & ->). apply Hm; [done|by apply asks_os_live|].
  by exists [], waited, rest.
Qed.

(** What an iteration that comes after [leased] leaves. *)
Definition after_iteration (child : ChildId) (leased : LeasedRequest)
    (next : LeasedRequest * string + LeasedRequest * CommandExecution) (new : list Observed) : Prop :=
  match next with
  | inl (leased', output') => same_request leased leased' /\ bounded_output output' /\ live new
  | inr (leased', e) => same_request leased leased' /\ execution_ok e new /\ terminated child new
  end.

(** The execution is over once the child is terminated and waited for. *)
Lemma stop_does n child before leased leased' output e :
  same_request leased leased' -> bounded_output output -> execution_output e = None ->
  (live before \/ e = ExecCancelled \/ e = ExecStale) ->
  emits allowed n quiet (fun new => terminated child (before ++ new))
    (await! _ := terminate_and_collect child output in done (inr (leased', e)))
    (fun next new => after_iteration child leased next (before ++ new)).
Proof.
  intros Hl Ho Hnone He. apply collect_then; [done|]. intros out r new _ Hlive Ht. apply emits_done.
  rewrite app_nil_r. split; [done|]. split; [|by apply terminated_app_r].
  destruct e; cbn in *; try done; (apply live_app; naive_solver).
Qed.

Lemma collected_iteration_does n child before leased output e :
  live before -> bounded_output output -> (forall out, bounded_output out -> execution_ok (e out) []) ->
  emits allowed n quiet (fun new => terminated child (before ++ new))
    (await! (output, result) := terminate_and_collect child output in
     await! execution := collected result (e output) in
     done (inr (leased, execution)))
    (fun next new => after_iteration child leased next (before ++ new)).
Proof.
  intros Hb Ho He. apply collect_then; [done|]. intros out r new Hout Hlive Ht.
  assert (Hall : live (before ++ new)) by by apply live_app.
  eapply emits_bind.
  - apply (collected_does n r (e out) _ _ (fun x new' => new' = [] /\ execution_ok x (before ++ new)));
      [rewrite app_nil_r; by apply terminated_app_r|..]; (split; [done|]); try done.
    rewrite <-(app_nil_r (before ++ new)). apply execution_ok_app; [done|by apply He].
  - intros x new' _ [-> Hx]. apply emits_done. rewrite !app_nil_r. split; [done|].
    split; [done|by apply terminated_app_r].
Qed.

Lemma command_iteration_does n d child leased output :
  bounded_output output ->
  emits allowed n quiet (terminated child) (command_iteration d child (leased, output))
    (after_iteration child leased).
Proof.
  intros Ho. unfold command_iteration. apply bind_os; try events. intros [[status|]|].
  - apply (collected_iteration_does n child [_] leased output (Completed status)); [|done|by split; [apply live_nil|]].
    apply live_cons; auto using live_nil.
  - assert (Hlive : forall o, live [SawTryWait child (Some None); SawSelect child o])
      by (intros o; rewrite !live_cons; auto using live_nil).
    apply bind_os; try events. intros [chunk| | | |]; cbn beta iota.
    + pose proof (append_output_bounded output chunk _ Ho) as Hc.
      destruct (append_output output chunk MAX_COMMAND_OUTPUT_BYTES) as [out [[]|x|]].
      * apply emits_done. split; [done|]. split; [done|apply Hlive].
      * apply (stop_does n child [_; _]); [done..|left; apply Hlive].
      * apply (stop_does n child [_; _]); [done..|left; apply Hlive].
    + apply (stop_does n child [_; _]); [done..|left; apply Hlive].
    + apply emits_done. split; [done|]. split; [done|apply Hlive].
    + apply (collected_iteration_does n child [_; _] leased output TimedOut); [apply Hlive|done|by split; [apply live_nil|]].
    + eapply emits_match; [by apply renew_and_poll_does| |].
      * intros [l' state] new _ [Hl Hst]. destruct state.
        -- apply emits_done. split; [done|]. split; [done|]. rewrite app_nil_r.
           apply (live_app [_; _]). split; [apply Hlive|by apply Hst].
        -- apply (stop_does n child ([_; _] ++ new)); [done..|naive_solver].
        -- apply (stop_does n child ([_; _] ++ new)); [done..|naive_solver].
      * intros e new _ _. apply collect_then; [done|]. intros out r new' _ _ Ht. apply emits_lift.
        rewrite app_nil_r. by apply (terminated_app_r child ([_; _] ++ new)).
  - apply collect_then; [done|]. intros out r new _ _ Ht. apply emits_lift.
    rewrite app_nil_r. by apply (terminated_app_r child [_]).
Qed.

Lemma command_loop_does n d child leased :
  emits allowed n quiet (terminated child) (exec_loop (command_iteration d child) (leased, EmptyString))
    (fun '(leased', e) new => same_request leased leased' /\ execution_ok e new /\ terminated child new).
Proof.
  apply (emits_loop allowed n quiet _ _ _
           (fun '(l, out) done => same_request leased l /\ bounded_output out /\ live done)).
  - intros m [l out] before Hm (Hl & Hout & Hlive).
    eapply emits_weaken; [by apply command_iteration_does|done|..].
    + intros new _ Ht. by apply terminated_app_r.
    + intros [[l' out']|[l' e]] new _ Hn; cbn in *.
      * destruct Hn as (Hl' & Hout' & Hlive'). split; [by etrans|]. split; [done|by apply live_app].
      * destruct Hn as (Hl' & He & Ht). split; [by etrans|].
        split; [by apply execution_ok_app|by apply terminated_app_r].
  - split; [done|]. split; [done|apply live_nil].
Qed.
End parts.

(** ** What is prepared for an effect, and what is stored of it

    The project root, the commands and connector steps the daemon accepts, the
    environment of a child, the identity of a worktree, the evidence that is
    retained and the checkpoints that are saved. *)

(** ** Accepted commands and connector steps *)

Definition outside (root path : string) : Prop := path_starts_with path root = false.

(** [P] of the value of a check that did not reject. *)
Definition accepts {A} (P : A -> list Observed -> Prop) (r : res CommandRejection A) (new : list Observed) : Prop :=
  match r with Ok a => P a new | _ => True end.

(** A git command of the allowlist, run as [child_args] for a step that declares
    that it only reads. *)
Definition accepted_command (definition : FlowDefinition) (effect : EffectAttempt) (child_args : list string) : Prop :=
  exists step args working_directory,
    effect_step definition effect = Some step
    /\ fs_action step = Command "git" args working_directory
    /\ fs_effect step = ReadOnly /\ ea_effect effect = ReadOnly /\ fs_approval step = ModeNone
    /\ validate_git_semantic_role args (semantic_role step) (fd_schema_version definition) = Ok tt
    /\ validated_git_args args = Ok child_args.

(** A read-only connector step. *)
Definition accepted_connector (definition : FlowDefinition) (effect : EffectAttempt)
    (prepared : PreparedConnectorStep) : Prop :=
  exists step resource,
    effect_step definition effect = Some step
    /\ fs_action step = Connector (ps_connector prepared) (ps_capability prepared) resource
    /\ cr_kind resource = ps_resource_kind prepared /\ cr_id resource = ps_resource_id prepared
    /\ ea_effect effect = ReadOnly /\ fs_effect step = ReadOnly.

Definition accepted_effect (root : string) (definition : FlowDefinition) (effect : EffectAttempt)
    (prepared : PreparedEffect) : Prop :=
  match prepared with
  | PreparedCommandEffect command =>
    accepted_command definition effect (pc_args command) /\ outside root (pc_program command)
    /\ path_starts_with (pc_working_directory command) root = true /\ pc_execution_root command = root
  | PreparedConnectorEffect step => accepted_connector definition effect step
  end.

Lemma command_args_accepts definition step effect program args child_args working_directory :
  effect_step definition effect = Some step ->
  fs_action step = Command program args working_directory ->
  command_args definition step effect program args = Ok child_args ->
  declared_effect definition effect -> accepted_command definition effect child_args.
Proof.
  intros Hstep Haction Hargs (declared & Hdeclared & Hkind). unfold command_args in Hargs. case_match eqn:Hc; [|done].
  rewrite !andb_true_iff, String.eqb_eq, !bool_decide_eq_true in Hc. destruct Hc as [[-> He] Ha].
  destruct (validate_git_semantic_role _ _ _) as [[]|e|] eqn:Hrole; [|done..].
  assert (declared = step) as ->.
  { unfold effect_step in Hstep. rewrite Hdeclared in Hstep. cbn in Hstep. case_match; [|done]. by injection Hstep. }
  exists step, args, working_directory. by rewrite <-Hkind.
Qed.

(** ** Environments *)

Lemma set_variables_in pairs e k v :
  set_variables pairs e !! k = Some v -> In (k, v) pairs \/ e !! k = Some v.
Proof.
  unfold set_variables. revert e. induction pairs as [|[a b] pairs IH]; intros e Hk; [by right|].
  cbn in Hk. apply IH in Hk as [?|Hk]; [by left; right|].
  apply lookup_insert_Some in Hk as [[-> ->]|[_ ?]]; [by left; left|by right].
Qed.

Lemma set_variables_other pairs e k :
  k ∉ pairs.*1 -> set_variables pairs e !! k = e !! k.
Proof.
  unfold set_variables. revert e. induction pairs as [|[a b] pairs IH]; intros e Hk; [done|].
  cbn in *. apply not_elem_of_cons in Hk as [Hne Hk]. rewrite IH by done. by apply lookup_insert_ne.
Qed.

Lemma set_variables_lookup pairs e k v :
  NoDup pairs.*1 -> In (k, v) pairs -> set_variables pairs e !! k = Some v.
Proof.
  unfold set_variables. revert e. induction pairs as [|[a b] pairs IH]; intros e Hnd Hin; [done|].
  cbn in *. apply NoDup_cons in Hnd as [Ha Hnd]. destruct Hin as [[= -> ->]|Hin]; [|by apply IH].
  change (set_variables pairs (<[k:=v]> e) !! k = Some v).
  rewrite set_variables_other by done. apply lookup_insert_eq.
Qed.

Lemma fixed_environment_names : NoDup fixed_environment.*1 /\ "PATH"%string ∉ fixed_environment.*1.
Proof. split; apply (bool_decide_unpack _); vm_compute; exact I. Qed.

Section prepare.
Context `{Sha256} `{FlowCodec}.
Context (allowed : Observed -> list Observed -> Prop).
Context (harmless_allowed : forall o tr, harmless o -> allowed o tr).

Abbreviation does K n m Q := (emits allowed n K anyway m Q).
Abbreviation asks n m Q := (emits allowed n asks_os anyway m Q).

Lemma ck_bind_asks {A B} n (m : Checked A) (k : A -> Checked B) P Q :
  asks n m (accepts P) ->
  (forall a new, P a new -> asks n (k a) (accepts (fun b new' => Q b (new ++ new')))) ->
  asks n (ck_bind m k) (accepts Q).
Proof.
  intros Hm Hk. eapply emits_bind; [exact Hm|]. intros [a|e|] new _ Ha.
  - by apply Hk.
  - by apply emits_done.
  - by apply emits_lift.
Qed.

Lemma reject_asks {A} n (r : res CommandRejection A) (P : A -> list Observed -> Prop) :
  (forall a, r = Ok a -> P a []) -> asks n (reject r) (accepts P).
Proof. intros HP. apply emits_done. destruct r; cbn; auto. Qed.

Lemma find_executable_asks n program root directories :
  asks n (find_executable program root directories) (accepts (fun path _ => outside root path)).
Proof.
  induction directories as [|directory rest IH]; [by apply emits_done|]. cbn [find_executable].
  destruct (negb (is_absolute directory)); [done|]. apply bind_os; try events. intros [candidate|]; [|exact IH].
  apply bind_os; try events. intros is_file. case_match eqn:Hc; [|exact IH].
  apply andb_true_iff in Hc as [_ Hc]. apply emits_done. by apply negb_true_iff.
Qed.

Lemma resolve_executable_asks n program root :
  asks n (resolve_executable program root) (accepts (fun path _ => outside root path)).
Proof.
  apply bind_os; try events. intros [inherited|]; [apply find_executable_asks|by apply emits_done].
Qed.

Lemma canonical_working_directory_asks n root relative :
  asks n (canonical_working_directory root relative)
    (accepts (fun path _ => path_starts_with path root = true)).
Proof.
  unfold canonical_working_directory. case_match; [by apply emits_done|].
  apply bind_os; try events. intros [canonical|]; [|by apply emits_done].
  apply bind_os; try events. intros is_dir. case_match eqn:Hc; apply emits_done; [|done].
  by apply andb_true_iff in Hc as [_ Hc].
Qed.

Lemma prepare_effect_asks n root definition effect :
  asks n (prepare_effect root definition effect)
    (accepts (fun prepared _ => declared_effect definition effect -> accepted_effect root definition effect prepared)).
Proof.
  unfold prepare_effect. destruct (effect_step definition effect) as [step|] eqn:Hstep; [|by apply emits_done].
  destruct (fs_action step) as [program args working_directory|connector capability resource] eqn:Haction.
  - eapply (ck_bind_asks n _ _ (fun command _ => declared_effect definition effect ->
           accepted_effect root definition effect (PreparedCommandEffect command)));
      [|intros command new Hc; by apply emits_done].
    unfold prepare_command. rewrite Hstep, Haction.
    eapply ck_bind_asks; [apply canonical_working_directory_asks|]. intros wd new1 Hwd.
    eapply ck_bind_asks; [apply (reject_asks n _ (fun args' _ => command_args definition step effect program args = Ok args')); auto|].
    intros args' new2 Hargs. eapply ck_bind_asks; [apply resolve_executable_asks|].
    intros path new3 Hpath. apply emits_done. intros Hdeclared. cbn. split; [|done]. by eapply command_args_accepts.
  - case_match eqn:Hc; [by apply emits_done|]. apply emits_done. cbn.
    rewrite orb_false_iff, !negb_false_iff, !bool_decide_eq_true in Hc. destruct Hc. by exists step, resource.
Qed.

Lemma verify_flow_project_root_asks n root project :
  asks n (verify_flow_project_root root project) (fun _ _ => True).
Proof.
  unfold verify_flow_project_root. repeat (case_match || (apply bind_os; try events; intros ?) || apply emits_done); done.
Qed.

(** The worktree is still the one that was fingerprinted. *)
Definition pinned (authority : WorkspaceAuthority) (new : list Observed) : Prop :=
  exists root git,
    SawSymlinkMetadata (canonical_root authority) (Some root) ∈ new
    /\ SawSymlinkMetadata (path_join (canonical_root authority) ".git") (Some git) ∈ new
    /\ md_is_symlink root = false /\ md_is_symlink git = false
    /\ md_identity root = root_identity authority /\ md_identity git = git_identity authority.

Lemma verify_path_identity_asks n authority :
  asks n (verify_path_identity authority) (fun b new => b = true -> pinned authority new).
Proof.
  apply bind_os; try events. intros [root|]; [|by apply emits_done].
  apply bind_os; try events. intros [git|]; [|by apply emits_done]. apply emits_done.
  rewrite negb_true_iff, !orb_false_iff, !negb_false_iff, !bool_decide_eq_true.
  intros (((((Hr & Hg) & _) & _) & Hri) & Hgi). exists root, git. cbn. set_solver.
Qed.

(** ** The environment of a child *)

(** A search path of directories outside the project, unless there is none or
    a directory cannot be written into one. *)
Definition safe_path_of (root : string) (path : option string) (new : list Observed) : Prop :=
  (exists paths, path = Some (str_join ":" paths) /\ Forall (outside root) paths)
  \/ SawSearchPath None ∈ new
  \/ exists path canonical, SawCanonicalize path (Some canonical) ∈ new /\ str_contains ":" canonical = true.

Definition safe_environment (root : string) (environment : gmap string string) (new : list Observed) : Prop :=
  (forall name value, environment !! name = Some value ->
     safe_environment_name name = true \/ In (name, value) fixed_environment)
  /\ (forall name value, In (name, value) fixed_environment -> environment !! name = Some value)
  /\ safe_path_of root (environment !! "PATH") new.

Lemma safe_directories_asks n root directories :
  asks n (safe_directories root directories) (fun paths new => Forall (outside root) paths /\
    forall path, path ∈ paths -> exists directory, SawCanonicalize directory (Some path) ∈ new).
Proof.
  induction directories as [|directory rest IH].
  { apply emits_done. split; [constructor|]. intros path Hp. by apply elem_of_nil in Hp. }
  cbn [safe_directories]. destruct (negb (is_absolute directory)); [done|].
  apply bind_os; try events. intros [canonical|].
  2:{ eapply emits_weaken; [exact IH|done|done|]. intros paths new _ [Ho Hs]. split; [done|].
      intros path Hp. destruct (Hs path Hp) as [d Hd]. exists d. set_solver. }
  apply bind_os; try events. intros is_dir. eapply bind_does; [exact IH|done|events|].
  intros paths new _ [Ho Hs]. apply emits_done. rewrite app_nil_r.
  case_match eqn:Hc.
  - apply andb_true_iff in Hc as [_ Hc]. apply negb_true_iff in Hc. split; [by constructor|].
    intros path Hp. apply elem_of_cons in Hp as [->|Hp]; [exists directory; set_solver|].
    destruct (Hs path Hp) as [d Hd]. exists d. set_solver.
  - split; [done|]. intros path Hp. destruct (Hs path Hp) as [d Hd]. exists d. set_solver.
Qed.

Lemma safe_search_path_asks n root :
  asks n (safe_search_path root)
    (fun path new => safe_path_of root path new /\ forall p, path = Some p -> safe_path_of root (Some p) []).
Proof.
  apply bind_os; try events. intros [inherited|].
  2:{ apply emits_done. split; [|done]. right. left. set_solver. }
  eapply bind_does; [apply safe_directories_asks|done|events|]. intros paths new _ [Ho Hs].
  apply emits_done. rewrite app_nil_r. unfold join_paths. case_match eqn:Hc.
  - split; [|done]. right. right. apply existsb_exists in Hc as (path & Hp & Hcolon).
    apply list_elem_of_In in Hp. destruct (Hs path Hp) as [d Hd]. exists d, path. set_solver.
  - split; [|intros p [= <-]]; left; by exists paths.
Qed.

Lemma apply_safe_environment_asks n root :
  asks n (apply_safe_environment root) (fun environment new => safe_environment root environment new).
Proof.
  destruct fixed_environment_names as [Hnames Hpath].
  apply bind_os; try events. intros inherited.
  eapply bind_does; [apply safe_search_path_asks|done|events|]. intros path new _ [Hsafe Hsome].
  apply emits_done. rewrite app_nil_r. split; [|split].
  - intros name value Hv. apply set_variables_in in Hv as [?|Hv]; [by right|left].
    destruct path as [path|]; [apply lookup_insert_Some in Hv as [[<- _]|[_ Hv]]; [done|]|];
      (apply set_variables_in in Hv as [Hv|Hv]; [|by rewrite lookup_empty in Hv];
       by apply filter_In in Hv as [_ Hv]).
  - intros name value Hv. by apply set_variables_lookup.
  - rewrite set_variables_other by done. destruct path as [path|].
    + rewrite lookup_insert_eq. destruct (Hsome path eq_refl) as [?|Hn]; [by left|set_solver].
    + destruct Hsafe as [[paths [? _]]|[Hn|(p & c & Hn & Hc)]]; [done|..]; right; [left|right; exists p, c]; set_solver.
Qed.

End prepare.
