(* ===== verification/ExecSave.v ===== *)
(** * What the executor stores

    Retained evidence and saved checkpoints. An update of the run is saved
    before it is acted on; an update that loses against a cancellation is
    replaced by the cancelled one, after which nothing is executed. *)

From ITree Require Import Core.ITreeDefinition.
From S2P Require Import Prelude Core Policy Redact FlowDef FlowData FlowSnapshot FlowEngine Paths Protocol.
From S2P Require Import ProtocolRequest ProtocolCodec FlowOperation StoreDef StoreFlow StoreQueue StoreAuth Exec.
From S2P Require Import FlowCommand FlowExecute FlowProcess ExecLogic ExecSpec ExecParts.

Local Open Scope Z_scope.

(** ** Evidence *)

(** Evidence is kept for the project of the request under the digest of its
    bytes, and what a command printed is bounded. *)
Definition evidence_ok `{Sha256} (project : ProjectId) (put : PutEvidence) : Prop :=
  pe_project_id put = project
  /\ (exists kind, (kind = "flow-output" \/ kind = "connector-output")%string
        /\ handle_parse ("evidence://" +:+ kind +:+ "/" +:+ sha256_hex (from_sha256 (sha256 (pe_bytes put))))
           = Ok (pe_handle put))
  /\ (pe_media_type put = COMMAND_OUTPUT_MEDIA_TYPE -> bounded_output (pe_bytes put)).

(** Evidence is stored and nothing else but questions. *)
Definition retains (o : Observed) : Prop :=
  match o with SawPutEvidence _ _ _ => True | _ => asks_os o end.

Lemma asks_os_retains o : asks_os o -> retains o.
Proof. destruct o; cbn; tauto. Qed.

Lemma retains_live tr : Forall retains tr -> live tr.
Proof. unfold live. intros Hos. eapply Forall_impl; [exact Hos|]. intros [] Ho; cbn in *; tauto. Qed.

Section evidence.
Context `{Sha256} `{FlowCodec}.
Context (allowed : Observed -> list Observed -> Prop) (project : ProjectId).
Context (harmless_allowed : forall o tr, harmless o -> allowed o tr).
Context (evidence_allowed : forall put now answer tr, evidence_ok project put -> allowed (SawPutEvidence put now answer) tr).

Abbreviation keeps n m := (emits allowed n retains anyway m (fun _ _ => True)).

Lemma keeps_bind {A B} n (m : Exec A) (k : A -> Exec B) :
  keeps n m -> (forall a, keeps n (k a)) -> keeps n (exec_bind m k).
Proof. intros Hm Hk. eapply emits_bind; [exact Hm|]. intros a new _ _. apply Hk. Qed.

Lemma keeps_lift {A} n (r : sres A) : keeps n (exec_lift r).
Proof. apply emits_lift. by destruct r. Qed.

Lemma retain_bytes_keeps n kind media invalid leased bytes :
  (kind = "flow-output" \/ kind = "connector-output")%string ->
  (media = COMMAND_OUTPUT_MEDIA_TYPE -> bounded_output bytes) ->
  le_project_id (lr_lease leased) = project ->
  keeps n (retain_bytes kind media invalid leased bytes).
Proof.
  intros Hkind Hmedia Hproject. apply emits_bind_lift; [|done]. intros handle Hh.
  destruct (handle_parse _) as [h|e|] eqn:Hparse in Hh; [|done..]. injection Hh as ->. apply bind_os; try events. intros now. apply keeps_bind; [|intros; apply keeps_lift].
  apply emits_os_res; [|done|by intros []]. intros a tr. apply evidence_allowed. split; [done|].
  split; [by exists kind|done].
Qed.

Lemma retain_output_keeps n leased output :
  le_project_id (lr_lease leased) = project -> bounded_output output -> keeps n (retain_output leased output).
Proof. intros Hp Ho. unfold retain_output. apply retain_bytes_keeps; [left; reflexivity|intros _; exact Ho|exact Hp]. Qed.

Lemma retain_connector_evidence_keeps n leased payload :
  le_project_id (lr_lease leased) = project -> keeps n (retain_connector_evidence leased payload).
Proof. intros Hp. unfold retain_connector_evidence. apply retain_bytes_keeps; [right; reflexivity|intros Hm; discriminate Hm|exact Hp]. Qed.

Lemma retain_command_result_keeps n leased status output retryable :
  le_project_id (lr_lease leased) = project -> bounded_output output ->
  keeps n (retain_command_result leased status output retryable).
Proof. intros Hp Ho. apply keeps_bind; [by apply retain_output_keeps|intros; apply keeps_lift]. Qed.

Lemma retain_failed_command_result_keeps n leased summary retryable output :
  le_project_id (lr_lease leased) = project -> bounded_output output ->
  keeps n (retain_failed_command_result leased summary retryable output).
Proof. intros Hp Ho. apply keeps_bind; [by apply retain_output_keeps|intros; apply keeps_lift]. Qed.

Lemma failed_connector_outcome_keeps n summary retryable :
  emits allowed n retains anyway (failed_connector_outcome summary retryable)
    (fun outcome _ => exists result, outcome = StepResult result).
Proof. eapply emits_bind; [apply keeps_lift|]. intros result new _ _. apply emits_done. by eexists. Qed.

Lemma retain_payloads_keeps n leased payloads evidence :
  le_project_id (lr_lease leased) = project -> keeps n (retain_payloads leased payloads evidence).
Proof.
  intros Hp. revert evidence. induction payloads as [|payload rest IH]; intros evidence; [by apply emits_done|].
  apply keeps_bind; [by apply retain_connector_evidence_keeps|intros handle; apply IH].
Qed.

Lemma connector_success_keeps n leased success :
  le_project_id (lr_lease leased) = project ->
  emits allowed n retains anyway (connector_success leased success)
    (fun outcome _ => exists result, outcome = StepResult result).
Proof.
  intros Hp. eapply emits_bind; [by apply retain_payloads_keeps|]. intros evidence new _ _.
  eapply emits_bind; [apply keeps_lift|]. intros result new' _ _. apply emits_done. by eexists.
Qed.

End evidence.

(** ** Checkpoints *)

Section checkpoints.
Context `{Sha256} `{FlowCodec} `{WireCodec} `{TomlParser}.
Context (allowed : Observed -> list Observed -> Prop).
Context (harmless_allowed : forall o tr, harmless o -> allowed o tr).

Abbreviation saves n m Q := (emits allowed n harmless anyway m Q).

(** The events of saving [update]. *)
Definition persisted (leased : LeasedRequest) (update : EngineUpdate) (new : list Observed) : Prop :=
  exists now save outcome,
    new = [SawNow now; SawSaveCheckpoint save (Ok outcome)]
    /\ sv_lease save = lr_lease leased /\ sv_snapshot save = up_snapshot update
    /\ sv_transition save = up_transition update.

Lemma persisted_live leased update new : persisted leased update new -> live new.
Proof. intros (now & save & outcome & -> & _). rewrite !live_cons. cbn. auto using live_nil. Qed.

Lemma persist_update_saves n leased revision update :
  saves n (persist_update leased revision update)
    (fun '(decision, _, _) new => decision = up_decision update /\ persisted leased update new).
Proof.
  apply emits_bind_lift; [|done]. intros terminal _. apply bind_os; try events. intros now. apply bind_store; try events.
  intros outcome s _. apply emits_done. split; [done|]. by do 3 eexists.
Qed.

Lemma engine_saves {A} n (m : M A) run (P : A -> Prop) :
  returns_at run P m ->
  saves n (engine m run) (fun '(run', a) new => new = [] /\ fr_definition run' = fr_definition run /\ P a).
Proof.
  intros HP. unfold engine. destruct (m run) as [run' [a|e|]] eqn:Hm; [|by apply emits_lift..].
  apply emits_done. split; [done|]. by apply HP in Hm.
Qed.

Lemma resume_definition run_id definition snapshot run :
  resume run_id definition snapshot = Ok run -> fr_definition run = definition.
Proof.
  unfold resume. destruct (from_validation (definition_validate _)) as [[]|e|]; [|done..]. cbn.
  case_match; [done|]. destruct (from_validation (normalized_digest _)) as [digest|e|]; [|done..]. cbn.
  case_match; [done|]. destruct (if _ =? 1 then _ else _) as [snap|e|]; [|done..]. cbn.
  destruct (validate_snapshot _ _) as [[]|e|]; [|done..]. by intros [= <-].
Qed.

(** The update was saved, or the run was cancelled instead. *)
Definition settled (leased : LeasedRequest) (P : EngineUpdate -> Prop) (decision : RunDecision)
    (new : list Observed) : Prop :=
  (exists update, P update /\ decision = up_decision update /\ persisted leased update new)
  \/ closing decision.

Lemma cancelled_update_saves n leased revision run (P : EngineUpdate -> Prop) :
  saves n
    (await! (run, cancelled) := engine FlowEngine.cancel run in
     await! saved := persist_update leased revision cancelled in
     done (run, saved))
    (fun '(run', (decision, _, _)) _ => fr_definition run' = fr_definition run /\ closing decision).
Proof.
  eapply emits_bind; [apply engine_saves, cancel_returns|]. intros [run' update] new _ (-> & Hd & Hc).
  eapply emits_bind; [apply persist_update_saves|]. intros [[decision rev] t] new _ [-> _]. by apply emits_done.
Qed.

Lemma persist_reconciling_saves n leased revision run previous update P :
  (P update : Prop) ->
  saves n (persist_update_reconciling_cancellation leased revision run previous update)
    (fun '(run', (decision, _, _)) new =>
       fr_definition run' = fr_definition run /\ settled leased P decision new).
Proof.
  intros HP. eapply emits_match; [apply persist_update_saves|..].
  - intros [[decision rev] t] new _ [-> Hp]. apply emits_done. rewrite app_nil_r. split; [done|]. left. by exists update.
  - intros e new _ _. case_match; [|by apply emits_lift].
    eapply bind_does; [by apply request_is_cancelled_does|apply quiet_harmless|events|].
    intros [] new1 _ _; [|by apply emits_lift]. cbn [negb].
    apply emits_bind_lift; [|done]. intros run1 Hr.
    eapply emits_weaken; [by apply cancelled_update_saves|done|done|].
    intros [run' [[decision rev] t]] new3 _ [Hd Hc]. split; [|by right]. rewrite Hd.
    destruct (resume _ _ _) as [r|e2|] eqn:Hres; [|done..]. cbn in Hr. injection Hr as <-.
    by apply resume_definition in Hres.
Qed.

Lemma persist_call_saves n l call P :
  returns_at (lp_run l) P call ->
  saves n (persist_call l call)
    (fun '(run', (decision, _, _)) new =>
       fr_definition run' = fr_definition (lp_run l) /\ settled (lp_leased l) P decision new).
Proof.
  intros HP. eapply emits_bind; [by apply engine_saves|]. intros [run update] new _ (-> & Hd & Hu).
  eapply emits_weaken; [by apply (persist_reconciling_saves n _ _ _ _ _ P)|done|done|].
  intros [run' [[decision rev] t]] new _ [Hd' Hs]. by rewrite Hd'.
Qed.

(** The decision of [l] ends the execution. *)
Definition is_closing (l : Loop) : Prop :=
  exists decision terminal, lp_pending l = Some (decision, terminal) /\ closing decision.

Definition same_loop (l l' : Loop) : Prop :=
  lp_leased l' = lp_leased l /\ fr_definition (lp_run l') = fr_definition (lp_run l).

Lemma cancel_run_saves n l :
  saves n (cancel_run l) (fun l' _ => same_loop l l' /\ is_closing l').
Proof.
  eapply emits_bind; [apply engine_saves, cancel_returns|]. intros [run update] new _ (-> & Hd & Hc).
  eapply emits_bind; [apply persist_update_saves|]. intros [[decision rev] t] new _ [-> _].
  apply emits_done. split; [done|]. by do 2 eexists.
Qed.

Lemma settle_saves n l call P :
  returns_at (lp_run l) P call ->
  saves n (settle l call) (fun l' new => same_loop l l' /\
    ((live new /\ exists update terminal, P update /\ lp_pending l' = Some (up_decision update, terminal))
     \/ is_closing l')).
Proof.
  intros HP. eapply emits_bind; [by apply persist_call_saves|]. intros [run [[decision rev] t]] new _ [Hd Hs].
  apply emits_done. rewrite app_nil_r. split; [done|]. destruct Hs as [(update & Hu & -> & Hp)|Hc].
  - left. split; [by eapply persisted_live|]. by exists update, t.
  - right. by do 2 eexists.
Qed.

Lemma unknown_reconciliation_saves n l effect evidence summary :
  saves n (unknown_reconciliation l effect evidence summary) (fun l' _ => same_loop l l' /\ is_closing l').
Proof.
  apply emits_bind_lift; [|done]. intros report _. apply bind_os; try events. intros now.
  eapply emits_weaken; [by apply settle_saves, unknown_returns|done|done|].
  intros l' new' _ [Hs [[_ (update & t & Hc & Hp)]|Hc]]; [|done]. split; [done|]. by exists (up_decision update), t.
Qed.

End checkpoints.

(** ** Walking through the executor

    The parts of the executor are described by the events they add; the
    executor itself is followed with the whole trace at hand, because what an
    effect needs is a property of everything that happened before it. At every
    point where no child runs, every child that was spawned has been
    terminated and waited for. *)

(** Every child that was started for a command has since been terminated and
    then waited for. *)
Definition reaped (tr : list Observed) : Prop :=
  forall before child id after, tr = before ++ SawSpawn child (Some id) :: after -> terminated id after.

Definition no_spawn (o : Observed) : Prop := match o with SawSpawn _ _ => False | _ => True end.

Lemma harmless_no_spawn o : harmless o -> no_spawn o.
Proof. by destruct o. Qed.
Lemma quiet_no_spawn o : quiet o -> no_spawn o.
Proof. by destruct o. Qed.
Lemma asks_os_no_spawn o : asks_os o -> no_spawn o.
Proof. by destruct o. Qed.

Lemma reaped_nil : reaped [].
Proof. by intros [] ????. Qed.

Lemma reaped_app tr new : reaped tr -> Forall no_spawn new -> reaped (tr ++ new).
Proof.
  intros Htr Hnew before child id after Heq. apply app_eq_app in Heq as (mid & [[-> Hmid]|[-> Hmid]]).
  - destruct mid as [|o mid].
    + cbn in Hmid. rewrite <-Hmid in Hnew. apply Forall_cons_1 in Hnew as [[] _].
    + injection Hmid as <- ->. apply terminated_app_l, (Htr before child id mid eq_refl).
  - rewrite Hmid in Hnew. rewrite Forall_app, Forall_cons in Hnew. by destruct Hnew as (_ & [] & _).
Qed.

(** A child that was started and terminated. *)
Lemma reaped_child tr child id new :
  reaped tr -> Forall no_spawn new -> terminated id new -> reaped (tr ++ SawSpawn child (Some id) :: new).
Proof.
  intros Htr Hnew Ht before child' id' after Heq.
  apply app_eq_app in Heq as (mid & [[-> Hmid]|[-> Hmid]]).
  - destruct mid as [|o mid].
    + injection Hmid as <- <- <-. exact Ht.
    + injection Hmid as <- ->. apply terminated_app_l, (Htr before child' id' mid eq_refl).
  - destruct mid as [|o mid]; [by injection Hmid as <- <- <-|]. injection Hmid as <- ->.
    rewrite Forall_app, Forall_cons in Hnew. by destruct Hnew as (_ & [] & _).
Qed.

Lemma reaped_failed_spawn tr child : reaped tr -> reaped (tr ++ [SawSpawn child None]).
Proof.
  intros Htr before child' id after Heq. destruct after as [|o after _] using rev_ind.
  - by apply app_inj_tail in Heq as [_ [=]].
  - rewrite app_comm_cons, app_assoc in Heq. apply app_inj_tail in Heq as [-> _].
    apply terminated_app_l, (Htr before child' id after eq_refl).
Qed.

Section walk.
Context `{Sha256} `{FlowCodec}.
Context (allowed : Observed -> list Observed -> Prop).
Context (harmless_allowed : forall o tr, harmless o -> allowed o tr).

(** From the trace [tr], [m] only causes allowed events, and it ends with
    [Q] and without a running child; a panic unwinds and is not followed. *)
Definition walk {X A} (n : nat) (m : Task X A) (Q : A -> list Observed -> Prop) (tr : list Observed) : Prop :=
  safe (needs allowed) happens n m
    (fun r tr' => match r with Ok a => reaped tr' /\ Q a tr' | Err _ => reaped tr' | Panic => True end) tr.

Lemma walk_weaken {X A} n (m : Task X A) (Q Q' : A -> list Observed -> Prop) tr :
  walk n m Q tr -> (forall a tr', Q a tr' -> Q' a tr') -> walk n m Q' tr.
Proof. intros Hm HQ. eapply safe_post; [exact Hm|]. intros [a|e|] tr' Hr; [destruct Hr; auto|done..]. Qed.

Lemma walk_done {X A} n (a : A) (Q : A -> list Observed -> Prop) tr :
  reaped tr -> Q a tr -> walk n (done a : Task X A) Q tr.
Proof. intros Hr HQ. by apply safe_ret. Qed.

Lemma walk_err {X A} n (e : X) (Q : A -> list Observed -> Prop) tr :
  reaped tr -> walk n (exec_err e : Task X A) Q tr.
Proof. intros Hr. by apply safe_ret. Qed.

Lemma walk_panic {X A} n (Q : A -> list Observed -> Prop) tr : walk n (exec_lift Panic : Task X A) Q tr.
Proof. by apply safe_ret. Qed.

Lemma walk_bind {X A B} n (m : Task X A) (k : A -> Task X B) Q1 Q tr :
  walk n m Q1 tr -> (forall a tr', reaped tr' -> Q1 a tr' -> walk n (k a) Q tr') ->
  walk n (exec_bind m k) Q tr.
Proof.
  intros Hm Hk. apply safe_bind. eapply safe_post; [exact Hm|].
  intros [a|e|] tr' Hr; [destruct Hr; by apply Hk|by apply safe_ret..].
Qed.

Lemma walk_match {X Y A B} n (m : Task X A) (k : A -> Task Y B) h Q1 Q tr :
  walk n m Q1 tr -> (forall a tr', reaped tr' -> Q1 a tr' -> walk n (k a) Q tr') ->
  (forall e tr', reaped tr' -> walk n (h e) Q tr') ->
  walk n (exec_match m k h) Q tr.
Proof.
  intros Hm Hk Hh. apply safe_bind. eapply safe_post; [exact Hm|].
  intros [a|e|] tr' Hr; [destruct Hr; by apply Hk|by apply Hh|by apply safe_ret].
Qed.

(** A part whose events are described. *)
Lemma walk_part {X A} n K (m : Task X A) Q1 (Q : A -> list Observed -> Prop) tr :
  reaped tr -> emits allowed n K anyway m Q1 -> (forall o, K o -> no_spawn o) ->
  (forall a new, Forall K new -> Q1 a new -> Q a (tr ++ new)) -> walk n m Q tr.
Proof.
  intros Htr Hm HK HQ. eapply safe_post; [apply Hm|]. intros r tr' (new & -> & Hnew & Hr).
  assert (reaped (tr ++ new)) by (apply reaped_app; [done|by eapply Forall_impl]).
  destruct r; [|done..]. split; [done|]. by apply HQ.
Qed.

Lemma walk_bind_part {X A B} n K (m : Task X A) (k : A -> Task X B) Q1 Q tr :
  reaped tr -> emits allowed n K anyway m Q1 -> (forall o, K o -> no_spawn o) ->
  (forall a new, Forall K new -> Q1 a new -> reaped (tr ++ new) -> walk n (k a) Q (tr ++ new)) ->
  walk n (exec_bind m k) Q tr.
Proof.
  intros Htr Hm HK Hk.
  apply (walk_bind n m k (fun a tr' => exists new, tr' = tr ++ new /\ Forall K new /\ Q1 a new)).
  - eapply walk_part; [done|exact Hm|done|]. intros a new Hnew Ha. by exists new.
  - intros a tr' Hr (new & -> & Hnew & Ha). by apply Hk.
Qed.

Lemma walk_bind_lift {X A B} n (r : res X A) (k : A -> Task X B) Q tr :
  reaped tr -> (forall a, r = Ok a -> walk n (k a) Q tr) -> walk n (exec_bind (exec_lift r) k) Q tr.
Proof. intros Htr Hk. apply safe_bind, safe_ret. destruct r; [by apply Hk|by apply safe_ret..]. Qed.

(** A question to the operating system. *)
Lemma walk_bind_os {X A B} n (e : OsE A) (k : A -> Task X B) Q tr :
  reaped tr -> (forall a, allowed (os_observed e a) tr) ->
  (forall a, walk n (k a) Q (tr ++ [os_observed e a])) -> walk n (exec_bind (os e) k) Q tr.
Proof.
  intros Htr Ha Hk. apply safe_bind, safe_bind, safe_trigger; [exact Ha|].
  intros a w [_ ->]. apply safe_ret. apply Hk.
Qed.

Lemma walk_loop {X I A} n (body : I -> Task X (I + A)) i (J : I -> list Observed -> Prop) (Q : A -> list Observed -> Prop) tr :
  (forall m i tr, (m <= n)%nat -> reaped tr -> J i tr ->
     walk m (body i) (fun next tr' => match next with inl i => J i tr' | inr a => Q a tr' end) tr) ->
  reaped tr -> J i tr -> walk n (exec_loop body i) Q tr.
Proof.
  intros Hbody Htr HJ. apply (safe_iter _ _ n _ (fun i tr' => reaped tr' /\ J i tr')); [|done].
  intros m j w Hm [Hw Hj]. apply safe_bind. eapply safe_post; [by apply (Hbody m j w)|].
  intros [[j'|a]|e|] w' Hr; apply safe_ret; naive_solver.
Qed.

(** What a walk shows of a task as a whole. *)
Lemma walk_allowed {X A} (m t : Task X A) Q tr before o after :
  (forall n, walk n m Q []) -> runs m tr t -> tr = before ++ o :: after -> allowed o before.
Proof. intros Hm Hr. by eapply runs_allowed. Qed.

Lemma walk_ends {X A} (m t : Task X A) Q tr r :
  (forall n, walk n m Q []) -> runs m tr t -> ITreeDefinition.observe t = RetF r ->
  match r with Ok a => reaped tr /\ Q a tr | Err _ => reaped tr | Panic => True end.
Proof. intros Hm Hr Ho. exact (runs_ends allowed m t tr _ r Hm Hr Ho). Qed.

(** ** Running a command *)

Abbreviation quietly n m Q := (emits allowed n quiet anyway m Q).

Definition child_of (prepared : PreparedCommand) (environment : gmap string string) : ChildProcess :=
  {| ch_program := pc_program prepared; ch_args := pc_args prepared;
     ch_working_directory := pc_working_directory prepared; ch_environment := environment |}.

(** The end of an execution that started at [tr]. *)
Definition execution_ends (leased : LeasedRequest) (tr : list Observed)
    (end_ : LeasedRequest * CommandExecution) (tr' : list Observed) : Prop :=
  same_request leased end_.1 /\ exists new, tr' = tr ++ new /\ execution_ok end_.2 new.

Lemma execute_command_raw_walk n d prepared leased tr :
  reaped tr ->
  (forall environment new answer, Forall asks_os new ->
     safe_environment (pc_execution_root prepared) environment new ->
     allowed (SawSpawn (child_of prepared environment) answer) (tr ++ new)) ->
  walk n (execute_command_raw d prepared leased) (execution_ends leased tr) tr.
Proof.
  intros Htr Hallowed. eapply walk_bind_part; [done|by apply apply_safe_environment_asks|apply asks_os_no_spawn|].
  intros environment new Hnew Henv Hr. apply walk_bind_os; [done|intros a; by apply Hallowed|].
  assert (Hlive : forall a, live (new ++ [SawSpawn (child_of prepared environment) a])).
  { intros a. rewrite live_app, live_cons. split; [by apply asks_os_live|]. cbn. auto using live_nil. }
  intros [child|].
  - eapply safe_post; [by apply command_loop_does|]. intros r tr' (new' & -> & Hnew' & Hend).
    assert (Hreap : terminated child new' ->
      reaped ((tr ++ new) ++ SawSpawn (child_of prepared environment) (Some child) :: new')).
    { intros Ht. apply reaped_child; [done| |done]. eapply Forall_impl; [exact Hnew'|apply quiet_no_spawn]. }
    rewrite <-(app_assoc _ [_] new').
    destruct r as [[leased' e]|e|]; [|by apply Hreap|done]. destruct Hend as (Hl & He & Ht).
    split; [by apply Hreap|]. split; [done|].
    exists ((new ++ [SawSpawn (child_of prepared environment) (Some child)]) ++ new').
    split; [by rewrite <-!app_assoc|]. apply execution_ok_app; [apply Hlive|done].
  - apply walk_done; [by apply reaped_failed_spawn|]. split; [done|]. eexists. rewrite <-app_assoc.
    split; [done|]. apply Hlive.
Qed.

(** A fingerprint that was computed while the lease was renewed. *)
Lemma await_fingerprint_does n d root leased :
  quietly n (await_workspace_fingerprint_with_lease d (fingerprint_workspace root) leased)
    (fun '(leased', call) new => same_request leased leased' /\
       match call with
       | CallCompleted r => live new /\ SawPollFingerprint root (Some r) ∈ new
       | _ => True
       end).
Proof.
  eapply emits_weaken.
  - apply (await_does allowed harmless_allowed n d _ leased (fun r last => last = [SawPollFingerprint root r])).
    intros m. apply emits_os; [intros a tr; by apply harmless_allowed|done|]. intros a. split; [|done].
    rewrite live_cons. cbn. auto using live_nil.
  - done.
  - done.
  - intros [l call] new _ [Hl Hcall]. split; [done|]. destruct call as [r| |]; [|done..].
    destruct Hcall as [Hlive (before & last & -> & ->)]. set_solver.
Qed.

Lemma await_end_fingerprint_does n d root leased :
  quietly n (await_workspace_fingerprint_with_lease d (workspace_fingerprint root) leased)
    (fun '(leased', call) new => same_request leased leased' /\
       match call with CallCompleted _ => live new | _ => True end).
Proof.
  eapply emits_weaken.
  - apply (await_does allowed harmless_allowed n d _ leased (fun _ _ => True)).
    intros m. apply bind_os; try events. intros a. apply emits_done. split; [|done].
    rewrite live_cons. cbn. auto using live_nil.
  - done.
  - done.
  - intros [l call] new _ [Hl Hcall]. split; [done|]. destruct call as [r| |]; [|done..]. by destruct Hcall.
Qed.

Lemma safe_environment_app root environment a b :
  safe_environment root environment b -> safe_environment root environment (a ++ b).
Proof.
  intros (Hn & Hf & Hp). split; [done|]. split; [done|].
  destruct Hp as [Hp|[Hp|(p & c & Hp & Hc)]]; [by left|right; left; set_solver|right; right; exists p, c; set_solver].
Qed.

(** [execution_ends] where more was quietly asked in between. *)
Lemma execution_ends_app leased leased' tr new e tr' :
  same_request leased leased' -> live new ->
  execution_ends leased' (tr ++ new) (leased', e) tr' -> execution_ends leased tr (leased', e) tr'.
Proof.
  intros Hl Hnew [_ (new' & -> & He)]. split; [done|]. exists (new ++ new'). rewrite app_assoc. split; [done|].
  by apply execution_ok_app.
Qed.

Lemma execute_command_in_workspace_walk n d prepared authority accepted leased tr :
  reaped tr ->
  (forall environment new answer, Forall asks_os new -> pinned authority new ->
     path_eqb (pc_working_directory prepared) (canonical_root authority) = true ->
     safe_environment (pc_execution_root prepared) environment new ->
     allowed (SawSpawn (child_of prepared environment) answer) (tr ++ new)) ->
  walk n (execute_command_in_workspace d prepared authority accepted leased) (execution_ends leased tr) tr.
Proof.
  intros Htr Hallowed.
  apply (walk_bind_part n asks_os _ _ (fun bound new => bound = true ->
           pinned authority new /\ path_eqb (pc_working_directory prepared) (canonical_root authority) = true));
    [done| |apply asks_os_no_spawn|].
  { destruct (path_eqb _ _); [|by apply emits_done].
    eapply emits_weaken; [by apply verify_path_identity_asks|done|done|]. naive_solver. }
  intros [] new Hnew Hb Hr; cbn [negb].
  2:{ apply walk_done; [done|]. split; [done|]. exists new. split; [done|]. by apply asks_os_live. }
  destruct (Hb eq_refl) as [Hpinned Hpath].
  eapply walk_bind; [apply execute_command_raw_walk; [done|]|].
  { intros environment new' answer Hnew' Henv. rewrite <-app_assoc. apply Hallowed; [by apply Forall_app| |done|].
    - destruct Hpinned as (r & g & ?). exists r, g. set_solver.
    - by apply safe_environment_app. }
  intros [leased1 outcome] tr1 Hr1 [Hl1 (new1 & -> & Ho1)]. cbn [fst snd] in *.
  assert (Hall : execution_ok outcome (new ++ new1)) by (apply execution_ok_app; [by apply asks_os_live|done]).
  destruct outcome as [status output| | | | | | |];
    try (apply walk_done; [done|]; split; [done|]; eexists; rewrite <-app_assoc; done).
  destruct Hall as [Hlive Hout].
  eapply walk_bind_part; [done|by apply verify_path_identity_asks|apply asks_os_no_spawn|].
  intros unchanged new2 Hnew2 _ Hr2. apply asks_os_live in Hnew2. rewrite <-!(app_assoc tr) in Hr2 |- *.
  assert (Hlive2 : live ((new ++ new1) ++ new2)) by (by apply live_app). set (new12 := (new ++ new1) ++ new2) in *.
  destruct unchanged; cbn [negb].
  2:{ apply walk_done; [done|]. split; [done|]. by exists new12. }
  eapply walk_bind_part; [done|by apply await_end_fingerprint_does|apply quiet_no_spawn|].
  intros [leased2 call] new3 _ [Hl2 Hc] Hr3. rewrite <-app_assoc in Hr3 |- *.
  assert (Hl : same_request leased leased2) by by etrans.
  destruct call as [[fingerprint|e|]| |];
    try (apply walk_done; [done|]; split; [done|]; eexists; split; [done|]; try done; by apply live_app).
  eapply (walk_bind_part n asks_os _ _ (fun _ _ => True)); [done| |apply asks_os_no_spawn|].
  { case_match; [|by apply emits_done]. eapply emits_weaken; [by apply verify_path_identity_asks|done..]. }
  intros same new4 Hnew4 _ Hr4. apply walk_done; [done|]. split; [done|]. rewrite <-app_assoc. eexists. split; [done|].
  assert (live ((new12 ++ new3) ++ new4)) by (rewrite !live_app; auto using asks_os_live). by destruct same.
Qed.

End walk.
