(* ===== verification/ExecVetted.v ===== *)
(** * Effects of a flow request

    What every child process, every connector call and every piece of evidence
    of [process_flow] was preceded by, whatever the store and the operating
    system answer. *)

From ITree Require Import Core.ITreeDefinition.
From S2P Require Import Prelude Core Policy Redact Paths FlowDef FlowData FlowSnapshot FlowEngine StoreDef StoreFlow StoreQueue StoreAuth Protocol ProtocolRequest ProtocolCodec FlowOperation Exec ExecLogic FlowCommand FlowExecute FlowProcess ExecSpec ExecParts ExecSave.

Local Open Scope Z_scope.

(** ** What an effect needs *)

(** The last events are the saved start of [effect], [mid], the authorization
    of the effect and [after]. *)
Definition authorized (id : RequestId) (effect : EffectAttempt) (mid after tr : list Observed) : Prop :=
  exists before save outcome lease now,
    tr = before ++ SawSaveCheckpoint save (Ok outcome) :: mid
           ++ SawValidateFlowEffectAuthorization lease now (Ok EffectAllowed) :: after
    /\ starts effect (sv_transition save)
    /\ le_request_id (sv_lease save) = id /\ le_request_id lease = id.

(** A command: it is a command of the stored definition that the daemon
    accepts, and since its start was saved the worktree had the accepted
    fingerprint, the effect was authorized, and the worktree was still the same
    one. *)
Definition vetted_command `{Sha256} `{TomlParser} (leased : LeasedRequest) (child : ChildProcess)
    (tr : list Observed) : Prop :=
  exists definition accepted root effect workspace mid after,
    decode_flow_operation (lr_operation leased) = Some (definition, accepted, root)
    /\ accepted_command definition effect (ch_args child)
    /\ outside root (ch_program child)
    /\ path_starts_with (ch_working_directory child) root = true
    /\ authorized (le_request_id (lr_lease leased)) effect mid after tr
    /\ Forall quiet mid /\ Forall asks_os after
    /\ SawPollFingerprint root (Some (Ok workspace)) ∈ mid /\ fw_fingerprint workspace = accepted
    /\ path_eqb (ch_working_directory child) (canonical_root (fw_authority workspace)) = true
    /\ pinned (fw_authority workspace) after
    /\ safe_environment root (ch_environment child) after.

(** Questions about the call of [step], with the lease renewed meanwhile. *)
Definition calling (step : PreparedConnectorStep) (timeout attempt : Z) (o : Observed) : Prop :=
  match o with
  | SawPollConnectorCall step' timeout' attempt' _ => step' = step /\ timeout' = timeout /\ attempt' = attempt
  | _ => quiet o
  end.

(** A connector call: a read-only step of the stored definition whose start
    was saved and authorized. *)
Definition vetted_call `{Sha256} `{TomlParser} (leased : LeasedRequest) (step : PreparedConnectorStep)
    (timeout attempt : Z) (tr : list Observed) : Prop :=
  exists definition accepted root effect mid after,
    decode_flow_operation (lr_operation leased) = Some (definition, accepted, root)
    /\ accepted_connector definition effect step
    /\ timeout = Z.max (ea_timeout_seconds effect) 1 /\ attempt = Z.max (ea_attempt effect) 1
    /\ authorized (le_request_id (lr_lease leased)) effect mid after tr
    /\ Forall asks_os mid /\ Forall (calling step timeout attempt) after.

Definition effect_allowed `{Sha256} `{TomlParser} (leased : LeasedRequest) (o : Observed) (tr : list Observed)
  : Prop :=
  match o with
  | SawSpawn child _ => live tr /\ vetted_command leased child tr
  | SawPollConnectorCall step timeout attempt _ => live tr /\ vetted_call leased step timeout attempt tr
  | SawPutEvidence put _ _ => evidence_ok (le_project_id (lr_lease leased)) put
  | SawSend _ _ _ _ | SawStartWorker _ _ => False
  | _ => True
  end.

Section vetted.
Context `{Sha256} `{FlowCodec} `{WireCodec} `{TomlParser}.
Context (d : Z) (leased0 : LeasedRequest).
Context (definition : FlowDefinition) (accepted : WorkspaceFingerprint) (root : string).
Context (decoded : decode_flow_operation (lr_operation leased0) = Some (definition, accepted, root)).

Abbreviation allowed := (effect_allowed leased0).
Abbreviation walks n m Q tr := (walk allowed n m Q tr).

Lemma harmless_effect o tr : harmless o -> allowed o tr.
Proof. by destruct o. Qed.
Lemma evidence_effect put now answer tr :
  evidence_ok (le_project_id (lr_lease leased0)) put -> allowed (SawPutEvidence put now answer) tr.
Proof. done. Qed.
#[local] Hint Resolve harmless_effect evidence_effect : core.

(** ** The loop *)

Definition of_request (l : Loop) : Prop :=
  same_request leased0 (lp_leased l) /\ fr_definition (lp_run l) = definition.

(** While the execution is not told to stop it may go on; otherwise its
    pending decision ends it. *)
Definition loop_ok (l : Loop) (tr : list Observed) : Prop :=
  of_request l /\ (live tr \/ is_closing l).

Definition next_ok (next : Next) (tr : list Observed) : Prop :=
  match next with inl l => loop_ok l tr | inr (leased, _) => same_request leased0 leased end.

Lemma again_walk n l tr : reaped tr -> loop_ok l tr -> walks n (again l) next_ok tr.
Proof. intros Hr Hl. by apply walk_done. Qed.

Lemma finish_walk n l p tr : reaped tr -> of_request l -> walks n (finish_with l p) next_ok tr.
Proof. intros Hr [Hl _]. by apply walk_done. Qed.

Lemma same_loop_request l l' : same_loop l l' -> of_request l -> of_request l'.
Proof. intros [Hl Hd] [Hl0 Hd0]. split; [by rewrite Hl|by rewrite Hd]. Qed.

Lemma set_leased_request l leased :
  of_request l -> same_request (lp_leased l) leased -> of_request (set_leased l leased).
Proof. intros [Hl Hd] Hs. split; [by etrans|done]. Qed.

Lemma project_of_request l : of_request l -> le_project_id (lr_lease (lp_leased l)) = le_project_id (lr_lease leased0).
Proof. by intros [(_ & Hp & _) _]. Qed.
Lemma id_of_request l : of_request l -> le_request_id (lr_lease (lp_leased l)) = le_request_id (lr_lease leased0).
Proof. by intros [(Hid & _) _]. Qed.

(** A part that leaves the loop in a closing state. *)
Lemma again_closing n (m : Exec Loop) l tr :
  reaped tr -> of_request l ->
  emits allowed n harmless anyway m (fun l' _ => same_loop l l' /\ is_closing l') ->
  walks n (again_with m) next_ok tr.
Proof.
  intros Hr Hl Hm. eapply walk_bind_part; [done|exact Hm|apply harmless_no_spawn|].
  intros l' new _ [Hs Hc] Hr'. apply again_walk; [done|]. split; [by eapply same_loop_request|by right].
Qed.

Lemma cancel_walk n l tr : reaped tr -> of_request l -> walks n (again_with (cancel_run l)) next_ok tr.
Proof. intros Hr Hl. eapply again_closing; [done|exact Hl|]. apply cancel_run_saves, harmless_effect. Qed.

Lemma unknown_walk n l effect evidence summary tr :
  reaped tr -> of_request l -> walks n (again_with (unknown_reconciliation l effect evidence summary)) next_ok tr.
Proof. intros Hr Hl. eapply again_closing; [done|exact Hl|]. apply unknown_reconciliation_saves, harmless_effect. Qed.

(** The update of an engine call is saved and its decision is pending. *)
Lemma settle_walk n l call tr :
  reaped tr -> live tr -> of_request l -> returns (fun _ => True) call ->
  walks n (again_with (settle l call)) next_ok tr.
Proof.
  intros Hr Hlive Hl Hcall. eapply walk_bind_part; [done|by apply settle_saves; [apply harmless_effect|]|apply harmless_no_spawn|].
  intros l' new _ [Hs Hend] Hr'. apply again_walk; [done|]. split; [by eapply same_loop_request|].
  rewrite live_app. destruct Hend as [[Hnew _]|Hc]; [by left|by right].
Qed.

Lemma record_result_walk n l effect result tr :
  reaped tr -> live tr -> of_request l -> walks n (record_result l effect result) next_ok tr.
Proof.
  intros Hr Hlive Hl. apply walk_bind_os; [done|done|]. intros now.
  apply settle_walk; [by apply reaped_app; [|repeat constructor]| |done|apply record_effect_result_returns].
  apply live_app. split; [done|]. rewrite live_cons. cbn. auto using live_nil.
Qed.

Lemma record_failure_walk n l effect summary tr :
  reaped tr -> live tr -> of_request l -> walks n (record_failure l effect summary) next_ok tr.
Proof. intros Hr Hlive Hl. apply walk_bind_lift; [done|]. intros result _. by apply record_result_walk. Qed.

(** Retained evidence and what follows it. *)
Lemma retained_walk {A B} n (m : Exec A) (k : A -> Exec B) Q tr :
  reaped tr -> live tr -> emits allowed n retains anyway m (fun _ _ => True) ->
  (forall a tr', reaped tr' -> live tr' -> walks n (k a) Q tr') -> walks n (exec_bind m k) Q tr.
Proof.
  intros Hr Hlive Hm Hk. eapply walk_bind_part; [done|exact Hm|by intros []|].
  intros a new Hnew _ Hr'. apply Hk; [done|]. apply live_app. split; [done|by apply retains_live].
Qed.

(** What a command ended with is recorded. *)
Lemma command_outcome_walk n l effect execution before new :
  reaped (before ++ new) -> live before -> of_request l -> execution_ok execution new ->
  walks n (command_outcome l effect execution) next_ok (before ++ new).
Proof.
  intros Hr Hlive Hl He. pose proof (project_of_request l Hl) as Hproject.
  assert (Hall : live new -> live (before ++ new)) by (intros; by apply live_app).
  destruct execution as [status output| |output| | | | |]; cbn [execution_ok command_outcome] in *.
  - destruct He as [Hnew Hout]. apply retained_walk; [done|auto|apply (retain_command_result_keeps allowed _ harmless_effect evidence_effect); auto|].
    intros result tr' Hr' Hlive'. by apply record_result_walk.
  - apply record_failure_walk; auto.
  - destruct He as [Hnew Hout]. case_match.
    + apply retained_walk; [done|auto|apply (retain_output_keeps allowed _ harmless_effect evidence_effect); auto|].
      intros evidence tr' Hr' Hlive'. by apply unknown_walk.
    + apply retained_walk; [done|auto|apply (retain_failed_command_result_keeps allowed _ harmless_effect evidence_effect); auto|].
      intros result tr' Hr' Hlive'. by apply record_result_walk.
  - case_match; [by apply unknown_walk|apply record_failure_walk; auto].
  - case_match; [by apply unknown_walk|apply record_failure_walk; auto].
  - apply record_failure_walk; auto.
  - by apply cancel_walk.
  - by apply finish_walk.
Qed.

(** ** Connector calls *)

(** A call of [step] is allowed now. *)
Definition callable (step : PreparedConnectorStep) (timeout attempt : Z) (tr : list Observed) : Prop :=
  live tr /\ vetted_call leased0 step timeout attempt tr.

Lemma authorized_app id effect mid after tr new :
  authorized id effect mid after tr -> authorized id effect mid (after ++ new) (tr ++ new).
Proof.
  intros (before & save & outcome & lease & now & -> & Hrest). exists before, save, outcome, lease, now.
  split; [|done]. by rewrite <-!app_assoc, <-!app_comm_cons, <-app_assoc, <-app_comm_cons.
Qed.

Lemma callable_app step timeout attempt tr new :
  callable step timeout attempt tr -> live new -> Forall (calling step timeout attempt) new ->
  callable step timeout attempt (tr ++ new).
Proof.
  intros [Hlive (def & acc & r & effect & mid & after & Hd & Hc & Ht & Ha & Hauth & Hmid & Hafter)] Hl Hnew.
  split; [by apply live_app|]. exists def, acc, r, effect, mid, (after ++ new).
  do 4 (split; [done|]). split; [by apply authorized_app|]. split; [done|]. by apply Forall_app.
Qed.

Lemma quiet_calling step timeout attempt o : quiet o -> calling step timeout attempt o.
Proof. by destruct o. Qed.

Lemma poll_walk n step timeout attempt leased tr :
  reaped tr -> callable step timeout attempt tr ->
  walks n (await_workspace_fingerprint_with_lease d (os (OsPollConnectorCall step timeout attempt)) leased)
    (fun '(leased', call) tr' => same_request leased leased' /\
       match call with CallCompleted _ => live tr' | _ => True end) tr.
Proof.
  intros Hr Hc. eapply walk_bind_part; [done|apply renew_and_poll_does, harmless_effect|apply quiet_no_spawn|].
  intros [l1 state] new Hnew [Hl Hlive] Hr1. destruct state; try by apply walk_done.
  apply (walk_loop allowed n _ _ (fun l' tr' => same_request leased l' /\ callable step timeout attempt tr')).
  - intros m l' tr' Hm Hr' [Hl' Hc']. apply walk_bind_os; [done|intros a; exact Hc'|]. intros answer.
    assert (Hr2 : reaped (tr' ++ [os_observed (OsPollConnectorCall step timeout attempt) answer]))
      by (apply reaped_app; [|repeat constructor]; done).
    assert (Hc2 : callable step timeout attempt (tr' ++ [os_observed (OsPollConnectorCall step timeout attempt) answer])).
    { apply callable_app; [done|rewrite live_cons; split; [by intros []|apply live_nil]|by repeat constructor]. }
    destruct answer as [r|]; [apply walk_done; [done|]; split; [done|apply Hc2]|].
    eapply walk_bind_part; [done|apply renew_and_poll_does, harmless_effect|apply quiet_no_spawn|].
    intros [l2 st] new2 Hnew2 [Hl2 Hlive2] Hr3. apply walk_done; [done|].
    destruct st; (split; [by etrans|]); [|done..]. apply callable_app; [done|auto|].
    eapply Forall_impl; [exact Hnew2|apply quiet_calling].
  - done.
  - split; [done|]. apply callable_app; [done|auto|]. eapply Forall_impl; [exact Hnew|apply quiet_calling].
Qed.

(** The end of a connector step. *)
Definition step_ends (leased : LeasedRequest) (end_ : LeasedRequest * ConnectorStepOutcome)
    (tr : list Observed) : Prop :=
  same_request leased end_.1 /\ match end_.2 with StepResult _ => live tr | _ => True end.

Lemma step_result_walk n leased0' leased (m : Exec ConnectorStepOutcome) tr :
  reaped tr -> live tr -> same_request leased0' leased ->
  emits allowed n retains anyway m (fun outcome _ => exists result, outcome = StepResult result) ->
  walks n (await! outcome := m in done (leased, outcome)) (step_ends leased0') tr.
Proof.
  intros Hr Hlive Hl Hm. eapply walk_bind_part; [done|exact Hm|by intros []|].
  intros outcome new Hnew [result ->] Hr'. apply walk_done; [done|]. split; [done|].
  apply live_app. split; [done|by apply retains_live].
Qed.

Lemma invoke_connector_walk n step leased timeout attempt tr :
  reaped tr -> callable step (Z.max timeout 1) (Z.max attempt 1) tr ->
  le_project_id (lr_lease leased) = le_project_id (lr_lease leased0) ->
  walks n (invoke_connector d step leased timeout attempt) (step_ends leased) tr.
Proof.
  intros Hr Hc Hproject. eapply walk_bind; [by apply poll_walk|].
  intros [l1 call] tr1 Hr1 [Hl Hlive]. assert (Hp1 : le_project_id (lr_lease l1) = le_project_id (lr_lease leased0)).
  { destruct Hl as (_ & Hp & _). by rewrite Hp. }
  destruct call as [[[success|failure|]|e|]| |]; try (by apply walk_panic); try by apply walk_done.
  - apply step_result_walk; [done..|]. by apply (connector_success_keeps allowed _ harmless_effect evidence_effect).
  - apply step_result_walk; [done..|]. by apply failed_connector_outcome_keeps.
  - apply step_result_walk; [done..|]. by apply failed_connector_outcome_keeps.
Qed.

Lemma callable_os step timeout attempt tr new :
  callable step timeout attempt tr -> Forall asks_os new -> callable step timeout attempt (tr ++ new).
Proof.
  intros Hc Hnew. apply callable_app; [done|by apply asks_os_live|]. eapply Forall_impl; [exact Hnew|].
  intros o Ho. by apply quiet_calling, asks_os_quiet.
Qed.

Lemma execute_connector_step_walk n step leased timeout attempt tr :
  reaped tr -> callable step (Z.max timeout 1) (Z.max attempt 1) tr ->
  le_project_id (lr_lease leased) = le_project_id (lr_lease leased0) ->
  walks n (execute_connector_step d step leased timeout attempt) (step_ends leased) tr.
Proof.
  intros Hr Hc Hproject.
  assert (Hfailed : forall tr' summary retryable, reaped tr' -> live tr' ->
    walks n (await! outcome := failed_connector_outcome summary retryable in done (leased, outcome))
      (step_ends leased) tr').
  { intros. apply step_result_walk; [done..|]. by apply failed_connector_outcome_keeps. }
  assert (Hask : forall A (m : Exec A) (k : A -> Exec (LeasedRequest * ConnectorStepOutcome)) tr',
    reaped tr' -> callable step (Z.max timeout 1) (Z.max attempt 1) tr' ->
    emits allowed n asks_os anyway m (fun _ _ => True) ->
    (forall a tr'', reaped tr'' -> callable step (Z.max timeout 1) (Z.max attempt 1) tr'' ->
       walks n (k a) (step_ends leased) tr'') -> walks n (exec_bind m k) (step_ends leased) tr').
  { intros A m k tr' Hr' Hc' Hm Hk. eapply walk_bind_part; [done|exact Hm|apply asks_os_no_spawn|].
    intros a new Hnew _ Hr2. apply Hk; [done|]. by apply callable_os. }
  unfold execute_connector_step. case_match; [apply Hfailed; [done|apply Hc]|].
  apply Hask; [done..|by apply emits_os|]. intros call tr1 Hr1 Hc1.
  destruct call as [[]|message|]; [|apply Hfailed; [done|apply Hc1]|by apply walk_panic].
  apply Hask; [done..|apply emits_os_res; [done|done|by intros []]|]. intros records tr2 Hr2 Hc2.
  case_match; [|apply Hfailed; [done|apply Hc2]]. case_match; [apply Hfailed; [done|apply Hc2]|].
  apply Hask; [done..|by apply emits_os|]. intros credential tr3 Hr3 Hc3.
  destruct credential as [credential|message|]; [|apply Hfailed; [done|apply Hc3]|by apply walk_panic].
  apply Hask; [done..|unfold build_connector_call; case_match; [by apply emits_done|by apply emits_os]|].
  intros built tr4 Hr4 Hc4.
  destruct built as [[]|message|]; [|apply Hfailed; [done|apply Hc4]|by apply walk_panic].
  by apply invoke_connector_walk.
Qed.

(** ** Executing an effect *)

(** The start of [effect] was saved, and [mid] happened since. *)
Definition started (effect : EffectAttempt) (mid tr : list Observed) : Prop :=
  exists before save outcome,
    tr = before ++ SawSaveCheckpoint save (Ok outcome) :: mid
    /\ starts effect (sv_transition save)
    /\ le_request_id (sv_lease save) = le_request_id (lr_lease leased0).

Lemma started_app effect mid tr new : started effect mid tr -> started effect (mid ++ new) (tr ++ new).
Proof.
  intros (before & save & outcome & -> & Hrest). exists before, save, outcome. split; [|done].
  by rewrite <-app_assoc, <-app_comm_cons.
Qed.

Lemma started_authorized effect mid tr lease now :
  started effect mid tr -> le_request_id lease = le_request_id (lr_lease leased0) ->
  authorized (le_request_id (lr_lease leased0)) effect mid []
    (tr ++ [SawValidateFlowEffectAuthorization lease now (Ok EffectAllowed)]).
Proof.
  intros (before & save & outcome & -> & Hs & Hid) Hlease. exists before, save, outcome, lease, now.
  split; [|done]. by rewrite <-app_assoc, <-app_comm_cons.
Qed.

(** What is known of a prepared effect once its workspace is pinned. *)
Definition pinned_effect (effect : EffectAttempt) (prepared : res CommandRejection PreparedEffect)
    (authority : option WorkspaceAuthority) (mid : list Observed) : Prop :=
  match prepared with
  | Ok (PreparedConnectorEffect step) => accepted_connector definition effect step /\ Forall asks_os mid
  | Ok (PreparedCommandEffect command) =>
    accepted_effect root definition effect (PreparedCommandEffect command) /\
    forall a, authority = Some a -> exists workspace,
      SawPollFingerprint root (Some (Ok workspace)) ∈ mid /\ fw_fingerprint workspace = accepted
      /\ fw_authority workspace = a
  | _ => True
  end.

Lemma command_allowed effect command authority mid tr environment new answer :
  live tr -> authorized (le_request_id (lr_lease leased0)) effect mid [] tr -> Forall quiet mid ->
  pinned_effect effect (Ok (PreparedCommandEffect command)) (Some authority) mid ->
  Forall asks_os new -> pinned authority new ->
  path_eqb (pc_working_directory command) (canonical_root authority) = true ->
  safe_environment (pc_execution_root command) environment new ->
  allowed (SawSpawn (child_of command environment) answer) (tr ++ new).
Proof.
  intros Hlive Hauth Hquiet [(Hcmd & Hout & Hwd & Hroot) Hws] Hnew Hpin Hpath Henv.
  destruct (Hws authority eq_refl) as (workspace & Hpoll & Hfp & <-). rewrite Hroot in Henv.
  split; [apply live_app; split; [done|by apply asks_os_live]|].
  exists definition, accepted, root, effect, workspace, mid, new. repeat split; try done; try apply Henv.
  by apply (authorized_app _ effect mid []).
Qed.

Lemma perform_effect_walk n l effect prepared authority mid tr :
  reaped tr -> live tr -> of_request l -> Forall quiet mid ->
  pinned_effect effect prepared authority mid ->
  (is_ok prepared = true -> authorized (le_request_id (lr_lease leased0)) effect mid [] tr) ->
  walks n (perform_effect d accepted l effect prepared authority) next_ok tr.
Proof.
  intros Hr Hlive Hl Hquiet Hpinned Hauth. pose proof (project_of_request l Hl) as Hproject.
  destruct prepared as [[command|step]|e|]; cbn [perform_effect].
  - destruct authority as [authority|]; [|by apply walk_err].
    eapply walk_bind; [apply execute_command_in_workspace_walk; [apply harmless_effect|done|]|].
    + intros environment new answer Hnew Hpin Hpath Henv. eapply command_allowed; [done|by apply Hauth|done..].
    + intros [leased execution] tr' Hr' [Hs (new & -> & He)].
      apply command_outcome_walk; [done..|by apply set_leased_request|done].
  - destruct Hpinned as [Hconn Hmid].
    eapply walk_bind; [apply execute_connector_step_walk; [done| |done]|].
    + split; [done|]. exists definition, accepted, root, effect, mid, []. by repeat split; try apply Hauth.
    + intros [leased outcome] tr' Hr' [Hs Hend].
      assert (of_request (set_leased l leased)) by by apply set_leased_request.
      destruct outcome; [by apply record_result_walk|by apply cancel_walk|by apply finish_walk].
  - destruct e; by apply record_failure_walk.
  - by apply walk_panic.
Qed.

Lemma live_two a b tr : live tr -> ~ halting a -> ~ halting b -> live (tr ++ [a; b]).
Proof. intros. rewrite live_app, !live_cons. auto using live_nil. Qed.

Lemma authorize_effect_walk n l effect prepared authority mid tr :
  reaped tr -> live tr -> of_request l -> Forall quiet mid ->
  pinned_effect effect prepared authority mid -> started effect mid tr ->
  walks n (authorize_effect d accepted l effect prepared authority) next_ok tr.
Proof.
  intros Hr Hlive Hl Hquiet Hpinned Hstarted. unfold authorize_effect. destruct (is_ok prepared) eqn:Hok.
  2:{ apply (perform_effect_walk n l effect prepared authority mid); try done. by rewrite Hok. }
  eapply walk_bind_part; [done|apply effect_boundary_does, harmless_effect|apply quiet_no_spawn|].
  intros boundary new Hnew Hb Hr'. destruct boundary.
  - destruct Hb as [now ->].
    apply (perform_effect_walk n l effect prepared authority (mid ++ [SawNow now])); try done.
    + apply live_two; cbn; auto.
    + apply Forall_app. split; [done|by repeat constructor].
    + destruct prepared as [[command|step]|e|]; [|split; [apply Hpinned|]|done..].
      * split; [apply Hpinned|]. intros a Ha. destruct (proj2 Hpinned a Ha) as (ws & Hin & Hrest).
        exists ws. set_solver.
      * apply Forall_app. split; [apply Hpinned|by repeat constructor].
    + intros _. change [SawNow now; ?o] with ([SawNow now] ++ [o]). rewrite app_assoc.
      apply started_authorized; [by apply started_app|]. by apply id_of_request.
  - apply settle_walk; [done| |done|apply deny_returns]. by apply live_app.
  - by apply cancel_walk.
Qed.

Lemma pin_workspace_walk n l effect prepared tr :
  reaped tr -> live tr -> of_request l -> started effect [] tr ->
  declared_effect definition effect ->
  accepts (fun p _ => declared_effect definition effect -> accepted_effect root definition effect p) prepared [] ->
  walks n (pin_workspace d accepted root l effect prepared) next_ok tr.
Proof.
  intros Hr Hlive Hl Hstarted Hdeclared Hprep. destruct prepared as [[command|step]|e|]; cbn [pin_workspace].
  - eapply walk_bind_part; [done|apply await_fingerprint_does, harmless_effect|apply quiet_no_spawn|].
    intros [leased call] new Hnew [Hs Hcall] Hr'.
    assert (Hl' : of_request (set_leased l leased)) by by apply set_leased_request.
    apply (started_app effect [] tr new) in Hstarted. cbn [app] in Hstarted.
    destruct call as [[workspace|e|]| |]; [| |by apply walk_panic|by apply cancel_walk|by apply finish_walk];
      destruct Hcall as [Hlnew Hin]; assert (live (tr ++ new)) by by apply live_app.
    + case_match eqn:Hfp; [apply String.eqb_eq in Hfp|];
        (eapply authorize_effect_walk; [done..|exact Hnew| |exact Hstarted]); [|done].
      split; [by apply Hprep|]. intros a [= <-]. by exists workspace.
    + eapply authorize_effect_walk; [done..|exact Hnew|done|exact Hstarted].
  - eapply authorize_effect_walk; [done..|apply Forall_nil_2| |exact Hstarted]. split; [by apply Hprep|done].
  - eapply authorize_effect_walk; [done..|apply Forall_nil_2| |exact Hstarted]. done.
  - eapply authorize_effect_walk; [done..|apply Forall_nil_2| |exact Hstarted]. done.
Qed.

Lemma prepares effect now l :
  of_request l ->
  returns_at (lp_run l)
    (fun u => (up_decision u = Execute effect true \/ up_decision u = Execute effect false)
       /\ starts effect (up_transition u) /\ declared_effect definition effect)
    (FlowEngine.prepare_effect effect now).
Proof.
  intros [_ <-] r' u Hu. destruct (prepare_returns effect now _ _ _ Hu) as [Hd Hex]. split; [done|]. split; [done|].
  split; [by apply (prepare_transition effect now _ _ _ Hu)|by apply (prepare_declares effect now _ _ _ Hu)].
Qed.

Lemma start_effect_walk n l effect tr :
  reaped tr -> live tr -> of_request l -> walks n (start_effect d accepted root l effect) next_ok tr.
Proof.
  intros Hr Hlive Hl. pose proof Hl as [_ Hdef].
  eapply walk_bind_part; [done|apply verify_flow_project_root_asks, harmless_effect|apply asks_os_no_spawn|].
  intros verified new1 Hnew1 _ Hr1.
  apply (walk_bind_part allowed n asks_os _ _ (accepts (fun p _ =>
           declared_effect definition effect -> accepted_effect root definition effect p)));
    [done| |apply asks_os_no_spawn|].
  { rewrite Hdef. destruct (is_ok verified); [apply prepare_effect_asks, harmless_effect|by apply emits_done]. }
  intros prepared new2 Hnew2 Hprep Hr2. apply walk_bind_os; [done|done|]. intros now.
  assert (Hr3 : reaped (((tr ++ new1) ++ new2) ++ [os_observed OsNow now]))
    by (apply reaped_app; [|repeat constructor]; done).
  eapply walk_bind_part; [exact Hr3| |apply harmless_no_spawn|].
  { apply persist_call_saves; [apply harmless_effect|].
    by apply prepares. }
  intros [run [[decision revision] terminal]] new4 Hnew4 [Hd Hsettled] Hr4.
  assert (Hl' : forall pending, of_request (set_loop l run revision pending)).
  { intros pending. destruct Hl as [Hl0 _]. split; [exact Hl0|]. cbn. by rewrite Hd. }
  destruct Hsettled as [(update & (Hex & Hs & Hdeclared) & -> & Hp)|Hc].
  - apply (walk_weaken allowed n _ next_ok); [|done].
    assert (Hpin : walks n (pin_workspace d accepted root (set_loop l run revision None) effect prepared) next_ok
                     ((((tr ++ new1) ++ new2) ++ [os_observed OsNow now]) ++ new4)).
    { apply pin_workspace_walk; [done| |apply Hl'| |done|by destruct prepared].
      - rewrite !live_app, live_cons. apply persisted_live in Hp. apply asks_os_live in Hnew1, Hnew2.
        cbn. auto using live_nil.
      - destruct Hp as (now' & save & outcome & -> & Hlease & _ & Htr).
        exists ((((tr ++ new1) ++ new2) ++ [os_observed OsNow now]) ++ [SawNow now']), save, outcome.
        split; [by rewrite <-(app_assoc _ [SawNow now'])|].
        rewrite Htr, Hlease. split; [done|]. by apply id_of_request. }
    by destruct Hex as [-> | ->].
  - destruct decision; try done; [by apply walk_err|]. destruct terminal as [terminal|]; [|by apply walk_err].
    apply again_walk; [done|]. split; [apply Hl'|]. right. by eexists _, _.
Qed.

Lemma evaluate_effect_walk n l effect tr :
  reaped tr -> live tr -> of_request l -> walks n (evaluate_effect d accepted root l effect) next_ok tr.
Proof.
  intros Hr Hlive Hl.
  eapply walk_bind_part; [done|apply effect_boundary_does, harmless_effect|apply quiet_no_spawn|].
  intros boundary new Hnew Hb Hr'. destruct boundary.
  - destruct Hb as [now ->]. apply start_effect_walk; [done|apply live_two; cbn; auto|done].
  - apply settle_walk; [done| |done|apply deny_returns]. by apply live_app.
  - by apply cancel_walk.
Qed.

Lemma act_walk n l decision encoded tr :
  reaped tr -> of_request l -> live tr \/ closing decision ->
  walks n (act d accepted root l decision encoded) next_ok tr.
Proof.
  intros Hr Hl Hlive. destruct decision; cbn [act]; try (by apply walk_err);
    try (destruct Hlive as [Hlive|[]]).
  - apply again_walk; [done|]. split; [done|by left].
  - by apply evaluate_effect_walk.
  - by apply unknown_walk.
  - by apply unknown_walk.
  - eapply walk_bind_part; [done|apply wait_for_retry_does, harmless_effect|apply quiet_no_spawn|].
    intros [leased state] new Hnew [Hs Hst] Hr'.
    assert (Hl' : of_request (set_leased l leased)) by by apply set_leased_request.
    destruct state; [|by apply cancel_walk|by apply finish_walk].
    apply again_walk; [done|]. split; [done|]. left. apply live_app. auto.
  - destruct encoded; [by apply finish_walk|by apply walk_err].
  - destruct encoded; [by apply finish_walk|by apply walk_err].
Qed.

Lemma set_loop_request l run revision pending :
  of_request l -> fr_definition run = fr_definition (lp_run l) -> of_request (set_loop l run revision pending).
Proof. intros [Hl Hd] Hrun. split; [exact Hl|]. cbn. by rewrite Hrun. Qed.

Lemma iteration_walk n l tr :
  reaped tr -> loop_ok l tr -> walks n (iteration d accepted root l) next_ok tr.
Proof.
  intros Hr [Hl Hlive].
  apply (walk_bind allowed n _ _ (fun l' tr' => loop_ok l' tr')).
  - destruct (lp_pending l) as [pending|] eqn:Hpending.
    { apply walk_done; [done|]. by split. }
    destruct Hlive as [Hlive|(decision & terminal & Hp & _)]; [|by rewrite Hp in Hpending].
    eapply walk_bind_part; [done|apply request_is_cancelled_does, harmless_effect|apply quiet_no_spawn|].
    intros cancelled new Hnew Hc Hr'. destruct cancelled.
    + eapply walk_part; [done|apply cancel_run_saves, harmless_effect|apply harmless_no_spawn|].
      intros l' new' _ [Hs Hclose]. split; [by eapply same_loop_request|by right].
    + apply walk_done; [done|]. split; [done|]. left. apply live_app. auto.
  - clear l tr Hr Hl Hlive. intros l tr Hr [Hl Hlive]. destruct (lp_pending l) as [[decision terminal]|] eqn:Hpending.
    + apply act_walk; [done|by apply set_loop_request|]. destruct Hlive as [|(dec & t & Hp & Hc)]; [by left|right].
      congruence.
    + destruct Hlive as [Hlive|(decision & terminal & Hp & _)]; [|by rewrite Hp in Hpending].
      apply walk_bind_os; [done|done|]. intros now.
      eapply walk_bind_part; [by apply reaped_app; [|repeat constructor]| |apply harmless_no_spawn|].
      { apply persist_call_saves; [apply harmless_effect|apply next_decision_returns]. }
      intros [run [[decision revision] terminal]] new Hnew [Hd Hsettled] Hr'.
      apply act_walk; [done|by apply set_loop_request|]. destruct Hsettled as [(update & _ & -> & Hp)|Hc]; [left|by right].
      rewrite !live_app, live_cons. apply persisted_live in Hp. cbn. auto using live_nil.
Qed.

Lemma process_loop_walk n l tr :
  reaped tr -> loop_ok l tr -> walks n (process_loop d accepted root l) (fun r _ => same_request leased0 r.1) tr.
Proof.
  intros Hr Hl. apply (walk_loop allowed n _ _ loop_ok); [|done..].
  intros m l' tr' Hm Hr' Hl'. eapply walk_weaken; [by apply iteration_walk|].
  by intros [l''|[leased p]] tr'' Hn.
Qed.

Lemma open_checkpoint_definition run_id checkpoint leased run revision a b :
  open_checkpoint leased run_id definition checkpoint = Ok (OpenedRun run revision a b) ->
  fr_definition run = definition.
Proof.
  unfold open_checkpoint. destruct checkpoint as [checkpoint|].
  - destruct (resume _ _ _) as [r|e|] eqn:Hres; [|done..]. apply resume_definition in Hres. cbn.
    destruct (run_result r) as [result|].
    + destruct (fc_terminal_result checkpoint) as [cached|]; [|done]. cbn.
      by destruct (cached_terminal_result _ _ _) as [p|e|].
    + destruct (fc_terminal_result checkpoint); [done|]. by intros [= <- _ _ _].
  - unfold start. destruct (from_validation (definition_validate _)) as [[]|e|]; [|done..]. cbn.
    destruct (validate_engine_identity _ _ _) as [[]|e|]; [|done..]. cbn.
    destruct (from_validation (normalized_digest _)) as [digest|e|]; [|done..]. by intros [= <- _ _ _].
Qed.

Lemma enter_loop_walk n leased run revision initial upgrade tr :
  reaped tr -> live tr -> same_request leased0 leased -> fr_definition run = definition ->
  walks n (enter_loop d leased accepted root run revision initial upgrade) (fun r _ => same_request leased0 r.1) tr.
Proof.
  intros Hr Hlive Hl Hd.
  assert (Hrun : forall rev tr', reaped tr' -> live tr' ->
    walks n (process_loop d accepted root
      {| lp_leased := leased; lp_run := run; lp_revision := rev; lp_pending := None |}) (fun r _ => same_request leased0 r.1) tr').
  { intros rev tr' Hr' Hlive'. apply process_loop_walk; [done|]. split; [done|by left]. }
  eapply walk_bind_part; [done|apply verify_flow_project_root_asks, harmless_effect|apply asks_os_no_spawn|].
  intros verified new1 Hnew1 _ Hr1.
  assert (Hlive1 : live (tr ++ new1)) by (apply live_app; auto using asks_os_live).
  assert (Hsave : forall rev tr', reaped tr' -> live tr' ->
    walks n (unless_stale (save_snapshot leased rev run) (done (leased, ProcStaleLease))
      (fun saved => process_loop d accepted root
         {| lp_leased := leased; lp_run := run; lp_revision := fc_checkpoint_revision (so_checkpoint saved);
            lp_pending := None |})) (fun r _ => same_request leased0 r.1) tr').
  { intros rev tr' Hr' Hlive'. eapply walk_match.
    - eapply (walk_part allowed n harmless _ (fun _ new => live new)); [done| |apply harmless_no_spawn|].
      + apply (bind_os allowed harmless_effect); [intros; exact I|intros; exact I|]. intros now.
        apply emits_store; [by intros|by intros|]. intros [saved|e|] s _; [|done..].
        rewrite !live_cons. cbn. auto using live_nil.
      + intros saved new _ Hnew. apply (proj2 (live_app tr' new)). by split.
    - intros saved tr'' Hr'' Hlive''. by apply Hrun.
    - intros e tr'' Hr''. by destruct e; first [by apply walk_err | by apply walk_done]. }
  case_match; [by apply walk_done|]. case_match; [by apply Hsave|]. case_match; [by apply Hsave|by apply Hrun].
Qed.

End vetted.
