(* ===== verification/ExecSafety.v ===== *)
(** * The safety of flow execution

    The theorems about [process_flow] as a whole: what every effect was
    preceded by, that nothing is executed once the executor has learnt that it
    must stop, that no child process outlives it, and what evidence it keeps. *)

From ITree Require Import Core.ITreeDefinition.
From S2P Require Import Prelude Core Policy Redact FlowDef FlowData FlowSnapshot FlowEngine Paths Protocol.
From S2P Require Import ProtocolRequest ProtocolCodec FlowOperation StoreDef StoreFlow StoreQueue StoreAuth Exec.
From S2P Require Import FlowCommand FlowExecute FlowProcess Scheduler ExecLogic ExecSpec ExecParts ExecSave ExecVetted.

Local Open Scope Z_scope.

Section safety.
Context `{Sha256} `{FlowCodec} `{WireCodec} `{TomlParser}.

(** A store call whose stale lease ends the task. *)
Lemma unless_stale_walk {A B} leased n (e : StoreE (sres A)) (stale : Exec B) k Q tr :
  reaped tr -> live tr -> (forall a tr, effect_allowed leased (store_observed e a) tr) ->
  (forall a, no_spawn (store_observed e a)) -> (forall a, ~ halting (store_observed e (Ok a))) ->
  (forall a tr', reaped tr' -> live tr' -> walk (effect_allowed leased) n (k a) Q tr') ->
  (forall tr', reaped tr' -> walk (effect_allowed leased) n stale Q tr') ->
  walk (effect_allowed leased) n (unless_stale (store e) stale k) Q tr.
Proof.
  intros Hr Hlive Ha Hspawn Hhalt Hk Hstale.
  apply (walk_match _ n (store e) k _ (fun _ tr' => live tr')).
  - eapply (walk_part _ n no_spawn _ (fun _ new => live new)); [done| |done|].
    + apply emits_store; [exact Ha|exact Hspawn|]. intros [a|x|] s _; [|done..].
      apply live_cons. split; [apply Hhalt|apply live_nil].
    + intros a new _ Hnew. by apply live_app.
  - intros a tr' Hr' Hlive'. by apply Hk.
  - intros x tr' Hr'. destruct x; try (by apply walk_err). by apply Hstale.
Qed.

Lemma process_flow_walk d leased n :
  walk (effect_allowed leased) n (process_flow d leased) (fun r _ => same_request leased r.1) [].
Proof.
  unfold process_flow.
  assert (Hdone : forall (p : FlowProcessing) tr, reaped tr ->
    walk (effect_allowed leased) n (done (leased, p) : Exec _) (fun r _ => same_request leased r.1) tr)
    by (intros; by apply walk_done).
  pose proof reaped_nil as Hnil.
  destruct (decode_flow_operation _) as [[[definition accepted] root]|] eqn:Hdecoded; [|by apply Hdone].
  destruct (flow_policy_resource _ _) as [resource|e|]; [|by apply Hdone|by apply walk_panic].
  destruct (resource_parse _) as [operation_resource|e|]; [|by apply Hdone..].
  destruct (run_id_parse _) as [run_id|e|]; [|by apply Hdone..].
  apply walk_bind_os; [done|done|]. intros now.
  assert (Hr0 : reaped ([] ++ [os_observed OsNow now])) by (apply (reaped_app [] [_]); [done|by repeat constructor]).
  apply unless_stale_walk; [done|apply live_cons; split; [by intros []|apply live_nil]|done|done|by intros ? []
    | |by intros; apply Hdone].
  intros checkpoint tr1 Hr1 Hlive1. apply walk_bind_lift; [done|]. intros opened Hopen.
  destruct opened as [processing|run revision initial upgrade]; [by apply Hdone|].
  apply open_checkpoint_definition in Hopen. apply walk_bind_os; [done|done|]. intros now'.
  assert (Hr2 : reaped (tr1 ++ [os_observed OsNow now'])) by (apply reaped_app; [|repeat constructor]; done).
  apply (walk_match _ n _ _ _ (fun _ tr' => live tr')).
  - eapply (walk_part _ n no_spawn _ (fun _ new => live new)); [done| |done|].
    + apply emits_store; [done|done|]. intros [[]|x|] s _; [|done..]. apply live_cons. split; [by intros []|apply live_nil].
    + intros [] new _ Hnew. rewrite !live_app, live_cons. cbn. auto using live_nil.
  - intros [] tr' Hr' Hlive'. by apply (enter_loop_walk d leased definition accepted root Hdecoded).
  - intros x tr' Hr'. destruct x; first [by apply walk_err | by apply Hdone].
Qed.

Lemma process_flow_allowed d leased tr t before o after :
  runs (process_flow d leased) tr t -> tr = before ++ o :: after -> effect_allowed leased o before.
Proof. apply (walk_allowed _ _ t (fun r _ => same_request leased r.1)). intros n. apply process_flow_walk. Qed.

(** C10: every child process that the execution of a flow request starts for a
    command step is one of the git commands the daemon allows, with the arguments
    of a step of the stored definition that declares that it only reads and
    needs no approval. Its program lies outside the project and its directory
    inside. The start of the effect was saved first; after that the worktree had
    the fingerprint the run was accepted for, the store authorized the effect,
    and from there on only the operating system was asked, which answered that
    the worktree is still the one that was fingerprinted. The processes that
    answer a question of the model are not such children: the git that finds a
    project or fingerprints a worktree and the aws that a connector may run. *)
Theorem flow_commands_vetted d leased tr t before child answer after :
  runs (process_flow d leased) tr t -> tr = before ++ SawSpawn child answer :: after ->
  vetted_command leased child before.
Proof. intros Hr Heq. by destruct (process_flow_allowed d leased tr t before _ after Hr Heq). Qed.

(** C11: every call of a connector is a read-only connector step of the stored
    definition whose start was saved and which the store then authorized;
    between the authorization and a poll of the call come only polls of the same
    call and quiet events: questions to the operating system, the renewal of the
    lease and the store's answer to it, none of which starts an effect. *)
Theorem flow_connector_calls_vetted d leased tr t before step timeout attempt answer after :
  runs (process_flow d leased) tr t ->
  tr = before ++ SawPollConnectorCall step timeout attempt answer :: after ->
  vetted_call leased step timeout attempt before.
Proof. intros Hr Heq. by destruct (process_flow_allowed d leased tr t before _ after Hr Heq). Qed.

(** C12: once the executor has been told that the request is in cancellation or
    that its lease is stale, by whichever call, it starts no child process for a
    command step and polls no connector call any more. *)
Theorem nothing_starts_after_halt d leased tr t before o after :
  runs (process_flow d leased) tr t -> tr = before ++ o :: after -> halting o ->
  Forall (fun o => ~ is_effect o) after.
Proof.
  intros Hr Heq Hhalt. apply Forall_forall. intros o' Ho' Heffect.
  apply list_elem_of_split in Ho' as (mid & rest & ->).
  assert (Hlive : live (before ++ o :: mid)).
  { rewrite app_comm_cons, app_assoc in Heq.
    pose proof (process_flow_allowed d leased tr t _ o' rest Hr Heq) as Ho.
    destruct o'; cbn in Heffect; try done; apply Ho. }
  rewrite live_app, live_cons in Hlive. by destruct Hlive as (_ & Hn & _).
Qed.

(** C13: when the execution of a flow request ends, with a value or an error,
    every child process it started for a command step has been terminated and,
    right after that, waited for (with the timeout of the operating system's
    question, so the wait may also end without an answer of the child). *)
Theorem flow_children_reaped d leased tr t r :
  runs (process_flow d leased) tr t -> ITreeDefinition.observe t = RetF r -> r <> Panic -> reaped tr.
Proof.
  intros Hr Ho Hpanic.
  pose proof (walk_ends _ _ t _ tr r (process_flow_walk d leased) Hr Ho) as Hend.
  destruct r as [a|e|]; [apply Hend|exact Hend|done].
Qed.

(** C34: evidence is stored for the project of the request under a handle that
    is the digest of its bytes, and what is kept of a command's output is at
    most 256 KiB. *)
Theorem flow_evidence_addressed d leased tr t put now answer :
  runs (process_flow d leased) tr t -> SawPutEvidence put now answer ∈ tr ->
  evidence_ok (le_project_id (lr_lease leased)) put.
Proof.
  intros Hr Hin. apply list_elem_of_split in Hin as (before & after & Heq).
  exact (process_flow_allowed d leased tr t before _ after Hr Heq).
Qed.

End safety.

(** ** What a worker announces ([process_leased])

    The worker of a leased request tells its clients only what the store holds:
    it finishes the request, reads the stored events and result back and sends
    those. *)

(** The store reported that it finished the request [id]. *)
Definition finishes (id : RequestId) (o : Observed) : Prop :=
  match o with
  | SawFinishRequest lease _ _ _ (Ok _) | SawFinishTerminalFlow lease _ _ (Ok _) => le_request_id lease = id
  | _ => False
  end.

(** A message of a worker: the request was finished, its log was read back
    and the messages are those of the log. *)
Definition announced `{WireCodec} `{FlowCodec} (id : RequestId) (project : ProjectId) (o : Observed)
    (tr : list Observed) : Prop :=
  match o with
  | SawSend id' messages terminal _ =>
    id' = id /\ terminal = true /\ exists before finished replayed,
      tr = before ++ [finished; SawReplayRequest id 0 (Ok replayed)]
      /\ finishes id finished /\ replay_messages project id replayed = Ok messages
  | SawStartWorker _ _ => False
  | _ => True
  end.

(** A task that is safe from the start is safe after anything else. *)
Lemma safe_shift `{Sha256} `{FlowCodec} {R} (allowed allowed' : Observed -> list Observed -> Prop)
    n (t : itree DaemonE R) Q tr0 tr :
  (forall o tr, allowed o tr -> allowed' o (tr0 ++ tr)) ->
  safe (needs allowed) happens n t Q tr ->
  safe (needs allowed') happens n t (fun r tr' => exists tr1, tr' = tr0 ++ tr1 /\ Q r tr1) (tr0 ++ tr).
Proof.
  intros Hle. revert t tr. induction n as [|n IH]; intros t tr Hs; [done|]. cbn [safe] in *.
  destruct (ITreeDefinition.observe t) as [r|t'|A e k].
  - by exists tr.
  - by apply IH.
  - destruct Hs as [Hn Hk]. split; [intros a; apply Hle, Hn|].
    intros a tr' [Ha ->]. rewrite <-app_assoc. apply IH, Hk. by split.
Qed.

Lemma reaped_concat a b : reaped a -> reaped b -> reaped (a ++ b).
Proof.
  intros Ha Hb before child id after Heq. apply app_eq_app in Heq as (mid & [[-> Hmid]|[-> Hmid]]).
  - destruct mid as [|o mid]; [by apply (Hb [] child id after)|]. injection Hmid as <- ->.
    apply terminated_app_l, (Ha before child id mid eq_refl).
  - by apply (Hb mid child id after).
Qed.

Section worker.
Context `{Sha256} `{FlowCodec} `{WireCodec} `{TomlParser}.
Context (application_version : string) (processing_delay_ms d : Z).
Context (id : RequestId) (project : ProjectId).

Abbreviation allowed := (announced id project).
Abbreviation walks n m Q tr := (walk allowed n m Q tr).

Lemma harmless_announced o tr : harmless o -> allowed o tr.
Proof. destruct o; cbn; tauto. Qed.

Definition of_worker (leased : LeasedRequest) : Prop :=
  le_request_id (lr_lease leased) = id /\ le_project_id (lr_lease leased) = project.

Lemma same_of_worker a b : same_request a b -> of_worker a -> of_worker b.
Proof. intros (Hid & Hp & _) [Ha Hb]. split; congruence. Qed.

Lemma delay_quiet n leased :
  of_worker leased ->
  emits allowed n quiet anyway (delay processing_delay_ms d leased)
    (fun r _ => match r with Some leased => of_worker leased | None => True end).
Proof.
  intros Hl. unfold delay. case_match; [by apply emits_done|].
  apply (emits_loop allowed n quiet _ _ _ (fun l _ => of_worker l)); [|done]. clear dependent leased.
  intros m leased new Hm Hl. apply (bind_os allowed harmless_announced); try events. intros elapsed.
  case_match; [by apply emits_done|]. apply (bind_os allowed harmless_announced); try events. intros now.
  apply (match_store allowed harmless_announced); try events.
  - intros lease s Hs.
    eapply bind_does; [apply emits_map_err, request_is_cancelled_does, harmless_announced|done|done|].
    intros cancelled new' _ _. apply emits_done. apply renew_answer in Hs as [e ->]. by destruct cancelled, Hl.
  - intros x. destruct x; first [by apply emits_done | by apply emits_lift].
Qed.

Lemma process_flow_announced n leased tr :
  reaped tr -> walks n (process_flow d leased) (fun r _ => same_request leased r.1) tr.
Proof.
  intros Hr. pose proof (process_flow_walk d leased n) as Hwalk.
  apply (safe_shift _ allowed _ _ _ tr) in Hwalk; [|by intros []]. rewrite app_nil_r in Hwalk.
  eapply safe_post; [exact Hwalk|]. intros r tr' (tr1 & -> & Hq).
  destruct r as [a|e|]; [destruct Hq as [Hq Ha]; split; [|exact Ha]| |done]; by apply reaped_concat.
Qed.

Lemma finish_operation_walk n leased state result encoded tr :
  reaped tr -> of_worker leased ->
  walks n (finish_operation leased state result encoded) (fun _ _ => True) tr.
Proof.
  intros Hr [Hid Hp]. apply walk_bind_lift; [done|]. intros stored _. apply walk_bind_os; [done|done|]. intros now.
  assert (Hr1 : reaped (tr ++ [os_observed OsNow now])) by (apply reaped_app; [|repeat constructor]; done).
  apply (walk_match allowed n _ _ _ (fun _ tr' => exists before o, tr' = before ++ [o] /\ finishes id o)).
  - eapply (walk_part allowed n no_spawn _ (fun _ new => exists o, new = [o] /\ finishes id o)); [done| |done|].
    + destruct encoded; (apply emits_store; [by intros|by intros|]; intros [a|e|] ? _; [by eexists|done..]).
    + intros a new _ (o & -> & Ho). by eexists _, o.
  - intros a tr1 Hr2 (before & o & -> & Ho).
    eapply (walk_bind_part allowed n quiet _ _ (fun replayed new => new = [SawReplayRequest id 0 (Ok replayed)]));
      [done| |apply quiet_no_spawn|].
    { apply emits_map_err, emits_store; [by intros|by intros|]. rewrite Hid. by intros [r|e|] s _. }
    intros replayed new _ -> Hr3. rewrite <-app_assoc in Hr3 |- *. apply walk_bind_lift; [done|]. intros messages Hm.
    assert (Hall : forall answer, announced id project (SawSend id messages true answer)
              (before ++ [o] ++ [SawReplayRequest id 0 (Ok replayed)])).
    { intros answer. split; [done|]. split; [done|]. exists before, o, replayed. split; [done|]. split; [done|].
      rewrite Hid, Hp in Hm. exact Hm. }
    unfold os. apply safe_bind, safe_trigger; [rewrite Hid; exact Hall|]. intros ? w [_ ->]. apply safe_ret.
    split; [|done]. apply reaped_app; [done|by repeat constructor].
  - intros e tr1 Hr2. destruct e; first [by apply walk_done | by apply walk_err].
Qed.

Lemma process_leased_walk n leased :
  of_worker leased -> walks n (process_leased application_version processing_delay_ms d leased) (fun _ _ => True) [].
Proof.
  intros Hl. eapply walk_bind_part; [apply reaped_nil|by apply delay_quiet|apply quiet_no_spawn|].
  intros [delayed|] new _ Hd Hr; [|by apply walk_done].
  eapply (walk_bind_part allowed n quiet _ _ (fun _ _ => True)); [done| |apply quiet_no_spawn|].
  { apply emits_map_err, emits_store; [by intros|by intros|]. by intros [r|e|] s _. }
  intros queue_depth new2 _ _ Hr2. unfold execute_operation.
  apply (walk_bind allowed n _ _ (fun executed _ => match executed with Some (l, _) => of_worker l | None => True end)).
  - case_match; [by apply walk_done|]. case_match; [|by apply walk_done].
    eapply walk_match; [by apply process_flow_announced|..].
    + intros [l p] tr' Hr' Hs. assert (of_worker l) by (by eapply same_of_worker).
      destruct p; by apply walk_done.
    + intros e tr' Hr'. destruct e; first [by apply walk_done | by apply walk_err].
  - intros [[l [[state result] encoded]]|] tr' Hr' Hl'; [by apply finish_operation_walk|by apply walk_done].
Qed.

End worker.

(** C35: what the worker of a request sends goes to the clients of that request,
    after the store finished it, and consists of the events and the result that
    were then read back from the store; it sends nothing before. *)
Theorem worker_announces_stored_result `{Sha256} `{FlowCodec} `{WireCodec} `{TomlParser}
    application_version processing_delay_ms d leased tr t before id messages terminal answer after :
  runs (process_leased application_version processing_delay_ms d leased) tr t ->
  tr = before ++ SawSend id messages terminal answer :: after ->
  announced (le_request_id (lr_lease leased)) (le_project_id (lr_lease leased))
    (SawSend id messages terminal answer) before.
Proof.
  intros Hr Heq. eapply walk_allowed; [|exact Hr|exact Heq].
  intros n. by apply process_leased_walk.
Qed.
