(* ===== verification/Admission.v ===== *)
(** * The admission of a request ([pam_daemon/src/lifecycle.rs])

    What the daemon decides about a decoded request before it asks anybody:
    whether its identifiers are bounded, whether the capability and the payload
    belong together, which resource its policy decision is about, and what a
    refusal tells the caller. Then the messages of a request as its observers
    see them. *)

From S2P Require Import Prelude Core Policy Paths FlowDef FlowData StoreDef StoreFlow StoreQueue StoreAudit StoreAuth StoreView.
From S2P Require Import Protocol ProtocolRequest ProtocolCodec FlowOperation FlowCommand Exec Scheduler.

Local Open Scope Z_scope.

Definition APPROVAL_LIFETIME_MS : Z := 5 * 60 * 1000.
Definition AUDIT_RETENTION_MS : Z := 30 * 24 * 60 * 60 * 1000.
Definition MAX_REQUEST_IDENTIFIER_BYTES : Z := 256.
Definition MAX_BRIEF_SECTION_ITEMS : Z := 16.
Definition MAX_BRIEF_PROVENANCE_ITEMS : Z := 32.
Definition MAX_BRIEF_TEXT_BYTES : Z := 4 * 1024.
Definition MAX_BRIEF_EVIDENCE_HANDLES : Z := 4.
Definition MAX_BRIEF_SOURCE_BYTES : Z := 256.
Definition MAX_BRIEF_DETAIL_BYTES : Z := 4 * 1024.

(** ** Identifiers *)

Definition is_unsafe_identifier_character (c : Z) : bool :=
  is_control c
  || existsb (fun '(first, last) => (first <=? c) && (c <=? last))
       [(0xad, 0xad); (0x600, 0x605); (0x61c, 0x61c); (0x6dd, 0x6dd); (0x70f, 0x70f);
        (0x890, 0x891); (0x8e2, 0x8e2); (0x180e, 0x180e); (0x200b, 0x200f); (0x202a, 0x202e);
        (0x2060, 0x2064); (0x2066, 0x206f); (0xfeff, 0xfeff); (0xfff9, 0xfffb);
        (0x110bd, 0x110bd); (0x110cd, 0x110cd); (0x13430, 0x1343f); (0x1bca0, 0x1bca3);
        (0x1d173, 0x1d17a); (0xe0001, 0xe0001); (0xe0020, 0xe007f)].

Definition identifier_is_bounded (value : string) : bool :=
  negb (str_is_empty value) && (len value <=? MAX_REQUEST_IDENTIFIER_BYTES)
  && negb (existsb is_unsafe_identifier_character (chars value)).

Definition target_request_id (r : RequestEnvelope) : option RequestId :=
  match rq_payload r with
  | PayCancel target _ | PayReplay target _ _ | PayWaitForResult target _ _ | PayGetResult target _ => Some target
  | _ => None
  end.

Definition request_identifiers_are_bounded (r : RequestEnvelope) : bool :=
  forallb identifier_is_bounded [rq_request_id r; rq_caller_id r; rq_project_id r; rq_idempotency_key r]
  && is_none_or (rq_approval_id r) identifier_is_bounded
  && is_none_or (target_request_id r) identifier_is_bounded
  && match rq_payload r with
     | PayApprovalDecide approval_id _ => identifier_is_bounded approval_id
     | _ => true
     end.

(** ** Capabilities *)

Definition capability_is_daemon_scoped (capability : Capability) : bool :=
  match capability with
  | CapDaemonStatus | CapDaemonStop | CapDaemonActivity | CapDaemonLogs | CapDaemonStats | CapCallerList
  | CapModelStatus | CapModelInfer | CapModelRegister | CapModelLoad | CapModelUnload | CapModelUnregister
  | CapModelVerify | CapModelSweep | CapModelDeleteWeights | CapGrantRevoke | CapNetworkDiagnostics
  | CapConnectorList | CapConnectorConfigure | CapConnectorTest
  | CapResetAccess | CapResetIdentity | CapResetHistory | CapResetRegistry => true
  | _ => false
  end.

Definition capability_matches (capability : Capability) (payload : RequestPayload) : bool :=
  match capability, payload with
  | CapDaemonStatus, PayStatus | CapDaemonStop, PayStop | CapDaemonActivity, PayDaemonActivity _
  | CapDaemonLogs, PayDaemonLogs _ | CapDaemonStats, PayDaemonStats _ | CapCallerList, PayCallerList
  | CapProjectCurrent, PayProjectCurrent | CapApprovalDecide, PayApprovalDecide _ _
  | CapCancelRequest, PayCancel _ _ | CapReplayEvents, PayReplay _ _ _ | CapBrief, PayBrief
  | CapNetworkDiagnostics, PayNetworkDiagnostics | CapWaitForResult, PayWaitForResult _ _ _
  | CapGetResult, PayGetResult _ _ | CapInspectEvidence, PayInspectEvidence _
  | CapReadEvidence, PayReadEvidence _ _ _ | CapModelInfer, PayModelInfer _ _ _
  | CapModelStatus, PayModelStatus | CapModelRegister, PayModelRegister _ | CapModelLoad, PayModelLoad _
  | CapModelUnload, PayModelUnload | CapModelUnregister, PayModelUnregister _
  | CapModelVerify, PayModelVerify _ | CapModelSweep, PayModelSweep
  | CapModelDeleteWeights, PayModelDeleteWeights _ | CapGrantRevoke, PayGrantRevoke _
  | CapFlowRun, PayFlowRun _ _ | CapConnectorList, PayConnectorList
  | CapConnectorConfigure, PayConnectorConfigure _ _ _ _ | CapConnectorTest, PayConnectorTest _
  | CapResetAccess, PayResetAccess _ | CapResetIdentity, PayResetIdentity _
  | CapResetHistory, PayResetHistory _ | CapResetRegistry, PayResetRegistry _ => true
  | _, _ => false
  end.

Definition request_shape_is_valid `{TomlParser} (r : RequestEnvelope) : bool :=
  capability_matches (rq_capability r) (rq_payload r)
  && (match rq_capability r with CapApprovalDecide => false | _ => true end || bool_decide (rq_approval_id r = None))
  && is_ok (validate_model_request r) && is_ok (validate_flow_request r)
  && is_ok (validate_connector_request r) && is_ok (validate_grant_request r).

(** ** The resource of a policy decision *)

Definition reset_resource (tier : string) (dry_run : bool) : string :=
  "reset:" +:+ tier +:+ ":mode=" +:+ (if dry_run then "preview" else "apply").

Definition target_policy_resource (target_request_id : RequestId)
    (expected_target_kind : option ExpectedTargetKind) (after_sequence : option Z) : string :=
  let after := match after_sequence with Some n => ":after=" +:+ pretty n | None => EmptyString end in
  match expected_target_kind with
  | None => "request:" +:+ target_request_id +:+ after
  | Some kind =>
    "flow-request-v4:id-bytes=" +:+ pretty (len target_request_id) +:+ ":id=" +:+ target_request_id
      +:+ ":kind=" +:+ policy_label kind +:+ after
  end.

(** [None] for a flow run, whose resource is prepared from its workspace. *)
Definition policy_resource_text (r : RequestEnvelope) : option string :=
  match rq_payload r with
  | PayStatus | PayStop | PayDaemonActivity _ | PayDaemonLogs _ | PayDaemonStats _ | PayCallerList
  | PayModelStatus => Some "daemon"
  | PayProjectCurrent => Some "project"
  | PayModelRegister registration => Some ("model:" +:+ mr_model registration)
  | PayGrantRevoke capability => Some ("grant:" +:+ capability)
  | PayConnectorList => Some "connector"
  | PayConnectorConfigure connector _ _ _ | PayConnectorTest connector => Some ("connector:" +:+ connector)
  | PayApprovalDecide _ _ => Some "approval"
  | PayBrief => Some ("project:" +:+ rq_project_id r)
  | PayNetworkDiagnostics => Some "network:configuration"
  | PayCancel target kind | PayGetResult target kind => Some (target_policy_resource target kind None)
  | PayReplay target after kind | PayWaitForResult target after kind =>
    Some (target_policy_resource target kind (Some after))
  | PayInspectEvidence handle => Some ("evidence:" +:+ handle_str handle)
  | PayReadEvidence handle offset length =>
    Some ("evidence:" +:+ handle_str handle +:+ ":offset=" +:+ pretty offset +:+ ":length=" +:+ pretty length)
  | PayModelInfer model _ _ | PayModelLoad model | PayModelUnregister model | PayModelDeleteWeights model =>
    Some ("model:" +:+ model)
  | PayModelUnload => Some "models:loaded"
  | PayModelVerify model => Some (match model with None => "model:all" | Some model => "model:" +:+ model end)
  | PayModelSweep => Some "models:directory"
  | PayResetAccess dry_run => Some (reset_resource "access" dry_run)
  | PayResetIdentity dry_run => Some (reset_resource "identity" dry_run)
  | PayResetHistory dry_run => Some (reset_resource "history" dry_run)
  | PayResetRegistry dry_run => Some (reset_resource "registry" dry_run)
  | PayFlowRun _ _ => None
  end%string.

Definition policy_resource (r : RequestEnvelope) : res InvalidName ResourceName :=
  match policy_resource_text r with
  | Some resource => resource_parse resource
  | None => Err InvalidResourceName
  end.

(** ** Results *)

Definition failure_result (r : RequestEnvelope) (code : FailureCode) (message : string) : ResultEnvelope :=
  {| re_protocol_version := PROTOCOL_VERSION; re_request_id := rq_request_id r;
     re_project_id := rq_project_id r;
     re_body := BodyFailure {| fa_code := code; fa_message := message; fa_recovery := None;
                               fa_approval := None |} |}.

(** [if let ResultBody::Failure(body) = .. { body.recovery = Some(..) }]. *)
Definition with_recovery (recovery : string) (result : ResultEnvelope) : ResultEnvelope :=
  match re_body result with
  | BodyFailure f =>
    {| re_protocol_version := re_protocol_version result; re_request_id := re_request_id result;
       re_project_id := re_project_id result;
       re_body := BodyFailure {| fa_code := fa_code f; fa_message := fa_message f;
                                 fa_recovery := Some recovery; fa_approval := fa_approval f |} |}
  | BodySuccess _ _ => result
  end.

Definition success_result (r : RequestEnvelope) (truth : OperationTruth) (payload : ResultPayload)
  : ResultEnvelope :=
  {| re_protocol_version := PROTOCOL_VERSION; re_request_id := rq_request_id r;
     re_project_id := rq_project_id r; re_body := BodySuccess truth payload |}.

Definition shape_failure (r : RequestEnvelope) : ResultEnvelope :=
  failure_result r CodeInvalidRequest "capability and payload do not match".

Definition unauthenticated_failure (r : RequestEnvelope) : ResultEnvelope :=
  with_recovery "pam caller register" (failure_result r CodeUnauthenticated "caller authentication failed").

Definition target_not_found (r : RequestEnvelope) : ResultEnvelope :=
  failure_result r CodeNotFound "target request was not found in this project".

Definition flow_submission_error_message (error : FlowSubmissionError) : string :=
  match error with
  | InvalidFlowSubmission => "flow definition is invalid"
  | UnsupportedDefinition =>
    "flow contains an action, classification, or approval unsupported by this daemon"
  | WorkspaceUnavailable => "the exact workspace authority could not be established"
  end.

(** [Display] of a store error. *)
Definition store_error_display (e : StoreError) : string :=
  match e with
  | Io => "Pam could not prepare its durable state path."
  | Sqlite => "Pam durable state is unavailable or corrupt."
  | InvalidCallerCredential => "caller credential must contain 1 to 256 bytes"
  | CallerAlreadyRegistered caller_id => "caller " +:+ caller_id +:+ " is already registered"
  | AuditEventAlreadyExists => "audit event ID already exists"
  | InvalidAuditEvent reason => "invalid audit event: " +:+ reason
  | InvalidProjectRoot reason => "invalid project root: " +:+ reason
  | InvalidAuditBatchLimit _ _ => "invalid audit batch limit"
  | AuditCursorOutOfRange _ => "audit cursor exceeds storage range"
  | AuditHighWaterAhead _ _ => "audit high-water sequence exceeds the current ledger"
  | InvalidAuditCursorRange _ _ => "audit high-water sequence precedes the after sequence"
  | GrantAlreadyExists grant_id => "grant " +:+ grant_id +:+ " already exists"
  | ApprovalNotFound approval_id => "approval " +:+ approval_id +:+ " does not exist"
  | InvalidApprovalState => "approval is not awaiting this decision"
  | ApprovalExpiryOverflow => "approval expiry overflowed"
  | RequestNotFound id => "request " +:+ id +:+ " does not exist"
  | RequestIdConflict id => "request ID " +:+ id +:+ " is already in use"
  | IdempotencyConflict id => "idempotency key belongs to a different operation (" +:+ id +:+ ")"
  | StaleLease id => "lease for request " +:+ id +:+ " is stale"
  | InvalidFlowCheckpoint reason => "invalid flow checkpoint: " +:+ reason
  | FlowCheckpointTooLarge size maximum =>
    "flow checkpoint is " +:+ pretty size +:+ " bytes; the maximum is " +:+ pretty maximum +:+ " bytes"
  | FlowTransitionTooLarge size maximum =>
    "flow transition is " +:+ pretty size +:+ " bytes; the maximum is " +:+ pretty maximum +:+ " bytes"
  | FlowTerminalResultTooLarge size maximum =>
    "flow terminal result is " +:+ pretty size +:+ " bytes; the maximum is " +:+ pretty maximum +:+ " bytes"
  | FlowCheckpointRevisionConflict id expected actual =>
    "flow checkpoint revision conflict for " +:+ id +:+ ": expected " +:+ pretty expected
      +:+ ", found " +:+ pretty actual
  | FlowCheckpointConflict id => "flow checkpoint replay for " +:+ id +:+ " conflicts with durable state"
  | FlowDefinitionDigestMismatch id => "flow definition digest for " +:+ id +:+ " does not match durable state"
  | FlowCheckpointRequestMismatch id => "flow checkpoint run ID does not match request " +:+ id
  | FlowTerminalOutcomeConflict id =>
    "flow terminal outcome for " +:+ id +:+ " conflicts with durable request state"
  | FlowEffectStartConflict id => "flow effect start for " +:+ id +:+ " conflicts with durable request state"
  | CorruptFlowAuthorization id => "flow authorization for " +:+ id +:+ " is corrupt"
  | CorruptFlowCheckpoint id => "flow checkpoint for " +:+ id +:+ " is corrupt"
  | FlowCheckpointRevisionOverflow => "flow checkpoint revision overflowed"
  | InvalidState state => "invalid stored request state " +:+ state
  | TimestampOutOfRange timestamp => "timestamp " +:+ pretty timestamp +:+ " does not fit SQLite INTEGER"
  | LeaseDurationZero => "lease duration must be non-zero"
  | LeaseExpiryOverflow => "lease expiry overflowed"
  | EvidenceTooLarge size maximum =>
    "evidence is " +:+ pretty size +:+ " bytes; the maximum is " +:+ pretty maximum +:+ " bytes"
  | EvidenceRangeTooLarge length maximum =>
    "evidence range is " +:+ pretty length +:+ " bytes; the maximum is " +:+ pretty maximum +:+ " bytes"
  | EvidenceRangeOutOfBounds offset size =>
    "evidence offset " +:+ pretty offset +:+ " exceeds content size " +:+ pretty size
  | InvalidEvidenceMediaType => "evidence media type is invalid"
  | InvalidEvidencePruneRetention => "persistent evidence cannot be pruned by retention policy"
  | InvalidEvidencePruneLimit _ _ => "invalid evidence prune batch limit"
  | EvidenceNotFound project_id handle =>
    "evidence " +:+ handle_str handle +:+ " does not exist in project " +:+ project_id
  | EvidenceHandleConflict project_id handle =>
    "evidence " +:+ handle_str handle +:+ " already identifies different content in project " +:+ project_id
  | EvidenceBlobMissing digest => "evidence blob " +:+ digest_str digest +:+ " is missing"
  | EvidenceBlobCorrupt digest => "evidence blob " +:+ digest_str digest +:+ " failed verification"
  | UnsafeEvidencePath => "evidence storage path is unsafe"
  | InvalidSkillInventory reason => "skill inventory is invalid: " +:+ reason
  | CorruptSkillArtifact => "stored skill artifact metadata is corrupt"
  | SkillArtifactNotFound project_id artifact_id =>
    "skill artifact " +:+ artifact_id +:+ " does not exist in project " +:+ project_id
  | SkillInventoryTimestampRegression artifact_id observed stored =>
    "skill artifact " +:+ artifact_id +:+ " was observed at " +:+ pretty observed
      +:+ ", before stored timestamp " +:+ pretty stored
  | SkillInventoryObservationRegression project_id observed stored =>
    "skill inventory for project " +:+ project_id +:+ " was observed at " +:+ pretty observed
      +:+ ", before project watermark " +:+ pretty stored
  | SkillInventoryObservationConflict project_id observed =>
    "skill inventory for project " +:+ project_id
      +:+ " conflicts with a different snapshot already observed at " +:+ pretty observed
  end%string.

Definition store_failure_result (r : RequestEnvelope) (error : StoreError) : ResultEnvelope :=
  let code := match error with
              | IdempotencyConflict _ => CodeIdempotencyConflict
              | RequestIdConflict _ => CodeInvalidRequest
              | _ => CodeInternal
              end in
  failure_result r code (store_error_display error).

(** ** What a refusal tells the caller *)

Definition shell_safe_policy_argument (value : string) : bool :=
  negb (str_is_empty value) && negb (String.prefix "-" value)
  && all_bytes (fun b => is_ascii_alphanumeric b || one_of "-_.:/=+" b) value.

Definition typed_flow_approval_recovery (r : RequestEnvelope) (approval_id : ApprovalId) : option string :=
  if negb (shell_safe_policy_argument approval_id) then None
  else
    let run (target : RequestId) (command : string) :=
      if shell_safe_policy_argument target
      then Some ("pam approval approve " +:+ approval_id +:+ ", then run " +:+ command) else None in
    match rq_payload r with
    | PayCancel target (Some TargetFlowRun) =>
      run target ("pam flow cancel " +:+ target +:+ " --approval-id " +:+ approval_id)
    | PayReplay target after (Some TargetFlowRun) =>
      run target ("pam flow logs " +:+ target +:+ " --after " +:+ pretty after +:+ " --approval-id " +:+ approval_id)
    | PayWaitForResult target after (Some TargetFlowRun) =>
      run target ("pam flow wait " +:+ target +:+ " --after " +:+ pretty after +:+ " --approval-id " +:+ approval_id)
    | PayGetResult target (Some TargetFlowRun) =>
      run target ("pam flow result " +:+ target +:+ " --approval-id " +:+ approval_id)
    | _ => None
    end%string.

Definition approval_recovery (r : RequestEnvelope) (approval_id : ApprovalId) : string :=
  if negb (shell_safe_policy_argument approval_id)
  then "approve the exact request using a shell-quoted approval ID, then retry without changing its effect"
  else
    match typed_flow_approval_recovery r approval_id with
    | Some recovery => recovery
    | None =>
      match rq_capability r with
      | CapDaemonStatus | CapProjectCurrent | CapBrief | CapNetworkDiagnostics | CapWaitForResult
      | CapGetResult | CapModelInfer | CapModelLoad | CapModelUnload | CapModelUnregister | CapModelVerify
      | CapModelSweep | CapModelDeleteWeights | CapFlowRun | CapResetAccess | CapResetIdentity
      | CapResetHistory | CapResetRegistry =>
        "pam approval approve " +:+ approval_id
          +:+ ", then retry the original command with --approval-id " +:+ approval_id
      | CapInspectEvidence | CapReadEvidence =>
        "pam approval approve " +:+ approval_id
          +:+ "; pam evidence show spans inspection and range reads, so this one-request receipt must be retried by a protocol client against the exact challenged request"
      | _ =>
        "pam approval approve " +:+ approval_id
          +:+ "; Pam has no CLI retry surface for this capability, so a protocol client must attach this one-request receipt to the exact challenged request"
      end
    end%string.

Definition grant_recovery (r : RequestEnvelope) (resource : res InvalidName ResourceName) : string :=
  let capability := policy_name (rq_capability r) in
  let scope := if is_daemon_scope (rq_project_id r) then " --daemon"%string else EmptyString in
  match resource with
  | Ok resource =>
    if shell_safe_policy_argument capability && shell_safe_policy_argument resource
    then "pam access grant " +:+ capability +:+ scope +:+ " --resource " +:+ resource
    else "run pam access grant with the denied capability and exact resource, quoted for your shell"
  | _ => "review the denied capability and resource before adding a grant"
  end%string.

Definition authorization_failure_with_resource (r : RequestEnvelope) (outcome : AuthorizationOutcome)
    (resource : res InvalidName ResourceName) : res DaemonError ResultEnvelope :=
  let failed code message recovery approval :=
    Ok {| re_protocol_version := PROTOCOL_VERSION; re_request_id := rq_request_id r;
          re_project_id := rq_project_id r;
          re_body := BodyFailure {| fa_code := code; fa_message := message; fa_recovery := recovery;
                                    fa_approval := approval |} |} in
  match outcome with
  | AuthAllowed => Panic
  | AuthDenied =>
    failed CodeForbidden "project policy denied this capability" (Some (grant_recovery r resource)) None
  | AuthApprovalRequired approval_id expires_at_ms =>
    failed CodeApprovalRequired "this exact effect requires approval" (Some (approval_recovery r approval_id))
      (Some {| ac_approval_id := approval_id; ac_expires_at_unix_ms := expires_at_ms |})
  | AuthApprovalDenied => failed CodeApprovalDenied "approval was denied" None None
  | AuthApprovalExpired => failed CodeApprovalExpired "approval expired before use" None None
  end%string.

Definition authorization_failure (r : RequestEnvelope) (outcome : AuthorizationOutcome)
  : res DaemonError ResultEnvelope :=
  authorization_failure_with_resource r outcome (policy_resource r).

Definition flow_authorization_failure (r : RequestEnvelope) (resource : ResourceName)
    (outcome : FlowAuthorizationOutcome) : res DaemonError ResultEnvelope :=
  let? outcome :=
    match outcome with
    | FlowAccepted _ => Panic
    | FlowDenied => Ok AuthDenied
    | FlowApprovalRequired approval_id expires_at_ms => Ok (AuthApprovalRequired approval_id expires_at_ms)
    | FlowApprovalDenied => Ok AuthApprovalDenied
    | FlowApprovalExpired => Ok AuthApprovalExpired
    end in
  authorization_failure_with_resource r outcome (Ok resource).

(** ** What is served *)

Definition cancellation_presentation (outcome : CancelOutcome) : CancellationDisposition * OperationTruth :=
  let disposition := match outcome with
                     | OutcomeCancelled | OutcomeCancellationRequested => DispRequested
                     | OutcomeAlreadyRequested => DispAlreadyRequested
                     | OutcomeAlreadyTerminal ReqCancelled => DispAlreadyCancelled
                     | OutcomeAlreadyTerminal _ => DispAlreadyTerminal
                     end in
  (disposition, match disposition with DispRequested => TruthChanged | _ => TruthObserved end).

Definition cancelled_result (target_request_id : RequestId) (target_project_id : ProjectId) : ResultEnvelope :=
  {| re_protocol_version := PROTOCOL_VERSION; re_request_id := target_request_id;
     re_project_id := target_project_id;
     re_body := BodyFailure {| fa_code := CodeCancelled; fa_message := "request was cancelled";
                               fa_recovery := None; fa_approval := None |} |}.

Definition encoded_cancelled_result `{WireCodec} (target_request_id : RequestId)
    (target_project_id : ProjectId) : res CodecError string :=
  encode_message (MessageResult (cancelled_result target_request_id target_project_id)).

Definition brief_item_is_bounded (item : BriefItem) : bool :=
  (len (bi_text item) <=? MAX_BRIEF_TEXT_BYTES)
  && (Z.of_nat (length (bi_evidence item)) <=? MAX_BRIEF_EVIDENCE_HANDLES).

Definition section_is_bounded (items : list BriefItem) : bool :=
  (Z.of_nat (length items) <=? MAX_BRIEF_SECTION_ITEMS) && forallb brief_item_is_bounded items.

Definition brief_is_bounded (brief : BriefResult) : bool :=
  is_none_or (br_goal brief) brief_item_is_bounded
  && section_is_bounded (br_decisions brief) && section_is_bounded (br_verified brief)
  && section_is_bounded (br_next brief)
  && (Z.of_nat (length (br_provenance brief)) <=? MAX_BRIEF_PROVENANCE_ITEMS)
  && forallb (fun entry => (len (bp_source entry) <=? MAX_BRIEF_SOURCE_BYTES)
                           && is_none_or (bp_detail entry) (fun detail => len detail <=? MAX_BRIEF_DETAIL_BYTES))
       (br_provenance brief).

Definition brief_truth (brief : BriefResult) : OperationTruth :=
  match br_provenance brief with
  | [] => TruthUnresolved
  | sources =>
    if existsb (fun source => match bp_truth source with TruthBlocked => true | _ => false end) sources
    then TruthBlocked
    else if existsb (fun source => match bp_truth source with TruthUnresolved => true | _ => false end) sources
    then TruthUnresolved
    else TruthObserved
  end.

Definition clamp_activity_limit (limit : Z) : Z :=
  if limit =? 0 then 50 else if limit >? 100 then 100 else limit.
Definition clamp_logs_limit (limit : Z) : Z :=
  if limit =? 0 then 200 else if limit >? 512 then 512 else limit.

Definition protocol_activity_event (record : AuditEventRecord) : ActivityEventSummary :=
  let event := aer_event record in
  {| ae_sequence := au_sequence event; ae_project_id := au_project_id event;
     ae_caller_id := au_caller_id event; ae_action := au_action event;
     ae_decision := au_decision event; ae_outcome := au_outcome event;
     ae_occurred_at_ms := au_occurred_at_ms event; ae_project_root := aer_project_root record |}.

Definition protocol_project_request_state (state : RequestState) : ProjectRequestState :=
  match state with
  | ReqQueued => StateQueued
  | ReqLeased => StateLeased
  | ReqCancellationRequested => StateCancellationRequested
  | ReqSucceeded => StateSucceeded
  | ReqFailed => StateFailed
  | ReqCancelled => StateCancelled
  end.

Definition protocol_project_request (r : StoreView.ProjectRequestSummary) : cres ProjectRequestSummary :=
  request_summary_new (StoreView.ps_request_id r) (StoreView.ps_operation_kind r)
    (protocol_project_request_state (StoreView.ps_state r)) (StoreView.ps_queue_sequence r)
    (StoreView.ps_accepted_at_ms r) (StoreView.ps_completed_at_ms r).

Definition opt_cres {A B} (f : A -> cres B) (o : option A) : cres (option B) :=
  match o with None => Ok None | Some a => let? b := f a in Ok (Some b) end.
Fixpoint map_cres {A B} (f : A -> cres B) (l : list A) : cres (list B) :=
  match l with
  | [] => Ok []
  | a :: l => let? b := f a in let? l := map_cres f l in Ok (b :: l)
  end.

Definition protocol_project_current (current : StoreView.ProjectCurrent) : cres ProjectCurrentResult :=
  let? queued := map_cres protocol_project_request (StoreView.pc_queued current) in
  let? active := opt_cres protocol_project_request (StoreView.pc_active current) in
  let? latest := opt_cres protocol_project_request (StoreView.pc_latest_terminal current) in
  project_current_new queued active latest (StoreView.pc_queued_truncated current).

Definition configuration_presence_label (value : ConfigurationPresence) : string :=
  match value with
  | Configured => "configured" | NotConfigured => "not_configured" | InvalidConfiguration => "invalid"
  end.
Definition pac_state_label (value : PacState) : string :=
  match value with
  | PacNotDetected => "not_detected" | PacDetectedUnsupported => "detected_unsupported"
  | PacInspectionUnavailable => "inspection_unavailable"
  end.
Definition truth_label (value : OperationTruth) : string :=
  match value with
  | TruthObserved => "observed" | TruthChanged => "changed" | TruthVerified => "verified"
  | TruthUnresolved => "unresolved" | TruthBlocked => "blocked"
  end.

(** ** The messages of a request for those who wait for it *)

Definition remap_message (event_request_id observer_request_id : RequestId) (project_id : ProjectId)
    (message : ServerMessage) : ServerMessage :=
  match message with
  | MessageEvent e =>
    MessageEvent {| ee_protocol_version := ee_protocol_version e; ee_request_id := event_request_id;
                    ee_project_id := project_id; ee_sequence := ee_sequence e; ee_event := ee_event e |}
  | MessageResult result =>
    MessageResult {| re_protocol_version := re_protocol_version result;
                     re_request_id := observer_request_id; re_project_id := project_id;
                     re_body := re_body result |}
  end.

Definition remap_messages (messages : list ServerMessage) (event_request_id observer_request_id : RequestId)
    (project_id : ProjectId) : list ServerMessage :=
  remap_message event_request_id observer_request_id project_id <$> messages.

Definition oversized_response_failure (message : ServerMessage) : ServerMessage :=
  let '(request_id, project_id) := match message with
                                   | MessageEvent e => (ee_request_id e, ee_project_id e)
                                   | MessageResult result => (re_request_id result, re_project_id result)
                                   end in
  MessageResult {| re_protocol_version := PROTOCOL_VERSION; re_request_id := request_id;
                   re_project_id := project_id;
                   re_body := BodyFailure {| fa_code := CodeFrameTooLarge;
                     fa_message := "response exceeded the local protocol frame limit";
                     fa_recovery := None; fa_approval := None |} |}.

(** ** A resource names one effect *)

Section resources.
Context `{TomlParser}.

Definition digits (s : list ascii) : Prop := Forall (fun a => is_ascii_digit a = true) s.

Lemma bytes_append s t : bytes (s +:+ t) = bytes s ++ bytes t.
Proof. induction s as [|a s IH]; [done|]. unfold bytes in *. cbn. by rewrite IH. Qed.

Lemma bytes_inj s t : bytes s = bytes t -> s = t.
Proof.
  intros Heq. rewrite <- (String.string_of_list_ascii_of_string s), <- (String.string_of_list_ascii_of_string t).
  unfold bytes in Heq. by rewrite Heq.
Qed.

Lemma digits_pretty z : 0 <= z -> digits (bytes (pretty z)).
Proof.
  intros Hz. assert (Hgo : forall x s, digits (bytes s) -> digits (bytes (pretty_N_go x s))).
  { intros x. induction (N.lt_wf_0 x) as [x _ IH]. intros s Hs.
    destruct (decide (x = 0)%N) as [->|]; [by rewrite pretty_N_go_0|].
    rewrite pretty_N_go_step by lia. apply IH; [apply N.div_lt; lia|]. apply Forall_cons. split; [|done].
    unfold pretty_N_char. by repeat case_match. }
  destruct z as [|z|z]; [by repeat constructor| |lia].
  change (pretty (Z.pos z)) with (pretty (N.pos z)). unfold pretty, pretty_N. case_decide; [done|].
  apply Hgo. by apply Forall_nil.
Qed.

(** A number ends where the digits end. *)
Lemma digits_prefix x y c d s t :
  digits x -> digits y -> is_ascii_digit c = false -> is_ascii_digit d = false ->
  x ++ c :: s = y ++ d :: t -> x = y /\ c :: s = d :: t.
Proof.
  intros Hx. revert y. induction Hx as [|a x Ha Hx IH]; intros y Hy Hc Hd Heq.
  - destruct Hy as [|b y Hb Hy]; [done|]. injection Heq as <- _. congruence.
  - destruct Hy as [|b y Hb Hy]; [injection Heq as <- _; congruence|]. injection Heq as <- Heq.
    destruct (IH y Hy Hc Hd Heq) as [-> ?]. done.
Qed.

Lemma digits_suffix x y c d s t :
  digits x -> digits y -> is_ascii_digit c = false -> is_ascii_digit d = false ->
  (s ++ [c]) ++ x = (t ++ [d]) ++ y -> s ++ [c] = t ++ [d] /\ x = y.
Proof.
  intros Hx Hy Hc Hd Heq. apply (f_equal reverse) in Heq. rewrite !reverse_app in Heq. cbn in Heq.
  destruct (digits_prefix (reverse x) (reverse y) c d (reverse s) (reverse t)) as [H1 H2]; try done.
  - by apply Forall_reverse.
  - by apply Forall_reverse.
  - apply (inj reverse) in H1 as ->. split; [|done]. apply (inj reverse). by rewrite !reverse_app.
Qed.

(** A text, a separator that ends with no digit, and a number. *)
Lemma numbered_inj s t sep m n :
  (exists front c, bytes sep = front ++ [c] /\ is_ascii_digit c = false) -> 0 <= m -> 0 <= n ->
  s +:+ sep +:+ pretty m = t +:+ sep +:+ pretty n -> s = t /\ m = n.
Proof.
  intros (front & c & Hsep & Hc) Hm Hn Heq. apply (f_equal bytes) in Heq.
  rewrite !bytes_append, Hsep, !app_assoc in Heq. rewrite <- !(app_assoc (bytes _) front [c]) in Heq.
  rewrite !(app_assoc (bytes _) front [c]) in Heq.
  apply digits_suffix in Heq as [Hst Hmn]; try done; try by apply digits_pretty.
  rewrite <- !app_assoc in Hst. apply app_inv_tail in Hst. split; [by apply bytes_inj|].
  by apply bytes_inj, (inj pretty) in Hmn.
Qed.

Lemma append_inj_r (s t p : string) : s +:+ p = t +:+ p -> s = t.
Proof.
  intros Heq. apply (f_equal bytes) in Heq. rewrite !bytes_append in Heq. by apply app_inv_tail, bytes_inj in Heq.
Qed.

(** The target of a request, as it is bound by a resource. *)
Lemma target_resource_inj id1 id2 kind1 kind2 after1 after2 :
  is_Some after1 <-> is_Some after2 ->
  (forall n, after1 = Some n -> 0 <= n) -> (forall n, after2 = Some n -> 0 <= n) ->
  target_policy_resource id1 kind1 after1 = target_policy_resource id2 kind2 after2 ->
  id1 = id2 /\ kind1 = kind2 /\ after1 = after2.
Proof.
  intros Hsome H1 H2 Heq. destruct kind1 as [[]|], kind2 as [[]|].
  - unfold target_policy_resource in Heq. apply append_inj_l in Heq.
    assert (Hnum : forall rest1 rest2,
      pretty (len id1) +:+ ":id=" +:+ id1 +:+ rest1 = pretty (len id2) +:+ ":id=" +:+ id2 +:+ rest2 ->
      id1 = id2 /\ rest1 = rest2).
    { intros rest1 rest2 Hr. pose proof Hr as Hr'. apply (f_equal bytes) in Hr. rewrite !bytes_append in Hr.
      apply digits_prefix in Hr as [Hl _]; try done; try (apply digits_pretty; unfold len; lia).
      apply bytes_inj in Hl. rewrite Hl in Hr'. apply append_inj_l, append_inj_l in Hr'.
      apply (inj pretty) in Hl. apply append_inj_length in Hr'; [done|]. unfold len in Hl. lia. }
    apply Hnum in Heq as [-> Heq]. apply append_inj_l, append_inj_l in Heq.
    split; [done|]. split; [done|]. destruct after1 as [m|], after2 as [n|]; try done; [|by destruct Hsome; naive_solver..].
    apply append_inj_l in Heq. by apply (inj pretty) in Heq as ->.
  - discriminate Heq.
  - discriminate Heq.
  - unfold target_policy_resource in Heq. apply append_inj_l in Heq.
    destruct after1 as [m|], after2 as [n|]; try by (exfalso; naive_solver).
    + apply (numbered_inj id1 id2 ":after=" m n) in Heq as [-> ->]; [done| |by apply H1|by apply H2].
      by exists (bytes ":after"), "="%char.
    + by rewrite !append_nil_r in Heq.
Qed.

(** What a request does, as far as a decision about it binds it: the limits of
    the daemon's reports, the messages of an inference, the file of a
    registration and the settings of a connector are not bound. *)
Definition same_effect (p q : RequestPayload) : Prop :=
  match p, q with
  | PayDaemonActivity _, PayDaemonActivity _ | PayDaemonLogs _, PayDaemonLogs _ | PayDaemonStats _, PayDaemonStats _
  | PayApprovalDecide _ _, PayApprovalDecide _ _ => True
  | PayModelInfer a _ _, PayModelInfer b _ _ => a = b
  | PayModelRegister a, PayModelRegister b => mr_model a = mr_model b
  | PayConnectorConfigure a _ _ _, PayConnectorConfigure b _ _ _ => a = b
  | p, q => p = q
  end.

(** The numbers of a payload that a resource names. *)
Definition numbers_ok (p : RequestPayload) : Prop :=
  match p with
  | PayReplay _ after _ | PayWaitForResult _ after _ => 0 <= after
  | PayReadEvidence _ offset length => 0 <= offset /\ 0 <= length
  | _ => True
  end.

Lemma model_all_invalid : ~ is_ok (validate_model_id "all") = true.
Proof. by vm_compute. Qed.

Lemma shape_matches r : request_shape_is_valid r = true -> capability_matches (rq_capability r) (rq_payload r) = true.
Proof. unfold request_shape_is_valid. intros Hs. by repeat (apply andb_true_iff in Hs as [Hs _]). Qed.

Lemma shape_verifies r model :
  request_shape_is_valid r = true -> rq_payload r = PayModelVerify (Some model) -> model <> "all"%string.
Proof.
  unfold request_shape_is_valid. intros Hs Hp ->. do 3 apply andb_true_iff in Hs as [Hs _].
  apply andb_true_iff in Hs as [_ Hm]. apply model_all_invalid. unfold validate_model_request in Hm.
  by rewrite Hp in Hm.
Qed.

Lemma evidence_resource_inj h1 h2 o1 o2 l1 l2 :
  0 <= o1 /\ 0 <= l1 -> 0 <= o2 /\ 0 <= l2 ->
  handle_str h1 +:+ ":offset=" +:+ pretty o1 +:+ ":length=" +:+ pretty l1
    = handle_str h2 +:+ ":offset=" +:+ pretty o2 +:+ ":length=" +:+ pretty l2 ->
  h1 = h2 /\ o1 = o2 /\ l1 = l2.
Proof.
  intros [Ho1 Hl1] [Ho2 Hl2] Heq.
  destruct (numbered_inj (handle_str h1 +:+ ":offset=" +:+ pretty o1) (handle_str h2 +:+ ":offset=" +:+ pretty o2)
           ":length=" l1 l2) as [Hh ->]; [by exists (bytes ":length"), "="%char|done|done|by rewrite !append_assoc|].
  apply numbered_inj in Hh as [Hh ->]; [|by exists (bytes ":offset"), "="%char|done|done].
  destruct h1, h2. cbn in Hh. by subst.
Qed.

Lemma policy_resource_inv r resource : policy_resource r = Ok resource -> policy_resource_text r = Some resource.
Proof.
  unfold policy_resource, resource_parse, bounded_name_parse. destruct (policy_resource_text r); [|done].
  by case_match; [|intros [= ->]].
Qed.

(** C30: a resource names one effect. Two well-formed requests of the same
    capability whose policy resources are equal have the same effect, as far as
    a decision binds it: the same target with its expected kind and cursor, the
    same evidence range, the same model, the same mode of a reset. A grant or an
    approval for the one is none for something else, whatever the identifiers
    contain. *)
Theorem policy_resource_exact r1 r2 resource :
  request_shape_is_valid r1 = true -> request_shape_is_valid r2 = true ->
  numbers_ok (rq_payload r1) -> numbers_ok (rq_payload r2) -> rq_capability r1 = rq_capability r2 ->
  policy_resource r1 = Ok resource -> policy_resource r2 = Ok resource ->
  same_effect (rq_payload r1) (rq_payload r2).
Proof.
  intros Hs1 Hs2 Hn1 Hn2 Hcap Hr1%policy_resource_inv Hr2%policy_resource_inv.
  pose proof (shape_matches r1 Hs1) as Hm1. pose proof (shape_matches r2 Hs2) as Hm2. rewrite <- Hcap in Hm2.
  pose proof (fun m => shape_verifies r1 m Hs1) as Hv1. pose proof (fun m => shape_verifies r2 m Hs2) as Hv2.
  unfold policy_resource_text in Hr1, Hr2.
  destruct (rq_capability r1); destruct (rq_payload r1); try discriminate Hm1;
    destruct (rq_payload r2); try discriminate Hm2; try done; cbn [same_effect numbers_ok] in *;
    injection Hr1 as <-; injection Hr2 as Heq.
  1-4: apply target_resource_inj in Heq as (-> & -> & Hafter);
    [first [by injection Hafter as -> | done] | first [done | by split; intros _; eexists] | by intros n [= <-] | by intros n [= <-]].
  2: by apply evidence_resource_inj in Heq as (-> & -> & ->).
  all: try by subst.
  - destruct handle, handle0. cbn in Heq. by subst.
  - destruct model as [m1|], model0 as [m2|]; [by injection Heq as ->| | |done].
    + injection Heq as Heq. by destruct (Hv1 m1 eq_refl).
    + injection Heq as Heq. by destruct (Hv2 m2 eq_refl).
  - by destruct dry_run, dry_run0.
  - by destruct dry_run, dry_run0.
  - by destruct dry_run, dry_run0.
  - by destruct dry_run, dry_run0.
Qed.

End resources.

Definition any_toml : TomlParser := {| toml_error := unit; toml_from_str _ := Err tt |}.

Definition sample_replay (key : string) : RequestEnvelope :=
  {| rq_protocol_version := PROTOCOL_VERSION; rq_request_id := key; rq_caller_id := "alice";
     rq_authentication := None; rq_approval_id := None; rq_project_root := None;
     rq_project_id := "project-1"; rq_capability := CapReplayEvents; rq_idempotency_key := key;
     rq_deadline_unix_ms := None; rq_payload := PayReplay "run-1:after=7" 12 (Some TargetFlowRun) |}.

Lemma policy_resource_exact_witness :
  same_effect (rq_payload (sample_replay "req-1")) (rq_payload (sample_replay "req-2")).
Proof.
  apply (@policy_resource_exact any_toml (sample_replay "req-1") (sample_replay "req-2")
           "flow-request-v4:id-bytes=13:id=run-1:after=7:kind=flow_run:after=12"); vm_compute;
    first [reflexivity | discriminate].
Defined.
