(* ===== verification/Incoming.v ===== *)
(** * The handling of an incoming request ([pam_daemon/src/lifecycle.rs])

    [handle_incoming] decodes a frame, admits or refuses it and serves it;
    every answer leaves through [OsRoute], [OsRouteRegistered], [OsStop] or the
    handler that [OsServe] stands for: the handlers of models, connectors,
    evidence, resets, usage statistics and the list of callers are not
    modelled. The permit of a flow preflight is given back when the
    preparation is over. At the end the connection loop's delivery of
    messages to those who wait for a request. *)

From ITree Require Import Core.ITreeDefinition.
From Stdlib Require Import Sorted.
From S2P Require Import Prelude Core Policy Redact Paths FlowDef FlowData Protocol ProtocolRequest ProtocolCodec FlowOperation.
From S2P Require Import StoreDef StoreFlow StoreQueue StoreAudit StoreAccess StoreAuth StoreView Exec FlowCommand FlowExecute Scheduler Admission.

Local Open Scope Z_scope.

(** A text that is redacted before it is stored. *)
Definition redacted_detail {X} (detail : string) : Task X string :=
  match redact_audit_detail detail with Ok text => done text | _ => exec_lift Panic end.

(** [to_le_bytes] of an integer of [n] bytes. *)
Definition le_bytes (n : nat) (z : Z) : string := of_bytes (be_byte z <$> (Z.of_nat <$> seq 0 n)).

Definition retain_until (occurred_at_ms : Z) : Z :=
  Z.min (Z.min u64_max (occurred_at_ms + AUDIT_RETENTION_MS)) i64_max.

Section incoming.
Context `{Sha256} `{FlowCodec} `{WireCodec} `{TomlParser}.
Context (application_version : string) (authentication_required policy_required durable_status : bool)
  (flow_preflight_delay_ms : Z).

(** ** Answers *)

Definition refuse {X} (failure : ResultEnvelope) : Task X unit := os (OsRoute [MessageResult failure]).

Definition send_store_failure {X} (r : RequestEnvelope) (error : StoreError) : Task X unit :=
  refuse (store_failure_result r error).

Definition succeed {X} (r : RequestEnvelope) (truth : OperationTruth) (payload : ResultPayload) : Task X unit :=
  os (OsRoute [MessageResult (success_result r truth payload)]).

(** [match store.call().await { Ok(a) => k, Err(error) => send_store_failure }]. *)
Definition or_store_failure {A} (r : RequestEnvelope) (e : StoreE (sres A)) (k : A -> Task DaemonError unit)
  : Task DaemonError unit :=
  exec_match (store e) k (send_store_failure r).

(** ** The audit of a request *)

Definition audit_event_input (r : RequestEnvelope) (stage : string) (occurred_at_ms : Z) (nonce : Z * Z * Z)
  : string :=
  let '(pid, counter, nanos) := nonce in
  let field (value : string) := le_bytes 8 (len value) +:+ value in
  field (rq_request_id r) +:+ field (rq_project_id r) +:+ field (rq_caller_id r)
    +:+ field (rq_idempotency_key r) +:+ field (policy_name (rq_capability r)) +:+ field stage
    +:+ match rq_approval_id r with Some id => id | None => EmptyString end
    +:+ le_bytes 8 occurred_at_ms +:+ le_bytes 4 pid +:+ le_bytes 8 counter +:+ le_bytes 16 nanos.

Definition request_audit_event_id {X} (r : RequestEnvelope) (stage : string) (occurred_at_ms : Z)
  : Task X string :=
  await! nonce := os OsEventNonce in
  done ("request-preflight-"
          +:+ sha256_hex (from_sha256 (sha256 (audit_event_input r stage occurred_at_ms nonce)))).

(** The event of [append_request_audit], [append_change_audit] and the handlers
    that write their own. *)
Definition append_event (r : RequestEnvelope) (stage action decision outcome detail : string) : Exec unit :=
  await! occurred_at_ms := now_ms in
  await! event_id := request_audit_event_id r stage occurred_at_ms in
  await! text := redacted_detail detail in
  await! _ := store (AppendAudit
    {| ae_event_id := event_id; ae_project_id := rq_project_id r; ae_caller_id := rq_caller_id r;
       ae_action := action; ae_decision := decision; ae_outcome := outcome; ae_redacted_detail := text;
       ae_occurred_at_ms := occurred_at_ms; ae_retain_until_ms := retain_until occurred_at_ms |}) in
  done tt.

Definition append_request_audit (r : RequestEnvelope) (resource : ResourceName)
    (decision outcome detail : string) : Exec unit :=
  append_event r "authentication" "request.preflight" decision outcome
    ("capability=" +:+ policy_name (rq_capability r) +:+ " resource=" +:+ resource +:+ " detail=" +:+ detail).

Definition append_change_audit (r : RequestEnvelope) (action outcome detail : string) : Exec unit :=
  append_event r action action "allow" outcome detail.

(** ** Authentication and authorization *)

Definition authenticate_request (r : RequestEnvelope) : Exec CallerAuthentication :=
  match rq_authentication r with
  | None => done InvalidCredential
  | Some credential => store (AuthenticateCaller (rq_caller_id r) credential)
  end.

Definition authorization_detail (capability : string) (resource : ResourceName) : string :=
  "capability=" +:+ capability +:+ " resource=" +:+ resource +:+ " detail=project policy evaluated".

(** The [AuthorizationAudit] of the decision about a request. *)
Definition decision_audit {X} (r : RequestEnvelope) (capability : string) (resource : ResourceName) (now : Z)
  : Task X AuthorizationAudit :=
  await! detail := redacted_detail (authorization_detail capability resource) in
  await! event_id := request_audit_event_id r "policy" now in
  done {| aa_event_id := event_id; aa_action := "request.preflight"; aa_redacted_detail := detail;
          aa_retain_until_ms := retain_until now |}.

Definition authorize_request (r : RequestEnvelope) (resource : ResourceName) : Exec AuthorizationOutcome :=
  match capability_parse (policy_name (rq_capability r)) with
  | Ok capability =>
    await! now := now_ms in
    await! audit := decision_audit r capability resource now in
    await! uuid := os OsUuid in
    store (AuthorizeAudited uuid
      {| az_caller_id := rq_caller_id r; az_project_id := rq_project_id r; az_capability := capability;
         az_resource := resource; az_approval_id := rq_approval_id r |} audit now APPROVAL_LIFETIME_MS)
  | _ => exec_lift Panic
  end.

(** A failure when the caller must be authenticated and is not. *)
Definition authentication_failure (r : RequestEnvelope) (resource : ResourceName) : Exec (option ResultEnvelope) :=
  if authentication_required then
    await! authentication := authenticate_request r in
    match authentication with
    | Authenticated => done None
    | _ =>
      await! _ := append_request_audit r resource "deny" "unauthenticated" "authentication failed" in
      done (Some (unauthenticated_failure r))
    end
  else done None.

Definition request_authentication_preflight (r : RequestEnvelope) (resource : ResourceName)
  : Exec (option ResultEnvelope) :=
  if negb (request_shape_is_valid r) then done (Some (shape_failure r))
  else authentication_failure r resource.

Definition request_preflight_with_resource (r : RequestEnvelope) (resource_override : option ResourceName)
  : Exec (option ResultEnvelope) :=
  if negb (request_shape_is_valid r) then done (Some (shape_failure r))
  else
    match (match resource_override with Some resource => Ok resource | None => policy_resource r end) with
    | Ok resource =>
      await! failure := authentication_failure r resource in
      match failure with
      | Some failure => done (Some failure)
      | None =>
        if policy_required then
          await! outcome := authorize_request r resource in
          match outcome with
          | AuthAllowed => done None
          | outcome =>
            match authorization_failure r outcome with
            | Ok failure => done (Some failure)
            | _ => exec_lift Panic
            end
          end
        else if authentication_required then
          await! _ := append_request_audit r resource "allow" "authenticated"
                        "authentication succeeded; policy enforcement disabled" in
          done None
        else done None
      end
    | Panic => exec_lift Panic
    | Err _ =>
      done (Some (failure_result r CodeInvalidRequest "request cannot be represented as a policy resource"))
    end.

(** ** The project root of a caller *)

Definition learn_project_root (r : RequestEnvelope) : Exec unit :=
  match rq_project_root r with
  | Some project_root =>
    if is_daemon_scope (rq_project_id r) then done tt
    else
      await! verified := verify_flow_project_root (root_str project_root) (rq_project_id r) in
      match verified with
      | Ok root =>
        if is_utf8 root then
          exec_match (store (RememberProjectRoot (rq_project_id r) root)) (fun _ => done tt) (fun _ => done tt)
        else done tt
      | _ => done tt
      end
  | None => done tt
  end.

(** ** The target of a request *)

(** [target_snapshot], [target_replay] and [target_cancel] choose between the
    plain call and the one [.._with_expected_target]. *)
Definition expected_operation_kind (kind : option ExpectedTargetKind) : option ExpectedOperationKind :=
  match kind with None => None | Some TargetFlowRun => Some ExpectFlowRun end.

Definition target_snapshot (id : RequestId) (kind : option ExpectedTargetKind) : Exec RequestSnapshot :=
  store (SnapshotTarget id (expected_operation_kind kind)).
Definition target_replay (id : RequestId) (after_sequence : Z) (kind : option ExpectedTargetKind) : Exec Replay :=
  store (ReplayTarget id after_sequence (expected_operation_kind kind)).
Definition target_cancel (id : RequestId) (now : Z) (result : string) (kind : option ExpectedTargetKind)
  : Exec CancelOutcome :=
  store (CancelTarget id now result (expected_operation_kind kind)).

(** The target of a request: one of another project is refused, one that does
    not exist is answered with [missing], which only a cancellation words
    differently. *)
Definition with_target (r : RequestEnvelope) (id : RequestId) (kind : option ExpectedTargetKind)
    (missing : ResultEnvelope) (k : RequestSnapshot -> Task DaemonError unit) : Task DaemonError unit :=
  exec_match (target_snapshot id kind)
    (fun snapshot =>
       if String.eqb (rs_project_id snapshot) (rq_project_id r) then k snapshot
       else refuse (target_not_found r))
    (fun error => match error with
                  | RequestNotFound _ => refuse missing
                  | error => exec_err (DaemonStore error)
                  end).

Definition last_sequence (replayed : Replay) (default : Z) : Z :=
  List.last (ev_sequence <$> rp_events replayed) default.
Definition is_terminal_replay (replayed : Replay) : bool := bool_decide (rp_result replayed <> None).

(** The answer is registered for further messages; then what was stored in the
    meantime is sent to everybody who waits. *)
Definition answer_and_follow (messages : list ServerMessage) (subscribe : SubscriptionRequest)
    (refresh : Exec Replay) (project_id : ProjectId) : Task DaemonError unit :=
  let id := sub_canonical_request_id subscribe in
  await! registered := os (OsRouteRegistered messages subscribe) in
  if registered : bool then
    await! replayed := from_store refresh in
    await! messages := daemon_lift (replay_messages project_id id replayed) in
    os (OsSend id messages (is_terminal_replay replayed))
  else done tt.

(** ** Handlers *)

Definition handle_status (r : RequestEnvelope) : Task DaemonError unit :=
  or_store_failure r (WorkloadOf (rq_project_id r)) (fun workload =>
    succeed r TruthObserved (GotStatus {| st_ready := true; st_healthy := true;
      st_daemon_version := application_version; st_protocol_version := PROTOCOL_VERSION;
      st_queue_depth := wl_queued workload |})).

(** The stored messages of the accepted request, as this request names them,
    and the subscription to the rest. *)
Definition follow_accepted (r : RequestEnvelope) (canonical_request_id : RequestId)
    (refresh : Z -> Exec Replay) : Task DaemonError unit :=
  await! replayed := from_store (target_replay canonical_request_id 0 None) in
  await! snapshot := from_store (target_snapshot canonical_request_id None) in
  await! stored := daemon_lift (replay_messages (rs_project_id snapshot) canonical_request_id replayed) in
  let messages := remap_messages stored (rq_request_id r) (rq_request_id r) (rq_project_id r) in
  if is_terminal_replay replayed then os (OsRoute messages)
  else
    await! _ := answer_and_follow messages
      {| sub_canonical_request_id := canonical_request_id; sub_event_request_id := rq_request_id r;
         sub_observer_request_id := rq_request_id r; sub_project_id := rq_project_id r;
         sub_last_sequence := last_sequence replayed 0 |}
      (refresh (last_sequence replayed 0)) (rs_project_id snapshot) in
    os OsWakeScheduler.

Definition accept_request (r : RequestEnvelope) (operation_kind operation : string) : AcceptRequest :=
  {| ar_request_id := rq_request_id r; ar_caller_id := rq_caller_id r; ar_project_id := rq_project_id r;
     ar_idempotency_key := rq_idempotency_key r; ar_operation_kind := operation_kind;
     ar_operation := operation |}.

Definition handle_durable_status (r : RequestEnvelope) : Task DaemonError unit :=
  await! now := now_ms in
  or_store_failure r (AcceptWork (accept_request r "status" EmptyString) now) (fun outcome =>
    let id := accept_outcome_request_id outcome in
    follow_accepted r id (fun _ => target_replay id 0 None)).

Definition handle_stop (r : RequestEnvelope) : Task DaemonError unit :=
  os (OsStop (success_result r TruthChanged (GotDaemonLifecycle {| dl_stopping := true |}))).

Definition handle_project_current (r : RequestEnvelope) : Task DaemonError unit :=
  or_store_failure r (CurrentOf (rq_project_id r)) (fun current =>
    match protocol_project_current current with
    | Ok result => succeed r TruthObserved (GotProjectCurrent result)
    | Err _ => refuse (failure_result r CodeFrameTooLarge
                         "project current metadata exceeded bounded protocol limits")
    | Panic => exec_lift Panic
    end).

Definition handle_daemon_activity (r : RequestEnvelope) (limit : Z) : Task DaemonError unit :=
  or_store_failure r (RecentAudit (clamp_activity_limit limit)) (fun recent =>
    succeed r TruthObserved (GotDaemonActivity
      {| ar_events := protocol_activity_event <$> rae_events recent; ar_truncated := rae_truncated recent |})).

Definition handle_daemon_logs (r : RequestEnvelope) (limit : Z) : Task DaemonError unit :=
  await! entries := os (OsRecentLogs (clamp_logs_limit limit)) in
  succeed r TruthObserved (GotDaemonLogs {| dg_entries := entries |}).

Definition handle_approval_decision (r : RequestEnvelope) (approval_id : ApprovalId)
    (decision : ProtocolApprovalDecision) : Task DaemonError unit :=
  let decision := match decision with DecisionApprove => DecideApprove | DecisionDeny => DecideDeny end in
  await! now := now_ms in
  exec_match (store (DecideApproval approval_id (rq_project_id r) (rq_caller_id r) decision now))
    (fun outcome =>
       let disposition := match outcome with
                          | DecisionApproved => DispositionApproved
                          | DecisionDenied => DispositionDenied
                          | DecisionExpired => DispositionExpired
                          end in
       succeed r TruthChanged (GotApprovalDecision
         {| adr_approval_id := approval_id; adr_disposition := disposition |}))
    (fun error => match error with
                  | ApprovalNotFound _ | InvalidApprovalState =>
                    refuse (failure_result r CodeForbidden "approval is unavailable for this project or caller")
                  | error => send_store_failure r error
                  end).

Definition handle_cancel (r : RequestEnvelope) (target : RequestId) (kind : option ExpectedTargetKind)
  : Task DaemonError unit :=
  with_target r target kind (failure_result r CodeNotFound "target request was not found") (fun snapshot =>
    await! stored := daemon_lift (map_err DaemonProtocol (encoded_cancelled_result target (rs_project_id snapshot))) in
    await! now := now_ms in
    await! outcome := from_store (target_cancel target now stored kind) in
    let '(disposition, truth) := cancellation_presentation outcome in
    await! _ := succeed r truth (GotCancellation
                  {| cn_target_request_id := target; cn_disposition := disposition |}) in
    await! replayed := from_store (target_replay target 0 kind) in
    await! messages := daemon_lift (replay_messages (rs_project_id snapshot) target replayed) in
    await! _ := os (OsSend target messages (is_terminal_replay replayed)) in
    os OsWakeScheduler).

Definition handle_replay (r : RequestEnvelope) (target : RequestId) (after_sequence : Z)
    (kind : option ExpectedTargetKind) : Task DaemonError unit :=
  if after_sequence >? i64_max
  then refuse (failure_result r CodeInvalidRequest "replay sequence exceeds the supported range")
  else
    with_target r target kind (target_not_found r) (fun snapshot =>
      await! replayed := from_store (target_replay target after_sequence kind) in
      await! messages :=
        daemon_lift (replay_messages_without_result (rs_project_id snapshot) target (rp_events replayed)) in
      match rp_result replayed with
      | Some result =>
        if String.eqb (rq_request_id r) target then
          await! message := daemon_lift (decode_stored_result (st_payload result)) in
          os (OsRoute (messages ++ [message]))
        else
          os (OsRoute (messages ++ [MessageResult (success_result r TruthObserved (GotReplay
            {| rp_target_request_id := target; rp_through_sequence := last_sequence replayed after_sequence;
               rp_pending := false |}))]))
      | None =>
        os (OsRoute (messages ++ [MessageResult (success_result r TruthObserved (GotReplay
          {| rp_target_request_id := target; rp_through_sequence := last_sequence replayed after_sequence;
             rp_pending := true |}))]))
      end).

(** A stored result under the name of the request that asks for it. *)
Definition remap_stored_result (payload : string) (target : RequestId) (project_id : ProjectId)
    (observer : RequestId) : res DaemonError ResultEnvelope :=
  let? message := decode_stored_result payload in
  match message with
  | MessageResult result =>
    if negb (String.eqb (re_request_id result) target) || negb (String.eqb (re_project_id result) project_id)
    then Err (DaemonStore (InvalidState "stored result correlation does not match its request"))
    else Ok {| re_protocol_version := re_protocol_version result; re_request_id := observer;
               re_project_id := project_id; re_body := re_body result |}
  | MessageEvent _ => Panic
  end.

Definition wait_messages (r : RequestEnvelope) (project_id : ProjectId) (target : RequestId) (replayed : Replay)
  : res DaemonError (list ServerMessage) :=
  let? messages := replay_messages_without_result project_id target (rp_events replayed) in
  match rp_result replayed with
  | None => Ok messages
  | Some stored =>
    let? result := remap_stored_result (st_payload stored) target project_id (rq_request_id r) in
    Ok (messages ++ [MessageResult result])
  end.

Definition valid_replay_cursor (sequence : Z) : bool := sequence <=? i64_max.

Definition handle_wait_for_result (r : RequestEnvelope) (target : RequestId) (after_sequence : Z)
    (kind : option ExpectedTargetKind) : Task DaemonError unit :=
  if negb (valid_replay_cursor after_sequence)
  then refuse (failure_result r CodeInvalidRequest "wait sequence exceeds the supported range")
  else
    with_target r target kind (target_not_found r) (fun snapshot =>
      let project := rs_project_id snapshot in
      await! replayed := from_store (target_replay target after_sequence kind) in
      let last := last_sequence replayed after_sequence in
      await! messages := daemon_lift (wait_messages r project target replayed) in
      if is_terminal_replay replayed then os (OsRoute messages)
      else
        answer_and_follow messages
          {| sub_canonical_request_id := target; sub_event_request_id := target;
             sub_observer_request_id := rq_request_id r; sub_project_id := rq_project_id r;
             sub_last_sequence := last |}
          (target_replay target last kind) project).

Definition handle_get_result (r : RequestEnvelope) (target : RequestId) (kind : option ExpectedTargetKind)
  : Task DaemonError unit :=
  with_target r target kind (target_not_found r) (fun snapshot =>
    await! replayed := from_store (target_replay target i64_max kind) in
    match rp_result replayed with
    | Some stored =>
      await! result :=
        daemon_lift (remap_stored_result (st_payload stored) target (rs_project_id snapshot) (rq_request_id r)) in
      os (OsRoute [MessageResult result])
    | None => refuse (failure_result r CodePending "target request has not completed")
    end).

Definition handle_brief (r : RequestEnvelope) : Task DaemonError unit :=
  await! brief := os (OsBrief (rq_project_id r)) in
  if negb (brief_is_bounded brief)
  then refuse (failure_result r CodeFrameTooLarge "brief provider response exceeded bounded limits")
  else succeed r (brief_truth brief) (GotBrief brief).

Definition bool_text (b : bool) : string := if b then "true" else "false".

Definition handle_network_diagnostics (r : RequestEnvelope) : Task DaemonError unit :=
  await! collected := os OsNetworkDiagnostics in
  match collected with
  | None => exec_err DaemonHandler
  | Some (truth, result) =>
    await! _ := from_store (append_event r "network-observation" "network.diagnostics" "observe"
      (truth_label truth)
      ("platform_roots=" +:+ bool_text (nd_platform_roots_enabled result)
         +:+ " system_proxy=" +:+ bool_text (nd_system_proxy_discovery_enabled result)
         +:+ " proxy_environment=" +:+ configuration_presence_label (nd_proxy_environment_presence result)
         +:+ " no_proxy=" +:+ configuration_presence_label (nd_no_proxy_presence result)
         +:+ " pac=" +:+ pac_state_label (nd_pac_state result))) in
    succeed r truth (GotNetworkDiagnostics result)
  end.

(** The grants are revoked one by one; a failed one ends the loop. *)
Fixpoint revoke_grants (r : RequestEnvelope) (now : Z) (grants : list Grant) (revoked : Z)
    (k : Z -> Task DaemonError unit) : Task DaemonError unit :=
  match grants with
  | [] => k revoked
  | grant :: rest =>
    or_store_failure r (RevokeGrant (g_id grant) now) (fun _ =>
      revoke_grants r now rest (Z.min u32_max (revoked + 1)) k)
  end.

Definition handle_grant_revoke (r : RequestEnvelope) (capability : string) : Task DaemonError unit :=
  match capability_parse capability with
  | Ok capability =>
    await! now := now_ms in
    or_store_failure r (ActiveGrants (rq_caller_id r) (rq_project_id r) now) (fun active =>
      revoke_grants r now (List.filter (fun grant => String.eqb (g_capability grant) capability) active) 0
        (fun revoked =>
           await! _ := from_store (append_change_audit r "grant.revoke" "revoked"
             ("capability=" +:+ capability +:+ " revoked=" +:+ pretty revoked)) in
           succeed r TruthChanged (GotGrantRevoke {| Protocol.gr_capability := capability; Protocol.gr_revoked := revoked |})))
  | Err _ => refuse (failure_result r CodeInvalidRequest "capability name is not a valid policy capability")
  | Panic => exec_lift Panic
  end.

(** ** Flow runs *)

Record PreparedFlowSubmission := {
  pf_operation : string;
  pf_policy_resource : string;
  pf_schema_approval_required : bool
}.

(** What a definition in a fingerprinted worktree is stored as. *)
Definition flow_submission (definition : FlowDefinition) (fingerprint : WorkspaceFingerprint) (root : string)
  : res FlowSubmissionError PreparedFlowSubmission :=
  let? normalized := map_err (fun _ => InvalidFlowSubmission) (to_normalized_toml definition) in
  let? operation := encode_flow_operation normalized fingerprint root in
  let? resource := map_err (fun _ => InvalidFlowSubmission) (flow_policy_resource definition fingerprint) in
  Ok {| pf_operation := operation; pf_policy_resource := resource;
        pf_schema_approval_required :=
          existsb (fun step => bool_decide (fs_effect step = Stateful)) (fd_steps definition) |}.

Definition prepare_flow_submission (document : FlowDefinitionDocument) (root : string)
  : Exec (res FlowSubmissionError PreparedFlowSubmission) :=
  match parse_toml toml_from_str (document_str document) with
  | Ok definition =>
    await! supported := validate_supported_definition root definition in
    match supported with
    | Ok _ =>
      await! workspace := os (OsFingerprint root) in
      match workspace with
      | Ok workspace => done (flow_submission definition (fw_fingerprint workspace) root)
      | Err error => done (Err error)
      | Panic => exec_lift Panic
      end
    | Err _ => done (Err UnsupportedDefinition)
    | Panic => exec_lift Panic
    end
  | Err _ => done (Err InvalidFlowSubmission)
  | Panic => exec_lift Panic
  end.

Definition authorize_flow_submission (r : RequestEnvelope) (prepared : PreparedFlowSubmission)
    (resource : ResourceName) : Exec FlowAuthorizationOutcome :=
  await! now := now_ms in
  await! audit := decision_audit r "flow.run" resource now in
  await! uuid := os OsUuid in
  store (AuthorizeFlow uuid
    {| af_accept := accept_request r FLOW_OPERATION_KIND (pf_operation prepared); af_resource := resource;
       af_approval_id := rq_approval_id r; af_audit := audit;
       af_schema_approval_required := pf_schema_approval_required prepared |} now APPROVAL_LIFETIME_MS).

Definition handle_flow_run (r : RequestEnvelope) (prepared : PreparedFlowSubmission) (resource : ResourceName)
  : Task DaemonError unit :=
  exec_match (authorize_flow_submission r prepared resource)
    (fun outcome =>
       match outcome with
       | FlowAccepted accepted =>
         let id := accept_outcome_request_id accepted in
         follow_accepted r id (fun after => target_replay id after None)
       | outcome =>
         await! failure := daemon_lift (flow_authorization_failure r resource outcome) in
         refuse failure
       end)
    (send_store_failure r).

(** ** Dispatch *)

Definition handle_read_only (r : RequestEnvelope) : Task DaemonError unit :=
  match rq_capability r, rq_payload r with
  | CapBrief, PayBrief => handle_brief r
  | CapNetworkDiagnostics, PayNetworkDiagnostics => handle_network_diagnostics r
  | CapWaitForResult, PayWaitForResult target after kind => handle_wait_for_result r target after kind
  | CapGetResult, PayGetResult target kind => handle_get_result r target kind
  | CapModelInfer, PayModelInfer _ _ _ | CapInspectEvidence, PayInspectEvidence _
  | CapReadEvidence, PayReadEvidence _ _ _ => from_store (os_res (OsServe r))
  | _, _ => refuse (shape_failure r)
  end.

Definition dispatch (r : RequestEnvelope) : Task DaemonError unit :=
  match rq_capability r, rq_payload r with
  | CapDaemonStatus, PayStatus => if durable_status then handle_durable_status r else handle_status r
  | CapDaemonStop, PayStop => handle_stop r
  | CapProjectCurrent, PayProjectCurrent => handle_project_current r
  | CapDaemonActivity, PayDaemonActivity limit => handle_daemon_activity r limit
  | CapDaemonLogs, PayDaemonLogs limit => handle_daemon_logs r limit
  | CapGrantRevoke, PayGrantRevoke capability => handle_grant_revoke r capability
  | CapCancelRequest, PayCancel target kind => handle_cancel r target kind
  | CapReplayEvents, PayReplay target after kind => handle_replay r target after kind
  | CapDaemonStats, PayDaemonStats _ | CapCallerList, PayCallerList | CapModelStatus, PayModelStatus
  | CapModelLoad, PayModelLoad _ | CapModelUnload, PayModelUnload | CapModelRegister, PayModelRegister _
  | CapModelUnregister, PayModelUnregister _ | CapModelVerify, PayModelVerify _
  | CapModelSweep, PayModelSweep | CapModelDeleteWeights, PayModelDeleteWeights _
  | CapResetAccess, PayResetAccess _ | CapResetIdentity, PayResetIdentity _
  | CapResetHistory, PayResetHistory _ | CapResetRegistry, PayResetRegistry _
  | CapConnectorList, PayConnectorList | CapConnectorConfigure, PayConnectorConfigure _ _ _ _
  | CapConnectorTest, PayConnectorTest _ => from_store (os_res (OsServe r))
  | _, _ => handle_read_only r
  end.

Definition refuse_or (failure : option ResultEnvelope) (k : Task DaemonError unit) : Task DaemonError unit :=
  match failure with Some failure => refuse failure | None => k end.

(** [ResourceName::parse(..).expect(..)] of a fixed resource. *)
Definition static_resource (name : string) : Task DaemonError ResourceName :=
  match resource_parse name with Ok resource => done resource | _ => exec_lift Panic end.

Definition submission_failure (r : RequestEnvelope) (error : FlowSubmissionError) : ResultEnvelope :=
  failure_result r CodeInvalidRequest (flow_submission_error_message error).

Definition busy_failure (r : RequestEnvelope) : ResultEnvelope :=
  with_recovery "retry the exact flow run after another preflight finishes"
    (failure_result r CodeBusy "flow preflight capacity is busy").

Definition admit_flow_run (r : RequestEnvelope) (document : FlowDefinitionDocument) (root : FlowProjectRoot)
  : Task DaemonError unit :=
  await! unprepared := static_resource "flow:unprepared" in
  await! failure := from_store (request_authentication_preflight r unprepared) in
  refuse_or failure
    (await! admitted := os OsAdmitPreflight in
     if negb admitted then refuse (busy_failure r)
     else
       await! _ := (if flow_preflight_delay_ms =? 0 then done tt else os (OsSleep flow_preflight_delay_ms)) in
       await! verified := from_store (verify_flow_project_root (root_str root) (rq_project_id r)) in
       match verified with
       | Ok execution_root =>
         await! prepared := from_store (prepare_flow_submission document execution_root) in
         match prepared with
         | Ok prepared =>
           match resource_parse (pf_policy_resource prepared) with
           | Ok resource => handle_flow_run r prepared resource
           | Err _ => refuse (failure_result r CodeInvalidRequest "flow policy authority is invalid")
           | Panic => exec_lift Panic
           end
         | Err error => refuse (submission_failure r error)
         | Panic => exec_lift Panic
         end
       | Err error => refuse (submission_failure r error)
       | Panic => exec_lift Panic
       end).

(** A decoded request. *)
Definition handle_request (r : RequestEnvelope) : Task DaemonError unit :=
  if negb (request_identifiers_are_bounded r)
  then refuse (failure_result r CodeInvalidRequest
         "request identifiers must contain 1 to 256 UTF-8 bytes without control characters")
  else
    refuse_or (unsupported_version_failure r)
      (if is_daemon_scope (rq_project_id r) && negb (capability_is_daemon_scoped (rq_capability r))
       then refuse (failure_result r CodeInvalidRequest
              "this operation needs a project; the reserved daemon scope cannot satisfy it")
       else
         await! _ := from_store (learn_project_root r) in
         match rq_capability r, rq_payload r with
         | CapApprovalDecide, PayApprovalDecide approval_id decision =>
           await! approval_resource := static_resource "approval" in
           await! failure := from_store (request_authentication_preflight r approval_resource) in
           refuse_or failure (handle_approval_decision r approval_id decision)
         | CapFlowRun, PayFlowRun document root => admit_flow_run r document root
         | _, _ =>
           await! failure := from_store (request_preflight_with_resource r None) in
           refuse_or failure (dispatch r)
         end).

Definition handle_incoming (payload : string) : Task DaemonError unit :=
  match decode_request_envelope payload with
  | Ok request => handle_request request
  | Err _ => done tt
  | Panic => exec_lift Panic
  end.

(** ** Delivery *)

(** A client that waits for the messages of a request. *)
Record Subscription := {
  s_incoming : ClientId;
  s_event_request_id : RequestId;
  s_observer_request_id : RequestId;
  s_project_id : ProjectId;
  s_last_sequence : Z
}.

Inductive Outbound : Type :=
| Routed (incoming : ClientId) (messages : list ServerMessage) (subscribe : option SubscriptionRequest)
| Persisted (request_id : RequestId) (messages : list ServerMessage) (terminal : bool)
| StopDaemon (incoming : ClientId) (result : ResultEnvelope).

(** The messages an observer has not seen, as it names them, and what it has
    seen then. *)
Fixpoint messages_for_observer (messages : list ServerMessage) (observer : Subscription)
  : Subscription * list ServerMessage :=
  match messages with
  | [] => (observer, [])
  | MessageEvent e :: rest =>
    if s_last_sequence observer <? ee_sequence e then
      let '(after, filtered) := messages_for_observer rest
        {| s_incoming := s_incoming observer; s_event_request_id := s_event_request_id observer;
           s_observer_request_id := s_observer_request_id observer; s_project_id := s_project_id observer;
           s_last_sequence := ee_sequence e |} in
      (after,
       MessageEvent {| ee_protocol_version := ee_protocol_version e; ee_request_id := s_event_request_id observer;
                       ee_project_id := s_project_id observer; ee_sequence := ee_sequence e;
                       ee_event := ee_event e |} :: filtered)
    else messages_for_observer rest observer
  | MessageResult result :: rest =>
    let '(after, filtered) := messages_for_observer rest observer in
    (after,
     MessageResult {| re_protocol_version := re_protocol_version result; re_request_id := s_observer_request_id observer;
                      re_project_id := s_project_id observer; re_body := re_body result |} :: filtered)
  end.

(** [Ok(false)] when the client is gone or was told that a message is too
    large. *)
Fixpoint send_messages (client : ClientId) (messages : list ServerMessage) : Task DaemonError bool :=
  match messages with
  | [] => done true
  | message :: rest =>
    match encode_message message with
    | Ok payload =>
      await! outcome := os (OsRespond client payload) in
      match outcome with
      | Responded => send_messages client rest
      | ClientDisconnected => done false
      | TransportFailed => exec_err DaemonTransport
      end
    | Err (FrameTooLarge _ _) =>
      match encode_message (oversized_response_failure message) with
      | Ok payload =>
        await! outcome := os (OsRespond client payload) in
        match outcome with TransportFailed => exec_err DaemonTransport | _ => done false end
      | _ => done false
      end
    | Err error => exec_err (DaemonProtocol error)
    | Panic => exec_lift Panic
    end
  end.

(** Those who stay subscribed. *)
Fixpoint deliver_persisted (messages : list ServerMessage) (terminal : bool) (observers : list Subscription)
  : Task DaemonError (list Subscription) :=
  match observers with
  | [] => done []
  | observer :: rest =>
    let '(observer, filtered) := messages_for_observer messages observer in
    await! sent := send_messages (s_incoming observer) filtered in
    await! retained := deliver_persisted messages terminal rest in
    done (if (sent && negb terminal)%bool then observer :: retained else retained)
  end.

(** The subscriptions after an outbound message, and whether the daemon stops. *)
Definition deliver_outbound (subscriptions : gmap RequestId (list Subscription)) (outbound : Outbound)
  : Task DaemonError (gmap RequestId (list Subscription) * bool) :=
  match outbound with
  | Routed client messages subscribe =>
    await! sent := send_messages client messages in
    done (match subscribe with
          | Some sub =>
            if sent : bool then
              let id := sub_canonical_request_id sub in
              (<[id := default [] (subscriptions !! id) ++
                       [{| s_incoming := client; s_event_request_id := sub_event_request_id sub;
                           s_observer_request_id := sub_observer_request_id sub;
                           s_project_id := sub_project_id sub; s_last_sequence := sub_last_sequence sub |}]]>
                 subscriptions, false)
            else (subscriptions, false)
          | None => (subscriptions, false)
          end)
  | Persisted id messages terminal =>
    match subscriptions !! id with
    | Some observers =>
      await! retained := deliver_persisted messages terminal observers in
      done (match retained with
            | [] => (delete id subscriptions, false)
            | retained => (<[id := retained]> subscriptions, false)
            end)
    | None => done (subscriptions, false)
    end
  | StopDaemon client result =>
    await! stopped := send_messages client [MessageResult result] in
    done (subscriptions, stopped)
  end.

End incoming.

(** ** What an observer sees *)

Section observers.

(** One observer, delivery after delivery. *)
Fixpoint observe_all (deliveries : list (list ServerMessage)) (observer : Subscription)
  : Subscription * list ServerMessage :=
  match deliveries with
  | [] => (observer, [])
  | messages :: rest =>
    let '(observer, sent) := messages_for_observer messages observer in
    let '(observer, later) := observe_all rest observer in
    (observer, sent ++ later)
  end.

Definition events_of (messages : list ServerMessage) : list EventEnvelope :=
  omap (fun m => match m with MessageEvent e => Some e | MessageResult _ => None end) messages.

(** An event under the names of the observer, who now saw the events up to [n]. *)
Definition renamed (observer : Subscription) (e : EventEnvelope) : EventEnvelope :=
  {| ee_protocol_version := ee_protocol_version e; ee_request_id := s_event_request_id observer;
     ee_project_id := s_project_id observer; ee_sequence := ee_sequence e; ee_event := ee_event e |}.

Definition seen (n : Z) (observer : Subscription) : Subscription :=
  {| s_incoming := s_incoming observer; s_event_request_id := s_event_request_id observer;
     s_observer_request_id := s_observer_request_id observer; s_project_id := s_project_id observer;
     s_last_sequence := n |}.

(** The events after [a] up to [b]: what is stored then and was asked after [a]. *)
Definition between (a b : Z) (log : list EventEnvelope) : list EventEnvelope :=
  List.filter (fun e => (a <? ee_sequence e) && (ee_sequence e <=? b)) log.

Definition earlier (e f : EventEnvelope) : Prop := ee_sequence e < ee_sequence f.

Lemma observe_app m1 m2 observer :
  messages_for_observer (m1 ++ m2) observer
  = ((messages_for_observer m2 (messages_for_observer m1 observer).1).1,
     (messages_for_observer m1 observer).2 ++ (messages_for_observer m2 (messages_for_observer m1 observer).1).2).
Proof.
  revert observer. induction m1 as [|m m1 IH]; intros observer; cbn [messages_for_observer app].
  - apply surjective_pairing.
  - destruct m as [e|result]; [case_match; [|apply IH]|]; rewrite IH; destruct (messages_for_observer m1 _) as [o s]; cbn [fst snd app];
      by destruct (messages_for_observer m2 o).
Qed.

(** Results are passed on and are not counted. *)
Lemma observe_results results observer :
  (messages_for_observer (MessageResult <$> results) observer).1 = observer
  /\ events_of (messages_for_observer (MessageResult <$> results) observer).2 = [].
Proof.
  induction results as [|result results IH]; [done|]. cbn [fmap list_fmap messages_for_observer].
  by destruct (messages_for_observer _ observer).
Qed.

Lemma filter_kept {A} (p : A -> bool) l : Forall (fun a => p a = true) l -> List.filter p l = l.
Proof. induction 1 as [|a l Ha _ IH]; cbn; [done|]. by rewrite Ha, IH. Qed.

Lemma last_of_cons (l : list Z) x d : List.last (x :: l) d = List.last l x.
Proof.
  revert x d. induction l as [|y l IH]; intros x d; [done|].
  transitivity (List.last (y :: l) d); [done|]. by rewrite (IH y d), (IH y x).
Qed.

(** The new events of a log, in its order, and the last of them as the one seen. *)
Lemma observe_events log observer :
  StronglySorted earlier log ->
  messages_for_observer (MessageEvent <$> log) observer
  = let fresh := List.filter (fun e => s_last_sequence observer <? ee_sequence e) log in
    (seen (List.last (ee_sequence <$> fresh) (s_last_sequence observer)) observer,
     MessageEvent ∘ renamed observer <$> fresh).
Proof.
  intros Hlog. revert observer. induction Hlog as [|e log Hlog IH He]; intros observer.
  - by destruct observer.
  - cbn [fmap list_fmap messages_for_observer List.filter]. case_match eqn:Hnew; [|apply IH].
    rewrite IH. cbn [s_last_sequence]. apply Z.ltb_lt in Hnew.
    rewrite !filter_kept; [| |].
    + cbn zeta. by rewrite (fmap_cons ee_sequence), last_of_cons.
    + eapply Forall_impl; [exact He|]. intros f Hf. unfold earlier in Hf. apply Z.ltb_lt. lia.
    + eapply Forall_impl; [exact He|]. intros f Hf. unfold earlier in Hf. apply Z.ltb_lt. lia.
Qed.

(** What is sent at one time: the events after [a] up to [b] and results. *)
Definition delivery (log : list EventEnvelope) (d : Z * Z * list ResultEnvelope) : list ServerMessage :=
  let '(a, b, results) := d in (MessageEvent <$> between a b log) ++ (MessageResult <$> results).

(** No delivery starts after what was delivered before it. *)
Fixpoint gapless (p : Z) (ds : list (Z * Z * list ResultEnvelope)) : Prop :=
  match ds with
  | [] => True
  | (a, b, _) :: ds => a <= p /\ gapless (Z.max p b) ds
  end.

Definition furthest (p : Z) (ds : list (Z * Z * list ResultEnvelope)) : Z :=
  foldl (fun p '(_, b, _) => Z.max p b) p ds.

Lemma furthest_ge p ds : p <= furthest p ds.
Proof.
  unfold furthest. revert p. induction ds as [|[[a b] rs] ds IH]; intros p; cbn; [lia|].
  specialize (IH (Z.max p b)). lia.
Qed.

Lemma in_between a b log e : In e (between a b log) <-> In e log /\ a < ee_sequence e <= b.
Proof.
  unfold between. rewrite filter_In, andb_true_iff, Z.ltb_lt, Z.leb_le. done.
Qed.

Lemma between_nil a b log : (forall e, In e log -> ~ (a < ee_sequence e <= b)) -> between a b log = [].
Proof.
  intros Hno. destruct (between a b log) as [|e l] eqn:He; [done|]. exfalso.
  assert (Hin : In e (between a b log)) by (rewrite He; by left). apply in_between in Hin as [Hin Hr]. by apply (Hno e).
Qed.

Lemma between_sorted a b log : StronglySorted earlier log -> StronglySorted earlier (between a b log).
Proof.
  induction 1 as [|e log Hlog IH He]; [constructor|]. unfold between. cbn [List.filter].
  case_match; [|exact IH]. constructor; [exact IH|]. apply List.Forall_forall. intros f Hf%filter_In.
  exact (proj1 (List.Forall_forall _ _) He f (proj1 Hf)).
Qed.

Lemma between_split p m q log :
  StronglySorted earlier log -> p <= m <= q -> between p m log ++ between m q log = between p q log.
Proof.
  intros Hlog Hm. induction Hlog as [|e log Hlog IH He]; [done|]. unfold between. cbn [List.filter].
  fold (between p m log) (between m q log) (between p q log).
  destruct (decide (ee_sequence e <= m)).
  - replace (m <? ee_sequence e) with false by lia. replace (ee_sequence e <=? q) with true by lia.
    replace (ee_sequence e <=? m) with true by lia. cbn [andb]. case_match; [|done]. cbn [app]. by rewrite IH.
  - replace (m <? ee_sequence e) with true by lia. replace (ee_sequence e <=? m) with false by lia.
    replace (p <? ee_sequence e) with true by lia. cbn [andb]. rewrite <- IH.
    assert (Hnil : between p m log = []) by (apply between_nil; intros f Hf;
      pose proof (proj1 (List.Forall_forall _ _) He f Hf) as Hef; unfold earlier in Hef; lia).
    by rewrite Hnil.
Qed.

(** The part of a delivery that is new to an observer who saw everything up to [p]. *)
Definition up_to_date (p : Z) (log : list EventEnvelope) (observer : Subscription) : Prop :=
  s_last_sequence observer <= p
  /\ forall e, In e log -> ee_sequence e <= p -> ee_sequence e <= s_last_sequence observer.

Lemma fresh_between p a b log observer :
  up_to_date p log observer -> a <= p ->
  List.filter (fun e => s_last_sequence observer <? ee_sequence e) (between a b log) = between p b log.
Proof.
  intros [Hle Hseen] Ha. unfold between. induction log as [|e log IH]; [done|]. cbn [List.filter].
  pose proof (Hseen e (or_introl eq_refl)) as He. assert (IH' := IH (fun f Hf => Hseen f (or_intror Hf))).
  destruct (decide (p < ee_sequence e)).
  - replace (a <? ee_sequence e) with true by lia. replace (p <? ee_sequence e) with true by lia.
    cbn [andb]. case_match; [|done]. cbn [List.filter].
    replace (s_last_sequence observer <? ee_sequence e) with true by lia. by rewrite IH'.
  - replace (p <? ee_sequence e) with false by lia. cbn [andb].
    case_match; [|done]. cbn [List.filter]. replace (s_last_sequence observer <? ee_sequence e) with false by lia. done.
Qed.

Lemma last_sorted log e d :
  StronglySorted earlier log -> In e log -> ee_sequence e <= List.last (ee_sequence <$> log) d.
Proof.
  intros Hlog. revert e d. induction Hlog as [|f log Hlog IH Hf]; intros e d; [done|].
  rewrite (fmap_cons ee_sequence), last_of_cons. intros [->|Hin]; [|by apply IH].
  destruct log as [|g log]; [cbn; lia|].
  pose proof (proj1 (List.Forall_forall _ _) Hf g (or_introl eq_refl)) as Hg. unfold earlier in Hg.
  specialize (IH g (ee_sequence e) (or_introl eq_refl)). lia.
Qed.

Lemma last_in (l : list Z) d : List.last l d = d \/ In (List.last l d) l.
Proof.
  revert d. induction l as [|n l IH]; intros d; [by left|]. rewrite last_of_cons. right.
  destruct (IH n) as [->|Hin]; [by left|by right].
Qed.

Lemma last_between p b log d :
  d <= p -> d <= List.last (ee_sequence <$> between p b log) d <= Z.max p b.
Proof.
  intros Hd. destruct (last_in (ee_sequence <$> between p b log) d) as [->|Hin]; [lia|].
  apply in_map_iff in Hin as (e & <- & [_ He]%in_between). lia.
Qed.

Lemma events_of_events {A} (f : A -> EventEnvelope) l : events_of (MessageEvent ∘ f <$> l) = f <$> l.
Proof. induction l as [|a l IH]; [done|]. unfold events_of in *. cbn. f_equal. exact IH. Qed.

(** One delivery. *)
Lemma observe_delivery p log observer a b results :
  StronglySorted earlier log -> up_to_date p log observer -> a <= p ->
  let after := messages_for_observer (delivery log (a, b, results)) observer in
  events_of after.2 = renamed observer <$> between p b log
  /\ (exists n, after.1 = seen n observer) /\ up_to_date (Z.max p b) log after.1.
Proof.
  intros Hlog Hdate Ha. unfold delivery. rewrite observe_app, observe_events by by apply between_sorted.
  rewrite (fresh_between p) by done. cbn [fst snd].
  destruct (observe_results results (seen (List.last (ee_sequence <$> between p b log) (s_last_sequence observer)) observer))
    as [Hsame Hnone].
  rewrite Hsame. split; [|split].
  - unfold events_of in *. rewrite omap_app, Hnone, app_nil_r. apply events_of_events.
  - by eexists.
  - destruct Hdate as [Hle Hseen]. pose proof (last_between p b log _ Hle) as Hlast.
    split; [exact (proj2 Hlast)|]. intros e Hin He. cbn [seen s_last_sequence].
    destruct (decide (ee_sequence e <= p)) as [Hp|Hp].
    + specialize (Hseen e Hin Hp). lia.
    + apply last_sorted; [by apply between_sorted|]. apply in_between. split; [done|lia].
Qed.

Lemma renamed_seen n observer : renamed (seen n observer) = renamed observer.
Proof. done. Qed.

Lemma observe_deliveries p log observer ds :
  StronglySorted earlier log -> up_to_date p log observer -> gapless p ds ->
  events_of (observe_all (delivery log <$> ds) observer).2 = renamed observer <$> between p (furthest p ds) log.
Proof.
  intros Hlog. revert p observer. induction ds as [|[[a b] results] ds IH]; intros p observer Hdate Hgap.
  - cbn. rewrite between_nil; [done|]. intros e _. lia.
  - destruct Hgap as [Ha Hgap]. rewrite fmap_cons. cbn [observe_all].
    destruct (observe_delivery p log observer a b results Hlog Hdate Ha) as (Hsent & [n Hn] & Hnext).
    destruct (messages_for_observer _ observer) as [o sent]. cbn [fst snd] in *.
    specialize (IH _ o Hnext Hgap). destruct (observe_all _ o) as [o' later]. cbn [fst snd] in *.
    unfold events_of in *. rewrite omap_app, Hsent, IH, Hn, renamed_seen, <- fmap_app. f_equal.
    change (furthest p ((a, b, results) :: ds)) with (furthest (Z.max p b) ds).
    destruct (decide (b <= p)).
    + rewrite (between_nil p b) by (intros; lia). by rewrite Z.max_l by lia.
    + rewrite Z.max_r by lia. rewrite between_split; [done|done|]. pose proof (furthest_ge b ds). lia.
Qed.

(** C31: who waits for a request sees each of its events once and in order.
    Whatever deliveries reach a subscription, if none starts after what was
    delivered before it, the events that are sent are exactly those of the
    request after the ones it already had, up to the furthest delivery, under
    the names of the observer: replays that overlap or arrive late repeat
    nothing and nothing is left out. *)
Theorem events_delivered_once log observer ds :
  StronglySorted earlier log -> gapless (s_last_sequence observer) ds ->
  events_of (observe_all (delivery log <$> ds) observer).2
  = renamed observer <$> between (s_last_sequence observer) (furthest (s_last_sequence observer) ds) log.
Proof. intros Hlog Hgap. apply observe_deliveries; [done| |done]. split; [done|]. by intros e _ He. Qed.

End observers.

Definition sample_event (n : Z) (event : Event) : EventEnvelope :=
  {| ee_protocol_version := PROTOCOL_VERSION; ee_request_id := "run-1"; ee_project_id := "project-1";
     ee_sequence := n; ee_event := event |}.
Definition sample_events : list EventEnvelope := [sample_event 1 EvAccepted; sample_event 2 EvAccepted; sample_event 4 EvAccepted].
Definition sample_observer : Subscription :=
  {| s_incoming := 3; s_event_request_id := "run-1"; s_observer_request_id := "wait-1";
     s_project_id := "project-1"; s_last_sequence := 1 |}.

Lemma events_delivered_once_witness :
  ee_sequence <$> events_of (observe_all (delivery sample_events <$> [(0, 2, []); (0, 1, []); (2, 4, []); (0, 4, [])])
                               sample_observer).2 = [2; 4].
Proof.
  rewrite (events_delivered_once sample_events sample_observer [(0, 2, []); (0, 1, []); (2, 4, []); (0, 4, [])]).
  - vm_compute. reflexivity.
  - repeat constructor.
  - vm_compute. repeat split; discriminate.
Defined.
