(* ===== verification/IncomingProof.v ===== *)
(** * What the handling of a request does

    A handler is followed with the trace at hand: before it serves anything the
    caller was authenticated and the request authorized, it answers exactly
    once, it touches only requests of its own project, and a flow run is stored
    as what its document and worktree say. The triples [does pre n m post err]
    compose the parts. *)

From ITree Require Import Core.ITreeDefinition.
From S2P Require Import Prelude Core Policy Redact Paths FlowDef FlowData Protocol ProtocolRequest ProtocolCodec FlowOperation.
From S2P Require Import StoreDef StoreFlow StoreQueue StoreAudit StoreAccess StoreAuth StoreView Exec ExecLogic.
From S2P Require Import FlowCommand FlowExecute Scheduler ExecSpec ExecParts Admission Incoming.

Local Open Scope Z_scope.

(** ** Triples *)

Section triples.
Context `{Sha256} `{FlowCodec}.
Context (allowed : Observed -> list Observed -> Prop).

(** From a trace with [pre], within [n] steps, [m] causes only allowed events
    and ends with [post], or with an error and [err]. *)
Definition does {X A} (pre : list Observed -> Prop) (n : nat) (m : Task X A)
    (post : A -> list Observed -> Prop) (err : list Observed -> Prop) : Prop :=
  forall tr, pre tr -> safe (needs allowed) happens n m
    (fun r tr' => match r with Ok a => post a tr' | Err _ => err tr' | Panic => True end) tr.

Lemma does_weaken {X A} (pre pre' : list Observed -> Prop) n (m : Task X A) post post' (err err' : list Observed -> Prop) :
  does pre n m post err -> (forall tr, pre' tr -> pre tr) -> (forall a tr, post a tr -> post' a tr) ->
  (forall tr, err tr -> err' tr) -> does pre' n m post' err'.
Proof.
  intros Hm Hpre Hpost Herr tr Htr. eapply safe_post; [apply Hm; auto|]. intros [a|e|] tr'; auto.
Qed.

Lemma does_done {X A} (pre : list Observed -> Prop) n (a : A) (post : A -> list Observed -> Prop) err :
  (forall tr, pre tr -> post a tr) -> does pre n (done a : Task X A) post err.
Proof. intros Ha tr Htr. apply safe_ret. auto. Qed.

Lemma does_err {X A} (pre : list Observed -> Prop) n (e : X) (post : A -> list Observed -> Prop) (err : list Observed -> Prop) :
  (forall tr, pre tr -> err tr) -> does pre n (exec_err e : Task X A) post err.
Proof. intros He tr Htr. apply safe_ret. auto. Qed.

Lemma does_lift {X A} (pre : list Observed -> Prop) n (r : res X A) (post : A -> list Observed -> Prop) (err : list Observed -> Prop) :
  (forall a tr, r = Ok a -> pre tr -> post a tr) -> (forall tr, pre tr -> err tr) ->
  does pre n (exec_lift r) post err.
Proof. intros Ha He tr Htr. apply safe_ret. destruct r; auto. Qed.

Lemma does_panic {X A} (pre : list Observed -> Prop) n (post : A -> list Observed -> Prop) err :
  does pre n (exec_lift Panic : Task X A) post err.
Proof. intros tr Htr. by apply safe_ret. Qed.

Lemma does_bind {X A B} (pre : list Observed -> Prop) n (m : Task X A) (k : A -> Task X B) mid post err :
  does pre n m mid err -> (forall a, does (mid a) n (k a) post err) ->
  does pre n (exec_bind m k) post err.
Proof.
  intros Hm Hk tr Htr. apply safe_bind. eapply safe_post; [by apply Hm|].
  intros [a|e|] tr' Hr; [by apply Hk|by apply safe_ret..].
Qed.

Lemma does_match {X Y A B} (pre : list Observed -> Prop) n (m : Task X A) (k : A -> Task Y B) h mid err1 post err :
  does pre n m mid err1 -> (forall a, does (mid a) n (k a) post err) -> (forall e, does err1 n (h e) post err) ->
  does pre n (exec_match m k h) post err.
Proof.
  intros Hm Hk Hh tr Htr. apply safe_bind. eapply safe_post; [by apply Hm|].
  intros [a|e|] tr' Hr; [by apply Hk|by apply Hh|by apply safe_ret].
Qed.

Lemma does_map_err {X Y A} (pre : list Observed -> Prop) n (f : X -> Y) (m : Task X A) post err :
  does pre n m post err -> does pre n (exec_map_err f m) post err.
Proof.
  intros Hm tr Htr. apply safe_bind. eapply safe_post; [by apply Hm|].
  intros [a|e|] tr' Hr; by apply safe_ret.
Qed.

Lemma does_os {X A} (pre : list Observed -> Prop) n (e : OsE A) (post : A -> list Observed -> Prop) err :
  (forall a tr, pre tr -> allowed (os_observed e a) tr) ->
  (forall a tr, pre tr -> post a (tr ++ [os_observed e a])) ->
  does pre n (os e : Task X A) post err.
Proof.
  intros Ha Hp tr Htr. apply safe_bind, safe_trigger; [intros a; by apply Ha|].
  intros a tr' [_ ->]. apply safe_ret. by apply Hp.
Qed.

Lemma does_os_res {A} (pre : list Observed -> Prop) n (e : OsE (sres A)) (post : A -> list Observed -> Prop) (err : list Observed -> Prop) :
  (forall a tr, pre tr -> allowed (os_observed e a) tr) ->
  (forall a tr, pre tr -> post a (tr ++ [os_observed e (Ok a)])) ->
  (forall x tr, pre tr -> err (tr ++ [os_observed e (Err x)])) ->
  does pre n (os_res e) post err.
Proof.
  intros Ha Hp He tr Htr. apply safe_trigger; [intros a; by apply Ha|]. intros [a|x|] tr' [_ ->]; [by apply Hp|by apply He|done].
Qed.

Lemma does_store {A} (pre : list Observed -> Prop) n (e : StoreE (sres A)) (post : A -> list Observed -> Prop) (err : list Observed -> Prop) :
  (forall a tr, pre tr -> allowed (store_observed e a) tr) ->
  (forall a tr, pre tr -> post a (tr ++ [store_observed e (Ok a)])) ->
  (forall x tr, pre tr -> err (tr ++ [store_observed e (Err x)])) ->
  does pre n (store e) post err.
Proof.
  intros Ha Hp He tr Htr. apply safe_trigger; [intros a; by apply Ha|]. intros [a|x|] tr' [_ ->]; [by apply Hp|by apply He|done].
Qed.

(** A part whose events are described. *)
Lemma does_part {X A} (pre : list Observed -> Prop) n K (m : Task X A) Q (post : A -> list Observed -> Prop) (err : list Observed -> Prop) :
  emits allowed n K anyway m Q ->
  (forall a tr new, pre tr -> Forall K new -> Q a new -> post a (tr ++ new)) ->
  (forall tr new, pre tr -> Forall K new -> err (tr ++ new)) -> does pre n m post err.
Proof.
  intros Hm Hp He tr Htr. eapply safe_post; [apply Hm|]. intros [a|e|] tr' (new & -> & Hnew & Hr); auto.
Qed.

End triples.

(** ** Classes of events *)

(** The request is answered, or handed to a handler that answers it. *)
Definition answering (o : Observed) : bool :=
  match o with SawRoute _ _ | SawRouteRegistered _ _ _ | SawStop _ _ | SawServe _ _ => true | _ => false end.

Definition answers (tr : list Observed) : nat := length (List.filter answering tr).

Lemma answers_app a b : answers (a ++ b) = (answers a + answers b)%nat.
Proof. unfold answers. by rewrite List.filter_app, length_app. Qed.

(** An event that serves an admitted request and neither answers it nor touches
    another request. *)
Definition plain (o : Observed) : Prop :=
  match o with
  | SawAcceptWork _ _ _ | SawSnapshotTarget _ _ _ | SawWorkloadOf _ _ | SawCurrentOf _ _ | SawRecentAudit _ _
  | SawActiveGrants _ _ _ _ | SawRevokeGrant _ _ _ | SawRecentLogs _ _ | SawBrief _ _
  | SawNetworkDiagnostics _ | SawWakeScheduler _ => True
  | o => harmless o
  end.

Section gate.
Context `{Sha256} `{FlowCodec} `{WireCodec} `{TomlParser}.
Context (authentication_required policy_required : bool).

Section request.
Context (r : RequestEnvelope).

(** The store said that the credential of the request is that of its caller. *)
Definition authenticated_before (tr : list Observed) : Prop :=
  authentication_required = true ->
  exists credential, rq_authentication r = Some credential
    /\ SawAuthenticateCaller (rq_caller_id r) credential (Ok Authenticated) ∈ tr.

(** The decision about the request, for exactly its caller, project,
    capability, resource and approval. *)
Definition authorization_of (capability : CapabilityName) (resource : ResourceName) : AuthorizationRequest :=
  {| az_caller_id := rq_caller_id r; az_project_id := rq_project_id r; az_capability := capability;
     az_resource := resource; az_approval_id := rq_approval_id r |}.

Definition authorized_before (tr : list Observed) : Prop :=
  policy_required = true ->
  exists capability resource uuid audit now,
    capability_parse (policy_name (rq_capability r)) = Ok capability /\ policy_resource r = Ok resource
    /\ SawAuthorizeAudited uuid (authorization_of capability resource) audit now APPROVAL_LIFETIME_MS
         (Ok AuthAllowed) ∈ tr.

(** A root that the operating system identified with the project of the
    request: the project found there has its identity and this root. *)
Definition root_of_project (root : string) (tr : list Observed) : Prop :=
  exists found canonical,
    SawDiscoverProject root (Some found) ∈ tr /\ dp_id found = rq_project_id r
    /\ SawCanonicalize (dp_root found) (Some canonical) ∈ tr /\ path_eqb canonical root = true.

(** A step that the daemon executes: a read-only call of a connector or a
    read-only git command of the allowlist that needs no approval. *)
Definition supported_step (definition : FlowDefinition) (step : FlowStep) : Prop :=
  fs_effect step = ReadOnly
  /\ match fs_action step with
     | Connector _ _ _ => True
     | Command program args _ =>
       program = "git" /\ fs_approval step = ModeNone
       /\ (exists child_args, validated_git_args args = Ok child_args)
       /\ validate_git_semantic_role args (semantic_role step) (fd_schema_version definition) = Ok tt
     end.

(** A flow run as it may be submitted: the document of the request, validated
    and in a worktree of its project, under the resource that names both. *)
Definition submission_of (request : AuthorizeFlowRun) (tr : list Observed) : Prop :=
  exists document root definition workspace execution_root prepared,
    rq_payload r = PayFlowRun document root
    /\ parse_toml toml_from_str (document_str document) = Ok definition
    /\ Forall (supported_step definition) (fd_steps definition)
    /\ root_of_project execution_root tr
    /\ SawFingerprint execution_root (Ok workspace) ∈ tr
    /\ flow_submission definition (fw_fingerprint workspace) execution_root = Ok prepared
    /\ resource_parse (pf_policy_resource prepared) = Ok (af_resource request)
    /\ af_accept request = accept_request r FLOW_OPERATION_KIND (pf_operation prepared)
    /\ af_approval_id request = rq_approval_id r
    /\ af_schema_approval_required request = pf_schema_approval_required prepared.

Definition submitted_before (tr : list Observed) : Prop :=
  exists uuid request now outcome,
    ar_project_id (af_accept request) = rq_project_id r
    /\ SawAuthorizeFlow uuid request now APPROVAL_LIFETIME_MS (Ok (FlowAccepted outcome)) ∈ tr.

(** What must have happened before the request is served. *)
Definition granted (tr : list Observed) : Prop :=
  authenticated_before tr
  /\ match rq_capability r, rq_payload r with
     | CapApprovalDecide, PayApprovalDecide _ _ => True
     | CapFlowRun, PayFlowRun _ _ => submitted_before tr
     | _, _ => authorized_before tr
     end.

(** The request [id] belongs to the project of this one, or was accepted for it. *)
Definition in_project (id : RequestId) (tr : list Observed) : Prop :=
  (exists kind snapshot, rs_project_id snapshot = rq_project_id r /\ SawSnapshotTarget id kind (Ok snapshot) ∈ tr)
  \/ (exists request now outcome, ar_project_id request = rq_project_id r
        /\ accept_outcome_request_id outcome = id /\ SawAcceptWork request now (Ok outcome) ∈ tr)
  \/ (exists uuid request now outcome, ar_project_id (af_accept request) = rq_project_id r
        /\ accept_outcome_request_id outcome = id
        /\ SawAuthorizeFlow uuid request now APPROVAL_LIFETIME_MS (Ok (FlowAccepted outcome)) ∈ tr).

(** The answer tells the caller that the request failed. *)
Definition refusal (messages : list ServerMessage) : Prop :=
  exists result failure, messages = [MessageResult result] /\ re_request_id result = rq_request_id r
    /\ re_project_id result = rq_project_id r /\ re_body result = BodyFailure failure.

(** When an event of the handling of [r] may happen. *)
Definition gated (o : Observed) (tr : list Observed) : Prop :=
  match o with
  | SawAuthorizeAudited _ request _ _ _ _ =>
    authenticated_before tr
    /\ exists capability resource, capability_parse (policy_name (rq_capability r)) = Ok capability
         /\ policy_resource r = Ok resource /\ request = authorization_of capability resource
  | SawAuthorizeFlow _ request _ _ _ => authenticated_before tr /\ submission_of request tr
  | SawDecideApproval id project approver _ _ _ =>
    granted tr /\ (exists decision, rq_payload r = PayApprovalDecide id decision)
    /\ project = rq_project_id r /\ approver = rq_caller_id r
  | SawRememberProjectRoot project root _ => project = rq_project_id r /\ root_of_project root tr
  | SawReplayTarget id _ _ _ | SawCancelTarget id _ _ _ _ | SawSend id _ _ _ => granted tr /\ in_project id tr
  | SawRouteRegistered _ subscribe _ =>
    granted tr /\ in_project (sub_canonical_request_id subscribe) tr /\ answers tr = O
  | SawRoute messages _ => answers tr = O /\ (granted tr \/ refusal messages)
  | SawStop _ _ => granted tr /\ answers tr = O
  | SawServe request _ => request = r /\ granted tr /\ answers tr = O
  | SawAcceptWork _ _ _ | SawSnapshotTarget _ _ _ | SawWorkloadOf _ _ | SawCurrentOf _ _ | SawRecentAudit _ _
  | SawActiveGrants _ _ _ _ | SawRevokeGrant _ _ _ | SawRecentLogs _ _ | SawBrief _ _
  | SawNetworkDiagnostics _ | SawWakeScheduler _ => granted tr
  | o => harmless o
  end.

Lemma harmless_gated o tr : harmless o -> gated o tr.
Proof. destruct o; cbn; tauto. Qed.


(** ** What lasts *)

Lemma authenticated_app tr new : authenticated_before tr -> authenticated_before (tr ++ new).
Proof. intros Ha Hr. destruct (Ha Hr) as (c & Hc & Hin). exists c. set_solver. Qed.

Lemma granted_app tr new : granted tr -> granted (tr ++ new).
Proof.
  intros [Ha Hg]. split; [by apply authenticated_app|].
  destruct (rq_capability r), (rq_payload r);
    first [ exact I
          | destruct Hg as (u & q & now & o & Hp & Hin); exists u, q, now, o; set_solver
          | intros Hr; destruct (Hg Hr) as (c & res & u & a & now & Hc & Hres & Hin);
            exists c, res, u, a, now; set_solver ].
Qed.

Lemma in_project_app id tr new : in_project id tr -> in_project id (tr ++ new).
Proof.
  intros [(k & s & Hp & Hin)|[(q & now & o & Hp & Hid & Hin)|(u & q & now & o & Hp & Hid & Hin)]].
  - left. exists k, s. set_solver.
  - right. left. exists q, now, o. set_solver.
  - right. right. exists u, q, now, o. set_solver.
Qed.

(** The request is granted and was answered [k] times; [target] is known to
    belong to its project. *)
Definition serving (k : nat) (target : option RequestId) (tr : list Observed) : Prop :=
  granted tr /\ answers tr = k /\ forall id, target = Some id -> in_project id tr.

Lemma serving_app k target tr o : answering o = false -> serving k target tr -> serving k target (tr ++ [o]).
Proof.
  intros Ho (Hg & Hk & Ht). split; [by apply granted_app|]. split.
  - rewrite answers_app, Hk. unfold answers. cbn [List.filter]. rewrite Ho. cbn. lia.
  - intros id Hid. by apply in_project_app, Ht.
Qed.

Lemma serving_answer k target tr o : answering o = true -> serving k target tr -> serving (S k) target (tr ++ [o]).
Proof.
  intros Ho (Hg & Hk & Ht). split; [by apply granted_app|]. split.
  - rewrite answers_app, Hk. unfold answers. cbn [List.filter]. rewrite Ho. cbn. lia.
  - intros id Hid. by apply in_project_app, Ht.
Qed.

Lemma plain_answering o : plain o -> answering o = false.
Proof. by destruct o. Qed.

Lemma plain_gated k target o tr : plain o -> serving k target tr -> gated o tr.
Proof. intros Hp (Hg & _ & _). destruct o; cbn in *; try tauto; done. Qed.

(** ** Handlers of a granted request *)

Abbreviation steps := (does gated).

Definition answered {A} : A -> list Observed -> Prop := fun _ tr => answers tr = 1%nat.

(** From a granted request that was answered [k] times, [m] ends with exactly
    one answer. *)
Definition handles (k : nat) (target : option RequestId) (n : nat) (m : Task DaemonError unit) : Prop :=
  steps (serving k target) n m answered anyway.

Lemma handles_done target n : handles 1 target n (done tt).
Proof. apply does_done. by intros tr (_ & Hk & _). Qed.

Lemma handles_err k target n e : handles k target n (exec_err e).
Proof. by apply does_err. Qed.

Lemma handles_lift {A} k target n (a : res DaemonError A) f :
  (forall x, a = Ok x -> handles k target n (f x)) -> handles k target n (exec_bind (daemon_lift a) f).
Proof.
  intros Hf. destruct a as [x|e|].
  - eapply does_bind; [by apply (does_lift _ _ _ _ (fun y tr => y = x /\ serving k target tr)); [intros y tr [= ->]|]|].
    intros y tr [-> Htr]. by apply Hf.
  - eapply does_bind; [apply (does_lift _ _ _ _ (fun _ _ => False)); done|]. by intros y tr [].
  - eapply does_bind; [apply (does_lift _ _ _ _ (fun _ _ => False)); done|]. by intros y tr [].
Qed.

Lemma handles_bind_os {A} k target n (e : OsE A) f :
  (forall a, plain (os_observed e a)) -> (forall a, handles k target n (f a)) ->
  handles k target n (exec_bind (os e) f).
Proof.
  intros Hp Hf. eapply does_bind; [|exact Hf]. apply does_os.
  - intros a tr. by apply plain_gated.
  - intros a tr. by apply serving_app, plain_answering.
Qed.

Lemma handles_bind_store {A} k target n (e : StoreE (sres A)) f :
  (forall a, plain (store_observed e a)) -> (forall a, handles k target n (f a)) ->
  handles k target n (exec_bind (from_store (store e)) f).
Proof.
  intros Hp Hf. eapply does_bind; [|exact Hf]. apply does_map_err, does_store; [| |done].
  - intros a tr. by apply plain_gated.
  - intros a tr. by apply serving_app, plain_answering.
Qed.

Lemma handles_route target n messages : handles 0 target n (os (OsRoute messages)).
Proof.
  apply does_os.
  - intros a tr (Hg & Hk & _). cbn. auto.
  - intros a tr Htr. by destruct (serving_answer 0 target tr (os_observed (OsRoute messages) a) eq_refl Htr) as (_ & ? & _).
Qed.

Lemma handles_refuse target n failure : handles 0 target n (refuse failure).
Proof. apply handles_route. Qed.

Lemma handles_bind_route target n messages f :
  handles 1 target n (f tt) -> handles 0 target n (exec_bind (os (OsRoute messages)) f).
Proof.
  intros Hf. eapply (does_bind _ _ _ _ _ (fun _ => serving 1 target)); [|intros []; exact Hf]. apply does_os.
  - intros a tr (Hg & Hk & _). cbn. auto.
  - intros a tr. by apply serving_answer.
Qed.

Lemma handles_or_failure {A} target n (e : StoreE (sres A)) f :
  (forall a, plain (store_observed e a)) -> (forall a, handles 0 target n (f a)) ->
  handles 0 target n (or_store_failure r e f).
Proof.
  intros Hp Hf. eapply does_match; [|exact Hf|intros x; apply handles_refuse]. apply does_store.
  - intros a tr. by apply plain_gated.
  - intros a tr. by apply serving_app, plain_answering.
  - intros x tr. by apply serving_app, plain_answering.
Qed.

Lemma handles_serve target n : handles 0 target n (from_store (os_res (OsServe r))).
Proof.
  apply does_map_err, does_os_res; [| |done].
  - by intros a tr (Hg & Hk & _).
  - intros a tr Htr. by destruct (serving_answer 0 target tr (os_observed (OsServe r) (Ok a)) eq_refl Htr) as (_ & ? & _).
Qed.

Lemma handles_last_os target n (e : OsE unit) :
  (forall a, plain (os_observed e a)) -> handles 1 target n (os e).
Proof.
  intros Hp. apply does_os.
  - intros a tr. by apply plain_gated.
  - intros a tr Htr. by destruct (serving_app 1 target tr _ (plain_answering _ (Hp a)) Htr) as (_ & ? & _).
Qed.

(** ** Targets *)

Lemma handles_with_target target n id kind missing f :
  (forall snapshot, rs_project_id snapshot = rq_project_id r -> handles 0 (Some id) n (f snapshot)) ->
  handles 0 target n (with_target r id kind missing f).
Proof.
  intros Hf. eapply does_match with
    (mid := fun snapshot tr => serving 0 target tr /\ SawSnapshotTarget id (expected_operation_kind kind) (Ok snapshot) ∈ tr)
    (err1 := serving 0 target).
  - apply does_store.
    + intros a tr. by apply plain_gated.
    + intros a tr Htr. split; [by apply serving_app|set_solver].
    + intros x tr. by apply serving_app.
  - intros snapshot. case_match eqn:E.
    + apply String.eqb_eq in E. eapply does_weaken; [by apply Hf|  |done|done].
      intros tr [(Hg & Hk & _) Hin]. split; [done|]. split; [done|]. intros id' [= <-].
      left. by exists (expected_operation_kind kind), snapshot.
    + eapply does_weaken; [apply handles_refuse| |done|done]. by intros tr [Htr _].
  - intros e. destruct e; first [apply handles_refuse | apply handles_err].
Qed.

(** A call about the target. *)
Lemma handles_bind_target {A} k n id (e : StoreE (sres A)) f :
  (forall a tr, granted tr -> in_project id tr -> gated (store_observed e a) tr) ->
  (forall a, answering (store_observed e a) = false) -> (forall a, handles k (Some id) n (f a)) ->
  handles k (Some id) n (exec_bind (from_store (store e)) f).
Proof.
  intros Hg Ha Hf. eapply does_bind; [|exact Hf]. apply does_map_err, does_store; [| |done].
  - intros a tr (Hgr & _ & Ht). by apply Hg; [|apply Ht].
  - intros a tr. by apply serving_app.
Qed.

Lemma handles_replay k n id after kind f :
  (forall a, handles k (Some id) n (f a)) ->
  handles k (Some id) n (exec_bind (from_store (target_replay id after kind)) f).
Proof. by apply handles_bind_target. Qed.

Lemma handles_cancel_target k n id now result kind f :
  (forall a, handles k (Some id) n (f a)) ->
  handles k (Some id) n (exec_bind (from_store (target_cancel id now result kind)) f).
Proof. by apply handles_bind_target. Qed.

Lemma handles_bind_send k n id messages terminal f :
  (forall a, handles k (Some id) n (f a)) ->
  handles k (Some id) n (exec_bind (os (OsSend id messages terminal)) f).
Proof.
  intros Hf. eapply does_bind; [|exact Hf]. apply does_os.
  - intros a tr (Hg & _ & Ht). cbn. auto.
  - intros a tr. by apply serving_app.
Qed.

Lemma follow_serves n id messages subscribe refresh project :
  sub_canonical_request_id subscribe = id ->
  (forall k, steps (serving k (Some id)) n refresh (fun _ => serving k (Some id)) anyway) ->
  steps (serving 0 (Some id)) n (answer_and_follow messages subscribe refresh project)
    (fun _ => serving 1 (Some id)) anyway.
Proof.
  intros Hid Hrefresh. unfold answer_and_follow. rewrite Hid.
  eapply (does_bind _ _ _ _ _ (fun _ => serving 1 (Some id))).
  { apply does_os.
    - intros a tr (Hg & Hk & Ht). cbn. rewrite Hid. auto.
    - intros a tr. by apply serving_answer. }
  intros registered. case_match; [|by apply does_done].
  eapply does_bind; [by apply does_map_err|]. intros replayed.
  eapply (does_bind _ _ _ _ _ (fun _ => serving 1 (Some id))); [by apply does_lift|]. intros sent. apply does_os.
  - intros a tr (Hg & _ & Ht). cbn. auto.
  - intros a tr. by apply serving_app.
Qed.

Lemma replay_serves k n id after kind :
  steps (serving k (Some id)) n (target_replay id after kind) (fun _ => serving k (Some id)) anyway.
Proof.
  apply does_store; [| |done].
  - intros a tr (Hg & _ & Ht). cbn. auto.
  - intros a tr. by apply serving_app.
Qed.

Lemma handles_follow_accepted n id refresh :
  (forall after, exists after' kind, refresh after = target_replay id after' kind) ->
  handles 0 (Some id) n (follow_accepted r id refresh).
Proof.
  intros Href. apply handles_replay. intros replayed. apply handles_bind_store; [done|]. intros snapshot.
  apply handles_lift. intros stored _. cbn zeta. case_match; [apply handles_route|].
  eapply does_bind; [apply (follow_serves n id); [done|]|].
  - intros served. destruct (Href (last_sequence replayed 0)) as (after' & kind & Heq). rewrite Heq. apply replay_serves.
  - intros []. by apply handles_last_os.
Qed.

(** ** Parts that only audit *)

(** [pre] is kept by events that serve nothing. *)
Definition stable (pre : list Observed -> Prop) : Prop :=
  forall o tr, harmless o -> pre tr -> pre (tr ++ [o]).

Lemma serving_stable k target : stable (serving k target).
Proof. intros o tr Ho. apply serving_app. by destruct o. Qed.

Lemma stable_os {X A} pre n (e : OsE A) :
  stable pre -> (forall a, harmless (os_observed e a)) ->
  steps pre n (os e : Task X A) (fun _ => pre) pre.
Proof. intros Hs Hh. apply does_os; intros a tr Htr; [by apply harmless_gated|by apply Hs]. Qed.

Lemma stable_store {A} pre n (e : StoreE (sres A)) :
  stable pre -> (forall a, harmless (store_observed e a)) ->
  steps pre n (store e) (fun _ => pre) pre.
Proof.
  intros Hs Hh. apply does_store; [intros a tr _; by apply harmless_gated|intros a tr; by apply Hs|].
  intros x tr. by apply Hs.
Qed.

Lemma stable_detail {X} (pre : list Observed -> Prop) n detail :
  steps pre n (redacted_detail detail : Task X string) (fun _ => pre) pre.
Proof.
  unfold redacted_detail. destruct (redact_audit_detail detail); first [by apply does_done | apply does_panic].
Qed.

Lemma stable_event_id {X} pre n stage now :
  stable pre -> steps pre n (request_audit_event_id r stage now : Task X string) (fun _ => pre) pre.
Proof. intros Hs. eapply does_bind; [by apply stable_os|]. intros nonce. by apply does_done. Qed.

Lemma append_event_stable pre n stage action decision outcome detail :
  stable pre -> steps pre n (append_event r stage action decision outcome detail) (fun _ => pre) pre.
Proof.
  intros Hs. eapply does_bind; [by apply stable_os|]. intros now.
  eapply does_bind; [by apply stable_event_id|]. intros id.
  eapply does_bind; [apply stable_detail|]. intros text.
  eapply does_bind; [by apply stable_store|]. intros record. by apply does_done.
Qed.

Lemma handles_audit k target n stage action decision outcome detail f :
  (forall a, handles k target n (f a)) ->
  handles k target n (exec_bind (from_store (append_event r stage action decision outcome detail)) f).
Proof.
  intros Hf. eapply does_bind; [|exact Hf]. eapply does_weaken;
    [apply does_map_err, append_event_stable, serving_stable|done|done|done].
Qed.

(** ** The handlers *)

Create HintDb handlers.
#[local] Hint Resolve handles_route handles_refuse handles_serve handles_err handles_done : handlers.

(** One step of a handler. *)
Ltac handler :=
  match goal with
  | |- handles _ _ _ (or_store_failure _ _ _) => apply handles_or_failure; [done|intros ?]
  | |- handles _ _ _ (with_target _ _ _ _ _) => apply handles_with_target; intros ? ?
  | |- handles _ _ _ (exec_bind (from_store (target_replay _ _ _)) _) => apply handles_replay; intros ?
  | |- handles _ _ _ (exec_bind (from_store (target_cancel _ _ _ _)) _) => apply handles_cancel_target; intros ?
  | |- handles _ _ _ (exec_bind (from_store (append_event _ _ _ _ _ _)) _) => apply handles_audit; intros ?
  | |- handles _ _ _ (exec_bind (from_store (append_change_audit _ _ _ _)) _) => apply handles_audit; intros ?
  | |- handles _ _ _ (exec_bind (daemon_lift _) _) => apply handles_lift; intros ? _
  | |- handles _ _ _ (exec_bind (os (OsSend _ _ _)) _) => apply handles_bind_send; intros ?
  | |- handles _ _ _ (exec_bind (succeed _ _ _) _) => apply handles_bind_route
  | |- handles _ _ _ (exec_bind now_ms _) => apply handles_bind_os; [done|intros ?]
  | |- handles _ _ _ (exec_bind (os _) _) => apply handles_bind_os; [done|intros ?]
  | |- handles _ _ _ (succeed _ _ _) => apply handles_route
  | |- handles _ _ _ (exec_lift Panic) => apply does_panic
  | |- handles 1 _ _ (os _) => by apply handles_last_os
  | |- handles _ _ _ (match ?x with _ => _ end) => destruct x
  | |- handles _ _ _ _ => solve [auto with handlers]
  end.

Lemma revoke_grants_handles target n now grants revoked k :
  (forall revoked, handles 0 target n (k revoked)) -> handles 0 target n (revoke_grants r now grants revoked k).
Proof.
  intros Hk. revert revoked. induction grants as [|g grants IH]; intros revoked; cbn [revoke_grants]; [done|].
  handler. apply IH.
Qed.

Lemma durable_status_handles target n : handles 0 target n (handle_durable_status r).
Proof.
  unfold handle_durable_status. handler.
  eapply does_match with (err1 := serving 0 target)
    (mid := fun outcome => serving 0 (Some (accept_outcome_request_id outcome))).
  - apply does_store.
    + intros o tr. by apply plain_gated.
    + intros o tr Htr. apply (serving_app 0 target tr (SawAcceptWork (accept_request r "status" EmptyString) a (Ok o)) eq_refl) in Htr as (Hg & Hk & _).
      split; [done|]. split; [done|]. intros id [= <-]. right. left.
      exists (accept_request r "status" EmptyString), a, o. split; [done|]. split; [done|]. cbn. set_solver.
    + intros x tr. by apply serving_app.
  - intros outcome. apply handles_follow_accepted. intros after. by exists 0, None.
  - intros e. apply handles_refuse.
Qed.

Context (application_version : string) (durable_status : bool).

Lemma stop_handles target n : handles 0 target n (handle_stop r).
Proof.
  apply does_os.
  - by intros a tr (Hg & Hk & _).
  - intros a tr Htr.
    by destruct (serving_answer 0 target tr (SawStop (success_result r TruthChanged (GotDaemonLifecycle {| dl_stopping := true |})) a)
                   eq_refl Htr) as (_ & ? & _).
Qed.

Lemma follow_handles n id messages subscribe after kind project :
  sub_canonical_request_id subscribe = id ->
  handles 0 (Some id) n (answer_and_follow messages subscribe (target_replay id after kind) project).
Proof.
  intros Hid. eapply does_weaken; [apply (follow_serves n id _ _ _ _ Hid)|done| |done].
  - intros served. apply replay_serves.
  - by intros a tr (_ & Hk & _).
Qed.

#[local] Hint Resolve durable_status_handles stop_handles follow_handles revoke_grants_handles : handlers.

Lemma dispatch_handles n : handles 0 None n (dispatch application_version durable_status r).
Proof.
  unfold dispatch, handle_read_only.
  destruct (rq_capability r); destruct (rq_payload r); try solve [auto with handlers];
    unfold handle_status, handle_project_current, handle_daemon_activity, handle_daemon_logs,
      handle_cancel, handle_replay, handle_brief, handle_network_diagnostics, handle_wait_for_result,
      handle_get_result, handle_grant_revoke; repeat handler.
  apply revoke_grants_handles. intros revoked. repeat handler.
Qed.

End request.
End gate.
