(* ===== verification/IncomingGate.v ===== *)
(** * The gate of a request

    What the daemon does before it serves a request: the authentication of its
    caller, the decision about exactly its effect or the submission of exactly
    its flow, and the refusals. With [IncomingProof] this gives, for every
    frame a client sends, when each event of its handling may happen and that
    it is answered once. *)

From ITree Require Import Core.ITreeDefinition.
From S2P Require Import Prelude Core Policy Redact Paths FlowDef FlowData Protocol ProtocolRequest ProtocolCodec FlowOperation.
From S2P Require Import StoreDef StoreFlow StoreQueue StoreAudit StoreAccess StoreAuth StoreView Exec ExecLogic.
From S2P Require Import FlowSamples StoreStep StoreInv ExecWitness.
From S2P Require Import FlowCommand FlowExecute Scheduler ExecSpec ExecParts Admission Incoming IncomingProof.

Local Open Scope Z_scope.

Section gate.
Context `{Sha256} `{FlowCodec} `{WireCodec} `{TomlParser}.
Context (application_version : string) (authentication_required policy_required durable_status : bool)
  (flow_preflight_delay_ms : Z).

Section request.
Context (r : RequestEnvelope).

Abbreviation steps := (does (gated authentication_required policy_required r)).
Abbreviation authenticated := (authenticated_before authentication_required r).

Definition unanswered (tr : list Observed) : Prop := answers tr = O.

(** The caller was authenticated and nothing was answered. *)
Definition entered (tr : list Observed) : Prop := authenticated tr /\ unanswered tr.

(** ** Parts that serve nothing *)

Lemma unanswered_app tr o : answering o = false -> unanswered tr -> unanswered (tr ++ [o]).
Proof. unfold unanswered. intros Ho Hu. rewrite answers_app, Hu. unfold answers. cbn [List.filter]. by rewrite Ho. Qed.

Lemma harmless_answering o : harmless o -> answering o = false.
Proof. by destruct o. Qed.

Lemma unanswered_stable : stable unanswered.
Proof. intros o tr Ho. by apply unanswered_app, harmless_answering. Qed.

Lemma entered_stable : stable entered.
Proof. intros o tr Ho [Ha Hu]. split; [by apply authenticated_app|by apply unanswered_stable]. Qed.

Lemma stable_all pre tr new : stable pre -> Forall harmless new -> pre tr -> pre (tr ++ new).
Proof.
  intros Hs Hnew. revert tr. induction Hnew as [|o new Ho _ IH]; intros tr Htr; [by rewrite app_nil_r|].
  rewrite cons_middle, app_assoc. by apply IH, Hs.
Qed.

Lemma stable_part {X A} pre n K (m : Task X A) Q :
  stable pre -> (forall o, K o -> harmless o) ->
  emits (gated authentication_required policy_required r) n K anyway m Q ->
  steps pre n m (fun a tr => pre tr /\ exists new, Q a new) pre.
Proof.
  intros Hs HK Hm. eapply does_part; [exact Hm| |].
  - intros a tr new Htr Hnew Ha. split; [|by exists new]. apply stable_all; [done| |done]. by eapply Forall_impl.
  - intros tr new Htr Hnew. apply stable_all; [done| |done]. by eapply Forall_impl.
Qed.

Lemma steps_bind_stable {X A B} pre n (m : Task X A) (k : A -> Task X B) post :
  steps pre n m (fun _ => pre) pre -> (forall a, steps pre n (k a) post anyway) ->
  steps pre n (exec_bind m k) post anyway.
Proof.
  intros Hm Hk. eapply does_bind; [|exact Hk]. by eapply does_weaken; [exact Hm| | |].
Qed.

Lemma steps_now {X B} pre n (k : Z -> Task X B) post :
  stable pre -> (forall now, steps pre n (k now) post anyway) -> steps pre n (exec_bind now_ms k) post anyway.
Proof. intros Hs Hk. apply steps_bind_stable; [by apply stable_os|done]. Qed.

(** ** Refusals *)

Lemma refuse_does {X} (pre : list Observed -> Prop) n failure :
  (forall tr, pre tr -> unanswered tr) -> refusal r [MessageResult failure] ->
  steps pre n (refuse failure : Task X unit) answered anyway.
Proof.
  intros Hpre Hf. apply does_os.
  - intros a tr Htr. cbn. split; [by apply Hpre|by right].
  - intros a tr Htr. red. rewrite answers_app, Hpre by done. done.
Qed.

Lemma failure_refuses code message : refusal r [MessageResult (failure_result r code message)].
Proof. by eexists _, _. Qed.

Lemma with_recovery_refuses recovery f : refusal r [MessageResult f] -> refusal r [MessageResult (with_recovery recovery f)].
Proof.
  intros (result & failure & [= ->] & Hid & Hp & Hb). unfold with_recovery. rewrite Hb. by eexists _, _.
Qed.

Lemma authorization_refuses outcome resource failure :
  authorization_failure_with_resource r outcome resource = Ok failure -> refusal r [MessageResult failure].
Proof. destruct outcome; intros [= <-]; by eexists _, _. Qed.

Lemma flow_authorization_refuses resource outcome failure :
  flow_authorization_failure r resource outcome = Ok failure -> refusal r [MessageResult failure].
Proof. destruct outcome; [done|..]; apply authorization_refuses. Qed.

Lemma unsupported_version_refuses failure :
  unsupported_version_failure r = Some failure -> refusal r [MessageResult failure].
Proof. unfold unsupported_version_failure. case_match; [done|]. intros [= <-]. by eexists _, _. Qed.

(** What a preflight ends with: a refusal, or [done]. *)
Definition preflight (done : list Observed -> Prop) (failure : option ResultEnvelope) (tr : list Observed) : Prop :=
  unanswered tr /\ match failure with Some failure => refusal r [MessageResult failure] | None => done tr end.

Lemma refuse_or_does n done failure k :
  steps (fun tr => unanswered tr /\ done tr) n k answered anyway ->
  steps (preflight done failure) n (refuse_or failure k) answered anyway.
Proof.
  intros Hk. destruct failure as [failure|]; cbn [refuse_or]; [|done].
  intros tr [Hu Hf]. apply (refuse_does unanswered); [done|exact Hf|done].
Qed.

(** ** Authentication *)

Lemma unauthenticated_refused n resource outcome detail :
  steps unanswered n
    (await! _ := append_request_audit r resource "deny" outcome detail in done (Some (unauthenticated_failure r)))
    (preflight authenticated) anyway.
Proof.
  apply steps_bind_stable; [apply append_event_stable, unanswered_stable|]. intros []. apply does_done.
  intros tr Htr. split; [done|]. apply with_recovery_refuses, failure_refuses.
Qed.

Lemma authenticate_request_does n :
  steps unanswered n (authenticate_request r)
    (fun answer tr => unanswered tr /\ (answer = Authenticated -> authenticated tr)) anyway.
Proof.
  unfold authenticate_request. destruct (rq_authentication r) as [credential|] eqn:Hcredential.
  - apply does_store; [done| |done]. intros answer tr Htr. split; [by apply unanswered_app|].
    intros -> _. exists credential. set_solver.
  - by apply does_done.
Qed.

Lemma authentication_failure_does n resource :
  steps unanswered n (authentication_failure authentication_required r resource) (preflight authenticated) anyway.
Proof.
  pose proof (authenticate_request_does n) as Hcheck. pose proof (unauthenticated_refused n resource) as Hrefuse.
  unfold authentication_failure. destruct authentication_required.
  - eapply does_bind; [exact Hcheck|]. intros answer.
    destruct answer; try (eapply does_weaken; [apply Hrefuse|by intros tr [Hu _]|done|done]).
    apply does_done. intros tr [Hu Ha]. split; [done|by apply Ha].
  - apply does_done. intros tr Htr. by split.
Qed.

Lemma request_authentication_preflight_does n resource :
  steps unanswered n (request_authentication_preflight authentication_required r resource)
    (preflight authenticated) anyway.
Proof.
  unfold request_authentication_preflight. case_match; [|apply authentication_failure_does].
  apply does_done. intros tr Htr. split; [done|]. apply failure_refuses.
Qed.

(** ** Authorization *)

Lemma decision_audit_stable {X} pre n capability resource now :
  stable pre -> steps pre n (decision_audit r capability resource now : Task X AuthorizationAudit) (fun _ => pre) pre.
Proof.
  intros Hs. eapply does_bind; [apply stable_detail|]. intros detail.
  eapply does_bind; [by apply stable_event_id|]. intros id. by apply does_done.
Qed.

Lemma authorize_request_does n resource :
  policy_resource r = Ok resource ->
  steps entered n (authorize_request r resource)
    (fun outcome tr => entered tr /\ (outcome = AuthAllowed -> authorized_before policy_required r tr)) anyway.
Proof.
  intros Hresource. unfold authorize_request.
  destruct (capability_parse (policy_name (rq_capability r))) as [capability|e|] eqn:Hcapability;
    [|by apply does_panic..].
  apply steps_now; [apply entered_stable|]. intros now.
  apply steps_bind_stable; [apply decision_audit_stable, entered_stable|]. intros audit.
  apply steps_bind_stable; [by apply stable_os; [apply entered_stable|]|]. intros uuid. apply does_store; [| |done].
  - intros a tr [Ha _]. cbn. split; [done|]. by exists capability, resource.
  - intros outcome tr [Ha Hu]. split; [by split; [apply authenticated_app|apply unanswered_app]|].
    intros -> _. exists capability, resource, uuid, audit, now. set_solver.
Qed.

Definition allowed_before (tr : list Observed) : Prop :=
  authenticated tr /\ authorized_before policy_required r tr.

Lemma authorize_does n resource :
  policy_resource r = Ok resource ->
  steps entered n
    (await! outcome := authorize_request r resource in
     match outcome with
     | AuthAllowed => done None
     | outcome =>
       match authorization_failure r outcome with Ok failure => done (Some failure) | _ => exec_lift Panic end
     end) (preflight allowed_before) anyway.
Proof.
  intros Hresource. eapply does_bind; [by apply authorize_request_does|]. intros outcome.
  assert (Hrefused : forall o, outcome = o -> o <> AuthAllowed ->
    steps (fun tr => entered tr /\ (o = AuthAllowed -> authorized_before policy_required r tr)) n
      (match authorization_failure r o with Ok failure => done (Some failure) | _ => exec_lift Panic end
         : Exec (option ResultEnvelope))
      (preflight allowed_before) anyway).
  { intros o _ _. destruct (authorization_failure r o) as [failure|e|] eqn:Hf; [|by apply does_panic..].
    apply does_done. intros tr [[_ Hu] _]. split; [done|]. by eapply authorization_refuses. }
  destruct outcome; try by apply Hrefused.
  apply does_done. intros tr [[Ha Hu] Hallowed]. split; [done|]. split; [done|by apply Hallowed].
Qed.

Lemma policy_does n resource :
  policy_resource r = Ok resource ->
  steps entered n
    (if policy_required then
       await! outcome := authorize_request r resource in
       match outcome with
       | AuthAllowed => done None
       | outcome =>
         match authorization_failure r outcome with Ok failure => done (Some failure) | _ => exec_lift Panic end
       end
     else if authentication_required then
       await! _ := append_request_audit r resource "allow" "authenticated"
                     "authentication succeeded; policy enforcement disabled" in
       done None
     else done None) (preflight allowed_before) anyway.
Proof.
  intros Hresource. pose proof (authorize_does n _ Hresource) as Hallowed. unfold allowed_before in *.
  destruct policy_required; [exact Hallowed|].
  assert (Hdone : does (gated authentication_required false r) entered n (done None : Exec (option ResultEnvelope))
    (preflight (fun tr => authenticated tr /\ authorized_before false r tr)) anyway).
  { apply does_done. intros tr [Ha Hu]. by split. }
  pose proof entered_stable as Hs. destruct authentication_required; [|exact Hdone].
  eapply (does_bind _ _ _ _ _ (fun _ => entered)); [|by intros []].
  by eapply does_weaken; [apply append_event_stable, Hs| | |].
Qed.

Lemma request_preflight_does n :
  steps unanswered n (request_preflight_with_resource authentication_required policy_required r None)
    (preflight allowed_before) anyway.
Proof.
  unfold request_preflight_with_resource. case_match.
  { apply does_done. intros tr Htr. split; [done|]. apply failure_refuses. }
  destruct (policy_resource r) as [resource|e|] eqn:Hresource; [| |by apply does_panic].
  - eapply does_bind; [apply authentication_failure_does|]. intros [failure|].
    + apply does_done. by intros tr [Hu Hf].
    + eapply does_weaken; [by apply policy_does| |done|done]. by intros tr [Hu Ha].
  - apply does_done. intros tr Htr. split; [done|]. apply failure_refuses.
Qed.

(** ** Project roots *)

Definition root_verified (pre : list Observed -> Prop) (root : res FlowSubmissionError string)
    (tr : list Observed) : Prop :=
  pre tr /\ match root with Ok root => root_of_project r root tr | _ => True end.

Lemma root_refused pre n error : steps pre n (done (Err error) : Exec (res FlowSubmissionError string)) (root_verified pre) anyway.
Proof. by apply does_done. Qed.

(** The operating system is asked; the answer is remembered. *)
Lemma steps_bind_asked {A B} pre (pre' : A -> list Observed -> Prop) n (e : OsE A) (k : A -> Exec B) post :
  stable pre -> (forall a, harmless (os_observed e a)) ->
  (forall a tr, pre tr -> pre (tr ++ [os_observed e a]) -> pre' a (tr ++ [os_observed e a])) ->
  (forall a, steps (pre' a) n (k a) post anyway) -> steps pre n (exec_bind (os e) k) post anyway.
Proof.
  intros Hs Hh Hpre Hk. eapply does_bind; [|exact Hk]. apply does_os.
  - intros a tr _. by apply harmless_gated.
  - intros a tr Htr. apply Hpre; [done|]. by apply Hs.
Qed.

Lemma verify_root_does pre n root :
  stable pre -> steps pre n (verify_flow_project_root root (rq_project_id r)) (root_verified pre) anyway.
Proof.
  intros Hs. unfold verify_flow_project_root. case_match; [apply root_refused|].
  apply (steps_bind_asked pre (fun _ => pre)); [done..|]. intros [canonical_root|]; [|apply root_refused].
  case_match; [apply root_refused|].
  apply (steps_bind_asked pre (fun found tr => pre tr /\ SawDiscoverProject canonical_root found ∈ tr));
    [done|done|set_solver|]. intros [found|]; [|by eapply does_weaken; [apply (root_refused pre)|intros tr []|..]].
  eapply (does_bind _ _ _ _ _ (fun canonical tr => pre tr /\ SawDiscoverProject canonical_root (Some found) ∈ tr
            /\ SawCanonicalize (dp_root found) canonical ∈ tr)).
  { apply does_os; [done|]. intros a tr [Htr Hin]. split; [by apply Hs|]. set_solver. }
  intros [canonical|]; [|by eapply does_weaken; [apply (root_refused pre)|intros tr []|..]].
  case_match eqn:Hsame; [by eapply does_weaken; [apply (root_refused pre)|intros tr []|..]|].
  apply orb_false_iff in Hsame as [Hroot Hid]. apply negb_false_iff in Hroot, Hid. apply String.eqb_eq in Hid.
  apply does_done. intros tr (Htr & Hfound & Hcanonical). split; [done|]. by exists found, canonical.
Qed.

Lemma learn_project_root_does n :
  steps unanswered n (learn_project_root r) (fun _ => unanswered) anyway.
Proof.
  unfold learn_project_root. destruct (rq_project_root r) as [root|]; [|by apply does_done].
  case_match; [by apply does_done|].
  eapply does_bind; [apply verify_root_does, unanswered_stable|]. intros [verified|e|];
    try (by apply does_done; intros tr [? _]). cbn [root_verified].
  case_match; [|by apply does_done; intros tr [? _]].
  eapply (does_match _ _ _ _ _ _ (fun _ => unanswered) unanswered); [|by intros []; apply does_done|by intros e; apply does_done].
  apply does_store.
  - by intros a tr [_ Hroot].
  - intros a tr [Hu _]. by apply unanswered_app.
  - intros x tr [Hu _]. by apply unanswered_app.
Qed.

(** ** Flow submissions *)

Abbreviation asks n m Q := (emits (gated authentication_required policy_required r) n asks_os anyway m Q).

Let bind_checked {A B} := @ck_bind_asks _ _ (gated authentication_required policy_required r) A B.

Lemma supported_step_asks n root definition step :
  asks n (validate_supported_step root definition step) (accepts (fun _ _ => supported_step definition step)).
Proof.
  unfold validate_supported_step.
  destruct (fs_action step) as [program args working_directory|connector capability resource] eqn:Haction.
  - eapply bind_checked; [by apply canonical_working_directory_asks, harmless_gated|]. intros wd new1 _.
    eapply (bind_checked _ _ _ (fun _ _ => supported_step definition step)).
    + case_match eqn:Hgit; [|by apply emits_done]. apply String.eqb_eq in Hgit.
      eapply bind_checked.
      { apply (reject_asks _ _ (validated_git_args args) (fun child _ => validated_git_args args = Ok child)). auto. }
      intros child new2 Hargs. case_match eqn:Hro; [by apply emits_done|].
      rewrite orb_false_iff, !negb_false_iff, !bool_decide_eq_true in Hro. destruct Hro as [Hro Hnone].
      apply reject_asks. intros [] Hrole. unfold supported_step. rewrite Haction.
      by repeat (split; [done || by exists child|]).
    + intros [] new2 Hstep. eapply bind_checked; [by apply resolve_executable_asks, harmless_gated|].
      intros path new3 _. by apply emits_done.
  - case_match eqn:Hro; [|by apply emits_done]. apply emits_done. cbn. unfold supported_step. rewrite Haction.
    by apply bool_decide_eq_true in Hro.
Qed.

Lemma supported_steps_asks n root definition steps :
  asks n (validate_supported_steps root definition steps)
    (accepts (fun _ _ => Forall (supported_step definition) steps)).
Proof.
  induction steps as [|step steps IH]; cbn [validate_supported_steps]; [by apply emits_done, Forall_nil|].
  eapply bind_checked; [apply supported_step_asks|]. intros [] new Hstep.
  eapply emits_weaken; [exact IH|done|done|]. intros [[]|e|] new' _ Hsteps; cbn in *; [|done..]. by constructor.
Qed.

(** What was prepared from the document of the request. *)
Definition prepared_from (document : FlowDefinitionDocument) (execution_root : string)
    (prepared : PreparedFlowSubmission) (tr : list Observed) : Prop :=
  exists definition workspace,
    parse_toml toml_from_str (document_str document) = Ok definition
    /\ Forall (supported_step definition) (fd_steps definition)
    /\ SawFingerprint execution_root (Ok workspace) ∈ tr
    /\ flow_submission definition (fw_fingerprint workspace) execution_root = Ok prepared.

Lemma asks_os_harmless o : asks_os o -> harmless o.
Proof. by destruct o. Qed.

Lemma prepare_flow_submission_does pre n document root :
  stable pre ->
  steps pre n (prepare_flow_submission document root)
    (fun prepared tr => pre tr /\ match prepared with
                                  | Ok prepared => prepared_from document root prepared tr
                                  | _ => True
                                  end) anyway.
Proof.
  intros Hs. unfold prepare_flow_submission.
  destruct (parse_toml toml_from_str (document_str document)) as [definition|e|] eqn:Hparse;
    [|by apply does_done|by apply does_panic].
  eapply (does_bind _ _ _ _ _ (fun supported tr => pre tr
            /\ (supported = Ok tt -> Forall (supported_step definition) (fd_steps definition)))).
  { eapply does_weaken; [by eapply stable_part; [|apply asks_os_harmless|apply supported_steps_asks]|done| |done].
    intros supported tr [Htr [new Hnew]]. split; [done|]. by intros ->. }
  intros [[]|e|]; [|by apply does_done; intros tr [Htr _]|by apply does_panic].
  eapply (does_bind _ _ _ _ _ (fun workspace tr => pre tr /\ Forall (supported_step definition) (fd_steps definition)
            /\ SawFingerprint root workspace ∈ tr)).
  { apply does_os; [done|]. intros a tr [Htr Hsteps]. split; [by apply Hs|]. split; [by apply Hsteps|set_solver]. }
  intros [workspace|e|]; [|by apply does_done; intros tr [Htr _]|by apply does_panic].
  apply does_done. intros tr (Htr & Hsteps & Hin). split; [done|].
  case_match eqn:Hprepared; [|done..]. by exists definition, workspace.
Qed.

(** The run of the request in a worktree of its project, as it was prepared. *)
Definition submitting (document : FlowDefinitionDocument) (execution_root : string)
    (prepared : PreparedFlowSubmission) (tr : list Observed) : Prop :=
  (entered tr /\ root_of_project r execution_root tr) /\ prepared_from document execution_root prepared tr.

Lemma submitting_stable document root prepared : stable (submitting document root prepared).
Proof.
  intros o tr Ho ((Hin & found & canonical & Hfound & Hid & Hroot & Heq) & definition & workspace & Hparse & Hsteps & Hw & Hp).
  split; [split|].
  - by apply entered_stable.
  - exists found, canonical. set_solver.
  - exists definition, workspace. set_solver.
Qed.

Lemma submit_does n document root execution_root prepared resource :
  rq_payload r = PayFlowRun document root -> resource_parse (pf_policy_resource prepared) = Ok resource ->
  steps (submitting document execution_root prepared) n (authorize_flow_submission r prepared resource)
    (fun outcome tr => entered tr /\ forall accepted, outcome = FlowAccepted accepted ->
       submitted_before r tr /\ in_project r (accept_outcome_request_id accepted) tr) unanswered.
Proof.
  intros Hpayload Hresource. pose proof (submitting_stable document execution_root prepared) as Hs.
  pose proof (fun tr (Htr : submitting document execution_root prepared tr) => proj2 (proj1 (proj1 Htr))) as Hu.
  unfold authorize_flow_submission.
  eapply does_bind; [by eapply does_weaken; [apply stable_os|..]|]. intros now.
  eapply does_bind; [by eapply does_weaken; [apply decision_audit_stable|..]|]. intros audit.
  eapply does_bind; [by eapply does_weaken; [apply stable_os|..]|]. intros uuid.
  set (request := {| af_accept := _ |}). apply does_store.
  - intros a tr ((Hin & Hroot) & definition & workspace & Hparse & Hsteps & Hw & Hp). cbn. split; [apply Hin|].
    by exists document, root, definition, workspace, execution_root, prepared.
  - intros outcome tr ((Hin & Hroot) & _). split.
    + destruct Hin. by split; [apply authenticated_app|apply unanswered_app].
    + intros accepted ->. split; [|right; right]; exists uuid, request, now, accepted; set_solver.
  - intros x tr Htr. by apply unanswered_app, Hu.
Qed.

Abbreviation handling pre n m := (steps pre n (m : Task DaemonError unit) answered anyway).

Lemma send_store_failure_does n error : handling unanswered n (send_store_failure r error).
Proof. apply refuse_does; [done|]. apply failure_refuses. Qed.

Lemma handle_flow_run_does n document root execution_root prepared resource :
  rq_capability r = CapFlowRun -> rq_payload r = PayFlowRun document root ->
  resource_parse (pf_policy_resource prepared) = Ok resource ->
  handling (submitting document execution_root prepared) n (handle_flow_run r prepared resource).
Proof.
  intros Hcapability Hpayload Hresource.
  eapply does_match; [by eapply submit_does| |intros error; apply send_store_failure_does].
  assert (Hrefused : forall outcome post,
    steps (fun tr => entered tr /\ post tr) n
      (await! failure := daemon_lift (flow_authorization_failure r resource outcome) in refuse failure)
      answered anyway).
  { intros outcome post.
    eapply (does_bind _ _ _ _ _ (fun failure tr => unanswered tr /\ refusal r [MessageResult failure])).
    - apply does_lift; [|done]. intros failure tr Hf [[_ Hu] _]. split; [done|by eapply flow_authorization_refuses].
    - intros failure tr [Hu Hf]. by apply (refuse_does unanswered). }
  intros outcome. destruct outcome as [accepted| | | |]; [|apply Hrefused..].
  eapply does_weaken; [apply (handles_follow_accepted _ _ r n (accept_outcome_request_id accepted)); eauto| |done|done].
  intros tr [[Ha Hu] Haccepted]. destruct (Haccepted accepted eq_refl) as [Hs Hp]. split; [|split; [done|]].
  - split; [done|]. by rewrite Hcapability, Hpayload.
  - by intros id [= <-].
Qed.

Lemma static_resource_does pre n name :
  steps pre n (static_resource name) (fun _ => pre) anyway.
Proof. unfold static_resource. destruct (resource_parse name); first [by apply does_done | by apply does_panic]. Qed.

Lemma refuse_failure_does (pre : list Observed -> Prop) n code message :
  (forall tr, pre tr -> unanswered tr) -> handling pre n (refuse (failure_result r code message)).
Proof. intros Hpre. apply refuse_does; [done|]. apply failure_refuses. Qed.

Lemma admit_flow_run_does n document root :
  rq_capability r = CapFlowRun -> rq_payload r = PayFlowRun document root ->
  handling unanswered n (admit_flow_run authentication_required flow_preflight_delay_ms r document root).
Proof.
  intros Hcapability Hpayload. unfold admit_flow_run.
  eapply does_bind; [apply static_resource_does|]. intros unprepared.
  eapply does_bind; [apply does_map_err, request_authentication_preflight_does|]. intros failure.
  eapply does_weaken with (pre := preflight authenticated failure); [|done..]. apply refuse_or_does.
  eapply does_weaken with (pre := entered); [|by intros tr [Hu Ha]|done|done].
  apply steps_bind_stable; [by eapply does_weaken; [apply stable_os; [apply entered_stable|]|..]|]. intros admitted.
  case_match.
  { apply refuse_does; [by intros tr [_ Hu]|]. apply with_recovery_refuses, failure_refuses. }
  apply steps_bind_stable.
  { case_match; [by apply does_done|by eapply does_weaken; [apply stable_os; [apply entered_stable|]|..]]. }
  intros [].
  eapply does_bind; [apply does_map_err, verify_root_does, entered_stable|]. intros [execution_root|error|];
    [|apply refuse_failure_does; by intros tr [[_ Hu] _]|by apply does_panic].
  eapply (does_bind _ _ _ _ _ (fun prepared tr => (entered tr /\ root_of_project r execution_root tr) /\
            match prepared with Ok prepared => prepared_from document execution_root prepared tr | _ => True end)).
  { apply does_map_err, prepare_flow_submission_does. intros o tr Ho [Hin (found & canonical & Hfound)].
    split; [by apply entered_stable|]. exists found, canonical. set_solver. }
  intros [prepared|error|]; [|apply refuse_failure_does; by intros tr [[[_ Hu] _] _]|by apply does_panic].
  destruct (resource_parse (pf_policy_resource prepared)) as [resource|e|] eqn:Hresource;
    [|apply refuse_failure_does; by intros tr [[[_ Hu] _] _]|by apply does_panic].
  by eapply handle_flow_run_does.
Qed.

(** ** Approvals *)

Lemma approval_decision_does n id decision :
  rq_capability r = CapApprovalDecide -> rq_payload r = PayApprovalDecide id decision ->
  handling entered n (handle_approval_decision r id decision).
Proof.
  intros Hcapability Hpayload. unfold handle_approval_decision.
  assert (Hgranted : forall tr, authenticated tr -> granted authentication_required policy_required r tr).
  { intros tr Ha. split; [done|]. by rewrite Hcapability, Hpayload. }
  apply steps_now; [apply entered_stable|]. intros now.
  eapply (does_match _ _ _ _ _ _ (fun _ => entered) unanswered).
  - apply does_store.
    + intros a tr [Ha _]. cbn. split; [by apply Hgranted|]. split; [by exists decision|done].
    + intros a tr [Ha Hu]. by split; [apply authenticated_app|apply unanswered_app].
    + intros x tr [_ Hu]. by apply unanswered_app.
  - intros outcome. eapply does_weaken; [apply (handles_route _ _ r None n)| |done|done].
    intros tr [Ha Hu]. split; [by apply Hgranted|]. by split.
  - intros error. destruct error; first [by apply refuse_failure_does | apply send_store_failure_does].
Qed.

(** ** A request *)

Lemma handle_request_does n :
  handling unanswered n
    (handle_request application_version authentication_required policy_required durable_status
       flow_preflight_delay_ms r).
Proof.
  unfold handle_request. case_match; [by apply refuse_failure_does|].
  destruct (unsupported_version_failure r) as [failure|] eqn:Hversion; cbn [refuse_or].
  { apply refuse_does; [done|]. by apply unsupported_version_refuses. }
  case_match; [by apply refuse_failure_does|].
  eapply does_bind; [apply does_map_err, learn_project_root_does|]. intros [].
  assert (Hordinary : (forall tr, allowed_before tr -> granted authentication_required policy_required r tr) ->
    handling unanswered n
      (await! failure := from_store (request_preflight_with_resource authentication_required policy_required r None) in
       refuse_or failure (dispatch application_version durable_status r))).
  { intros Hgranted. eapply does_bind; [apply does_map_err, request_preflight_does|]. intros failure.
    eapply does_weaken with (pre := preflight allowed_before failure); [|done..]. apply refuse_or_does.
    eapply does_weaken; [apply dispatch_handles| |done|done]. intros tr [Hu Ha]. by split; [apply Hgranted|split]. }
  destruct (rq_capability r) eqn:Hcapability; destruct (rq_payload r) eqn:Hpayload;
    try (apply Hordinary; intros tr [Ha Hp]; split; [exact Ha|rewrite Hcapability; try rewrite Hpayload; exact Hp]).
  - eapply does_bind; [apply static_resource_does|]. intros resource.
    eapply does_bind; [apply does_map_err, request_authentication_preflight_does|]. intros failure.
    eapply does_weaken with (pre := preflight authenticated failure); [|done..]. apply refuse_or_does.
    eapply does_weaken; [by eapply approval_decision_does| |done|done]. by intros tr [Hu Ha].
  - by apply admit_flow_run_does.
Qed.

End request.

(** ** The handling ends *)

(** Whatever the answers are, the task ends after finitely many questions. *)
Inductive finishes {R} (t : itree DaemonE R) : Prop :=
| finishes_ret a : ITreeDefinition.observe t = RetF a -> finishes t
| finishes_tau t' : ITreeDefinition.observe t = TauF t' -> finishes t' -> finishes t
| finishes_vis A (e : DaemonE A) k :
    ITreeDefinition.observe t = VisF e k -> (forall a, finishes (k a)) -> finishes t.

Lemma finishes_observe {R} (t t' : itree DaemonE R) :
  ITreeDefinition.observe t = ITreeDefinition.observe t' -> finishes t' -> finishes t.
Proof. intros Ho Hf. destruct Hf; rewrite <- Ho in *; by econstructor. Qed.

Lemma finishes_bind {R U} (t : itree DaemonE R) (k : R -> itree DaemonE U) :
  finishes t -> (forall a, finishes (k a)) -> finishes (ITree.bind t k).
Proof.
  intros Ht Hk. induction Ht as [t a Ho|t t' Ho _ IH|t A e h Ho _ IH].
  - eapply finishes_observe; [by rewrite observe_bind, Ho|apply Hk].
  - by eapply finishes_tau; [by rewrite observe_bind, Ho|].
  - by eapply finishes_vis; [by rewrite observe_bind, Ho|].
Qed.

Lemma finishes_value {X A} (r : res X A) : finishes (Ret r : Task X A).
Proof. by eapply finishes_ret. Qed.

Lemma finishes_trigger {A} (e : DaemonE A) : finishes (ITree.trigger e).
Proof. eapply finishes_vis; [done|]. intros a. by eapply finishes_ret. Qed.

Lemma finishes_exec_bind {X A B} (m : Task X A) (k : A -> Task X B) :
  finishes m -> (forall a, finishes (k a)) -> finishes (exec_bind m k).
Proof. intros Hm Hk. apply finishes_bind; [done|]. intros [a|e|]; [apply Hk|apply finishes_value..]. Qed.

Lemma finishes_exec_match {X Y A B} (m : Task X A) (k : A -> Task Y B) h :
  finishes m -> (forall a, finishes (k a)) -> (forall e, finishes (h e)) -> finishes (exec_match m k h).
Proof. intros Hm Hk Hh. apply finishes_bind; [done|]. intros [a|e|]; [apply Hk|apply Hh|apply finishes_value]. Qed.

Lemma finishes_map_err {X Y A} (f : X -> Y) (m : Task X A) : finishes m -> finishes (exec_map_err f m).
Proof. intros Hm. apply finishes_bind; [done|]. intros a. apply finishes_value. Qed.

Lemma finishes_os {X A} (e : OsE A) : finishes (os e : Task X A).
Proof. apply finishes_bind; [apply finishes_trigger|]. intros a. apply finishes_value. Qed.

Create HintDb finishes.
Ltac finish :=
  repeat match goal with
  | |- finishes (exec_bind _ _) => apply finishes_exec_bind; [|intros ?]
  | |- finishes (exec_match _ _ _) => apply finishes_exec_match; [|intros ?|intros ?]
  | |- finishes (from_store _) => apply finishes_map_err
  | |- finishes (exec_map_err _ _) => apply finishes_map_err
  | |- finishes (ck_bind _ _) => apply finishes_exec_bind; [|intros [?|?|]]
  | |- finishes (match ?x with _ => _ end) => destruct x
  | |- finishes (done _) => apply finishes_value
  | |- finishes (exec_err _) => apply finishes_value
  | |- finishes (ck_ret _) => apply finishes_value
  | |- finishes (ck_err _) => apply finishes_value
  | |- finishes (reject _) => apply finishes_value
  | |- finishes (exec_lift _) => apply finishes_value
  | |- finishes (daemon_lift _) => apply finishes_value
  | |- finishes (store _) => apply finishes_trigger
  | |- finishes (os_res _) => apply finishes_trigger
  | |- finishes (os _) => apply finishes_os
  | |- finishes (refuse _) => apply finishes_os
  | |- finishes _ => solve [auto with finishes nocore]
  end.

Lemma verify_root_finishes root project : finishes (verify_flow_project_root root project).
Proof. unfold verify_flow_project_root. finish. Qed.

Lemma find_executable_finishes program root directories : finishes (find_executable program root directories).
Proof. induction directories as [|d ds IH]; cbn [find_executable]; finish. Qed.

#[local] Hint Resolve verify_root_finishes find_executable_finishes : finishes.

Lemma supported_steps_finishes root definition steps : finishes (validate_supported_steps root definition steps).
Proof.
  induction steps as [|step steps IH]; cbn [validate_supported_steps]; [finish|].
  unfold validate_supported_step, canonical_working_directory, resolve_executable. finish.
Qed.


#[local] Hint Resolve supported_steps_finishes : finishes.

Lemma append_event_finishes r stage action decision outcome detail :
  finishes (append_event r stage action decision outcome detail).
Proof. unfold append_event, now_ms, request_audit_event_id, redacted_detail. finish. Qed.

Lemma decision_audit_finishes {X} r capability resource now :
  finishes (decision_audit r capability resource now : Task X AuthorizationAudit).
Proof. unfold decision_audit, request_audit_event_id, redacted_detail. finish. Qed.

#[local] Hint Resolve append_event_finishes decision_audit_finishes : finishes.

Lemma authentication_failure_finishes r resource :
  finishes (authentication_failure authentication_required r resource).
Proof. unfold authentication_failure, authenticate_request, append_request_audit. finish. Qed.

#[local] Hint Resolve authentication_failure_finishes : finishes.

Lemma authentication_preflight_finishes r resource :
  finishes (request_authentication_preflight authentication_required r resource).
Proof. unfold request_authentication_preflight. finish. Qed.

Lemma preflight_finishes r :
  finishes (request_preflight_with_resource authentication_required policy_required r None).
Proof. unfold request_preflight_with_resource, authorize_request, append_request_audit, now_ms. finish. Qed.

#[local] Hint Resolve authentication_preflight_finishes preflight_finishes : finishes.

Lemma answer_and_follow_finishes messages subscribe refresh project :
  finishes refresh -> finishes (answer_and_follow messages subscribe refresh project).
Proof. intros Hr. unfold answer_and_follow. finish. Qed.

Lemma with_target_finishes r id kind missing f :
  (forall snapshot, finishes (f snapshot)) -> finishes (with_target r id kind missing f).
Proof. intros Hf. unfold with_target, target_snapshot, refuse. finish; apply Hf. Qed.

Lemma follow_accepted_finishes r id refresh :
  (forall after, finishes (refresh after)) -> finishes (follow_accepted r id refresh).
Proof.
  intros Hr. unfold follow_accepted, target_replay, target_snapshot. finish. by apply answer_and_follow_finishes.
Qed.

Lemma revoke_grants_finishes r now grants revoked k :
  (forall revoked, finishes (k revoked)) -> finishes (revoke_grants r now grants revoked k).
Proof.
  intros Hk. revert revoked. induction grants as [|g grants IH]; intros revoked; cbn [revoke_grants]; [done|].
  unfold or_store_failure, send_store_failure, refuse. finish.
Qed.

Lemma dispatch_finishes r : finishes (dispatch application_version durable_status r).
Proof.
  unfold dispatch, handle_read_only.
  destruct (rq_capability r); destruct (rq_payload r);
    unfold handle_durable_status, handle_stop, handle_status, handle_project_current, handle_daemon_activity,
      handle_daemon_logs, handle_cancel, handle_replay, handle_brief, handle_network_diagnostics,
      handle_wait_for_result, handle_get_result, handle_grant_revoke, or_store_failure, send_store_failure, refuse,
      succeed, append_change_audit, target_replay, target_cancel, now_ms; finish;
    first [ apply with_target_finishes; intros ?; unfold succeed, refuse; finish;
              apply answer_and_follow_finishes; finish
          | apply follow_accepted_finishes; intros ?; finish
          | apply revoke_grants_finishes; intros ?; finish ].
Qed.

Lemma static_resource_finishes name : finishes (static_resource name).
Proof. unfold static_resource. finish. Qed.

#[local] Hint Resolve dispatch_finishes static_resource_finishes : finishes.

Lemma admit_flow_run_finishes r document root :
  finishes (admit_flow_run authentication_required flow_preflight_delay_ms r document root).
Proof.
  unfold admit_flow_run, prepare_flow_submission, validate_supported_definition, handle_flow_run,
    authorize_flow_submission, refuse_or, send_store_failure, now_ms.
  finish. apply follow_accepted_finishes. intros after. apply finishes_trigger.
Qed.

#[local] Hint Resolve admit_flow_run_finishes : finishes.

Abbreviation handle := (handle_incoming application_version authentication_required policy_required durable_status
                          flow_preflight_delay_ms).

Lemma handle_incoming_finishes payload : finishes (handle payload).
Proof.
  unfold handle_incoming, handle_request, refuse_or, learn_project_root, handle_approval_decision, succeed,
    send_store_failure, now_ms. finish.
Qed.

(** ** Properties *)

Lemma handle_decoded payload r n :
  decode_request_envelope payload = Ok r ->
  does (gated authentication_required policy_required r) unanswered n (handle payload) answered anyway.
Proof. intros Hr. unfold handle_incoming. rewrite Hr. apply handle_request_does. Qed.

Lemma handle_runs payload t tr before o after :
  runs (handle payload) tr t -> tr = before ++ o :: after ->
  exists r, decode_request_envelope payload = Ok r /\ gated authentication_required policy_required r o before.
Proof.
  intros Hruns Htr. destruct (decode_request_envelope payload) as [r|e|] eqn:Hr.
  - exists r. split; [done|]. eapply runs_allowed; [|exact Hruns|exact Htr].
    intros n. by apply (handle_decoded payload r n Hr []).
  - exfalso. eapply (runs_allowed (fun _ _ => False)); [|exact Hruns|exact Htr].
    intros n. unfold handle_incoming. rewrite Hr. by apply (safe_ret _ _ _ _ (fun _ _ => True)).
  - exfalso. eapply (runs_allowed (fun _ _ => False)); [|exact Hruns|exact Htr].
    intros n. unfold handle_incoming. rewrite Hr. by apply (safe_ret _ _ _ _ (fun _ _ => True)).
Qed.

Lemma answering_first r o tr :
  answering o = true -> gated authentication_required policy_required r o tr -> answers tr = O.
Proof. destruct o; try done; cbn; tauto. Qed.

Lemma answers_once tr :
  (forall before o after, tr = before ++ o :: after -> answering o = true -> answers before = O) -> (answers tr <= 1)%nat.
Proof.
  induction tr as [|o tr IH] using rev_ind; intros Hfirst; [cbn; lia|].
  rewrite answers_app. destruct (answering o) eqn:Ho; unfold answers at 2; cbn [List.filter]; rewrite Ho; cbn.
  - by rewrite (Hfirst tr o [] eq_refl Ho).
  - rewrite Nat.add_0_r. apply IH. intros before o' after -> Ho'. apply (Hfirst before o' (after ++ [o])); [|done].
    by rewrite <- app_assoc.
Qed.


(** C15: a request is answered once. The handling of a frame ends after finitely
    many questions to the store and the operating system; it answers at most
    once, and if a decoded request ends without an error it was answered. *)
Theorem requests_are_answered_once payload :
  finishes (handle payload)
  /\ forall t tr, runs (handle payload) tr t ->
       (answers tr <= 1)%nat
       /\ forall r, decode_request_envelope payload = Ok r -> ITreeDefinition.observe t = RetF (Ok tt) ->
            answers tr = 1%nat.
Proof.
  split; [apply handle_incoming_finishes|]. intros t tr Hruns. split.
  - apply answers_once. intros before o after Htr Ho. destruct (handle_runs _ _ _ _ _ _ Hruns Htr) as (r & _ & Hg).
    by eapply answering_first.
  - intros r Hr Hend.
    apply (runs_ends (gated authentication_required policy_required r) (handle payload) t tr
      (fun (a : res DaemonError unit) tr => match a with Ok a => answered a tr | _ => True end) (Ok tt)); [|exact Hruns|exact Hend].
    intros n. eapply safe_post; [by apply (handle_decoded payload r n Hr [])|]. by intros [a|e|] w.
Qed.

End gate.

(** ** A flow run, from the frame to its execution *)

#[local] Existing Instances sample_hash watch_toml watch_codec.

Definition run_frame : string := "frame".

Definition run_request : RequestEnvelope :=
  {| rq_protocol_version := PROTOCOL_VERSION; rq_request_id := "run-1"; rq_caller_id := "alice";
     rq_authentication := Some "secret-a"; rq_approval_id := None; rq_project_root := None;
     rq_project_id := "project-1"; rq_capability := CapFlowRun; rq_idempotency_key := "key-1";
     rq_deadline_unix_ms := None;
     rq_payload := PayFlowRun {| document_str := watch_text |} {| root_str := "/work/app" |} |}.

#[local] Instance run_wire : WireCodec := {|
  request_to_vec _ := None; request_raw_from_slice _ := Some run_request;
  message_to_vec _ := Some "message"%string; message_raw_from_slice _ := None
|}.

Definition known_store : Store :=
  run_calls [CallRegisterCaller "alice" "secret-a" None 100; CallPutGrant watch_grant] empty_store.

Definition run_admitted :=
  drive (world 500 (Ok ticket_read)) 100 (handle_incoming "1.0" true true false 0 run_frame) known_store.



(** The frame is admitted, and the run it stored is claimed, executed and
    succeeds. *)
Example admitted_run_succeeds :
  ITreeDefinition.observe run_admitted.1.2 = RetF (Ok tt)
  /\ succeeded (ending (drive_flow (Ok ticket_read) 1000 (claimed "token-1" 900 run_admitted.2)).1.2) = true.
Proof. split; vm_compute; reflexivity. Qed.

Lemma run_admitted_runs :
  runs (handle_incoming "1.0" true true false 0 run_frame) run_admitted.1.1 run_admitted.1.2.
Proof. unfold run_admitted. apply drive_runs. Qed.


(** With another credential nothing is asked but who the caller is; one answer
    refuses it. *)
Definition forged_request : RequestEnvelope :=
  {| rq_protocol_version := PROTOCOL_VERSION; rq_request_id := "run-2"; rq_caller_id := "alice";
     rq_authentication := Some "secret-b"; rq_approval_id := None; rq_project_root := None;
     rq_project_id := "project-1"; rq_capability := CapCancelRequest; rq_idempotency_key := "key-2";
     rq_deadline_unix_ms := None; rq_payload := PayCancel "run-1" None |}.

Definition forged_wire : WireCodec := {|
  request_to_vec _ := None; request_raw_from_slice _ := Some forged_request;
  message_to_vec _ := Some "message"%string; message_raw_from_slice _ := None
|}.

Definition forged :=
  drive (world 500 (Ok ticket_read)) 100 (@handle_incoming _ _ forged_wire _ "1.0" true true false 0 run_frame)
    run_admitted.2.

Example forged_refused :
  (fun o => match o with
            | SawAuthenticateCaller _ _ _ => 1 | SawAppendAudit _ _ => 2 | SawRoute [MessageResult f] _ =>
              match re_body f with BodyFailure f => match fa_code f with CodeUnauthenticated => 3 | _ => 4 end | _ => 5 end
            | SawNow _ | SawEventNonce _ => 6
            | _ => 7 end) <$> forged.1.1
  = [1; 6; 6; 2; 3].
Proof. vm_compute. reflexivity. Qed.

Lemma requests_are_answered_once_witness : answers run_admitted.1.1 = 1%nat.
Proof.
  apply (proj2 (requests_are_answered_once "1.0" true true false 0 run_frame) _ _ run_admitted_runs) with run_request;
    vm_compute; reflexivity.
Defined.
